(* ===== verification/_CoqProject ===== *)
-Q . S2P
Prelude.v
Text.v
TextSearch.v
Effects.v
JobState.v
Provider.v
JobMemory.v
ContextManager.v
Session.v
Undo.v
Submission.v
ThreadOps.v
ReplyText.v
Prompts.v
Reasoning.v
AgenticLoop.v
CircuitBreaker.v
Retry.v
Failover.v
ResponseCache.v
RateLimiter.v
Costs.v
CostGuard.v
Allowlist.v
TokenStore.v
F64.v
ContextMonitor.v
Compaction.v
SmartRouting.v
ProviderChain.v
LeakDetector.v
Sanitizer.v
Validator.v
SafetyLayer.v
ToolParams.v
Redaction.v
ToolExec.v
Skills.v
Ssrf.v
PathUtils.v
Credentials.v
HttpTool.v
Hooks.v
WorkspaceSearch.v
Pairing.v
Shell.v
SessionManager.v
History.v
Messages.v
ChatText.v
Dispatcher.v
UserTurn.v
Worker.v
Scheduler.v
JobControl.v
Words.v
Routine.v
RoutineStore.v
RoutineEngine.v
UserStore.v
Oidc.v
GatewayAuth.v
UserHandlers.v
