(* ===== verification/Prelude.v ===== *)
(** * IronClaw: a verified model of the agent core

    IronClaw is a personal assistant agent written in Rust.  A message from a
    channel is parsed into a submission, routed to a thread of a session, and
    answered by an agent that calls language models and tools; long work runs
    as jobs.  This library models the parts of that program that keep state
    and decide: the threads and their undo history, the jobs, the decorators
    around the model providers, the limits on tools and spending, and the
    guards on what leaves the machine and what comes back.

    ** How the parts interact

    A stranger is admitted to a channel by [Pairing].  A message and its
    attachments ([Messages]) belong to a thread that [SessionManager] finds or
    makes, after [History] has brought back what the database knows of it.  A
    submission ([Submission.parse]) either controls a thread
    ([ThreadOps], which uses [Session] and [Undo]) or is user input, an
    approval or a token ([UserTurn]).  User input is screened and starts a
    turn.  A turn runs the agentic loop ([AgenticLoop]) with the chat delegate
    ([Dispatcher], with the texts of [ChatText]), which asks [CostGuard] for
    permission before a model call and the hooks and the user before a tool
    call.  The turn renders the thread to messages ([Session.messages]), compacts
    them when [ContextMonitor] says so ([Compaction]), and lets [Reasoning]
    build the request: the system prompt ([Prompts]), the messages, sanitized
    ([Provider.sanitize_tool_messages]), and the tools.  Providers are objects
    behind the trait [LlmProvider]: here a type class over the state of the
    object, whose instances are the decorators [Retry], [SmartRouting],
    [Failover], [CircuitBreaker] and [ResponseCache]; each one is proved
    against the class, and [ProviderChain] stacks them as the configuration
    says.  The reply is cleaned ([ReplyText]); its tool calls pass
    [RateLimiter] and [ToolExec], which looks the tool up, brings the
    parameters into the shape of its schema ([ToolParams]), validates them
    ([Validator]), runs the tool and hands the output to [SafetyLayer]:
    [LeakDetector], the policy and the injection patterns of [Sanitizer], and
    the delimiters around untrusted text.  [Redaction] hides secrets in what is
    logged.  Before a turn, [Skills] selects the skills whose instructions join
    the prompt and lowers the tools the model is offered to what the least
    trusted of them may use; [Hooks] lets registered hooks rewrite or stop a
    message, a tool call or a reply.  The requests of WASM tools and of
    sandboxed processes pass [Allowlist].  The tool [HttpTool] sends requests:
    its targets pass [Ssrf] (as do the webhooks of [Hooks]), its secrets come
    from [Credentials], the file it saves a body to passes [PathUtils], and
    [LeakDetector] scans what it sends.  The tool [Shell] screens a command
    and runs it in the sandbox or on the host.  [WorkspaceSearch] cuts documents into
    the chunks that are indexed and fuses the results of the two searches.
    Jobs live in [ContextManager], each with a [JobState] context
    and a [JobMemory].  [Scheduler] admits a job, gives it the tools it may use
    without a question and spawns a [Worker], which plans and runs the agentic
    loop with a delegate of its own until it marks the job as completed, failed
    or stuck; [JobControl] has the commands of the user on jobs and the loop
    that repairs the stuck ones.  A routine ([Routine], stored by [RoutineStore])
    is fired by [RoutineEngine] on a schedule, on a message, on an event or on a
    webhook, and runs as a short loop of its own or as a job of the [Scheduler].
    The container of a sandboxed job identifies
    itself through [TokenStore].  A request to the web gateway passes the
    middleware of [GatewayAuth], which asks the configured tokens, the table of
    tokens ([UserStore]) through a cache, and the identity provider ([Oidc]);
    [UserHandlers] manages the users and their tokens behind it.

    ** Files

    - [Prelude]: results, machine integers, clocks, the list operations of
      [Vec] and [VecDeque], the class [Decimal], tactics and hints.
    - [Text], [TextSearch]: the operations of [str] on UTF-8 byte strings.
    - [F64]: floating-point numbers.
    - [Effects]: the state monad [St] of the handlers that thread their state
      through many calls, with its rules for invariants ([preserves]) and
      outcomes ([outcome]).
    - [JobState]: [src/context/state.rs].
    - [Provider]: [src/llm/provider.rs], [src/llm/error.rs] and
      [truncate_preview] of [crates/ironclaw_common/src/util.rs].
    - [JobMemory]: [src/context/memory.rs].
    - [ContextManager]: [src/context/manager.rs].
    - [Session]: [src/agent/session.rs].
    - [Undo]: [src/agent/undo.rs].
    - [Submission]: [src/agent/submission.rs].
    - [ThreadOps]: the undo, redo, interrupt, clear and resume handlers and the
      checkpoint before a turn of [src/agent/thread_ops.rs], and
      [get_undo_manager] of [src/agent/session_manager.rs].
    - [UserTurn]: [process_user_input], [process_approval],
      [process_auth_token] and [process_compact] of
      [src/agent/thread_ops.rs].
    - [History]: hydration and persistence of [src/agent/thread_ops.rs].
    - [SessionManager]: [src/agent/session_manager.rs].
    - [Messages]: [src/agent/attachments.rs], [src/agent/router.rs], the
      messages of [src/channels/channel.rs] and two helpers of
      [src/agent/agent_loop.rs].
    - [ChatText], [Dispatcher]: [src/agent/dispatcher.rs], the status updates
      of [src/channels/channel.rs] and the escaping of [src/skills/mod.rs].
    - [Worker]: [src/worker/job.rs], [src/worker/autonomous_recovery.rs],
      [src/context/fallback.rs], [src/tools/autonomy.rs] and the job events of
      [crates/ironclaw_common/src/event.rs].
    - [Scheduler]: [src/agent/scheduler.rs] and [src/agent/task.rs].
    - [JobControl]: the job handlers of [src/agent/commands.rs] and
      [src/agent/self_repair.rs] with its loop in [src/agent/agent_loop.rs].
    - [Words]: how the words of a text are found piece by piece; shared lemmas.
    - [Routine]: [src/agent/routine.rs].
    - [RoutineStore]: the routine queries of [src/history/store.rs] on the tables
      of [migrations/V6__routines.sql].
    - [RoutineEngine]: [src/agent/routine_engine.rs] and the webhook handlers of
      [src/channels/web/handlers/webhooks.rs].
    - [UserStore]: the user, token and usage queries of [src/history/store.rs] on
      the tables of [migrations/V14__users.sql].
    - [Oidc], [GatewayAuth]: [src/channels/web/auth.rs] (the tokens of the identity
      provider; the rest).
    - [UserHandlers]: [src/channels/web/handlers/users.rs] and [tokens.rs] there,
      and the first administrator of [src/main.rs].
    - [Pairing]: [src/pairing/store.rs].
    - [Shell]: [src/tools/builtin/shell.rs].
    - [CircuitBreaker]: [src/llm/circuit_breaker.rs].
    - [Retry]: [src/llm/retry.rs].
    - [Failover]: [src/llm/failover.rs].
    - [ResponseCache]: [src/llm/response_cache.rs].
    - [RateLimiter]: [src/tools/rate_limiter.rs].
    - [Costs]: [src/llm/costs.rs].
    - [Allowlist]: [src/tools/wasm/allowlist.rs], [EndpointPattern] of
      [src/tools/wasm/capabilities.rs] and [src/sandbox/proxy/allowlist.rs].
    - [TokenStore]: [src/orchestrator/auth.rs].
    - [CostGuard]: [src/agent/cost_guard.rs], its use by [TenantCtx] of
      [src/tenant.rs] and the guard of [call_llm] in [src/agent/dispatcher.rs].
    - [ReplyText], [Prompts], [Reasoning]: [src/llm/reasoning.rs] (what is made
      of a reply, the system prompt, the requests), with [src/util.rs] and
      [src/llm/reasoning_models.rs].
    - [AgenticLoop]: [src/agent/agentic_loop.rs].
    - [ContextMonitor]: [src/agent/context_monitor.rs].
    - [Compaction]: [src/agent/compaction.rs].
    - [SmartRouting]: [src/llm/smart_routing.rs].
    - [ProviderChain]: [build_provider_chain] and [create_cheap_llm_provider] of
      [src/llm/mod.rs].
    - [LeakDetector], [Sanitizer], [Validator], [SafetyLayer]: the crate
      [crates/ironclaw_safety] ([leak_detector.rs]; [sanitizer.rs] and
      [policy.rs]; [validator.rs] and [credential_detect.rs]; [lib.rs]).
    - [ToolParams]: [src/tools/coercion.rs].
    - [Redaction]: [src/tools/redaction.rs] and [redact_params] of
      [src/tools/tool.rs].
    - [ToolExec]: [src/tools/registry.rs], [src/tools/execute.rs] and the
      approval types of [src/tools/tool.rs].
    - [Skills]: [src/skills/] ([mod.rs], [selector.rs], [attenuation.rs],
      [gating.rs], [parser.rs]).
    - [Ssrf]: the address and URL guards of [src/tools/builtin/http.rs],
      [src/tools/builtin/skill_tools.rs], [src/tools/wasm/wrapper.rs],
      [src/tools/mcp/auth.rs], [src/tools/mcp/config.rs],
      [src/setup/channels.rs], [src/config/helpers.rs] and
      [src/llm/oauth_helpers.rs].
    - [PathUtils]: [src/tools/builtin/path_utils.rs].
    - [Credentials]: [src/tools/wasm/credential_injector.rs] and the types of
      [src/secrets/types.rs].
    - [HttpTool]: [src/tools/builtin/http.rs].
    - [Hooks]: [src/hooks/] ([hook.rs], [registry.rs], [bundled.rs]).
    - [WorkspaceSearch]: [src/workspace/chunker.rs] and
      [src/workspace/search.rs].

    ** How the code is read

    A struct is a [Record], an enum an [Inductive], a method a function from
    the old state to the new one with the result.  A field is named as in the
    source, or with a short prefix where two records of a file share it.
    Interior mutability (atomics, mutexes) becomes a new state.  Fallible code
    returns [Result] or [option].  Unsigned integers are [Z] with their
    wrap-around or saturation written out; lengths and indices are [nat].
    [Instant::now], [Utc::now], random draws and fresh UUIDs are arguments: a
    [Clock] gives the reading at each program point of an operation, a [World]
    threads the readings and draws through a chain of providers, and the
    monotonicity of [Instant] is a hypothesis where a theorem needs it.  A
    block that is executed under one acquisition of a lock is one step; where
    an operation takes its lock twice, or calls a provider in between, the
    blocks are separate definitions and the theorems quantify over all
    interleavings ([ContextManager.manager_step],
    [CircuitBreaker.breaker_step], [ResponseCache.run_events],
    [SessionManager.sys_step], [GatewayAuth.gw_step]).  The parallel tool calls of a round finish in
    an order that is a parameter ([Dispatcher.ChatEnv]), and what other tasks do
    to a thread is one too: before the calls of a round run, after they ran and
    before the question is stored ([Dispatcher.chat_execute_tool_calls]), and
    while a handler waits ([UserTurn.ag_others]).  A
    worker and the scheduler meet the other tasks at every point where they wait
    ([Worker.acquire], [Scheduler.await], [RoutineEngine.pass]); the operations of the scheduler are
    sequences of the steps of [Scheduler.sched_step].  The abort of a worker takes
    effect at once in the model; tokio lets the worker run to its next await.

    Loops are structural recursion.  Where the source loop is not structural
    the model has a fuel that provably suffices: the number of messages in
    [Session.restore_turns] ([restore_anchors_users] shows that every user
    message is reached), the size of the map in [ResponseCache.evict_lru]
    ([evict_loop_size]), the number of messages in [JobMemory.trim_loop]
    ([trim_loop_length]), the byte length in [Text.trim_start], in the loops of
    [ReplyText] ([reply_loops_terminate]) and in [SafetyLayer.escape_loop]
    ([escape_loop_neutralize]), twice the depth of the schema in
    [ToolParams.coerce_value] ([coercion_terminates]), the number of words in
    [WorkspaceSearch.chunk_loop] ([chunks_cover_document]), the byte length in
    [Oidc.utf8_go] ([utf8_go_fuel]).  Recursion that the code
    cuts at a depth ([Validator.check_strings], [ToolParams.resolve_refs_inner],
    [ToolParams.collect_properties], the redirects of [HttpTool]) keeps the
    code's limit.

    Parameters stand for code outside the repository: [Decimal] for
    rust_decimal, serde's printers and parser, chrono's date parser, SHA-256,
    the iteration order of hash maps (any permutation) and the Unicode
    lower-casing of [str], the parsers of the url, urlencoding and uuid crates,
    the regex crate ([ReplyText.RegexEngine]) and the aho-corasick crate
    ([LeakDetector.MultiMatcher]), the YAML reader of skill files, and the
    world a tool reaches: name lookups ([Ssrf.NetEnv], each lookup on its own,
    since two lookups of a name may differ), the file system with its links
    ([PathUtils.FileSystem]), the servers that answer ([HttpTool.HttpEnv]), the
    processes a command starts ([Shell.ShellEnv]), the database
    ([History.Database]), the disk of the pairing store with the failures of its
    operations, the extension manager and the secret store, the cron and time
    zone crates ([Routine.CronEnv]), PostgreSQL's scans and messages
    ([RoutineStore.Pg], [UserStore.UserPg]), jsonwebtoken, base64 and the key
    server ([Oidc.OidcEnv]), and the lru crate ([GatewayAuth.Lru], with an
    instance that keeps a list).  Each witness instantiates them.

    ** What the theorems show

    - Jobs: histories are contiguous chains of allowed transitions, terminal
      states absorb, slots are never oversubscribed under any interleaving,
      creation and removal are inverse, conversations stay bounded.
    - Workers: a job hands only permitted and validated calls to tools whatever
      the model, hooks and other tasks do, none for a job that was cancelled in
      the context read for the call, and none after a timeout
      ([Worker.job_stays_permitted]); what a hook makes of the parameters is
      validated again but not judged again for approval.  It answers every call of
      a round, and ends in a settled state, as stuck after a timeout
      ([Worker.finished_job_settled]).
    - Scheduling: the limit on parallel jobs holds under every interleaving
      ([Scheduler.workers_capped], [Scheduler.operations_take_steps]), a job is
      admitted exactly when there is room and its state lets it start, a
      dispatched job runs no denylisted tool and none of another owner, repairs
      are counted and bounded, and the jobs of other users are out of reach.
    - Routines: the tables stay consistent and readable, so that the queries of
      the engine do not fail for their contents ([RoutineStore.routine_tables_sound]),
      a routine comes back as it was stored, the batch of counts agrees with the
      single ones; a message fires only matching routines of its sender, a
      webhook needs the secret of the routine it names
      ([RoutineEngine.webhook_needs_secret]), a lightweight run asks the model at
      most five times and runs only permitted tools
      ([RoutineEngine.light_run_confined]), every run ends and is recorded when the
      database answers and no other task touches its row, its routine or its
      counter ([RoutineEngine.run_always_settled]), and recovery spares live runs.
    - The gateway: in every run from empty caches a request is passed on only with
      a proof of its identity, which for an entry of the cache is an answer of the
      database less than a minute old ([GatewayAuth.middleware_needs_proof]), a
      token in the address counts on
      the streaming paths alone, a withdrawn token is refused within a minute
      under every interleaving ([GatewayAuth.withdrawn_token_expires]) and a
      suspended user at once ([UserHandlers.suspension_takes_effect]); an active
      administrator is always left ([UserHandlers.active_admin_remains]), others
      change only what is their own ([UserHandlers.member_confined]), a new token
      of an active user with a day or more to live works, DER signatures are read ([Oidc.der_signature_read]), the cache of
      keys is bounded, the tables of users keep their constraints, a deletion is
      all or nothing, and the usage report counts each call once.
    - Conversations: rendering and restoring a thread is a round trip, the
      rendered messages satisfy the tool-call protocol, sanitizing establishes
      it, turns stay numbered, queues bounded.
    - Undo: stacks bounded, redo inverts undo up to what the model sees,
      restoring by identifier, clearing is final.
    - Input: text reaches the model verbatim and approvals come only from the
      listed words.
    - Providers: the breaker opens exactly at its threshold, rejects while
      open and recovers; retries return the first decisive answer within their
      bounds; failover picks the right providers, stays in range and reports
      the model that served a task; the cache is bounded, serves only genuine
      fresh entries and evicts the least recently used.
    - Limits: rate limits hold in every interval up to the factor two of fixed
      windows, the hourly limit on model calls holds in every hour, spending
      is accounted to its day and user.
    - Isolation: the allowlists admit exactly what their patterns describe, an
      allowed path stays, whatever its encoding, in the directory of the pattern
      that admits its host and method, and a worker token opens its own job only.
    - Turns: refused input leaves no trace, an answer is recorded, every call of
      a round is answered in order, put before the user or left behind a request
      for a token ([Dispatcher.round_answers_calls]), only cleared calls run, an
      approval runs what the user was shown, and nothing runs without a question,
      under another identifier or after a refusal
      ([UserTurn.approval_runs_what_was_asked]), the cost
      guard stands before every model call, hooks see no secret, the order in
      which parallel calls finish does not matter, and a turn always comes to a
      conclusion ([Dispatcher.chat_turn_concludes]).
    - Sessions: under every interleaving a message reaches a thread of its own
      user, lookups end, a route stays, and pruning removes exactly the idle
      sessions; a stored conversation comes back, up to what storing cuts and
      leaves out, which [History.hydrated_turn] spells out.
    - Pairing: a sender is admitted only by a live code of the channel, requests
      and wrong guesses are bounded, file names stay in the directory.
    - Shell: a process is started only after both screens, with the listed
      environment and the variables of the job; the question to the user comes exactly for the listed
      commands.
    - The loop: every run of the agentic loop is a run of an abstract machine
      ([AgenticLoop.loop_refines_machine]), it returns within its iterations,
      never runs the calls of a response that was cut off, and nudges are
      bounded.
    - Replies: a reply is cut at the first unclosed tool tag and nowhere else,
      reasoning is removed exactly, recovered calls name offered tools, every
      loop terminates, answers are well formed.
    - Context: estimates cover every message, compaction drops turns only after
      they are archived, and accounts for each of them.
    - The chain: routing follows the classification, and no stack of
      decorators invents an answer or gives one to a request that asks something
      else ([ProviderChain.chain_answers_genuine], with SHA-256 collision-free).
    - Safety: the prefix filter of the leak scan loses nothing of the default
      patterns where no known prefix overlaps an unrelated one, redaction shows
      nothing of what it hides, an output is passed on unchanged exactly when it
      passes every check, nothing a tool returns can close its wrapper, and
      wrapping is undone by unwrapping.
    - Tools: protected names stay with their tools, the code of a tool sees only
      validated parameters, coercion terminates, replaces strings only and by
      values of an allowed type.
    - Outbound requests: the block lists are exactly the listed networks, every
      hop of a request is checked and pinned to external addresses before it is
      sent, bodies are bounded, a secret goes only to the hosts it is mapped
      to, and the tool runs unasked only for a GET in which the checks find no
      credential.
    - Paths: a validated path stays in the sandbox after links are resolved.
    - Hooks: priorities and names of the registry are invariant, an event stops
      exactly when a hook stops it, and a bundle registers only in its scope.
    - Skills: installed skills never raise the tools offered above the
      read-only list, selection respects its budgets, skill files round-trip.
    - Search: chunks lose no word of a document when the settings allow it, and
      fusion lists each chunk once, with its true ranks, in the order of the
      scores.
    - Defects, stated as theorems: a daily budget that was reached locks the
      agent out on later days too ([CostGuard.lockout_outlives_the_day]); an
      assertion of the breaker can fail under concurrent calls
      ([CircuitBreaker.success_assertion_can_fail]); outputs over the limit are
      not checked ([SafetyLayer.oversized_output_unchecked]); null bytes are
      removed after the checks ([SafetyLayer.split_secret_reassembled],
      [Sanitizer.null_bytes_rebuild_token]); the delimiter of external content
      can be forged ([SafetyLayer.external_boundary_forged]); a key that
      overlaps another prefix is missed ([LeakDetector.overlapping_key_missed]),
      and so is what matches a custom pattern whose prefix ends in an optional
      character ([LeakDetector.quantified_prefix_missed]);
      nested redactions leak ([LeakDetector.nested_redaction_leaks]); cleaning a
      reply can repeat its text ([ReplyText.clean_reply_repeats_text]);
      [build_software] can be shadowed ([ToolExec.builder_can_be_shadowed]); a
      number that is too large becomes null
      ([ToolParams.overflowing_number_becomes_null]); the guard of WASM tools
      admits IPv4-mapped addresses of blocked networks
      ([Ssrf.wasm_guard_misses_mapped]); headers given as text escape the
      approval check ([HttpTool.string_headers_skip_approval]); the leak scan
      can refuse the very secret the tool injects
      ([HttpTool.injected_secret_blocked]); a dangling link passes the path
      check ([PathUtils.dangling_link_accepted]); a chunk size below the minimum
      loses text ([WorkspaceSearch.small_chunks_lose_text]); an approval forgets
      the senders approved before ([Pairing.approval_forgets_earlier_senders]);
      a refused call is later shown to the model as a success
      ([UserTurn.rejected_call_reads_ok]); the calls behind an approved one skip
      the hooks ([UserTurn.deferred_calls_skip_hooks]); a request for a token
      hides a question ([Dispatcher.token_request_hides_question]); the model
      selected in the settings is never used
      ([Dispatcher.selected_model_ignored]); patterns with capital letters
      never match ([Shell.uppercase_patterns_dead]); a sandbox that is not
      enabled is skipped ([Shell.disabled_sandbox_runs_on_host]); help with a
      stuck job starts no worker ([JobControl.help_starts_no_worker]), nor does
      a repair ([JobControl.repaired_job_not_retried]); a long job that works is
      left stuck ([JobControl.repair_strands_long_job]); a stopped job reads as
      completed ([Worker.stopped_job_reads_completed], [Scheduler.stop_effect]);
      the limit per user counts the job that asks
      ([Scheduler.user_limit_one_short]); a budget of zero lifts the cap
      ([Scheduler.budget_capped_unless_zero]); a cancelled job without a worker
      keeps its slot ([JobControl.cancel_leaves_unscheduled_job]); a hook that
      rewrites a job's call drops its secrets ([Worker.job_hooks_drop_secrets]);
      a tick fires all due routines whatever the limit, when no task acts in
      between ([RoutineEngine.tick_fires_all_due]); a long result of a routine's tool
      loses its closing tag ([RoutineEngine.long_result_unclosed]); a webhook
      routine runs in the workspace of the engine
      ([RoutineEngine.webhook_keeps_workspace]); webhook routines of one path
      disable each other ([RoutineStore.equal_paths_refused]); a deleted user is
      admitted from the cache ([UserHandlers.deleted_user_still_admitted]), so is
      a token revoked while a request is under way
      ([UserHandlers.revocation_overtaken]); a stranger's token decides which
      algorithm a key is used with ([Oidc.stranger_sets_algorithm]), and made-up
      key identifiers fill a map ([Oidc.failed_kids_accumulate]); a raw signature
      can be taken for DER ([Oidc.raw_signature_misread]); a suspended user enters
      through the identity provider ([UserHandlers.provider_ignores_users]); two
      overlapping requests can suspend all administrators
      ([UserHandlers.HandlersDemo.overlapping_suspensions]); a conversation that a
      call names keeps its user from being deleted
      ([UserStore.chat_blocks_deletion]).
    - Lemmas that state where a comment promises more than the code does:
      [ResponseCache.key_input_collides],
      [Provider.sanitize_keeps_premature_result],
      [JobMemory.later_system_message_dropped],
      [RateLimiter.burst_across_windows],
      [ReplyText.bracket_call_in_code_recovered],
      [Shell.hidden_commands_not_high], [Worker.later_messages_lost].

    ** What is not modelled

    Log lines; the clients that speak to model providers (they are the class
    parameter) and the layer that records their exchanges; channels, the web gateway beside its authentication, its users and
    its webhooks, the database beside conversations, routines, users and tokens,
    the libSQL backend, sandbox containers and WASM runtime, which are input and
    output; the main loop, which selects over
    channel streams, and the text of its system commands; the heartbeat, the
    registry and catalog of skills, and the management of extensions, which are
    file, network and database traffic around libraries. *)

From stdpp Require Export base gmap strings list numbers option sorting.
From Stdlib Require Export ZArith Lia.

(** ** Error results

    [Result E A] is Rust's [Result<A, E>].  The bind of the [?] operator is
    given as an [MBind] instance, so that [x ← c; k] reads as in the code. *)

Inductive Result (E A : Type) : Type :=
| Ok (a : A)
| Err (e : E).
Arguments Ok {E A} a.
Arguments Err {E A} e.

#[export] Instance result_ret {E} : MRet (Result E) := fun _ a => Ok a.
#[export] Instance result_bind {E} : MBind (Result E) := fun _ _ k c =>
  match c with Ok a => k a | Err e => Err e end.

Definition is_ok {E A} (r : Result E A) : bool :=
  match r with Ok _ => true | Err _ => false end.

(** [ok_or]: Rust's [Option::ok_or]. *)
Definition ok_or {E A} (o : option A) (e : E) : Result E A :=
  match o with Some a => Ok a | None => Err e end.

(** ** Machine integers

    A [uN] is a [Z] in [[0, 2^N)].  Plain [+=] wraps (the release profile sets
    no overflow checks); the [saturating_*] operations clamp. *)

Definition u32_max : Z := 2 ^ 32 - 1.
Definition u64_max : Z := 2 ^ 64 - 1.
Definition in_u32 (z : Z) : Prop := (0 <= z < 2 ^ 32)%Z.
Definition in_u64 (z : Z) : Prop := (0 <= z < 2 ^ 64)%Z.
Definition wrap32 (z : Z) : Z := z mod 2 ^ 32.
Definition wrap64 (z : Z) : Z := z mod 2 ^ 64.
Definition saturating_sub (a b : Z) : Z := Z.max 0 (a - b).
Definition saturating_add32 (a b : Z) : Z := Z.min u32_max (a + b).
Definition saturating_mul64 (a b : Z) : Z := Z.min u64_max (a * b).
Definition saturating_pow64 (a b : Z) : Z := Z.min u64_max (a ^ b).

(** The cast [u64 as i64] reinterprets the top bit as the sign; [i64] sums
    wrap into [[-2^63, 2^63)]. *)
Definition wrap_i64 (z : Z) : Z := (z + 2 ^ 63) mod 2 ^ 64 - 2 ^ 63.

(** ** Clocks

    [Instant::now()] and [Utc::now()] are read at several points of one
    operation.  [clk i] is the reading taken at the [i]-th program point, in
    nanoseconds; an operation indexes its program points in execution order.
    [monotone] is the documented guarantee of [Instant] (not of [Utc]). *)

Abbreviation Clock := (nat -> Z).
Definition monotone (clk : Clock) : Prop := ∀ i j, i ≤ j → (clk i ≤ clk j)%Z.

(** A clock that always reads [t]. *)
Definition frozen (t : Z) : Clock := fun _ => t.

Definition secs (n : Z) : Z := (n * 1000000000)%Z.

(** ** List operations of [Vec] and [VecDeque] *)

(** [if let Some(x) = v.last_mut() { f(x) }] *)
Fixpoint update_last {A} (f : A -> A) (l : list A) : list A :=
  match l with
  | [] => []
  | [x] => [f x]
  | x :: r => x :: update_last f r
  end.

(** [if let Some(x) = v.iter_mut().find(p) { f(x) }]; [None] when no element
    satisfies [p]. *)
Fixpoint update_first {A} (p : A -> bool) (f : A -> A) (l : list A) : option (list A) :=
  match l with
  | [] => None
  | x :: r => if p x then Some (f x :: r) else cons x <$> update_first p f r
  end.

(** [while v.len() > max { v.pop_front(); }] *)
Fixpoint trim_front {A} (max : nat) (l : list A) : list A :=
  match l with
  | [] => []
  | x :: r => if decide (max < length l) then trim_front max r else l
  end.

(** [v.pop()] / [v.pop_back()]: the last element and the rest. *)
Definition pop_back {A} (l : list A) : option (A * list A) :=
  match last l with
  | Some x => Some (x, take (length l - 1) l)
  | None => None
  end.

(** [iter.position(p)] *)
Fixpoint position {A} (p : A -> bool) (l : list A) : option nat :=
  match l with
  | [] => None
  | x :: r => if p x then Some 0 else S <$> position p r
  end.

(** [iter.enumerate()] then a map. *)
Definition map_enum {A B} (f : nat -> A -> B) (l : list A) : list B := imap f l.

(** ** Identifiers and third-party numbers

    A [Uuid] is a 128-bit number; [Uuid::new_v4()] is an argument of the
    operations that draw one. *)

Abbreviation Uuid := N.

(** [rust_decimal::Decimal] is outside the repository: the model takes its
    operations as a class.  The operators of the crate panic on overflow of
    the 96-bit mantissa; an instance describes the crate on the amounts where
    they return.  [dec_trunc d] is the integer that [d.trunc()] denotes. *)
Class Decimal := {
  dec : Type;
  dec_zero : dec;
  dec_one : dec;
  dec_add : dec -> dec -> dec;
  dec_mul : dec -> dec -> dec;
  dec_div : dec -> dec -> dec;
  dec_ltb : dec -> dec -> bool;
  dec_is_zero : dec -> bool;
  dec_of_Z : Z -> dec;
  dec_trunc : dec -> Z
}.

(** A concrete instance: integer trillionths, used by the witnesses. *)
Definition pico_unit : Z := 1000000000000.

#[export] Instance pico_decimal : Decimal := {|
  dec := Z;
  dec_zero := 0%Z;
  dec_one := pico_unit;
  dec_add := Z.add;
  dec_mul := fun a b => Z.quot (a * b) pico_unit;
  dec_div := fun a b => Z.quot (a * pico_unit) b;
  dec_ltb := Z.ltb;
  dec_is_zero := fun a => Z.eqb a 0;
  dec_of_Z := fun z => (z * pico_unit)%Z;
  dec_trunc := fun a => Z.quot a pico_unit
|}.

Set Warnings "-register-all".

(** [serde_json::Value].  Numbers keep their textual form. *)
Inductive Json : Type :=
| JNull
| JBool (b : bool)
| JNumber (repr : string)
| JString (s : string)
| JArray (l : list Json)
| JObject (l : list (string * Json)).

(** [sort_by_key]: a stable sort. *)
Fixpoint insert_by {A} (key : A -> nat) (x : A) (l : list A) : list A :=
  match l with
  | [] => [x]
  | y :: l' => if (key y <=? key x)%nat then y :: insert_by key x l' else x :: l
  end.

Definition sort_by {A} (key : A -> nat) (l : list A) : list A :=
  foldl (fun acc x => insert_by key x acc) [] l.

(** ** Tactics and hint databases *)

Create HintDb iron.
Create Rewrite HintDb iron.

(** Split every boolean test and [match] of the goal and the hypotheses, and
    close what is contradictory. *)
Ltac destruct_matches :=
  repeat (case_match; simplify_eq/=).

Ltac zify_bool :=
  repeat match goal with
  | H : (_ <=? _)%Z = true |- _ => apply Z.leb_le in H
  | H : (_ <=? _)%Z = false |- _ => apply Z.leb_gt in H
  | H : (_ <? _)%Z = true |- _ => apply Z.ltb_lt in H
  | H : (_ <? _)%Z = false |- _ => apply Z.ltb_ge in H
  | H : (_ =? _)%Z = true |- _ => apply Z.eqb_eq in H
  | H : (_ =? _)%Z = false |- _ => apply Z.eqb_neq in H
  | H : (_ && _) = true |- _ => apply andb_true_iff in H as [? ?]
  | H : (_ || _) = false |- _ => apply orb_false_iff in H as [? ?]
  end.

(** ** Lemmas on integers *)

Lemma wrap32_small z : in_u32 z → wrap32 z = z.
Proof. unfold in_u32, wrap32. intros. by rewrite Z.mod_small. Qed.

Lemma wrap64_small z : in_u64 z → wrap64 z = z.
Proof. unfold in_u64, wrap64. intros. by rewrite Z.mod_small. Qed.

Lemma wrap_i64_small z : (- 2 ^ 63 ≤ z < 2 ^ 63)%Z → wrap_i64 z = z.
Proof. unfold wrap_i64. intros. rewrite Z.mod_small; lia. Qed.

(** ** Lemmas on lists *)

Section lists.
Context {A : Type}.
Implicit Types (l : list A) (f : A -> A).

Lemma length_update_last f l : length (update_last f l) = length l.
Proof. induction l as [|x [|y r] IH]; simpl in *; lia. Qed.

Lemma update_last_snoc f l x : update_last f (l ++ [x]) = l ++ [f x].
Proof.
  induction l as [|y l IH]; [done|]. simpl. rewrite IH.
  by destruct l.
Qed.

Lemma update_last_fmap {B} (g : A -> B) f l :
  (∀ x, g (f x) = g x) → g <$> update_last f l = g <$> l.
Proof.
  intros Hg. induction l as [|x r IH]; [done|].
  destruct r as [|y r]; [by simpl; rewrite Hg|].
  change (g x :: (g <$> update_last f (y :: r)) = g x :: (g <$> (y :: r))).
  by rewrite IH.
Qed.

Lemma trim_front_drop max l : trim_front max l = drop (length l - max) l.
Proof.
  induction l as [|x r IH]; [by destruct (_ - _)|]. cbn [trim_front].
  case_decide as Hd; simpl in Hd.
  - rewrite IH. simpl length. by replace (S (length r) - max) with (S (length r - max)) by lia.
  - simpl length. by replace (S (length r) - max) with 0 by lia.
Qed.

Lemma length_trim_front max l : length (trim_front max l) = min max (length l).
Proof. rewrite trim_front_drop, length_drop. lia. Qed.

Lemma trim_front_id max l : length l ≤ max → trim_front max l = l.
Proof. intros. rewrite trim_front_drop. by replace (length l - max) with 0 by lia. Qed.

Lemma pop_back_snoc l x : pop_back (l ++ [x]) = Some (x, l).
Proof.
  unfold pop_back. rewrite last_snoc, length_app. simpl.
  by replace (length l + 1 - 1) with (length l) by lia; rewrite take_app_length.
Qed.

Lemma pop_back_nil : pop_back (@nil A) = None.
Proof. done. Qed.

Lemma pop_back_Some l x r : pop_back l = Some (x, r) → l = r ++ [x].
Proof.
  destruct l as [|y l' _] using rev_ind; [done|].
  rewrite pop_back_snoc. by intros [= -> ->].
Qed.

Lemma position_Some p l n :
  position p l = Some n ↔
  (∃ x, l !! n = Some x ∧ p x = true) ∧ ∀ j y, j < n → l !! j = Some y → p y = false.
Proof.
  revert n. induction l as [|a l IH]; intros n; simpl.
  - split; [done|]. by intros [(x & Hx & _) _].
  - destruct (p a) eqn:Ha.
    + split.
      * intros [= <-]. split; [by exists a|]. intros j y Hj. lia.
      * intros [_ Hmin]. destruct n; [done|].
        specialize (Hmin 0 a ltac:(lia) eq_refl). congruence.
    + destruct n as [|n]; simpl.
      * split; [by destruct (position p l)|]. intros [(x & [= ->] & ?) _]; congruence.
      * rewrite fmap_Some. setoid_rewrite IH. split.
        -- intros (m & [Hx Hmin] & [= <-]). split; [done|].
           intros [|j] y Hj Hl; [by inv Hl|]. apply (Hmin j y); [lia|done].
        -- intros [Hx Hmin]. exists n. split; [|done]. split; [done|].
           intros j y Hj Hl. apply (Hmin (S j) y); [lia|done].
Qed.

Lemma position_None p l :
  position p l = None → ∀ j y, l !! j = Some y → p y = false.
Proof.
  induction l as [|a l IH]; intros Hp j y Hj; [done|]. simpl in Hp.
  destruct (p a) eqn:Ha; [done|]. destruct (position p l) eqn:Hpl; [done|].
  destruct j; simpl in Hj; [by simplify_eq|]. by eapply IH.
Qed.

Lemma length_update_first p f l l' :
  update_first p f l = Some l' → length l' = length l.
Proof.
  revert l'. induction l as [|x r IH]; intros l'; simpl; [done|].
  destruct (p x); [by intros [= <-]|].
  rewrite fmap_Some. intros (m & Hm & ->). simpl. f_equal. by apply IH.
Qed.

Lemma imap_imap {B C} (g : nat -> A -> B) (h : nat -> B -> C) l :
  imap h (imap g l) = imap (fun i x => h i (g i x)) l.
Proof.
  apply list_eq. intros i. rewrite !list_lookup_imap. by destruct (l !! i).
Qed.

Lemma filter_partition (f : A -> bool) l : List.filter f l ++ List.filter (fun x => negb (f x)) l ≡ₚ l.
Proof. induction l as [|x l IH]; simpl; [done|]. destruct (f x); simpl; rewrite <-?Permutation_middle, IH; done. Qed.

Lemma Forall_kept (P Q : A -> Prop) `{!∀ x, Decision (Q x)} l :
  Forall P l → Forall P (base.filter Q l).
Proof. rewrite !Forall_forall. intros Hl x [_ Hx]%list_elem_of_filter. auto. Qed.

End lists.

#[export] Hint Rewrite @length_update_last @length_trim_front : iron.
#[export] Hint Resolve wrap32_small wrap64_small : iron.

(** ** The stable sort *)

Lemma insert_by_perm {A} (key : A -> nat) x l : insert_by key x l ≡ₚ x :: l.
Proof.
  induction l as [|y l IH]; simpl; [done|]. case_match; [|done]. rewrite IH. apply Permutation_swap.
Qed.

Lemma sort_by_perm {A} (key : A -> nat) l : sort_by key l ≡ₚ l.
Proof.
  unfold sort_by. assert (∀ acc, foldl (fun acc x => insert_by key x acc) acc l ≡ₚ acc ++ l) as Hs.
  { induction l as [|x l IH]; intros acc; simpl; [by rewrite app_nil_r|].
    rewrite IH, insert_by_perm. simpl. apply Permutation_middle. }
  by rewrite Hs.
Qed.

Lemma insert_by_sorted {A} (key : A -> nat) x l :
  StronglySorted (fun a b => key a ≤ key b) l →
  StronglySorted (fun a b => key a ≤ key b) (insert_by key x l).
Proof.
  induction 1 as [|y l Hl IH Hy]; simpl; [repeat constructor|].
  destruct (Nat.leb_spec (key y) (key x)) as [Hk|Hk].
  - constructor; [done|]. rewrite insert_by_perm. by constructor.
  - constructor; [by constructor|]. constructor; [lia|]. eapply Forall_impl; [done|]. simpl. lia.
Qed.

Lemma sort_by_sorted {A} (key : A -> nat) l :
  StronglySorted (fun a b => key a ≤ key b) (sort_by key l).
Proof.
  unfold sort_by. assert (∀ acc, StronglySorted (fun a b => key a ≤ key b) acc →
    StronglySorted (fun a b => key a ≤ key b) (foldl (fun acc x => insert_by key x acc) acc l)) as Hs.
  { induction l as [|x l IH]; intros acc Ha; simpl; [done|]. by apply IH, insert_by_sorted. }
  apply Hs. constructor.
Qed.

(** ** JSON values *)

(** Values below the root, for inductions. *)
Lemma json_ind_nested (P : Json → Prop) :
  P JNull → (∀ b, P (JBool b)) → (∀ n, P (JNumber n)) → (∀ s, P (JString s)) →
  (∀ l, Forall P l → P (JArray l)) → (∀ l, Forall (fun kv => P kv.2) l → P (JObject l)) →
  ∀ v, P v.
Proof.
  intros Hn Hb Hnum Hs Ha Ho. fix IH 1. intros [|b|n|s|l|l]; [done..| |].
  - apply Ha. induction l as [|x l IHl]; [constructor|]. constructor; [apply IH|exact IHl].
  - apply Ho. induction l as [|[k x] l IHl]; [constructor|]. constructor; [apply IH|exact IHl].
Qed.

(** Values as trees, which gives them a decidable equality and an encoding. *)
Fixpoint json_tree (v : Json) : gen_tree (bool + string) :=
  match v with
  | JNull => GenNode 0 []
  | JBool b => GenNode 1 [GenLeaf (inl b)]
  | JNumber n => GenNode 2 [GenLeaf (inr n)]
  | JString s => GenNode 3 [GenLeaf (inr s)]
  | JArray l => GenNode 4 (map json_tree l)
  | JObject l => GenNode 5 (map (fun kv => GenNode 6 [GenLeaf (inr kv.1); json_tree kv.2]) l)
  end.

Fixpoint tree_json (t : gen_tree (bool + string)) : Json :=
  match t with
  | GenNode 1 [GenLeaf (inl b)] => JBool b
  | GenNode 2 [GenLeaf (inr n)] => JNumber n
  | GenNode 3 [GenLeaf (inr s)] => JString s
  | GenNode 4 l => JArray (map tree_json l)
  | GenNode 5 l => JObject (map (fun t => match t with GenNode _ [GenLeaf (inr k); v] => (k, tree_json v) | _ => (EmptyString, JNull) end) l)
  | _ => JNull
  end.

Lemma tree_json_tree v : tree_json (json_tree v) = v.
Proof.
  induction v as [|b|n|s|l IH|l IH] using json_ind_nested; cbn; [done..| |]; f_equal;
    (induction IH as [|x l Hx _ IHl]; cbn; [done|]).
  - by rewrite Hx, IHl.
  - destruct x as [k v]. cbn in *. by rewrite Hx, IHl.
Qed.

#[export] Instance json_eq_dec : EqDecision Json.
Proof.
  intros x y. destruct (decide (json_tree x = json_tree y)) as [He|He]; [left|right; by intros ->].
  by rewrite <-(tree_json_tree x), He, tree_json_tree.
Defined.

#[export] Instance json_countable : Countable Json := inj_countable' json_tree tree_json tree_json_tree.

(** ** Checks by evaluation *)

(** A property of all integers from [z] on, [fuel] of them. *)
Fixpoint all_from (p : Z -> bool) (fuel : nat) (z : Z) : bool :=
  match fuel with O => true | S fuel => p z && all_from p fuel (z + 1)%Z end.

Lemma all_from_spec p fuel lo z :
  all_from p fuel lo = true → (lo <= z < lo + Z.of_nat fuel)%Z → p z = true.
Proof.
  revert lo. induction fuel as [|fuel IH]; intros lo Ha Hz; [lia|]. cbn [all_from] in Ha.
  apply andb_true_iff in Ha as [Hp Ha]. destruct (decide (z = lo)) as [->|]; [done|]. apply (IH (lo + 1)%Z); [done|lia].
Qed.
