(* ===== verification/Text.v ===== *)
(** * Text: the string operations of the Rust standard library

    A Rust [String] is its UTF-8 byte sequence.  [trim] and [split_whitespace]
    recognise the byte sequences of the Unicode white space characters;
    [parse_u64] is [str::parse::<u64>]. *)

From Stdlib Require Import Ascii.
From S2P Require Import Prelude.

(** ** Strings as bytes *)

Definition bytes (l : list nat) : string :=
  fold_right (fun n s => String (ascii_of_nat n) s) "" l.

(** The UTF-8 encodings of the characters with the property [White_Space]. *)
Definition whitespace : list string :=
  (bytes ∘ (fun n => [n]) <$> [9; 10; 11; 12; 13; 32]) ++
  (bytes <$> [[194; 133]; [194; 160]; [225; 154; 128]]) ++
  ((fun n => bytes [226; 128; n]) <$> seq 128 11) ++
  (bytes <$> [[226; 128; 168]; [226; 128; 169]; [226; 128; 175]; [226; 129; 159];
              [227; 128; 128]]).

Definition starts_with (p s : string) : bool := String.prefix p s.

(** [s.strip_prefix(p)] *)
Fixpoint strip_prefix (p s : string) : option string :=
  match p, s with
  | EmptyString, _ => Some s
  | String a p', String b s' => if ascii_dec a b then strip_prefix p' s' else None
  | String _ _, EmptyString => None
  end.

(** The string after a leading white space character, if there is one. *)
Fixpoint strip_first (ws : list string) (s : string) : option string :=
  match ws with
  | [] => None
  | w :: r => match strip_prefix w s with Some s' => Some s' | None => strip_first r s end
  end.

(** [trim_start]: a fuel of the byte length is enough, each step consumes at
    least one byte. *)
Fixpoint trim_start_with (ws : list string) (fuel : nat) (s : string) : string :=
  match fuel with
  | O => s
  | S fuel => match strip_first ws s with
              | Some s' => trim_start_with ws fuel s'
              | None => s
              end
  end.

Definition trim_start (s : string) : string :=
  trim_start_with whitespace (String.length s) s.

Fixpoint string_rev (s acc : string) : string :=
  match s with EmptyString => acc | String c r => string_rev r (String c acc) end.

(** [trim_end] scans from the end: the same loop on the reversed bytes. *)
Definition trim_end (s : string) : string :=
  string_rev (trim_start_with ((fun w => string_rev w "") <$> whitespace)
                (String.length s) (string_rev s "")) "".

Definition trim (s : string) : string := trim_end (trim_start s).

(** The non-empty pieces between white space characters; [cur] is the piece
    being read, reversed. *)
Fixpoint split_ws (fuel : nat) (s cur : string) : list string :=
  let flush := match cur with EmptyString => [] | _ => [string_rev cur ""] end in
  match fuel with
  | O => flush
  | S fuel =>
      match strip_first whitespace s with
      | Some s' => flush ++ split_ws fuel s' ""
      | None => match s with
                | EmptyString => flush
                | String c r => split_ws fuel r (String c cur)
                end
      end
  end.

Definition split_whitespace (s : string) : list string := split_ws (S (String.length s)) s "".

Definition is_ascii (c : ascii) : bool := (nat_of_ascii c <? 128)%nat.

Definition ascii_lower (c : ascii) : ascii :=
  let n := nat_of_ascii c in
  if ((65 <=? n) && (n <=? 90))%nat then ascii_of_nat (n + 32) else c.

Fixpoint string_map (f : ascii -> ascii) (s : string) : string :=
  match s with EmptyString => "" | String c r => String (f c) (string_map f r) end.

Definition eq_ignore_ascii_case (a b : string) : bool := (string_map ascii_lower a =? string_map ascii_lower b)%string.

Fixpoint string_forallb (p : ascii -> bool) (s : string) : bool :=
  match s with
  | EmptyString => true
  | String c r => p c && string_forallb p r
  end.

(** [s.contains(p)] *)
Fixpoint contains (p s : string) : bool :=
  starts_with p s || match s with EmptyString => false | String _ r => contains p r end.

(** [s.ends_with(p)] *)
Definition ends_with (suf s : string) : bool :=
  if decide (String.length suf <= String.length s)%nat
  then bool_decide (String.substring (String.length s - String.length suf)
                      (String.length suf) s = suf)
  else false.

(** [s.rsplit_once(c)]: what precedes and follows the last [c]. *)
Fixpoint rsplit_once (c : ascii) (s : string) : option (string * string) :=
  match s with
  | EmptyString => None
  | String d r =>
      match rsplit_once c r with
      | Some (a, b) => Some (String d a, b)
      | None => if ascii_dec c d then Some ("", r) else None
      end
  end.

(** [s.parse::<u64>()]: an optional plus sign, then at least one decimal digit,
    no overflow. *)
Definition digit_of (c : ascii) : option Z :=
  let n := Z.of_nat (nat_of_ascii c) in
  if ((48 <=? n) && (n <=? 57))%Z then Some (n - 48)%Z else None.

Fixpoint parse_digits (s : string) (acc : Z) : option Z :=
  match s with
  | EmptyString => Some acc
  | String c r =>
      d ← digit_of c;
      let v := (acc * 10 + d)%Z in
      if (v <=? u64_max)%Z then parse_digits r v else None
  end.

Definition parse_u64 (s : string) : option Z :=
  match s with
  | EmptyString => None
  | String "+"%char EmptyString => None
  | String "+"%char r => parse_digits r 0
  | _ => parse_digits s 0
  end.

(** ** Lemmas *)

Lemma digit_of_range c d : digit_of c = Some d → (0 ≤ d ≤ 9)%Z.
Proof. unfold digit_of. case_match; [|done]. zify_bool. intros [= <-]. lia. Qed.

(** [Value::as_u64] *)
Definition as_u64 (v : Json) : option Z := match v with JNumber n => parse_u64 n | _ => None end.

Lemma parse_digits_range s acc v :
  (0 ≤ acc ≤ u64_max)%Z → parse_digits s acc = Some v → (0 ≤ v ≤ u64_max)%Z.
Proof.
  revert acc. induction s as [|c s IH]; intros acc Ha Hp; simpl in Hp; [by simplify_eq|].
  apply bind_Some in Hp as (d & Hd & Hp). apply digit_of_range in Hd.
  case_match; [|done]. zify_bool. eapply IH; [|done]. lia.
Qed.

Lemma parse_u64_range s v : parse_u64 s = Some v → (0 ≤ v ≤ u64_max)%Z.
Proof.
  unfold parse_u64, u64_max. intros Hp.
  destruct s as [|c s]; [done|].
  assert (Hz : (0 ≤ 0 ≤ u64_max)%Z) by (unfold u64_max; lia).
  repeat case_match; simplify_eq; by eapply parse_digits_range.
Qed.

Lemma string_cons_inj c d s t : String c s = String d t → c = d ∧ s = t.
Proof. intros Heq. split; congruence. Qed.

Lemma substring_full s : String.substring 0 (String.length s) s = s.
Proof. induction s as [|c s IH]; simpl; [done|]. by rewrite IH. Qed.

Lemma substring_app_r x s n :
  String.substring (String.length x) n (x +:+ s) = String.substring 0 n s.
Proof. induction x as [|c x IH]; [done|]. exact IH. Qed.

Lemma append_cons c x y : String c x +:+ y = String c (x +:+ y).
Proof. done. Qed.

Lemma length_append x y :
  String.length (x +:+ y) = (String.length x + String.length y)%nat.
Proof. induction x as [|c x IH]; simpl; [done|]. by rewrite IH. Qed.

Lemma ends_with_append x suf : ends_with suf (x +:+ suf) = true.
Proof.
  unfold ends_with. rewrite length_append. rewrite decide_True by lia.
  replace (String.length x + String.length suf - String.length suf)%nat
    with (String.length x) by lia.
  rewrite substring_app_r, substring_full. by apply bool_decide_eq_true.
Qed.

Lemma append_assoc x y z : (x +:+ y) +:+ z = x +:+ (y +:+ z).
Proof. induction x as [|c x IH]; [done|]. exact (f_equal (String c) IH). Qed.

Lemma length_substring s n :
  (n <= String.length s)%nat → String.length (String.substring 0 n s) = n.
Proof.
  revert n. induction s as [|c s IH]; intros [|n] Hn; simpl in *; try done; [lia|].
  rewrite IH; lia.
Qed.

Lemma substring_split s n : n ≤ String.length s →
  s = String.substring 0 n s +:+ String.substring n (String.length s - n) s.
Proof.
  revert n. induction s as [|c s IH]; intros [|n] Hn; simpl in *; try done.
  - by rewrite substring_full.
  - apply (f_equal (String c)), IH. lia.
Qed.

Lemma ends_with_iff suf s : ends_with suf s = true ↔ ∃ x, s = x +:+ suf.
Proof.
  split; [|intros [x ->]; apply ends_with_append].
  unfold ends_with. case_decide as Hl; [|done]. intros He%bool_decide_eq_true.
  exists (String.substring 0 (String.length s - String.length suf) s).
  pose proof (substring_split s (String.length s - String.length suf) ltac:(lia)) as Hs.
  replace (String.length s - (String.length s - String.length suf)) with (String.length suf) in Hs by lia.
  by rewrite He in Hs.
Qed.

Lemma starts_with_cons c d p s :
  starts_with (String c p) (String d s) = if ascii_dec c d then starts_with p s else false.
Proof. done. Qed.

Lemma starts_with_iff p s : starts_with p s = true ↔ ∃ r, s = p +:+ r.
Proof.
  revert s. induction p as [|c p IH]; intros s.
  - split; [intros _; by exists s|by destruct s].
  - destruct s as [|d s]; [by split; [|intros [r ?]]|]. rewrite starts_with_cons.
    destruct (ascii_dec c d) as [<-|Hne].
    + rewrite IH. split; intros [r Hr]; exists r; [by rewrite Hr|]. by injection Hr.
    + split; [done|]. intros [r Hr]. by injection Hr as <- _.
Qed.

Lemma strip_prefix_iff p s r : strip_prefix p s = Some r ↔ s = p +:+ r.
Proof.
  revert s. induction p as [|c p IH]; intros s; simpl.
  - split; [by intros [= ->]|by intros ->].
  - destruct s as [|d s]; [done|]. destruct (ascii_dec c d) as [<-|Hne].
    + rewrite IH. split; [by intros ->|]. by intros [= ->].
    + split; [done|]. intros Hr. by injection Hr as <- _.
Qed.

Lemma append_nil_r s : s +:+ "" = s.
Proof. induction s as [|c s IH]; [done|]. exact (f_equal (String c) IH). Qed.

Lemma string_rev_app s acc : string_rev s acc = string_rev s "" +:+ acc.
Proof.
  revert acc. induction s as [|c s IH]; intros acc; simpl; [done|].
  rewrite IH, (IH (String c "")), append_assoc. done.
Qed.

Lemma string_rev_involutive s : string_rev (string_rev s "") "" = s.
Proof.
  assert (Hg : ∀ t acc, string_rev (string_rev s t) acc = string_rev t (s +:+ acc)).
  { induction s as [|c s IH]; intros t acc; simpl; [done|]. rewrite IH. done. }
  rewrite Hg. simpl. apply append_nil_r.
Qed.
