(* ===== verification/TextSearch.v ===== *)
(** * TextSearch: searching and slicing byte strings

    [str::find], [rfind], [lines], [replace] and the byte-indexed slices
    [s[i..]], [s[..i]] and [s[i..j]] of the Rust standard library, on the UTF-8
    byte strings of [Text].  A slice whose bounds are out of range panics in
    Rust; here it is cut at the end of the string, so every user shows that its
    bounds are in range. *)

From Stdlib Require Import Ascii.
From stdpp Require Import pretty.
From S2P Require Import Prelude Text.

(** ** Operations *)

(** A count in decimal. *)
Definition show_nat (n : nat) : string := pretty (N.of_nat n).

Definition nl : ascii := ascii_of_nat 10.
Definition cr : ascii := ascii_of_nat 13.
Definition tab : ascii := ascii_of_nat 9.
Definition dquote : ascii := ascii_of_nat 34.
Definition nl_str : string := String nl "".
Definition nul_str : string := String (ascii_of_nat 0) "".
Definition dq_str : string := String dquote "".

(** [s[n..]] *)
Fixpoint str_from (n : nat) (s : string) : string :=
  match n, s with
  | O, _ => s
  | S n, String _ r => str_from n r
  | S _, EmptyString => ""
  end.

(** [s[..n]] *)
Fixpoint str_to (n : nat) (s : string) : string :=
  match n, s with
  | S n, String c r => String c (str_to n r)
  | _, _ => ""
  end.

(** [s[i..j]] *)
Definition slice (i j : nat) (s : string) : string := str_to (j - i) (str_from i s).

(** [s.find(p)]: the byte index of the first occurrence. *)
Fixpoint str_find (p s : string) : option nat :=
  if starts_with p s then Some 0
  else match s with EmptyString => None | String _ r => S <$> str_find p r end.

(** [s.rfind(c)] for an ASCII character. *)
Fixpoint rfind_char (c : ascii) (s : string) : option nat :=
  match s with
  | EmptyString => None
  | String d r =>
      match rfind_char c r with
      | Some n => Some (S n)
      | None => if ascii_dec c d then Some 0 else None
      end
  end.

(** The number of leading bytes that satisfy a test. *)
Fixpoint span_len (f : ascii -> bool) (s : string) : nat :=
  match s with
  | String c r => if f c then S (span_len f r) else 0
  | EmptyString => 0
  end.

(** [while i < len && f(bytes[i]) { i += 1; }] *)
Definition skip_while (f : ascii -> bool) (text : string) (i : nat) : nat :=
  i + span_len f (str_from i text).

(** [s.trim_start_matches(cs)] for characters in ASCII *)
Definition trim_start_chars (f : ascii -> bool) (s : string) : string := str_from (span_len f s) s.

(** The pieces between newlines, as [split('\n')]. *)
Fixpoint split_nl (s : string) : list string :=
  match s with
  | EmptyString => [""]
  | String c r =>
      if ascii_dec c nl then "" :: split_nl r
      else match split_nl r with
           | l :: ls => String c l :: ls
           | [] => [String c ""]
           end
  end.

Definition strip_cr (s : string) : string :=
  if ends_with (String cr "") s then str_to (String.length s - 1) s else s.

(** [s.lines()]: a newline ends a line, with the carriage return before it; an
    empty last piece is no line. *)
Fixpoint lines_of (pieces : list string) : list string :=
  match pieces with
  | [] => []
  | [l] => match l with EmptyString => [] | _ => [l] end
  | l :: ls => strip_cr l :: lines_of ls
  end.

Definition lines (s : string) : list string := lines_of (split_nl s).

(** [s.replace(p, q)] for a non-empty [p]: occurrences from the left, none of
    them overlapping.  [skip] counts the bytes of the occurrence still to be
    consumed. *)
Fixpoint replace_go (p q : string) (skip : nat) (s : string) : string :=
  match s with
  | EmptyString => ""
  | String c r =>
      match skip with
      | S k => replace_go p q k r
      | O => if starts_with p s then q +:+ replace_go p q (String.length p - 1) r
             else String c (replace_go p q 0 r)
      end
  end.

Definition str_replace (p q s : string) : string := replace_go p q 0 s.

(** [s.match_indices(p)] for a non-empty [p], from byte [n] on. *)
Fixpoint match_indices_go (p : string) (skip n : nat) (s : string) : list nat :=
  match s with
  | EmptyString => []
  | String _ r =>
      match skip with
      | S k => match_indices_go p k (S n) r
      | O => if starts_with p s then n :: match_indices_go p (String.length p - 1) (S n) r
             else match_indices_go p 0 (S n) r
      end
  end.

Definition match_indices (p s : string) : list nat := match_indices_go p 0 0 s.

(** [format!("{}{}{}…", …)] *)
Definition cat (l : list string) : string := String.concat "" l.

(** [v.join(sep)] *)
Definition str_join (sep : string) (l : list string) : string := String.concat sep l.

(** [s.is_empty()] *)
Definition str_is_empty (s : string) : bool :=
  match s with EmptyString => true | _ => false end.

(** [p] occurs in [s] at byte [n]. *)
Definition occurs_at (p s : string) (n : nat) : bool := starts_with p (str_from n s).

(** ** Slices *)

Lemma str_is_empty_iff s : str_is_empty s = true ↔ s = "".
Proof. by destruct s. Qed.

Lemma str_from_nil n : str_from n "" = "".
Proof. by destruct n. Qed.

Lemma str_to_from n s : str_to n s +:+ str_from n s = s.
Proof.
  revert s; induction n as [|n IH]; intros [|c s]; try done.
  exact (f_equal (String c) (IH s)).
Qed.

Lemma str_from_add n m s : str_from (n + m) s = str_from m (str_from n s).
Proof.
  revert s; induction n as [|n IH]; intros [|c s]; simpl; auto.
  by rewrite str_from_nil.
Qed.

Lemma str_from_length n s : String.length (str_from n s) = String.length s - n.
Proof. revert s; induction n as [|n IH]; intros [|c s]; simpl; auto. Qed.

Lemma str_to_length n s : String.length (str_to n s) = min n (String.length s).
Proof. revert s; induction n as [|n IH]; intros [|c s]; simpl; auto. Qed.

Lemma str_from_all n s : String.length s ≤ n → str_from n s = "".
Proof.
  revert s; induction n as [|n IH]; intros [|c s] Hn; simpl in *; auto; [lia|].
  apply IH. lia.
Qed.

Lemma str_to_all n s : String.length s ≤ n → str_to n s = s.
Proof.
  revert s; induction n as [|n IH]; intros [|c s] Hn; simpl in *; auto; [lia|].
  f_equal. apply IH. lia.
Qed.

Lemma str_from_app n x y : String.length x = n → str_from n (x +:+ y) = y.
Proof. intros <-. induction x as [|c x IH]; [done|exact IH]. Qed.

Lemma str_to_app n x y : String.length x = n → str_to n (x +:+ y) = x.
Proof.
  intros <-. induction x as [|c x IH]; [by destruct y|].
  exact (f_equal (String c) IH).
Qed.

Lemma slice_length i j s :
  String.length (slice i j s) = min (j - i) (String.length s - i).
Proof. unfold slice. by rewrite str_to_length, str_from_length. Qed.

(** Consecutive slices put a string together again. *)
Lemma str_to_slice i j s : i ≤ j → str_to i s +:+ slice i j s = str_to j s.
Proof.
  revert j s; induction i as [|i IH]; intros [|j] [|c s] Hij; try done; try lia.
  - unfold slice. by destruct (S j - S i).
  - exact (f_equal (String c) (IH j s ltac:(lia))).
Qed.

(** ** Occurrences *)

Lemma starts_with_length p s : starts_with p s = true → String.length p ≤ String.length s.
Proof. intros [r ->]%starts_with_iff. rewrite length_append. lia. Qed.

Lemma occurs_at_length p s n :
  p ≠ "" → occurs_at p s n = true → n + String.length p ≤ String.length s.
Proof.
  intros Hp H%starts_with_length. rewrite str_from_length in H.
  destruct p; [done|]. simpl in *. lia.
Qed.

Lemma occurs_at_0 p s : occurs_at p s 0 = starts_with p s.
Proof. done. Qed.

Lemma occurs_at_S p c s n : occurs_at p (String c s) (S n) = occurs_at p s n.
Proof. done. Qed.

Lemma occurs_at_from p s n m : occurs_at p (str_from n s) m = occurs_at p s (n + m).
Proof. unfold occurs_at. by rewrite str_from_add. Qed.

Lemma str_find_Some p s n :
  str_find p s = Some n ↔
  occurs_at p s n = true ∧ n ≤ String.length s ∧ ∀ m, m < n → occurs_at p s m = false.
Proof.
  revert n; induction s as [|c s IH]; intros n.
  - cbn [str_find]. destruct (starts_with p "") eqn:Hp; split.
    + intros [= <-]. split_and!; [done..|lia].
    + intros (_ & Hn & _). simpl in Hn. f_equal. lia.
    + done.
    + intros (Ho & Hn & _). simpl in Hn. replace n with 0 in Ho by lia.
      rewrite occurs_at_0 in Ho. congruence.
  - cbn [str_find]. destruct (starts_with p (String c s)) eqn:Hp; split.
    + intros [= <-]. split_and!; [done|lia|lia].
    + intros (_ & _ & Hmin). destruct n as [|n]; [done|].
      specialize (Hmin 0 ltac:(lia)). rewrite occurs_at_0 in Hmin. congruence.
    + intros (k & Hk & ->)%fmap_Some. apply IH in Hk as (Ho & Hle & Hmin).
      split_and!; [by rewrite occurs_at_S|simpl; lia|].
      intros [|m] Hm; [done|]. rewrite occurs_at_S. apply Hmin. lia.
    + intros (Ho & Hle & Hmin). destruct n as [|n].
      { rewrite occurs_at_0 in Ho. congruence. }
      apply fmap_Some. exists n. split; [|done]. apply IH.
      split_and!; [by rewrite occurs_at_S in Ho|simpl in Hle; lia|].
      intros m Hm. rewrite <-(occurs_at_S p c s m). apply Hmin. lia.
Qed.

Lemma str_find_None p s :
  str_find p s = None ↔ ∀ n, n ≤ String.length s → occurs_at p s n = false.
Proof.
  induction s as [|c s IH]; cbn [str_find].
  - destruct (starts_with p "") eqn:Hp; split; try done.
    + intros H. specialize (H 0 ltac:(lia)). rewrite occurs_at_0 in H. congruence.
    + intros _ n Hn. simpl in Hn. by replace n with 0 by lia.
  - destruct (starts_with p (String c s)) eqn:Hp; split; try done.
    + intros H. specialize (H 0 ltac:(lia)). rewrite occurs_at_0 in H. congruence.
    + intros H%fmap_None [|n] Hn; [done|]. rewrite occurs_at_S.
      apply IH; [done|simpl in Hn; lia].
    + intros H. apply fmap_None, IH. intros n Hn.
      rewrite <-(occurs_at_S p c s n). apply H. simpl. lia.
Qed.

Lemma str_find_range p s n :
  p ≠ "" → str_find p s = Some n → n + String.length p ≤ String.length s.
Proof. intros Hp (Ho & _ & _)%str_find_Some. by apply occurs_at_length. Qed.

Lemma contains_str_find p s : contains p s = true ↔ is_Some (str_find p s).
Proof.
  induction s as [|c s IH]; cbn [contains str_find].
  - destruct (starts_with p ""); simpl; split; try done; by intros [? ?].
  - destruct (starts_with p (String c s)); simpl; [split; [by eexists|done]|].
    by rewrite IH, fmap_is_Some.
Qed.

Lemma contains_occurs p s :
  contains p s = true ↔ ∃ n, n ≤ String.length s ∧ occurs_at p s n = true.
Proof.
  rewrite contains_str_find. split.
  - intros [n (Ho & Hle & _)%str_find_Some]. by exists n.
  - intros (n & Hle & Ho). destruct (str_find p s) eqn:Hf; [by eexists|].
    rewrite str_find_None in Hf. rewrite Hf in Ho by done. done.
Qed.

Lemma contains_false p s n :
  contains p s = false → n ≤ String.length s → occurs_at p s n = false.
Proof.
  intros Hc Hn. destruct (occurs_at p s n) eqn:Ho; [|done].
  assert (contains p s = true) by (apply contains_occurs; eauto). congruence.
Qed.

(** A pattern none of whose proper suffixes is a prefix of it has no
    overlapping occurrences. *)
Definition unbordered (p : string) : bool :=
  negb (str_is_empty p) &&
  forallb (fun k => negb (starts_with (str_from k p) p)) (seq 1 (String.length p - 1)).

Lemma str_from_app_l k x y : k ≤ String.length x → str_from k (x +:+ y) = str_from k x +:+ y.
Proof.
  revert x; induction k as [|k IH]; intros [|c x] Hk; simpl in *; try done; [lia|].
  apply IH. lia.
Qed.

Lemma prefix_of_prefix a b r r' :
  a +:+ r = b +:+ r' → String.length a ≤ String.length b → starts_with a b = true.
Proof.
  revert b; induction a as [|c a IH]; intros [|d b] H Hl; simpl in Hl; try done; [lia|].
  apply string_cons_inj in H as [-> H]. rewrite starts_with_cons.
  destruct (ascii_dec d d); [|done]. apply (IH _ H). lia.
Qed.

Lemma occurs_no_overlap p s n m :
  unbordered p = true → occurs_at p s n = true → n < m < n + String.length p →
  occurs_at p s m = false.
Proof.
  intros [_ Hu]%andb_true_iff [r Hr]%starts_with_iff Hm.
  destruct (occurs_at p s m) eqn:Ho; [|done].
  apply starts_with_iff in Ho as [r' Hr']. exfalso.
  replace m with (n + (m - n)) in Hr' by lia.
  rewrite str_from_add, Hr, str_from_app_l in Hr' by lia.
  apply prefix_of_prefix in Hr'; [|rewrite str_from_length; lia].
  rewrite forallb_forall in Hu. specialize (Hu (m - n)).
  rewrite Hr' in Hu. assert (In (m - n) (seq 1 (String.length p - 1))) as Hin%Hu.
  { apply in_seq. lia. }
  done.
Qed.

Lemma str_from_cons_get n s c r :
  str_from n s = String c r → String.get n s = Some c.
Proof.
  revert s; induction n as [|n IH]; intros [|d s] H; simpl in *; try done.
  - by apply string_cons_inj in H as [-> _].
  - by apply IH.
Qed.

Lemma span_len_le f s : span_len f s ≤ String.length s.
Proof. induction s as [|c s IH]; simpl; [done|]. case_match; lia. Qed.

Lemma skip_while_le f s i : i ≤ String.length s → i ≤ skip_while f s i ≤ String.length s.
Proof.
  intros Hi. unfold skip_while. pose proof (span_len_le f (str_from i s)) as H.
  rewrite str_from_length in H. lia.
Qed.

Lemma rfind_char_range c s n : rfind_char c s = Some n → n < String.length s.
Proof.
  revert n; induction s as [|d s IH]; intros n; simpl; [done|].
  repeat case_match; intros [= <-]; [|lia]. specialize (IH _ eq_refl). lia.
Qed.

(** For an unbordered pattern [match_indices] gives every occurrence. *)
Lemma match_indices_go_spec p skip n s k :
  unbordered p = true → (∀ j, j < skip → occurs_at p s j = false) →
  k ∈ match_indices_go p skip n s ↔ n ≤ k ∧ occurs_at p s (k - n) = true.
Proof.
  intros Hu. assert (p ≠ "") as Hp by (by destruct p).
  revert skip n; induction s as [|c s IH]; intros skip n Hskip.
  - simpl. split; [by intros ?%elem_of_nil|]. intros [_ Ho].
    apply occurs_at_length in Ho; [|done]. destruct p; [done|]. simpl in Ho. lia.
  - assert (∀ j, k = S n + j → occurs_at p (String c s) (k - n) = occurs_at p s (k - S n)) as Hs.
    { intros j ->. replace (S n + j - n) with (S j) by lia.
      by replace (S n + j - S n) with j by lia. }
    cbn [match_indices_go]. destruct skip as [|skip].
    + destruct (starts_with p (String c s)) eqn:Hst.
      * rewrite elem_of_cons, IH.
        -- split.
           ++ intros [->|[Hk Ho]]; [split; [done|by rewrite Nat.sub_diag]|].
              split; [lia|]. by rewrite (Hs (k - S n)) by lia.
           ++ intros [Hk Ho]. destruct (decide (k = n)) as [->|Hne]; [by left|right].
              split; [lia|]. by rewrite <-(Hs (k - S n)) by lia.
        -- intros j Hj. rewrite <-(occurs_at_S p c). eapply (occurs_no_overlap p _ 0); [done..|lia].
      * rewrite IH by lia. split.
        -- intros [Hk Ho]. split; [lia|]. by rewrite (Hs (k - S n)) by lia.
        -- intros [Hk Ho]. destruct (decide (k = n)) as [->|Hne].
           { rewrite Nat.sub_diag, occurs_at_0 in Ho. congruence. }
           split; [lia|]. by rewrite <-(Hs (k - S n)) by lia.
    + rewrite IH.
      * split.
        -- intros [Hk Ho]. split; [lia|]. by rewrite (Hs (k - S n)) by lia.
        -- intros [Hk Ho]. destruct (decide (k = n)) as [->|Hne].
           { rewrite Nat.sub_diag, (Hskip 0) in Ho by lia. done. }
           split; [lia|]. by rewrite <-(Hs (k - S n)) by lia.
      * intros j Hj. rewrite <-(occurs_at_S p c). apply Hskip. lia.
Qed.

Lemma match_indices_spec p s k :
  unbordered p = true → k ∈ match_indices p s ↔ occurs_at p s k = true.
Proof.
  intros Hu. unfold match_indices. rewrite match_indices_go_spec by (done || lia).
  rewrite Nat.sub_0_r. split; [by intros [_ ?]|]. intros; split; [lia|done].
Qed.

(** ** Containment *)

Lemma contains_iff p s : contains p s = true ↔ ∃ a b, s = a +:+ (p +:+ b).
Proof.
  rewrite contains_occurs. split.
  - intros (n & Hn & [r Hr]%starts_with_iff). exists (str_to n s), r.
    by rewrite <-Hr, str_to_from.
  - intros (a & b & ->). exists (String.length a). rewrite length_append. split; [lia|].
    unfold occurs_at. rewrite str_from_app by done. apply starts_with_iff. eauto.
Qed.

Lemma contains_infix p a s b : contains p (a +:+ (s +:+ b)) = false → contains p s = false.
Proof.
  intros H. destruct (contains p s) eqn:Hs; [|done].
  apply contains_iff in Hs as (x & y & ->).
  assert (contains p (a +:+ ((x +:+ (p +:+ y)) +:+ b)) = true); [|congruence].
  apply contains_iff. exists (a +:+ x), (y +:+ b). by rewrite !append_assoc.
Qed.

Lemma strip_first_suffix ws s s' : strip_first ws s = Some s' → ∃ a, s = a +:+ s'.
Proof.
  induction ws as [|w ws IH]; simpl; [done|].
  destruct (strip_prefix w s) eqn:Hp; [|done]. intros [= ->].
  apply strip_prefix_iff in Hp. by exists w.
Qed.

Lemma trim_start_with_suffix ws fuel s : ∃ a, s = a +:+ trim_start_with ws fuel s.
Proof.
  revert s; induction fuel as [|fuel IH]; intros s; simpl; [by exists ""|].
  destruct (strip_first ws s) as [s'|] eqn:Hs; [|by exists ""].
  apply strip_first_suffix in Hs as [a ->]. destruct (IH s') as [b Hb].
  exists (a +:+ b). by rewrite append_assoc, <-Hb.
Qed.

Lemma string_rev_append x y : string_rev (x +:+ y) "" = string_rev y "" +:+ string_rev x "".
Proof.
  induction x as [|c x IH].
  - simpl. by rewrite append_nil_r.
  - change (string_rev (x +:+ y) (String c "") = string_rev y "" +:+ string_rev x (String c "")).
    rewrite (string_rev_app (x +:+ y)), (string_rev_app x), IH. by rewrite append_assoc.
Qed.

(** Trimming cuts a prefix and a suffix off. *)
Lemma trim_infix s : ∃ a b, s = a +:+ (trim s +:+ b).
Proof.
  unfold trim, trim_start. destruct (trim_start_with_suffix whitespace (String.length s) s) as [a Ha].
  set (t := trim_start_with _ _ _) in *. exists a. unfold trim_end.
  destruct (trim_start_with_suffix ((fun w => string_rev w "") <$> whitespace) (String.length t)
              (string_rev t "")) as [b Hb].
  set (u := trim_start_with _ _ _) in *. exists (string_rev b "").
  rewrite <-string_rev_append, <-Hb, string_rev_involutive. exact Ha.
Qed.

(** ** Replacement *)

Lemma replace_go_length p q skip s :
  String.length q ≤ String.length p → skip ≤ String.length s →
  String.length (replace_go p q skip s) + skip ≤ String.length s.
Proof.
  intros Hqp. revert skip; induction s as [|c s IH]; intros skip Hs; simpl in Hs; [simpl; lia|].
  cbn [replace_go]. destruct skip as [|skip].
  - destruct (starts_with p (String c s)) eqn:Hp.
    + apply starts_with_length in Hp. simpl in Hp. rewrite length_append.
      specialize (IH (String.length p - 1) ltac:(lia)). simpl. lia.
    + specialize (IH 0 ltac:(lia)). simpl. lia.
  - specialize (IH skip ltac:(lia)). simpl. lia.
Qed.

Lemma str_replace_shrinks p q s :
  String.length q < String.length p → contains p s = true →
  String.length (str_replace p q s) < String.length s.
Proof.
  intros Hqp. unfold str_replace. induction s as [|c s IH]; intros Hc; cbn [contains] in Hc.
  - apply orb_true_iff in Hc as [Hc%starts_with_length|]; [|done]. simpl in Hc. lia.
  - cbn [replace_go]. destruct (starts_with p (String c s)) eqn:Hp.
    + apply starts_with_length in Hp. simpl in Hp. rewrite length_append.
      pose proof (replace_go_length p q (String.length p - 1) s ltac:(lia) ltac:(lia)). simpl. lia.
    + simpl in Hc. specialize (IH Hc). simpl. lia.
Qed.

#[export] Hint Rewrite str_from_length str_to_length slice_length : iron.

(** ** Concatenation *)

Lemma cat_cons x l : cat (x :: l) = x +:+ cat l.
Proof. unfold cat. destruct l; [by rewrite append_nil_r|]. done. Qed.

Lemma cat_app l k : cat (l ++ k) = cat l +:+ cat k.
Proof.
  induction l as [|x l IH]; [done|]. rewrite <-app_comm_cons, !cat_cons, IH. by rewrite append_assoc.
Qed.

(** ** Values as text

    The bits of the encoding of a countable type; instances of the printers and parsers of libraries are built from it. *)
Fixpoint bits_of (p : positive) : string :=
  match p with xH => "1" | xO p => String "0" (bits_of p) | xI p => String "x" (bits_of p) end.

Fixpoint of_bits (s : string) : option positive :=
  match s with
  | EmptyString => None
  | String c r =>
      if bool_decide (c = "1"%char) then (if str_is_empty r then Some xH else None)
      else if bool_decide (c = "0"%char) then xO <$> of_bits r else xI <$> of_bits r
  end.

Lemma of_bits_of p : of_bits (bits_of p) = Some p.
Proof. induction p as [p IH|p IH|]; cbn; [by rewrite IH..|done]. Qed.

Definition encode_text `{Countable A} (a : A) : string := bits_of (encode a).
Definition decode_text `{Countable A} (s : string) : option A := of_bits s ≫= decode.

Lemma decode_encode_text `{Countable A} (a : A) : decode_text (encode_text a) = Some a.
Proof. unfold decode_text, encode_text. by rewrite of_bits_of; cbn; rewrite decode_encode. Qed.

Lemma contains_char_cons c x s : contains (String c "") (String x s) = bool_decide (c = x) || contains (String c "") s.
Proof.
  cbn [contains]. unfold starts_with. cbn [String.prefix].
  destruct (ascii_dec c x); [by rewrite bool_decide_true; destruct s|by rewrite bool_decide_false].
Qed.
