(* ===== verification/Effects.v ===== *)
(** * Effects: a state monad for handlers that thread their state through many calls

    [St S A] is a computation on a state of type [S].  [c ;? k] continues with the value of a [Result] and
    returns its error otherwise, as the operator [?] does.  [preserves] is the invariant rule of the monad, and
    [outcome] says what holds of the value and the state a computation ends with. *)

From S2P Require Import Prelude.

Definition St (S A : Type) : Type := S -> A * S.

#[export] Instance st_ret {S} : MRet (St S) := fun _ a s => (a, s).
#[export] Instance st_bind {S} : MBind (St S) := fun _ _ k c s => let '(a, s) := c s in k a s.

Definition gets {S A} (f : S -> A) : St S A := fun s => (f s, s).
Definition act {S A} (f : S -> A * S) : St S A := f.
Definition modify {S} (f : S -> S) : St S unit := fun s => (tt, f s).

Definition st_try {S E A B} (c : St S (Result E A)) (k : A -> St S (Result E B)) : St S (Result E B) :=
  r ← c; match r with Ok a => k a | Err e => mret (Err e) end.

Notation "x ←? c ; k" := (st_try c (fun x => k)) (at level 20, c at level 100, k at level 200, right associativity).
Notation "' x ←? c ; k" :=
  (st_try c (fun x => k)) (at level 20, x pattern, c at level 100, k at level 200, right associativity).

(** Run for each element, in order. *)
Fixpoint st_iter {S A} (f : A -> St S unit) (l : list A) : St S unit :=
  match l with
  | [] => mret tt
  | x :: l => _ ← f x; st_iter f l
  end.

(** ** Reasoning *)

Section rules.
  Context {S : Type}.
  Implicit Types (I : S -> Prop).

(** Every state a computation ends in satisfies [I] when the first one does. *)
Definition preserves {A} I (c : St S A) : Prop := ∀ s, I s → I (c s).2.

(** What holds of the value and the last state. *)
Definition outcome {A} (P : S -> Prop) (c : St S A) (Q : A -> S -> Prop) : Prop :=
  ∀ s, P s → Q (c s).1 (c s).2.

Lemma preserves_ret {A} I (a : A) : preserves I (mret a).
Proof. by intros s Hs. Qed.

Lemma preserves_bind {A B} I (c : St S A) (k : A -> St S B) :
  preserves I c → (∀ a, preserves I (k a)) → preserves I (c ≫= k).
Proof.
  intros Hc Hk s Hs. unfold mbind, st_bind. specialize (Hc s Hs). destruct (c s) as [a s']. by apply Hk.
Qed.

Lemma preserves_try {E A B} I (c : St S (Result E A)) (k : A -> St S (Result E B)) :
  preserves I c → (∀ a, preserves I (k a)) → preserves I (st_try c k).
Proof. intros Hc Hk. apply preserves_bind; [done|]. intros [a|e]; [apply Hk|apply preserves_ret]. Qed.

Lemma preserves_gets {A} I (f : S -> A) : preserves I (gets f).
Proof. by intros s Hs. Qed.

Lemma preserves_modify I f : (∀ s, I s → I (f s)) → preserves I (modify f).
Proof. intros Hf s Hs. by apply Hf. Qed.

Lemma preserves_act {A} I (f : S -> A * S) : (∀ s, I s → I (f s).2) → preserves I (act f).
Proof. intros Hf s Hs. by apply Hf. Qed.

Lemma preserves_iter {A} I (f : A -> St S unit) l : (∀ x, preserves I (f x)) → preserves I (st_iter f l).
Proof.
  intros Hf. induction l as [|x l IH]; [apply preserves_ret|]. cbn [st_iter]. by apply preserves_bind.
Qed.

Lemma preserves_if {A} I (b : bool) (c1 c2 : St S A) :
  preserves I c1 → preserves I c2 → preserves I (if b then c1 else c2).
Proof. by destruct b. Qed.

Lemma outcome_bind {A B} P (c : St S A) (k : A -> St S B) Q R :
  outcome P c Q → (∀ a, outcome (Q a) (k a) R) → outcome P (c ≫= k) R.
Proof.
  intros Hc Hk s Hs. unfold mbind, st_bind. specialize (Hc s Hs). destruct (c s) as [a s']. by apply Hk.
Qed.

Lemma outcome_ret {A} (P : S -> Prop) (a : A) (Q : A -> S -> Prop) :
  (∀ s, P s → Q a s) → outcome P (mret a) Q.
Proof. intros Hq s Hs. by apply Hq. Qed.

Lemma outcome_conseq {A} (P P' : S -> Prop) (c : St S A) (Q Q' : A -> S -> Prop) :
  (∀ s, P s → P' s) → (∀ a s, Q' a s → Q a s) → outcome P' c Q' → outcome P c Q.
Proof. intros Hp Hq Hc s Hs. apply Hq, Hc, Hp, Hs. Qed.

Lemma bind_run {A B} (c : St S A) (k : A -> St S B) s : (c ≫= k) s = k (c s).1 (c s).2.
Proof. unfold mbind, st_bind. by destruct (c s). Qed.

Lemma bind_step {A B} (c : St S A) (k : A -> St S B) s a s' : c s = (a, s') → (c ≫= k) s = k a s'.
Proof. intros Hc. by rewrite bind_run, Hc. Qed.

Lemma ret_run {A} (a : A) (s : S) : mret (M := St S) a s = (a, s).
Proof. done. Qed.
End rules.

Create HintDb effects.
#[export] Hint Resolve preserves_ret preserves_gets preserves_if : effects.

(** Decompose a computation; what is left are the operations on the state. *)
Ltac preserve :=
  repeat (intros;
    first
    [ solve [auto with effects nocore]
    | match goal with
      | |- preserves _ (mret _) => apply preserves_ret
      | |- preserves _ (gets _) => apply preserves_gets
      | |- preserves _ (_ ≫= _) => apply preserves_bind
      | |- preserves _ (st_try _ _) => apply preserves_try
      | |- preserves _ (st_iter _ _) => apply preserves_iter
      | |- preserves _ (match _ with _ => _ end) => case_match
      | |- preserves _ (let _ := _ in _) => cbv zeta
      end ]); intros.
