(* ===== verification/JobState.v ===== *)
(** * Jobs: the state machine of [src/context/state.rs]

    [JobState] with its transition table, [JobContext] with the operations
    that change it.  The theorems are about every context that the operations
    can produce: its history is a chain of allowed transitions that ends in the
    current state, terminal states absorb, and the token budget is enforced. *)

From S2P Require Import Prelude.
Local Open Scope Z_scope.

Inductive JobState : Type :=
| Pending | InProgress | Completed | Submitted
| Accepted | Failed | Stuck | Cancelled.

#[export] Instance JobState_eq_dec : EqDecision JobState.
Proof. solve_decision. Defined.

Definition can_transition_to (self target : JobState) : bool :=
  match self, target with
  | Completed, Completed => true
  | Pending, InProgress | Pending, Cancelled => true
  | InProgress, Completed | InProgress, Failed
  | InProgress, Stuck | InProgress, Cancelled => true
  | Completed, Submitted | Completed, Failed => true
  | Submitted, Accepted | Submitted, Failed => true
  | Stuck, InProgress | Stuck, Failed | Stuck, Cancelled => true
  | _, _ => false
  end.

Definition is_terminal (self : JobState) : bool :=
  match self with Accepted | Failed | Cancelled => true | _ => false end.

Definition is_active (self : JobState) : bool := negb (is_terminal self).

Definition is_parallel_blocking (self : JobState) : bool :=
  match self with Pending | InProgress | Stuck => true | _ => false end.

Definition job_state_display (self : JobState) : string :=
  match self with
  | Pending => "pending"
  | InProgress => "in_progress"
  | Completed => "completed"
  | Submitted => "submitted"
  | Accepted => "accepted"
  | Failed => "failed"
  | Stuck => "stuck"
  | Cancelled => "cancelled"
  end.

(** [JobError] of [src/error.rs]; durations are nanoseconds. *)
Inductive JobError : Type :=
| NotFound (id : Uuid)
| InvalidTransition (id : Uuid) (from target : string)
| JobFailed (id : Uuid) (reason : string)
| JobStuck (id : Uuid) (duration : Z)
| MaxJobsExceeded (max : nat)
| ContextError (id : Uuid) (reason : string).

Record StateTransition : Type := mkTransition {
  tr_from : JobState;
  tr_to : JobState;
  tr_timestamp : Z;
  tr_reason : option string
}.

Record TokenBudgetExceeded : Type := mkBudgetExceeded {
  tb_used : Z;
  tb_limit : Z
}.

(** [extra_env] is never mutated behind its [Arc], so it is the map itself;
    [http_interceptor] and [tool_output_stash] are shared pointers and are
    kept as opaque handles. *)
Record JobContext `{Decimal} : Type := mkContext {
  job_id : Uuid;
  state : JobState;
  user_id : string;
  requester_id : option string;
  conversation_id : option Uuid;
  title : string;
  description : string;
  category : option string;
  budget : option dec;
  budget_token : option string;
  bid_amount : option dec;
  estimated_cost : option dec;
  estimated_duration : option Z;
  actual_cost : dec;
  total_tokens_used : Z;
  max_tokens : Z;
  created_at : Z;
  started_at : option Z;
  completed_at : option Z;
  repair_attempts : Z;
  transitions : list StateTransition;
  metadata : Json;
  extra_env : gmap string string;
  http_interceptor : option N;
  tool_output_stash : N;
  user_timezone : string
}.

Section context.
Context `{Decimal}.

(** The fields that the operations below write, all others kept. *)
Definition with_fields (c : JobContext) (st : JobState) (cost : dec)
    (tokens : Z) (sa ca : option Z) (ra : Z) (trs : list StateTransition) : JobContext :=
  mkContext _ (job_id c) st (user_id c) (requester_id c) (conversation_id c)
    (title c) (description c) (category c) (budget c) (budget_token c)
    (bid_amount c) (estimated_cost c) (estimated_duration c) cost tokens
    (max_tokens c) (created_at c) sa ca ra trs (metadata c) (extra_env c)
    (http_interceptor c) (tool_output_stash c) (user_timezone c).

(** [id], [now] and [stash] are the fresh UUID, the clock reading and the
    newly allocated stash. *)
Definition with_user (id : Uuid) (now : Z) (stash : N)
    (user ttl descr : string) : JobContext :=
  mkContext _ id Pending user None None ttl descr None None None None None None
    dec_zero 0 0 now None None 0 [] JNull ∅ None stash "UTC".

Definition new (id : Uuid) (now : Z) (stash : N) (ttl descr : string) : JobContext :=
  with_user id now stash "default" ttl descr.

Definition with_timezone (c : JobContext) (tz : string) : JobContext :=
  mkContext _ (job_id c) (state c) (user_id c) (requester_id c) (conversation_id c)
    (title c) (description c) (category c) (budget c) (budget_token c)
    (bid_amount c) (estimated_cost c) (estimated_duration c) (actual_cost c)
    (total_tokens_used c) (max_tokens c) (created_at c) (started_at c)
    (completed_at c) (repair_attempts c) (transitions c) (metadata c)
    (extra_env c) (http_interceptor c) (tool_output_stash c) tz.

Definition with_requester_id (c : JobContext) (r : string) : JobContext :=
  mkContext _ (job_id c) (state c) (user_id c) (Some r) (conversation_id c)
    (title c) (description c) (category c) (budget c) (budget_token c)
    (bid_amount c) (estimated_cost c) (estimated_duration c) (actual_cost c)
    (total_tokens_used c) (max_tokens c) (created_at c) (started_at c)
    (completed_at c) (repair_attempts c) (transitions c) (metadata c)
    (extra_env c) (http_interceptor c) (tool_output_stash c) (user_timezone c).

Definition MAX_TRANSITIONS : nat := 200.

Definition transition_error (from to : JobState) : string :=
  "Cannot transition from " +:+ job_state_display from +:+ " to " +:+ job_state_display to.

(** [clk 0] stamps the history entry, [clk 1] the lifecycle timestamps. *)
Definition transition_to (clk : Clock) (c : JobContext) (new_state : JobState)
    (reason : option string) : JobContext * Result string unit :=
  if negb (can_transition_to (state c) new_state) then
    (c, Err (transition_error (state c) new_state))
  else if decide (state c = new_state) then (c, Ok ())
  else
    let transition := mkTransition (state c) new_state (clk 0%nat) reason in
    let pushed := transitions c ++ [transition] in
    let kept :=
      if decide (MAX_TRANSITIONS < length pushed)%nat
      then drop (length pushed - MAX_TRANSITIONS) pushed else pushed in
    let sa :=
      match new_state, started_at c with
      | InProgress, None => Some (clk 1%nat)
      | _, sa => sa
      end in
    let ca :=
      match new_state with
      | Completed | Accepted | Failed | Cancelled => Some (clk 1%nat)
      | _ => completed_at c
      end in
    (with_fields c new_state (actual_cost c) (total_tokens_used c) sa ca
       (repair_attempts c) kept, Ok ()).

Definition add_cost (c : JobContext) (cost : dec) : JobContext :=
  with_fields c (state c) (dec_add (actual_cost c) cost) (total_tokens_used c)
    (started_at c) (completed_at c) (repair_attempts c) (transitions c).

Definition add_tokens (c : JobContext) (tokens : Z)
    : JobContext * Result TokenBudgetExceeded unit :=
  let used := wrap64 (total_tokens_used c + tokens) in
  let c' := with_fields c (state c) (actual_cost c) used (started_at c)
              (completed_at c) (repair_attempts c) (transitions c) in
  if (0 <? max_tokens c) && (max_tokens c <? used)
  then (c', Err (mkBudgetExceeded used (max_tokens c)))
  else (c', Ok ()).

Definition budget_exceeded (c : JobContext) : bool :=
  match budget c with
  | Some b => dec_ltb b (actual_cost c)
  | None => false
  end.

(** Seconds between start and end, never negative; [now] is read only for a
    job that has not ended.  [num_seconds] truncates toward zero. *)
Definition elapsed (c : JobContext) (now : Z) : option Z :=
  (fun start =>
     let end_ := match completed_at c with Some e => e | None => now end in
     Z.max (Z.quot (end_ - start) (secs 1)) 0) <$> started_at c.

Definition mark_stuck (clk : Clock) (c : JobContext) (reason : string)
    : JobContext * Result string unit :=
  transition_to clk c Stuck (Some reason).

Definition attempt_recovery (clk : Clock) (c : JobContext)
    : JobContext * Result string unit :=
  if decide (state c = Stuck) then
    let c' := with_fields c (state c) (actual_cost c) (total_tokens_used c)
                (started_at c) (completed_at c)
                (wrap32 (repair_attempts c + 1)) (transitions c) in
    transition_to clk c' InProgress (Some "Recovery attempt")
  else (c, Err "Job is not stuck").

(** ** Reachable contexts *)

(** One operation on a context, whatever its outcome. *)
Inductive context_step : JobContext -> JobContext -> Prop :=
| step_transition clk c s r : context_step c (transition_to clk c s r).1
| step_cost c d : context_step c (add_cost c d)
| step_tokens c n : in_u64 n → context_step c (add_tokens c n).1
| step_stuck clk c r : context_step c (mark_stuck clk c r).1
| step_recover clk c : context_step c (attempt_recovery clk c).1
| step_timezone c tz : context_step c (with_timezone c tz)
| step_requester c r : context_step c (with_requester_id c r).

(** The contexts that operations produce from [c0]. *)
Definition reachable (c0 c : JobContext) : Prop := rtc context_step c0 c.

(** [chain trs s]: each entry is an allowed move between distinct states, each
    starts where the previous one ended, and the last ends in [s]. *)
Fixpoint chain (trs : list StateTransition) (s : JobState) : Prop :=
  match trs with
  | [] => True
  | [t] => tr_to t = s ∧ can_transition_to (tr_from t) (tr_to t) = true
           ∧ tr_from t ≠ tr_to t
  | t :: (u :: _) as rest =>
      tr_to t = tr_from u ∧ can_transition_to (tr_from t) (tr_to t) = true
      ∧ tr_from t ≠ tr_to t ∧ chain rest s
  end.

(** The states a job only reaches after it was started. *)
Definition requires_start (s : JobState) : bool :=
  match s with Pending | Cancelled => false | _ => true end.

Record context_ok (c : JobContext) : Prop := {
  ok_chain : chain (transitions c) (state c);
  ok_bound : (length (transitions c) ≤ MAX_TRANSITIONS)%nat;
  ok_fresh : transitions c = [] → state c = Pending ∨ state c = InProgress;
  ok_started : requires_start (state c) = true → is_Some (started_at c);
  ok_ended : is_terminal (state c) = true ∨ state c = Completed ∨ state c = Submitted →
             is_Some (completed_at c);
  ok_tokens : in_u64 (total_tokens_used c);
  ok_repairs : in_u32 (repair_attempts c)
}.

(** ** Lemmas *)

Lemma chain_snoc trs s t :
  chain trs s → tr_from t = s → can_transition_to (tr_from t) (tr_to t) = true →
  tr_from t ≠ tr_to t → chain (trs ++ [t]) (tr_to t).
Proof.
  intros Hc Hs Ht Hne. induction trs as [|a [|b r] IH]; [done| |].
  - destruct Hc as (? & ? & ?). simpl. repeat split; congruence.
  - destruct Hc as (? & ? & ? & ?). change (chain (a :: ((b :: r) ++ [t])) (tr_to t)).
    split_and!; auto.
Qed.

Lemma chain_drop n trs s : chain trs s → chain (drop n trs) s.
Proof.
  revert trs. induction n as [|n IH]; intros trs Hc; [by rewrite drop_0|].
  destruct trs as [|a [|b r]]; simpl; [done|by destruct n|].
  apply IH. by destruct Hc as (? & ? & ? & ?).
Qed.

Lemma history_kept_length (trs : list StateTransition) t :
  (length trs ≤ MAX_TRANSITIONS)%nat →
  (length (if decide (MAX_TRANSITIONS < length (trs ++ [t]))%nat
           then drop (length (trs ++ [t]) - MAX_TRANSITIONS) (trs ++ [t])
           else trs ++ [t]) ≤ MAX_TRANSITIONS)%nat.
Proof. intros. case_decide; rewrite ?length_drop; rewrite length_app in *; simpl in *; lia. Qed.

Lemma history_kept_nonempty (trs : list StateTransition) t :
  (if decide (MAX_TRANSITIONS < length (trs ++ [t]))%nat
   then drop (length (trs ++ [t]) - MAX_TRANSITIONS) (trs ++ [t])
   else trs ++ [t]) ≠ [].
Proof.
  intros Hnil%(f_equal length).
  case_decide; rewrite ?length_drop in Hnil; rewrite length_app in *;
    unfold MAX_TRANSITIONS in *; simpl in *; lia.
Qed.

Lemma with_user_ok id now stash u t d : context_ok (with_user id now stash u t d).
Proof. split; simpl; unfold in_u64, in_u32; try done; [lia | auto | intuition done]. Qed.

Lemma transition_to_ok clk c s r : context_ok c → context_ok (transition_to clk c s r).1.
Proof.
  intros [Hch Hb Hf Hst Hen Htk Hrp]. unfold transition_to.
  destruct (can_transition_to (state c) s) eqn:Hcan; simpl; [|done].
  case_decide as Heq; simpl; [done|].
  set (tr := mkTransition (state c) s (clk 0%nat) r).
  assert (Hsn : chain (transitions c ++ [tr]) s) by by apply (chain_snoc _ (state c) tr).
  split; cbn [with_fields state transitions started_at completed_at total_tokens_used repair_attempts].
  - case_decide; [by apply chain_drop|done].
  - by apply history_kept_length.
  - intros Hnil. by destruct (history_kept_nonempty _ _ Hnil).
  - intros Hreq. destruct s; simplify_eq/=; try (by apply Hst; destruct (state c));
      destruct (started_at c); eauto.
  - intros [Ht|[-> | ->]]; [destruct s; simplify_eq/=; eauto | eauto |].
    apply Hen. destruct (state c); simplify_eq/=; auto.
  - done.
  - done.
Qed.

Lemma context_step_ok c c' : context_ok c → context_step c c' → context_ok c'.
Proof.
  intros Hok Hstep. destruct Hstep.
  - by apply transition_to_ok.
  - by destruct Hok.
  - destruct Hok. unfold add_tokens. case_match; split; simpl; try done;
      unfold in_u64, wrap64; apply Z.mod_pos_bound; lia.
  - by apply transition_to_ok.
  - unfold attempt_recovery. case_decide; [|done]. apply transition_to_ok.
    destruct Hok. split; simpl; try done. unfold in_u32, wrap32. apply Z.mod_pos_bound; lia.
  - by destruct Hok.
  - by destruct Hok.
Qed.

Lemma terminal_no_move s s' : is_terminal s = true → can_transition_to s s' = false.
Proof. by destruct s, s'. Qed.

(** What a terminal job keeps under one operation. *)
Lemma terminal_step c c' :
  is_terminal (state c) = true → context_step c c' →
  state c' = state c ∧ transitions c' = transitions c ∧
  started_at c' = started_at c ∧ completed_at c' = completed_at c ∧
  repair_attempts c' = repair_attempts c.
Proof.
  intros Ht Hstep. destruct Hstep; unfold mark_stuck, attempt_recovery, transition_to, add_tokens;
    rewrite ?(terminal_no_move _ _ Ht); simpl; try done.
  - by case_match.
  - case_decide as Hs; [by rewrite Hs in Ht|done].
Qed.

(** ** Theorems *)

(** C36. Whatever operations run on a well-formed job context, the result is
    well formed: the history is a contiguous chain of allowed transitions
    between distinct states that ends in the current state, it never exceeds
    200 entries, a job past [Pending] that was not just cancelled has its start
    time, a completed or terminal job has its completion time, and the counters
    are in their machine range. *)
Theorem job_history_sound c0 c : context_ok c0 → reachable c0 c → context_ok c.
Proof. intros Hok Hr. induction Hr; eauto using context_step_ok. Qed.

(** Terminal states absorb: once a job is accepted, failed or cancelled no
    sequence of operations changes its state, its history, its timestamps or
    its repair count. *)
Theorem terminal_absorbing c c' :
  is_terminal (state c) = true → reachable c c' →
  state c' = state c ∧ transitions c' = transitions c ∧
  started_at c' = started_at c ∧ completed_at c' = completed_at c ∧
  repair_attempts c' = repair_attempts c.
Proof.
  intros Ht Hr. induction Hr as [|x y z Hxy Hyz IH]; [done|].
  destruct (terminal_step _ _ Ht Hxy) as (Hs & Htr & Hsa & Hca & Hra).
  destruct IH as (? & ? & ? & ? & ?); [congruence|]. repeat split; congruence.
Qed.

(** [add_tokens] on a sum that fits in [u64]: the tokens are recorded in
    every case, and the call fails exactly when a budget is set and the new
    total is above it, reporting that total and that limit. *)
Theorem add_tokens_budget c n :
  in_u64 (total_tokens_used c + n) →
  let '(c', r) := add_tokens c n in
  total_tokens_used c' = total_tokens_used c + n ∧ state c' = state c ∧
  r = (if decide (0 < max_tokens c ∧ max_tokens c < total_tokens_used c + n)
       then Err (mkBudgetExceeded (total_tokens_used c + n) (max_tokens c))
       else Ok ()).
Proof.
  intros Hu. unfold add_tokens. rewrite wrap64_small by done.
  destruct (Z.ltb_spec 0 (max_tokens c)), (Z.ltb_spec (max_tokens c) (total_tokens_used c + n));
    simpl; case_decide; intuition lia.
Qed.
End context.

(** ** Witnesses *)

Definition demo_job : JobContext := with_user 7 0 1 "u" "t" "d".

Definition demo_run : JobContext :=
  (transition_to (frozen 5) (transition_to (frozen 3) demo_job InProgress None).1
     Completed (Some "done")).1.

Definition demo_failed : JobContext := (transition_to (frozen 9) demo_run Failed None).1.

Lemma demo_run_reachable : reachable demo_job demo_run.
Proof. eapply rtc_l; [constructor|]. eapply rtc_l; [constructor|]. apply rtc_refl. Qed.

Lemma job_history_sound_witness :
  reachable demo_job demo_run ∧ context_ok demo_run ∧ state demo_run = Completed.
Proof.
  split; [exact demo_run_reachable|]. split; [|reflexivity].
  exact (job_history_sound demo_job demo_run (with_user_ok _ _ _ _ _ _) demo_run_reachable).
Defined.

Lemma terminal_absorbing_witness :
  is_terminal (state demo_failed) = true ∧
  state (attempt_recovery (frozen 11) demo_failed).1 = Failed.
Proof.
  split; [reflexivity|].
  exact (proj1 (terminal_absorbing demo_failed _ eq_refl
                  (rtc_once _ _ (step_recover (frozen 11) demo_failed)))).
Defined.

Lemma add_tokens_budget_witness :
  in_u64 (total_tokens_used demo_job + 12) ∧
  total_tokens_used (add_tokens demo_job 12).1 = total_tokens_used demo_job + 12.
Proof.
  assert (Hu : in_u64 (total_tokens_used demo_job + 12)) by (vm_compute; split; congruence).
  split; [exact Hu|]. exact (proj1 (add_tokens_budget demo_job 12 Hu)).
Defined.
