(* ===== verification/Provider.v ===== *)
(** * LLM messages, requests, errors and the provider interface

    [src/llm/provider.rs], [src/llm/error.rs] and the preview truncation of
    [crates/ironclaw_common/src/util.rs].  A Rust [String] is its UTF-8 byte
    sequence, so that byte lengths and char boundaries are those of the code.
    The trait [LlmProvider] is the class [LlmProvider]: the decorators of the
    other files are instances over any instance. *)

From Stdlib Require Import Ascii.
From S2P Require Import Prelude Text.
Local Open Scope Z_scope.

(** ** Messages *)

Inductive Role : Type := System | User | Assistant | Tool.

#[export] Instance Role_eq_dec : EqDecision Role.
Proof. solve_decision. Defined.

Record ImageUrl : Type := mkImageUrl { url : string; detail : option string }.

Inductive ContentPart : Type :=
| Text (text : string)
| ImagePart (image_url : ImageUrl).

Record ToolCall : Type := mkToolCall {
  tc_id : string;
  tc_name : string;
  tc_arguments : Json;
  tc_reasoning : option string
}.

Record ChatMessage : Type := mkMessage {
  role : Role;
  content : string;
  content_parts : list ContentPart;
  tool_call_id : option string;
  name : option string;
  tool_calls : option (list ToolCall)
}.

Definition system (c : string) : ChatMessage := mkMessage System c [] None None None.

Definition user (c : string) : ChatMessage := mkMessage User c [] None None None.

Definition user_with_parts (c : string) (parts : list ContentPart) : ChatMessage :=
  mkMessage User c parts None None None.

Definition assistant (c : string) : ChatMessage := mkMessage Assistant c [] None None None.

Definition assistant_with_tool_calls (c : option string) (calls : list ToolCall) : ChatMessage :=
  mkMessage Assistant (default "" c) [] None None
    (match calls with [] => None | _ => Some calls end).

Definition tool_result (id nm c : string) : ChatMessage :=
  mkMessage Tool c [] (Some id) (Some nm) None.

(** ** Requests and responses

    An [f32] is its 32-bit pattern. *)

Record CompletionRequest : Type := mkRequest {
  rq_messages : list ChatMessage;
  rq_model : option string;
  rq_max_tokens : option Z;
  rq_temperature : option Z;
  rq_stop_sequences : option (list string);
  rq_metadata : gmap string string
}.

Definition completion_request_new (ms : list ChatMessage) : CompletionRequest :=
  mkRequest ms None None None None ∅.

Inductive FinishReason : Type := Stop | Length | ToolUse | ContentFilter | UnknownFinish.

Record CompletionResponse : Type := mkResponse {
  rs_content : string;
  rs_input_tokens : Z;
  rs_output_tokens : Z;
  rs_finish_reason : FinishReason;
  rs_cache_read_input_tokens : Z;
  rs_cache_creation_input_tokens : Z
}.

Record ToolDefinition : Type := mkToolDefinition {
  td_name : string;
  td_description : string;
  td_parameters : Json
}.

Record ToolCompletionRequest : Type := mkToolRequest {
  trq_messages : list ChatMessage;
  trq_tools : list ToolDefinition;
  trq_model : option string;
  trq_max_tokens : option Z;
  trq_temperature : option Z;
  trq_stop_sequences : option (list string);
  trq_tool_choice : option string;
  trq_metadata : gmap string string
}.

Record ToolCompletionResponse : Type := mkToolResponse {
  trs_content : option string;
  trs_tool_calls : list ToolCall;
  trs_input_tokens : Z;
  trs_output_tokens : Z;
  trs_finish_reason : FinishReason;
  trs_cache_read_input_tokens : Z;
  trs_cache_creation_input_tokens : Z
}.

Record ModelMetadata : Type := mkMetadata {
  md_id : string;
  md_context_length : option Z
}.

(** ** Errors

    The payloads of [Http], [Json] and [Io] are errors of other crates; they
    are kept as their printed form.  [retry_after] is in nanoseconds. *)

Inductive LlmError : Type :=
| RequestFailed (provider reason : string)
| RateLimited (provider : string) (retry_after : option Z)
| InvalidResponse (provider reason : string)
| EmptyResponse (provider : string)
| ContextLengthExceeded (used limit : Z)
| ModelNotAvailable (provider model : string)
| AuthFailed (provider : string)
| SessionExpired (provider : string)
| SessionRenewalFailed (provider reason : string)
| Http (repr : string)
| JsonError (repr : string)
| Io (repr : string).

(** ** The world a provider runs in

    [w_clock n] is the [n]-th reading of the monotonic clock and [w_rand n]
    the [n]-th draw of the random generator; the counters say how many were
    consumed.  [w_sleeps] is the list of the sleeps requested so far. *)

Record World : Type := mkWorld {
  w_clock : nat -> Z;
  w_ticks : nat;
  w_rand : nat -> Z;
  w_draws : nat;
  w_sleeps : list Z
}.

Definition now (w : World) : Z * World :=
  (w_clock w (w_ticks w), mkWorld (w_clock w) (S (w_ticks w)) (w_rand w) (w_draws w) (w_sleeps w)).

(** [gen_range(0..=hi)]: the draw reduced into the closed interval. *)
Definition gen_range (hi : Z) (w : World) : Z * World :=
  (w_rand w (w_draws w) mod (hi + 1),
   mkWorld (w_clock w) (w_ticks w) (w_rand w) (S (w_draws w)) (w_sleeps w)).

Definition sleep (d : Z) (w : World) : World :=
  mkWorld (w_clock w) (w_ticks w) (w_rand w) (w_draws w) (w_sleeps w ++ [d]).

(** ** The provider trait

    An object behind [Arc<dyn LlmProvider>] is a state of type [P]; a method
    with interior mutability returns the new state.  The methods with a
    default body in the trait are the definitions after the class. *)

Class LlmProvider (P : Type) `{Decimal} := {
  model_name : P -> string;
  cost_per_token : P -> dec * dec;
  complete : CompletionRequest -> P -> World ->
             Result LlmError CompletionResponse * P * World;
  complete_with_tools : ToolCompletionRequest -> P -> World ->
             Result LlmError ToolCompletionResponse * P * World;
  list_models : P -> World -> Result LlmError (list string) * P * World;
  model_metadata : P -> World -> Result LlmError ModelMetadata * P * World;
  effective_model_name : option string -> P -> string * P;
  active_model_name : P -> string;
  set_model : string -> P -> Result LlmError unit * P;
  calculate_cost : Z -> Z -> P -> dec;
  cache_write_multiplier : P -> dec;
  cache_read_discount : P -> dec
}.

Definition default_model_metadata (nm : string) : Result LlmError ModelMetadata :=
  Ok (mkMetadata nm None).

Definition default_effective_model_name (requested : option string) (active : string) : string :=
  default active requested.

Definition default_set_model : Result LlmError unit :=
  Err (RequestFailed "unknown" "Runtime model switching not supported by this provider").

Definition default_calculate_cost `{Decimal} (rates : dec * dec) (i o : Z) : dec :=
  dec_add (dec_mul rates.1 (dec_of_Z i)) (dec_mul rates.2 (dec_of_Z o)).

(** ** Tool-call identifiers *)

Definition base62_digit (digit : Z) : ascii :=
  ascii_of_N (Z.to_N
    (if digit <=? 9 then 48 + digit
     else if digit <=? 35 then 97 + (digit - 10)
     else 65 + (digit - 36))).

(** The loop over the buffer in reverse: the last byte takes the lowest digit. *)
Fixpoint base62 (n : nat) (val : Z) (acc : string) : string :=
  match n with
  | O => acc
  | S n => base62 n (val / 62) (String (base62_digit (val mod 62)) acc)
  end.

Definition generate_tool_call_id (seed_a seed_b : Z) : string :=
  let combined := wrap64 (wrap64 (seed_a * 6364136223846793005) + seed_b) in
  base62 9 combined "".

(** ** Message sanitation *)

Definition msg_call_ids (m : ChatMessage) : list string :=
  match role m, tool_calls m with
  | Assistant, Some calls => tc_id <$> calls
  | _, _ => []
  end.

Definition known_ids (ms : list ChatMessage) : gset string :=
  list_to_set (ms ≫= msg_call_ids).

Definition is_orphaned (known : gset string) (m : ChatMessage) : bool :=
  match tool_call_id m with
  | Some id => bool_decide (id ∉ known)
  | None => true
  end.

Definition rewrite_orphan (m : ChatMessage) : ChatMessage :=
  mkMessage User
    ("[Tool `" +:+ default "unknown" (name m) +:+ "` returned: " +:+ content m +:+ "]")
    (content_parts m) None None (tool_calls m).

Definition sanitize_message (known : gset string) (m : ChatMessage) : ChatMessage :=
  if decide (role m = Tool) then
    if is_orphaned known m then rewrite_orphan m else m
  else m.

Definition sanitize_tool_messages (ms : list ChatMessage) : list ChatMessage :=
  sanitize_message (known_ids ms) <$> ms.

(** ** Unsupported parameters *)

Inductive UnsupportedParam : Type := Temperature | MaxTokens | StopSequences.

Definition unsupported_name (p : UnsupportedParam) : string :=
  match p with
  | Temperature => "temperature"
  | MaxTokens => "max_tokens"
  | StopSequences => "stop_sequences"
  end.

Definition strip_unsupported_completion_params (unsupported : gset string)
    (req : CompletionRequest) : CompletionRequest :=
  if decide (unsupported = ∅) then req else
  mkRequest (rq_messages req) (rq_model req)
    (if decide (unsupported_name MaxTokens ∈ unsupported) then None else rq_max_tokens req)
    (if decide (unsupported_name Temperature ∈ unsupported) then None else rq_temperature req)
    (if decide (unsupported_name StopSequences ∈ unsupported) then None else rq_stop_sequences req)
    (rq_metadata req).

Definition strip_unsupported_tool_params (unsupported : gset string)
    (req : ToolCompletionRequest) : ToolCompletionRequest :=
  if decide (unsupported = ∅) then req else
  mkToolRequest (trq_messages req) (trq_tools req) (trq_model req)
    (if decide (unsupported_name MaxTokens ∈ unsupported) then None else trq_max_tokens req)
    (if decide (unsupported_name Temperature ∈ unsupported) then None else trq_temperature req)
    (if decide (unsupported_name StopSequences ∈ unsupported) then None else trq_stop_sequences req)
    (trq_tool_choice req) (trq_metadata req).

(** ** Preview truncation *)

(** A byte that starts a code point: not of the form [10xxxxxx]. *)
Definition starts_char (b : ascii) : bool :=
  let n := Z.of_N (N_of_ascii b) in (n <? 128) || (192 <=? n).

(** The first [n] characters: bytes up to the one that starts the next. *)
Fixpoint take_chars (n : nat) (s : string) : string :=
  match s with
  | EmptyString => ""
  | String c r =>
      if starts_char c then match n with O => "" | S n => String c (take_chars n r) end
      else String c (take_chars n r)
  end.

Fixpoint count_chars (s : string) : nat :=
  match s with EmptyString => 0%nat | String c r => ((if starts_char c then 1 else 0) + count_chars r)%nat end.

Definition is_char_boundary (s : string) (i : nat) : bool :=
  if decide (i = 0%nat) then true
  else match String.get i s with
       | Some b => starts_char b
       | None => bool_decide (i = String.length s)
       end.

(** [while end > 0 && !s.is_char_boundary(end) { end -= 1; }] *)
Fixpoint char_floor (s : string) (e : nat) : nat :=
  match e with
  | O => O
  | S e' => if is_char_boundary s e then e else char_floor s e'
  end.

Definition truncate_preview (s : string) (max_bytes : nat) : string :=
  if decide (String.length s <= max_bytes)%nat then s
  else
    let e := char_floor s max_bytes in
    let result := String.substring 0 e s +:+ "..." in
    if String.prefix "<tool_output" s && negb (ends_with "</tool_output>" result)
    then result +:+ String (ascii_of_nat 10) "</tool_output>"
    else result.

(** ** Lemmas on identifiers *)

Definition is_alphanumeric (c : ascii) : bool :=
  let n := Z.of_N (N_of_ascii c) in
  ((48 <=? n) && (n <=? 57)) || ((97 <=? n) && (n <=? 122)) || ((65 <=? n) && (n <=? 90)).

(** The inverse of [base62_digit]. *)
Definition digit_value (c : ascii) : Z :=
  let n := Z.of_N (N_of_ascii c) in
  if n <=? 57 then n - 48 else if 97 <=? n then n - 97 + 10 else n - 65 + 36.

Definition digits62 : list Z := seqZ 0 62.

Lemma digit_cases d (P : Z -> Prop) :
  Forall P digits62 → 0 ≤ d < 62 → P d.
Proof. intros HP Hd. rewrite Forall_forall in HP. apply HP. apply elem_of_seqZ. lia. Qed.

Lemma base62_digit_alnum d : 0 ≤ d < 62 → is_alphanumeric (base62_digit d) = true.
Proof.
  apply (digit_cases d (fun d => is_alphanumeric (base62_digit d) = true)).
  repeat (apply Forall_cons; split; [vm_compute; reflexivity|]). apply Forall_nil. done.
Qed.

Lemma digit_value_base62 d : 0 ≤ d < 62 → digit_value (base62_digit d) = d.
Proof.
  apply (digit_cases d (fun d => digit_value (base62_digit d) = d)).
  repeat (apply Forall_cons; split; [vm_compute; reflexivity|]). apply Forall_nil. done.
Qed.

Lemma base62_length n v acc :
  String.length (base62 n v acc) = (n + String.length acc)%nat.
Proof.
  revert v acc. induction n as [|n IH]; intros; [done|]. simpl. rewrite IH. simpl. lia.
Qed.

Lemma base62_alnum n v acc :
  string_forallb is_alphanumeric acc = true →
  string_forallb is_alphanumeric (base62 n v acc) = true.
Proof.
  revert v acc. induction n as [|n IH]; intros v acc Hacc; [done|]. simpl. apply IH.
  simpl. rewrite Hacc, base62_digit_alnum; [done|]. apply Z.mod_pos_bound. lia.
Qed.

Lemma base62_inj_acc n v v' acc acc' :
  base62 n v acc = base62 n v' acc' → acc = acc' ∧ v mod 62 ^ Z.of_nat n = v' mod 62 ^ Z.of_nat n.
Proof.
  revert v v' acc acc'. induction n as [|n IH]; intros v v' acc acc' Heq.
  { split; [exact Heq|]. by rewrite !Z.mod_1_r. }
  destruct (IH _ _ _ _ Heq) as [Hacc Hdiv]. injection Hacc as Hd ->. split; [done|].
  apply (f_equal digit_value) in Hd.
  rewrite !digit_value_base62 in Hd by (apply Z.mod_pos_bound; lia).
  rewrite Nat2Z.inj_succ, Z.pow_succ_r by lia.
  rewrite !Z.rem_mul_r by lia. congruence.
Qed.

(** ** Lemmas on sanitation *)

Lemma msg_call_ids_assistant c tcs :
  msg_call_ids (assistant_with_tool_calls c tcs) = tc_id <$> tcs.
Proof. by destruct tcs. Qed.

Lemma sanitize_message_keeps_calls known m :
  msg_call_ids (sanitize_message known m) = msg_call_ids m.
Proof.
  unfold sanitize_message, msg_call_ids. case_decide as Hr; [|done].
  destruct (is_orphaned known m); rewrite ?Hr; done.
Qed.

Lemma known_ids_sanitize known ms :
  known_ids (sanitize_message known <$> ms) = known_ids ms.
Proof.
  unfold known_ids. f_equal. induction ms as [|m ms IH]; [done|].
  cbn [fmap list_fmap mbind list_bind]. f_equal; [apply sanitize_message_keeps_calls|apply IH].
Qed.

(** The protocol condition on one message: a tool result names a known call. *)
Definition well_referenced (known : gset string) (m : ChatMessage) : Prop :=
  role m = Tool → ∃ id, tool_call_id m = Some id ∧ id ∈ known.

Lemma is_orphaned_false known m :
  is_orphaned known m = false ↔ ∃ id, tool_call_id m = Some id ∧ id ∈ known.
Proof.
  unfold is_orphaned. destruct (tool_call_id m) as [id|].
  - rewrite bool_decide_eq_false. split; [|naive_solver].
    intros Hn. exists id. split; [done|]. by destruct (decide (id ∈ known)).
  - naive_solver.
Qed.

Lemma sanitize_message_id known m :
  well_referenced known m → sanitize_message known m = m.
Proof.
  unfold well_referenced, sanitize_message. intros Hw. case_decide as Hr; [|done].
  by rewrite (proj2 (is_orphaned_false known m) (Hw Hr)).
Qed.

Lemma sanitize_message_ok known m : well_referenced known (sanitize_message known m).
Proof.
  unfold well_referenced, sanitize_message. case_decide as Hr; [|done].
  destruct (is_orphaned known m) eqn:Ho; [done|].
  intros _. by apply is_orphaned_false.
Qed.

Lemma sanitize_id ms :
  Forall (well_referenced (known_ids ms)) ms → sanitize_tool_messages ms = ms.
Proof.
  intros Hf. unfold sanitize_tool_messages.
  rewrite <-(list_fmap_id ms) at 3. apply list_fmap_ext. intros i m Hm. simpl.
  apply sanitize_message_id. by eapply Forall_lookup_1.
Qed.

(** ** Lemmas on previews *)

Lemma char_floor_le s e : (char_floor s e <= e)%nat.
Proof. induction e as [|e IH]; [done|]. cbn [char_floor]. case_match; lia. Qed.

Lemma char_floor_boundary s e : is_char_boundary s (char_floor s e) = true.
Proof. induction e as [|e IH]; [done|]. cbn [char_floor]. by case_match. Qed.

Lemma truncate_preview_short s n :
  (String.length s <= n)%nat → truncate_preview s n = s.
Proof. intros. unfold truncate_preview. by rewrite decide_True. Qed.

(** The truncating branch. *)
Lemma truncate_preview_long s n :
  (n < String.length s)%nat →
  ∃ e tail, (e <= n)%nat ∧ is_char_boundary s e = true ∧
    truncate_preview s n = String.substring 0 e s +:+ "..." +:+ tail ∧
    (tail = "" ∨ tail = String (ascii_of_nat 10) "</tool_output>") ∧
    (String.prefix "<tool_output" s = true →
     ends_with "</tool_output>" (String.substring 0 e s +:+ "..." +:+ tail) = true).
Proof.
  intros Hlen. unfold truncate_preview. rewrite decide_False by lia.
  exists (char_floor s n). set (kept := String.substring 0 (char_floor s n) s).
  destruct (String.prefix "<tool_output" s && negb (ends_with "</tool_output>" (kept +:+ "...")))
    eqn:Hb.
  - exists (String (ascii_of_nat 10) "</tool_output>").
    split_and!; [apply char_floor_le|apply char_floor_boundary|apply append_assoc|by right|].
    intros _. change (String (ascii_of_nat 10) "</tool_output>")
      with (String (ascii_of_nat 10) "" +:+ "</tool_output>").
    rewrite <-!append_assoc. apply ends_with_append.
  - exists "". split_and!; [apply char_floor_le|apply char_floor_boundary|done|by left|].
    intros Hp. rewrite Hp in Hb. by apply negb_false_iff in Hb.
Qed.

(** ** Theorems *)

(** After [sanitize_tool_messages] every tool result names a call made by
    an assistant message of the list, the calls are the ones of the input, a
    second pass changes nothing, and a message that was already consistent is
    untouched. *)
Theorem sanitize_sound ms :
  let out := sanitize_tool_messages ms in
  Forall (well_referenced (known_ids out)) out ∧
  known_ids out = known_ids ms ∧ length out = length ms ∧
  sanitize_tool_messages out = out ∧
  ∀ i m, ms !! i = Some m → well_referenced (known_ids ms) m → out !! i = Some m.
Proof.
  intros out. assert (Hk : known_ids out = known_ids ms) by apply known_ids_sanitize.
  assert (Hf : Forall (well_referenced (known_ids out)) out).
  { rewrite Hk. apply Forall_fmap, Forall_true. intros m. apply sanitize_message_ok. }
  repeat split; [done|done|apply length_fmap|by apply sanitize_id|].
  intros i m Hm Hw. unfold out, sanitize_tool_messages.
  rewrite list_lookup_fmap, Hm. simpl. by rewrite sanitize_message_id.
Qed.

(** A tool-call identifier has exactly nine characters, all alphanumeric,
    whatever the seeds. *)
Theorem tool_call_id_format a b :
  String.length (generate_tool_call_id a b) = 9%nat ∧
  string_forallb is_alphanumeric (generate_tool_call_id a b) = true.
Proof. split; [apply base62_length | by apply base62_alnum]. Qed.

(** Within one turn the identifiers of distinct tool calls are distinct,
    for up to 2^32 calls, whatever the turn index. *)
Theorem tool_call_id_injective a b b' :
  in_u32 b → in_u32 b' →
  generate_tool_call_id a b = generate_tool_call_id a b' → b = b'.
Proof.
  intros Hb Hb' [_ Heq]%base62_inj_acc. unfold in_u32 in *.
  set (k := wrap64 (a * 6364136223846793005)) in *.
  assert (Hk : 0 ≤ k < 2 ^ 64) by (apply Z.mod_pos_bound; lia).
  unfold wrap64 in Heq. change (62 ^ Z.of_nat 9) with 13537086546263552 in Heq.
  change (2 ^ 64) with 18446744073709551616 in *. change (2 ^ 32) with 4294967296 in *.
  Z.to_euclidean_division_equations. lia.
Qed.

(** [truncate_preview] keeps a string that fits; otherwise the result is a
    prefix of it, cut at a char boundary at most [max_bytes] bytes in, followed
    by the ellipsis; a truncated [<tool_output] block always ends with its
    closing tag; and the result is at most 18 bytes over the limit. *)
Theorem truncate_preview_spec s n :
  let r := truncate_preview s n in
  ((String.length s <= n)%nat → r = s) ∧
  ((n < String.length s)%nat →
     (∃ e tail, (e <= n)%nat ∧ is_char_boundary s e = true ∧
        r = String.substring 0 e s +:+ "..." +:+ tail ∧
        (tail = "" ∨ tail = String (ascii_of_nat 10) "</tool_output>")) ∧
     (String.prefix "<tool_output" s = true → ends_with "</tool_output>" r = true)) ∧
  (String.length r <= Nat.max (String.length s) n ∨ String.length r <= n + 18)%nat.
Proof.
  intros r. subst r. destruct (decide (String.length s <= n)%nat) as [Hs|Hs].
  { rewrite truncate_preview_short by done. repeat split; [lia|lia|left; lia]. }
  split; [lia|].
  destruct (truncate_preview_long s n ltac:(lia)) as (e & tail & He & Hb & -> & Ht & Hend).
  split; [intros _; split; eauto 10|]. right.
  rewrite !length_append, length_substring by lia. destruct Ht as [-> | ->]; simpl; lia.
Qed.

(** The rewriting looks at the whole list: a tool result that comes before the
    assistant message declaring its call is left in place. *)
Lemma sanitize_keeps_premature_result :
  let call := mkToolCall "id1" "echo" JNull None in
  let ms := [tool_result "id1" "echo" "out"; assistant_with_tool_calls None [call]] in
  sanitize_tool_messages ms = ms.
Proof. vm_compute. reflexivity. Qed.

(** ** Witnesses *)

Lemma tool_call_id_injective_witness :
  in_u32 3 ∧ in_u32 3 ∧ generate_tool_call_id 12 3 = generate_tool_call_id 12 3 ∧ 3 = 3.
Proof.
  assert (Hb : in_u32 3) by (unfold in_u32; lia).
  split_and!; [exact Hb|exact Hb|reflexivity|].
  exact (tool_call_id_injective 12 3 3 Hb Hb eq_refl).
Defined.
