(* ===== verification/JobMemory.v ===== *)
(** * Job memory: [src/context/memory.rs]

    The conversation of a job, trimmed to a number of messages, and the
    numbered record of its actions.  [to_string_pretty] is serde's printer
    (the empty string when it fails). *)

From S2P Require Import Prelude Text Provider.

Section memory.
Context `{Decimal}.

Record ActionRecord : Type := mkAction {
  ar_id : Uuid;
  ar_sequence : Z;
  ar_tool_name : string;
  ar_input : Json;
  ar_output_raw : option string;
  ar_output_sanitized : option Json;
  ar_sanitization_warnings : list string;
  ar_cost : option dec;
  ar_duration : Z;
  ar_success : bool;
  ar_error : option string;
  ar_executed_at : Z
}.

Definition action_new (id : Uuid) (now : Z) (sequence : Z) (tool_name : string) (input : Json)
    : ActionRecord :=
  mkAction id sequence tool_name input None None [] None 0 false None now.

Definition succeed (to_string_pretty : Json -> string) (output_sanitized : option string)
    (output_raw : Json) (duration : Z) (a : ActionRecord) : ActionRecord :=
  mkAction (ar_id a) (ar_sequence a) (ar_tool_name a) (ar_input a)
    (Some (to_string_pretty output_raw)) (JString <$> output_sanitized)
    (ar_sanitization_warnings a) (ar_cost a) duration true (ar_error a) (ar_executed_at a).

Definition fail (error : string) (duration : Z) (a : ActionRecord) : ActionRecord :=
  mkAction (ar_id a) (ar_sequence a) (ar_tool_name a) (ar_input a) (ar_output_raw a)
    (ar_output_sanitized a) (ar_sanitization_warnings a) (ar_cost a) duration false (Some error)
    (ar_executed_at a).

Definition with_warnings (warnings : list string) (a : ActionRecord) : ActionRecord :=
  mkAction (ar_id a) (ar_sequence a) (ar_tool_name a) (ar_input a) (ar_output_raw a)
    (ar_output_sanitized a) warnings (ar_cost a) (ar_duration a) (ar_success a) (ar_error a)
    (ar_executed_at a).

Definition with_cost (cost : dec) (a : ActionRecord) : ActionRecord :=
  mkAction (ar_id a) (ar_sequence a) (ar_tool_name a) (ar_input a) (ar_output_raw a)
    (ar_output_sanitized a) (ar_sanitization_warnings a) (Some cost) (ar_duration a) (ar_success a)
    (ar_error a) (ar_executed_at a).

(** ** The conversation *)

Record ConversationMemory : Type := mkConversation {
  cm_messages : list ChatMessage;
  cm_max_messages : nat
}.

Definition conversation_new (max_messages : nat) : ConversationMemory := mkConversation [] max_messages.

(** The trimming loop; each round removes a message or stops, so the length is
    enough fuel. *)
Fixpoint trim_loop (fuel : nat) (max : nat) (l : list ChatMessage) : list ChatMessage :=
  match fuel with
  | O => l
  | S fuel' =>
      if decide (max < length l) then
        match l with
        | m :: rest =>
            if bool_decide (role m = System) then
              match rest with
              | _ :: rest' => trim_loop fuel' max (m :: rest')
              | [] => l
              end
            else trim_loop fuel' max rest
        | [] => l
        end
      else l
  end.

Definition add (message : ChatMessage) (c : ConversationMemory) : ConversationMemory :=
  let l := cm_messages c ++ [message] in
  mkConversation (trim_loop (length l) (cm_max_messages c) l) (cm_max_messages c).

Definition last_n (n : nat) (c : ConversationMemory) : list ChatMessage :=
  drop (length (cm_messages c) - n) (cm_messages c).

Definition conversation_clear (c : ConversationMemory) : ConversationMemory :=
  mkConversation [] (cm_max_messages c).

Definition conversation_len (c : ConversationMemory) : nat := length (cm_messages c).
Definition conversation_is_empty (c : ConversationMemory) : bool := bool_decide (cm_messages c = []).

(** ** The memory of a job *)

Record Memory : Type := mkMemory {
  mem_job_id : Uuid;
  conversation : ConversationMemory;
  actions : list ActionRecord;
  next_sequence : Z
}.

Definition memory_new (job_id : Uuid) : Memory := mkMemory job_id (conversation_new 100) [] 0.

Definition add_message (message : ChatMessage) (m : Memory) : Memory :=
  mkMemory (mem_job_id m) (add message (conversation m)) (actions m) (next_sequence m).

Definition create_action (id : Uuid) (now : Z) (tool_name : string) (input : Json) (m : Memory)
    : ActionRecord * Memory :=
  let seq := next_sequence m in
  (action_new id now seq tool_name input,
   mkMemory (mem_job_id m) (conversation m) (actions m) (wrap32 (seq + 1))).

Definition record_action (action : ActionRecord) (m : Memory) : Memory :=
  mkMemory (mem_job_id m) (conversation m) (actions m ++ [action]) (next_sequence m).

Definition total_cost (m : Memory) : dec :=
  foldl (fun acc a => match ar_cost a with Some c => dec_add acc c | None => acc end)
    dec_zero (actions m).

Definition total_duration (m : Memory) : Z := foldl (fun acc a => acc + ar_duration a)%Z 0%Z (actions m).

Definition successful_actions (m : Memory) : nat :=
  length (base.filter (fun a => ar_success a = true) (actions m)).

Definition failed_actions (m : Memory) : nat :=
  length (base.filter (fun a => ar_success a = false) (actions m)).

Definition last_action (m : Memory) : option ActionRecord := last (actions m).

Definition actions_by_tool (tool_name : string) (m : Memory) : list ActionRecord :=
  base.filter (fun a => ar_tool_name a = tool_name) (actions m).

(** ** Lemmas *)

Lemma trim_loop_S fuel max l : trim_loop (S fuel) max l =
  if decide (max < length l) then
    match l with
    | m :: rest =>
        if bool_decide (role m = System) then
          match rest with _ :: rest' => trim_loop fuel max (m :: rest') | [] => l end
        else trim_loop fuel max rest
    | [] => l
    end
  else l.
Proof. done. Qed.

Lemma trim_loop_length fuel max l : length l ≤ fuel → length (trim_loop fuel max l) ≤ Nat.max 1 max.
Proof.
  revert l. induction fuel as [|fuel IH]; intros l Hl; [simpl; lia|]. rewrite trim_loop_S.
  case_decide; [|lia]. destruct l as [|m rest]; [simpl; lia|]. case_bool_decide.
  - destruct rest as [|x rest]; [simpl; lia|]. apply IH. simpl in *. lia.
  - apply IH. simpl in *. lia.
Qed.

Lemma trim_loop_sublist fuel max l : trim_loop fuel max l `sublist_of` l.
Proof.
  revert l. induction fuel as [|fuel IH]; intros l; [done|]. rewrite trim_loop_S.
  case_decide; [|done]. destruct l as [|m rest]; [done|]. case_bool_decide.
  - destruct rest as [|x rest]; [done|]. etrans; [apply IH|]. by apply sublist_skip, sublist_cons.
  - etrans; [apply IH|]. by apply sublist_cons.
Qed.

Lemma trim_loop_system fuel max m rest : role m = System →
  head (trim_loop fuel max (m :: rest)) = Some m.
Proof.
  intros Hs. revert rest. induction fuel as [|fuel IH]; intros rest; [done|]. rewrite trim_loop_S.
  case_decide; [|done]. rewrite bool_decide_true by done. destruct rest; [done|]. apply IH.
Qed.

Lemma trim_loop_last fuel max l x : 2 ≤ max → last (trim_loop fuel max (l ++ [x])) = Some x.
Proof.
  intros Hm. revert l. induction fuel as [|fuel IH]; intros l; [apply last_snoc|]. rewrite trim_loop_S.
  case_decide as Hd; [|apply last_snoc]. rewrite length_app in Hd. simpl in Hd.
  destruct l as [|m [|y l]]; simpl in Hd; [lia|lia|]. simpl. case_bool_decide.
  - apply (IH (m :: l)).
  - apply (IH (y :: l)).
Qed.

Lemma trim_loop_id fuel max l : length l ≤ max → trim_loop fuel max l = l.
Proof. destruct fuel; [done|]. intros. rewrite trim_loop_S. by rewrite decide_False by lia. Qed.

(** ** Theorems *)

(** A conversation stays within its limit and keeps what matters: after a
    message is added the conversation holds at most [max_messages] messages
    (one, when the limit is below one and it starts with a system message),
    all of them in their order, a leading system message is never dropped,
    the newest message is kept when the limit allows two, and below the limit
    nothing is dropped. *)
Theorem conversation_trimmed message c :
  let l := cm_messages c ++ [message] in
  let l' := cm_messages (add message c) in
  length l' ≤ Nat.max 1 (cm_max_messages c) ∧
  l' `sublist_of` l ∧
  (∀ s, head l = Some s → role s = System → head l' = Some s) ∧
  (2 ≤ cm_max_messages c → last l' = Some message) ∧
  (length l ≤ cm_max_messages c → l' = l).
Proof.
  intros l l'. unfold l', add. cbn [cm_messages]. fold l. split_and!.
  - by apply trim_loop_length.
  - apply trim_loop_sublist.
  - intros s Hs Hr. destruct l as [|x rest]; [done|]. simpl in Hs. inv Hs. by apply trim_loop_system.
  - intros Hm. by apply trim_loop_last.
  - apply trim_loop_id.
Qed.
End memory.

(** Only a leading system message is kept: one added later is dropped as soon
    as it is the oldest after the head. *)
Lemma later_system_message_dropped :
  let c := mkConversation [system "a"; system "b"] 2 in
  cm_messages (add (user "hi") c) = [system "a"; user "hi"].
Proof. vm_compute. reflexivity. Qed.
