(* ===== verification/ContextManager.v ===== *)
(** * The context manager: [src/context/manager.rs]

    The contexts and the memories of all jobs behind two locks.  An operation
    that takes both locks takes them one after the other: its critical
    sections are definitions of their own, and [manager_step] interleaves the
    sections of concurrent operations. *)

From S2P Require Import Prelude Text Provider JobState JobMemory.

Section manager.
Context `{Decimal}.

Record ContextManager : Type := mkManager {
  contexts : gmap Uuid JobContext;
  memories : gmap Uuid Memory;
  max_jobs : nat
}.

Definition manager_new (max_jobs : nat) : ContextManager := mkManager ∅ ∅ max_jobs.
Definition manager_default : ContextManager := manager_new 10.

Definition set_contexts (cs : gmap Uuid JobContext) (cm : ContextManager) : ContextManager :=
  mkManager cs (memories cm) (max_jobs cm).

Definition set_memories (ms : gmap Uuid Memory) (cm : ContextManager) : ContextManager :=
  mkManager (contexts cm) ms (max_jobs cm).

(** The jobs that occupy a slot. *)
Definition parallel_count (cs : gmap Uuid JobContext) : nat :=
  size (base.filter (fun ic => is_parallel_blocking (state ic.2) = true) cs).

(** First section of [insert_context]: the check and the insertion. *)
Definition insert_section (context : JobContext) (cm : ContextManager)
    : Result JobError ContextManager :=
  if decide (max_jobs cm ≤ parallel_count (contexts cm))
  then Err (MaxJobsExceeded (max_jobs cm))
  else Ok (set_contexts (<[job_id context := context]> (contexts cm)) cm).

(** Second section: a fresh memory. *)
Definition alloc_memory_section (id : Uuid) (cm : ContextManager) : ContextManager :=
  set_memories (<[id := memory_new id]> (memories cm)) cm.

Definition insert_context (context : JobContext) (cm : ContextManager)
    : Result JobError unit * ContextManager :=
  match insert_section context cm with
  | Err e => (Err e, cm)
  | Ok cm1 => (Ok tt, alloc_memory_section (job_id context) cm1)
  end.

(** [id], [now] and [stash] are what [JobContext::with_user] draws. *)
Definition create_job_for_user (id : Uuid) (now : Z) (stash : N)
    (user title description : string) (cm : ContextManager) : Result JobError Uuid * ContextManager :=
  let context := with_user id now stash user title description in
  match insert_context context cm with
  | (Ok _, cm') => (Ok (job_id context), cm')
  | (Err e, cm') => (Err e, cm')
  end.

Definition create_job (id : Uuid) (now : Z) (stash : N) (title description : string)
    (cm : ContextManager) : Result JobError Uuid * ContextManager :=
  create_job_for_user id now stash "default" title description cm.

(** The context of a sandbox job: the given identifier, in progress at once. *)
Definition sandbox_context (id : Uuid) (now started : Z) (stash : N)
    (user title description : string) : JobContext :=
  let c := with_user id now stash user title description in
  with_fields c InProgress (actual_cost c) (total_tokens_used c) (Some started) (completed_at c)
    (repair_attempts c) (transitions c).

Definition register_sandbox_job (id : Uuid) (now started : Z) (stash : N)
    (user title description : string) (cm : ContextManager) : Result JobError unit * ContextManager :=
  insert_context (sandbox_context id now started stash user title description) cm.

Definition get_context (id : Uuid) (cm : ContextManager) : Result JobError JobContext :=
  ok_or (contexts cm !! id) (NotFound id).

(** [f] returns the new context with its result. *)
Definition update_context {R} (id : Uuid) (f : JobContext -> R * JobContext) (cm : ContextManager)
    : Result JobError R * ContextManager :=
  match contexts cm !! id with
  | None => (Err (NotFound id), cm)
  | Some c => let '(r, c') := f c in (Ok r, set_contexts (<[id := c']> (contexts cm)) cm)
  end.

Definition update_context_and_get (id : Uuid) (f : JobContext -> JobContext) (cm : ContextManager)
    : Result JobError JobContext * ContextManager :=
  match contexts cm !! id with
  | None => (Err (NotFound id), cm)
  | Some c => (Ok (f c), set_contexts (<[id := f c]> (contexts cm)) cm)
  end.

Definition get_memory (id : Uuid) (cm : ContextManager) : Result JobError Memory :=
  ok_or (memories cm !! id) (NotFound id).

Definition update_memory {R} (id : Uuid) (f : Memory -> R * Memory) (cm : ContextManager)
    : Result JobError R * ContextManager :=
  match memories cm !! id with
  | None => (Err (NotFound id), cm)
  | Some m => let '(r, m') := f m in (Ok r, set_memories (<[id := m']> (memories cm)) cm)
  end.

(** The identifiers of the jobs that satisfy [p], in some order. *)
Definition jobs_where (p : JobContext -> bool) (cm : ContextManager) : list Uuid :=
  fst <$> map_to_list (base.filter (fun ic => p ic.2 = true) (contexts cm)).

Definition active_jobs : ContextManager -> list Uuid := jobs_where (fun c => is_active (state c)).
Definition all_jobs : ContextManager -> list Uuid := jobs_where (fun _ => true).
Definition active_jobs_for (user : string) : ContextManager -> list Uuid :=
  jobs_where (fun c => bool_decide (user_id c = user) && is_active (state c)).
Definition all_jobs_for (user : string) : ContextManager -> list Uuid :=
  jobs_where (fun c => bool_decide (user_id c = user)).

Definition parallel_blocking_count_for (user : string) (cm : ContextManager) : nat :=
  length (jobs_where (fun c => bool_decide (user_id c = user) && is_parallel_blocking (state c)) cm).
Definition active_count (cm : ContextManager) : nat := length (active_jobs cm).

(** The two sections of [remove_job]. *)
Definition remove_context_section (id : Uuid) (cm : ContextManager)
    : Result JobError JobContext * ContextManager :=
  (ok_or (contexts cm !! id) (NotFound id), set_contexts (delete id (contexts cm)) cm).

Definition remove_memory_section (id : Uuid) (cm : ContextManager)
    : Result JobError Memory * ContextManager :=
  (ok_or (memories cm !! id) (NotFound id), set_memories (delete id (memories cm)) cm).

Definition remove_job (id : Uuid) (cm : ContextManager)
    : Result JobError (JobContext * Memory) * ContextManager :=
  match remove_context_section id cm with
  | (Err e, cm1) => (Err e, cm1)
  | (Ok context, cm1) =>
      match remove_memory_section id cm1 with
      | (Err e, cm2) => (Err e, cm2)
      | (Ok memory, cm2) => (Ok (context, memory), cm2)
      end
  end.

(** The filter of [find_stuck_jobs_with_threshold]; times are nanoseconds. *)
Definition looks_stuck (now : Z) (elapsed_threshold : option Z) (c : JobContext) : bool :=
  match state c, elapsed_threshold, started_at c with
  | Stuck, _, _ => true
  | InProgress, Some threshold, Some started =>
      (threshold / secs 1 <? Z.max (Z.quot (now - started) (secs 1)) 0)%Z
  | _, _, _ => false
  end.

Definition find_stuck_jobs_with_threshold (now : Z) (elapsed_threshold : option Z)
    : ContextManager -> list Uuid := jobs_where (looks_stuck now elapsed_threshold).

Definition find_stuck_jobs (now : Z) : ContextManager -> list Uuid :=
  find_stuck_jobs_with_threshold now None.

Record ContextSummary : Type := mkSummary {
  s_total : nat; s_pending : nat; s_in_progress : nat; s_completed : nat; s_submitted : nat;
  s_accepted : nat; s_failed : nat; s_stuck : nat; s_cancelled : nat
}.

Definition summary_default : ContextSummary := mkSummary 0 0 0 0 0 0 0 0 0.

(** One round of the counting loop. *)
Definition count_context (s : ContextSummary) (c : JobContext) : ContextSummary :=
  let 'mkSummary t p ip co su ac fa st ca := s in
  match state c with
  | Pending => mkSummary t (S p) ip co su ac fa st ca
  | InProgress => mkSummary t p (S ip) co su ac fa st ca
  | Completed => mkSummary t p ip (S co) su ac fa st ca
  | Submitted => mkSummary t p ip co (S su) ac fa st ca
  | Accepted => mkSummary t p ip co su (S ac) fa st ca
  | Failed => mkSummary t p ip co su ac (S fa) st ca
  | Stuck => mkSummary t p ip co su ac fa (S st) ca
  | Cancelled => mkSummary t p ip co su ac fa st (S ca)
  end.

Definition count_states (l : list JobContext) : ContextSummary :=
  foldl count_context summary_default l.

Definition state_sum (s : ContextSummary) : nat :=
  s_pending s + s_in_progress s + s_completed s + s_submitted s + s_accepted s + s_failed s
  + s_stuck s + s_cancelled s.

Definition set_total (n : nat) (s : ContextSummary) : ContextSummary :=
  let 'mkSummary _ p ip co su ac fa st ca := s in mkSummary n p ip co su ac fa st ca.

Definition summary (cm : ContextManager) : ContextSummary :=
  set_total (size (contexts cm)) (count_states (snd <$> map_to_list (contexts cm))).

Definition summary_for (user : string) (cm : ContextManager) : ContextSummary :=
  let s := count_states (base.filter (fun c => user_id c = user) (snd <$> map_to_list (contexts cm))) in
  set_total (state_sum s) s.

(** ** Interleavings *)

(** The second sections that running operations still have to execute. *)
Inductive Pending2 : Type := PutMemory (id : Uuid) | DropMemory (id : Uuid).

(** A context as the two creating operations build it. *)
Inductive created : JobContext → Prop :=
| created_user id now stash u t d : created (with_user id now stash u t d)
| created_sandbox id now started stash u t d : created (sandbox_context id now started stash u t d).

Inductive manager_step : ContextManager * list Pending2 → ContextManager * list Pending2 → Prop :=
| ms_insert c cm cm' ps :
    created c → insert_section c cm = Ok cm' →
    manager_step (cm, ps) (cm', PutMemory (job_id c) :: ps)
| ms_alloc id cm ps ps' :
    manager_step (cm, ps ++ PutMemory id :: ps') (alloc_memory_section id cm, ps ++ ps')
| ms_remove id c cm ps :
    contexts cm !! id = Some c →
    manager_step (cm, ps) ((remove_context_section id cm).2, DropMemory id :: ps)
| ms_drop id cm ps ps' :
    manager_step (cm, ps ++ DropMemory id :: ps') ((remove_memory_section id cm).2, ps ++ ps')
| ms_update id f cm ps :
    (∀ c, contexts cm !! id = Some c → context_step c (f c)) →
    manager_step (cm, ps) ((update_context_and_get id f cm).2, ps)
| ms_memory id f cm ps :
    manager_step (cm, ps) ((update_memory id (fun m => (tt, f m)) cm).2, ps).

(** The slots are within the limit, and every context is sound and stored
    under its own identifier. *)
Definition manager_ok (cm : ContextManager) : Prop :=
  parallel_count (contexts cm) ≤ max_jobs cm ∧
  map_Forall (fun id c => job_id c = id ∧ context_ok c) (contexts cm).

(** ** Lemmas *)

Lemma transition_to_state clk c s r :
  state (transition_to clk c s r).1 = state c ∨
  (state (transition_to clk c s r).1 = s ∧ can_transition_to (state c) s = true).
Proof.
  unfold transition_to. destruct (can_transition_to (state c) s) eqn:Hc; simpl; [|auto].
  case_decide; simpl; auto.
Qed.

Lemma transition_to_id clk c s r : job_id (transition_to clk c s r).1 = job_id c.
Proof. unfold transition_to. destruct (can_transition_to (state c) s); simpl; [|done]. by case_decide. Qed.

Lemma no_return_to_slot s s' : can_transition_to s s' = true →
  is_parallel_blocking s' = true → is_parallel_blocking s = true.
Proof. by destruct s, s'. Qed.

(** No operation on a context takes a slot that the job had given up. *)
Lemma context_step_slot c c' : context_step c c' →
  job_id c' = job_id c ∧
  (is_parallel_blocking (state c') = true → is_parallel_blocking (state c) = true).
Proof.
  assert (Htr : ∀ clk c s r, job_id (transition_to clk c s r).1 = job_id c ∧
    (is_parallel_blocking (state (transition_to clk c s r).1) = true →
     is_parallel_blocking (state c) = true)).
  { intros clk c0 s r. split; [apply transition_to_id|].
    destruct (transition_to_state clk c0 s r) as [->|[-> Ht]]; [done|]. by apply no_return_to_slot. }
  destruct 1; try done; try apply Htr.
  - unfold add_tokens. cbn. by repeat case_match.
  - unfold attempt_recovery. case_decide as Hs; [|done]. split; [by rewrite transition_to_id|].
    by rewrite Hs.
Qed.

Lemma sandbox_context_ok id now started stash u t d : context_ok (sandbox_context id now started stash u t d).
Proof.
  constructor; simpl; unfold in_u64, in_u32; try done; eauto; [lia|intuition done].
Qed.

Lemma created_ok c : created c → context_ok c.
Proof. destruct 1; [apply with_user_ok|apply sandbox_context_ok]. Qed.

Lemma parallel_count_insert id c cs :
  parallel_count (<[id := c]> cs) ≤ S (parallel_count cs).
Proof.
  unfold parallel_count. destruct (decide (is_parallel_blocking (state c) = true)) as [Hb|Hb].
  - rewrite map_filter_insert_True by done. rewrite map_size_insert. case_match; simpl; lia.
  - rewrite map_filter_insert_False by done. rewrite map_filter_delete, map_size_delete.
    case_match; simpl; lia.
Qed.

Lemma parallel_count_delete id cs : parallel_count (delete id cs) ≤ parallel_count cs.
Proof. unfold parallel_count. rewrite map_filter_delete, map_size_delete. case_match; simpl; lia. Qed.

Lemma parallel_count_update id c c' cs : cs !! id = Some c →
  (is_parallel_blocking (state c') = true → is_parallel_blocking (state c) = true) →
  parallel_count (<[id := c']> cs) ≤ parallel_count cs.
Proof.
  intros Hc Hb. unfold parallel_count.
  destruct (decide (is_parallel_blocking (state c') = true)) as [Hb'|Hb'].
  - rewrite map_filter_insert_True by done. rewrite map_size_insert.
    rewrite (map_lookup_filter_Some_2 _ cs id c Hc (Hb Hb')). done.
  - rewrite map_filter_insert_False by done. apply parallel_count_delete.
Qed.

Lemma manager_step_ok x y : manager_step x y → manager_ok x.1 →
  manager_ok y.1 ∧ max_jobs y.1 = max_jobs x.1.
Proof.
  destruct 1 as [c cm cm' ps Hc Hi|id cm ps ps'|id c cm ps Hc|id cm ps ps'|id f cm ps Hf|id f cm ps];
    intros [Hn Hok]; simpl in *.
  - unfold insert_section in Hi. case_decide; [done|]. inv Hi. split; [|done]. split; simpl.
    + pose proof (parallel_count_insert (job_id c) c (contexts cm)). lia.
    + apply map_Forall_insert_2; [|done]. split; [done|by apply created_ok].
  - done.
  - split; [|done]. split; simpl.
    + etrans; [apply parallel_count_delete|done].
    + by apply map_Forall_delete.
  - done.
  - unfold update_context_and_get. destruct (contexts cm !! id) as [c|] eqn:Hc; [|done].
    specialize (Hf c eq_refl). destruct (context_step_slot _ _ Hf) as [Hid Hslot].
    destruct (Hok id c Hc) as [Hidc Hcok]. split; [|done]. split; simpl.
    + etrans; [by eapply parallel_count_update|done].
    + apply map_Forall_insert_2; [|done]. split; [congruence|by eapply context_step_ok].
  - unfold update_memory. destruct (memories cm !! id); done.
Qed.

Lemma count_states_sum l s :
  state_sum (foldl count_context s l) = state_sum s + length l.
Proof.
  revert s. induction l as [|c l IH]; intros s; simpl; [lia|]. rewrite IH.
  destruct s; unfold state_sum; simpl. destruct (state c); simpl; lia.
Qed.

Lemma state_sum_set_total n s : state_sum (set_total n s) = state_sum s ∧ s_total (set_total n s) = n.
Proof. by destruct s. Qed.

Lemma map_to_list_filter (P : Uuid * JobContext -> Prop) `{!∀ x, Decision (P x)} cs :
  map_to_list (base.filter P cs) ≡ₚ base.filter P (map_to_list cs).
Proof.
  apply NoDup_Permutation; [apply NoDup_map_to_list|apply NoDup_filter, NoDup_map_to_list|].
  intros [i c]. rewrite elem_of_map_to_list, map_lookup_filter_Some, list_elem_of_filter,
    elem_of_map_to_list. tauto.
Qed.

Lemma length_user_contexts user cm :
  length (base.filter (fun c => user_id c = user) (snd <$> map_to_list (contexts cm))) =
  length (all_jobs_for user cm).
Proof.
  unfold all_jobs_for, jobs_where. rewrite length_fmap, map_to_list_filter.
  induction (map_to_list (contexts cm)) as [|[i c] l IH]; [done|]. csimpl. rewrite !filter_cons. simpl.
  destruct (decide (user_id c = user)) as [Hu|Hu].
  - rewrite decide_True by (by rewrite bool_decide_true). simpl. by rewrite IH.
  - by rewrite decide_False by (by rewrite bool_decide_false).
Qed.

(** ** Theorems *)

(** C1. Parallel slots are never oversubscribed: under every interleaving of
    the critical sections of job creation, sandbox registration, removal and
    updates through the operations of a context, the jobs that are pending,
    in progress or stuck number at most [max_jobs], and every context stays
    sound and stored under its own identifier. *)
Theorem parallel_slots_capped n cm ps :
  rtc manager_step (manager_new n, []) (cm, ps) →
  parallel_count (contexts cm) ≤ n ∧
  map_Forall (fun id c => job_id c = id ∧ context_ok c) (contexts cm).
Proof.
  intros Hr. enough (manager_ok cm ∧ max_jobs cm = n) as [[Hp Hf] Hm] by (by rewrite Hm in Hp).
  revert Hr. change cm with (cm, ps).1 at 2 3. generalize (cm, ps). intros y Hr.
  apply (rtc_ind_r (fun y => manager_ok y.1 ∧ max_jobs y.1 = n) (manager_new n, [])) in Hr; [done| |].
  - split; [|done]. split; simpl; [unfold parallel_count; rewrite map_filter_empty, map_size_empty; lia|].
    apply map_Forall_empty.
  - intros y1 y2 _ Hs [Hok Hm]. destruct (manager_step_ok _ _ Hs Hok) as [? Hmj]. split; [done|congruence].
Qed.

(** Creation is refused exactly when the slots are taken, and otherwise the
    job can be looked up with an empty memory; removal returns what was
    stored and forgets it; other jobs are untouched by either. *)
Theorem create_then_remove id now stash u t d cm :
  let '(r, cm') := create_job_for_user id now stash u t d cm in
  if decide (max_jobs cm ≤ parallel_count (contexts cm))
  then r = Err (MaxJobsExceeded (max_jobs cm)) ∧ cm' = cm
  else r = Ok id ∧ get_context id cm' = Ok (with_user id now stash u t d) ∧
       get_memory id cm' = Ok (memory_new id) ∧
       (remove_job id cm').1 = Ok (with_user id now stash u t d, memory_new id) ∧
       (contexts cm !! id = None → memories cm !! id = None → (remove_job id cm').2 = cm) ∧
       ∀ id', id' ≠ id → get_context id' cm' = get_context id' cm ∧ get_memory id' cm' = get_memory id' cm.
Proof.
  unfold create_job_for_user, insert_context, insert_section. case_decide; [done|].
  unfold get_context, get_memory, remove_job. simpl. rewrite !lookup_insert_eq. simpl.
  split_and!; try done.
  - intros Hc Hm. unfold set_memories, set_contexts. destruct cm as [cs ms mj]. simpl in *.
    by rewrite !delete_insert_id.
  - intros id' Hne. by rewrite !lookup_insert_ne by done.
Qed.

(** Summaries add up: the per-state counts of the summary of all jobs and of
    the summary of one user sum to their totals, which are the numbers of
    contexts and of the user's contexts. *)
Theorem summaries_add_up user cm :
  state_sum (summary cm) = s_total (summary cm) ∧ s_total (summary cm) = size (contexts cm) ∧
  state_sum (summary_for user cm) = s_total (summary_for user cm) ∧
  s_total (summary_for user cm) = length (all_jobs_for user cm).
Proof.
  unfold summary, summary_for, count_states.
  repeat match goal with |- context [state_sum (set_total ?n ?s)] =>
    destruct (state_sum_set_total n s) as [-> ->] end.
  rewrite !count_states_sum. cbn [state_sum summary_default Nat.add].
  rewrite length_user_contexts. split_and!; try done. by rewrite length_fmap, length_map_to_list.
Qed.
End manager.

(** ** Witnesses *)

Lemma parallel_slots_capped_witness :
  let cm := set_contexts {[1%N := with_user 1 0 0 "u" "t" "d"]} (manager_new 1) in
  parallel_count (contexts cm) ≤ 1.
Proof.
  intros cm. refine (proj1 (parallel_slots_capped 1 cm [PutMemory 1%N] _)).
  apply rtc_once. apply (ms_insert (with_user 1 0 0 "u" "t" "d")).
  - apply created_user.
  - vm_compute. reflexivity.
Defined.

(** A job removed between the two sections of its creation leaves a memory
    without a context. *)
Lemma removal_during_creation_leaks : ∃ cm,
  rtc manager_step (manager_new 1, []) (cm, []) ∧
  contexts cm !! 1%N = None ∧ memories cm !! 1%N = Some (memory_new 1).
Proof.
  exists (mkManager ∅ {[1%N := memory_new 1]} 1). split; [|done].
  eapply rtc_l; [apply (ms_insert (with_user 1 0 0 "u" "t" "d") _
    (set_contexts {[1%N := with_user 1 0 0 "u" "t" "d"]} (manager_new 1)));
    [apply created_user|reflexivity]|].
  eapply rtc_l; [by apply (ms_remove 1%N (with_user 1 0 0 "u" "t" "d"))|].
  eapply rtc_l; [apply (ms_drop 1%N _ [] [PutMemory 1%N])|].
  eapply rtc_l; [apply (ms_alloc 1%N _ [] [])|]. apply rtc_refl.
Qed.
