(* ===== verification/Session.v ===== *)
(** * Sessions, threads and turns: [src/agent/session.rs]

    A session owns threads, a thread owns turns, a turn records the tool calls
    of one request.  [messages] renders a thread for the model and
    [restore_from_messages] rebuilds it from a checkpoint; the theorems relate
    the two, bound the queue of pending messages and show that the rendered
    context respects the tool-call protocol. *)

From S2P Require Import Prelude Provider.

Module TurnState.
Inductive t : Type := Processing | Completed | Failed | Interrupted.
End TurnState.

Module ThreadState.
Inductive t : Type := Idle | Processing | AwaitingApproval | Completed | Interrupted.
#[global] Instance eq_dec : EqDecision t.
Proof. solve_decision. Defined.
End ThreadState.

Record TurnToolCall : Type := mkTurnToolCall {
  ttc_name : string;
  ttc_parameters : Json;
  ttc_result : option Json;
  ttc_error : option string;
  ttc_rationale : option string;
  ttc_tool_call_id : option string
}.

Record Turn : Type := mkTurn {
  turn_number : nat;
  user_input : string;
  response : option string;
  turn_tool_calls : list TurnToolCall;
  turn_state : TurnState.t;
  turn_started_at : Z;
  turn_completed_at : option Z;
  turn_error : option string;
  narrative : option string;
  image_content_parts : list ContentPart
}.

Record PendingAuth : Type := mkPendingAuth {
  extension_name : string;
  auth_created_at : Z
}.

Record PendingApproval : Type := mkPendingApproval {
  request_id : Uuid;
  pa_tool_name : string;
  pa_parameters : Json;
  display_parameters : Json;
  pa_description : string;
  pa_tool_call_id : string;
  context_messages : list ChatMessage;
  deferred_tool_calls : list ToolCall;
  pa_user_timezone : option string;
  allow_always : bool
}.

Record Thread : Type := mkThread {
  thread_id : Uuid;
  session_id : Uuid;
  thread_state : ThreadState.t;
  turns : list Turn;
  thread_created_at : Z;
  updated_at : Z;
  thread_metadata : Json;
  pending_approval : option PendingApproval;
  pending_auth : option PendingAuth;
  pending_messages : list string
}.

Record Session : Type := mkSession {
  sess_id : Uuid;
  sess_user_id : string;
  active_thread_id : option Uuid;
  threads : gmap Uuid Thread;
  sess_created_at : Z;
  last_active_at : Z;
  sess_metadata : Json;
  auto_approved_tools : gset string
}.

(** ** Turns *)

Definition turn_new (now : Z) (number : nat) (input : string) : Turn :=
  mkTurn number input None [] TurnState.Processing now None None None [].

Definition turn_complete (now : Z) (resp : string) (t : Turn) : Turn :=
  mkTurn (turn_number t) (user_input t) (Some resp) (turn_tool_calls t) TurnState.Completed
    (turn_started_at t) (Some now) (turn_error t) (narrative t) [].

Definition turn_fail (now : Z) (err : string) (t : Turn) : Turn :=
  mkTurn (turn_number t) (user_input t) (response t) (turn_tool_calls t) TurnState.Failed
    (turn_started_at t) (Some now) (Some err) (narrative t) [].

Definition turn_interrupt (now : Z) (t : Turn) : Turn :=
  mkTurn (turn_number t) (user_input t) (response t) (turn_tool_calls t) TurnState.Interrupted
    (turn_started_at t) (Some now) (turn_error t) (narrative t) [].

Definition with_calls (t : Turn) (calls : list TurnToolCall) : Turn :=
  mkTurn (turn_number t) (user_input t) (response t) calls (turn_state t)
    (turn_started_at t) (turn_completed_at t) (turn_error t) (narrative t)
    (image_content_parts t).

Definition set_result (r : Json) (c : TurnToolCall) : TurnToolCall :=
  mkTurnToolCall (ttc_name c) (ttc_parameters c) (Some r) (ttc_error c)
    (ttc_rationale c) (ttc_tool_call_id c).

Definition set_error (e : string) (c : TurnToolCall) : TurnToolCall :=
  mkTurnToolCall (ttc_name c) (ttc_parameters c) (ttc_result c) (Some e)
    (ttc_rationale c) (ttc_tool_call_id c).

Definition record_tool_call (nm : string) (params : Json) (t : Turn) : Turn :=
  with_calls t (turn_tool_calls t ++ [mkTurnToolCall nm params None None None None]).

Definition record_tool_call_with_reasoning (nm : string) (params : Json)
    (rationale id : option string) (t : Turn) : Turn :=
  with_calls t (turn_tool_calls t ++ [mkTurnToolCall nm params None None rationale id]).

Definition record_tool_result (r : Json) (t : Turn) : Turn :=
  with_calls t (update_last (set_result r) (turn_tool_calls t)).

Definition record_tool_error (e : string) (t : Turn) : Turn :=
  with_calls t (update_last (set_error e) (turn_tool_calls t)).

Definition has_id (id : string) (c : TurnToolCall) : bool :=
  bool_decide (ttc_tool_call_id c = Some id).

Definition is_pending (c : TurnToolCall) : bool :=
  match ttc_result c, ttc_error c with None, None => true | _, _ => false end.

(** The call with that identifier, else the first pending one, else dropped. *)
Definition record_for (id : string) (f : TurnToolCall -> TurnToolCall) (t : Turn) : Turn :=
  match update_first (has_id id) f (turn_tool_calls t) with
  | Some calls => with_calls t calls
  | None =>
      match update_first is_pending f (turn_tool_calls t) with
      | Some calls => with_calls t calls
      | None => t
      end
  end.

Definition record_tool_result_for (id : string) (r : Json) (t : Turn) : Turn :=
  record_for id (set_result r) t.

Definition record_tool_error_for (id : string) (e : string) (t : Turn) : Turn :=
  record_for id (set_error e) t.

(** ** Threads *)

Definition MAX_PENDING_MESSAGES : nat := 10.

Definition with_id (now : Z) (id sess : Uuid) : Thread :=
  mkThread id sess ThreadState.Idle [] now now JNull None None [].

(** [id] is the freshly drawn identifier. *)
Definition thread_new (now : Z) (id sess : Uuid) : Thread :=
  mkThread id sess ThreadState.Idle [] now now JNull None None [].

(** The fields that the operations write, all others kept. *)
Definition thread_with (th : Thread) (st : ThreadState.t) (ts : list Turn) (upd : Z)
    (ap : option PendingApproval) (au : option PendingAuth) (q : list string) : Thread :=
  mkThread (thread_id th) (session_id th) st ts (thread_created_at th) upd
    (thread_metadata th) ap au q.

Definition display_turn_number (th : Thread) : nat := length (turns th) + 1.

Definition last_turn (th : Thread) : option Turn := last (turns th).

Definition queue_message (now : Z) (msg : string) (th : Thread) : Thread * bool :=
  if decide (MAX_PENDING_MESSAGES <= length (pending_messages th)) then (th, false)
  else (thread_with th (thread_state th) (turns th) now (pending_approval th)
          (pending_auth th) (pending_messages th ++ [msg]), true).

Definition take_pending_message (th : Thread) : Thread * option string :=
  match pending_messages th with
  | [] => (th, None)
  | m :: r => (thread_with th (thread_state th) (turns th) (updated_at th)
                 (pending_approval th) (pending_auth th) r, Some m)
  end.

Definition newline : string := String (Ascii.ascii_of_nat 10) "".

Definition drain_pending_messages (now : Z) (th : Thread) : Thread * option string :=
  match pending_messages th with
  | [] => (th, None)
  | parts => (thread_with th (thread_state th) (turns th) now (pending_approval th)
                (pending_auth th) [], Some (String.concat newline parts))
  end.

Definition requeue_drained (now : Z) (msg : string) (th : Thread) : Thread :=
  thread_with th (thread_state th) (turns th) now (pending_approval th)
    (pending_auth th) (msg :: pending_messages th).

(** [clk 0] starts the turn, [clk 1] updates the thread. *)
Definition start_turn (clk : Clock) (input : string) (th : Thread) : Thread :=
  thread_with th ThreadState.Processing
    (turns th ++ [turn_new (clk 0) (length (turns th)) input]) (clk 1)
    (pending_approval th) (pending_auth th) (pending_messages th).

Definition complete_turn (clk : Clock) (resp : string) (th : Thread) : Thread :=
  thread_with th ThreadState.Idle (update_last (turn_complete (clk 0) resp) (turns th)) (clk 1)
    (pending_approval th) (pending_auth th) (pending_messages th).

Definition fail_turn (clk : Clock) (err : string) (th : Thread) : Thread :=
  thread_with th ThreadState.Idle (update_last (turn_fail (clk 0) err) (turns th)) (clk 1)
    (pending_approval th) (pending_auth th) (pending_messages th).

Definition await_approval (now : Z) (p : PendingApproval) (th : Thread) : Thread :=
  thread_with th ThreadState.AwaitingApproval (turns th) now (Some p)
    (pending_auth th) (pending_messages th).

Definition take_pending_approval (th : Thread) : Thread * option PendingApproval :=
  (thread_with th (thread_state th) (turns th) (updated_at th) None
     (pending_auth th) (pending_messages th), pending_approval th).

Definition clear_pending_approval (now : Z) (th : Thread) : Thread :=
  thread_with th ThreadState.Idle (turns th) now None (pending_auth th) (pending_messages th).

Definition enter_auth_mode (clk : Clock) (ext : string) (th : Thread) : Thread :=
  thread_with th (thread_state th) (turns th) (clk 1) (pending_approval th)
    (Some (mkPendingAuth ext (clk 0))) (pending_messages th).

Definition take_pending_auth (th : Thread) : Thread * option PendingAuth :=
  (thread_with th (thread_state th) (turns th) (updated_at th) (pending_approval th)
     None (pending_messages th), pending_auth th).

Definition AUTH_MODE_TTL : Z := secs 300.

Definition auth_is_expired (now : Z) (p : PendingAuth) : bool :=
  (AUTH_MODE_TTL <? now - auth_created_at p)%Z.

Definition interrupt (clk : Clock) (th : Thread) : Thread :=
  thread_with th ThreadState.Interrupted (update_last (turn_interrupt (clk 0)) (turns th))
    (clk 1) (pending_approval th) (pending_auth th) [].

Definition resume (now : Z) (th : Thread) : Thread :=
  if decide (thread_state th = ThreadState.Interrupted)
  then thread_with th ThreadState.Idle (turns th) now (pending_approval th)
         (pending_auth th) (pending_messages th)
  else th.

Definition set_turn_number (i : nat) (t : Turn) : Turn :=
  mkTurn i (user_input t) (response t) (turn_tool_calls t) (turn_state t)
    (turn_started_at t) (turn_completed_at t) (turn_error t) (narrative t)
    (image_content_parts t).

Definition truncate_turns (keep : nat) (th : Thread) : Thread :=
  if decide (keep < length (turns th)) then
    thread_with th (thread_state th)
      (map_enum set_turn_number (drop (length (turns th) - keep) (turns th)))
      (updated_at th) (pending_approval th) (pending_auth th) (pending_messages th)
  else th.

(** ** Rendering a thread for the model

    [json_to_string] is [Value]'s [Display], of the crate [serde_json]. *)

Section rendering.
Context (json_to_string : Json -> string).

Definition value_text (v : Json) : string :=
  match v with JString s => s | other => json_to_string other end.

Definition tool_content (tc : TurnToolCall) : string :=
  match ttc_error tc with
  | Some err => truncate_preview err 1000
  | None =>
      match ttc_result tc with
      | Some res => truncate_preview (value_text res) 1000
      | None => "OK"
      end
  end.

Definition turn_messages (turn_idx : nat) (t : Turn) : list ChatMessage :=
  (match image_content_parts t with
   | [] => user (user_input t)
   | parts => user_with_parts (user_input t) parts
   end) ::
  (match turn_tool_calls t with
   | [] => []
   | calls =>
       let with_ids := map_enum (fun tc_idx tc =>
         (generate_tool_call_id (Z.of_nat turn_idx) (Z.of_nat tc_idx), tc)) calls in
       assistant_with_tool_calls None
         ((fun p => mkToolCall p.1 (ttc_name p.2) (ttc_parameters p.2) None) <$> with_ids) ::
       ((fun p => tool_result p.1 (ttc_name p.2) (tool_content p.2)) <$> with_ids)
   end) ++
  (match response t with Some r => [assistant r] | None => [] end).

Definition render_turns (ts : list Turn) : list ChatMessage :=
  concat (map_enum turn_messages ts).

Definition messages (th : Thread) : list ChatMessage := render_turns (turns th).
End rendering.

(** ** Restoring a thread from messages *)

(** The inner loop over tool results: the result at position [pos] goes to the
    call [base + pos] when there is one. *)
Fixpoint consume_results (base pos : nat) (calls : list TurnToolCall) (ms : list ChatMessage)
    : list TurnToolCall * list ChatMessage :=
  match ms with
  | [] => (calls, [])
  | m :: rest =>
      if decide (role m = Tool) then
        let idx := base + pos in
        let calls' := if decide (idx < length calls)
                      then alter (set_result (JString (content m))) idx calls else calls in
        consume_results base (S pos) calls' rest
      else (calls, ms)
  end.

Definition record_call (t : Turn) (tc : ToolCall) : Turn :=
  record_tool_call_with_reasoning (tc_name tc) (tc_arguments tc) (tc_reasoning tc)
    (Some (tc_id tc)) t.

(** The loop over rounds of tool calls.  Each round consumes at least one
    message, so a fuel of the number of messages is enough. *)
Fixpoint consume_rounds (fuel : nat) (t : Turn) (ms : list ChatMessage)
    : Turn * list ChatMessage :=
  match fuel with
  | O => (t, ms)
  | S fuel =>
      match ms with
      | m :: rest =>
          match role m, tool_calls m with
          | Assistant, Some tcs =>
              let base := length (turn_tool_calls t) in
              let t1 := foldl record_call t tcs in
              let '(calls, rest') := consume_results base 0 (turn_tool_calls t1) rest in
              consume_rounds fuel (with_calls t1 calls) rest'
          | _, _ => (t, ms)
          end
      | [] => (t, ms)
      end
  end.

(** [is_final_assistant] and the completion of the turn. *)
Definition consume_response (now : Z) (t : Turn) (ms : list ChatMessage)
    : Turn * list ChatMessage :=
  match ms with
  | m :: rest =>
      match role m, tool_calls m with
      | Assistant, None => (turn_complete now (content m) t, rest)
      | _, _ => (t, ms)
      end
  | [] => (t, ms)
  end.

(** The outer loop.  Turn [n] reads the clock at points [2n] and [2n+1]. *)
Fixpoint restore_turns (fuel : nat) (clk : Clock) (n : nat) (acc : list Turn)
    (ms : list ChatMessage) : list Turn :=
  match fuel with
  | O => acc
  | S fuel =>
      match ms with
      | [] => acc
      | m :: rest =>
          if decide (role m = User) then
            let t0 := turn_new (clk (2 * n)) n (content m) in
            let '(t1, rest1) := consume_rounds (length rest) t0 rest in
            let '(t2, rest2) := consume_response (clk (2 * n + 1)) t1 rest1 in
            restore_turns fuel clk (S n) (acc ++ [t2]) rest2
          else restore_turns fuel clk n acc rest
      end
  end.

Definition restore_from_messages (clk : Clock) (ms : list ChatMessage) (th : Thread) : Thread :=
  let ts := restore_turns (S (length ms)) clk 0 [] ms in
  thread_with th ThreadState.Idle ts (clk (2 * length ts)) (pending_approval th)
    (pending_auth th) (pending_messages th).

(** ** Sessions *)

Definition session_new (now : Z) (id : Uuid) (usr : string) : Session :=
  mkSession id usr None ∅ now now JNull ∅.

Definition is_tool_auto_approved (s : Session) (tool : string) : bool :=
  bool_decide (tool ∈ auto_approved_tools s).

Definition auto_approve_tool (tool : string) (s : Session) : Session :=
  mkSession (sess_id s) (sess_user_id s) (active_thread_id s) (threads s)
    (sess_created_at s) (last_active_at s) (sess_metadata s)
    ({[ tool ]} ∪ auto_approved_tools s).

Definition session_with (s : Session) (act : option Uuid) (ths : gmap Uuid Thread)
    (la : Z) : Session :=
  mkSession (sess_id s) (sess_user_id s) act ths (sess_created_at s) la
    (sess_metadata s) (auto_approved_tools s).

(** [id] is the identifier that [Thread::new] draws; [entry(..).or_insert(..)]
    keeps a thread already stored under it.  The result names the thread that
    the returned reference points to. *)
Definition create_thread (clk : Clock) (id : Uuid) (s : Session) : Session * Uuid :=
  let thread := thread_new (clk 0) id (sess_id s) in
  let ths := match threads s !! id with
             | Some _ => threads s
             | None => <[ id := thread ]> (threads s)
             end in
  (session_with s (Some id) ths (clk 1), id).

Definition active_thread (s : Session) : option Thread :=
  active_thread_id s ≫= fun id => threads s !! id.

Definition get_or_create_thread (clk : Clock) (id : Uuid) (s : Session) : Session * Uuid :=
  match active_thread_id s with
  | None => create_thread clk id s
  | Some act =>
      match threads s !! act with
      | Some _ => (s, act)
      | None => create_thread clk id s
      end
  end.

Definition switch_thread (now : Z) (id : Uuid) (s : Session) : Session * bool :=
  match threads s !! id with
  | Some _ => (session_with s (Some id) (threads s) now, true)
  | None => (s, false)
  end.

(** ** Invariants and step relations *)

(** Turn [i] carries the number [i]. *)
Definition numbered (ts : list Turn) : Prop := ∀ i t, ts !! i = Some t → turn_number t = i.

(** One operation on a thread. *)
Inductive thread_step : Thread -> Thread -> Prop :=
| ts_queue now m th : thread_step th (queue_message now m th).1
| ts_take th : thread_step th (take_pending_message th).1
| ts_drain now th : thread_step th (drain_pending_messages now th).1
| ts_requeue now m th : thread_step th (requeue_drained now m th)
| ts_start clk i th : thread_step th (start_turn clk i th)
| ts_complete clk r th : thread_step th (complete_turn clk r th)
| ts_fail clk e th : thread_step th (fail_turn clk e th)
| ts_await now p th : thread_step th (await_approval now p th)
| ts_take_approval th : thread_step th (take_pending_approval th).1
| ts_clear_approval now th : thread_step th (clear_pending_approval now th)
| ts_enter_auth clk e th : thread_step th (enter_auth_mode clk e th)
| ts_take_auth th : thread_step th (take_pending_auth th).1
| ts_interrupt clk th : thread_step th (interrupt clk th)
| ts_resume now th : thread_step th (resume now th)
| ts_truncate k th : thread_step th (truncate_turns k th)
| ts_restore clk ms th : thread_step th (restore_from_messages clk ms th).

(** The queue protocol: the drain loop takes the queued messages and, when the
    merged turn fails, puts the merged text back once.  The flag says that a
    drained text is outstanding. *)
Inductive queue_step : Thread * bool -> Thread * bool -> Prop :=
| qs_queue now m th b : queue_step (th, b) ((queue_message now m th).1, b)
| qs_take th b : queue_step (th, b) ((take_pending_message th).1, b)
| qs_drain now th th' b text :
    drain_pending_messages now th = (th', Some text) → queue_step (th, b) (th', true)
| qs_done th : queue_step (th, true) (th, false)
| qs_requeue now m th : queue_step (th, true) (requeue_drained now m th, false)
| qs_interrupt clk th b : queue_step (th, b) (interrupt clk th, b).

(** The active thread exists. *)
Definition session_ok (s : Session) : Prop :=
  ∀ id, active_thread_id s = Some id → is_Some (threads s !! id).

(** ** Lemmas: numbering *)

Lemma numbered_fmap ts : numbered ts ↔ turn_number <$> ts = seq 0 (length ts).
Proof.
  split.
  - intros Hn. apply list_eq. intros i. rewrite list_lookup_fmap.
    destruct (ts !! i) as [t|] eqn:Ht; simpl.
    + rewrite (Hn _ _ Ht). symmetry. apply lookup_seq. apply lookup_lt_Some in Ht. lia.
    + apply lookup_ge_None in Ht. symmetry. apply lookup_ge_None. by rewrite length_seq.
  - intros Heq i t Ht. apply (f_equal (.!! i)) in Heq. rewrite list_lookup_fmap, Ht in Heq.
    simpl in Heq. symmetry in Heq. apply lookup_seq in Heq. lia.
Qed.

Lemma numbered_same ts ts' :
  turn_number <$> ts' = turn_number <$> ts → numbered ts → numbered ts'.
Proof.
  intros Heq. rewrite !numbered_fmap, Heq. intros ->. f_equal.
  by rewrite <-(length_fmap turn_number ts), <-Heq, length_fmap.
Qed.

Lemma numbered_snoc ts t :
  numbered ts → turn_number t = length ts → numbered (ts ++ [t]).
Proof.
  intros Hn Ht i x Hx. apply lookup_app_Some in Hx as [Hx|[Hge Hx]]; [by apply Hn|].
  apply list_lookup_singleton_Some in Hx as [Hi <-]. lia.
Qed.

Lemma numbered_map_enum ts : numbered (map_enum set_turn_number ts).
Proof.
  intros i t. unfold map_enum. rewrite list_lookup_imap.
  destruct (ts !! i); simpl; [|done]. by intros [= <-].
Qed.

(** ** Lemmas: the loops of [restore_from_messages] *)

Definition is_user (m : ChatMessage) : Prop := role m = User.
#[local] Instance is_user_dec m : Decision (is_user m) := decide (role m = User).

Lemma consume_results_rest base pos calls ms :
  let rest := (consume_results base pos calls ms).2 in
  length rest ≤ length ms ∧ filter is_user rest = filter is_user ms.
Proof.
  revert pos calls. induction ms as [|m ms IH]; intros pos calls; simpl; [done|].
  case_decide as Hr; [|done].
  match goal with |- context [consume_results base (S pos) ?cs ms] =>
    destruct (IH (S pos) cs) as [Hl Hf] end.
  split; [lia|]. rewrite Hf, filter_cons_False; [done|]. unfold is_user. by rewrite Hr.
Qed.

Lemma consume_rounds_rest fuel t ms :
  let r := consume_rounds fuel t ms in
  length r.2 ≤ length ms ∧ filter is_user r.2 = filter is_user ms ∧
  user_input r.1 = user_input t ∧ turn_number r.1 = turn_number t.
Proof.
  revert t ms. induction fuel as [|fuel IH]; intros t ms; [done|]. simpl.
  destruct ms as [|m ms]; [done|].
  destruct (role m) eqn:Hr; try done. destruct (tool_calls m) as [tcs|]; [|done].
  set (t1 := foldl record_call t tcs).
  assert (Ht1 : user_input t1 = user_input t ∧ turn_number t1 = turn_number t).
  { subst t1. generalize t. induction tcs as [|tc tcs IHt]; intros u; [done|]. simpl.
    destruct (IHt (record_call u tc)) as [-> ->]. done. }
  destruct (consume_results_rest (length (turn_tool_calls t)) 0 (turn_tool_calls t1) ms) as [Hl Hf].
  destruct (consume_results _ _ _ _) as [calls rest]. simpl in *.
  destruct (IH (with_calls t1 calls) rest) as (Hl' & Hf' & Hu & Hn).
  split_and!; [lia| |by rewrite Hu; simpl; apply Ht1|by rewrite Hn; simpl; apply Ht1].
  rewrite Hf', Hf, filter_cons_False; [done|]. unfold is_user. by rewrite Hr.
Qed.

Lemma consume_response_rest now t ms :
  let r := consume_response now t ms in
  length r.2 ≤ length ms ∧ filter is_user r.2 = filter is_user ms ∧
  user_input r.1 = user_input t ∧ turn_number r.1 = turn_number t.
Proof.
  unfold consume_response. destruct ms as [|m ms]; [done|].
  destruct (role m) eqn:Hr; try done. destruct (tool_calls m); [done|]. simpl.
  split_and!; [lia| |done|done].
  rewrite filter_cons_False; [done|]. unfold is_user. by rewrite Hr.
Qed.

(** The outer loop anchors one turn on each user message, in order. *)
Lemma restore_turns_users fuel clk n acc ms :
  length ms ≤ fuel →
  user_input <$> restore_turns fuel clk n acc ms =
    (user_input <$> acc) ++ (content <$> filter is_user ms).
Proof.
  revert n acc ms. induction fuel as [|fuel IH]; intros n acc ms Hl.
  { destruct ms; simpl in *; [|lia]. by rewrite app_nil_r. }
  destruct ms as [|m ms]; simpl in *; [by rewrite app_nil_r|].
  case_decide as Hr.
  - pose proof (consume_rounds_rest (length ms) (turn_new (clk (2 * n)) n (content m)) ms) as H1.
    simpl in H1. destruct (consume_rounds _ _ _) as [t1 r1]. destruct H1 as (Hl1 & Hf1 & Hu1 & _).
    pose proof (consume_response_rest (clk (n + (n + 0) + 1)) t1 r1) as H2.
    simpl in H2. destruct (consume_response _ _ _) as [t2 r2]. destruct H2 as (Hl2 & Hf2 & Hu2 & _).
    simpl in *. rewrite IH by lia. rewrite fmap_app, <-app_assoc. f_equal. simpl.
    rewrite filter_cons_True by done. simpl. by rewrite Hf2, Hf1, Hu2, Hu1.
  - rewrite IH by lia. by rewrite filter_cons_False.
Qed.

Lemma restore_turns_numbered fuel clk n acc ms :
  length acc = n → numbered acc → numbered (restore_turns fuel clk n acc ms).
Proof.
  revert n acc ms. induction fuel as [|fuel IH]; intros n acc ms Hl Hn; [done|].
  destruct ms as [|m ms]; simpl; [done|]. case_decide as Hr; [|by apply IH].
  pose proof (consume_rounds_rest (length ms) (turn_new (clk (2 * n)) n (content m)) ms) as H1.
  simpl in H1. destruct (consume_rounds _ _ _) as [t1 r1]. destruct H1 as (_ & _ & _ & Hn1).
  pose proof (consume_response_rest (clk (n + (n + 0) + 1)) t1 r1) as H2.
  simpl in H2. destruct (consume_response _ _ _) as [t2 r2]. destruct H2 as (_ & _ & _ & Hn2).
  simpl in *. apply IH; [rewrite length_app; simpl; lia|].
  apply numbered_snoc; [done|]. congruence.
Qed.

(** ** Lemmas: rendering then restoring *)

Arguments turn_messages : simpl never.

Section roundtrip.
Context (json_to_string : Json -> string).

Fixpoint render_from (n : nat) (ts : list Turn) : list ChatMessage :=
  match ts with
  | [] => []
  | t :: r => turn_messages json_to_string n t ++ render_from (S n) r
  end.

Lemma render_turns_from ts : render_turns json_to_string ts = render_from 0 ts.
Proof.
  unfold render_turns, map_enum.
  assert (H : ∀ n, concat (imap (fun i => turn_messages json_to_string (n + i)) ts)
                   = render_from n ts); [|exact (H 0)].
  induction ts as [|t ts IH]; intros n; [done|].
  cbn [imap concat render_from]. rewrite Nat.add_0_r.
  rewrite <-(IH (S n)). apply (f_equal (app _)), (f_equal (@concat _)), imap_ext. intros i x _. simpl. f_equal. lia.
Qed.

Definition restored_calls (n : nat) (calls : list TurnToolCall) : list TurnToolCall :=
  imap (fun j tc => mkTurnToolCall (ttc_name tc) (ttc_parameters tc)
          (Some (JString (tool_content json_to_string tc))) None None
          (Some (generate_tool_call_id (Z.of_nat n) (Z.of_nat j)))) calls.

(** The turn that restoring the rendering of [t] yields. *)
Definition restored_turn (clk : Clock) (n : nat) (t : Turn) : Turn :=
  let t1 := with_calls (turn_new (clk (2 * n)) n (user_input t))
              (restored_calls n (turn_tool_calls t)) in
  match response t with
  | Some r => turn_complete (clk (2 * n + 1)) r t1
  | None => t1
  end.

Definition starts_with_user (ms : list ChatMessage) : Prop :=
  match ms with [] => True | m :: _ => role m = User end.

Lemma render_from_user n ts : starts_with_user (render_from n ts).
Proof. destruct ts as [|t ts]; [done|]. simpl. unfold turn_messages. by destruct (image_content_parts t). Qed.

Lemma foldl_record_call t tcs :
  foldl record_call t tcs =
  with_calls t (turn_tool_calls t ++
    ((fun tc => mkTurnToolCall (tc_name tc) (tc_arguments tc) None None (tc_reasoning tc)
                  (Some (tc_id tc))) <$> tcs)).
Proof.
  revert t. induction tcs as [|tc tcs IH]; intros t; simpl.
  - rewrite app_nil_r. by destruct t.
  - rewrite IH. unfold record_call, record_tool_call_with_reasoning, with_calls. simpl.
    by rewrite <-app_assoc.
Qed.

(** The results of a batch land on the calls of the batch, in order. *)
Lemma consume_results_batch done todo res rest :
  length res = length todo → Forall (fun m => role m = Tool) res →
  match rest with m :: _ => role m ≠ Tool | [] => True end →
  consume_results 0 (length done) (done ++ todo) (res ++ rest) =
  (done ++ zip_with (fun c m => set_result (JString (content m)) c) todo res, rest).
Proof.
  revert done res. induction todo as [|c todo IH]; intros done res Hl Hr Hrest.
  - destruct res; [|done]. simpl. destruct rest as [|m rest]; simpl; [done|].
    by rewrite decide_False.
  - destruct res as [|m res]; [done|]. apply Forall_cons in Hr as [Hm Hr]. simpl in Hl.
    cbn [app consume_results]. rewrite decide_True by done.
    rewrite decide_True by (rewrite length_app; simpl; lia).
    replace (0 + length done) with (length done + 0) by lia. rewrite alter_app_r. simpl.
    specialize (IH (done ++ [set_result (JString (content m)) c]) res ltac:(lia) Hr Hrest).
    rewrite length_app in IH. simpl in IH.
    replace (length done + 1) with (S (length done)) in IH by lia.
    rewrite <-!app_assoc in IH. exact IH.
Qed.

Lemma batch_restored n calls :
  let with_ids := imap (fun j tc =>
    (generate_tool_call_id (Z.of_nat n) (Z.of_nat j), tc)) calls in
  zip_with (fun c m => set_result (JString (content m)) c)
    ((fun tc => mkTurnToolCall (tc_name tc) (tc_arguments tc) None None (tc_reasoning tc)
                  (Some (tc_id tc))) <$>
     ((fun p => mkToolCall p.1 (ttc_name p.2) (ttc_parameters p.2) None) <$> with_ids))
    ((fun p => tool_result p.1 (ttc_name p.2) (tool_content json_to_string p.2)) <$> with_ids)
  = restored_calls n calls.
Proof.
  intros with_ids. rewrite <-list_fmap_compose, zip_with_fmap_l, zip_with_fmap_r.
  rewrite zip_with_diag. unfold with_ids, restored_calls. rewrite fmap_imap. done.
Qed.

Lemma results_are_tools n calls :
  Forall (fun m => role m = Tool)
    ((fun p : string * TurnToolCall =>
        tool_result p.1 (ttc_name p.2) (tool_content json_to_string p.2)) <$>
     imap (fun j tc => (generate_tool_call_id (Z.of_nat n) (Z.of_nat j), tc)) calls).
Proof. apply Forall_fmap, Forall_true. done. Qed.

(** The middle of a rendered turn, consumed by one round. *)
Lemma consume_rounds_rendered now n (t : Turn) rest fuel :
  starts_with_user rest → 2 ≤ fuel →
  let t0 := turn_new now n (user_input t) in
  let resp := match response t with Some r => [assistant r] | None => [] end in
  let calls := turn_tool_calls t in
  let with_ids := imap (fun j tc =>
    (generate_tool_call_id (Z.of_nat n) (Z.of_nat j), tc)) calls in
  calls ≠ [] →
  consume_rounds fuel t0
    (assistant_with_tool_calls None
       ((fun p => mkToolCall p.1 (ttc_name p.2) (ttc_parameters p.2) None) <$> with_ids) ::
     ((fun p => tool_result p.1 (ttc_name p.2) (tool_content json_to_string p.2)) <$> with_ids) ++
     resp ++ rest)
  = (with_calls t0 (restored_calls n calls), resp ++ rest).
Proof.
  intros Hrest Hfuel t0 resp calls with_ids Hne.
  destruct fuel as [|[|fuel]]; [lia|lia|]. cbn [consume_rounds].
  set (tcs := (fun p => mkToolCall p.1 (ttc_name p.2) (ttc_parameters p.2) None) <$> with_ids).
  assert (Htcs : tool_calls (assistant_with_tool_calls None tcs) = Some tcs).
  { unfold tcs, with_ids. by destruct calls. }
  rewrite Htcs. cbn [role assistant_with_tool_calls]. rewrite foldl_record_call.
  cbn [turn_tool_calls with_calls turn_new t0]. cbn [length app].
  assert (Hbatch := consume_results_batch []). cbn [length app] in Hbatch.
  rewrite Hbatch; clear Hbatch.
  - unfold tcs, with_ids. rewrite (batch_restored n calls).
    subst resp. destruct (response t) as [r|]; [done|].
    destruct rest as [|m rest]; [done|]. cbn in Hrest. cbn [app]. by rewrite Hrest.
  - unfold tcs. by rewrite !length_fmap.
  - apply results_are_tools.
  - subst resp. destruct (response t) as [r|]; [done|].
    destruct rest as [|m rest]; [done|]. cbn in Hrest |- *. by rewrite Hrest.
Qed.

Lemma consume_response_rendered now (r : option string) (t : Turn) rest :
  starts_with_user rest →
  consume_response now t ((match r with Some r => [assistant r] | None => [] end) ++ rest)
  = (match r with Some r => turn_complete now r t | None => t end, rest).
Proof.
  destruct r as [r|]; [done|]. simpl. destruct rest as [|m rest]; simpl; [done|].
  by intros ->.
Qed.

Lemma with_calls_nil now n u : with_calls (turn_new now n u) [] = turn_new now n u.
Proof. done. Qed.

Lemma restore_step fuel clk n acc t rest :
  starts_with_user rest →
  restore_turns (S fuel) clk n acc (turn_messages json_to_string n t ++ rest) =
  restore_turns fuel clk (S n) (acc ++ [restored_turn clk n t]) rest.
Proof.
  intros Hrest. unfold turn_messages. cbn [app restore_turns].
  set (um := match image_content_parts t with [] => _ | _ => _ end).
  assert (Hum : role um = User ∧ content um = user_input t)
    by (subst um; by destruct (image_content_parts t)).
  destruct Hum as [Hru Hcu]. rewrite decide_True by done. rewrite Hcu. clearbody um.
  unfold restored_turn.
  set (resp := match response t with Some r => [assistant r] | None => [] end).
  destruct (turn_tool_calls t) as [|c calls] eqn:Hcalls.
  - rewrite app_nil_l.
    assert (Hr0 : consume_rounds (length (resp ++ rest)) (turn_new (clk (2 * n)) n (user_input t))
                    (resp ++ rest) = (turn_new (clk (2 * n)) n (user_input t), resp ++ rest)).
    { subst resp. destruct (response t); [done|]. destruct rest as [|m rest]; [done|].
      cbn in Hrest |- *. by rewrite Hrest. }
    rewrite Hr0. unfold resp. rewrite consume_response_rendered by done.
    rewrite with_calls_nil. by destruct (response t).
  - set (calls' := c :: calls) in *.
    match goal with |- context [consume_rounds (length ?l) _ _] => set (fuel' := length l) end.
    assert (Hf : 2 ≤ fuel') by (subst fuel'; simpl; lia). clearbody fuel'.
    pose proof (consume_rounds_rendered (clk (2 * n)) n t rest fuel' Hrest Hf) as Hround.
    cbn zeta in Hround. fold resp in Hround. rewrite Hcalls in Hround.
    unfold map_enum. rewrite <-(app_assoc _ resp rest), <-app_comm_cons.
    rewrite Hround by done.
    unfold resp. rewrite consume_response_rendered by done. by destruct (response t).
Qed.

Lemma restore_rendered fuel clk n acc ts :
  length ts < fuel →
  restore_turns fuel clk n acc (render_from n ts) =
  acc ++ imap (fun i => restored_turn clk (n + i)) ts.
Proof.
  revert fuel n acc. induction ts as [|t ts IH]; intros fuel n acc Hf.
  { destruct fuel; simpl; by rewrite app_nil_r. }
  destruct fuel as [|fuel]; [simpl in Hf; lia|]. cbn [render_from].
  rewrite restore_step by apply render_from_user. simpl in Hf. rewrite IH by lia.
  cbn [imap]. rewrite <-app_assoc, Nat.add_0_r. apply (f_equal (app acc)). cbn [app].
  apply (f_equal (cons _)), imap_ext. intros i x _. simpl. f_equal. lia.
Qed.

(** A message without its images, which are not part of a checkpoint. *)
Definition strip_images (m : ChatMessage) : ChatMessage :=
  mkMessage (role m) (content m) [] (tool_call_id m) (name m) (tool_calls m).

(** The rendered result of every call fits in the preview limit. *)
Definition short_results (ts : list Turn) : Prop :=
  Forall (fun t => Forall (fun tc =>
    String.length (tool_content json_to_string tc) ≤ 1000) (turn_tool_calls t)) ts.

Lemma restored_content tc id :
  String.length (tool_content json_to_string tc) ≤ 1000 →
  tool_content json_to_string
    (mkTurnToolCall (ttc_name tc) (ttc_parameters tc)
       (Some (JString (tool_content json_to_string tc))) None None id)
  = tool_content json_to_string tc.
Proof. intros Hl. unfold tool_content at 1. simpl. by apply truncate_preview_short. Qed.

Lemma render_restored clk n t :
  Forall (fun tc => String.length (tool_content json_to_string tc) ≤ 1000) (turn_tool_calls t) →
  turn_messages json_to_string n (restored_turn clk n t) =
  strip_images <$> turn_messages json_to_string n t.
Proof.
  intros Hs. unfold turn_messages.
  assert (Hr : image_content_parts (restored_turn clk n t) = [] ∧
               user_input (restored_turn clk n t) = user_input t ∧
               response (restored_turn clk n t) = response t ∧
               turn_tool_calls (restored_turn clk n t) = restored_calls n (turn_tool_calls t)).
  { unfold restored_turn. by destruct (response t). }
  destruct Hr as (-> & -> & -> & ->). rewrite fmap_cons, fmap_app.
  f_equal; [by destruct (image_content_parts t)|].
  f_equal; [|by destruct (response t)].
  destruct (turn_tool_calls t) as [|c calls] in Hs |- *; [done|].
  set (cs := c :: calls) in *.
  destruct (restored_calls n cs) as [|c' calls'] eqn:Hcs; [done|]. rewrite <-Hcs.
  unfold map_enum, restored_calls. rewrite fmap_cons, !fmap_imap, !imap_imap.
  f_equal.
  apply imap_ext. intros i tc Htc. simpl. unfold tool_result, strip_images. simpl. f_equal.
  apply restored_content. by apply (Forall_lookup_1 _ _ _ _ Hs Htc).
Qed.

Lemma render_from_length n ts : length ts ≤ length (render_from n ts).
Proof.
  revert n. induction ts as [|t ts IH]; intros n; [done|]. cbn [render_from].
  rewrite length_app. unfold turn_messages. specialize (IH (S n)). simpl. lia.
Qed.

Lemma render_from_restored clk n ts :
  short_results ts →
  render_from n (imap (fun i => restored_turn clk (n + i)) ts) =
  strip_images <$> render_from n ts.
Proof.
  revert n. induction ts as [|t ts IH]; intros n Hs; [done|].
  apply Forall_cons in Hs as [Ht Hs]. cbn [imap render_from]. rewrite fmap_app, Nat.add_0_r.
  rewrite render_restored by done. apply (f_equal (app _)). rewrite <-IH by done.
  apply (f_equal (render_from (S n))), imap_ext. intros i x _. simpl. f_equal. lia.
Qed.

(** Every tool result of a rendered turn names a call the turn declares. *)
Lemma turn_well_referenced n t m :
  m ∈ turn_messages json_to_string n t → role m = Tool →
  ∃ id, tool_call_id m = Some id ∧ id ∈ turn_messages json_to_string n t ≫= msg_call_ids.
Proof.
  unfold turn_messages. intros Hin Hr. apply elem_of_cons in Hin as [->|Hin];
    [by destruct (image_content_parts t)|].
  apply elem_of_app in Hin as [Hin|Hin]; [|destruct (response t); set_solver].
  destruct (turn_tool_calls t) as [|c calls]; [set_solver|].
  set (cs := c :: calls) in *. unfold map_enum in *.
  apply elem_of_cons in Hin as [->|Hin]; [done|].
  apply list_elem_of_fmap in Hin as ([id tc] & -> & Hid). exists id. split; [done|].
  rewrite bind_cons, bind_app, bind_cons. apply elem_of_app; right. apply elem_of_app; left.
  apply elem_of_app; left.
  rewrite msg_call_ids_assistant. apply list_elem_of_fmap.
  exists (mkToolCall id (ttc_name tc) (ttc_parameters tc) None). split; [done|].
  apply list_elem_of_fmap. by exists (id, tc).
Qed.

Lemma render_well_referenced n ts m :
  m ∈ render_from n ts → role m = Tool →
  ∃ id, tool_call_id m = Some id ∧ id ∈ render_from n ts ≫= msg_call_ids.
Proof.
  revert n. induction ts as [|t ts IH]; intros n Hin Hr; [set_solver|].
  cbn [render_from] in *. rewrite bind_app. apply elem_of_app in Hin as [Hin|Hin].
  - destruct (turn_well_referenced _ _ _ Hin Hr) as (id & ? & ?). set_solver.
  - destruct (IH _ Hin Hr) as (id & ? & ?). set_solver.
Qed.

(** ** Theorems *)

(** C30. Restoring a thread from its own rendering and rendering it again gives
    the same messages, images aside, whenever every tool result fits in the
    preview limit: undo and redo lose nothing that the model saw. *)
Theorem messages_restore_roundtrip clk th th' :
  short_results (turns th) →
  messages json_to_string
    (restore_from_messages clk (messages json_to_string th) th') =
  strip_images <$> messages json_to_string th.
Proof.
  intros Hs. unfold messages, restore_from_messages. cbn [turns thread_with].
  rewrite !render_turns_from. rewrite restore_rendered.
  - rewrite app_nil_l. by apply (render_from_restored clk 0).
  - pose proof (render_from_length 0 (turns th)). lia.
Qed.

(** The messages that a thread renders already satisfy the tool-call
    protocol: every tool result names a call declared by an assistant message,
    so the sanitation pass before a provider call leaves them unchanged. *)
Theorem messages_need_no_sanitizing th :
  sanitize_tool_messages (messages json_to_string th) = messages json_to_string th.
Proof.
  apply sanitize_id, Forall_forall. intros m Hm Hr.
  unfold messages in *. rewrite render_turns_from in *.
  destruct (render_well_referenced _ _ _ Hm Hr) as (id & ? & ?).
  exists id. split; [done|]. unfold known_ids. by apply elem_of_list_to_set.
Qed.
End roundtrip.

(** Restoring anchors exactly one turn on each user message, in order and
    with its text, numbers the turns consecutively from zero and leaves the
    thread idle; no message sequence makes it stop early. *)
Theorem restore_anchors_users clk ms th :
  let th' := restore_from_messages clk ms th in
  user_input <$> turns th' = content <$> filter (fun m => role m = User) ms ∧
  numbered (turns th') ∧ thread_state th' = ThreadState.Idle.
Proof.
  cbn zeta. unfold restore_from_messages. cbn [turns thread_with thread_state].
  split_and!; [|by apply restore_turns_numbered|done].
  rewrite restore_turns_users by lia. done.
Qed.

Lemma thread_step_numbered th th' :
  thread_step th th' → numbered (turns th) → numbered (turns th').
Proof.
  intros Hs Hn. destruct Hs; try exact Hn.
  - unfold queue_message. by case_decide.
  - unfold take_pending_message. by case_match.
  - unfold drain_pending_messages. by case_match.
  - by apply numbered_snoc.
  - eapply numbered_same; [|exact Hn]. by apply update_last_fmap.
  - eapply numbered_same; [|exact Hn]. by apply update_last_fmap.
  - eapply numbered_same; [|exact Hn]. by apply update_last_fmap.
  - unfold resume. by case_decide.
  - unfold truncate_turns. case_decide; [|done]. apply numbered_map_enum.
  - by apply restore_turns_numbered.
Qed.

(** Turn numbers always equal turn positions: every sequence of thread
    operations, truncation and restoring included, keeps the numbering that
    the tool-call identifiers of [messages] rely on. *)
Theorem turns_stay_numbered th th' :
  rtc thread_step th th' → numbered (turns th) → numbered (turns th').
Proof. induction 1; eauto using thread_step_numbered. Qed.

(** The bound on the queue: one more than the cap unless a drained text is
    outstanding. *)
Definition queue_bound (s : Thread * bool) : Prop :=
  length (pending_messages s.1) ≤
    (if s.2 then MAX_PENDING_MESSAGES else S MAX_PENDING_MESSAGES).

Lemma queue_step_bound s s' : queue_step s s' → queue_bound s → queue_bound s'.
Proof.
  unfold queue_bound, MAX_PENDING_MESSAGES. intros Hs Hb. destruct Hs; simpl in *.
  - unfold queue_message, MAX_PENDING_MESSAGES. case_decide; simpl; [done|].
    rewrite length_app. simpl. destruct b; lia.
  - unfold take_pending_message. destruct (pending_messages th) eqn:E; simpl in *;
      rewrite ?E; destruct b; simpl in *; lia.
  - unfold drain_pending_messages in H. destruct (pending_messages th); simplify_eq/=. lia.
  - lia.
  - lia.
  - destruct b; lia.
Qed.

(** Under the drain protocol the queue of pending messages never holds
    more than eleven entries: the cap of ten plus at most one re-queued merged
    text. *)
Theorem pending_queue_bounded th s :
  pending_messages th = [] → rtc queue_step (th, false) s →
  length (pending_messages s.1) ≤ S MAX_PENDING_MESSAGES.
Proof.
  intros Hq Hr.
  assert (Hb : queue_bound s).
  { revert Hr. apply rtc_ind_r with (P := fun x => queue_bound x);
      [unfold queue_bound; simpl; rewrite Hq; simpl; lia|]. eauto using queue_step_bound. }
  unfold queue_bound, MAX_PENDING_MESSAGES in *. destruct s.2; lia.
Qed.

(** [get_or_create_thread] returns the identifier of a thread that exists
    and is the active one, creates a thread exactly when there is no live
    active thread, and changes no thread that already existed. *)
Theorem get_or_create_thread_live clk id s :
  let '(s', tid) := get_or_create_thread clk id s in
  active_thread_id s' = Some tid ∧ is_Some (threads s' !! tid) ∧ session_ok s' ∧
  (is_Some (active_thread s) → s' = s) ∧
  (active_thread s = None → tid = id) ∧
  ∀ i th, threads s !! i = Some th → threads s' !! i = Some th.
Proof.
  assert (Hc : let '(s', tid) := create_thread clk id s in
    active_thread_id s' = Some tid ∧ is_Some (threads s' !! tid) ∧ session_ok s' ∧ tid = id ∧
    ∀ i th, threads s !! i = Some th → threads s' !! i = Some th).
  { unfold create_thread, session_ok. simpl. split_and!; try done.
    - destruct (threads s !! id) eqn:E; simplify_map_eq; eauto.
    - intros i [= <-]. destruct (threads s !! id) eqn:E; simplify_map_eq; eauto.
    - intros i th Hi. destruct (threads s !! id) eqn:E; [done|].
      rewrite lookup_insert_ne; [done|]. congruence. }
  unfold get_or_create_thread, active_thread, session_ok in *.
  destruct (active_thread_id s) as [act|] eqn:Ha; cbn [mbind option_bind].
  - destruct (threads s !! act) as [th|] eqn:Ht.
    + split_and!; eauto; [|done]. intros i Hi. simplify_eq. eauto.
    + destruct (create_thread clk id s) as [s' tid]. destruct Hc as (? & ? & ? & -> & ?).
      split_and!; try done; by intros [? ?].
  - destruct (create_thread clk id s) as [s' tid]. destruct Hc as (? & ? & ? & -> & ?).
    split_and!; try done; by intros [? ?].
Qed.

(** ** Witnesses *)

Definition demo_printer : Json -> string := fun _ => "{}".

Definition demo_thread : Thread :=
  complete_turn (frozen 9) "bye"
    (mkThread 1 2 ThreadState.Processing
       [with_calls (turn_new 0 0 "hi")
          [mkTurnToolCall "echo" JNull (Some (JString "out")) None None None;
           mkTurnToolCall "ls" JNull None (Some "denied") None None]]
       0 0 JNull None None []).

Lemma messages_restore_roundtrip_witness :
  short_results demo_printer (turns demo_thread) ∧
  messages demo_printer
    (restore_from_messages (frozen 5) (messages demo_printer demo_thread) demo_thread) =
  strip_images <$> messages demo_printer demo_thread.
Proof.
  assert (Hs : short_results demo_printer (turns demo_thread)).
  { repeat constructor; vm_compute; lia. }
  split; [exact Hs|].
  exact (messages_restore_roundtrip demo_printer (frozen 5) demo_thread demo_thread Hs).
Defined.

Lemma turns_stay_numbered_witness :
  numbered (turns demo_thread) ∧ numbered (turns (truncate_turns 0 demo_thread)).
Proof.
  assert (Hn : numbered (turns demo_thread)).
  { intros [|[|i]] t Ht; simplify_eq/=; done. }
  split; [exact Hn|].
  exact (turns_stay_numbered demo_thread (truncate_turns 0 demo_thread)
           (rtc_once _ _ (ts_truncate 0 demo_thread)) Hn).
Defined.

Lemma pending_queue_bounded_witness :
  pending_messages demo_thread = [] ∧
  length (pending_messages (queue_message 3 "next" demo_thread).1) ≤ S MAX_PENDING_MESSAGES.
Proof.
  split; [reflexivity|].
  exact (pending_queue_bounded demo_thread ((queue_message 3 "next" demo_thread).1, false)
           eq_refl (rtc_once _ _ (qs_queue 3 "next" demo_thread false))).
Defined.
