(* ===== verification/Undo.v ===== *)
(** * Undo and redo: [src/agent/undo.rs]

    Checkpoints of a conversation and the manager that walks them.  The
    methods compiled only for tests ([with_max_checkpoints], [pop_undo],
    [get_checkpoint], [list_checkpoints]) are not modelled; the limit is kept
    as a field, as in the code, so the theorems hold for every limit. *)

From stdpp Require Import pretty.
From S2P Require Import Prelude Provider.

Definition DEFAULT_MAX_CHECKPOINTS : nat := 20.

Record Checkpoint : Type := mkCheckpoint {
  cp_id : Uuid;
  cp_turn_number : nat;
  cp_messages : list ChatMessage;
  cp_description : string
}.

(** [undo_stack] has its oldest entry first; [redo_stack] its top last. *)
Record UndoManager : Type := mkManager {
  undo_stack : list Checkpoint;
  redo_stack : list Checkpoint;
  max_checkpoints : nat
}.

(** [id] is the identifier drawn by [Uuid::new_v4()]. *)
Definition checkpoint_new (id : Uuid) (turn : nat) (ms : list ChatMessage)
    (descr : string) : Checkpoint := mkCheckpoint id turn ms descr.

Definition manager_new : UndoManager := mkManager [] [] DEFAULT_MAX_CHECKPOINTS.

Definition push_undo (cp : Checkpoint) (m : UndoManager) : UndoManager :=
  mkManager (trim_front (max_checkpoints m) (undo_stack m ++ [cp]))
    (redo_stack m) (max_checkpoints m).

Definition checkpoint (id : Uuid) (turn : nat) (ms : list ChatMessage) (descr : string)
    (m : UndoManager) : UndoManager :=
  push_undo (checkpoint_new id turn ms descr)
    (mkManager (undo_stack m) [] (max_checkpoints m)).

Definition turn_label (turn : nat) : string := "Turn " +:+ pretty turn.

Definition undo (id : Uuid) (turn : nat) (ms : list ChatMessage) (m : UndoManager)
    : UndoManager * option Checkpoint :=
  match undo_stack m with
  | [] => (m, None)
  | _ =>
      let current := checkpoint_new id turn ms (turn_label turn) in
      let redo' := redo_stack m ++ [current] in
      match pop_back (undo_stack m) with
      | Some (cp, rest) => (mkManager rest redo' (max_checkpoints m), Some cp)
      | None => (mkManager (undo_stack m) redo' (max_checkpoints m), None)
      end
  end.

Definition redo (id : Uuid) (turn : nat) (ms : list ChatMessage) (m : UndoManager)
    : UndoManager * option Checkpoint :=
  match redo_stack m with
  | [] => (m, None)
  | _ =>
      let current := checkpoint_new id turn ms (turn_label turn) in
      let m' := push_undo current m in
      match pop_back (redo_stack m') with
      | Some (cp, rest) => (mkManager (undo_stack m') rest (max_checkpoints m'), Some cp)
      | None => (m', None)
      end
  end.

Definition can_undo (m : UndoManager) : bool := negb (bool_decide (undo_stack m = [])).

Definition can_redo (m : UndoManager) : bool := negb (bool_decide (redo_stack m = [])).

Definition undo_count (m : UndoManager) : nat := length (undo_stack m).

Definition redo_count (m : UndoManager) : nat := length (redo_stack m).

Definition clear (m : UndoManager) : UndoManager := mkManager [] [] (max_checkpoints m).

(** [while v.len() > n { v.pop_back(); }] *)
Definition trim_back {A} (n : nat) (l : list A) : list A := take n l.

Definition restore (id : Uuid) (m : UndoManager) : UndoManager * option Checkpoint :=
  match position (fun cp => N.eqb (cp_id cp) id) (undo_stack m) with
  | None => (m, None)
  | Some pos =>
      match pop_back (trim_back (pos + 1) (undo_stack m)) with
      | Some (cp, rest) => (mkManager rest [] (max_checkpoints m), Some cp)
      | None => (mkManager [] [] (max_checkpoints m), None)
      end
  end.

(** ** Reachable managers *)

Inductive undo_step : UndoManager -> UndoManager -> Prop :=
| us_checkpoint id n ms d m : undo_step m (checkpoint id n ms d m)
| us_undo id n ms m : undo_step m (undo id n ms m).1
| us_redo id n ms m : undo_step m (redo id n ms m).1
| us_restore id m : undo_step m (restore id m).1
| us_clear m : undo_step m (clear m).

(** Both stacks together never exceed the limit. *)
Definition manager_ok (m : UndoManager) : Prop :=
  undo_count m + redo_count m ≤ max_checkpoints m.

(** ** Lemmas *)

Lemma undo_nonempty id n ms m stack cp :
  undo_stack m = stack ++ [cp] →
  undo id n ms m =
  (mkManager stack (redo_stack m ++ [checkpoint_new id n ms (turn_label n)]) (max_checkpoints m),
   Some cp).
Proof.
  intros Hs. unfold undo. rewrite Hs, pop_back_snoc. by destruct stack.
Qed.

Lemma redo_nonempty id n ms m stack cp :
  redo_stack m = stack ++ [cp] →
  redo id n ms m =
  (mkManager (trim_front (max_checkpoints m)
                (undo_stack m ++ [checkpoint_new id n ms (turn_label n)]))
     stack (max_checkpoints m), Some cp).
Proof.
  intros Hs. unfold redo. simpl. rewrite Hs, pop_back_snoc. by destruct stack.
Qed.

Lemma restore_spec id m pos cp :
  position (fun c => N.eqb (cp_id c) id) (undo_stack m) = Some pos →
  undo_stack m !! pos = Some cp →
  restore id m = (mkManager (take pos (undo_stack m)) [] (max_checkpoints m), Some cp).
Proof.
  intros Hp Hl. unfold restore, trim_back. rewrite Hp, Nat.add_1_r.
  by rewrite (take_S_r _ _ _ Hl), pop_back_snoc.
Qed.

(** A redo after an undo yields the state saved by the undo. *)
Lemma redo_inverts id n ms id' n' ms' m cp m1 :
  undo id n ms m = (m1, Some cp) →
  ∃ m2, redo id' n' ms' m1 = (m2, Some (checkpoint_new id n ms (turn_label n))) ∧
        redo_stack m1 ≠ [].
Proof.
  intros Hu. destruct (undo_stack m) as [|cp0 stack _] eqn:Hs using rev_ind;
    [unfold undo in Hu; rewrite Hs in Hu; done|].
  rewrite (undo_nonempty _ _ _ _ _ _ Hs) in Hu. injection Hu as <- <-.
  eexists. split; [by apply redo_nonempty|]. simpl. by destruct (redo_stack m).
Qed.

Lemma undo_step_max m m' : undo_step m m' → max_checkpoints m' = max_checkpoints m.
Proof.
  intros Hs. destruct Hs; try done; unfold undo, redo, restore; by repeat case_match.
Qed.

Lemma undo_step_ok m m' : undo_step m m' → manager_ok m → manager_ok m'.
Proof.
  unfold manager_ok, undo_count, redo_count. intros Hs Hok. destruct Hs.
  - simpl. rewrite length_trim_front. lia.
  - destruct (undo_stack m) as [|cp stack _] eqn:Hu using rev_ind; [by unfold undo; rewrite Hu; simpl; rewrite Hu|].
    rewrite (undo_nonempty _ _ _ _ _ _ Hu). rewrite length_app in Hok. simpl in *.
    rewrite length_app. simpl. lia.
  - destruct (redo_stack m) as [|cp stack _] eqn:Hr using rev_ind; [by unfold redo; rewrite Hr; simpl; rewrite Hr|].
    rewrite (redo_nonempty _ _ _ _ _ _ Hr). rewrite length_app in Hok. simpl in *.
    rewrite length_trim_front, length_app. simpl. lia.
  - destruct (position (fun c => N.eqb (cp_id c) id) (undo_stack m)) as [pos|] eqn:Hp.
    + destruct (proj1 (position_Some _ _ _) Hp) as [(cp & Hl & _) _].
      rewrite (restore_spec _ _ _ _ Hp Hl). simpl. rewrite length_take. lia.
    + unfold restore. by rewrite Hp.
  - simpl. lia.
Qed.

(** ** Theorems *)

(** From a new manager, whatever the sequence of checkpoints, undos, redos,
    resumes and clears, the two stacks together hold at most the configured
    number of checkpoints. *)
Theorem undo_manager_bounded m m0 :
  manager_ok m0 → rtc undo_step m0 m →
  undo_count m + redo_count m ≤ max_checkpoints m.
Proof. intros Hok Hr. change (manager_ok m). induction Hr; eauto using undo_step_ok. Qed.

(** Undo and redo trade places: an undo, and a redo within the bound,
    leave [undo_count + redo_count] unchanged, so nothing is trimmed by a redo
    and only checkpoints, resumes and clears change the total. *)
Theorem undo_redo_count_constant id n ms m :
  manager_ok m →
  let u := (undo id n ms m).1 in
  let r := (redo id n ms m).1 in
  undo_count u + redo_count u = undo_count m + redo_count m ∧
  undo_count r + redo_count r = undo_count m + redo_count m.
Proof.
  unfold manager_ok, undo_count, redo_count. intros Hok. split.
  - destruct (undo_stack m) as [|cp stack _] eqn:Hu using rev_ind; [by unfold undo; rewrite Hu; simpl; rewrite Hu|].
    rewrite (undo_nonempty _ _ _ _ _ _ Hu). simpl. rewrite !length_app. simpl. lia.
  - destruct (redo_stack m) as [|cp stack _] eqn:Hr using rev_ind; [by unfold redo; rewrite Hr; simpl; rewrite Hr|].
    rewrite (redo_nonempty _ _ _ _ _ _ Hr). simpl. rewrite length_app in Hok. simpl in Hok.
    rewrite length_trim_front, !length_app. simpl. lia.
Qed.

(** A redo right after an undo gives back the state that was current
    before the undo, and the stacks return to what they were with the undone
    checkpoint re-created from the state the caller restored. *)
Theorem redo_inverts_undo id n ms id' n' ms' m cp m1 :
  manager_ok m → undo id n ms m = (m1, Some cp) →
  ∃ m2, redo id' n' ms' m1 = (m2, Some (checkpoint_new id n ms (turn_label n))) ∧
    redo_stack m2 = redo_stack m ∧
    undo_stack m2 =
      take (undo_count m - 1) (undo_stack m) ++ [checkpoint_new id' n' ms' (turn_label n')] ∧
    (cp_id cp = id' → cp_turn_number cp = n' → cp_messages cp = ms' →
     cp_description cp = turn_label n' → m2 = m).
Proof.
  unfold manager_ok, undo_count. intros Hok Hu.
  destruct (undo_stack m) as [|cp0 stack _] eqn:Hs using rev_ind;
    [unfold undo in Hu; rewrite Hs in Hu; done|].
  rewrite (undo_nonempty _ _ _ _ _ _ Hs) in Hu. injection Hu as <- <-.
  rewrite length_app in *. simpl in *.
  eexists. split; [by apply redo_nonempty|]. simpl.
  rewrite trim_front_id by (rewrite length_app; simpl; lia).
  replace (length stack + 1 - 1) with (length stack) by lia.
  split; [done|]. split; [by rewrite take_app_length|].
  intros Hid Hn Hms Hd. destruct m as [us rs mx]. simpl in *. subst us.
  destruct cp0; simpl in *; subst. done.
Qed.

(** [restore] looks a checkpoint up by identifier: on a hit it returns the
    oldest entry with that identifier, keeps exactly the older checkpoints and
    drops the redo history; on a miss it changes nothing. *)
Theorem restore_by_id id m :
  (∃ pre cp post, undo_stack m = pre ++ cp :: post ∧ cp_id cp = id ∧
     Forall (fun c => cp_id c ≠ id) pre ∧
     restore id m = (mkManager pre [] (max_checkpoints m), Some cp)) ∨
  (Forall (fun c => cp_id c ≠ id) (undo_stack m) ∧ restore id m = (m, None)).
Proof.
  destruct (position (fun c => N.eqb (cp_id c) id) (undo_stack m)) as [pos|] eqn:Hp.
  - left. destruct (proj1 (position_Some _ _ _) Hp) as [(cp & Hl & Hid) Hmin].
    exists (take pos (undo_stack m)), cp, (drop (S pos) (undo_stack m)).
    split_and!; [by rewrite take_drop_middle|by apply N.eqb_eq| |by apply restore_spec].
    apply Forall_lookup. intros j c Hj. apply lookup_take_Some in Hj as [Hj Hlt].
    by apply N.eqb_neq, (Hmin j).
  - right. split; [|by unfold restore; rewrite Hp].
    apply Forall_lookup. intros j c Hj. apply N.eqb_neq.
    apply (position_None _ _ Hp j c Hj).
Qed.

(** ** Witnesses *)

Definition demo_manager : UndoManager :=
  checkpoint 2 2 [user "b"] "Before turn 2" (checkpoint 1 1 [user "a"] "Before turn 1" manager_new).

Lemma demo_manager_ok : manager_ok demo_manager.
Proof. vm_compute. lia. Qed.

Lemma undo_manager_bounded_witness :
  manager_ok manager_new ∧ rtc undo_step manager_new (checkpoint 1 1 [] "x" manager_new) ∧
  undo_count (checkpoint 1 1 [] "x" manager_new) + redo_count (checkpoint 1 1 [] "x" manager_new)
    ≤ 20.
Proof.
  assert (Hok : manager_ok manager_new) by (vm_compute; lia).
  assert (Hr : rtc undo_step manager_new (checkpoint 1 1 [] "x" manager_new)).
  { apply rtc_once, us_checkpoint. }
  split; [exact Hok|]. split; [exact Hr|].
  exact (undo_manager_bounded _ manager_new Hok Hr).
Defined.

Lemma undo_redo_count_constant_witness :
  manager_ok demo_manager ∧
  undo_count (undo 9 3 [user "c"] demo_manager).1 +
    redo_count (undo 9 3 [user "c"] demo_manager).1 = 2.
Proof.
  split; [exact demo_manager_ok|].
  exact (proj1 (undo_redo_count_constant 9 3 [user "c"] demo_manager demo_manager_ok)).
Defined.

Lemma redo_inverts_undo_witness :
  ∃ m2, redo 8 2 [user "b"] (undo 9 3 [user "c"] demo_manager).1 =
        (m2, Some (checkpoint_new 9 3 [user "c"] (turn_label 3))).
Proof.
  destruct (redo_inverts_undo 9 3 [user "c"] 8 2 [user "b"] demo_manager
              (checkpoint_new 2 2 [user "b"] "Before turn 2")
              (undo 9 3 [user "c"] demo_manager).1 demo_manager_ok eq_refl) as (m2 & Hm2 & _).
  exists m2. exact Hm2.
Defined.
