(* ===== verification/Submission.v ===== *)
(** * Submissions: [src/agent/submission.rs]

    The inputs of the agent loop and the parser that turns a message into one.
    [str::to_lowercase]
    on non-ASCII text, [Uuid::parse_str] and the JSON deserialiser come from
    outside the repository and are parameters. *)

From Stdlib Require Import Ascii.
From S2P Require Import Prelude Text Provider.

Inductive Submission : Type :=
| UserInput (content : string)
| ExecApproval (request_id : Uuid) (approved always : bool)
| ApprovalResponse (approved always : bool)
| Interrupt
| Compact
| Undo
| Redo
| Resume (checkpoint_id : Uuid)
| Clear
| SwitchThread (thread_id : Uuid)
| NewThread
| Heartbeat
| Summarize
| Suggest
| JobStatus (job_id : option string)
| JobCancel (job_id : string)
| Quit
| SystemCommand (command : string) (args : list string).

Definition is_control (s : Submission) : bool :=
  match s with
  | Interrupt | Compact | Undo | Redo | Clear | NewThread | Heartbeat
  | Summarize | Suggest | JobStatus _ | JobCancel _ | SystemCommand _ _ => true
  | _ => false
  end.

Inductive SubmissionResult : Type :=
| Response (content : string)
| NeedApproval (request_id : Uuid) (tool_name description : string) (parameters : Json)
    (allow_always : bool)
| SubmissionOk (message : option string)
| SubmissionError (message : string)
| SubmissionInterrupted.

Definition ok_with_message (m : string) : SubmissionResult := SubmissionOk (Some m).

Definition submission_error (m : string) : SubmissionResult := SubmissionError m.

Definition pending (m : string) : SubmissionResult := SubmissionOk (Some m).

(** ** The parser *)

(** What the parser calls outside the repository.  [to_lowercase] is the
    identity on case-less text and lowers ASCII letters one by one on ASCII
    text. *)
Class ParserEnv := {
  to_lowercase : string -> string;
  parse_uuid : string -> option Uuid;
  parse_json_submission : string -> option Submission;
  to_lowercase_ascii : ∀ s, string_forallb is_ascii s = true →
    to_lowercase s = string_map ascii_lower s
}.

Definition system_command (cmd : string) (args : list string) : Submission :=
  SystemCommand cmd args.

Definition one_of (s : string) (l : list string) : bool := bool_decide (s ∈ l).

Definition command_args (trimmed : string) : list string := drop 1 (split_whitespace trimmed).

(** [o.or_else(..)] followed by the next test of the chain. *)
Definition or_else {A} (o : option A) (k : option A) : option A :=
  match o with Some a => Some a | None => k end.

Definition guard_cmd (b : bool) (s : Submission) : option Submission :=
  if b then Some s else None.

Section parser.
Context `{ParserEnv}.

(** Control commands, matched on the whole lowered text. *)
Definition parse_control (lower : string) : option Submission :=
  or_else (guard_cmd (one_of lower ["/undo"]) Undo) $
  or_else (guard_cmd (one_of lower ["/redo"]) Redo) $
  or_else (guard_cmd (one_of lower ["/interrupt"; "/stop"]) Interrupt) $
  or_else (guard_cmd (one_of lower ["/compact"]) Compact) $
  or_else (guard_cmd (one_of lower ["/clear"]) Clear) $
  or_else (guard_cmd (one_of lower ["/heartbeat"]) Heartbeat) $
  or_else (guard_cmd (one_of lower ["/summarize"; "/summary"]) Summarize) $
  or_else (guard_cmd (one_of lower ["/suggest"]) Suggest) $
  guard_cmd (one_of lower ["/thread new"; "/new"]) NewThread.

(** System commands; arguments are taken from the text as typed. *)
Definition parse_system (trimmed lower : string) : option Submission :=
  or_else (guard_cmd (one_of lower ["/help"; "/?"]) (system_command "help" [])) $
  or_else (guard_cmd (one_of lower ["/version"]) (system_command "version" [])) $
  or_else (guard_cmd (one_of lower ["/tools"]) (system_command "tools" [])) $
  or_else (guard_cmd (one_of lower ["/skills"]) (system_command "skills" [])) $
  or_else (guard_cmd (starts_with "/skills " lower)
             (system_command "skills" (command_args trimmed))) $
  or_else (guard_cmd (one_of lower ["/ping"]) (system_command "ping" [])) $
  or_else (guard_cmd (one_of lower ["/debug"]) (system_command "debug" [])) $
  or_else (guard_cmd (one_of lower ["/reasoning"] || starts_with "/reasoning " lower)
             (system_command "reasoning" (command_args trimmed))) $
  or_else (guard_cmd (one_of lower ["/restart"]) (system_command "restart" [])) $
  or_else (guard_cmd (starts_with "/model" lower)
             (system_command "model" (command_args trimmed))) $
  guard_cmd (one_of lower ["/quit"; "/exit"; "/shutdown"]) Quit.

(** An identifier argument, trimmed and not empty. *)
Definition id_argument (rest : string) : option string :=
  let id := trim rest in if decide (id = "") then None else Some id.

Definition parse_job (lower : string) : option Submission :=
  or_else (guard_cmd (one_of lower ["/status"; "/progress"]) (JobStatus None)) $
  or_else ((fun id => JobStatus (Some id)) <$>
             (or_else (strip_prefix "/status " lower) (strip_prefix "/progress " lower)
                ≫= id_argument)) $
  or_else (guard_cmd (one_of lower ["/list"]) (JobStatus None)) $
  JobCancel <$> (strip_prefix "/cancel " lower ≫= id_argument).

Definition parse_thread (lower : string) : option Submission :=
  or_else (strip_prefix "/thread " lower ≫= fun rest =>
             let rest := trim rest in
             if decide (rest = "new") then None else SwitchThread <$> parse_uuid rest) $
  strip_prefix "/resume " lower ≫= fun rest => Resume <$> parse_uuid (trim rest).

Definition parse_json_approval (trimmed : string) : option Submission :=
  if starts_with "{" trimmed then
    match parse_json_submission trimmed with
    | Some (ExecApproval r a al) => Some (ExecApproval r a al)
    | _ => None
    end
  else None.

Definition yes_words : list string := ["yes"; "y"; "approve"; "ok"; "/approve"; "/yes"; "/y"].
Definition always_words : list string :=
  ["always"; "a"; "yes always"; "approve always"; "/always"; "/a"].
Definition no_words : list string :=
  ["no"; "n"; "deny"; "reject"; "cancel"; "/deny"; "/no"; "/n"].

Definition parse_approval (lower : string) : option Submission :=
  or_else (guard_cmd (one_of lower yes_words) (ApprovalResponse true false)) $
  or_else (guard_cmd (one_of lower always_words) (ApprovalResponse true true)) $
  guard_cmd (one_of lower no_words) (ApprovalResponse false false).

Definition parse (content : string) : Submission :=
  let trimmed := trim content in
  let lower := to_lowercase trimmed in
  default (UserInput content) $
    or_else (parse_control lower) $
    or_else (parse_system trimmed lower) $
    or_else (parse_job lower) $
    or_else (parse_thread lower) $
    or_else (parse_json_approval trimmed) $
    parse_approval lower.
End parser.

(** ** Lemmas *)

Section parser_lemmas.
Context `{ParserEnv}.

Lemma or_else_Some {A} (P : A -> Prop) o k :
  (∀ a, o = Some a → P a) → (∀ a, k = Some a → P a) → ∀ a, or_else o k = Some a → P a.
Proof. destruct o; simpl; eauto. Qed.

Lemma guard_cmd_Some (P : Submission -> Prop) b s :
  (b = true → P s) → ∀ a, guard_cmd b s = Some a → P a.
Proof. destruct b; simpl; [|done]. intros HP a [= <-]. auto. Qed.

(** Decompose a chain of tests into its branches. *)
Ltac chain :=
  repeat first [apply or_else_Some | apply guard_cmd_Some].

(** The submissions that the command parsers produce. *)
Definition is_command (s : Submission) : Prop :=
  match s with
  | UserInput _ | ExecApproval _ _ _ | ApprovalResponse _ _ => False
  | _ => True
  end.

Lemma parse_control_command lower s : parse_control lower = Some s → is_command s.
Proof. revert s. unfold parse_control. chain; done. Qed.

Lemma parse_system_command trimmed lower s : parse_system trimmed lower = Some s → is_command s.
Proof. revert s. unfold parse_system. chain; done. Qed.

Lemma parse_job_command lower s : parse_job lower = Some s → is_command s.
Proof.
  revert s. unfold parse_job. chain; try done;
    intros s (x & _ & ->)%fmap_Some; done.
Qed.

Lemma parse_thread_command lower s : parse_thread lower = Some s → is_command s.
Proof.
  revert s. unfold parse_thread. chain; intros s (x & _ & Hx)%bind_Some.
  - case_decide; [done|]. by apply fmap_Some in Hx as (u & _ & ->).
  - by apply fmap_Some in Hx as (u & _ & ->).
Qed.

Lemma parse_approval_Some lower s :
  parse_approval lower = Some s →
  ∃ a al, s = ApprovalResponse a al ∧
    lower ∈ (if a then if al then always_words else yes_words else no_words) ∧
    (a = false → al = false).
Proof.
  revert s. unfold parse_approval.
  chain; intros Hb%bool_decide_eq_true; eauto 6.
Qed.

Lemma parse_json_approval_Some trimmed s :
  parse_json_approval trimmed = Some s →
  starts_with "{" trimmed = true ∧ parse_json_submission trimmed = Some s ∧
  ∃ r a al, s = ExecApproval r a al.
Proof.
  unfold parse_json_approval. destruct (starts_with "{" trimmed); [|done].
  destruct (parse_json_submission trimmed) as [[]|]; naive_solver.
Qed.

(** Where the result of [parse] comes from. *)
Lemma parse_origin content :
  (parse content = UserInput content) ∨
  is_command (parse content) ∨
  parse_json_approval (trim content) = Some (parse content) ∨
  parse_approval (to_lowercase (trim content)) = Some (parse content).
Proof.
  unfold parse. cbn zeta. set (tr := trim content). set (lo := to_lowercase tr).
  destruct (parse_control lo) eqn:E1; simpl; [right; left; by eapply parse_control_command|].
  destruct (parse_system tr lo) eqn:E2; simpl; [right; left; by eapply parse_system_command|].
  destruct (parse_job lo) eqn:E3; simpl; [right; left; by eapply parse_job_command|].
  destruct (parse_thread lo) eqn:E4; simpl; [right; left; by eapply parse_thread_command|].
  destruct (parse_json_approval tr) eqn:E5; simpl; [by right; right; left|].
  destruct (parse_approval lo) eqn:E6; simpl; [by right; right; right|by left].
Qed.

(** A text that does not begin with a slash matches no literal that does. *)
Definition slash : ascii := "/"%char.

Lemma starts_with_slash c r : starts_with "/" (String c r) = bool_decide (c = slash).
Proof.
  unfold starts_with, slash. cbn [String.prefix]. destruct (ascii_dec "/" c) as [<-|Hne].
  - by destruct r.
  - symmetry. apply bool_decide_eq_false. congruence.
Qed.

Lemma no_slash_strip p lower :
  starts_with "/" lower = false → strip_prefix (String slash p) lower = None.
Proof.
  destruct lower as [|c r]; [done|]. rewrite starts_with_slash. intros Hc%bool_decide_eq_false.
  cbn [strip_prefix]. destruct (ascii_dec slash c); [congruence|done].
Qed.

Lemma no_slash_starts p lower :
  starts_with "/" lower = false → starts_with (String slash p) lower = false.
Proof.
  destruct lower as [|c r]; [done|]. rewrite starts_with_slash. intros Hc%bool_decide_eq_false.
  unfold starts_with. cbn [String.prefix]. destruct (ascii_dec slash c); [congruence|done].
Qed.

Lemma no_slash_one_of lower l :
  starts_with "/" lower = false → forallb (starts_with "/") l = true → one_of lower l = false.
Proof.
  intros Hs Hl. apply bool_decide_eq_false. intros Hin%list_elem_of_In.
  pose proof (proj1 (forallb_forall _ _) Hl _ Hin). congruence.
Qed.

Lemma no_slash_commands trimmed lower :
  starts_with "/" lower = false →
  parse_control lower = None ∧ parse_system trimmed lower = None ∧
  parse_job lower = None ∧ parse_thread lower = None.
Proof.
  intros Hs. unfold parse_control, parse_system, parse_job, parse_thread.
  rewrite !(no_slash_one_of lower) by done.
  rewrite !(no_slash_strip _ lower), !(no_slash_starts _ lower) by done. done.
Qed.

(** ** Theorems *)

(** Text reaches the model verbatim: when the parser answers with user
    input, its content is the message exactly as received. *)
Theorem user_input_verbatim content c : parse content = UserInput c → c = content.
Proof.
  intros Hp. destruct (parse_origin content) as [Hu|[Hc|[Hj|Ha]]].
  - congruence.
  - by rewrite Hp in Hc.
  - rewrite Hp in Hj. apply parse_json_approval_Some in Hj as (_ & _ & ? & ? & ? & [=]).
  - rewrite Hp in Ha. apply parse_approval_Some in Ha as (? & ? & [=] & _).
Qed.

(** Approvals cannot be forged by free text: a simple approval or denial
    is only produced by one of the listed words, an approval with an explicit
    request only by a JSON object that deserialises to it. *)
Theorem approvals_only_from_words content :
  (∀ a al, parse content = ApprovalResponse a al →
     to_lowercase (trim content) ∈
       (if a then if al then always_words else yes_words else no_words) ∧
     (a = false → al = false)) ∧
  (∀ r a al, parse content = ExecApproval r a al →
     starts_with "{" (trim content) = true ∧
     parse_json_submission (trim content) = Some (ExecApproval r a al)).
Proof.
  destruct (parse_origin content) as [Hu|[Hc|[Hj|Ha]]].
  - split; congruence.
  - split; intros; rewrite H0 in Hc; done.
  - apply parse_json_approval_Some in Hj as (Hb & Hj & r0 & a0 & al0 & He).
    split; [congruence|]. intros r a al Hp. split; [done|]. congruence.
  - apply parse_approval_Some in Ha as (a0 & al0 & He & Hin & Hal).
    split; [|congruence]. intros a al Hp. rewrite He in Hp. by simplify_eq.
Qed.

(** Ordinary text is never taken for a command: without a leading slash,
    a leading brace or an approval word, the message is user input. *)
Theorem plain_text_is_user_input content :
  let lower := to_lowercase (trim content) in
  starts_with "/" lower = false → starts_with "{" (trim content) = false →
  lower ∉ yes_words ++ always_words ++ no_words →
  parse content = UserInput content.
Proof.
  cbn zeta. intros Hs Hb Hw. unfold parse. cbn zeta.
  destruct (no_slash_commands (trim content) _ Hs) as (-> & -> & -> & ->). simpl.
  unfold parse_json_approval. rewrite Hb. simpl.
  unfold parse_approval, one_of. rewrite !bool_decide_eq_false_2 by set_solver. done.
Qed.
End parser_lemmas.

(** ** Witnesses *)

(** A parser environment: ASCII lowering, no identifiers, no JSON. *)
#[export] Instance demo_parser_env : ParserEnv := {|
  to_lowercase := string_map ascii_lower;
  parse_uuid := fun _ => None;
  parse_json_submission := fun _ => None;
  to_lowercase_ascii := fun s _ => eq_refl
|}.

Example parse_examples :
  parse "  /UNDO " = Undo ∧
  parse "/Skills search Foo" = SystemCommand "skills" ["search"; "Foo"] ∧
  parse "/status  ABC" = JobStatus (Some "abc") ∧
  parse " Yes " = ApprovalResponse true false ∧
  parse "yes please" = UserInput "yes please".
Proof. vm_compute. done. Qed.

Lemma user_input_verbatim_witness : parse " hello " = UserInput " hello " ∧ " hello " = " hello ".
Proof.
  split; [vm_compute; reflexivity|].
  apply (user_input_verbatim " hello " " hello "). vm_compute. reflexivity.
Defined.

Lemma plain_text_is_user_input_witness : parse "what is /undo?" = UserInput "what is /undo?".
Proof.
  apply plain_text_is_user_input; [reflexivity|reflexivity|].
  apply (bool_decide_unpack _). vm_compute. exact I.
Defined.
