(* ===== verification/ThreadOps.v ===== *)
(** * Thread operations: the undo handlers of [src/agent/thread_ops.rs]

    The control commands that combine a thread with its undo manager:
    checkpointing before a turn, undo, redo, resume, interrupt and clear.  A
    handler runs under the session lock and the manager lock, so it is one
    function on both; [get_undo_manager] of [src/agent/session_manager.rs]
    creates a missing manager. *)

From stdpp Require Import pretty.
From S2P Require Import Prelude JobState Provider Session Undo Submission.

Record AgentState : Type := mkAgent {
  session : Session;
  undo_managers : gmap Uuid UndoManager
}.

(** The manager of a thread and the table with it. *)
Definition get_undo_manager (tid : Uuid) (ms : gmap Uuid UndoManager)
    : UndoManager * gmap Uuid UndoManager :=
  match ms !! tid with
  | Some m => (m, ms)
  | None => (manager_new, <[ tid := manager_new ]> ms)
  end.

(** [*thread = th] and [*mgr = m] for the thread and manager of [tid]. *)
Definition put_thread (tid : Uuid) (th : Thread) (s : Session) : Session :=
  session_with s (active_thread_id s) (<[ tid := th ]> (threads s)) (last_active_at s).

Definition put (tid : Uuid) (th : Thread) (m : UndoManager) (a : AgentState) : AgentState :=
  mkAgent (put_thread tid th (session a)) (<[ tid := m ]> (undo_managers a)).

Section handlers.
Context (json_to_string : Json -> string).

(** The checkpoint taken before a turn starts. *)
Definition checkpoint_before_turn (cp : Uuid) (tid : Uuid) (a : AgentState)
    : AgentState * Result JobError unit :=
  let '(mgr, mgrs) := get_undo_manager tid (undo_managers a) in
  let a := mkAgent (session a) mgrs in
  match threads (session a) !! tid with
  | None => (a, Err (NotFound tid))
  | Some th =>
      let n := display_turn_number th in
      let mgr' := checkpoint cp n (messages json_to_string th)
                    ("Before turn " +:+ pretty n) mgr in
      (mkAgent (session a) (<[ tid := mgr' ]> mgrs), Ok ())
  end.

Definition process_undo (clk : Clock) (cp : Uuid) (tid : Uuid) (a : AgentState)
    : AgentState * Result JobError SubmissionResult :=
  let '(mgr, mgrs) := get_undo_manager tid (undo_managers a) in
  let a := mkAgent (session a) mgrs in
  if negb (can_undo mgr) then (a, Ok (ok_with_message "Nothing to undo.")) else
  match threads (session a) !! tid with
  | None => (a, Err (NotFound tid))
  | Some th =>
      match undo cp (display_turn_number th) (messages json_to_string th) mgr with
      | (mgr', Some c) =>
          (put tid (restore_from_messages clk (cp_messages c) th) mgr' a,
           Ok (ok_with_message ("Undone to turn " +:+ pretty (cp_turn_number c) +:+ ". " +:+
                                pretty (undo_count mgr') +:+ " undo(s) remaining.")))
      | (mgr', None) =>
          (put tid th mgr' a, Ok (submission_error "Undo failed."))
      end
  end.

Definition process_redo (clk : Clock) (cp : Uuid) (tid : Uuid) (a : AgentState)
    : AgentState * Result JobError SubmissionResult :=
  let '(mgr, mgrs) := get_undo_manager tid (undo_managers a) in
  let a := mkAgent (session a) mgrs in
  if negb (can_redo mgr) then (a, Ok (ok_with_message "Nothing to redo.")) else
  match threads (session a) !! tid with
  | None => (a, Err (NotFound tid))
  | Some th =>
      match redo cp (display_turn_number th) (messages json_to_string th) mgr with
      | (mgr', Some c) =>
          (put tid (restore_from_messages clk (cp_messages c) th) mgr' a,
           Ok (ok_with_message ("Redone to turn " +:+ pretty (cp_turn_number c) +:+ ".")))
      | (mgr', None) =>
          (put tid th mgr' a, Ok (submission_error "Redo failed."))
      end
  end.

Definition process_interrupt (clk : Clock) (tid : Uuid) (a : AgentState)
    : AgentState * Result JobError SubmissionResult :=
  match threads (session a) !! tid with
  | None => (a, Err (NotFound tid))
  | Some th =>
      match thread_state th with
      | ThreadState.Processing | ThreadState.AwaitingApproval =>
          (mkAgent (put_thread tid (interrupt clk th) (session a)) (undo_managers a),
           Ok (ok_with_message "Interrupted."))
      | _ => (a, Ok (ok_with_message "Nothing to interrupt."))
      end
  end.

Definition process_clear (tid : Uuid) (a : AgentState)
    : AgentState * Result JobError SubmissionResult :=
  match threads (session a) !! tid with
  | None => (a, Err (NotFound tid))
  | Some th =>
      let th' := thread_with th ThreadState.Idle [] (updated_at th) (pending_approval th)
                   (pending_auth th) [] in
      let a := mkAgent (put_thread tid th' (session a)) (undo_managers a) in
      let '(mgr, mgrs) := get_undo_manager tid (undo_managers a) in
      (mkAgent (session a) (<[ tid := clear mgr ]> mgrs), Ok (ok_with_message "Thread cleared."))
  end.

Definition process_resume (clk : Clock) (tid cp : Uuid) (a : AgentState)
    : AgentState * Result JobError SubmissionResult :=
  let '(mgr, mgrs) := get_undo_manager tid (undo_managers a) in
  match restore cp mgr with
  | (mgr', Some c) =>
      let a := mkAgent (session a) (<[ tid := mgr' ]> mgrs) in
      match threads (session a) !! tid with
      | None => (a, Err (NotFound tid))
      | Some th =>
          (mkAgent (put_thread tid (restore_from_messages clk (cp_messages c) th) (session a))
             (undo_managers a),
           Ok (ok_with_message ("Resumed from checkpoint: " +:+ cp_description c)))
      end
  | (mgr', None) =>
      (mkAgent (session a) (<[ tid := mgr' ]> mgrs), Ok (submission_error "Checkpoint not found."))
  end.

(** What the model sees of thread [tid]. *)
Definition view (tid : Uuid) (a : AgentState) : option (list ChatMessage) :=
  messages json_to_string <$> threads (session a) !! tid.

(** ** Lemmas *)

Lemma undo_on th m clk cp tid a :
  undo_managers a !! tid = Some m → threads (session a) !! tid = Some th →
  can_undo m = true →
  ∃ c m', undo cp (display_turn_number th) (messages json_to_string th) m = (m', Some c) ∧
    (process_undo clk cp tid a).1 = put tid (restore_from_messages clk (cp_messages c) th) m' a.
Proof.
  intros Hm Hth Hcan. unfold process_undo, get_undo_manager. rewrite Hm, Hcan. simpl.
  rewrite Hth. unfold can_undo in Hcan.
  destruct (undo_stack m) as [|x st _] eqn:Hu using rev_ind; [done|].
  rewrite (undo_nonempty _ _ _ _ _ _ Hu). eexists _, _. split; [done|]. by destruct a.
Qed.

Lemma view_put tid th m a : view tid (put tid th m a) = Some (messages json_to_string th).
Proof. unfold view, put, put_thread. simpl. by rewrite lookup_insert_eq. Qed.

(** ** Theorems *)

(** Undo followed by redo brings back exactly what the model saw, images
    aside, whenever the tool results of the thread fit in the preview limit. *)
Theorem undo_then_redo_restores_view clk clk' cp cp' tid a th m :
  undo_managers a !! tid = Some m → can_undo m = true →
  threads (session a) !! tid = Some th → short_results json_to_string (turns th) →
  let a1 := (process_undo clk cp tid a).1 in
  let a2 := (process_redo clk' cp' tid a1).1 in
  view tid a2 = Some (strip_images <$> messages json_to_string th).
Proof.
  intros Hm Hcan Hth Hs. cbn zeta.
  destruct (undo_on th m clk cp tid a Hm Hth Hcan) as (c & m' & Hu & ->).
  set (th1 := restore_from_messages clk (cp_messages c) th).
  destruct (redo_inverts cp _ _ cp' (display_turn_number th1) (messages json_to_string th1) m c m'
              Hu) as (m2 & Hr & Hne).
  unfold process_redo, get_undo_manager. simpl. rewrite lookup_insert_eq.
  unfold can_redo. rewrite bool_decide_eq_false_2 by done. simpl. rewrite lookup_insert_eq.
  fold th1. rewrite Hr. cbn [fst]. rewrite view_put. f_equal. simpl cp_messages.
  by apply messages_restore_roundtrip.
Qed.

(** A handler that fails because the thread does not exist leaves every
    thread and every existing undo history as it was, for undo, redo,
    interrupt, clear and the checkpoint before a turn. *)
Theorem missing_thread_keeps_state clk cp tid a :
  threads (session a) !! tid = None →
  Forall (fun a' => session a' = session a ∧
                    ∀ i m, undo_managers a !! i = Some m → undo_managers a' !! i = Some m)
    [(checkpoint_before_turn cp tid a).1; (process_undo clk cp tid a).1;
     (process_redo clk cp tid a).1; (process_interrupt clk tid a).1; (process_clear tid a).1].
Proof.
  intros Hth.
  assert (Hget : ∀ i m, undo_managers a !! i = Some m →
                 (get_undo_manager tid (undo_managers a)).2 !! i = Some m).
  { intros i m Hi. unfold get_undo_manager. destruct (undo_managers a !! tid) eqn:E; simpl; [done|].
    rewrite lookup_insert_ne by congruence. done. }
  unfold checkpoint_before_turn, process_undo, process_redo, process_interrupt, process_clear.
  rewrite Hth. destruct (get_undo_manager tid (undo_managers a)) as [m ms]. simpl in *.
  rewrite Hth. repeat apply Forall_cons_2; try apply Forall_nil_2;
    repeat case_match; simpl; auto.
Qed.

(** Clearing a thread empties its turns, its queue and its undo history
    and makes it idle; a later undo, redo or resume then changes nothing the
    model sees. *)
Theorem clear_is_final clk clk' cp cp' tid a th :
  threads (session a) !! tid = Some th →
  let a1 := (process_clear tid a).1 in
  view tid a1 = Some [] ∧
  view tid (process_undo clk cp tid a1).1 = Some [] ∧
  view tid (process_redo clk cp tid a1).1 = Some [] ∧
  view tid (process_resume clk' tid cp' a1).1 = Some [].
Proof.
  intros Hth. cbn zeta. unfold process_clear. rewrite Hth. simpl.
  destruct (get_undo_manager tid (undo_managers a)) as [m ms]. simpl.
  unfold view, process_undo, process_redo, process_resume, get_undo_manager. simpl.
  rewrite !lookup_insert_eq. simpl. rewrite ?lookup_insert_eq. done.
Qed.
End handlers.

(** ** Witnesses *)

Definition demo_agent : AgentState :=
  mkAgent (session_with (session_new 0 2 "u") (Some 1%N) {[ 1%N := demo_thread ]} 0)
    {[ 1%N := demo_manager ]}.

Lemma undo_then_redo_restores_view_witness :
  short_results demo_printer (turns demo_thread) ∧
  view demo_printer 1
    (process_redo demo_printer (frozen 2) 8 1 (process_undo demo_printer (frozen 1) 9 1 demo_agent).1).1
  = Some (strip_images <$> messages demo_printer demo_thread).
Proof.
  assert (Hs : short_results demo_printer (turns demo_thread)).
  { repeat constructor; vm_compute; lia. }
  split; [exact Hs|].
  exact (undo_then_redo_restores_view demo_printer (frozen 1) (frozen 2) 9 8 1 demo_agent
           demo_thread demo_manager eq_refl eq_refl eq_refl Hs).
Defined.

Lemma missing_thread_keeps_state_witness :
  threads (session demo_agent) !! 5%N = None ∧
  session (process_undo demo_printer (frozen 1) 9 5 demo_agent).1 = session demo_agent.
Proof.
  split; [reflexivity|].
  pose proof (missing_thread_keeps_state demo_printer (frozen 1) 9 5 demo_agent eq_refl) as Hf.
  apply Forall_cons in Hf as [_ Hf]. apply Forall_cons in Hf as [Hf _]. exact (proj1 Hf).
Defined.

Lemma clear_is_final_witness :
  view demo_printer 1 (process_clear 1 demo_agent).1 = Some [].
Proof.
  exact (proj1 (clear_is_final demo_printer (frozen 1) (frozen 2) 9 8 1 demo_agent demo_thread eq_refl)).
Defined.
