(* ===== verification/ReplyText.v ===== *)
(** * ReplyText: reading and cleaning the text of a model

    The text functions of [src/llm/reasoning.rs]: detection of announced but
    missing tool calls, code regions, truncation at unclosed tool tags,
    recovery of tool calls written into the text, and the cleaning pipeline
    that decides what a user gets to see; and [llm_signals_completion] and
    [floor_char_boundary] of [src/util.rs].  The regex crate is the class
    [RegexEngine], called with the patterns of the source; serde's parser and
    Unicode lower-casing are parameters. *)

From Stdlib Require Import Ascii.
From S2P Require Import Prelude Text TextSearch Provider.

(** ** Constants *)

Definition SILENT_REPLY_TOKEN : string := "NO_REPLY".

Definition TOOL_INTENT_NUDGE : string := cat [
  "You said you would perform an action, but you did not include any tool calls."; nl_str;
  "Do NOT describe what you intend to do — actually call the tool now."; nl_str;
  "Use the tool_calls mechanism to invoke the appropriate tool."].

Definition TRUNCATED_TOOL_CALL_NOTICE : string := cat [
  "Your previous response was truncated while generating tool call parameters. ";
  "The tool calls were discarded. Please try a different approach — ";
  "summarize or transform the data instead of echoing it verbatim in a tool call."].

Definition RECOVERED_TOOL_CALL_SEED : Z := 99.

(** ** Announced tool calls *)

(** Remove double-quoted string literals; [prev] is the previous character.
    The tests are on ASCII characters, so that bytes can stand for characters. *)
Fixpoint strip_quotes (in_quote : bool) (prev : ascii) (line : string) : string :=
  match line with
  | EmptyString => ""
  | String ch r =>
      if bool_decide (ch = dquote) && negb (bool_decide (prev = "\"%char))
      then strip_quotes (negb in_quote) prev r
      else if in_quote then strip_quotes in_quote ch r
      else String ch (strip_quotes in_quote ch r)
  end.

Definition strip_quoted_strings (line : string) : string :=
  strip_quotes false (ascii_of_nat 0) line.

Fixpoint strip_code_lines (in_fence : bool) (ls : list string) : string :=
  match ls with
  | [] => ""
  | line :: ls =>
      if starts_with "```" (trim_start line) then strip_code_lines (negb in_fence) ls
      else if in_fence then strip_code_lines in_fence ls
      else if starts_with "    " line || starts_with (String tab "") line
      then strip_code_lines in_fence ls
      else strip_quoted_strings line +:+ nl_str +:+ strip_code_lines in_fence ls
  end.

Definition strip_code_blocks (text : string) : string := strip_code_lines false (lines text).

Definition EXCLUSIONS : list string :=
  ["let me explain"; "let me know"; "let me think"; "let me summarize"; "let me clarify";
   "let me describe"; "let me help"; "let me understand"; "let me break"; "let me outline";
   "let me walk you"; "let me provide"; "let me suggest"; "let me elaborate";
   "let me start by"].

Definition PREFIXES : list string := ["let me "; "i'll "; "i will "; "i'm going to "].

Definition ACTION_VERBS : list string :=
  ["search"; "look up"; "check"; "fetch"; "find"; "read the"; "write the"; "create";
   "run the"; "execute"; "query"; "retrieve"; "add it"; "add the"; "add this"; "add that";
   "update the"; "delete"; "remove the"; "look into"].

Definition intent_after (after : string) : bool :=
  existsb (fun verb => starts_with verb after || contains (" " +:+ verb) after) ACTION_VERBS.

Definition llm_signals_tool_intent (to_lowercase : string -> string) (response : string) : bool :=
  let lower := to_lowercase (strip_code_blocks response) in
  if existsb (fun e => contains e lower) EXCLUSIONS then false
  else existsb (fun prefix =>
         existsb (fun i => intent_after (str_from (i + String.length prefix) lower))
           (match_indices prefix lower)) PREFIXES.

(** ** Completion signals and silent replies *)

Definition POSITIVE_PHRASES : list string :=
  ["job is complete"; "job is done"; "job is finished"; "task is complete"; "task is done";
   "task is finished"; "work is complete"; "work is done"; "work is finished";
   "successfully completed"; "have completed the job"; "have completed the task";
   "have finished the job"; "have finished the task"; "all steps are complete";
   "all steps are done"; "i have completed"; "i've completed"; "all done";
   "all tasks complete"].

Definition NEGATIVE_PHRASES : list string :=
  ["not complete"; "not done"; "not finished"; "incomplete"; "unfinished"; "isn't done";
   "isn't complete"; "isn't finished"; "not yet done"; "not yet complete";
   "not yet finished"].

Definition llm_signals_completion (to_lowercase : string -> string) (response : string) : bool :=
  let lower := to_lowercase response in
  if existsb (fun p => contains p lower) NEGATIVE_PHRASES then false
  else existsb (fun p => contains p lower) POSITIVE_PHRASES.

Definition is_ascii_punctuation (c : ascii) : bool :=
  let n := nat_of_ascii c in
  ((33 <=? n) && (n <=? 47) || (58 <=? n) && (n <=? 64) ||
   (91 <=? n) && (n <=? 96) || (123 <=? n) && (n <=? 126))%nat.

(** [s.chars().all(|c| c.is_whitespace() || c.is_ascii_punctuation())] *)
Fixpoint all_space_or_punct (fuel : nat) (s : string) : bool :=
  match fuel with
  | O => str_is_empty s
  | S fuel =>
      match strip_first whitespace s with
      | Some s' => all_space_or_punct fuel s'
      | None => match s with
                | EmptyString => true
                | String c r => is_ascii_punctuation c && all_space_or_punct fuel r
                end
      end
  end.

Definition is_silent_reply (text : string) : bool :=
  let trimmed := trim text in
  bool_decide (trimmed = SILENT_REPLY_TOKEN) ||
  starts_with SILENT_REPLY_TOKEN trimmed &&
  (String.length trimmed <=? String.length SILENT_REPLY_TOKEN + 4)%nat &&
  all_space_or_punct (String.length trimmed) (str_from (String.length SILENT_REPLY_TOKEN) trimmed).

Definition floor_char_boundary (s : string) (pos : nat) : nat :=
  if decide (String.length s ≤ pos) then String.length s else char_floor s pos.

(** ** Code regions *)

Record CodeRegion : Type := mkRegion { cr_start : nat; cr_end : nat }.

Definition is_blank (c : ascii) : bool := bool_decide (c = " "%char) || bool_decide (c = tab).
Definition is_char (a c : ascii) : bool := bool_decide (c = a).
Definition backtick : ascii := "`"%char.

(** [text[i..].find('\n')], as the index after that newline. *)
Definition next_line (text : string) (i : nat) : option nat :=
  (fun n => i + n + 1) <$> str_find nl_str (str_from i text).

(** The search for the closing fence: the end of its line. *)
Fixpoint find_close (fuel : nat) (text : string) (fence_char : ascii) (fence_len i : nat)
    : option nat :=
  match fuel with
  | O => None
  | S fuel =>
      if decide (String.length text ≤ i) then None
      else
        let close_fence_start := skip_while is_blank text i in
        let after_fence := skip_while (is_char fence_char) text close_fence_start in
        let eol := skip_while is_blank text after_fence in
        if bool_decide (String.get close_fence_start text = Some fence_char) &&
           (fence_len <=? after_fence - close_fence_start)%nat &&
           (bool_decide (String.length text ≤ eol) || bool_decide (String.get eol text = Some nl))
        then Some (if decide (String.length text ≤ eol) then eol else eol + 1)
        else match next_line text i with
             | Some i' => find_close fuel text fence_char fence_len i'
             | None => None
             end
  end.

Fixpoint fence_regions (fuel : nat) (text : string) (i : nat) : list CodeRegion :=
  match fuel with
  | O => []
  | S fuel =>
      let skip_line j := match next_line text j with
                         | Some i' => fence_regions fuel text i'
                         | None => []
                         end in
      if decide (String.length text ≤ i) then []
      else if (0 <? i)%nat && negb (bool_decide (String.get (i - 1) text = Some nl)) then skip_line i
      else
        let line_start := i in
        let fence_start := skip_while is_blank text i in
        match String.get fence_start text with
        | Some fence_char =>
            if is_char "`"%char fence_char || is_char "~"%char fence_char then
              let after_fence := skip_while (is_char fence_char) text fence_start in
              let fence_len := after_fence - fence_start in
              if (fence_len <? 3)%nat then skip_line after_fence
              else match next_line text after_fence with
                   | None => [mkRegion line_start (String.length text)]
                   | Some content_start =>
                       match find_close (S (String.length text)) text fence_char fence_len
                               content_start with
                       | Some e => mkRegion line_start e :: fence_regions fuel text e
                       | None => [mkRegion line_start (String.length text)]
                       end
                   end
            else skip_line fence_start
        | None => skip_line fence_start
        end
  end.

Definition is_inside_code (pos : nat) (regions : list CodeRegion) : bool :=
  existsb (fun r => (cr_start r <=? pos) && (pos <? cr_end r))%nat regions.

Definition overlaps_code_region (s e : nat) (regions : list CodeRegion) : bool :=
  existsb (fun r => (s <? cr_end r) && (cr_start r <? e))%nat regions.

(** The search for a run of exactly [tick_len] backticks. *)
Fixpoint find_ticks (fuel : nat) (text : string) (tick_len k : nat) : option nat :=
  match fuel with
  | O => None
  | S fuel =>
      if decide (String.length text ≤ k) then None
      else if negb (bool_decide (String.get k text = Some backtick))
      then find_ticks fuel text tick_len (k + 1)
      else
        let e := skip_while (is_char backtick) text k in
        if bool_decide (e - k = tick_len) then Some e else find_ticks fuel text tick_len e
  end.

Fixpoint inline_regions (fuel : nat) (text : string) (regions : list CodeRegion) (j : nat)
    : list CodeRegion :=
  match fuel with
  | O => regions
  | S fuel =>
      if decide (String.length text ≤ j) then regions
      else if negb (bool_decide (String.get j text = Some backtick))
      then inline_regions fuel text regions (j + 1)
      else if is_inside_code j regions then inline_regions fuel text regions (j + 1)
      else
        let search_from := skip_while (is_char backtick) text j in
        match find_ticks (S (String.length text)) text (search_from - j) search_from with
        | Some k => inline_regions fuel text (regions ++ [mkRegion j k]) k
        | None => inline_regions fuel text regions search_from
        end
  end.

(** [regions.sort_by_key(|r| r.start)]: a stable sort. *)
Fixpoint insert_region (r : CodeRegion) (l : list CodeRegion) : list CodeRegion :=
  match l with
  | [] => [r]
  | x :: l' => if (cr_start x <=? cr_start r)%nat then x :: insert_region r l' else r :: l
  end.

Definition sort_regions (l : list CodeRegion) : list CodeRegion :=
  foldl (fun acc r => insert_region r acc) [] l.

(** Both loops advance, so that the length of the text bounds their number of
    rounds. *)
Definition find_code_regions (text : string) : list CodeRegion :=
  let n := S (String.length text) in
  sort_regions (inline_regions n text (fence_regions n text 0) 0).

(** ** Truncation at unclosed tool tags *)

Definition TOOL_TAGS : list string := ["tool_call"; "function_call"; "tool_calls"].

Definition TOOL_TAG_PATTERNS : list string :=
  ["<tool_call>"; "<tool_call "; "<function_call>"; "<function_call "; "<tool_calls>";
   "<tool_calls "; "<|tool_call|>"; "<|function_call|>"; "<|tool_calls|>"].

Definition strip_suffix (suf s : string) : option string :=
  if ends_with suf s then Some (str_to (String.length s - String.length suf) s) else None.

(** [s.trim_end_matches(c)] *)
Definition trim_end_matches (c : ascii) (s : string) : string :=
  let r := string_rev s "" in string_rev (str_from (span_len (is_char c) r) r) "".

Definition closing_tag_for (open_pattern : string) : option string :=
  match strip_prefix "<|" open_pattern ≫= strip_suffix "|>" with
  | Some name => Some (cat ["<|/"; name; "|>"])
  | None =>
      match strip_prefix "<" open_pattern with
      | Some rest => Some (cat ["</"; trim (trim_end_matches ">"%char rest); ">"])
      | None => None
      end
  end.

(** Whether a closing tag for [p] follows byte [after_open]. *)
Definition closed_after (lower p : string) (after_open : nat) : bool :=
  match closing_tag_for p with
  | Some close => contains close (str_from after_open lower)
  | None => false
  end.

Fixpoint first_unclosed (fuel : nat) (lower p : string) (regions : list CodeRegion)
    (search_from : nat) : option nat :=
  match fuel with
  | O => None
  | S fuel =>
      match str_find p (str_from search_from lower) with
      | None => None
      | Some offset =>
          let pos := search_from + offset in
          if is_inside_code pos regions then first_unclosed fuel lower p regions (pos + 1)
          else
            let after_open := pos + String.length p in
            if closed_after lower p after_open
            then first_unclosed fuel lower p regions after_open
            else Some pos
      end
  end.

(** [Iterator::min] *)
Fixpoint min_of (l : list nat) : option nat :=
  match l with
  | [] => None
  | x :: l => match min_of l with Some y => Some (min x y) | None => Some x end
  end.

Definition truncate_at_tool_tags (text : string) : string :=
  let code_regions := find_code_regions text in
  let lower := string_map ascii_lower text in
  match min_of (omap (fun p => first_unclosed (S (String.length lower)) lower p code_regions 0)
                  TOOL_TAG_PATTERNS) with
  | Some pos => str_to pos text
  | None => text
  end.

(** ** Stripping tool tags *)

Definition min_opt (a b : option nat) : option nat :=
  match a, b with
  | Some a, Some b => Some (min a b)
  | Some a, None => Some a
  | None, _ => b
  end.

(** The loop of [strip_xml_tag]; [result] is what was pushed so far.  The last
    argument of a [break] is what [remaining] holds then. *)
Fixpoint strip_xml_loop (fuel : nat) (open_exact open_prefix close : string)
    (result remaining : string) : string :=
  match fuel with
  | O => result +:+ remaining
  | S fuel =>
      match min_opt (str_find open_exact remaining) (str_find open_prefix remaining) with
      | None => result +:+ remaining
      | Some start =>
          let result := result +:+ str_to start remaining in
          match str_find ">" (str_from start remaining) with
          | None => result +:+ remaining
          | Some pos =>
              let open_end := start + pos + 1 in
              match str_find close (str_from open_end remaining) with
              | Some close_offset =>
                  strip_xml_loop fuel open_exact open_prefix close result
                    (str_from (open_end + close_offset + String.length close) remaining)
              | None => result
              end
          end
      end
  end.

Definition strip_xml_tag (text tag : string) : string :=
  strip_xml_loop (S (String.length text)) (cat ["<"; tag; ">"]) (cat ["<"; tag; " "])
    (cat ["</"; tag; ">"]) "" text.

Fixpoint strip_pipe_loop (fuel : nat) (open close : string) (result remaining : string)
    : string :=
  match fuel with
  | O => result +:+ remaining
  | S fuel =>
      match str_find open remaining with
      | None => result +:+ remaining
      | Some start =>
          let result := result +:+ str_to start remaining in
          match str_find close (str_from start remaining) with
          | Some close_offset =>
              strip_pipe_loop fuel open close result
                (str_from (start + close_offset + String.length close) remaining)
          | None => result
          end
      end
  end.

Definition strip_pipe_tag (text tag : string) : string :=
  strip_pipe_loop (S (String.length text)) (cat ["<|"; tag; "|>"]) (cat ["<|/"; tag; "|>"]) "" text.

Definition CALLED_TOOL : string := "[Called tool `".

Definition bracket_end (after : string) : option nat :=
  match str_find ("]" +:+ nl_str) after with
  | Some i => Some (i + 2)
  | None => (fun i => i + 1) <$> rfind_char "]"%char after
  end.

Fixpoint strip_bracket_loop (fuel : nat) (result remaining : string) : string :=
  match fuel with
  | O => result +:+ remaining
  | S fuel =>
      match str_find CALLED_TOOL remaining with
      | None => result +:+ remaining
      | Some start =>
          let result := result +:+ str_to start remaining in
          let after := str_from start remaining in
          match bracket_end after with
          | Some e => strip_bracket_loop fuel result (str_from e after)
          | None => result +:+ after
          end
      end
  end.

Definition strip_bracket_tool_calls (text : string) : string :=
  strip_bracket_loop (S (String.length text)) "" text.

Definition nl3 : string := String nl (String nl nl_str).
Definition nl2 : string := String nl nl_str.

(** [while result.contains("\n\n\n") { result = result.replace(…); }] *)
Fixpoint collapse_loop (fuel : nat) (result : string) : string :=
  match fuel with
  | O => result
  | S fuel => if contains nl3 result then collapse_loop fuel (str_replace nl3 nl2 result)
              else result
  end.

Definition collapse_newlines (text : string) : string :=
  trim (collapse_loop (String.length text) text).

(** ** The regex crate

    The engine is called with the pattern text of the source.  [regex_valid]
    says whether [Regex::new] accepts a pattern, [find_iter] gives the byte
    ranges of the successive matches, [capture1] group 1 of the first match. *)

Class RegexEngine := {
  regex_valid : string -> bool;
  is_match : string -> string -> bool;
  find_iter : string -> string -> list (nat * nat);
  capture1 : string -> string -> option string
}.

Definition REASONING_NAMES : string :=
  "think(?:ing)?|thought|thoughts|antthinking|reasoning|reflection|scratchpad|inner_monologue".
Definition QUICK_TAG_RE : string := cat ["(?i)<\s*/?\s*(?:"; REASONING_NAMES; "|final)\b"].
Definition THINKING_TAG_RE : string := cat ["(?i)<\s*(/?)\s*(?:"; REASONING_NAMES; ")\b[^<>]*>"].
Definition FINAL_TAG_RE : string := "(?i)<\s*(/?)\s*final\b[^<>]*>".
Definition PIPE_REASONING_TAG_RE : string := cat ["(?i)<\|(/?)\s*(?:"; REASONING_NAMES; ")\|>"].

Section cleaning.
  Context `{RegexEngine}.

(** [THINKING_TAG_RE.captures(&text[idx..]).and_then(|c| c.get(1)) == "/"] *)
Definition is_close_tag (re text : string) (idx : nat) : bool :=
  bool_decide (capture1 re (str_from idx text) = Some "/").

(** The loop shared by [strip_thinking_tags_regex] and
    [strip_pipe_reasoning_tags]: the text kept so far, the end of the last tag
    and whether it was an opening one. *)
Fixpoint strip_tags_loop (re text : string) (regions : list CodeRegion)
    (ms : list (nat * nat)) (result : string) (last_index : nat) (in_tag : bool)
    : string * nat * bool :=
  match ms with
  | [] => (result, last_index, in_tag)
  | (idx, e) :: ms =>
      if is_inside_code idx regions
      then strip_tags_loop re text regions ms result last_index in_tag
      else
        let is_close := is_close_tag re text idx in
        if negb in_tag
        then strip_tags_loop re text regions ms (result +:+ slice last_index idx text) e
               (negb is_close)
        else strip_tags_loop re text regions ms result e (negb is_close)
  end.

(** The loop of [extract_final_content]: the parts, the flags [in_final] and
    [found_any] and [last_index]. *)
Fixpoint final_loop (text : string) (regions : list CodeRegion) (ms : list (nat * nat))
    (parts : list string) (in_final : bool) (last_index : nat) (found_any : bool)
    : list string * bool * nat * bool :=
  match ms with
  | [] => (parts, in_final, last_index, found_any)
  | (idx, e) :: ms =>
      if is_inside_code idx regions
      then final_loop text regions ms parts in_final last_index found_any
      else
        let is_close := is_close_tag FINAL_TAG_RE text idx in
        if negb in_final && negb is_close
        then final_loop text regions ms parts true e true
        else if in_final && is_close
        then final_loop text regions ms (parts ++ [slice last_index idx text]) false e found_any
        else final_loop text regions ms parts in_final last_index found_any
  end.

Definition extract_final_content (text : string) (regions : list CodeRegion) : option string :=
  let '(parts, in_final, last_index, found_any) :=
    final_loop text regions (find_iter FINAL_TAG_RE text) [] false 0 false in
  if negb found_any then None
  else Some (cat (if in_final then parts ++ [str_from last_index text] else parts)).

Definition strip_thinking_tags_regex (text : string) (regions : list CodeRegion) : string :=
  let '(result, last_index, in_thinking) :=
    strip_tags_loop THINKING_TAG_RE text regions (find_iter THINKING_TAG_RE text) "" 0 false in
  if negb in_thinking then result +:+ str_from last_index text
  else
    let trailing := str_from last_index text in
    match extract_final_content trailing (find_code_regions trailing) with
    | Some final_content => result +:+ final_content
    | None => result
    end.

Definition strip_pipe_reasoning_tags (text : string) : string :=
  if negb (is_match PIPE_REASONING_TAG_RE text) then text
  else
    let '(result, last_index, in_tag) :=
      strip_tags_loop PIPE_REASONING_TAG_RE text (find_code_regions text)
        (find_iter PIPE_REASONING_TAG_RE text) "" 0 false in
    if negb in_tag then result +:+ str_from last_index text else result.

(** Steps 1 to 4 of the pipeline. *)
Definition strip_reasoning (text : string) : string :=
  if negb (is_match QUICK_TAG_RE text) then text
  else
    let after_thinking := strip_thinking_tags_regex text (find_code_regions text) in
    if is_match FINAL_TAG_RE after_thinking
    then default after_thinking
           (extract_final_content after_thinking (find_code_regions after_thinking))
    else after_thinking.

Definition clean_response (text : string) : string :=
  let result := strip_pipe_reasoning_tags (strip_reasoning text) in
  let result := foldl (fun r tag => strip_pipe_tag (strip_xml_tag r tag) tag) result TOOL_TAGS in
  collapse_newlines (strip_bracket_tool_calls result).

(** What every caller does with the text of a model. *)
Definition clean_reply (text : string) : string := clean_response (truncate_at_tool_tags text).

End cleaning.

(** ** Recovering tool calls from text *)

Definition line_bounds (text : string) (pos : nat) : nat * nat :=
  let safe := char_floor text (min pos (String.length text)) in
  (match rfind_char nl (str_to safe text) with Some idx => idx + 1 | None => 0 end,
   match str_find nl_str (str_from safe text) with
   | Some idx => safe + idx
   | None => String.length text
   end).

Definition is_recoverable_tool_call_segment (text : string) (s e : nat)
    (regions : list CodeRegion) : bool :=
  if overlaps_code_region s e regions then false
  else
    let '(first_line_start, first_line_end) := line_bounds text s in
    let first_line := slice first_line_start first_line_end text in
    if starts_with ">" (trim_start first_line) then false
    else
      let '(_, last_line_end) := line_bounds text (e - 1) in
      let first_line_prefix := slice first_line_start s text in
      let last_line_suffix := slice e last_line_end text in
      str_is_empty (trim first_line_prefix) && str_is_empty (trim last_line_suffix).

Section recovery.
  Variable json_from_str : string -> option Json.
  Variable tool_names : list string.

(** [value.get(key)] *)
Definition json_get (key : string) (v : Json) : option Json :=
  match v with
  | JObject l => (fun x => x.2.2) <$> list_find (fun kv => kv.1 = key) l
  | _ => None
  end.

Definition as_str (v : Json) : option string :=
  match v with JString s => Some s | _ => None end.

Definition recovered_call (n : nat) (nm : string) (arguments : Json) : ToolCall :=
  mkToolCall (generate_tool_call_id (Z.of_nat n) RECOVERED_TOOL_CALL_SEED) nm arguments None.

(** What one segment between tags adds to the calls. *)
Definition recover_inner (inner : string) (calls : list ToolCall) : list ToolCall :=
  if str_is_empty inner then calls
  else
    let from_json :=
      parsed ← json_from_str inner;
      nm ← json_get "name" parsed ≫= as_str;
      if bool_decide (nm ∈ tool_names)
      then Some (recovered_call (length calls) nm (default (JObject []) (json_get "arguments" parsed)))
      else None in
    match from_json with
    | Some call => calls ++ [call]
    | None => if bool_decide (trim inner ∈ tool_names)
              then calls ++ [recovered_call (length calls) (trim inner) (JObject [])]
              else calls
    end.

Fixpoint recover_tagged (fuel : nat) (content open close : string) (regions : list CodeRegion)
    (search_from : nat) (calls : list ToolCall) : list ToolCall :=
  match fuel with
  | O => calls
  | S fuel =>
      match str_find open (str_from search_from content) with
      | None => calls
      | Some offset =>
          let start := search_from + offset in
          let inner_start := start + String.length open in
          match str_find close (str_from inner_start content) with
          | None => calls
          | Some end_offset =>
              let e := inner_start + end_offset in
              let segment_end := e + String.length close in
              let calls' :=
                if is_recoverable_tool_call_segment content start segment_end regions
                then recover_inner (trim (slice inner_start e content)) calls
                else calls in
              recover_tagged fuel content open close regions segment_end calls'
          end
      end
  end.

Fixpoint recover_bracket (fuel : nat) (remaining : string) (calls : list ToolCall)
    : list ToolCall :=
  match fuel with
  | O => calls
  | S fuel =>
      match str_find CALLED_TOOL remaining with
      | None => calls
      | Some start =>
          let after_prefix := str_from (start + String.length CALLED_TOOL) remaining in
          match str_find "`" after_prefix with
          | None => calls
          | Some backtick_end =>
              let nm := str_to backtick_end after_prefix in
              let after_name := str_from (backtick_end + 1) after_prefix in
              if negb (bool_decide (nm ∈ tool_names)) then recover_bracket fuel after_name calls
              else
                let with_args :=
                  args_start ← strip_prefix " with arguments: " after_name;
                  bracket_end ← rfind_char "]"%char args_start;
                  Some (args_start, bracket_end) in
                match with_args with
                | Some (args_start, bracket_end) =>
                    let arguments :=
                      default (JObject []) (json_from_str (str_to bracket_end args_start)) in
                    recover_bracket fuel (str_from (bracket_end + 1) args_start)
                      (calls ++ [recovered_call (length calls) nm arguments])
                | None =>
                    recover_bracket fuel after_name
                      (calls ++ [recovered_call (length calls) nm (JObject [])])
                end
          end
      end
  end.

Definition RECOVERY_TAGS : list (string * string) :=
  [("<tool_call>", "</tool_call>"); ("<|tool_call|>", "<|/tool_call|>");
   ("<function_call>", "</function_call>"); ("<|function_call|>", "<|/function_call|>")].

Definition recover_tool_calls (content : string) : list ToolCall :=
  let n := S (String.length content) in
  let regions := find_code_regions content in
  let calls := foldl (fun calls oc => recover_tagged n content oc.1 oc.2 regions 0 calls) []
                 RECOVERY_TAGS in
  recover_bracket n content calls.

End recovery.

Definition recover_tool_calls_from_content (json_from_str : string -> option Json)
    (content : string) (available_tools : list ToolDefinition) : list ToolCall :=
  recover_tool_calls json_from_str (td_name <$> available_tools) content.

Definition extract_json (text : string) : option string :=
  s ← str_find "{" text;
  e ← rfind_char "}"%char text;
  if (s <? e)%nat then Some (slice s (e + 1) text) else None.

(** ** Truncation: the loop finds the first unclosed tag *)

(** An opening tag for pattern [p] at byte [pos], outside code and without a
    closing tag after it. *)
Definition unclosed (lower : string) (regions : list CodeRegion) (p : string) (pos : nat) : bool :=
  occurs_at p lower pos && negb (is_inside_code pos regions) &&
  negb (closed_after lower p (pos + String.length p)).

Lemma first_unclosed_spec lower p regions fuel sf :
  unbordered p = true → sf ≤ String.length lower → String.length lower - sf < fuel →
  (∀ q, q < sf → unclosed lower regions p q = false) →
  match first_unclosed fuel lower p regions sf with
  | Some pos => unclosed lower regions p pos = true ∧
                ∀ q, q < pos → unclosed lower regions p q = false
  | None => ∀ q, unclosed lower regions p q = false
  end.
Proof.
  intros Hu. assert (p ≠ "") as Hp by (by destruct p).
  revert sf; induction fuel as [|fuel IH]; intros sf Hsf Hfuel Hbefore; [lia|].
  cbn [first_unclosed]. destruct (str_find p (str_from sf lower)) as [offset|] eqn:Hf.
  - pose proof (str_find_range _ _ _ Hp Hf) as Hr. rewrite str_from_length in Hr.
    apply str_find_Some in Hf as (Ho & _ & Hmin). rewrite occurs_at_from in Ho.
    assert (1 ≤ String.length p) by (destruct p; [done|simpl; lia]).
    assert (∀ q, q < sf + offset → unclosed lower regions p q = false) as Hb.
    { intros q Hq. destruct (decide (q < sf)); [by apply Hbefore|].
      unfold unclosed. specialize (Hmin (q - sf) ltac:(lia)). rewrite occurs_at_from in Hmin.
      replace (sf + (q - sf)) with q in Hmin by lia. by rewrite Hmin. }
    set (pos := sf + offset) in *.
    destruct (is_inside_code pos regions) eqn:Hin.
    + apply IH; [lia|lia|]. intros q Hq. destruct (decide (q = pos)) as [->|]; [|apply Hb; lia].
      unfold unclosed. by rewrite Hin, andb_false_r.
    + destruct (closed_after lower p (pos + String.length p)) eqn:Hc.
      * apply IH; [lia|lia|]. intros q Hq. destruct (decide (q < pos)); [by apply Hb|].
        unfold unclosed. destruct (decide (q = pos)) as [->|].
        { by rewrite Hc, andb_false_r. }
        by rewrite (occurs_no_overlap p lower pos q Hu Ho) by lia.
      * split; [|done]. unfold unclosed. by rewrite Ho, Hin, Hc.
  - intros q. destruct (decide (q < sf)); [by apply Hbefore|]. unfold unclosed.
    destruct (occurs_at p lower q) eqn:Ho; [|done].
    pose proof (occurs_at_length _ _ _ Hp Ho).
    rewrite str_find_None in Hf. specialize (Hf (q - sf)).
    rewrite occurs_at_from, str_from_length in Hf.
    replace (sf + (q - sf)) with q in Hf by lia. rewrite Hf in Ho by lia. done.
Qed.

Lemma min_of_spec l :
  match min_of l with
  | Some m => m ∈ l ∧ ∀ x, x ∈ l → m ≤ x
  | None => l = []
  end.
Proof.
  induction l as [|x l IH]; simpl; [done|]. destruct (min_of l) as [y|].
  - destruct IH as [Hin Hle]. split.
    + destruct (Nat.min_dec x y) as [->| ->]; set_solver.
    + intros z [->|Hz]%elem_of_cons; [lia|]. specialize (Hle _ Hz). lia.
  - subst. split; [set_solver|]. intros z [->|?%elem_of_nil]%elem_of_cons; done.
Qed.

Lemma tool_tag_patterns_unbordered : forallb unbordered TOOL_TAG_PATTERNS = true.
Proof. vm_compute. reflexivity. Qed.

(** The opening tag of some tool pattern at [pos] that is left open. *)
Definition unclosed_tool_tag (text : string) (pos : nat) : bool :=
  existsb (fun p => unclosed (string_map ascii_lower text) (find_code_regions text) p pos)
    TOOL_TAG_PATTERNS.

(** What the minimum over the patterns means. *)
Lemma first_unclosed_tool_tag lower regions ps :
  forallb unbordered ps = true →
  let un pos := existsb (fun p => unclosed lower regions p pos) ps in
  match min_of (omap (fun p => first_unclosed (S (String.length lower)) lower p regions 0) ps) with
  | Some pos => un pos = true ∧ ∀ q, q < pos → un q = false
  | None => ∀ q, un q = false
  end.
Proof.
  intros Hps un.
  assert (∀ p, p ∈ ps → match first_unclosed (S (String.length lower)) lower p regions 0 with
          | Some pos => unclosed lower regions p pos = true ∧
                        ∀ q, q < pos → unclosed lower regions p q = false
          | None => ∀ q, unclosed lower regions p q = false end) as Hall.
  { intros p Hp. apply first_unclosed_spec; [|lia..].
    rewrite forallb_forall in Hps. by apply Hps, list_elem_of_In. }
  assert (∀ q, (∀ p, p ∈ ps → unclosed lower regions p q = false) → un q = false) as Hun.
  { intros q Hq. destruct (un q) eqn:He; [|done].
    apply existsb_exists in He as (p & Hp%list_elem_of_In & He). by rewrite Hq in He. }
  pose proof (min_of_spec (omap (fun p => first_unclosed (S (String.length lower)) lower p regions 0) ps)) as Hm.
  destruct (min_of _) as [m|].
  - destruct Hm as [(p & Hp & Hfu)%list_elem_of_omap Hle]. split.
    + apply existsb_exists. exists p. split; [by apply list_elem_of_In|].
      specialize (Hall p Hp). rewrite Hfu in Hall. apply Hall.
    + intros q Hq. apply Hun. intros p' Hp'. specialize (Hall p' Hp').
      destruct (first_unclosed _ _ p' _ _) as [pos|] eqn:Hf; [|done]. apply Hall.
      assert (m ≤ pos); [|lia]. apply Hle, list_elem_of_omap. eauto.
  - intros q. apply Hun. intros p Hp. specialize (Hall p Hp).
    destruct (first_unclosed _ _ p _ _) as [pos|] eqn:Hf; [|done].
    exfalso. assert (pos ∈ omap (fun p => first_unclosed (S (String.length lower)) lower p regions 0) ps) as Hin.
    { apply list_elem_of_omap. eauto. }
    rewrite Hm in Hin. by apply elem_of_nil in Hin.
Qed.

(** Truncation keeps exactly the text before the first tool tag that is
    outside code and never closed, and all of it when there is none. *)
Theorem truncate_at_tool_tags_spec text :
  (∃ pos, unclosed_tool_tag text pos = true ∧ (∀ q, q < pos → unclosed_tool_tag text q = false) ∧
          truncate_at_tool_tags text = str_to pos text) ∨
  ((∀ q, unclosed_tool_tag text q = false) ∧ truncate_at_tool_tags text = text).
Proof.
  pose proof (first_unclosed_tool_tag (string_map ascii_lower text) (find_code_regions text) _
                tool_tag_patterns_unbordered) as H. cbv zeta in H.
  unfold truncate_at_tool_tags. destruct (min_of _) as [pos|].
  - left. exists pos. by destruct H.
  - by right.
Qed.

(** ** Stripping reasoning tags, byte by byte *)

(** The bytes of [s] whose positions, counted from [n], satisfy a test. *)
Fixpoint pick (vis : nat -> bool) (n : nat) (s : string) : string :=
  match s with
  | EmptyString => ""
  | String c r => if vis n then String c (pick vis (S n) r) else pick vis (S n) r
  end.

Lemma pick_ext f g n s :
  (∀ p, n ≤ p < n + String.length s → f p = g p) → pick f n s = pick g n s.
Proof.
  revert n; induction s as [|c s IH]; intros n Hfg; simpl in *; [done|].
  rewrite (Hfg n) by lia. rewrite (IH (S n)); [done|]. intros p Hp. apply Hfg. lia.
Qed.

Lemma pick_all n s : pick (fun _ => true) n s = s.
Proof. revert n; induction s as [|c s IH]; intros n; simpl; [done|]. by rewrite IH. Qed.

Lemma pick_none n s : pick (fun _ => false) n s = "".
Proof. revert n; induction s as [|c s IH]; intros n; simpl; auto. Qed.

Lemma pick_split f n k s :
  pick f n s = pick f n (str_to k s) +:+ pick f (n + k) (str_from k s).
Proof.
  revert n s; induction k as [|k IH]; intros n s.
  - rewrite Nat.add_0_r. by destruct s.
  - destruct s as [|c s]; [done|]. cbn [str_to str_from pick].
    rewrite (IH (S n) s). replace (n + S k) with (S n + k) by lia.
    by destruct (f n).
Qed.

(** The pick over [s[a..]], cut at [b]. *)
Lemma pick_cut f a b s :
  a ≤ b → pick f a (str_from a s) = pick f a (slice a b s) +:+ pick f b (str_from b s).
Proof.
  intros Hab. rewrite (pick_split f a (b - a)). f_equal.
  rewrite <-str_from_add. by replace (a + (b - a)) with b by lia.
Qed.

(** The ranges a regex engine reports: from left to right, not overlapping. *)
Fixpoint ordered_from (last len : nat) (ms : list (nat * nat)) : Prop :=
  match ms with
  | [] => True
  | (s, e) :: ms => last ≤ s ∧ s ≤ e ∧ e ≤ len ∧ ordered_from e len ms
  end.

Lemma ordered_from_weaken a b len ms : a ≤ b → ordered_from b len ms → ordered_from a len ms.
Proof. destruct ms as [|[s e] ms]; simpl; [done|]. intuition lia. Qed.

Lemma ordered_from_bounds last len ms m :
  ordered_from last len ms → m ∈ ms → last ≤ m.1 ∧ m.1 ≤ m.2 ∧ m.2 ≤ len.
Proof.
  revert last; induction ms as [|[s e] ms IH]; intros last; simpl; [by intros _ ?%elem_of_nil|].
  intros (? & ? & ? & Ho) [->|Hm]%elem_of_cons; [done|].
  destruct (IH _ Ho Hm). lia.
Qed.

Section tags.
  Context `{RegexEngine} (re text : string) (regions : list CodeRegion).

(** The tags outside code. *)
Definition live_tags (ms : list (nat * nat)) : list (nat * nat) :=
  filter (fun m => is_inside_code m.1 regions = false) ms.

(** Whether the last tag that ends at or before [p] opens a block. *)
Definition open_at (o : bool) (ts : list (nat * nat)) (p : nat) : bool :=
  foldl (fun o m => if (m.2 <=? p)%nat then negb (is_close_tag re text m.1) else o) o ts.

(** A byte is visible when it is neither in a tag nor in an open block. *)
Definition visible (o : bool) (ts : list (nat * nat)) (p : nat) : bool :=
  negb (existsb (fun m => (m.1 <=? p) && (p <? m.2))%nat ts) && negb (open_at o ts p).

Lemma live_tags_ordered last len ms :
  ordered_from last len ms → ordered_from last len (live_tags ms).
Proof.
  revert last; induction ms as [|[s e] ms IH]; intros last; [done|]. simpl.
  intros (? & ? & ? & Ho). unfold live_tags. rewrite filter_cons. case_decide.
  - simpl. split_and!; [done..|]. by apply IH.
  - apply (ordered_from_weaken _ e); [lia|]. by apply IH.
Qed.

Lemma strip_tags_loop_live ms result last o :
  strip_tags_loop re text regions ms result last o =
  strip_tags_loop re text regions (live_tags ms) result last o.
Proof.
  revert result last o; induction ms as [|[s e] ms IH]; intros result last o; [done|].
  unfold live_tags. rewrite filter_cons. cbn [strip_tags_loop fst].
  destruct (is_inside_code s regions) eqn:Hin.
  - rewrite decide_False by done. apply IH.
  - rewrite decide_True by done. cbn [strip_tags_loop]. rewrite Hin.
    destruct o; simpl; apply IH.
Qed.

Lemma open_at_before o ts last len p :
  ordered_from last len ts → p < last → open_at o ts p = o.
Proof.
  revert last; induction ts as [|[s e] ts IH]; intros last; [done|]. simpl.
  intros (? & ? & ? & Ho) Hp. unfold open_at. simpl.
  destruct (Nat.leb_spec e p); [lia|]. by apply (IH e); [|lia].
Qed.

Lemma uncovered_before ts last len p :
  ordered_from last len ts → p < last →
  existsb (fun m => (m.1 <=? p) && (p <? m.2))%nat ts = false.
Proof.
  intros Ho Hp. destruct (existsb _ ts) eqn:He; [|done].
  apply existsb_exists in He as (m & Hm%list_elem_of_In & Hb).
  apply ordered_from_bounds with (m := m) in Ho; [|done].
  apply andb_true_iff in Hb as [Hb _]. apply Nat.leb_le in Hb. lia.
Qed.

(** The loop, with the rest of the text that the caller appends. *)
Lemma strip_tags_loop_pick ts result last o :
  Forall (fun m => is_inside_code m.1 regions = false) ts →
  ordered_from last (String.length text) ts →
  let '(r, l, o') := strip_tags_loop re text regions ts result last o in
  r +:+ (if o' then "" else str_from l text) =
  result +:+ pick (visible o ts) last (str_from last text).
Proof.
  revert result last o; induction ts as [|[s e] ts IH]; intros result last o Hlive Hord.
  - cbn [strip_tags_loop]. f_equal. destruct o.
    + by rewrite (pick_ext _ (fun _ => false)), pick_none.
    + by rewrite (pick_ext _ (fun _ => true)), pick_all.
  - apply Forall_cons in Hlive as [Hs Hlive]. simpl in Hs.
    destruct Hord as (Hls & Hse & Hel & Hord). cbn [strip_tags_loop]. rewrite Hs.
    set (c := is_close_tag re text s) in *.
    rewrite (pick_cut _ last s) by done. rewrite (pick_cut _ s e) by done.
    rewrite (pick_ext _ (fun _ => false) s (slice s e text)), pick_none.
    2:{ intros p Hp. rewrite slice_length in Hp. unfold visible. cbn [existsb fst snd].
        by rewrite (proj2 (Nat.leb_le s p)), (proj2 (Nat.ltb_lt p e)) by lia. }
    rewrite (pick_ext (visible o _) (visible (negb c) ts) e).
    2:{ intros p Hp. unfold visible, open_at. cbn [existsb fst snd foldl].
        rewrite (proj2 (Nat.ltb_ge p e)), (proj2 (Nat.leb_le e p)), andb_false_r by lia. done. }
    assert (pick (visible o ((s, e) :: ts)) last (slice last s text) =
            if o then "" else slice last s text) as ->.
    { rewrite (pick_ext _ (fun _ => negb o)).
      - destruct o; simpl; [apply pick_none|apply pick_all].
      - intros p Hp. rewrite slice_length in Hp. unfold visible.
        rewrite (uncovered_before _ s (String.length text)), (open_at_before _ _ s (String.length text));
          [done|simpl; auto|lia|simpl; auto|lia]. }
    destruct o; cbn [negb].
    + pose proof (IH result e (negb c) Hlive Hord) as Hi.
      destruct (strip_tags_loop _ _ _ _ _ _ _) as [[r l] o']. by rewrite Hi.
    + pose proof (IH (result +:+ slice last s text) e (negb c) Hlive Hord) as Hi.
      destruct (strip_tags_loop _ _ _ _ _ _ _) as [[r l] o']. by rewrite Hi, append_assoc.
Qed.

(** Where the loop ends: at the last tag, which decides whether a block is open. *)
Lemma strip_tags_loop_end ts result last o :
  Forall (fun m => is_inside_code m.1 regions = false) ts →
  ordered_from last (String.length text) ts →
  let '(_, l, o') := strip_tags_loop re text regions ts result last o in
  l = default last (snd <$> list.last ts) ∧ o' = open_at o ts (String.length text).
Proof.
  revert result last o; induction ts as [|[s e] ts IH]; intros result last o Hlive Hord; [done|].
  apply Forall_cons in Hlive as [Hs Hlive]. simpl in Hs.
  destruct Hord as (_ & _ & Hel & Hord). cbn [strip_tags_loop]. rewrite Hs.
  assert (∀ res, let '(_, l, o') := strip_tags_loop re text regions ts res e
                   (negb (is_close_tag re text s)) in
          l = default last (snd <$> list.last ((s, e) :: ts)) ∧
          o' = open_at o ((s, e) :: ts) (String.length text)) as Hgo.
  { intros res. specialize (IH res e (negb (is_close_tag re text s)) Hlive Hord).
    destruct (strip_tags_loop _ _ _ _ _ _ _) as [[r l] o']. destruct IH as [-> ->]. split.
    - rewrite last_cons. by destruct (list.last ts).
    - unfold open_at. cbn [foldl fst snd]. by rewrite (proj2 (Nat.leb_le _ _) Hel). }
  destruct o; apply Hgo.
Qed.

End tags.

(** Of a reply with reasoning tags exactly the bytes reach the user that are
    outside every tag and not in an open block, where tags inside code do not
    count; after a block that is never closed only the text of a [<final>] block
    follows. *)
Theorem strip_thinking_visible `{RegexEngine} text regions :
  ordered_from 0 (String.length text) (find_iter THINKING_TAG_RE text) →
  let ts := live_tags regions (find_iter THINKING_TAG_RE text) in
  let shown := pick (visible THINKING_TAG_RE text false ts) 0 text in
  strip_thinking_tags_regex text regions =
  if open_at THINKING_TAG_RE text false ts (String.length text)
  then shown +:+ (let trailing := str_from (default 0 (snd <$> last ts)) text in
                  default "" (extract_final_content trailing (find_code_regions trailing)))
  else shown.
Proof.
  intros Hord ts shown.
  unfold strip_thinking_tags_regex. rewrite strip_tags_loop_live.
  pose proof (live_tags_ordered regions _ _ _ Hord) as Hlo. fold ts in Hlo |- *.
  pose proof (strip_tags_loop_pick THINKING_TAG_RE text regions ts "" 0 false) as Hp.
  pose proof (strip_tags_loop_end THINKING_TAG_RE text regions ts "" 0 false) as He.
  destruct (strip_tags_loop _ _ _ _ _ _ _) as [[r l] o].
  assert (Forall (fun m => is_inside_code m.1 regions = false) ts) as Hlive.
  { apply Forall_forall. intros m Hm%list_elem_of_filter. apply Hm. }
  specialize (Hp Hlive Hlo). destruct (He Hlive Hlo) as [-> ->]. clear He.
  change (str_from 0 text) with text in Hp. fold shown in Hp.
  change ("" +:+ shown) with shown in Hp. rewrite <-Hp. destruct (open_at _ _ _ _ _); simpl.
  - rewrite append_nil_r. destruct (extract_final_content _ _); simpl; [done|].
    by rewrite append_nil_r.
  - done.
Qed.

(** A small engine for the literal tags of a demonstration. *)
Definition demo_names (re : string) : list string :=
  if bool_decide (re = FINAL_TAG_RE) then ["<final>"; "</final>"]
  else if bool_decide (re = PIPE_REASONING_TAG_RE) then ["<|think|>"; "<|/think|>"]
  else if bool_decide (re = THINKING_TAG_RE) then ["<think>"; "</think>"]
  else ["<think>"; "</think>"; "<final>"; "</final>"].

Definition demo_find_iter (re s : string) : list (nat * nat) :=
  flat_map (fun n => omap (fun t => if occurs_at t s n then Some (n, n + String.length t) else None)
                       (demo_names re)) (seq 0 (String.length s)).

Definition demo_engine : RegexEngine := {|
  regex_valid := fun _ => true;
  find_iter := demo_find_iter;
  is_match := fun re s => match demo_find_iter re s with [] => false | _ => true end;
  capture1 := fun re s =>
    if starts_with "</" s || starts_with "<|/" s then Some "/" else Some ""
|}.

Lemma strip_thinking_visible_witness :
  @strip_thinking_tags_regex demo_engine "a<think>b</think>c<think>d<final>e</final>f" [] = "ace".
Proof.
  rewrite (@strip_thinking_visible demo_engine).
  - vm_compute. reflexivity.
  - vm_compute. repeat split; lia.
Defined.

(** ** Recovered tool calls *)

Section recovered.
  Variable json_from_str : string -> option Json.
  Variable tool_names : list string.

(** The calls are numbered through, and every name is a tool. *)
Definition calls_sound (calls : list ToolCall) : Prop :=
  Forall (fun c => tc_name c ∈ tool_names) calls ∧
  tc_id <$> calls =
  (fun n => generate_tool_call_id (Z.of_nat n) RECOVERED_TOOL_CALL_SEED) <$> seq 0 (length calls).

Lemma calls_sound_snoc calls nm args :
  calls_sound calls → nm ∈ tool_names →
  calls_sound (calls ++ [recovered_call (length calls) nm args]).
Proof.
  intros [Hn Hi] Hnm. split.
  - apply Forall_app. split; [done|]. by apply Forall_singleton.
  - rewrite fmap_app, length_app, seq_app, fmap_app, Hi. done.
Qed.

Lemma recover_inner_sound inner calls :
  calls_sound calls → calls_sound (recover_inner json_from_str tool_names inner calls).
Proof.
  intros Hs. unfold recover_inner. case_match; [done|].
  destruct (json_from_str inner ≫= _) as [call|] eqn:Hc.
  - apply bind_Some in Hc as (parsed & _ & Hc).
    apply bind_Some in Hc as (nm & _ & Hc). case_bool_decide; [|done].
    injection Hc as <-. by apply calls_sound_snoc.
  - case_bool_decide; [|done]. by apply calls_sound_snoc.
Qed.

Lemma recover_tagged_sound fuel content op cl regions sf calls :
  calls_sound calls →
  calls_sound (recover_tagged json_from_str tool_names fuel content op cl regions sf calls).
Proof.
  revert sf calls; induction fuel as [|fuel IH]; intros sf calls Hs; [done|].
  cbn [recover_tagged]. destruct (str_find op _) as [offset|]; [|done].
  destruct (str_find cl _) as [eo|]; [|done]. apply IH.
  case_match; [by apply recover_inner_sound|done].
Qed.

Lemma recover_bracket_sound fuel remaining calls :
  calls_sound calls → calls_sound (recover_bracket json_from_str tool_names fuel remaining calls).
Proof.
  revert remaining calls; induction fuel as [|fuel IH]; intros remaining calls Hs; [done|].
  cbn [recover_bracket]. destruct (str_find CALLED_TOOL _) as [start|]; [|done].
  set (ap := str_from _ _). destruct (str_find "`" ap) as [be|]; [|done].
  case_bool_decide as Hnm; [|by apply IH]. cbn [negb].
  destruct (strip_prefix _ _ ≫= _) as [[ar b]|]; apply IH; by apply calls_sound_snoc.
Qed.

Lemma recover_tool_calls_sound content :
  calls_sound (recover_tool_calls json_from_str tool_names content).
Proof.
  unfold recover_tool_calls. apply recover_bracket_sound.
  assert (calls_sound []) as Hnil by (split; [apply Forall_nil|]; done).
  revert Hnil. generalize (@nil ToolCall). induction RECOVERY_TAGS as [|[op cl] ts IH];
    intros calls Hs; [done|]. cbn [foldl fst snd]. by apply IH, recover_tagged_sound.
Qed.

End recovered.

Lemma recovery_ids_distinct :
  NoDup ((fun n => generate_tool_call_id (Z.of_nat n) RECOVERED_TOOL_CALL_SEED) <$> seq 0 256).
Proof. apply (bool_decide_unpack _). vm_compute. reflexivity. Qed.

(** A segment whose opening tag is inside code overlaps that code. *)
Lemma inside_code_overlaps s e regions :
  s < e → is_inside_code s regions = true → overlaps_code_region s e regions = true.
Proof.
  intros Hse (r & Hr & Hb)%existsb_exists. apply existsb_exists. exists r. split; [done|].
  apply andb_true_iff in Hb as [Hb1 Hb2]. apply Nat.leb_le in Hb1. rewrite Hb2.
  apply Nat.ltb_lt. lia.
Qed.

Lemma recover_tagged_in_code json names fuel content op cl regions sf calls :
  op ≠ "" → (∀ n, occurs_at op content n = true → is_inside_code n regions = true) →
  recover_tagged json names fuel content op cl regions sf calls = calls.
Proof.
  intros Hop Hcode. revert sf; induction fuel as [|fuel IH]; intros sf; [done|].
  cbn [recover_tagged]. destruct (str_find op _) as [offset|] eqn:Hf; [|done].
  destruct (str_find cl _) as [eo|]; [|done].
  apply str_find_Some in Hf as (Ho & _). rewrite occurs_at_from in Ho.
  assert (is_recoverable_tool_call_segment content (sf + offset)
            (sf + offset + String.length op + eo + String.length cl) regions = false) as ->.
  { unfold is_recoverable_tool_call_segment. rewrite inside_code_overlaps; [done| |auto].
    destruct op; [done|]. simpl. lia. }
  apply IH.
Qed.

(** Whatever text a model writes, the tool calls recovered from it name
    available tools only and carry the identifiers of their positions, so that
    up to 256 of them are distinct; and a tag inside code is never recovered. *)
Theorem recovered_calls_sound json_from_str content available_tools :
  let calls := recover_tool_calls_from_content json_from_str content available_tools in
  Forall (fun c => tc_name c ∈ td_name <$> available_tools) calls ∧
  (length calls ≤ 256 → NoDup (tc_id <$> calls)) ∧
  (Forall (fun oc => ∀ n, occurs_at oc.1 content n = true →
                     is_inside_code n (find_code_regions content) = true) RECOVERY_TAGS →
   contains CALLED_TOOL content = false → calls = []).
Proof.
  intros calls.
  destruct (recover_tool_calls_sound json_from_str (td_name <$> available_tools) content)
    as [Hn Hi]. fold (recover_tool_calls_from_content json_from_str content available_tools) in *.
  fold calls in Hn, Hi. split_and!; [done| |].
  - intros Hlen. rewrite Hi. pose proof recovery_ids_distinct as Hd.
    replace 256 with (length calls + (256 - length calls)) in Hd by lia.
    rewrite seq_app, fmap_app in Hd. by apply NoDup_app in Hd as [? _].
  - intros Hcode Hb. unfold calls, recover_tool_calls_from_content, recover_tool_calls.
    set (n := S (String.length content)). set (regions := find_code_regions content) in *.
    unfold RECOVERY_TAGS in *. rewrite !Forall_cons in Hcode.
    destruct Hcode as (H1 & H2 & H3 & H4 & _). cbn [foldl fst snd] in *.
    rewrite !recover_tagged_in_code by done. unfold n. cbn [recover_bracket].
    destruct (str_find CALLED_TOOL content) eqn:Hf; [|done].
    assert (contains CALLED_TOOL content = true); [|congruence].
    apply contains_str_find. by eexists.
Qed.

(** A bracketed call is recovered even from a code block. *)
Lemma bracket_call_in_code_recovered :
  let content := cat ["The log shows:"; nl_str; "```"; nl_str;
                      "[Called tool `shell` with arguments: {}]"; nl_str; "```"] in
  is_inside_code 19 (find_code_regions content) = true ∧
  occurs_at CALLED_TOOL content 19 = true ∧
  tc_name <$> recover_tool_calls_from_content (fun _ => None) content
                [mkToolDefinition "shell" "" JNull] = ["shell"].
Proof. vm_compute. done. Qed.

(** ** A repeated prefix *)

Definition quoted_tag_reply : string := "Use `<tool_call x` now".

(** An opening tool tag inside code that is never completed by [>] makes
    [strip_xml_tag] emit the text before it twice. *)
Theorem clean_reply_repeats_text `{RegexEngine} :
  is_match QUICK_TAG_RE quoted_tag_reply = false →
  is_match PIPE_REASONING_TAG_RE quoted_tag_reply = false →
  clean_reply quoted_tag_reply = "Use `" +:+ quoted_tag_reply.
Proof.
  intros Hq Hp. unfold clean_reply.
  assert (truncate_at_tool_tags quoted_tag_reply = quoted_tag_reply) as ->
    by (vm_compute; reflexivity).
  unfold clean_response, strip_reasoning. rewrite Hq. cbn [negb].
  unfold strip_pipe_reasoning_tags. rewrite Hp. cbn [negb]. vm_compute. reflexivity.
Qed.

Lemma clean_reply_repeats_text_witness :
  @clean_reply demo_engine quoted_tag_reply = "Use `Use `<tool_call x` now".
Proof. apply (@clean_reply_repeats_text demo_engine); vm_compute; reflexivity. Defined.

(** ** Code regions are well formed *)

Definition region_ok (len : nat) (r : CodeRegion) : Prop := cr_start r < cr_end r ≤ len.

Lemma next_line_range text i j :
  next_line text i = Some j → i < j ≤ String.length text.
Proof.
  intros (n & Hn & ->)%fmap_Some. apply str_find_range in Hn; [|done].
  rewrite str_from_length in Hn. simpl in Hn. lia.
Qed.

Lemma find_close_range fuel text fc fl i e :
  find_close fuel text fc fl i = Some e → 0 < fl → i ≤ String.length text →
  i < e ≤ String.length text.
Proof.
  revert i; induction fuel as [|fuel IH]; intros i He Hfl Hi; [done|].
  cbn [find_close] in He. case_decide as Hlen; [done|].
  set (j := skip_while is_blank text i) in *.
  set (k := skip_while (is_char fc) text j) in *.
  set (eol := skip_while is_blank text k) in *.
  pose proof (skip_while_le is_blank text i Hi).
  pose proof (skip_while_le (is_char fc) text j ltac:(lia)).
  pose proof (skip_while_le is_blank text k ltac:(lia)).
  destruct (_ && _ && _) eqn:Hb in He.
  - apply andb_true_iff in Hb as [[_ Hb]%andb_true_iff _]. apply Nat.leb_le in Hb.
    destruct (decide (String.length text ≤ eol)); simplify_eq; lia.
  - destruct (next_line text i) as [i'|] eqn:Hn; [|done]. apply next_line_range in Hn.
    apply IH in He; lia.
Qed.

Lemma fence_regions_ok fuel text i :
  i ≤ String.length text →
  Forall (region_ok (String.length text)) (fence_regions fuel text i).
Proof.
  revert i; induction fuel as [|fuel IH]; intros i Hi; [constructor|].
  assert (∀ j, Forall (region_ok (String.length text))
            match next_line text j with Some i' => fence_regions fuel text i' | None => [] end) as Hskip.
  { intros j. destruct (next_line text j) eqn:Hn; [|constructor].
    apply IH. apply next_line_range in Hn. lia. }
  cbn [fence_regions]. case_decide; [constructor|].
  destruct (_ && _); [apply Hskip|].
  destruct (String.get _ text) as [fc|]; [|apply Hskip].
  destruct (_ || _); [|apply Hskip].
  set (fs := skip_while is_blank text i). set (af := skip_while (is_char fc) text fs).
  destruct (Nat.ltb_spec (af - fs) 3); [apply Hskip|].
  assert (region_ok (String.length text) (mkRegion i (String.length text))) as Hwhole
    by (unfold region_ok; simpl; lia).
  destruct (next_line text af) as [cs|] eqn:Hn; [|by apply Forall_singleton].
  apply next_line_range in Hn.
  destruct (find_close _ text fc (af - fs) cs) as [e|] eqn:Hf; [|by apply Forall_singleton].
  apply find_close_range in Hf; [|lia..]. constructor; [|apply IH; lia].
  unfold region_ok. simpl. pose proof (skip_while_le is_blank text i Hi).
  pose proof (skip_while_le (is_char fc) text fs ltac:(lia)). lia.
Qed.

Lemma find_ticks_range fuel text n k e :
  find_ticks fuel text n k = Some e → k ≤ String.length text → k ≤ e ≤ String.length text.
Proof.
  revert k; induction fuel as [|fuel IH]; intros k He Hk; [done|].
  cbn [find_ticks] in He. case_decide; [done|]. destruct (negb _).
  - apply IH in He; lia.
  - pose proof (skip_while_le (is_char backtick) text k Hk). case_bool_decide; [simplify_eq; lia|].
    apply IH in He; lia.
Qed.

Lemma skip_while_progress f text i c :
  String.get i text = Some c → f c = true → i < skip_while f text i.
Proof.
  intros Hg Hf. unfold skip_while. destruct (str_from i text) as [|d r] eqn:Hs.
  - exfalso. assert (String.length (str_from i text) = 0) as Hl by (by rewrite Hs).
    clear Hs. revert text Hg Hl. induction i as [|i IH]; intros [|d text]; simpl; try done; eauto.
  - apply str_from_cons_get in Hs as Hd. rewrite Hg in Hd. injection Hd as <-.
    simpl. rewrite Hf. lia.
Qed.

Lemma inline_regions_ok fuel text regions j :
  j ≤ String.length text → Forall (region_ok (String.length text)) regions →
  Forall (region_ok (String.length text)) (inline_regions fuel text regions j).
Proof.
  revert regions j; induction fuel as [|fuel IH]; intros regions j Hj Hr; [done|].
  cbn [inline_regions]. case_decide; [done|].
  case_bool_decide as Hg; cbn [negb]; [|apply IH; [lia|done]].
  destruct (is_inside_code j regions); [apply IH; [lia|done]|].
  pose proof (skip_while_progress (is_char backtick) text j _ Hg eq_refl).
  pose proof (skip_while_le (is_char backtick) text j Hj).
  destruct (find_ticks _ _ _ _) as [k|] eqn:Hf; [|apply IH; [lia|done]].
  apply find_ticks_range in Hf; [|lia]. apply IH; [lia|].
  apply Forall_app. split; [done|]. apply Forall_singleton. unfold region_ok. simpl. lia.
Qed.

Lemma insert_region_perm r l : insert_region r l ≡ₚ r :: l.
Proof.
  induction l as [|x l IH]; simpl; [done|]. case_match; [|done].
  rewrite IH. apply Permutation_swap.
Qed.

Lemma sort_regions_perm l : sort_regions l ≡ₚ l.
Proof.
  unfold sort_regions. assert (∀ acc, foldl (fun acc r => insert_region r acc) acc l ≡ₚ acc ++ l) as H.
  { induction l as [|r l IH]; intros acc; simpl; [by rewrite app_nil_r|].
    rewrite IH, insert_region_perm. simpl. apply Permutation_middle. }
  by rewrite H.
Qed.

Definition region_le (a b : CodeRegion) : Prop := cr_start a ≤ cr_start b.

Lemma insert_region_sorted r l :
  Sorted region_le l → Sorted region_le (insert_region r l).
Proof.
  induction l as [|x l IH]; simpl; intros Hs; [by repeat constructor|].
  destruct (Nat.leb_spec (cr_start x) (cr_start r)).
  - apply Sorted_inv in Hs as [Hs Hx]. constructor; [by apply IH|].
    destruct l as [|y l]; simpl; [by repeat constructor|].
    apply HdRel_inv in Hx. case_match; by constructor.
  - constructor; [done|]. constructor. unfold region_le. lia.
Qed.

Lemma sort_regions_sorted l : Sorted region_le (sort_regions l).
Proof.
  unfold sort_regions. assert (Sorted region_le []) as Hn by constructor.
  revert Hn. generalize (@nil CodeRegion).
  induction l as [|r l IH]; intros acc Hacc; simpl; [done|]. by apply IH, insert_region_sorted.
Qed.

(** The code regions of a text are sorted, non-empty and inside the text. *)
Theorem code_regions_ok text :
  Sorted region_le (find_code_regions text) ∧
  Forall (region_ok (String.length text)) (find_code_regions text).
Proof.
  split; [apply sort_regions_sorted|].
  unfold find_code_regions. rewrite sort_regions_perm.
  apply inline_regions_ok; [lia|]. apply fence_regions_ok. lia.
Qed.

(** ** The loops of the pipeline end

    Every loop advances, so its result does not depend on the fuel once there
    is more of it than there is text left. *)

Lemma find_close_fuel n m text fc fl i :
  String.length text - i < n → String.length text - i < m →
  find_close n text fc fl i = find_close m text fc fl i.
Proof.
  revert m i; induction n as [|n IH]; intros [|m] i Hn Hm; try lia.
  cbn [find_close]. case_decide; [done|]. case_match; [done|].
  destruct (next_line text i) as [i'|] eqn:Hl; [|done].
  apply next_line_range in Hl. apply IH; lia.
Qed.

Lemma fence_regions_fuel n m text i :
  i ≤ String.length text → String.length text - i < n → String.length text - i < m →
  fence_regions n text i = fence_regions m text i.
Proof.
  revert m i; induction n as [|n IH]; intros [|m] i Hi Hn Hm; try lia.
  assert (∀ j, i ≤ j → match next_line text j with Some i' => fence_regions n text i' | None => [] end =
               match next_line text j with Some i' => fence_regions m text i' | None => [] end) as Hskip.
  { intros j Hj. destruct (next_line text j) eqn:Hl; [|done]. apply next_line_range in Hl.
    apply IH; lia. }
  cbn [fence_regions]. case_decide; [done|].
  pose proof (skip_while_le is_blank text i Hi).
  destruct (_ && _); [by apply Hskip|].
  destruct (String.get _ text) as [fc|]; [|apply Hskip; lia].
  destruct (_ || _); [|apply Hskip; lia].
  set (fs := skip_while is_blank text i) in *. set (af := skip_while (is_char fc) text fs) in *.
  pose proof (skip_while_le (is_char fc) text fs ltac:(lia)).
  destruct (Nat.ltb_spec (af - fs) 3); [apply Hskip; lia|].
  destruct (next_line text af) as [cs|] eqn:Hl; [|done]. apply next_line_range in Hl.
  destruct (find_close _ text fc (af - fs) cs) as [e|] eqn:Hf; [|done].
  apply find_close_range in Hf; [|lia..]. f_equal. apply IH; lia.
Qed.

Lemma find_ticks_fuel n m text t k :
  k ≤ String.length text → String.length text - k < n → String.length text - k < m →
  find_ticks n text t k = find_ticks m text t k.
Proof.
  revert m k; induction n as [|n IH]; intros [|m] k Hk Hn Hm; try lia.
  cbn [find_ticks]. case_decide; [done|]. case_bool_decide as Hg; cbn [negb]; [|apply IH; lia].
  pose proof (skip_while_progress (is_char backtick) text k _ Hg eq_refl).
  pose proof (skip_while_le (is_char backtick) text k Hk).
  case_bool_decide; [done|]. apply IH; lia.
Qed.

Lemma inline_regions_fuel n m text regions j :
  j ≤ String.length text → String.length text - j < n → String.length text - j < m →
  inline_regions n text regions j = inline_regions m text regions j.
Proof.
  revert m regions j; induction n as [|n IH]; intros [|m] regions j Hj Hn Hm; try lia.
  cbn [inline_regions]. case_decide; [done|].
  case_bool_decide as Hg; cbn [negb]; [|apply IH; lia].
  destruct (is_inside_code j regions); [apply IH; lia|].
  pose proof (skip_while_progress (is_char backtick) text j _ Hg eq_refl).
  pose proof (skip_while_le (is_char backtick) text j Hj).
  destruct (find_ticks _ _ _ _) as [k|] eqn:Hf; [|apply IH; lia].
  apply find_ticks_range in Hf; [|lia]. apply IH; lia.
Qed.

Lemma strip_xml_loop_fuel n m oe op cl result remaining :
  cl ≠ "" → String.length remaining < n → String.length remaining < m →
  strip_xml_loop n oe op cl result remaining = strip_xml_loop m oe op cl result remaining.
Proof.
  intros Hcl. assert (0 < String.length cl) by (destruct cl; [done|simpl; lia]).
  revert m result remaining; induction n as [|n IH]; intros [|m] result remaining Hn Hm; try lia.
  cbn [strip_xml_loop]. destruct (min_opt _ _) as [start|]; [|done].
  destruct (str_find ">" _) as [pos|]; [|done].
  destruct (str_find cl _) as [co|] eqn:Hf; [|done].
  apply str_find_range in Hf; [|done]. rewrite str_from_length in Hf.
  apply IH; rewrite str_from_length; lia.
Qed.

Lemma strip_pipe_loop_fuel n m op cl result remaining :
  cl ≠ "" → String.length remaining < n → String.length remaining < m →
  strip_pipe_loop n op cl result remaining = strip_pipe_loop m op cl result remaining.
Proof.
  intros Hcl. assert (0 < String.length cl) by (destruct cl; [done|simpl; lia]).
  revert m result remaining; induction n as [|n IH]; intros [|m] result remaining Hn Hm; try lia.
  cbn [strip_pipe_loop]. destruct (str_find op _) as [start|]; [|done].
  destruct (str_find cl _) as [co|] eqn:Hf; [|done].
  apply str_find_range in Hf; [|done]. rewrite str_from_length in Hf.
  apply IH; rewrite str_from_length; lia.
Qed.

Lemma strip_bracket_loop_fuel n m result remaining :
  String.length remaining < n → String.length remaining < m →
  strip_bracket_loop n result remaining = strip_bracket_loop m result remaining.
Proof.
  revert m result remaining; induction n as [|n IH]; intros [|m] result remaining Hn Hm; try lia.
  cbn [strip_bracket_loop]. destruct (str_find CALLED_TOOL remaining) as [start|] eqn:Hf; [|done].
  apply str_find_range in Hf; [|done].
  destruct (bracket_end _) as [e|] eqn:He; [|done].
  assert (0 < e).
  { unfold bracket_end in He. destruct (str_find _ _); [simplify_eq; lia|].
    apply fmap_Some in He as (i & _ & ->). lia. }
  change (String.length CALLED_TOOL) with 14 in Hf.
  apply IH; rewrite !str_from_length; lia.
Qed.

Lemma recover_tagged_fuel json names n m content op cl regions sf calls :
  op ≠ "" → sf ≤ String.length content →
  String.length content - sf < n → String.length content - sf < m →
  recover_tagged json names n content op cl regions sf calls =
  recover_tagged json names m content op cl regions sf calls.
Proof.
  intros Hop. revert m sf calls; induction n as [|n IH]; intros [|m] sf calls Hsf Hn Hm; try lia.
  cbn [recover_tagged]. destruct (str_find op _) as [offset|] eqn:Ho; [|done].
  destruct (str_find cl _) as [eo|] eqn:Hc; [|done].
  apply str_find_range in Ho; [|done]. rewrite str_from_length in Ho.
  assert (0 < String.length op) by (destruct op; [done|simpl; lia]).
  apply str_find_Some in Hc as (Hocc & Hle & _). rewrite str_from_length in Hle.
  apply starts_with_length in Hocc. rewrite !str_from_length in Hocc. apply IH; lia.
Qed.

Lemma recover_bracket_fuel json names n m remaining calls :
  String.length remaining < n → String.length remaining < m →
  recover_bracket json names n remaining calls = recover_bracket json names m remaining calls.
Proof.
  revert m remaining calls; induction n as [|n IH]; intros [|m] remaining calls Hn Hm; try lia.
  cbn [recover_bracket]. destruct (str_find CALLED_TOOL remaining) as [start|] eqn:Hf; [|done].
  apply str_find_range in Hf; [|done]. change (String.length CALLED_TOOL) with 14 in Hf.
  destruct (str_find "`" _) as [be|] eqn:Hb; [|done].
  set (ap := str_from _ remaining) in *.
  assert (String.length ap < String.length remaining)
    by (unfold ap; rewrite str_from_length; change (String.length CALLED_TOOL) with 14; lia).
  assert (∀ k, String.length (str_from k ap) ≤ String.length ap)
    by (intros; rewrite str_from_length; lia).
  case_bool_decide; cbn [negb]; [|apply IH; specialize (H0 (be + 1)); lia].
  destruct (strip_prefix _ (str_from (be + 1) ap) ≫= _) as [[ar b]|] eqn:Hs.
  - apply bind_Some in Hs as (x & Hx & Hs). apply bind_Some in Hs as (y & _ & [= -> ->]).
    apply strip_prefix_iff in Hx.
    assert (String.length ar ≤ String.length (str_from (be + 1) ap)) by (rewrite Hx, length_append; lia).
    specialize (H0 (be + 1)). apply IH; rewrite str_from_length; lia.
  - specialize (H0 (be + 1)). apply IH; lia.
Qed.

(** The loops over the text of a reply end: any fuel above the length of
    the text gives the same code regions, stripped text and recovered calls. *)
Theorem reply_loops_terminate json names text tag n :
  String.length text < n →
  let regions := find_code_regions text in
  sort_regions (inline_regions n text (fence_regions n text 0) 0) = regions ∧
  strip_xml_loop n (cat ["<"; tag; ">"]) (cat ["<"; tag; " "]) (cat ["</"; tag; ">"]) "" text =
    strip_xml_tag text tag ∧
  strip_pipe_loop n (cat ["<|"; tag; "|>"]) (cat ["<|/"; tag; "|>"]) "" text =
    strip_pipe_tag text tag ∧
  strip_bracket_loop n "" text = strip_bracket_tool_calls text ∧
  recover_bracket json names n text
    (foldl (fun calls oc => recover_tagged json names n text oc.1 oc.2 regions 0 calls) []
       RECOVERY_TAGS) = recover_tool_calls json names text.
Proof.
  intros Hn regions. split_and!.
  - unfold regions, find_code_regions. f_equal.
    rewrite (fence_regions_fuel n (S (String.length text))) by lia. apply inline_regions_fuel; lia.
  - apply strip_xml_loop_fuel; [done|lia..].
  - apply strip_pipe_loop_fuel; [done|lia..].
  - apply strip_bracket_loop_fuel; lia.
  - unfold recover_tool_calls. rewrite (recover_bracket_fuel _ _ n (S (String.length text))) by lia.
    f_equal. unfold RECOVERY_TAGS. cbn [foldl fst snd].
    rewrite !(recover_tagged_fuel _ _ n (S (String.length text))) by (done || lia). done.
Qed.

Lemma reply_loops_terminate_witness :
  strip_xml_loop 1000 "<t>" "<t " "</t>" "" "a<t>b</t>c" = "ac".
Proof.
  destruct (reply_loops_terminate (fun _ => None) [] "a<t>b</t>c" "t" 1000) as (_ & H & _);
    [simpl; lia|].
  exact H.
Defined.

(** ** The shape of a cleaned reply *)

Lemma collapse_loop_done fuel s :
  String.length s ≤ fuel → contains nl3 (collapse_loop fuel s) = false.
Proof.
  revert s; induction fuel as [|fuel IH]; intros s Hs.
  - destruct s; [done|simpl in Hs; lia].
  - cbn [collapse_loop]. destruct (contains nl3 s) eqn:Hc; [|done].
    apply IH. apply (str_replace_shrinks _ nl2) in Hc; [lia|simpl; lia].
Qed.

(** A cleaned reply has no three newlines in a row, whatever the model wrote. *)
Theorem clean_response_no_triple_newline `{RegexEngine} text :
  contains nl3 (clean_response text) = false.
Proof.
  unfold clean_response, collapse_newlines. set (r := strip_bracket_tool_calls _).
  destruct (trim_infix (collapse_loop (String.length r) r)) as (a & b & Hab).
  eapply contains_infix. rewrite <-Hab. by apply collapse_loop_done.
Qed.

(** ** Announced tool calls, declaratively *)

Lemma prefixes_unbordered : forallb unbordered PREFIXES = true.
Proof. vm_compute. reflexivity. Qed.

(** A reply announces a tool call exactly when its prose has no excluded phrase
    and somewhere one of the announcing prefixes with an action verb right
    behind it, or after a space anywhere later. *)
Theorem llm_signals_tool_intent_iff to_lowercase response :
  let lower := to_lowercase (strip_code_blocks response) in
  llm_signals_tool_intent to_lowercase response = true ↔
  (∀ e, e ∈ EXCLUSIONS → contains e lower = false) ∧
  ∃ prefix verb i, prefix ∈ PREFIXES ∧ verb ∈ ACTION_VERBS ∧ occurs_at prefix lower i = true ∧
    let after := str_from (i + String.length prefix) lower in
    (starts_with verb after = true ∨ contains (" " +:+ verb) after = true).
Proof.
  intros lower. unfold llm_signals_tool_intent. fold lower.
  destruct (existsb (fun e => contains e lower) EXCLUSIONS) eqn:He.
  - split; [done|]. intros [Hno _].
    apply existsb_exists in He as (e & Hin%list_elem_of_In & He). by rewrite Hno in He.
  - rewrite existsb_exists. split.
    + intros (prefix & Hp & Hi). split.
      { intros e Hin. destruct (contains e lower) eqn:Hc; [|done].
        assert (existsb (fun e => contains e lower) EXCLUSIONS = true); [|congruence].
        apply existsb_exists. exists e. by rewrite <-list_elem_of_In. }
      apply existsb_exists in Hi as (i & Hi%list_elem_of_In & Ha).
      apply existsb_exists in Ha as (verb & Hv%list_elem_of_In & Ha).
      exists prefix, verb, i. rewrite list_elem_of_In. split_and!; [done..| |].
      * apply match_indices_spec; [|done].
        pose proof prefixes_unbordered as Hu. rewrite forallb_forall in Hu. by apply Hu.
      * by apply orb_true_iff.
    + intros (_ & prefix & verb & i & Hp%list_elem_of_In & Hv & Ho & Ha).
      exists prefix. split; [done|]. apply existsb_exists. exists i. split.
      * apply list_elem_of_In, match_indices_spec; [|done].
        pose proof prefixes_unbordered as Hu. rewrite forallb_forall in Hu. by apply Hu.
      * apply existsb_exists. exists verb. rewrite <-list_elem_of_In. split; [done|].
        by apply orb_true_iff.
Qed.
