(* ===== verification/Reasoning.v ===== *)
(** * Reasoning: what is sent to a model and what is made of its answer

    [ReasoningContext], [RespondOutput] and the methods of [Reasoning] of
    [src/llm/reasoning.rs]: [complete], [plan], [select_tools],
    [evaluate_success], [respond] and [respond_with_tools].  They run over any
    instance of [LlmProvider].  serde's parser and printer are parameters. *)

From Stdlib Require Import Ascii.
From S2P Require Import Prelude Text TextSearch Provider ReplyText Prompts.

(** ** Data *)

Record ReasoningContext : Type := mkContext {
  rc_messages : list ChatMessage;
  available_tools : list ToolDefinition;
  job_description : option string;
  current_state : option string;
  rc_metadata : gmap string string;
  force_text : bool;
  rc_system_prompt : option string;
  model_override : option string
}.

Definition context_new : ReasoningContext := mkContext [] [] None None ∅ false None None.

Definition push_message (m : ChatMessage) (c : ReasoningContext) : ReasoningContext :=
  mkContext (rc_messages c ++ [m]) (available_tools c) (job_description c) (current_state c)
    (rc_metadata c) (force_text c) (rc_system_prompt c) (model_override c).

Definition set_force_text (c : ReasoningContext) : ReasoningContext :=
  mkContext (rc_messages c) (available_tools c) (job_description c) (current_state c)
    (rc_metadata c) true (rc_system_prompt c) (model_override c).

Definition set_messages (ms : list ChatMessage) (c : ReasoningContext) : ReasoningContext :=
  mkContext ms (available_tools c) (job_description c) (current_state c)
    (rc_metadata c) (force_text c) (rc_system_prompt c) (model_override c).

Definition set_tools (tools : list ToolDefinition) (c : ReasoningContext) : ReasoningContext :=
  mkContext (rc_messages c) tools (job_description c) (current_state c)
    (rc_metadata c) (force_text c) (rc_system_prompt c) (model_override c).

Record TokenUsage : Type := mkUsage {
  input_tokens : Z;
  output_tokens : Z;
  cache_read_input_tokens : Z;
  cache_creation_input_tokens : Z
}.

(** [u32] addition, in a release build. *)
Definition usage_total (u : TokenUsage) : Z := wrap32 (input_tokens u + output_tokens u).

Inductive ResponseAnomaly : Type := EmptyToolCompletion | EmptyTextResponse.

Record ResponseMetadata : Type := mkRespMeta { anomaly : option ResponseAnomaly }.

Inductive RespondResult : Type :=
| RText (text : string)
| RToolCalls (calls : list ToolCall) (content : option string).

Record RespondOutput : Type := mkOutput {
  ro_result : RespondResult;
  ro_usage : TokenUsage;
  ro_finish_reason : FinishReason;
  ro_metadata : ResponseMetadata
}.

Record ToolSelection : Type := mkSelection {
  ts_tool_name : string;
  ts_parameters : Json;
  ts_reasoning : string;
  ts_alternatives : list string;
  ts_tool_call_id : string
}.

Definition merge_system_messages (primary : string) (ms : list ChatMessage) : string :=
  match content <$> filter (fun m => role m = System) ms with
  | [] => primary
  | extra => cat [primary; nl2; "---"; nl2; str_join nl2 extra]
  end.

(** The single system message, then the conversation without its own. *)
Definition with_system (prompt : string) (ms : list ChatMessage) : list ChatMessage :=
  system (merge_system_messages prompt ms) :: filter (fun m => role m ≠ System) ms.

Definition FALLBACK_TEXT : string := "I'm not sure how to respond to that.".

(** The bit patterns of the [f32] constants [0.7], [0.3] and [0.1]. *)
Definition f32_0_7 : Z := 1060320051.
Definition f32_0_3 : Z := 1050253722.
Definition f32_0_1 : Z := 1036831949.

Section reasoning.
  Context `{LlmProvider P} `{RegexEngine}.
  Variable json_from_str : string -> option Json.
  Variable json_to_string : Json -> string.
  Implicit Types (r : Reasoning P) (ctx : ReasoningContext) (w : World).

Definition set_llm (p : P) r : Reasoning P :=
  mkReasoning p (workspace_system_prompt r) (skill_context r) (channel r)
    (model_name_hint r) (is_group_chat r) (conversation_context r).

Definition usage_of (rs : CompletionResponse) : TokenUsage :=
  mkUsage (rs_input_tokens rs) (rs_output_tokens rs) (rs_cache_read_input_tokens rs)
    (rs_cache_creation_input_tokens rs).

Definition tool_usage_of (rs : ToolCompletionResponse) : TokenUsage :=
  mkUsage (trs_input_tokens rs) (trs_output_tokens rs) (trs_cache_read_input_tokens rs)
    (trs_cache_creation_input_tokens rs).

(** Run the provider inside the engine. *)
Definition run_llm {A} (f : P -> World -> Result LlmError A * P * World) r w
    : Result LlmError A * Reasoning P * World :=
  let '(res, p, w') := f (llm r) w in (res, set_llm p r, w').

Definition map_ok {E A B} (f : A -> Result E B) (x : Result E A) : Result E B :=
  match x with Ok a => f a | Err e => Err e end.

Definition reasoning_complete (request : CompletionRequest) r w
    : Result LlmError (string * TokenUsage) * Reasoning P * World :=
  let '(res, r', w') := run_llm (complete request) r w in
  (map_ok (fun rs => Ok (clean_reply (rs_content rs), usage_of rs)) res, r', w').

(** ** Responding *)

Definition is_blank_text (s : string) : bool := str_is_empty (trim s).

(** The rationale of one call: the provider's, cleaned, or the shared
    narrative. *)
Definition with_rationale (narrative : option string) (tc : ToolCall) : ToolCall :=
  let rationale :=
    if match tc_reasoning tc with None => true | Some x => is_blank_text x end
    then match narrative with Some n => if str_is_empty n then None else Some n | None => None end
    else match clean_reply <$> tc_reasoning tc with
         | Some x => if is_blank_text x then None else Some x
         | None => None
         end in
  mkToolCall (tc_id tc) (tc_name tc) (tc_arguments tc) rationale.

(** A text answer: cleaned, or the fallback with its anomaly. *)
Definition text_output (raw : string) (a : ResponseAnomaly) (usage : TokenUsage)
    (fr : FinishReason) : RespondOutput :=
  let cleaned := clean_reply raw in
  if is_blank_text cleaned then mkOutput (RText FALLBACK_TEXT) usage fr (mkRespMeta (Some a))
  else mkOutput (RText cleaned) usage fr (mkRespMeta None).

Definition tool_output_of (tools : list ToolDefinition) (rs : ToolCompletionResponse)
    : RespondOutput :=
  match trs_tool_calls rs with
  | [] =>
      let raw := default "" (trs_content rs) in
      match recover_tool_calls_from_content json_from_str raw tools with
      | [] => text_output raw EmptyToolCompletion (tool_usage_of rs) (trs_finish_reason rs)
      | recovered =>
          let cleaned := clean_reply raw in
          mkOutput (RToolCalls recovered (if str_is_empty cleaned then None else Some cleaned))
            (tool_usage_of rs) (trs_finish_reason rs) (mkRespMeta None)
      end
  | calls =>
      let narrative := clean_reply <$> trs_content rs in
      mkOutput (RToolCalls (with_rationale narrative <$> calls) narrative)
        (tool_usage_of rs) (trs_finish_reason rs) (mkRespMeta None)
  end.

Definition request_messages ctx r : list ChatMessage :=
  with_system (default (build_system_prompt_with_tools (available_tools ctx) r)
                 (rc_system_prompt ctx)) (rc_messages ctx).

Definition effective_tools ctx : list ToolDefinition :=
  if force_text ctx then [] else available_tools ctx.

Definition respond_with_tools ctx r w : Result LlmError RespondOutput * Reasoning P * World :=
  let messages := request_messages ctx r in
  match effective_tools ctx with
  | [] =>
      let request := mkRequest messages (model_override ctx) (Some 4096%Z) (Some f32_0_7) None
                       (rc_metadata ctx) in
      let '(res, r', w') := run_llm (complete request) r w in
      (map_ok (fun rs => Ok (text_output (rs_content rs) EmptyTextResponse (usage_of rs)
                               (rs_finish_reason rs))) res, r', w')
  | tools =>
      let request := mkToolRequest messages tools (model_override ctx) (Some 4096%Z) (Some f32_0_7)
                       None (Some "auto") (rc_metadata ctx) in
      let '(res, r', w') := run_llm (complete_with_tools request) r w in
      (map_ok (fun rs => Ok (tool_output_of (available_tools ctx) rs)) res, r', w')
  end.

Definition respond ctx r w : Result LlmError string * Reasoning P * World :=
  let '(res, r', w') := respond_with_tools ctx r w in
  (map_ok (fun out =>
     Ok match ro_result out with
        | RText text => text
        | RToolCalls calls _ =>
            cat ["[Calling tools: ";
                 str_join ", " ((fun tc => cat ["`"; tc_name tc; "("; json_to_string (tc_arguments tc); ")`"])
                                  <$> calls); "]"]
        end) res, r', w').

(** ** Selecting tools *)

Definition selection_of (shared : string) (tc : ToolCall) : ToolSelection :=
  let rationale :=
    match clean_reply <$> tc_reasoning tc with
    | Some x => if is_blank_text x then shared else x
    | None => shared
    end in
  mkSelection (tc_name tc) (tc_arguments tc) rationale [] (tc_id tc).

Definition FinishReason_is_length (fr : FinishReason) : bool :=
  match fr with Length => true | _ => false end.

Definition select_tools ctx r w : Result LlmError (list ToolSelection) * Reasoning P * World :=
  match available_tools ctx with
  | [] => (Ok [], r, w)
  | tools =>
      let request := mkToolRequest (rc_messages ctx) tools None (Some 1024%Z) None None (Some "auto")
                       (rc_metadata ctx) in
      let '(res, r', w') := run_llm (complete_with_tools request) r w in
      (map_ok (fun rs =>
         if FinishReason_is_length (trs_finish_reason rs) then Ok []
         else Ok (selection_of (default "" (clean_reply <$> trs_content rs)) <$> trs_tool_calls rs))
       res, r', w')
  end.

Definition select_tool ctx r w : Result LlmError (option ToolSelection) * Reasoning P * World :=
  let '(res, r', w') := select_tools ctx r w in (map_ok (fun l => Ok (head l)) res, r', w').

(** ** Planning and evaluation

    [parse] is serde's parser for the result type; [Err] is its message. *)

Definition plan {A} (parse : string -> Result string A) ctx r w
    : Result LlmError A * Reasoning P * World :=
  let messages :=
    with_system (build_planning_prompt (available_tools ctx)) (rc_messages ctx) ++
    match job_description ctx with
    | Some job => [user (cat ["Please create a plan to complete this job:"; nl2; job])]
    | None => []
    end in
  let request := mkRequest messages None (Some 2048%Z) (Some f32_0_3) None ∅ in
  let '(res, r', w') := run_llm (complete request) r w in
  (map_ok (fun rs =>
     let cleaned := clean_reply (rs_content rs) in
     match parse (default cleaned (extract_json cleaned)) with
     | Ok a => Ok a
     | Err e => Err (InvalidResponse (model_name (llm r')) ("Failed to parse plan: " +:+ e))
     end) res, r', w').

Definition evaluate_success {A} (parse : string -> Result string A) ctx (result : string) r w
    : Result LlmError A * Reasoning P * World :=
  let question :=
    match job_description ctx with
    | Some job => cat ["Task description:"; nl_str; job; nl2; "Result:"; nl_str; result]
    | None => cat ["Result to evaluate:"; nl_str; result]
    end in
  let request := mkRequest [system EVALUATION_PROMPT; user question] None (Some 1024%Z)
                   (Some f32_0_1) None ∅ in
  let '(res, r', w') := run_llm (complete request) r w in
  (map_ok (fun rs =>
     let cleaned := clean_reply (rs_content rs) in
     match parse (default cleaned (extract_json cleaned)) with
     | Ok a => Ok a
     | Err e => Err (InvalidResponse (model_name (llm r')) ("Failed to parse evaluation: " +:+ e))
     end) res, r', w').

End reasoning.

(** ** Theorems *)

Lemma str_join_in sep l x : x ∈ l → contains x (str_join sep l) = true.
Proof.
  unfold str_join. induction l as [|y l IH]; [by intros ?%elem_of_nil|].
  intros [->|Hx]%elem_of_cons; apply contains_iff; destruct l as [|z l].
  - exists "", "". simpl. by rewrite append_nil_r.
  - exists "", (sep +:+ String.concat sep (z :: l)). done.
  - by apply elem_of_nil in Hx.
  - apply IH, contains_iff in Hx as (a & b & Hab).
    exists (y +:+ (sep +:+ a)), b.
    change (y +:+ (sep +:+ String.concat sep (z :: l)) = (y +:+ (sep +:+ a)) +:+ (x +:+ b)).
    rewrite Hab. by rewrite !append_assoc.
Qed.

Lemma cat_contains x l : x ∈ l → contains x (cat l) = true.
Proof. apply str_join_in. Qed.

Lemma contains_trans p q s : contains p q = true → contains q s = true → contains p s = true.
Proof.
  intros (a & b & ->)%contains_iff (c & d & ->)%contains_iff. apply contains_iff.
  exists (c +:+ a), (b +:+ d). by rewrite !append_assoc.
Qed.

(** What is sent to the model has exactly one system message, in front: it
    contains the engine's prompt and the text of every system message of the
    conversation, and the other messages follow unchanged in order. *)
Theorem single_system_message prompt ms :
  ∃ text, with_system prompt ms = system text :: filter (fun m => role m ≠ System) ms ∧
    contains prompt text = true ∧
    (∀ m, m ∈ ms → role m = System → contains (content m) text = true) ∧
    Forall (fun m => role m ≠ System) (tail (with_system prompt ms)).
Proof.
  eexists. split; [done|]. unfold merge_system_messages. split_and!.
  - destruct (content <$> _) as [|x extra].
    + apply contains_iff. exists "", "". simpl. by rewrite append_nil_r.
    + apply cat_contains. set_solver.
  - intros m Hm Hr.
    assert (content m ∈ content <$> filter (fun m => role m = System) ms) as Hin.
    { apply list_elem_of_fmap. exists m. split; [done|]. by apply list_elem_of_filter. }
    destruct (content <$> _) as [|x extra]; [by apply elem_of_nil in Hin|].
    apply (contains_trans _ (str_join nl2 (x :: extra))); [by apply str_join_in|].
    apply cat_contains. set_solver.
  - simpl. apply Forall_forall. intros m [Hm _]%list_elem_of_filter. done.
Qed.

Section reasoning_facts.
  Context `{LlmProvider P} `{RegexEngine}.
  Variable json_from_str : string -> option Json.

(** A well-formed answer: text is never blank and flagged exactly when it is
    the fallback; a tool round has at least one call. *)
Definition output_ok (out : RespondOutput) : Prop :=
  match ro_result out with
  | RText t => is_blank_text t = false ∧
               (anomaly (ro_metadata out) ≠ None → t = FALLBACK_TEXT)
  | RToolCalls calls _ => calls ≠ [] ∧ anomaly (ro_metadata out) = None
  end.

Lemma text_output_ok raw a u fr : output_ok (text_output raw a u fr).
Proof.
  unfold text_output. destruct (is_blank_text (clean_reply raw)) eqn:Hb; simpl; split; try done.
Qed.

Lemma tool_output_ok tools rs : output_ok (tool_output_of json_from_str tools rs).
Proof.
  unfold tool_output_of. destruct (trs_tool_calls rs) as [|c cs].
  - destruct (recover_tool_calls_from_content _ _ _); [apply text_output_ok|]. by split.
  - by split.
Qed.

(** Where the name of a returned call comes from. *)
Lemma tool_output_names tools rs calls c :
  ro_result (tool_output_of json_from_str tools rs) = RToolCalls calls c →
  (trs_tool_calls rs = [] ∧ Forall (fun tc => tc_name tc ∈ td_name <$> tools) calls) ∨
  ((tc_id <$> calls) = (tc_id <$> trs_tool_calls rs) ∧
   (tc_name <$> calls) = (tc_name <$> trs_tool_calls rs) ∧
   (tc_arguments <$> calls) = (tc_arguments <$> trs_tool_calls rs)).
Proof.
  unfold tool_output_of. destruct (trs_tool_calls rs) as [|t ts].
  - pose proof (recover_tool_calls_sound json_from_str (td_name <$> tools)
                  (default "" (trs_content rs))) as [Hn _].
    unfold recover_tool_calls_from_content. destruct (recover_tool_calls _ _ _) as [|x l].
    + unfold text_output. by case_match.
    + cbn [ro_result]. intros [= <- _]. by left.
  - cbn [ro_result]. intros [= <- _]. right.
    split_and!; simpl; f_equal; by rewrite <-list_fmap_compose.
Qed.

(** C39. Every answer of [respond_with_tools] is well formed: a text is never
    blank, an anomaly always comes with the fallback text, a tool round has
    calls and only when tools were offered; and the only errors are those of the
    provider. *)
Theorem respond_well_formed (ctx : ReasoningContext) (r : Reasoning P) w :
  match (respond_with_tools json_from_str ctx r w).1.1 with
  | Ok out => output_ok out ∧
      (effective_tools ctx = [] → ∃ t, ro_result out = RText t)
  | Err e => (∃ rq, (complete rq (llm r) w).1.1 = Err e) ∨
             (∃ rq, (complete_with_tools rq (llm r) w).1.1 = Err e)
  end.
Proof.
  unfold respond_with_tools. destruct (effective_tools ctx) as [|t ts] eqn:Ht.
  - unfold run_llm. set (rq := mkRequest _ _ _ _ _ _). clearbody rq.
    destruct (complete rq (llm r) w) as [[[rs|e] p] w'] eqn:Hc; cbn [fst snd map_ok].
    + split; [apply text_output_ok|]. intros _. unfold text_output. case_match; eauto.
    + left. exists rq. by rewrite Hc.
  - unfold run_llm. set (rq := mkToolRequest _ _ _ _ _ _ _ _). clearbody rq.
    destruct (complete_with_tools rq (llm r) w) as [[[rs|e] p] w'] eqn:Hc; cbn [fst snd map_ok].
    + split; [apply tool_output_ok|done].
    + right. exists rq. by rewrite Hc.
Qed.

(** A truncated selection yields no tools, and a complete one yields one
    selection per call, in order, with the identifier, name and arguments the
    provider gave. *)
Theorem select_tools_faithful (ctx : ReasoningContext) (r : Reasoning P) w :
  match (select_tools ctx r w).1.1 with
  | Ok sels =>
      sels = [] ∨
      ∃ rq rs, (complete_with_tools rq (llm r) w).1.1 = Ok rs ∧
        trq_tools rq = available_tools ctx ∧ trs_finish_reason rs ≠ Length ∧
        (ts_tool_call_id <$> sels) = (tc_id <$> trs_tool_calls rs) ∧
        (ts_tool_name <$> sels) = (tc_name <$> trs_tool_calls rs) ∧
        (ts_parameters <$> sels) = (tc_arguments <$> trs_tool_calls rs)
  | Err e => ∃ rq, (complete_with_tools rq (llm r) w).1.1 = Err e
  end.
Proof.
  unfold select_tools. destruct (available_tools ctx) as [|t ts] eqn:Ht; [by left|].
  unfold run_llm. set (rq := mkToolRequest _ _ _ _ _ _ _ _).
  destruct (complete_with_tools rq (llm r) w) as [[[rs|e] p] w'] eqn:Hc; cbn [fst snd map_ok].
  - destruct (FinishReason_is_length (trs_finish_reason rs)) eqn:Hl; [by left|]. right.
    exists rq, rs. rewrite Hc. split_and!; [done..| | | |].
    + by destruct (trs_finish_reason rs).
    + by rewrite <-list_fmap_compose.
    + by rewrite <-list_fmap_compose.
    + by rewrite <-list_fmap_compose.
  - exists rq. by rewrite Hc.
Qed.

End reasoning_facts.
