(* ===== verification/AgenticLoop.v ===== *)
(** * AgenticLoop: the loop of model calls and tool rounds

    [src/agent/agentic_loop.rs].  The trait [LoopDelegate] is a class over the
    state [D] of the delegate; every method that takes [&mut ReasoningContext]
    returns the new context.  [R] is the type of the reasoning engine passed
    through to the delegate and [E] the crate's error type.

    The loop is proved to refine an abstract machine that only knows phases,
    the iteration and the two counters: the machine's traces are the possible
    sequences of delegate calls.  A delegate that logs its calls makes the trace
    of the real loop observable without changing its result. *)

From Stdlib Require Import Ascii.
From S2P Require Import Prelude Text TextSearch Provider Session ReplyText Reasoning.

(** ** Data *)

Inductive LoopSignal : Type :=
| SigContinue
| SigStop
| InjectMessage (msg : string).

Inductive LoopOutcome : Type :=
| Response (text : string)
| Stopped
| MaxIterations
| Failure (reason : string)
| NeedApproval (pending : PendingApproval).

Inductive TextAction : Type :=
| Return (outcome : LoopOutcome)
| TextContinue.

Record AgenticLoopConfig : Type := mkLoopConfig {
  max_iterations : nat;
  enable_tool_intent_nudge : bool;
  max_tool_intent_nudges : Z
}.

Definition loop_config_default : AgenticLoopConfig := mkLoopConfig 50 true 2.

Class LoopDelegate (E R D : Type) := {
  check_signals : D -> LoopSignal * D;
  before_llm_call : ReasoningContext -> nat -> D -> option LoopOutcome * ReasoningContext * D;
  call_llm : R -> ReasoningContext -> nat -> D ->
             Result E RespondOutput * ReasoningContext * D;
  handle_text_response : string -> ResponseMetadata -> ReasoningContext -> D ->
             TextAction * ReasoningContext * D;
  execute_tool_calls : list ToolCall -> option string -> ReasoningContext -> D ->
             Result E (option LoopOutcome) * ReasoningContext * D;
  on_tool_intent_nudge : string -> ReasoningContext -> D -> ReasoningContext * D;
  after_iteration : nat -> D -> D
}.

(** The default bodies of the trait. *)
Definition default_on_tool_intent_nudge {D} (_ : string) (c : ReasoningContext) (d : D) := (c, d).
Definition default_after_iteration {D} (_ : nat) (d : D) := d.

(** ** The loop *)

Section loop.
  Context {E R D : Type} `{LoopDelegate E R D}.
  Variable to_lowercase : string -> string.
  Variable reasoning : R.
  Variable config : AgenticLoopConfig.

Definition should_nudge (ctx : ReasoningContext) (nudges : Z) (text : string) : bool :=
  enable_tool_intent_nudge config &&
  match available_tools ctx with [] => false | _ => true end &&
  negb (force_text ctx) &&
  (nudges <? max_tool_intent_nudges config)%Z &&
  llm_signals_tool_intent to_lowercase text.

Definition truncated_context (content : option string) (truncation_count : Z)
    (ctx : ReasoningContext) : ReasoningContext :=
  let ctx := match content with Some text => push_message (assistant text) ctx | None => ctx end in
  let ctx := push_message (user TRUNCATED_TOOL_CALL_NOTICE) ctx in
  if (3 <=? truncation_count)%Z then set_force_text ctx else ctx.

Abbreviation Run := (Result E LoopOutcome * ReasoningContext * D)%type.

(** What an iteration makes of the model's output.  [next] is the rest of the
    loop, given the counters, the context and the delegate. *)
Definition react (next : Z -> Z -> ReasoningContext -> D -> Run) (iteration : nat)
    (nudges truncation_count : Z) (output : RespondOutput) (ctx : ReasoningContext) (d : D) : Run :=
  match ro_result output with
  | RText text =>
      if should_nudge ctx nudges text then
        let '(ctx, d) := on_tool_intent_nudge text ctx d in
        let ctx := push_message (user TOOL_INTENT_NUDGE) (push_message (assistant text) ctx) in
        next (wrap32 (nudges + 1)) truncation_count ctx (after_iteration iteration d)
      else
        let nudges := if negb (llm_signals_tool_intent to_lowercase text) then 0%Z else nudges in
        let '(action, ctx, d) := handle_text_response text (ro_metadata output) ctx d in
        match action with
        | Return outcome => (Ok outcome, ctx, d)
        | TextContinue => next nudges truncation_count ctx (after_iteration iteration d)
        end
  | RToolCalls tool_calls content =>
      if FinishReason_is_length (ro_finish_reason output) then
        let count := wrap32 (truncation_count + 1) in
        next nudges count (truncated_context content count ctx) (after_iteration iteration d)
      else
        let '(res, ctx, d) := execute_tool_calls tool_calls content ctx d in
        match res with
        | Err e => (Err e, ctx, d)
        | Ok (Some outcome) => (Ok outcome, ctx, d)
        | Ok None => next 0%Z 0%Z ctx (after_iteration iteration d)
        end
  end.

(** The part of an iteration after the signals. *)
Definition iteration_body (next : Z -> Z -> ReasoningContext -> D -> Run) (iteration : nat)
    (nudges truncation_count : Z) (ctx : ReasoningContext) (d : D) : Run :=
  let '(early, ctx, d) := before_llm_call ctx iteration d in
  match early with
  | Some outcome => (Ok outcome, ctx, d)
  | None =>
      let '(res, ctx, d) := call_llm reasoning ctx iteration d in
      match res with
      | Err e => (Err e, ctx, d)
      | Ok output => react next iteration nudges truncation_count output ctx d
      end
  end.

(** [for iteration in 1..=config.max_iterations]: [n] iterations are left and
    [iteration] is the number of the next one. *)
Fixpoint loop_from (n iteration : nat) (nudges truncation_count : Z)
    (ctx : ReasoningContext) (d : D) : Run :=
  match n with
  | O => (Ok MaxIterations, ctx, d)
  | S n =>
      let next := loop_from n (S iteration) in
      let '(signal, d) := check_signals d in
      match signal with
      | SigContinue => iteration_body next iteration nudges truncation_count ctx d
      | SigStop => (Ok Stopped, ctx, d)
      | InjectMessage msg =>
          iteration_body next iteration nudges truncation_count (push_message (user msg) ctx) d
      end
  end.

Definition run_agentic_loop (ctx : ReasoningContext) (d : D)
    : Result E LoopOutcome * ReasoningContext * D :=
  loop_from (max_iterations config) 1 0 0 ctx d.

End loop.

(** ** Previews *)

Definition truncate_for_preview (s : string) (max : nat) : string :=
  if decide (String.length s ≤ max) then s
  else cat [str_to (floor_char_boundary s max) s; "..."].

(** ** The abstract machine *)

(** The calls a delegate sees, with its answers. *)
Inductive Event (E : Type) : Type :=
| EvSignal (s : LoopSignal)
| EvBefore (iteration : nat) (o : option LoopOutcome)
| EvCall (iteration : nat) (r : Result E RespondOutput)
| EvNudge (text : string)
| EvText (text : string) (a : TextAction)
| EvExec (calls : list ToolCall) (r : Result E (option LoopOutcome))
| EvAfter (iteration : nat).
Arguments EvSignal {E}.
Arguments EvBefore {E}.
Arguments EvCall {E}.
Arguments EvNudge {E}.
Arguments EvText {E}.
Arguments EvExec {E}.
Arguments EvAfter {E}.

Inductive Phase (E : Type) : Type :=
| AtSignal
| AtBefore
| AtCall
| AtReact (out : RespondOutput)
| AtAfter
| Halted (r : Result E LoopOutcome).
Arguments AtSignal {E}.
Arguments AtBefore {E}.
Arguments AtCall {E}.
Arguments AtReact {E}.
Arguments AtAfter {E}.
Arguments Halted {E}.

Record AState (E : Type) : Type := mkAState {
  phase : Phase E;
  iter : nat;
  nudge_count : Z;
  trunc_count : Z
}.
Arguments mkAState {E}.
Arguments phase {E}.
Arguments iter {E}.
Arguments nudge_count {E}.
Arguments trunc_count {E}.

Section machine.
  Context {E : Type}.
  Variable intent : string -> bool.
  Variables (max : nat) (max_nudges : Z).

(** The start of iteration [i], which is the end when [i] is too large. *)
Definition start_of (i : nat) : Phase E :=
  if decide (i ≤ max) then AtSignal else Halted (Ok MaxIterations).

Inductive astep : AState E -> Event E -> AState E -> Prop :=
| step_signal i n t s : s ≠ SigStop ->
    astep (mkAState AtSignal i n t) (EvSignal s) (mkAState AtBefore i n t)
| step_stop i n t :
    astep (mkAState AtSignal i n t) (EvSignal SigStop) (mkAState (Halted (Ok Stopped)) i n t)
| step_before i n t :
    astep (mkAState AtBefore i n t) (EvBefore i None) (mkAState AtCall i n t)
| step_before_exit i n t o :
    astep (mkAState AtBefore i n t) (EvBefore i (Some o)) (mkAState (Halted (Ok o)) i n t)
| step_call i n t out :
    astep (mkAState AtCall i n t) (EvCall i (Ok out)) (mkAState (AtReact out) i n t)
| step_call_err i n t e :
    astep (mkAState AtCall i n t) (EvCall i (Err e)) (mkAState (Halted (Err e)) i n t)
| step_nudge i n t out text :
    ro_result out = RText text -> intent text = true -> (n < max_nudges)%Z ->
    astep (mkAState (AtReact out) i n t) (EvNudge text) (mkAState AtAfter i (n + 1) t)
| step_text i n t out text :
    ro_result out = RText text ->
    astep (mkAState (AtReact out) i n t) (EvText text TextContinue)
      (mkAState AtAfter i (if intent text then n else 0%Z) t)
| step_text_exit i n t out text o :
    ro_result out = RText text ->
    astep (mkAState (AtReact out) i n t) (EvText text (Return o))
      (mkAState (Halted (Ok o)) i (if intent text then n else 0%Z) t)
| step_truncated i n t out calls c :
    ro_result out = RToolCalls calls c -> ro_finish_reason out = Length ->
    astep (mkAState (AtReact out) i n t) (EvAfter i)
      (mkAState (start_of (S i)) (S i) n (wrap32 (t + 1)))
| step_exec i n t out calls c :
    ro_result out = RToolCalls calls c -> ro_finish_reason out ≠ Length ->
    astep (mkAState (AtReact out) i n t) (EvExec calls (Ok None)) (mkAState AtAfter i 0 0)
| step_exec_exit i n t out calls c o :
    ro_result out = RToolCalls calls c -> ro_finish_reason out ≠ Length ->
    astep (mkAState (AtReact out) i n t) (EvExec calls (Ok (Some o)))
      (mkAState (Halted (Ok o)) i 0 0)
| step_exec_err i n t out calls c e :
    ro_result out = RToolCalls calls c -> ro_finish_reason out ≠ Length ->
    astep (mkAState (AtReact out) i n t) (EvExec calls (Err e))
      (mkAState (Halted (Err e)) i 0 0)
| step_after i n t :
    astep (mkAState AtAfter i n t) (EvAfter i) (mkAState (start_of (S i)) (S i) n t).

Inductive asteps : AState E -> list (Event E) -> AState E -> Prop :=
| asteps_nil s : asteps s [] s
| asteps_cons s e s' es s'' : astep s e s' -> asteps s' es s'' -> asteps s (e :: es) s''.

Definition ainit : AState E := mkAState (start_of 1) 1 0 0.

End machine.

(** ** A delegate that logs its calls *)

Definition logged `{LoopDelegate E R D} : LoopDelegate E R (D * list (Event E)) := {|
  check_signals := fun '(d, l) =>
    let '(s, d') := check_signals d in (s, (d', l ++ [EvSignal s]));
  before_llm_call := fun c i '(d, l) =>
    let '(o, c', d') := before_llm_call c i d in (o, c', (d', l ++ [EvBefore i o]));
  call_llm := fun r c i '(d, l) =>
    let '(res, c', d') := call_llm r c i d in (res, c', (d', l ++ [EvCall i res]));
  handle_text_response := fun t m c '(d, l) =>
    let '(a, c', d') := handle_text_response t m c d in (a, c', (d', l ++ [EvText t a]));
  execute_tool_calls := fun calls content c '(d, l) =>
    let '(res, c', d') := execute_tool_calls calls content c d in
    (res, c', (d', l ++ [EvExec calls res]));
  on_tool_intent_nudge := fun t c '(d, l) =>
    let '(c', d') := on_tool_intent_nudge t c d in (c', (d', l ++ [EvNudge t]));
  after_iteration := fun i '(d, l) => (after_iteration i d, l ++ [EvAfter i])
|}.

Section refinement.
  Context {E R D : Type} `{Hd : LoopDelegate E R D}.
  Variable to_lowercase : string -> string.
  Variable reasoning : R.
  Variable config : AgenticLoopConfig.

Abbreviation intent := (llm_signals_tool_intent to_lowercase).
Abbreviation steps := (asteps intent (max_iterations config) (max_tool_intent_nudges config)).
Abbreviation start i := (start_of (max_iterations config) i).

(** What a run owes its caller in machine state [s]: the run with the log is
    the same run, and the log extends the machine's trace to its end. *)
Definition refines (s : AState E) (log : list (Event E))
    (run : Result E LoopOutcome * ReasoningContext * D)
    (run_logged : Result E LoopOutcome * ReasoningContext * (D * list (Event E))) : Prop :=
  let '(res, ctx', d') := run in
  ∃ evs s', run_logged = (res, ctx', (d', log ++ evs)) ∧ steps s evs s' ∧ phase s' = Halted res.

(** One call of the delegate. *)
Lemma refines_step s e s' log run run_logged :
  astep intent (max_iterations config) (max_tool_intent_nudges config) s e s' →
  refines s' (log ++ [e]) run run_logged → refines s log run run_logged.
Proof.
  destruct run as [[res ctx'] d']. intros Hs (evs & s'' & -> & Hevs & Hp).
  exists (e :: evs), s''. rewrite <-app_assoc. split_and!; [done|by eapply asteps_cons|done].
Qed.

Lemma refines_halt s log res ctx' d' :
  phase s = Halted res → refines s log (res, ctx', d') (res, ctx', (d', log)).
Proof. intros Hp. exists [], s. rewrite app_nil_r. split_and!; [done|constructor|done]. Qed.

Definition refines_next (i : nat) (next : Z -> Z -> ReasoningContext -> D -> _)
    (next_logged : Z -> Z -> ReasoningContext -> D * list (Event E) -> _) : Prop :=
  ∀ nudges t ctx d log, (0 ≤ nudges ≤ u32_max)%Z →
    refines (mkAState (start (S i)) (S i) nudges t) log
      (next nudges t ctx d) (next_logged nudges t ctx (d, log)).

Lemma FinishReason_is_length_spec fr : FinishReason_is_length fr = true ↔ fr = Length.
Proof. by destruct fr. Qed.

Context (Hmax : (max_tool_intent_nudges config ≤ u32_max)%Z).

Lemma react_refines next next_logged i nudges t out ctx d log :
  refines_next i next next_logged → (0 ≤ nudges ≤ u32_max)%Z →
  refines (mkAState (AtReact out) i nudges t) log
    (react to_lowercase config next i nudges t out ctx d)
    (react (H := logged) to_lowercase config next_logged i nudges t out ctx (d, log)).
Proof.
  intros Hnext Hn. unfold react. destruct (ro_result out) as [text|calls content] eqn:Hres.
  - destruct (should_nudge _ _ _ _ _) eqn:Hnudge.
    + unfold should_nudge in Hnudge. zify_bool.
      cbn [logged on_tool_intent_nudge after_iteration].
      destruct (on_tool_intent_nudge text ctx d) as [ctx1 d1].
      eapply refines_step; [by eapply step_nudge|]. eapply refines_step; [by apply step_after|].
      rewrite wrap32_small by (unfold in_u32, u32_max in *; lia).
      apply Hnext. unfold u32_max in *. lia.
    + cbn [logged handle_text_response after_iteration].
      destruct (handle_text_response text (ro_metadata out) ctx d) as [[[o|] ctx1] d1].
      * eapply refines_step; [by eapply step_text_exit|]. by apply refines_halt.
      * eapply refines_step; [by eapply step_text|]. eapply refines_step; [by apply step_after|].
        destruct (intent text); cbn [negb]; apply Hnext; unfold u32_max in *; lia.
  - destruct (FinishReason_is_length _) eqn:Hfr.
    + apply FinishReason_is_length_spec in Hfr. cbn [logged after_iteration].
      eapply refines_step; [by eapply step_truncated|]. by apply Hnext.
    + assert (ro_finish_reason out ≠ Length) by (by destruct (ro_finish_reason out)).
      cbn [logged execute_tool_calls after_iteration].
      destruct (execute_tool_calls calls content ctx d) as [[[[o|]|e] ctx1] d1].
      * eapply refines_step; [by eapply step_exec_exit|]. by apply refines_halt.
      * eapply refines_step; [by eapply step_exec|]. eapply refines_step; [by apply step_after|].
        apply Hnext. unfold u32_max. lia.
      * eapply refines_step; [by eapply step_exec_err|]. by apply refines_halt.
Qed.

Lemma iteration_body_refines next next_logged i nudges t ctx d log :
  refines_next i next next_logged → (0 ≤ nudges ≤ u32_max)%Z →
  refines (mkAState AtBefore i nudges t) log
    (iteration_body to_lowercase reasoning config next i nudges t ctx d)
    (iteration_body (H := logged) to_lowercase reasoning config next_logged i nudges t ctx (d, log)).
Proof.
  intros Hnext Hn. unfold iteration_body. cbn [logged before_llm_call].
  destruct (before_llm_call ctx i d) as [[[o|] ctx1] d1].
  { eapply refines_step; [by apply step_before_exit|]. by apply refines_halt. }
  eapply refines_step; [by apply step_before|]. cbn [logged call_llm].
  destruct (call_llm reasoning ctx1 i d1) as [[[out|e] ctx2] d2].
  - eapply refines_step; [by apply step_call|]. by apply react_refines.
  - eapply refines_step; [by apply step_call_err|]. by apply refines_halt.
Qed.

Lemma loop_from_refines n i nudges t ctx d log :
  i + n = S (max_iterations config) → (0 ≤ nudges ≤ u32_max)%Z →
  refines (mkAState (start i) i nudges t) log
    (loop_from to_lowercase reasoning config n i nudges t ctx d)
    (loop_from (H := logged) to_lowercase reasoning config n i nudges t ctx (d, log)).
Proof.
  revert i nudges t ctx d log; induction n as [|n IH]; intros i nudges t ctx d log Hi Hn.
  { apply refines_halt. unfold start_of. simpl. by rewrite decide_False by lia. }
  assert (start i = AtSignal (E := E)) as -> by (unfold start_of; by rewrite decide_True by lia).
  cbn [loop_from logged check_signals]. destruct (check_signals d) as [sig d1].
  assert (refines_next i (loop_from to_lowercase reasoning config n (S i))
            (loop_from (H := logged) to_lowercase reasoning config n (S i))) as Hnext.
  { intros ?????. apply IH; lia. }
  destruct sig.
  - apply (refines_step _ (EvSignal SigContinue) (mkAState AtBefore i nudges t));
      [by apply step_signal|]. by apply iteration_body_refines.
  - eapply refines_step; [by apply step_stop|]. by apply refines_halt.
  - apply (refines_step _ (EvSignal (InjectMessage msg)) (mkAState AtBefore i nudges t));
      [by apply step_signal|]. by apply iteration_body_refines.
Qed.

End refinement.

(** ** Invariants of a delegate *)

(** What every method of a delegate keeps, a run of the loop keeps. *)
Class KeptByDelegate `{LoopDelegate E R D} (I : D -> Prop) : Prop := {
  kept_signals d : I d → I (check_signals d).2;
  kept_before ctx i d : I d → I (before_llm_call ctx i d).2;
  kept_call r ctx i d : I d → I (call_llm r ctx i d).2;
  kept_text t m ctx d : I d → I (handle_text_response t m ctx d).2;
  kept_exec calls content ctx d : I d → I (execute_tool_calls calls content ctx d).2;
  kept_nudge t ctx d : I d → I (on_tool_intent_nudge t ctx d).2;
  kept_after i d : I d → I (after_iteration i d)
}.

Lemma run_agentic_loop_keeps `{LoopDelegate E R D} (I : D -> Prop) `{!KeptByDelegate I} lower r config ctx d :
  I d → I (run_agentic_loop lower r config ctx d).2.
Proof.
  unfold run_agentic_loop. assert (∀ n i nudges t ctx d, I d → I (loop_from lower r config n i nudges t ctx d).2) as Hloop;
    [|apply Hloop]. clear ctx d.
  induction n as [|n IH]; intros i nudges t ctx d Hd; [done|]. cbn [loop_from].
  assert (∀ ctx d, I d → I (iteration_body lower r config (loop_from lower r config n (S i)) i nudges t ctx d).2) as Hbody.
  { clear ctx d Hd. intros ctx d Hd. unfold iteration_body. pose proof (kept_before ctx i d Hd) as Hb.
    destruct (before_llm_call ctx i d) as [[[o|] ctx1] d1]; [done|]. pose proof (kept_call r ctx1 i d1 Hb) as Hc.
    destruct (call_llm r ctx1 i d1) as [[[out|e] ctx2] d2]; [|done]. unfold react.
    destruct (ro_result out) as [text|calls content].
    - destruct (should_nudge _ _ _ _ _).
      + pose proof (kept_nudge text ctx2 d2 Hc) as Hn. destruct (on_tool_intent_nudge text ctx2 d2). by apply IH, kept_after.
      + pose proof (kept_text text (ro_metadata out) ctx2 d2 Hc) as Ht.
        destruct (handle_text_response text (ro_metadata out) ctx2 d2) as [[[o|] ctx3] d3]; [done|]. by apply IH, kept_after.
    - destruct (FinishReason_is_length _); [by apply IH, kept_after|].
      pose proof (kept_exec calls content ctx2 d2 Hc) as He.
      destruct (execute_tool_calls calls content ctx2 d2) as [[[[o|]|e] ctx3] d3]; [done| |done]. by apply IH, kept_after. }
  pose proof (kept_signals d Hd) as Hs. destruct (check_signals d) as [[] d1]; [by apply Hbody|done|by apply Hbody].
Qed.

(** ** Invariants of the machine *)

Section traces.
  Context {E : Type}.
  Variable intent : string -> bool.
  Variables (max : nat) (max_nudges : Z).
  Abbreviation steps := (asteps (E := E) intent max max_nudges).

Lemma asteps_app s l1 l2 s'' :
  steps s (l1 ++ l2) s'' ↔ ∃ s', steps s l1 s' ∧ steps s' l2 s''.
Proof.
  split.
  - revert s; induction l1 as [|e l1 IH]; intros s Hs; simpl in Hs.
    + exists s. split; [constructor|done].
    + inversion_clear Hs as [|? ? s1 ? ? H1 H2]. apply IH in H2 as (s' & ? & ?).
      exists s'. split; [by eapply asteps_cons|done].
  - intros (s' & H1 & H2). induction H1 as [|s e s1 es s2 He _ IH]; simpl; [done|].
    eapply asteps_cons; [done|auto].
Qed.

(** A state invariant of the machine, over the trace so far. *)
Lemma asteps_invariant (I : list (Event E) -> AState E -> Prop) s0 evs s :
  I [] s0 →
  (∀ l s e s', I l s → astep intent max max_nudges s e s' → I (l ++ [e]) s') →
  steps s0 evs s → I evs s.
Proof.
  intros H0 Hstep. revert s. induction evs as [|e evs IH] using rev_ind; intros s Hs.
  - by inversion Hs; subst.
  - apply asteps_app in Hs as (s1 & Hs1 & Hs2).
    inversion_clear Hs2 as [|? ? s2 ? ? He Hn]. inversion Hn; subst. eauto.
Qed.

(** The iterations in which the model was called. *)
Definition call_iterations (l : list (Event E)) : list nat :=
  omap (fun e => match e with EvCall i _ => Some i | _ => None end) l.

Definition calls_inv (l : list (Event E)) (s : AState E) : Prop :=
  match phase s with
  | AtSignal | AtBefore | AtCall =>
      1 ≤ iter s ≤ max ∧ call_iterations l = seq 1 (iter s - 1)
  | AtReact _ | AtAfter => 1 ≤ iter s ≤ max ∧ call_iterations l = seq 1 (iter s)
  | Halted _ => ∃ k, k ≤ max ∧ call_iterations l = seq 1 k
  end.

Lemma calls_inv_start l i n t :
  i ≤ max → call_iterations l = seq 1 i → calls_inv l (mkAState (start_of max (S i)) (S i) n t).
Proof.
  intros Hi Hl. unfold calls_inv, start_of. simpl. case_decide; simpl.
  - split; [lia|]. by rewrite Nat.sub_0_r.
  - eauto.
Qed.

Lemma seq_snoc i : 1 ≤ i → seq 1 (i - 1) ++ [i] = seq 1 i.
Proof. intros. destruct i as [|i]; [lia|]. by rewrite seq_S, Nat.sub_1_r. Qed.

Lemma calls_inv_step l s e s' :
  calls_inv l s → astep intent max max_nudges s e s' → calls_inv (l ++ [e]) s'.
Proof.
  intros Hinv Hs. assert (call_iterations (l ++ [e]) = call_iterations l ++ call_iterations [e]) as Happ
    by apply omap_app.
  inversion Hs; subst; unfold calls_inv in Hinv; simpl in Hinv; destruct Hinv as [Hi Hc];
    try (apply calls_inv_start; [lia|]); unfold calls_inv; simpl; rewrite Happ, Hc; simpl;
    rewrite ?app_nil_r, ?seq_snoc by lia;
    first [done | split; [lia|done] | eexists; split; [|done]; lia].
Qed.

Lemma calls_inv_trace evs s : steps (ainit max) evs s → calls_inv evs s.
Proof.
  apply asteps_invariant; [|apply calls_inv_step].
  unfold ainit. apply calls_inv_start; [lia|done].
Qed.

(** The answer being handled is the last event. *)
Definition react_inv (l : list (Event E)) (s : AState E) : Prop :=
  ∀ out, phase s = AtReact out → ∃ l0 i, l = l0 ++ [EvCall i (Ok out)].

Lemma react_inv_trace evs s : steps (ainit max) evs s → react_inv evs s.
Proof.
  apply asteps_invariant.
  - intros out. unfold ainit, start_of. simpl. by case_decide.
  - intros l s1 e s2 _ Hs out. inversion Hs; subst; simpl; try done;
      try (unfold start_of; by case_decide). intros [= ->]. eauto.
Qed.

(** A call of [execute_tool_calls] comes right after the complete answer that
    asked for it. *)
Lemma exec_justified evs s l1 l2 calls r :
  steps (ainit max) evs s → evs = l1 ++ EvExec calls r :: l2 →
  ∃ l0 i out c, l1 = l0 ++ [EvCall i (Ok out)] ∧ ro_result out = RToolCalls calls c ∧
                ro_finish_reason out ≠ Length.
Proof.
  intros Hs ->. apply asteps_app in Hs as (s1 & H1 & H2).
  inversion_clear H2 as [|? ? s2 ? ? He _].
  apply react_inv_trace in H1. inversion He; subst;
    destruct (H1 _ eq_refl) as (l0 & j & ->); eauto 10.
Qed.

(** What makes the nudge counter start again. *)
Definition resets (e : Event E) : bool :=
  match e with
  | EvExec _ _ => true
  | EvText t _ => negb (intent t)
  | _ => false
  end.

Definition is_nudge (e : Event E) : bool := match e with EvNudge _ => true | _ => false end.

Definition nudges_in (l : list (Event E)) : Z :=
  Z.of_nat (length (List.filter is_nudge l)).

Lemma nudges_accumulate s evs s' :
  steps s evs s' → forallb (fun e => negb (resets e)) evs = true →
  nudge_count s' = (nudge_count s + nudges_in evs)%Z.
Proof.
  induction 1 as [s|s e s1 es s2 He Hes IH]; intros Hr.
  - unfold nudges_in. simpl. lia.
  - simpl in Hr. apply andb_true_iff in Hr as [Hr1 Hr2]. rewrite (IH Hr2).
    unfold nudges_in. cbn [List.filter]. destruct He; simpl in *; try done; try lia.
    + by destruct (intent text).
    + by destruct (intent text).
Qed.

Lemma nudge_count_range evs s :
  (0 ≤ max_nudges)%Z → steps (ainit max) evs s → (0 ≤ nudge_count s ≤ max_nudges)%Z.
Proof.
  intros Hm. apply (asteps_invariant (fun _ s => 0 ≤ nudge_count s ≤ max_nudges)%Z).
  - simpl. lia.
  - intros l s1 e s2 Hr Hs. inversion Hs; subst; simpl in *; try lia; case_match; lia.
Qed.

Lemma nudges_bounded_trace evs s l1 l2 l3 :
  (0 ≤ max_nudges)%Z → steps (ainit max) evs s → evs = l1 ++ l2 ++ l3 →
  forallb (fun e => negb (resets e)) l2 = true → (nudges_in l2 ≤ max_nudges)%Z.
Proof.
  intros Hm Hs -> Hr. apply asteps_app in Hs as (s1 & H1 & H2).
  apply asteps_app in H2 as (s2 & H2 & _).
  pose proof (nudges_accumulate _ _ _ H2 Hr) as Ha.
  pose proof (nudge_count_range _ _ Hm H1).
  assert (steps (ainit max) (l1 ++ l2) s2) as H12 by (apply asteps_app; eauto).
  pose proof (nudge_count_range _ _ Hm H12). lia.
Qed.

End traces.

(** ** Theorems *)

Section theorems.
  Context {E R D : Type} `{Hd : LoopDelegate E R D}.
  Variable to_lowercase : string -> string.
  Variable reasoning : R.
  Variable config : AgenticLoopConfig.
  Context (Hmax : in_u32 (max_tool_intent_nudges config)).

Abbreviation intent := (llm_signals_tool_intent to_lowercase).

(** The calls the delegate sees in a run. *)
Definition run_log (ctx : ReasoningContext) (d : D) : list (Event E) :=
  (run_agentic_loop (H := logged) to_lowercase reasoning config ctx (d, [])).2.2.

Lemma run_refines ctx d :
  refines to_lowercase config (ainit (max_iterations config)) []
    (run_agentic_loop to_lowercase reasoning config ctx d)
    (run_agentic_loop (H := logged) to_lowercase reasoning config ctx (d, [])).
Proof.
  unfold in_u32 in Hmax. apply loop_from_refines; unfold u32_max; lia.
Qed.

Lemma run_log_trace ctx d :
  ∃ s, asteps intent (max_iterations config) (max_tool_intent_nudges config)
         (ainit (max_iterations config)) (run_log ctx d) s ∧
       phase s = Halted (run_agentic_loop to_lowercase reasoning config ctx d).1.1.
Proof.
  pose proof (run_refines ctx d) as Hr. unfold refines in Hr. unfold run_log.
  destruct (run_agentic_loop _ _ _ _ d) as [[res ctx'] d'].
  destruct Hr as (evs & s & -> & Hs & Hp). by exists s.
Qed.

(** C2. The loop refines the abstract machine: logging the delegate's calls does
    not change the result, the context or the delegate, and the logged calls are
    a trace of the machine that ends with the loop's result. *)
Theorem loop_refines_machine ctx d :
  let '(res, ctx', d') := run_agentic_loop to_lowercase reasoning config ctx d in
  ∃ evs s,
    run_agentic_loop (H := logged) to_lowercase reasoning config ctx (d, []) = (res, ctx', (d', evs)) ∧
    asteps intent (max_iterations config) (max_tool_intent_nudges config)
      (ainit (max_iterations config)) evs s ∧
    phase s = Halted res.
Proof.
  pose proof (run_refines ctx d) as Hr. unfold refines in Hr.
  destruct (run_agentic_loop _ _ _ _ d) as [[res ctx'] d']. exact Hr.
Qed.

(** C37. The loop ends after at most [max_iterations] model calls, one per
    iteration: whatever the delegate does, the calls are those of the iterations
    [1] to [k] with [k] at most the limit. *)
Theorem loop_calls_bounded ctx d :
  ∃ k, k ≤ max_iterations config ∧ call_iterations (run_log ctx d) = seq 1 k.
Proof.
  destruct (run_log_trace ctx d) as (s & Hs & Hp). apply calls_inv_trace in Hs.
  unfold calls_inv in Hs. rewrite Hp in Hs. exact Hs.
Qed.

(** Tool calls are executed only right after the answer that contains them,
    and never when that answer was cut off by the length limit. *)
Theorem truncated_calls_never_run ctx d l1 l2 calls r :
  run_log ctx d = l1 ++ EvExec calls r :: l2 →
  ∃ l0 i out c, l1 = l0 ++ [EvCall i (Ok out)] ∧ ro_result out = RToolCalls calls c ∧
                ro_finish_reason out ≠ Length.
Proof. destruct (run_log_trace ctx d) as (s & Hs & _). by eapply exec_justified. Qed.

(** Between two tool rounds or texts without announced actions the model is
    nudged at most [max_tool_intent_nudges] times. *)
Theorem nudges_bounded ctx d l1 l2 l3 :
  run_log ctx d = l1 ++ l2 ++ l3 → forallb (fun e => negb (resets intent e)) l2 = true →
  (nudges_in l2 ≤ max_tool_intent_nudges config)%Z.
Proof.
  unfold in_u32 in Hmax. destruct (run_log_trace ctx d) as (s & Hs & _).
  intros Hl Hr. eapply nudges_bounded_trace; [|exact Hs|exact Hl|exact Hr]. lia.
Qed.

End theorems.

(** ** A scripted delegate *)

Definition scripted : LoopDelegate string unit (list RespondOutput) := {|
  check_signals := fun d => (SigContinue, d);
  before_llm_call := fun c _ d => (None, c, d);
  call_llm := fun _ c _ d =>
    match d with [] => (Err "no more answers", c, []) | o :: d => (Ok o, c, d) end;
  handle_text_response := fun t _ c d => (Return (Response t), c, d);
  execute_tool_calls := fun _ _ c d => (Ok None, c, d);
  on_tool_intent_nudge := fun _ c d => default_on_tool_intent_nudge "" c d;
  after_iteration := fun i d => default_after_iteration i d
|}.

Definition demo_call : ToolCall := mkToolCall "c1" "search" JNull None.
Definition demo_answer (r : RespondResult) (fr : FinishReason) : RespondOutput :=
  mkOutput r (mkUsage 0 0 0 0) fr (mkRespMeta None).
Definition demo_script : list RespondOutput :=
  [demo_answer (RText "Let me search for it.") Stop;
   demo_answer (RToolCalls [demo_call] None) Length;
   demo_answer (RToolCalls [demo_call] None) ToolUse;
   demo_answer (RText "Found it.") Stop].
Definition demo_context : ReasoningContext :=
  set_tools [mkToolDefinition "search" "" JNull] context_new.
Definition demo_log : list (Event string) :=
  run_log (Hd := scripted) (string_map ascii_lower) tt loop_config_default demo_context demo_script.

Example demo_run :
  (run_agentic_loop (H := scripted) (string_map ascii_lower) tt loop_config_default demo_context
     demo_script).1.1 = Ok (Response "Found it.").
Proof. vm_compute. reflexivity. Qed.

Lemma loop_refines_machine_witness :
  ∃ evs, (run_agentic_loop (H := logged (H := scripted)) (string_map ascii_lower) tt loop_config_default
            demo_context (demo_script, [])).2.2 = evs ∧ length evs = 18.
Proof.
  pose proof (loop_refines_machine (Hd := scripted) (string_map ascii_lower) tt loop_config_default
                ltac:(unfold in_u32; simpl; lia) demo_context demo_script) as H.
  destruct (run_agentic_loop (H := scripted) _ _ _ _ _) as [[res ctx'] d'].
  destruct H as (evs & s & Hrun & _). exists evs. split; [by rewrite Hrun|].
  assert (evs = demo_log) as -> by (unfold demo_log, run_log; by rewrite Hrun).
  vm_compute. reflexivity.
Defined.

Lemma loop_calls_bounded_witness : ∃ k, k ≤ 50 ∧ call_iterations demo_log = seq 1 k.
Proof.
  apply (loop_calls_bounded (Hd := scripted) (string_map ascii_lower) tt loop_config_default).
  unfold in_u32. simpl. lia.
Defined.

Lemma truncated_calls_never_run_witness :
  ∃ l0 i out c, take 12 demo_log = l0 ++ [EvCall i (Ok out)] ∧
    ro_result out = RToolCalls [demo_call] c ∧ ro_finish_reason out ≠ Length.
Proof.
  apply (truncated_calls_never_run (Hd := scripted) (string_map ascii_lower) tt loop_config_default
           ltac:(unfold in_u32; simpl; lia) demo_context demo_script (take 12 demo_log)
           (drop 13 demo_log) [demo_call] (Ok None)).
  vm_compute. reflexivity.
Defined.

Lemma nudges_bounded_witness : (nudges_in (take 9 demo_log) ≤ 2)%Z ∧ nudges_in (take 9 demo_log) = 1%Z.
Proof.
  split; [|vm_compute; reflexivity].
  apply (nudges_bounded (Hd := scripted) (string_map ascii_lower) tt loop_config_default
           ltac:(unfold in_u32; simpl; lia) demo_context demo_script [] (take 9 demo_log)
           (drop 9 demo_log)); vm_compute; reflexivity.
Defined.
