(* ===== verification/CircuitBreaker.v ===== *)
(** * Circuit breaker: [src/llm/circuit_breaker.rs]

    The decorator that rejects calls to a degraded provider.  Its state is
    behind a mutex that is released while the inner call runs, so concurrent
    calls interleave: the step relation [breaker_step] has one step per
    critical section, and the invariants hold for every interleaving. *)

From stdpp Require Import pretty.
From S2P Require Import Prelude Provider.
Local Open Scope Z_scope.

Record CircuitBreakerConfig : Type := mkBreakerConfig {
  failure_threshold : Z;
  recovery_timeout : Z;
  half_open_successes_needed : Z
}.

Definition breaker_config_default : CircuitBreakerConfig := mkBreakerConfig 5 (secs 30) 2.

Inductive CircuitState : Type := Closed | Open | HalfOpen.

#[export] Instance CircuitState_eq_dec : EqDecision CircuitState.
Proof. solve_decision. Defined.

Record BreakerState : Type := mkBreaker {
  circuit : CircuitState;
  consecutive_failures : Z;
  opened_at : option Z;
  half_open_successes : Z
}.

Definition breaker_new : BreakerState := mkBreaker Closed 0 None 0.

(** [Instant::elapsed], which saturates at zero. *)
Definition elapsed_since (t now : Z) : Z := Z.max 0 (now - t).

(** A duration printed with [{:.0}]: whole seconds, ties to even. *)
Definition round_secs (d : Z) : Z :=
  let q := d / secs 1 in
  let r := 2 * (d mod secs 1) in
  if (secs 1 <? r) || ((r =? secs 1) && Z.odd q) then q + 1 else q.

Definition open_error (provider : string) (failures remaining : Z) : LlmError :=
  RequestFailed provider
    ("Circuit breaker open (" +:+ pretty failures +:+ " consecutive failures, recovery in " +:+
     pretty (round_secs remaining) +:+ "s)").

(** [t0] and [t1] are the two readings of the clock. *)
Definition check_allowed (cfg : CircuitBreakerConfig) (provider : string) (t0 t1 : Z)
    (st : BreakerState) : BreakerState * Result LlmError unit :=
  match circuit st with
  | Closed | HalfOpen => (st, Ok ())
  | Open =>
      match opened_at st with
      | Some o =>
          if recovery_timeout cfg <=? elapsed_since o t0 then
            (mkBreaker HalfOpen (consecutive_failures st) (opened_at st) 0, Ok ())
          else
            let remaining := Z.max 0 (recovery_timeout cfg - elapsed_since o t1) in
            (st, Err (open_error provider (consecutive_failures st) remaining))
      | None =>
          (mkBreaker Closed (consecutive_failures st) (opened_at st) (half_open_successes st), Ok ())
      end
  end.

(** The [debug_assert!] of [record_success]: it fails on an open circuit. *)
Definition success_assertion (st : BreakerState) : bool :=
  match circuit st with Open => false | _ => true end.

Definition record_success (cfg : CircuitBreakerConfig) (st : BreakerState) : BreakerState :=
  match circuit st with
  | Closed => mkBreaker Closed 0 (opened_at st) (half_open_successes st)
  | HalfOpen =>
      let n := wrap32 (half_open_successes st + 1) in
      if half_open_successes_needed cfg <=? n
      then mkBreaker Closed 0 None n
      else mkBreaker HalfOpen (consecutive_failures st) (opened_at st) n
  | Open => mkBreaker Closed 0 None (half_open_successes st)
  end.

Definition is_transient (err : LlmError) : bool :=
  match err with
  | RequestFailed _ _ | RateLimited _ _ | InvalidResponse _ _ | EmptyResponse _
  | SessionExpired _ | SessionRenewalFailed _ _ | Http _ | Io _ => true
  | _ => false
  end.

Definition record_failure (cfg : CircuitBreakerConfig) (err : LlmError) (now : Z)
    (st : BreakerState) : BreakerState :=
  if negb (is_transient err) then st else
  match circuit st with
  | Closed =>
      let n := wrap32 (consecutive_failures st + 1) in
      if failure_threshold cfg <=? n
      then mkBreaker Open n (Some now) (half_open_successes st)
      else mkBreaker Closed n (opened_at st) (half_open_successes st)
  | HalfOpen => mkBreaker Open (consecutive_failures st) (Some now) 0
  | Open => st
  end.

(** ** The decorator *)

Record CircuitBreakerProvider (P : Type) : Type := mkCircuitBreaker {
  cb_inner : P;
  cb_state : BreakerState;
  cb_config : CircuitBreakerConfig
}.
Arguments mkCircuitBreaker {P}.
Arguments cb_inner {P}.
Arguments cb_state {P}.
Arguments cb_config {P}.

Definition breaker_provider_new {P} (inner : P) (cfg : CircuitBreakerConfig)
    : CircuitBreakerProvider P := mkCircuitBreaker inner breaker_new cfg.

Section decorator.
Context {P : Type} `{LlmProvider P}.

(** The body shared by [complete] and [complete_with_tools]. *)
Definition guarded {A} (call : P -> World -> Result LlmError A * P * World)
    (cb : CircuitBreakerProvider P) (w : World)
    : Result LlmError A * CircuitBreakerProvider P * World :=
  let '(t0, w0) := now w in
  let '(t1, w1) := now w0 in
  let '(st, allowed) :=
    check_allowed (cb_config cb) (model_name (cb_inner cb)) t0 t1 (cb_state cb) in
  match allowed with
  | Err e => (Err e, mkCircuitBreaker (cb_inner cb) st (cb_config cb), w1)
  | Ok _ =>
      match call (cb_inner cb) w1 with
      | (Ok resp, p, w2) =>
          (Ok resp, mkCircuitBreaker p (record_success (cb_config cb) st) (cb_config cb), w2)
      | (Err err, p, w2) =>
          let '(t2, w3) := now w2 in
          (Err err, mkCircuitBreaker p (record_failure (cb_config cb) err t2 st) (cb_config cb), w3)
      end
  end.

#[export] Instance circuit_breaker_provider : LlmProvider (CircuitBreakerProvider P) := {|
  model_name := fun cb => model_name (cb_inner cb);
  cost_per_token := fun cb => cost_per_token (cb_inner cb);
  complete := fun req => guarded (complete req);
  complete_with_tools := fun req => guarded (complete_with_tools req);
  list_models := fun cb w =>
    let '(r, p, w') := list_models (cb_inner cb) w in
    (r, mkCircuitBreaker p (cb_state cb) (cb_config cb), w');
  model_metadata := fun cb w =>
    let '(r, p, w') := model_metadata (cb_inner cb) w in
    (r, mkCircuitBreaker p (cb_state cb) (cb_config cb), w');
  effective_model_name := fun rq cb =>
    let '(n, p) := effective_model_name rq (cb_inner cb) in
    (n, mkCircuitBreaker p (cb_state cb) (cb_config cb));
  active_model_name := fun cb => active_model_name (cb_inner cb);
  set_model := fun m cb =>
    let '(r, p) := set_model m (cb_inner cb) in
    (r, mkCircuitBreaker p (cb_state cb) (cb_config cb));
  calculate_cost := fun i o cb => calculate_cost i o (cb_inner cb);
  cache_write_multiplier := fun cb => cache_write_multiplier (cb_inner cb);
  cache_read_discount := fun cb => cache_read_discount (cb_inner cb)
|}.
End decorator.

(** ** Interleavings *)

(** The breaker, the number of calls in flight and the current time. *)
Record CbWorld : Type := mkCbWorld {
  cbw_state : BreakerState;
  cbw_in_flight : nat;
  cbw_time : Z
}.

Section interleaving.
Context (cfg : CircuitBreakerConfig) (provider : string).

Inductive breaker_step : CbWorld -> CbWorld -> Prop :=
| bs_tick w d : 0 ≤ d →
    breaker_step w (mkCbWorld (cbw_state w) (cbw_in_flight w) (cbw_time w + d))
| bs_admit w st' :
    check_allowed cfg provider (cbw_time w) (cbw_time w) (cbw_state w) = (st', Ok ()) →
    breaker_step w (mkCbWorld st' (S (cbw_in_flight w)) (cbw_time w))
| bs_reject w st' e :
    check_allowed cfg provider (cbw_time w) (cbw_time w) (cbw_state w) = (st', Err e) →
    breaker_step w (mkCbWorld st' (cbw_in_flight w) (cbw_time w))
| bs_success w n : cbw_in_flight w = S n →
    breaker_step w (mkCbWorld (record_success cfg (cbw_state w)) n (cbw_time w))
| bs_failure w n err : cbw_in_flight w = S n →
    breaker_step w (mkCbWorld (record_failure cfg err (cbw_time w) (cbw_state w)) n (cbw_time w)).

Definition breaker_start (t : Z) : CbWorld := mkCbWorld breaker_new 0 t.

(** The configuration is made of [u32] values. *)
Definition config_ok : Prop :=
  in_u32 (failure_threshold cfg) ∧ in_u32 (half_open_successes_needed cfg).

(** The invariant of the breaker at time [t]. *)
Record breaker_ok (t : Z) (st : BreakerState) : Prop := {
  bo_failures : 0 ≤ consecutive_failures st ≤ Z.max 1 (failure_threshold cfg);
  bo_closed : circuit st = Closed → consecutive_failures st < Z.max 1 (failure_threshold cfg);
  bo_successes : 0 ≤ half_open_successes st ≤ Z.max 1 (half_open_successes_needed cfg);
  bo_half_open : circuit st = HalfOpen →
    half_open_successes st < Z.max 1 (half_open_successes_needed cfg);
  bo_open : circuit st = Open → is_Some (opened_at st);
  bo_time : ∀ o, opened_at st = Some o → o ≤ t
}.

(** ** Lemmas *)

Lemma breaker_new_ok t : breaker_ok t breaker_new.
Proof. split; simpl; try done; lia. Qed.

Lemma check_allowed_ok t st st' r :
  check_allowed cfg provider t t st = (st', r) → breaker_ok t st → breaker_ok t st'.
Proof.
  intros Hc [Hf Hcl Hs Hh Ho Ht]. unfold check_allowed in Hc.
  destruct (circuit st) eqn:E; simplify_eq/=; try (by split; auto; rewrite E; auto).
  destruct (opened_at st) as [o|] eqn:Eo; [|by destruct (Ho eq_refl)].
  destruct (recovery_timeout cfg <=? elapsed_since o t); simplify_eq/=.
  - split; simpl; auto; try done; lia.
  - split; auto; rewrite ?E, ?Eo; auto; done.
Qed.

Lemma record_success_ok t st : config_ok → breaker_ok t st → breaker_ok t (record_success cfg st).
Proof.
  intros [Hc1 Hc2] [Hf Hcl Hs Hh Ho Ht]. unfold record_success, in_u32 in *.
  destruct (circuit st) eqn:E.
  - split; simpl; auto; try done; lia.
  - split; simpl; auto; try done; lia.
  - specialize (Hh eq_refl). rewrite wrap32_small by (unfold in_u32; lia).
    case_match; zify_bool; split; simpl; auto; try done; lia.
Qed.

Lemma record_failure_ok t err st :
  config_ok → breaker_ok t st → breaker_ok t (record_failure cfg err t st).
Proof.
  intros [Hc1 Hc2] [Hf Hcl Hs Hh Ho Ht]. unfold record_failure, in_u32 in *.
  destruct (is_transient err); simpl; [|done]. destruct (circuit st) eqn:E.
  - specialize (Hcl eq_refl). rewrite wrap32_small by (unfold in_u32; lia).
    case_match; zify_bool; split; simpl; eauto; try done; try lia.
    intros o [= <-]. lia.
  - split; auto; rewrite ?E; auto; done.
  - split; simpl; eauto; try done; try lia. intros o [= <-]. lia.
Qed.

Lemma breaker_ok_mono t t' st : t ≤ t' → breaker_ok t st → breaker_ok t' st.
Proof. intros Hle []. split; auto. intros o Hop. transitivity t; auto. Qed.

Lemma breaker_step_ok w w' :
  config_ok → breaker_step w w' → breaker_ok (cbw_time w) (cbw_state w) →
  breaker_ok (cbw_time w') (cbw_state w').
Proof.
  intros Hc Hs Hok. destruct Hs; simpl in *;
    eauto using check_allowed_ok, record_success_ok, record_failure_ok.
  eapply breaker_ok_mono; [|done]. lia.
Qed.
End interleaving.

(** ** Sequences of outcomes *)

(** Failures recorded one after the other, each at its own time. *)
Definition record_failures (cfg : CircuitBreakerConfig) (l : list (LlmError * Z))
    (st : BreakerState) : BreakerState :=
  foldl (fun st p => record_failure cfg p.1 p.2 st) st l.

Definition transient_count (l : list (LlmError * Z)) : Z :=
  Z.of_nat (length (filter (fun p => is_transient p.1 = true) l)).

(** A call admitted at [t] whose inner call succeeds. *)
Definition healthy_call (cfg : CircuitBreakerConfig) (provider : string) (st : BreakerState)
    (t : Z) : BreakerState :=
  record_success cfg (check_allowed cfg provider t t st).1.

Lemma record_failures_closed cfg l st :
  in_u32 (failure_threshold cfg) → circuit st = Closed → 0 ≤ consecutive_failures st →
  consecutive_failures st + transient_count l < failure_threshold cfg →
  circuit (record_failures cfg l st) = Closed ∧
  consecutive_failures (record_failures cfg l st) = consecutive_failures st + transient_count l.
Proof.
  unfold in_u32. revert st. induction l as [|[e t] l IH]; intros st Hu Hc Hn Hlt.
  { unfold transient_count. simpl in *. split; [done|lia]. }
  change (record_failures cfg ((e, t) :: l) st)
    with (record_failures cfg l (record_failure cfg e t st)).
  unfold transient_count in *. destruct (is_transient e) eqn:He.
  - rewrite filter_cons_True in Hlt |- * by done. cbn [length] in *.
    assert (Hst : record_failure cfg e t st =
      mkBreaker Closed (consecutive_failures st + 1) (opened_at st) (half_open_successes st)).
    { unfold record_failure. rewrite He, Hc. simpl.
      rewrite wrap32_small by (unfold in_u32; lia). by rewrite (proj2 (Z.leb_gt _ _)) by lia. }
    rewrite Hst. edestruct IH as [-> ->]; simpl; try done; try split; try done; lia.
  - rewrite filter_cons_False in Hlt |- * by (simpl; congruence).
    assert (Hst : record_failure cfg e t st = st) by (unfold record_failure; by rewrite He).
    rewrite Hst. by apply IH.
Qed.

Lemma half_open_run cfg provider ts st :
  in_u32 (half_open_successes_needed cfg) → circuit st = HalfOpen → 0 ≤ half_open_successes st →
  half_open_successes st + Z.of_nat (length ts) < half_open_successes_needed cfg →
  circuit (foldl (healthy_call cfg provider) st ts) = HalfOpen ∧
  half_open_successes (foldl (healthy_call cfg provider) st ts)
    = half_open_successes st + Z.of_nat (length ts).
Proof.
  unfold in_u32. revert st. induction ts as [|t ts IH]; intros st Hu Hc Hn Hlt; simpl in *.
  { split; [done|lia]. }
  assert (Hst : healthy_call cfg provider st t =
    mkBreaker HalfOpen (consecutive_failures st) (opened_at st) (half_open_successes st + 1)).
  { unfold healthy_call, check_allowed, record_success. rewrite Hc. simpl. rewrite Hc.
    rewrite wrap32_small by (unfold in_u32; lia). by rewrite (proj2 (Z.leb_gt _ _)) by lia. }
  rewrite Hst. edestruct IH as [-> ->]; simpl; try done; try split; try done; lia.
Qed.

(** ** Theorems *)

(** Whatever the interleaving of concurrent calls, the breaker keeps its
    invariant: no counter overflows its [u32] (they stay within the configured
    thresholds), a closed circuit is below the failure threshold, an open
    circuit has the time it opened, and that time is in the past. *)
Theorem breaker_invariant cfg provider t w :
  config_ok cfg → rtc (breaker_step cfg provider) (breaker_start t) w →
  breaker_ok cfg (cbw_time w) (cbw_state w).
Proof.
  intros Hc. apply (rtc_ind_r (fun w => breaker_ok cfg (cbw_time w) (cbw_state w))).
  - apply breaker_new_ok.
  - intros y z _ Hs Hok. by eapply breaker_step_ok.
Qed.

(** The circuit opens exactly at the threshold: from a fresh breaker,
    recorded failures leave it closed, with the number of transient ones as
    its count, until the count reaches the threshold, and the failure that
    reaches it opens the circuit at its time.  Other errors never count. *)
Theorem opens_exactly_at_threshold cfg l e t :
  in_u32 (failure_threshold cfg) → transient_count l < failure_threshold cfg →
  let st := record_failures cfg l breaker_new in
  circuit st = Closed ∧ consecutive_failures st = transient_count l ∧
  (is_transient e = true → transient_count l + 1 = failure_threshold cfg →
   record_failure cfg e t st = mkBreaker Open (failure_threshold cfg) (Some t)
                                 (half_open_successes st)).
Proof.
  intros Hu Hlt st.
  destruct (record_failures_closed cfg l breaker_new Hu eq_refl ltac:(done) Hlt) as [Hc Hn].
  fold st in Hc, Hn. cbn [consecutive_failures breaker_new] in Hn.
  split_and!; [done|lia|]. intros He Heq.
  unfold record_failure. rewrite He, Hc, Hn. cbn [negb]. cbn iota.
  rewrite Z.add_0_l, Heq, wrap32_small by done. by rewrite Z.leb_refl.
Qed.

(** While the circuit is open and the recovery timeout has not elapsed, a
    call is rejected with the breaker's own error: the inner provider is not
    called, its state and the breaker are unchanged. *)
Theorem open_rejects {P} `{LlmProvider P} (cb : CircuitBreakerProvider P) req w o :
  circuit (cb_state cb) = Open → opened_at (cb_state cb) = Some o →
  elapsed_since o (w_clock w (w_ticks w)) < recovery_timeout (cb_config cb) →
  ∃ reason, complete req cb w =
    (Err (RequestFailed (model_name cb) reason), cb,
     mkWorld (w_clock w) (S (S (w_ticks w))) (w_rand w) (w_draws w) (w_sleeps w)).
Proof.
  intros Hc Ho Hlt. simpl. unfold guarded, now, check_allowed. simpl. rewrite Hc, Ho.
  rewrite (proj2 (Z.leb_gt _ _)) by done. eexists. simpl. unfold open_error.
  by destruct cb as [p [] cfg].
Qed.

(** A healthy backend closes the circuit again: once the timeout has
    elapsed, each of the first [needed - 1] successful calls leaves the circuit
    half open and the next one closes it with no failures on record. *)
Theorem recovers_after_timeout cfg provider st o t ts t' :
  in_u32 (half_open_successes_needed cfg) → circuit st = Open → opened_at st = Some o →
  recovery_timeout cfg ≤ elapsed_since o t →
  1 + Z.of_nat (length ts) + 1 = half_open_successes_needed cfg →
  let mid := foldl (healthy_call cfg provider) st (t :: ts) in
  circuit mid = HalfOpen ∧
  circuit (healthy_call cfg provider mid t') = Closed ∧
  consecutive_failures (healthy_call cfg provider mid t') = 0 ∧
  opened_at (healthy_call cfg provider mid t') = None.
Proof.
  intros Hu Hc Ho Ht Hlen. cbn zeta. cbn [foldl]. unfold in_u32 in Hu.
  assert (H1 : healthy_call cfg provider st t =
               mkBreaker HalfOpen (consecutive_failures st) (Some o) 1).
  { unfold healthy_call, check_allowed. rewrite Hc, Ho, (proj2 (Z.leb_le _ _)) by done. simpl.
    unfold record_success. simpl. rewrite wrap32_small by (unfold in_u32; lia).
    by rewrite (proj2 (Z.leb_gt _ _)) by lia. }
  rewrite H1.
  destruct (half_open_run cfg provider ts (mkBreaker HalfOpen (consecutive_failures st) (Some o) 1))
    as [Hm Hn]; simpl; [done|done|lia|lia|].
  set (mid := foldl _ _ ts) in *. clearbody mid.
  split; [done|]. unfold healthy_call, check_allowed. rewrite Hm. simpl.
  unfold record_success. rewrite Hm, Hn. simpl. rewrite wrap32_small by (unfold in_u32; lia).
  by rewrite (proj2 (Z.leb_le _ _)) by lia.
Qed.

(** The branch of [record_success] that the code calls unreachable is
    reachable without bypassing [check_allowed]: two calls are admitted, one
    fails and opens the circuit, then the other succeeds, and the debug
    assertion fails. *)
Theorem success_assertion_can_fail :
  ∃ w n, rtc (breaker_step (mkBreakerConfig 1 (secs 30) 2) "p") (breaker_start 0) w ∧
    cbw_in_flight w = S n ∧ success_assertion (cbw_state w) = false.
Proof.
  set (cfg := mkBreakerConfig 1 (secs 30) 2).
  exists (mkCbWorld (mkBreaker Open 1 (Some 0) 0) 1 0), 0%nat.
  split; [|done].
  eapply rtc_l; [eapply (bs_admit cfg "p" (breaker_start 0)); reflexivity|].
  eapply rtc_l; [eapply (bs_admit cfg "p"); reflexivity|].
  eapply rtc_l; [apply (bs_failure cfg "p" _ 1 (EmptyResponse "p")); reflexivity|].
  apply rtc_refl.
Qed.

(** ** Witnesses *)

Definition demo_breaker_config : CircuitBreakerConfig := mkBreakerConfig 2 100 2.

Lemma demo_breaker_config_ok : config_ok demo_breaker_config.
Proof. unfold config_ok, in_u32. simpl. lia. Qed.

Lemma breaker_invariant_witness :
  config_ok demo_breaker_config ∧ breaker_ok demo_breaker_config 5 breaker_new.
Proof.
  split; [exact demo_breaker_config_ok|].
  refine (breaker_invariant demo_breaker_config "p" 0 (mkCbWorld breaker_new 0 5)
            demo_breaker_config_ok (rtc_once _ _ _)).
  apply (bs_tick demo_breaker_config "p" (breaker_start 0) 5). lia.
Defined.

Lemma opens_exactly_at_threshold_witness :
  in_u32 2 ∧ transient_count [(EmptyResponse "p", 1); (AuthFailed "p", 2)] < 2 ∧
  circuit (record_failures demo_breaker_config
             [(EmptyResponse "p", 1); (AuthFailed "p", 2)] breaker_new) = Closed.
Proof.
  assert (Hu : in_u32 2) by (unfold in_u32; lia).
  assert (Ht : transient_count [(EmptyResponse "p", 1); (AuthFailed "p", 2)] < 2)
    by (vm_compute; reflexivity).
  split; [exact Hu|]. split; [exact Ht|].
  exact (proj1 (opens_exactly_at_threshold demo_breaker_config _ (Io "x") 3 Hu Ht)).
Defined.

(** A provider that always answers with an empty response error. *)
#[export] Instance demo_provider : LlmProvider unit := {|
  model_name := fun _ => "demo";
  cost_per_token := fun _ => (0, 0);
  complete := fun _ p w => (Err (EmptyResponse "demo"), p, w);
  complete_with_tools := fun _ p w => (Err (EmptyResponse "demo"), p, w);
  list_models := fun p w => (Ok [], p, w);
  model_metadata := fun p w => (default_model_metadata "demo", p, w);
  effective_model_name := fun rq p => (default_effective_model_name rq "demo", p);
  active_model_name := fun _ => "demo";
  set_model := fun _ p => (default_set_model, p);
  calculate_cost := fun i o _ => default_calculate_cost (0, 0) i o;
  cache_write_multiplier := fun _ => dec_one;
  cache_read_discount := fun _ => dec_one
|}.

Definition demo_world (t : Z) : World := mkWorld (fun _ => t) 0 (fun _ => 0) 0 [].

Lemma open_rejects_witness :
  ∃ reason, (complete (completion_request_new []) (mkCircuitBreaker ()
               (mkBreaker Open 2 (Some 10) 0) demo_breaker_config) (demo_world 50)).1.1
            = Err (RequestFailed "demo" reason).
Proof.
  destruct (open_rejects (mkCircuitBreaker () (mkBreaker Open 2 (Some 10) 0) demo_breaker_config)
              (completion_request_new []) (demo_world 50) 10 eq_refl eq_refl) as [r Hr].
  - vm_compute. reflexivity.
  - exists r. rewrite Hr. reflexivity.
Defined.

Lemma recovers_after_timeout_witness :
  let st := mkBreaker Open 2 (Some 10) 0 in
  circuit (healthy_call demo_breaker_config "p" (healthy_call demo_breaker_config "p" st 120) 130)
  = Closed.
Proof.
  cbn zeta.
  refine (proj1 (proj2 (recovers_after_timeout demo_breaker_config "p"
    (mkBreaker Open 2 (Some 10) 0) 10 120 [] 130 _ eq_refl eq_refl _ eq_refl))).
  - unfold in_u32. simpl. lia.
  - vm_compute. congruence.
Defined.
