(* ===== verification/Retry.v ===== *)
(** * Retries: [src/llm/retry.rs]

    Classification of retryable errors, exponential backoff with jitter, the
    [Retry-After] header and the decorator that retries the inner provider.
    Durations are nanoseconds; the arithmetic of the backoff is done in
    milliseconds on [u64] and [i64] as in the code. *)

From S2P Require Import Prelude Text Provider.
Local Open Scope Z_scope.

Definition MAX_RETRY_AFTER_SECS : Z := 3600.
Definition DEFAULT_RETRY_AFTER_SECS : Z := 60.

Definition millis (n : Z) : Z := n * 1000000.

Definition is_retryable (err : LlmError) : bool :=
  match err with
  | RequestFailed _ _ | RateLimited _ _ | InvalidResponse _ _ | EmptyResponse _
  | SessionRenewalFailed _ _ | Http _ | Io _ => true
  | _ => false
  end.

(** The delay in milliseconds, before [Duration::from_millis]. *)
Definition retry_backoff_ms (attempt : Z) (w : World) : Z * World :=
  let base_ms := saturating_mul64 1000 (saturating_pow64 2 attempt) in
  let jitter_range := base_ms / 4 in
  let '(jitter, w') :=
    if 0 <? jitter_range then
      let '(offset, w') := gen_range (jitter_range * 2) w in
      (wrap_i64 (wrap_i64 offset - wrap_i64 jitter_range), w')
    else (0, w) in
  (Z.max (wrap_i64 (wrap_i64 base_ms + jitter)) 100, w').

Definition retry_backoff_delay (attempt : Z) (w : World) : Z * World :=
  let '(ms, w') := retry_backoff_ms attempt w in (millis ms, w').

Definition cap_retry_after (d : Z) : Z := Z.min d (secs MAX_RETRY_AFTER_SECS).

(** [header] is the value when it is valid text; [parse_rfc2822] is chrono's
    parser and [now] the current time. *)
Definition parse_retry_after (parse_rfc2822 : string -> option Z) (now : Z)
    (header : option string) : Z :=
  default (secs DEFAULT_RETRY_AFTER_SECS)
    (v ← header;
     match parse_u64 (trim v) with
     | Some s => Some (cap_retry_after (secs s))
     | None =>
         match parse_rfc2822 (trim v) with
         | Some dt => Some (cap_retry_after (secs (Z.max (Z.quot (dt - now) (secs 1)) 0)))
         | None => None
         end
     end).

Record RetryConfig : Type := mkRetryConfig { max_retries : Z }.

Definition retry_config_default : RetryConfig := mkRetryConfig 3.

Record RetryProvider (P : Type) : Type := mkRetry {
  rt_inner : P;
  rt_config : RetryConfig
}.
Arguments mkRetry {P}.
Arguments rt_inner {P}.
Arguments rt_config {P}.

(** The delay before the next attempt: the provider's own suggestion when it
    gave one, else the backoff. *)
Definition next_delay (attempt : Z) (err : LlmError) (w : World) : Z * World :=
  match err with
  | RateLimited _ (Some d) => (d, w)
  | _ => retry_backoff_delay attempt w
  end.

(** [left] counts the attempts after this one: [attempt = max_retries] is
    [left = 0].  The loop always returns from its last iteration, so the error
    after it is not reached. *)
Fixpoint retry_loop {S A} (call : S -> World -> Result LlmError A * S * World)
    (left : nat) (attempt : Z) (p : S) (w : World) : Result LlmError A * S * World :=
  match call p w with
  | (Ok resp, p', w') => (Ok resp, p', w')
  | (Err err, p', w') =>
      if negb (is_retryable err) then (Err err, p', w') else
      match left with
      | O => (Err err, p', w')
      | S left' =>
          let '(d, w'') := next_delay attempt err w' in
          retry_loop call left' (attempt + 1) p' (sleep d w'')
      end
  end.

Section decorator.
Context {P : Type} `{LlmProvider P}.

Definition with_retries {A} (call : P -> World -> Result LlmError A * P * World)
    (rp : RetryProvider P) (w : World) : Result LlmError A * RetryProvider P * World :=
  let '(r, p, w') := retry_loop call (Z.to_nat (max_retries (rt_config rp))) 0 (rt_inner rp) w in
  (r, mkRetry p (rt_config rp), w').

#[export] Instance retry_provider : LlmProvider (RetryProvider P) := {|
  model_name := fun rp => model_name (rt_inner rp);
  cost_per_token := fun rp => cost_per_token (rt_inner rp);
  complete := fun req => with_retries (complete req);
  complete_with_tools := fun req => with_retries (complete_with_tools req);
  list_models := fun rp w =>
    let '(r, p, w') := list_models (rt_inner rp) w in (r, mkRetry p (rt_config rp), w');
  model_metadata := fun rp w =>
    let '(r, p, w') := model_metadata (rt_inner rp) w in (r, mkRetry p (rt_config rp), w');
  effective_model_name := fun rq rp =>
    let '(n, p) := effective_model_name rq (rt_inner rp) in (n, mkRetry p (rt_config rp));
  active_model_name := fun rp => active_model_name (rt_inner rp);
  set_model := fun m rp =>
    let '(r, p) := set_model m (rt_inner rp) in (r, mkRetry p (rt_config rp));
  calculate_cost := fun i o rp => calculate_cost i o (rt_inner rp);
  cache_write_multiplier := fun rp => cache_write_multiplier (rt_inner rp);
  cache_read_discount := fun rp => cache_read_discount (rt_inner rp)
|}.
End decorator.

(** ** Specification *)

(** The number of calls that the loop makes, threaded next to the state. *)
Definition counted {S A} (call : S -> World -> Result LlmError A * S * World)
    (s : S * nat) (w : World) : Result LlmError A * (S * nat) * World :=
  let '(r, s', w') := call s.1 w in (r, (s', Datatypes.S s.2), w').

(** An outcome that ends the loop. *)
Definition decisive {A} (r : Result LlmError A) : bool :=
  match r with Ok _ => true | Err e => negb (is_retryable e) end.

(** A provider that plays a script of outcomes, then fails for good. *)
Definition play {A} (script : list (Result LlmError A)) (w : World)
    : Result LlmError A * list (Result LlmError A) * World :=
  match script with
  | [] => (Err (AuthFailed "script"), [], w)
  | r :: rest => (r, rest, w)
  end.

(** The first decisive outcome among the first [n + 1], else the last one. *)
Fixpoint first_decisive {A} (n : nat) (script : list (Result LlmError A)) : Result LlmError A :=
  match script with
  | [] => Err (AuthFailed "script")
  | r :: rest =>
      if decisive r then r
      else match n with O => r | S n' => first_decisive n' rest end
  end.

(** ** Lemmas *)

Lemma next_delay_sleeps a e w : w_sleeps (next_delay a e w).2 = w_sleeps w.
Proof.
  unfold next_delay, retry_backoff_delay, retry_backoff_ms, gen_range.
  destruct e; repeat case_match; simplify_eq/=; done.
Qed.

Lemma backoff_base attempt : 0 ≤ attempt ≤ 52 →
  saturating_mul64 1000 (saturating_pow64 2 attempt) = 1000 * 2 ^ attempt ∧
  0 < 1000 * 2 ^ attempt < 2 ^ 62.
Proof.
  intros Ha. unfold saturating_mul64, saturating_pow64, u64_max.
  assert (Hp : 0 < 2 ^ attempt ≤ 2 ^ 52) by (split; [lia|apply Z.pow_le_mono_r; lia]). lia.
Qed.

(** ** Theorems *)

(** Backoff stays within a quarter of the doubled base: for every attempt
    up to the 52nd the delay is between 75% and 125% of [2^attempt] seconds and
    no intermediate value overflows; every delay is at least 100 ms. *)
Theorem backoff_within_jitter attempt w :
  0 ≤ attempt ≤ 52 →
  let ms := (retry_backoff_ms attempt w).1 in
  750 * 2 ^ attempt ≤ ms ≤ 1250 * 2 ^ attempt ∧ 100 ≤ ms.
Proof.
  intros Ha. cbn zeta. unfold retry_backoff_ms. destruct (backoff_base attempt Ha) as [-> Hb].
  assert (Hp : 0 < 2 ^ attempt) by lia.
  assert (Hr : 1000 * 2 ^ attempt / 4 = 250 * 2 ^ attempt).
  { replace (1000 * 2 ^ attempt) with (250 * 2 ^ attempt * 4) by lia. apply Z.div_mul. lia. }
  rewrite Hr. rewrite (proj2 (Z.ltb_lt _ _)) by lia. unfold gen_range. simpl.
  set (off := w_rand w (w_draws w) mod _).
  assert (Ho : 0 ≤ off ≤ 250 * 2 ^ attempt * 2).
  { subst off. pose proof (Z.mod_pos_bound (w_rand w (w_draws w)) (250 * 2 ^ attempt * 2 + 1)). lia. }
  rewrite (wrap_i64_small off), (wrap_i64_small (250 * _)) by lia.
  rewrite (wrap_i64_small (off - _)), (wrap_i64_small (1000 * _)) by lia.
  rewrite wrap_i64_small; lia.
Qed.

(** A [Retry-After] header never suspends the agent for more than an hour:
    whatever the header, the date parser and the clock, the parsed delay is
    between zero and 3600 seconds. *)
Theorem retry_after_capped parse_rfc2822 now header :
  0 ≤ parse_retry_after parse_rfc2822 now header ≤ secs MAX_RETRY_AFTER_SECS.
Proof.
  unfold parse_retry_after, cap_retry_after, secs, MAX_RETRY_AFTER_SECS, DEFAULT_RETRY_AFTER_SECS.
  destruct header as [v|]; simpl; [|lia].
  destruct (parse_u64 (trim v)) as [s|] eqn:Hs; simpl.
  - apply parse_u64_range in Hs. lia.
  - destruct (parse_rfc2822 (trim v)) as [dt|]; simpl; lia.
Qed.

(** The retry loop returns the first decisive outcome: with an inner
    provider that answers with a given script, the result is the first success
    or non-retryable error among the first [max_retries + 1] answers, and
    otherwise the last retryable error of them. *)
Theorem retry_returns_first_decisive {A} n attempt (script : list (Result LlmError A)) w :
  (retry_loop play n attempt script w).1.1 = first_decisive n script.
Proof.
  revert attempt script w. induction n as [|n IH]; intros attempt script w.
  - destruct script as [|[a|e] rest]; simpl; try done. by destruct (is_retryable e).
  - destruct script as [|[a|e] rest]; simpl; try done.
    destruct (is_retryable e); simpl; [|done].
    destruct (next_delay attempt e w) as [d w']. apply IH.
Qed.

(** The retry loop calls the inner provider at least once and at most
    [max_retries + 1] times, sleeps exactly once between two calls, and gives
    up with a retryable error only after all the attempts. *)
Theorem retry_attempt_count {S A} (call : S -> World -> Result LlmError A * S * World) n attempt s w :
  (∀ s w, w_sleeps (call s w).2 = w_sleeps w) →
  let '(r, (s', k), w') := retry_loop (counted call) n attempt (s, 0%nat) w in
  (1 ≤ k ≤ n + 1)%nat ∧
  length (w_sleeps w') = (length (w_sleeps w) + (k - 1))%nat ∧
  (∀ e, r = Err e → is_retryable e = true → k = (n + 1)%nat).
Proof.
  intros Hcall.
  enough (Hgen : ∀ k0, let '(r, (s', k), w') := retry_loop (counted call) n attempt (s, k0) w in
    (k0 + 1 ≤ k ≤ k0 + n + 1)%nat ∧
    length (w_sleeps w') = (length (w_sleeps w) + (k - k0 - 1))%nat ∧
    (∀ e, r = Err e → is_retryable e = true → k = (k0 + n + 1)%nat)).
  { specialize (Hgen 0%nat). destruct (retry_loop _ _ _ _ _) as [[r [s' k]] w'].
    destruct Hgen as (? & Hs & ?). rewrite Hs. split_and!; [lia|lia|lia|done]. }
  revert attempt s w. induction n as [|n IH]; intros attempt s w k0; simpl;
    unfold counted at 1; simpl; pose proof (Hcall s w) as Hs;
    destruct (call s w) as [[[a|e] s'] w1]; simpl in *.
  - rewrite Hs. split_and!; try lia; done.
  - destruct (is_retryable e) eqn:He; simpl; rewrite Hs; split_and!; try lia;
      intros e' [= <-] ?; congruence.
  - rewrite Hs. split_and!; try lia; done.
  - destruct (is_retryable e) eqn:He; simpl.
    + pose proof (next_delay_sleeps attempt e w1) as Hd.
      destruct (next_delay attempt e w1) as [d w2]. simpl in Hd.
      specialize (IH (attempt + 1) s' (sleep d w2) (Datatypes.S k0)).
      destruct (retry_loop _ _ _ _ _) as [[r [s2 k]] w3].
      destruct IH as (Hk & Hl & Hr). simpl in Hl. rewrite length_app in Hl. simpl in Hl.
      rewrite Hd, Hs in Hl. split_and!; [lia|lia|lia|]. intros e' -> He'.
      specialize (Hr e' eq_refl He'). lia.
    + rewrite Hs. split_and!; try lia. intros e' [= <-] ?. congruence.
Qed.

(** ** Witnesses *)

Definition demo_retry_world : World := mkWorld (fun _ => 0) 0 (fun _ => 7) 0 [].

Lemma backoff_within_jitter_witness :
  0 ≤ 2 ≤ 52 ∧ 750 * 2 ^ 2 ≤ (retry_backoff_ms 2 demo_retry_world).1.
Proof.
  assert (Ha : 0 ≤ 2 ≤ 52) by lia. split; [exact Ha|].
  exact (proj1 (proj1 (backoff_within_jitter 2 demo_retry_world Ha))).
Defined.

Lemma retry_attempt_count_witness :
  let script := [Err (EmptyResponse "p"); Err (EmptyResponse "p"); Ok 5] in
  let '(r, (s', k), w') := retry_loop (counted play) 3 0 (script, 0%nat) demo_retry_world in
  (1 ≤ k ≤ 3 + 1)%nat.
Proof.
  cbn zeta.
  pose proof (retry_attempt_count (@play Z) 3 0
    [Err (EmptyResponse "p"); Err (EmptyResponse "p"); Ok 5] demo_retry_world) as Hc.
  destruct (retry_loop _ _ _ _ _) as [[r [s' k]] w']. apply Hc.
  intros [|x l] w; reflexivity.
Defined.
