(* ===== verification/Failover.v ===== *)
(** * Provider failover: [src/llm/failover.rs]

    Several providers tried in order, each with a lock-free cooldown, and the
    binding of the provider that served a request to the task that made it.
    The providers share one state type [P]; instants are nanoseconds.  Rust's
    [self.providers[i]] panics out of range: the branches that stand for the
    panic are marked, and [failover_invariant] shows they are not reached. *)

From S2P Require Import Prelude Text Provider Retry.
Local Open Scope Z_scope.

Record CooldownConfig : Type := mkCooldownConfig {
  cooldown_duration : Z;
  failure_threshold : Z
}.

Definition cooldown_config_default : CooldownConfig := mkCooldownConfig (secs 300) 3.

Record ProviderCooldown : Type := mkCooldown {
  failure_count : Z;
  cooldown_activated_nanos : Z
}.

Definition cooldown_new : ProviderCooldown := mkCooldown 0 0.

Definition is_in_cooldown (cd : ProviderCooldown) (now_nanos cooldown_nanos : Z) : bool :=
  negb (cooldown_activated_nanos cd =? 0) &&
  (saturating_sub now_nanos (cooldown_activated_nanos cd) <? cooldown_nanos).

(** [fetch_add] and the sum that follows it wrap at 32 bits. *)
Definition record_failure (threshold : Z) (cd : ProviderCooldown) : bool * ProviderCooldown :=
  let prev := failure_count cd in
  (threshold <=? wrap32 (prev + 1), mkCooldown (wrap32 (prev + 1)) (cooldown_activated_nanos cd)).

Definition activate_cooldown (now_nanos : Z) (cd : ProviderCooldown) : ProviderCooldown :=
  mkCooldown (failure_count cd) (Z.max now_nanos 1).

Definition reset (cd : ProviderCooldown) : ProviderCooldown := mkCooldown 0 0.

(** A Tokio task identifier. *)
Abbreviation TaskId := N.

Record FailoverProvider (P : Type) : Type := mkFailover {
  providers : list P;
  last_used : nat;
  cooldowns : list ProviderCooldown;
  epoch : Z;
  cooldown_config : CooldownConfig;
  provider_for_task : gmap TaskId nat
}.
Arguments mkFailover {P}.
Arguments providers {P}.
Arguments last_used {P}.
Arguments cooldowns {P}.
Arguments epoch {P}.
Arguments cooldown_config {P}.
Arguments provider_for_task {P}.

Definition no_provider : LlmError :=
  RequestFailed "failover" "FailoverProvider requires at least one provider".

Definition no_last_error : LlmError :=
  RequestFailed "failover" "Invariant violated in FailoverProvider: providers were exhausted but no last_error was recorded (this branch should be unreachable; possible causes: no provider attempts were made or `available` was unexpectedly empty).".

(** Stands for an index panic. *)
Definition index_panic : LlmError := RequestFailed "panic" "index out of bounds".

Definition with_cooldown {P} (ps : list P) (cfg : CooldownConfig) (w : World)
    : Result LlmError (FailoverProvider P) * World :=
  match ps with
  | [] => (Err no_provider, w)
  | _ => let '(t, w') := now w in
         (Ok (mkFailover ps 0 (replicate (length ps) cooldown_new) t cfg ∅), w')
  end.

Definition new {P} (ps : list P) (w : World) : Result LlmError (FailoverProvider P) * World :=
  with_cooldown ps cooldown_config_default w.

Definition now_nanos {P} (fo : FailoverProvider P) (w : World) : Z * World :=
  let '(t, w') := now w in (wrap64 (saturating_sub t (epoch fo)), w').

Definition bind_provider_to_current_task {P} (task : option TaskId) (provider_idx : nat)
    (fo : FailoverProvider P) : FailoverProvider P :=
  match task with
  | None => fo
  | Some task_id =>
      mkFailover (providers fo) (last_used fo) (cooldowns fo) (epoch fo) (cooldown_config fo)
        (<[task_id := provider_idx]> (provider_for_task fo))
  end.

Definition take_bound_provider_for_current_task {P} (task : option TaskId)
    (fo : FailoverProvider P) : option nat * FailoverProvider P :=
  match task with
  | None => (None, fo)
  | Some task_id =>
      (provider_for_task fo !! task_id,
       mkFailover (providers fo) (last_used fo) (cooldowns fo) (epoch fo) (cooldown_config fo)
         (delete task_id (provider_for_task fo)))
  end.

(** [min_by_key]: the first index with the least key. *)
Fixpoint min_by_key (key : nat -> Z) (l : list nat) : option nat :=
  match l with
  | [] => None
  | i :: r =>
      match min_by_key key r with
      | Some j => if key j <? key i then Some j else Some i
      | None => Some i
      end
  end.

(** The cooldown of provider [i]; the vectors have one length. *)
Definition cooldown_at {P} (fo : FailoverProvider P) (i : nat) : ProviderCooldown :=
  default cooldown_new (cooldowns fo !! i).

(** The indices that a request tries, in order. *)
Definition available {P} (fo : FailoverProvider P) (now_nanos cooldown_nanos : Z)
    : Result LlmError (list nat) :=
  let indices := seq 0 (length (providers fo)) in
  let avail := base.filter (fun i =>
    Is_true (negb (is_in_cooldown (cooldown_at fo i) now_nanos cooldown_nanos))) indices in
  match avail with
  | [] =>
      match min_by_key (fun i => cooldown_activated_nanos (cooldown_at fo i)) indices with
      | Some oldest => Ok [oldest]
      | None => Err no_provider
      end
  | _ => Ok avail
  end.

(** The bookkeeping of a retryable failure of provider [i]. *)
Definition note_failure {P} (i : nat) (fo : FailoverProvider P) (w : World)
    : FailoverProvider P * World :=
  let '(hit, cd) := record_failure (failure_threshold (cooldown_config fo)) (cooldown_at fo i) in
  let '(cd', w') :=
    if hit then let '(nanos, w') := now_nanos fo w in (activate_cooldown nanos cd, w')
    else (cd, w) in
  (mkFailover (providers fo) (last_used fo) (<[i := cd']> (cooldowns fo)) (epoch fo)
     (cooldown_config fo) (provider_for_task fo), w').

Definition note_success {P} (i : nat) (fo : FailoverProvider P) : FailoverProvider P :=
  mkFailover (providers fo) i (<[i := reset (cooldown_at fo i)]> (cooldowns fo)) (epoch fo)
    (cooldown_config fo) (provider_for_task fo).

Definition set_provider {P} (i : nat) (p : P) (fo : FailoverProvider P) : FailoverProvider P :=
  mkFailover (<[i := p]> (providers fo)) (last_used fo) (cooldowns fo) (epoch fo)
    (cooldown_config fo) (provider_for_task fo).

(** The loop over the available indices; [last_error] is the last retryable
    error. *)
Fixpoint try_loop {P A} (call : P -> World -> Result LlmError A * P * World)
    (avail : list nat) (last_error : option LlmError) (fo : FailoverProvider P) (w : World)
    : Result LlmError (nat * A) * FailoverProvider P * World :=
  match avail with
  | [] => (Err (default no_last_error last_error), fo, w)
  | i :: rest =>
      match providers fo !! i with
      | None => (Err index_panic, fo, w)
      | Some p =>
          match call p w with
          | (Ok response, p', w') =>
              (Ok (i, response), note_success i (set_provider i p' fo), w')
          | (Err err, p', w') =>
              if negb (is_retryable err) then (Err err, set_provider i p' fo, w') else
              let '(fo', w'') := note_failure i (set_provider i p' fo) w' in
              try_loop call rest (Some err) fo' w''
          end
      end
  end.

Definition try_providers {P A} (call : P -> World -> Result LlmError A * P * World)
    (fo : FailoverProvider P) (w : World)
    : Result LlmError (nat * A) * FailoverProvider P * World :=
  let '(nanos, w') := now_nanos fo w in
  match available fo nanos (wrap64 (cooldown_duration (cooldown_config fo))) with
  | Err e => (Err e, fo, w')
  | Ok avail => try_loop call avail None fo w'
  end.

(** [Vec::dedup] on a sorted vector, and [sort] by insertion on strings. *)
Fixpoint dedup (l : list string) : list string :=
  match l with
  | x :: ((y :: _) as r) => if decide (x = y) then dedup r else x :: dedup r
  | _ => l
  end.

Fixpoint insert_sorted (x : string) (l : list string) : list string :=
  match l with
  | [] => [x]
  | y :: r => if String.leb x y then x :: l else y :: insert_sorted x r
  end.

Definition sort (l : list string) : list string := foldr insert_sorted [] l.

Section decorator.
Context `{Decimal} {P : Type} `{!LlmProvider P}.
Implicit Types fo : FailoverProvider P.

(** A method of the provider that served last; [panic] stands for the index
    panic. *)
Definition with_last {B} (panic : B) (f : P -> B) fo : B :=
  from_option f panic (providers fo !! last_used fo).

(** [complete] and [complete_with_tools]: the loop, then the binding. *)
Definition served {A} (task : option TaskId)
    (call : P -> World -> Result LlmError A * P * World) fo (w : World)
    : Result LlmError A * FailoverProvider P * World :=
  match try_providers call fo w with
  | (Ok (provider_idx, response), fo', w') =>
      (Ok response, bind_provider_to_current_task task provider_idx fo', w')
  | (Err e, fo', w') => (Err e, fo', w')
  end.

(** [for provider in &self.providers { provider.set_model(model)?; }] *)
Fixpoint set_model_all (model : string) (ps : list P) : Result LlmError unit * list P :=
  match ps with
  | [] => (Ok tt, [])
  | p :: rest =>
      match set_model model p with
      | (Err e, p') => (Err e, p' :: rest)
      | (Ok _, p') => let '(r, rest') := set_model_all model rest in (r, p' :: rest')
      end
  end.

Fixpoint list_models_all (ps : list P) (w : World) : list string * list P * World :=
  match ps with
  | [] => ([], [], w)
  | p :: rest =>
      let '(r, p', w') := list_models p w in
      let '(more, rest', w'') := list_models_all rest w' in
      (match r with Ok models => models ++ more | Err _ => more end, p' :: rest', w'')
  end.

Definition set_providers (ps : list P) fo : FailoverProvider P :=
  mkFailover ps (last_used fo) (cooldowns fo) (epoch fo) (cooldown_config fo)
    (provider_for_task fo).

Definition failover_list_models fo (w : World)
    : Result LlmError (list string) * FailoverProvider P * World :=
  let '(all_models, ps, w') := list_models_all (providers fo) w in
  (Ok (dedup (sort all_models)), set_providers ps fo, w').

Definition failover_model_metadata fo (w : World)
    : Result LlmError ModelMetadata * FailoverProvider P * World :=
  match providers fo !! last_used fo with
  | None => (Err index_panic, fo, w)
  | Some p =>
      let '(r, p', w') := model_metadata p w in (r, set_provider (last_used fo) p' fo, w')
  end.

Definition failover_effective_model_name (task : option TaskId) (requested : option string) fo
    : string * FailoverProvider P :=
  let '(bound, fo') := take_bound_provider_for_current_task task fo in
  let i := default (last_used fo) bound in
  match providers fo' !! i with
  | None => ("", fo')
  | Some p => let '(nm, p') := effective_model_name requested p in (nm, set_provider i p' fo')
  end.

(** The trait implementation as seen from a task. *)
Definition failover_provider (task : option TaskId) : LlmProvider (FailoverProvider P) := {|
  model_name := with_last "" model_name;
  cost_per_token := with_last (dec_zero, dec_zero) cost_per_token;
  complete := fun req => served task (complete req);
  complete_with_tools := fun req => served task (complete_with_tools req);
  list_models := failover_list_models;
  model_metadata := failover_model_metadata;
  effective_model_name := failover_effective_model_name task;
  active_model_name := with_last "" active_model_name;
  set_model := fun model fo =>
    let '(r, ps) := set_model_all model (providers fo) in (r, set_providers ps fo);
  calculate_cost := fun i o => with_last dec_zero (calculate_cost i o);
  cache_write_multiplier := with_last dec_zero cache_write_multiplier;
  cache_read_discount := with_last dec_zero cache_read_discount
|}.
End decorator.

(** ** Specification *)

(** The well-formed states: at least one provider, one cooldown per provider,
    and every stored index in range. *)
Definition failover_wf {P} (fo : FailoverProvider P) : Prop :=
  length (cooldowns fo) = length (providers fo) ∧
  (last_used fo < length (providers fo))%nat ∧
  map_Forall (fun _ i => (i < length (providers fo))%nat) (provider_for_task fo).

(** [fo'] differs from [fo] at most in [last_used] and in the providers and
    cooldowns of the indices [touched]. *)
Definition frame {P} (touched : list nat) (fo fo' : FailoverProvider P) : Prop :=
  length (providers fo') = length (providers fo) ∧
  length (cooldowns fo') = length (cooldowns fo) ∧
  epoch fo' = epoch fo ∧
  cooldown_config fo' = cooldown_config fo ∧
  provider_for_task fo' = provider_for_task fo ∧
  ∀ j, j ∉ touched →
    providers fo' !! j = providers fo !! j ∧ cooldowns fo' !! j = cooldowns fo !! j.

(** Providers with a fixed answer during a request: an answer ends the loop
    when it is a success or not retryable. *)
Definition answers {A} (p : Result LlmError A) (w : World)
    : Result LlmError A * Result LlmError A * World := (p, p, w).

(** The answer that a failover over the answers [l] gives. *)
Fixpoint first_answer {A} (l : list (nat * Result LlmError A)) (last : LlmError)
    : Result LlmError (nat * A) :=
  match l with
  | [] => Err last
  | (i, Ok a) :: _ => Ok (i, a)
  | (_, Err e) :: r => if is_retryable e then first_answer r e else Err e
  end.

(** The calls that other tasks make. *)
Inductive others `{Decimal} {P} `{!LlmProvider P} (t : TaskId)
    : FailoverProvider P → FailoverProvider P → Prop :=
| others_none fo : others t fo fo
| others_complete task req fo fo' w :
    task ≠ Some t → others t fo fo' →
    others t fo (served task (complete req) fo' w).1.2
| others_tools task req fo fo' w :
    task ≠ Some t → others t fo fo' →
    others t fo (served task (complete_with_tools req) fo' w).1.2
| others_name task rq fo fo' :
    task ≠ Some t → others t fo fo' →
    others t fo (failover_effective_model_name task rq fo').2.

(** ** Lemmas *)

Lemma min_by_key_Some key l i : min_by_key key l = Some i →
  i ∈ l ∧ ∀ j, j ∈ l → key i ≤ key j.
Proof.
  revert i. induction l as [|a l IH]; intros i; simpl; [done|].
  destruct (min_by_key key l) as [m|] eqn:Hm.
  - destruct (IH m eq_refl) as [Hin Hle]. destruct (key m <? key a) eqn:Hlt; intros [= <-];
      zify_bool; (split; [set_solver|]); intros j [->|Hj]%elem_of_cons; try lia;
      specialize (Hle j Hj); lia.
  - intros [= <-]. destruct l as [|b l]; [|simpl in Hm; repeat case_match; done].
    split; [set_solver|]. intros j Hj. apply list_elem_of_singleton in Hj. by subst.
Qed.

Lemma min_by_key_None key l : min_by_key key l = None → l = [].
Proof. destruct l; simpl; [done|]. repeat case_match; done. Qed.

Section state.
Context {P : Type}.
Implicit Types fo : FailoverProvider P.

Lemma frame_refl l fo : frame l fo fo.
Proof. by repeat split. Qed.

Lemma frame_trans l fo1 fo2 fo3 : frame l fo1 fo2 → frame l fo2 fo3 → frame l fo1 fo3.
Proof.
  intros (?&?&?&?&?&Hf) (?&?&?&?&?&Hg). split_and!; try congruence.
  intros j Hj. destruct (Hf j Hj), (Hg j Hj). split; congruence.
Qed.

Lemma frame_mono l l' fo fo' : l ⊆ l' → frame l fo fo' → frame l' fo fo'.
Proof. intros Hl (?&?&?&?&?&Hf). split_and!; try done. intros j Hj. apply Hf. set_solver. Qed.

Lemma frame_wf l fo fo' : frame l fo fo' → (last_used fo' < length (providers fo'))%nat →
  failover_wf fo → failover_wf fo'.
Proof.
  intros (Hp&Hc&_&_&Hb&_) Hl (Hlen&_&Hm). split_and!; [congruence|done|].
  rewrite Hb, Hp. done.
Qed.

Lemma frame_set_provider i p fo : frame [i] fo (set_provider i p fo).
Proof.
  unfold frame, set_provider; simpl. rewrite length_insert. repeat split.
  rewrite list_lookup_insert_ne; [done|set_solver].
Qed.

Lemma frame_note_success i fo : frame [i] fo (note_success i fo).
Proof.
  unfold frame, note_success; simpl. rewrite length_insert. repeat split.
  rewrite list_lookup_insert_ne; [done|set_solver].
Qed.

Lemma frame_note_failure i fo w : frame [i] fo (note_failure i fo w).1.
Proof.
  unfold note_failure. destruct (record_failure _ _) as [hit cd].
  destruct hit; simpl; [destruct (now_nanos fo w)|]; unfold frame; simpl;
    rewrite length_insert; repeat split; rewrite list_lookup_insert_ne; set_solver.
Qed.

Lemma note_failure_last_used i fo w : last_used (note_failure i fo w).1 = last_used fo.
Proof.
  unfold note_failure. destruct (record_failure _ _) as [hit cd].
  by destruct hit; simpl; [destruct (now_nanos fo w)|].
Qed.
End state.

Lemma try_loop_frame {P A} (call : P -> World -> Result LlmError A * P * World) avail le fo w :
  length (cooldowns fo) = length (providers fo) →
  Forall (fun i => (i < length (providers fo))%nat) avail →
  let '(r, fo', _) := try_loop call avail le fo w in
  frame avail fo fo' ∧
  match r with
  | Ok (i, _) => i ∈ avail ∧ last_used fo' = i ∧ cooldowns fo' !! i = Some cooldown_new
  | Err _ => last_used fo' = last_used fo
  end.
Proof.
  revert le fo w. induction avail as [|i avail IH]; intros le fo w Hlen Hav; simpl.
  { split; [apply frame_refl|done]. }
  apply Forall_cons in Hav as [Hi Hav].
  destruct (lookup_lt_is_Some_2 _ _ Hi) as [p Hp]. rewrite Hp.
  destruct (call p w) as [[[a|e] p'] w']; simpl.
  - split_and!; try done; [|set_solver|].
    + apply (frame_mono [i]); [set_solver|].
      eapply frame_trans; [apply frame_set_provider|apply frame_note_success].
    + apply list_lookup_insert_eq. simpl. lia.
  - pose proof (frame_set_provider i p' fo) as Hf1.
    destruct (is_retryable e); simpl; last first.
    { split; [|done]. eapply frame_mono; [|exact Hf1]. set_solver. }
    pose proof (frame_note_failure i (set_provider i p' fo) w') as Hf2.
    pose proof (note_failure_last_used i (set_provider i p' fo) w') as Hlu.
    destruct (note_failure i (set_provider i p' fo) w') as [fo1 w1]. simpl in Hf2, Hlu.
    pose proof (frame_trans _ _ _ _ Hf1 Hf2) as Hf. pose proof Hf as (Hlp & Hlc & _).
    specialize (IH (Some e) fo1 w1 ltac:(congruence) ltac:(by rewrite Hlp)).
    destruct (try_loop call avail (Some e) fo1 w1) as [[r fo'] w2]. destruct IH as [Hfr Hr].
    split; [eapply frame_trans; eapply frame_mono; [|exact Hf| |exact Hfr]; set_solver|].
    destruct r as [[j a]|e']; [|congruence].
    destruct Hr as (? & ? & ?). split_and!; try done. set_solver.
Qed.

Lemma available_in_range {P} (fo : FailoverProvider P) n c avail :
  available fo n c = Ok avail →
  avail ≠ [] ∧ NoDup avail ∧ Forall (fun i => (i < length (providers fo))%nat) avail.
Proof.
  unfold available. set (f := base.filter _ _).
  assert (Hf : ∀ i, i ∈ f → (i < length (providers fo))%nat).
  { intros i [_ Hi%elem_of_seq]%list_elem_of_filter. lia. }
  assert (Hnd : NoDup f) by (apply NoDup_filter, NoDup_seq).
  destruct f as [|i r].
  - destruct (min_by_key _ _) as [m|] eqn:Hm; [|done]. intros [= <-].
    apply min_by_key_Some in Hm as [Hin%elem_of_seq _].
    split_and!; [done|apply NoDup_singleton|]. apply Forall_singleton. lia.
  - intros [= <-]. split_and!; [done|done|]. by apply Forall_forall.
Qed.

Lemma available_total {P} (fo : FailoverProvider P) n c :
  (last_used fo < length (providers fo))%nat → is_Some (match available fo n c with Ok l => Some l | Err _ => None end).
Proof.
  intros Hl. unfold available. destruct (base.filter _ _); [|done].
  destruct (min_by_key _ _) eqn:Hm; [done|]. apply min_by_key_None in Hm.
  destruct (providers fo); simpl in *; [lia|done].
Qed.

Lemma try_providers_frame {P A} (call : P -> World -> Result LlmError A * P * World) fo w :
  failover_wf fo →
  let '(r, fo', _) := try_providers call fo w in
  frame (seq 0 (length (providers fo))) fo fo' ∧ failover_wf fo' ∧
  match r with
  | Ok (i, _) => last_used fo' = i ∧ (i < length (providers fo'))%nat ∧
                 cooldowns fo' !! i = Some cooldown_new
  | Err _ => last_used fo' = last_used fo
  end.
Proof.
  intros Hwf. pose proof Hwf as (Hlen & Hlu & _). unfold try_providers.
  destruct (now_nanos fo w) as [n w']. set (c := wrap64 _).
  pose proof (available_total fo n c Hlu) as [l Htot].
  destruct (available fo n c) as [avail|e] eqn:Hav; [|done].
  apply available_in_range in Hav as (_ & _ & Hr).
  pose proof (try_loop_frame call avail None fo w' Hlen Hr) as Hloop.
  destruct (try_loop call avail None fo w') as [[r fo'] w2]. destruct Hloop as [Hf Hres].
  assert (Hsub : avail ⊆ seq 0 (length (providers fo))).
  { intros i Hi. rewrite Forall_forall in Hr. apply elem_of_seq. specialize (Hr i Hi). lia. }
  pose proof (frame_mono _ _ _ _ Hsub Hf) as Hf'. pose proof Hf' as (Hlp & _).
  assert (Hlast : (last_used fo' < length (providers fo'))%nat).
  { destruct r as [[i a]|e]; [|congruence]. destruct Hres as (Hi & -> & _).
    apply Hsub, elem_of_seq in Hi. lia. }
  split_and!; [done|by eapply frame_wf|].
  destruct r as [[i a]|e]; [|done]. destruct Hres as (Hi & <- & Hc). by split_and!.
Qed.

Section methods.
Context `{Decimal} {P : Type} `{!LlmProvider P}.
Implicit Types fo : FailoverProvider P.

Lemma wf_set_providers ps fo : length ps = length (providers fo) →
  failover_wf fo → failover_wf (set_providers ps fo).
Proof. intros Hl (?&?&?). unfold failover_wf; simpl. rewrite Hl. by split_and!. Qed.

Lemma wf_set_provider i p fo : failover_wf fo → failover_wf (set_provider i p fo).
Proof. intros (?&?&?). unfold failover_wf; simpl. rewrite length_insert. by split_and!. Qed.

Lemma length_set_model_all m (ps : list P) : length (set_model_all m ps).2 = length ps.
Proof.
  induction ps as [|p ps IH]; simpl; [done|]. destruct (set_model m p) as [[]]; simpl; [|done].
  destruct (set_model_all m ps). simpl in *. lia.
Qed.

Lemma length_list_models_all (ps : list P) w : length (list_models_all ps w).1.2 = length ps.
Proof.
  revert w. induction ps as [|p ps IH]; intros w; simpl; [done|].
  destruct (list_models p w) as [[r p'] w']. specialize (IH w').
  destruct (list_models_all ps w') as [[m ps'] w'']. simpl in *. lia.
Qed.

Lemma wf_served {A} task (call : P -> World -> Result LlmError A * P * World) fo w :
  failover_wf fo → failover_wf (served task call fo w).1.2.
Proof.
  intros Hwf. pose proof (try_providers_frame call fo w Hwf) as Hf. unfold served.
  destruct (try_providers call fo w) as [[[[i a]|e] fo'] w']; simpl; [|tauto].
  destruct Hf as (_ & (Hl & Hlu & Hm) & _ & Hi & _). destruct task as [t|]; simpl; [|done].
  split_and!; simpl; [done|done|]. by apply map_Forall_insert_2.
Qed.

Lemma wf_take task fo :
  failover_wf fo → failover_wf (take_bound_provider_for_current_task task fo).2.
Proof.
  intros (?&?&?). destruct task as [t|]; simpl; [|done].
  split_and!; simpl; [done|done|]. by apply map_Forall_delete.
Qed.

Lemma wf_effective_model_name task rq fo :
  failover_wf fo → failover_wf (failover_effective_model_name task rq fo).2.
Proof.
  intros Hwf. unfold failover_effective_model_name. pose proof (wf_take task fo Hwf).
  destruct (take_bound_provider_for_current_task task fo) as [b fo']. simpl in *.
  destruct (providers fo' !! _); [|done].
  destruct (effective_model_name rq _). by apply wf_set_provider.
Qed.
End methods.

Lemma served_binding {P A} task (call : P -> World -> Result LlmError A * P * World) fo w t :
  failover_wf fo → task ≠ Some t →
  provider_for_task (served task call fo w).1.2 !! t = provider_for_task fo !! t.
Proof.
  intros Hwf Ht. pose proof (try_providers_frame call fo w Hwf) as Hf. unfold served.
  destruct (try_providers call fo w) as [[[[i a]|e] fo'] w'];
    destruct Hf as ((_ & _ & _ & _ & Hb & _) & _); simpl; [|by rewrite Hb].
  destruct task as [u|]; simpl; [|by rewrite Hb].
  rewrite lookup_insert_ne by congruence. by rewrite Hb.
Qed.

Lemma others_binding `{Decimal} {P} `{!LlmProvider P} t (fo fo' : FailoverProvider P) :
  others t fo fo' → failover_wf fo →
  failover_wf fo' ∧ provider_for_task fo' !! t = provider_for_task fo !! t.
Proof.
  induction 1 as [fo|task req fo fo' w Ht _ IH|task req fo fo' w Ht _ IH|task rq fo fo' Ht _ IH];
    intros Hwf; [done|..]; destruct (IH Hwf) as [Hwf' <-].
  - split; [by apply wf_served|by apply served_binding].
  - split; [by apply wf_served|by apply served_binding].
  - split; [by apply wf_effective_model_name|]. unfold failover_effective_model_name.
    destruct task as [u|]; simpl; [|by destruct (providers fo' !! _); [destruct (effective_model_name rq p)|]].
    destruct (providers fo' !! _) as [p|]; [destruct (effective_model_name rq p)|]; simpl;
      by rewrite lookup_delete_ne by congruence.
Qed.

Lemma answers_loop {A} avail le (fo : FailoverProvider (Result LlmError A)) w :
  length (cooldowns fo) = length (providers fo) → NoDup avail →
  Forall (fun i => (i < length (providers fo))%nat) avail →
  (try_loop answers avail (Some le) fo w).1.1 =
  first_answer ((fun i => (i, default (Err index_panic) (providers fo !! i))) <$> avail) le.
Proof.
  revert le fo w. induction avail as [|i avail IH]; intros le fo w Hlen Hnd Hav; simpl; [done|].
  apply NoDup_cons in Hnd as [Hni Hnd]. apply Forall_cons in Hav as [Hi Hav].
  destruct (lookup_lt_is_Some_2 _ _ Hi) as [p Hp]. rewrite Hp. simpl.
  destruct p as [a|e]; simpl; [done|]. destruct (is_retryable e); simpl; [|done].
  pose proof (frame_note_failure i (set_provider i (Err e) fo) w) as Hf2.
  destruct (note_failure i (set_provider i (Err e) fo) w) as [fo1 w1]. simpl in Hf2.
  pose proof (frame_trans _ _ _ _ (frame_set_provider i (Err e) fo) Hf2) as (Hlp & Hlc & _ & _ & _ & Hf).
  rewrite IH; [|congruence|done|by rewrite Hlp]. f_equal. apply list_fmap_ext.
  intros k j Hj. apply list_elem_of_lookup_2 in Hj.
  assert (Hne : j ∉ [i]) by set_solver. by destruct (Hf j Hne) as [-> _].
Qed.

(** ** Theorems *)

(** Failover states stay well formed: the constructor and every method of
    the decorator, called from any task, keep one cooldown per provider and
    every stored index in range, so that no index panic is reached; only a
    request served with success moves [last_used]. *)
Theorem failover_invariant `{Decimal} {P} `{!LlmProvider P} (ps : list P) cfg task
    (fo : FailoverProvider P) req treq rq m w :
  (∀ fo0, (with_cooldown ps cfg w).1 = Ok fo0 → failover_wf fo0) ∧
  (failover_wf fo →
   failover_wf (served task (complete req) fo w).1.2 ∧
   failover_wf (served task (complete_with_tools treq) fo w).1.2 ∧
   failover_wf (failover_list_models fo w).1.2 ∧
   failover_wf (failover_model_metadata fo w).1.2 ∧
   failover_wf (failover_effective_model_name task rq fo).2 ∧
   failover_wf (@set_model _ _ (failover_provider task) m fo).2 ∧
   (∀ e, (served task (complete req) fo w).1.1 = Err e →
         last_used (served task (complete req) fo w).1.2 = last_used fo)).
Proof.
  split.
  { intros fo0 Hc. destruct ps as [|p ps]; simpl in Hc; [done|]. inv Hc.
    split_and!; simpl; [by rewrite length_replicate|lia|apply map_Forall_empty]. }
  intros Hwf. split_and!; try (by apply wf_served).
  - unfold failover_list_models. pose proof (length_list_models_all (providers fo) w) as Hl.
    destruct (list_models_all (providers fo) w) as [[l ps'] w']. by apply wf_set_providers.
  - unfold failover_model_metadata. destruct (providers fo !! last_used fo); [|done].
    destruct (model_metadata _ w) as [[]]. by apply wf_set_provider.
  - by apply wf_effective_model_name.
  - simpl. pose proof (length_set_model_all m (providers fo)) as Hl.
    destruct (set_model_all m (providers fo)). by apply wf_set_providers.
  - intros e. pose proof (try_providers_frame (complete req) fo w Hwf) as Hf. unfold served.
    destruct (try_providers _ fo w) as [[[[i a]|e'] fo'] w']; simpl; [done|]. tauto.
Qed.

(** A request is never refused for want of providers and reaches the best
    of them: with providers whose answers are fixed during the request, the
    indices tried are those outside cooldown, or the one that entered cooldown
    first when all of them are in cooldown, and the result is that of the
    first one that answers or fails for good, else the last retryable error. *)
Theorem failover_first_answer {A} (fo : FailoverProvider (Result LlmError A)) w :
  failover_wf fo →
  let n := (now_nanos fo w).1 in
  let cooled i := is_in_cooldown (cooldown_at fo i) n (wrap64 (cooldown_duration (cooldown_config fo))) in
  ∃ avail, avail ≠ [] ∧ NoDup avail ∧
    ((∀ i, i ∈ avail ↔ (i < length (providers fo))%nat ∧ cooled i = false) ∨
     ((∀ i, (i < length (providers fo))%nat → cooled i = true) ∧
      ∃ i, avail = [i] ∧ ∀ j, (j < length (providers fo))%nat →
        cooldown_activated_nanos (cooldown_at fo i) ≤ cooldown_activated_nanos (cooldown_at fo j))) ∧
    (try_providers answers fo w).1.1 =
    first_answer ((fun i => (i, default (Err index_panic) (providers fo !! i))) <$> avail)
      no_last_error.
Proof.
  intros (Hlen & Hlu & _) n cooled. unfold try_providers. subst n.
  destruct (now_nanos fo w) as [n w'] eqn:Hn. simpl in cooled |- *.
  pose proof (available_total fo n (wrap64 (cooldown_duration (cooldown_config fo))) Hlu) as [l Htot].
  destruct (available fo n (wrap64 (cooldown_duration (cooldown_config fo)))) as [avail|e] eqn:Hav; [|done].
  pose proof (available_in_range _ _ _ _ Hav) as (Hne & Hnd & Hr). exists avail. split_and!; try done.
  - unfold available in Hav. set (f := base.filter _ _) in Hav.
    assert (Hin : ∀ i, i ∈ f ↔ (i < length (providers fo))%nat ∧ cooled i = false).
    { intros i. unfold f. rewrite list_elem_of_filter, elem_of_seq. unfold cooled.
      rewrite Is_true_true, negb_true_iff. intuition lia. }
    destruct f as [|i0 f']; [right|left; by inv Hav].
    destruct (min_by_key _ _) as [m|] eqn:Hm; [|done]. inv Hav. split.
    + intros i Hi. destruct (cooled i) eqn:Hc; [done|].
      destruct (not_elem_of_nil i). by apply Hin.
    + exists m. split; [done|]. intros j Hj. apply min_by_key_Some in Hm as [_ Hm].
      apply Hm, elem_of_seq. lia.
  - rewrite <- (answers_loop avail no_last_error fo w') by done.
    destruct avail as [|i rest]; [done|]. simpl. by repeat case_match.
Qed.

(** The model name reported to a task is that of the provider that served
    it: after a request of task [t] succeeded, whatever requests and name
    queries the other tasks make, [effective_model_name] asked from [t] answers
    with the provider that served [t] and forgets the binding. *)
Theorem effective_name_follows_task `{Decimal} {P} `{!LlmProvider P} t req rq
    (fo fo2 : FailoverProvider P) w resp fo1 w1 :
  failover_wf fo →
  served (Some t) (complete req) fo w = (Ok resp, fo1, w1) →
  others t fo1 fo2 →
  ∃ p, providers fo2 !! last_used fo1 = Some p ∧
    (failover_effective_model_name (Some t) rq fo2).1 = (effective_model_name rq p).1 ∧
    provider_for_task (failover_effective_model_name (Some t) rq fo2).2 !! t = None.
Proof.
  intros Hwf Hs Ho. pose proof (wf_served (Some t) (complete req) fo w Hwf) as Hwf1.
  rewrite Hs in Hwf1. simpl in Hwf1. destruct (others_binding _ _ _ Ho Hwf1) as [Hwf2 Hb].
  pose proof (try_providers_frame (complete req) fo w Hwf) as Hf. unfold served in Hs.
  destruct (try_providers _ fo w) as [[[[i a]|e] fo'] w']; [|done]. inv Hs.
  destruct Hf as (_ & _ & Hi & _). simpl in *. rewrite lookup_insert_eq in Hb. rewrite Hi.
  destruct Hwf2 as (_ & _ & Hm). pose proof (Hm t i Hb) as Hlt.
  destruct (lookup_lt_is_Some_2 _ _ Hlt) as [p Hp]. exists p. split; [done|].
  unfold failover_effective_model_name. simpl. rewrite Hb. simpl. rewrite Hp.
  destruct (effective_model_name rq p) as [nm p']. simpl. by rewrite lookup_delete_eq.
Qed.

(** A provider enters cooldown exactly at the threshold: after [n] failures in
    a row from a reset state, each noted at time [t] and fewer than [2^32] of
    them, the cooldown is active exactly when [n] has reached the threshold,
    and it lasts for the configured duration. *)
Theorem cooldown_exactly_at_threshold threshold t n dur later :
  0 < threshold → 0 < t → t ≤ later → Z.of_nat n < 2 ^ 32 →
  let fail cd := let '(hit, cd') := record_failure threshold cd in
                 if hit then activate_cooldown t cd' else cd' in
  let cd := Nat.iter n fail cooldown_new in
  failure_count cd = Z.of_nat n ∧
  is_in_cooldown cd later dur = (threshold <=? Z.of_nat n) && (later - t <? dur).
Proof.
  intros Hth Ht Hl Hn fail. cbn zeta.
  assert (Hcd : ∀ k, Z.of_nat k < 2 ^ 32 → Nat.iter k fail cooldown_new =
    mkCooldown (Z.of_nat k) (if threshold <=? Z.of_nat k then t else 0)).
  { intros k. induction k as [|k IH]; intros Hk.
    - simpl. by rewrite (proj2 (Z.leb_gt _ _)) by lia.
    - rewrite Nat.iter_succ, IH by lia. unfold fail, record_failure, activate_cooldown. simpl.
      rewrite wrap32_small by (unfold in_u32; lia).
      replace (Z.of_nat k + 1) with (Z.of_nat (S k)) by lia.
      destruct (threshold <=? Z.of_nat (S k)) eqn:E; zify_bool.
      + by rewrite Z.max_l by lia.
      + by rewrite (proj2 (Z.leb_gt _ _)) by lia. }
  rewrite Hcd by done. split; [done|]. unfold is_in_cooldown, saturating_sub. simpl.
  destruct (threshold <=? Z.of_nat n); simpl; [|done].
  rewrite (proj2 (Z.eqb_neq t 0)) by lia. simpl. by rewrite Z.max_r by lia.
Qed.

(** ** Witnesses *)

(** A provider that always answers, named by its state. *)
Definition named_provider : LlmProvider string := {|
  model_name := fun p => p;
  cost_per_token := fun _ => (0, 0);
  complete := fun _ p w => (Ok (mkResponse p 0 0 Stop 0 0), p, w);
  complete_with_tools := fun _ p w => (Ok (mkToolResponse (Some p) [] 0 0 Stop 0 0), p, w);
  list_models := fun p w => (Ok [p], p, w);
  model_metadata := fun p w => (default_model_metadata p, p, w);
  effective_model_name := fun rq p => (default_effective_model_name rq p, p);
  active_model_name := fun p => p;
  set_model := fun m p => (Ok tt, m);
  calculate_cost := fun i o _ => default_calculate_cost (0, 0) i o;
  cache_write_multiplier := fun _ => dec_one;
  cache_read_discount := fun _ => dec_one
|}.

Definition demo_failover {P} (ps : list P) (acts : list Z) : FailoverProvider P :=
  mkFailover ps 0 (mkCooldown 3 <$> acts) 0 cooldown_config_default ∅.

Lemma failover_first_answer_witness :
  (try_providers answers (demo_failover [Err (EmptyResponse "a"); Ok 5] [0; 0])
     demo_retry_world).1.1 = Ok (1%nat, 5) ∧
  ∃ avail : list nat, avail ≠ [].
Proof.
  split; [vm_compute; reflexivity|].
  destruct (failover_first_answer (demo_failover [Err (EmptyResponse "a"); Ok 5] [0; 0])
              demo_retry_world) as (avail & Hne & _).
  - unfold failover_wf. simpl. split; [reflexivity|]. split; [lia|]. apply map_Forall_empty.
  - exists avail. exact Hne.
Defined.

Lemma effective_name_follows_task_witness :
  let fo := demo_failover ["a"; "b"] [7; 0] in
  let H := named_provider in
  let fo1 := (served (Some 1%N) (complete (completion_request_new [])) fo demo_retry_world).1.2 in
  ∃ p, providers fo1 !! last_used fo1 = Some p.
Proof.
  intros fo H fo1.
  destruct (@effective_name_follows_task _ _ named_provider 1%N (completion_request_new []) None
    fo fo1 demo_retry_world (mkResponse "b" 0 0 Stop 0 0) fo1
    (mkWorld (fun _ => 0) 1 (fun _ => 7) 0 [])) as (p & Hp & _).
  - unfold failover_wf. simpl. split; [reflexivity|]. split; [lia|]. apply map_Forall_empty.
  - vm_compute. reflexivity.
  - apply others_none.
  - exists p. exact Hp.
Defined.
