(* ===== verification/ResponseCache.v ===== *)
(** * The response cache: [src/llm/response_cache.rs]

    Completions cached under a hash of the request, with a time to live and
    least-recently-used eviction.  The two critical sections of [complete]
    (the lookup before the provider is called and the store after it) are
    definitions of their own, because the cache lock is released between them
    and other requests run there.

    Parameters: SHA-256 with its hexadecimal rendering, serde's rendering of
    the messages, and the iteration order of the hash map, about which only
    [order_ok] is known. *)

From Stdlib Require Import Ascii.
From S2P Require Import Prelude Text Provider Retry.
Local Open Scope Z_scope.

Record ResponseCacheConfig : Type := mkCacheConfig { ttl : Z; max_entries : nat }.

Definition cache_config_default : ResponseCacheConfig := mkCacheConfig (secs 3600) 1000.

Record CacheEntry : Type := mkEntry {
  response : CompletionResponse;
  created_at : Z;
  last_accessed : Z;
  hit_count : Z
}.

Abbreviation Cache := (gmap string CacheEntry).

Record CachedProvider (P : Type) : Type := mkCached {
  inner : P;
  cache : Cache;
  config : ResponseCacheConfig;
  request_count : Z;
  total_hit_count : Z
}.
Arguments mkCached {P}.
Arguments inner {P}.
Arguments cache {P}.
Arguments config {P}.
Arguments request_count {P}.
Arguments total_hit_count {P}.

Definition cached_new {P} (p : P) (cfg : ResponseCacheConfig) : CachedProvider P :=
  mkCached p ∅ cfg 0 0.

Definition len {P} (cp : CachedProvider P) : nat := size (cache cp).
Definition is_empty {P} (cp : CachedProvider P) : bool := bool_decide (cache cp = ∅).
Definition total_hits {P} (cp : CachedProvider P) : Z := total_hit_count cp.

Definition clear {P} (cp : CachedProvider P) : CachedProvider P :=
  mkCached (inner cp) ∅ (config cp) (request_count cp) (total_hit_count cp).

Definition byte_at (z i : Z) : Ascii.ascii :=
  Ascii.ascii_of_N (Z.to_N (Z.land (Z.shiftr z (8 * i)) 255)).

(** [to_le_bytes] of a 32-bit value. *)
Definition to_le_bytes (z : Z) : string :=
  String (byte_at z 0) (String (byte_at z 1) (String (byte_at z 2) (String (byte_at z 3) EmptyString))).

Definition NUL : string := String Ascii.zero EmptyString.

Definition opt_bytes (o : option Z) : string := from_option to_le_bytes "" o.

Definition stop_bytes (stops : list string) : string :=
  foldr (fun s acc => s +:+ NUL +:+ acc) "" stops.

(** The bytes that are hashed; [json] is [None] when serde fails. *)
Definition key_input (json : option string) (model : string) (request : CompletionRequest) : string :=
  model +:+ "|" +:+ default "" json +:+ "|" +:+ opt_bytes (rq_max_tokens request)
  +:+ "|" +:+ opt_bytes (rq_temperature request)
  +:+ "|" +:+ from_option stop_bytes "" (rq_stop_sequences request).

Definition cache_key (sha256_hex : string -> string)
    (messages_json : list ChatMessage -> option string)
    (model : string) (request : CompletionRequest) : string :=
  sha256_hex (key_input (messages_json (rq_messages request)) model request).

(** [now.duration_since(entry.created_at) < ttl]; the difference saturates. *)
Definition fresh (cfg : ResponseCacheConfig) (now : Z) (e : CacheEntry) : bool :=
  saturating_sub now (created_at e) <? ttl cfg.

(** First critical section: a hit refreshes the entry, an expired entry is
    removed. *)
Definition lookup_section (cfg : ResponseCacheConfig) (now : Z) (key : string) (m : Cache)
    : option CompletionResponse * Cache :=
  match m !! key with
  | Some e =>
      if fresh cfg now e then
        (Some (response e),
         <[key := mkEntry (response e) (created_at e) now (wrap64 (hit_count e + 1))]> m)
      else (None, delete key m)
  | None => (None, m)
  end.

(** [guard.retain(...)] *)
Definition retain_fresh (cfg : ResponseCacheConfig) (now : Z) (m : Cache) : Cache :=
  base.filter (fun ke => Is_true (fresh cfg now ke.2)) m.

(** [min_by_key(last_accessed)] over the iteration order: the first least. *)
Fixpoint min_accessed (l : list (string * CacheEntry)) : option (string * CacheEntry) :=
  match l with
  | [] => None
  | ke :: r =>
      match min_accessed r with
      | Some ke' => if last_accessed ke'.2 <? last_accessed ke.2 then Some ke' else Some ke
      | None => Some ke
      end
  end.

Section eviction.
(** The iteration order of [HashMap::iter]. *)
Variable order : Cache -> list (string * CacheEntry).

(** [while guard.len() >= max_entries]; each round removes an entry, so the
    size of the map bounds the number of rounds. *)
Fixpoint evict_loop (fuel : nat) (max : nat) (m : Cache) : Cache :=
  match fuel with
  | O => m
  | S fuel' =>
      if decide (max ≤ size m)%nat then
        match min_accessed (order m) with
        | Some (k, _) => evict_loop fuel' max (delete k m)
        | None => m
        end
      else m
  end.

Definition evict_lru (max : nat) (m : Cache) : Cache := evict_loop (S (size m)) max m.

(** Second critical section, on success. *)
Definition store_section (cfg : ResponseCacheConfig) (now : Z) (key : string)
    (r : CompletionResponse) (m : Cache) : Cache :=
  <[key := mkEntry r now now 0]> (evict_lru (max_entries cfg) (retain_fresh cfg now m)).

Context `{Decimal} {P : Type} `{!LlmProvider P}.
Variable sha256_hex : string -> string.
Variable messages_json : list ChatMessage -> option string.

Definition cached_complete (request : CompletionRequest) (cp : CachedProvider P) (w : World)
    : Result LlmError CompletionResponse * CachedProvider P * World :=
  let '(effective_model, p) := effective_model_name (rq_model request) (inner cp) in
  let key := cache_key sha256_hex messages_json effective_model request in
  let '(t, w1) := now w in
  let reqs := wrap64 (request_count cp + 1) in
  match lookup_section (config cp) t key (cache cp) with
  | (Some r, m) =>
      (Ok r, mkCached p m (config cp) reqs (wrap64 (total_hit_count cp + 1)), w1)
  | (None, m) =>
      match complete request p w1 with
      | (Err e, p', w2) =>
          (Err e, mkCached p' m (config cp) reqs (total_hit_count cp), w2)
      | (Ok r, p', w2) =>
          (Ok r, mkCached p' (store_section (config cp) t key r m) (config cp) reqs
                   (total_hit_count cp), w2)
      end
  end.

Definition set_inner (p : P) (cp : CachedProvider P) : CachedProvider P :=
  mkCached p (cache cp) (config cp) (request_count cp) (total_hit_count cp).

Definition cached_provider : LlmProvider (CachedProvider P) := {|
  model_name := fun cp => model_name (inner cp);
  cost_per_token := fun cp => cost_per_token (inner cp);
  complete := cached_complete;
  complete_with_tools := fun req cp w =>
    let '(r, p, w') := complete_with_tools req (inner cp) w in (r, set_inner p cp, w');
  list_models := fun cp w =>
    let '(r, p, w') := list_models (inner cp) w in (r, set_inner p cp, w');
  model_metadata := fun cp w =>
    let '(r, p, w') := model_metadata (inner cp) w in (r, set_inner p cp, w');
  effective_model_name := fun rq cp =>
    let '(n, p) := effective_model_name rq (inner cp) in (n, set_inner p cp);
  active_model_name := fun cp => active_model_name (inner cp);
  set_model := fun m cp => let '(r, p) := set_model m (inner cp) in (r, set_inner p cp);
  calculate_cost := fun i o cp => calculate_cost i o (inner cp);
  cache_write_multiplier := fun cp => cache_write_multiplier (inner cp);
  cache_read_discount := fun cp => cache_read_discount (inner cp)
|}.
End eviction.

(** ** Specification *)

Definition order_ok (order : Cache -> list (string * CacheEntry)) : Prop :=
  ∀ m, order m ≡ₚ map_to_list m.

(** The critical sections that requests run on the shared cache, in the order
    in which they take the lock.  Two requests interleave by alternating their
    lookups and stores; a store carries the time at which its request began. *)
Inductive CacheEvent : Type :=
| EvLookup (now : Z) (key : string)
| EvStore (now : Z) (key : string) (r : CompletionResponse)
| EvClear.

Definition apply_event order (cfg : ResponseCacheConfig) (ev : CacheEvent) (m : Cache) : Cache :=
  match ev with
  | EvLookup now key => (lookup_section cfg now key m).2
  | EvStore now key r => store_section order cfg now key r m
  | EvClear => ∅
  end.

(** The cache after the events, the latest first. *)
Definition run_events order (cfg : ResponseCacheConfig) (evs : list CacheEvent) : Cache :=
  foldr (apply_event order cfg) ∅ evs.

(** The latest store under [key], the latest event first. *)
Fixpoint latest_store (key : string) (evs : list CacheEvent) : option (Z * CompletionResponse) :=
  match evs with
  | [] => None
  | EvStore now k r :: rest => if decide (k = key) then Some (now, r) else latest_store key rest
  | _ :: rest => latest_store key rest
  end.

(** ** Lemmas *)

Lemma min_accessed_Some l ke : min_accessed l = Some ke →
  ke ∈ l ∧ ∀ ke', ke' ∈ l → last_accessed ke.2 ≤ last_accessed ke'.2.
Proof.
  revert ke. induction l as [|a l IH]; intros ke; simpl; [done|].
  destruct (min_accessed l) as [m|] eqn:Hm.
  - destruct (IH m eq_refl) as [Hin Hle]. destruct (last_accessed m.2 <? _) eqn:Hlt; intros [= <-];
      zify_bool; (split; [set_solver|]); intros j [->|Hj]%elem_of_cons; try lia;
      specialize (Hle j Hj); lia.
  - intros [= <-]. destruct l as [|b l]; [|simpl in Hm; repeat case_match; done].
    split; [set_solver|]. intros j Hj. apply list_elem_of_singleton in Hj. by subst.
Qed.

Lemma min_accessed_None l : min_accessed l = None → l = [].
Proof. destruct l; simpl; [done|]. repeat case_match; done. Qed.

Section eviction_facts.
Variable order : Cache -> list (string * CacheEntry).
Hypothesis Horder : order_ok order.

Lemma order_min m k e : min_accessed (order m) = Some (k, e) →
  m !! k = Some e ∧ ∀ k' e', m !! k' = Some e' → last_accessed e ≤ last_accessed e'.
Proof.
  intros [Hin Hle]%min_accessed_Some. pose proof (Horder m) as Hp. rewrite Hp in Hin.
  split; [by apply elem_of_map_to_list|]. intros k' e' Hk'. apply (Hle (k', e')).
  rewrite Hp. by apply elem_of_map_to_list.
Qed.

Lemma order_min_None m : min_accessed (order m) = None → m = ∅.
Proof.
  intros Hn%min_accessed_None. pose proof (Horder m) as Hp. rewrite Hn in Hp.
  apply Permutation_nil in Hp. by apply map_to_list_empty_iff.
Qed.

Lemma evict_loop_size fuel max m : (size m < fuel)%nat →
  (size (evict_loop order fuel max m) < max)%nat ∨ evict_loop order fuel max m = ∅.
Proof.
  revert m. induction fuel as [|fuel IH]; intros m Hf; [lia|]. simpl.
  case_decide as Hd; [|left; lia].
  destruct (min_accessed (order m)) as [[k e]|] eqn:Hm; [|right; by apply order_min_None].
  apply order_min in Hm as [Hk _]. apply IH. rewrite map_size_delete, Hk.
  enough (size m ≠ 0)%nat by (simpl; lia). rewrite map_size_non_empty_iff. by intros ->.
Qed.

Lemma evict_loop_sub fuel max m : evict_loop order fuel max m ⊆ m.
Proof.
  revert m. induction fuel as [|fuel IH]; intros m; simpl; [done|].
  case_decide; [|done]. destruct (min_accessed (order m)) as [[k e]|]; [|done].
  etrans; [apply IH|apply delete_subseteq].
Qed.

Lemma evict_loop_lru fuel max m k e k' e' :
  m !! k = Some e → evict_loop order fuel max m !! k = None →
  evict_loop order fuel max m !! k' = Some e' → last_accessed e ≤ last_accessed e'.
Proof.
  revert m. induction fuel as [|fuel IH]; intros m Hk Hev Hk'; simpl in *; [congruence|].
  case_decide; [|congruence].
  destruct (min_accessed (order m)) as [[k0 e0]|] eqn:Hm; [|congruence].
  apply order_min in Hm as [Hk0 Hmin]. destruct (decide (k = k0)) as [->|Hne].
  - assert (e = e0) as -> by congruence. apply (Hmin k').
    eapply lookup_weaken; [exact Hk'|]. etrans; [apply evict_loop_sub|apply delete_subseteq].
  - apply (IH (delete k0 m)); [by rewrite lookup_delete_ne by done|done|done].
Qed.
End eviction_facts.

Lemma evict_lru_sub order max m : evict_lru order max m ⊆ m.
Proof. apply evict_loop_sub. Qed.

Lemma retain_fresh_lookup cfg now m k e :
  retain_fresh cfg now m !! k = Some e ↔ m !! k = Some e ∧ fresh cfg now e = true.
Proof. unfold retain_fresh. rewrite map_lookup_filter_Some. simpl. by rewrite Is_true_true. Qed.

Lemma store_section_other order cfg now key r m k e : k ≠ key →
  store_section order cfg now key r m !! k = Some e → m !! k = Some e ∧ fresh cfg now e = true.
Proof.
  intros Hk. unfold store_section. rewrite lookup_insert_ne by done. intros He.
  apply (retain_fresh_lookup cfg now). eapply lookup_weaken; [exact He|apply evict_lru_sub].
Qed.

Lemma lookup_section_entry cfg now key m k e : (lookup_section cfg now key m).2 !! k = Some e →
  ∃ e0, m !! k = Some e0 ∧ created_at e = created_at e0 ∧ response e = response e0.
Proof.
  unfold lookup_section. destruct (m !! key) as [e0|] eqn:Hk; simpl; [|eauto].
  destruct (fresh cfg now e0); simpl.
  - destruct (decide (key = k)) as [->|Hne].
    + rewrite lookup_insert_eq. intros [= <-]. eauto.
    + rewrite lookup_insert_ne by done. eauto.
  - intros [_ ?]%lookup_delete_Some. eauto.
Qed.

Lemma lookup_section_size cfg now key m : (size (lookup_section cfg now key m).2 ≤ size m)%nat.
Proof.
  unfold lookup_section. destruct (m !! key) as [e0|] eqn:Hk; simpl; [|done].
  destruct (fresh cfg now e0); simpl.
  - rewrite map_size_insert, Hk. done.
  - rewrite map_size_delete, Hk. lia.
Qed.

Lemma run_events_entry order cfg evs key e :
  run_events order cfg evs !! key = Some e →
  latest_store key evs = Some (created_at e, response e).
Proof.
  revert e. induction evs as [|ev evs IH]; intros e; cbn [run_events foldr]; [done|].
  fold (run_events order cfg evs). destruct ev as [t k|t k r|]; simpl.
  - intros (e0 & He0 & -> & ->)%lookup_section_entry. by apply IH.
  - case_decide as Hd.
    + subst. unfold store_section. rewrite lookup_insert_eq. by intros [= <-].
    + intros [He _]%store_section_other; [|done]. by apply IH.
  - by rewrite lookup_empty.
Qed.

Lemma byte_at_eq a b i k : k = 2 ^ (8 * i) → 0 ≤ i →
  byte_at a i = byte_at b i → (a / k) mod 256 = (b / k) mod 256.
Proof.
  intros -> Hi Heq. apply (f_equal Ascii.N_of_ascii) in Heq. unfold byte_at in Heq.
  assert (Hl : ∀ z, Z.land (Z.shiftr z (8 * i)) 255 = (z / 2 ^ (8 * i)) mod 256).
  { intros z. rewrite Z.shiftr_div_pow2 by lia. apply (Z.land_ones _ 8). lia. }
  rewrite !Hl in Heq. pose proof (Z.mod_pos_bound (a / 2 ^ (8 * i)) 256).
  pose proof (Z.mod_pos_bound (b / 2 ^ (8 * i)) 256).
  rewrite !Ascii.N_ascii_embedding in Heq by lia. lia.
Qed.

Lemma to_le_bytes_inj a b : in_u32 a → in_u32 b → to_le_bytes a = to_le_bytes b → a = b.
Proof.
  unfold in_u32, to_le_bytes. intros Ha Hb (H0 & (H1 & (H2 & (H3 & _)%string_cons_inj)%string_cons_inj)%string_cons_inj)%string_cons_inj.
  apply (byte_at_eq _ _ _ 1) in H0; [|done..]. apply (byte_at_eq _ _ _ 256) in H1; [|done..].
  apply (byte_at_eq _ _ _ 65536) in H2; [|done..]. apply (byte_at_eq _ _ _ 16777216) in H3; [|done..].
  rewrite !Z.div_1_r in H0. Z.to_euclidean_division_equations. lia.
Qed.

(** No NUL byte. *)
Definition nul_free (s : string) : bool := string_forallb (fun c => negb (Ascii.eqb c Ascii.zero)) s.

Lemma nul_terminated_inj s1 s2 t1 t2 : nul_free s1 = true → nul_free s2 = true →
  s1 +:+ NUL +:+ t1 = s2 +:+ NUL +:+ t2 → s1 = s2 ∧ t1 = t2.
Proof.
  revert s2. induction s1 as [|c s1 IH]; intros [|d s2] H1 H2; simpl in *.
  - intros [_ ?]%string_cons_inj. done.
  - intros [<- _]%string_cons_inj. done.
  - intros [-> _]%string_cons_inj. done.
  - apply andb_true_iff in H1 as [_ H1], H2 as [_ H2]. intros [-> Heq]%string_cons_inj.
    by destruct (IH s2 H1 H2 Heq) as [-> ->].
Qed.

Lemma stop_bytes_inj l1 l2 : Forall (fun s => nul_free s = true) l1 →
  Forall (fun s => nul_free s = true) l2 → stop_bytes l1 = stop_bytes l2 → l1 = l2.
Proof.
  revert l2. induction l1 as [|s l1 IH]; intros [|s2 l2] H1 H2; simpl; try done.
  - by destruct s2.
  - by destruct s.
  - inv H1. inv H2. intros [-> Heq]%nul_terminated_inj; [|done..]. by rewrite (IH l2).
Qed.

(** No [|], the byte between the hashed fields. *)
Definition bar_free (s : string) : bool := string_forallb (fun c => negb (Ascii.eqb c "|"%char)) s.

Lemma bar_terminated_inj s1 s2 t1 t2 : bar_free s1 = true → bar_free s2 = true →
  s1 +:+ "|" +:+ t1 = s2 +:+ "|" +:+ t2 → s1 = s2 ∧ t1 = t2.
Proof.
  revert s2. induction s1 as [|c s1 IH]; intros [|d s2] H1 H2; simpl in *.
  - intros [_ ?]%string_cons_inj. done.
  - intros [<- _]%string_cons_inj. done.
  - intros [-> _]%string_cons_inj. done.
  - apply andb_true_iff in H1 as [_ H1], H2 as [_ H2]. intros [-> Heq]%string_cons_inj.
    by destruct (IH s2 H1 H2 Heq) as [-> ->].
Qed.

(** ** Theorems *)

(** The cache stays within its capacity under every interleaving of the
    critical sections of concurrent requests: it never holds more than
    [max_entries] responses (one, when the capacity is zero), whatever order
    the hash map iterates in. *)
Theorem cache_bounded order cfg evs :
  order_ok order → (size (run_events order cfg evs) ≤ Nat.max 1 (max_entries cfg))%nat.
Proof.
  intros Ho. induction evs as [|ev evs IH]; cbn [run_events foldr]; [rewrite map_size_empty; lia|].
  fold (run_events order cfg evs). destruct ev as [t k|t k r|]; simpl.
  - etrans; [apply lookup_section_size|done].
  - unfold store_section, evict_lru. set (m := retain_fresh cfg t _).
    pose proof (evict_loop_size order Ho (S (size m)) (max_entries cfg) m ltac:(lia)) as Hev.
    set (ev := evict_loop order (S (size m)) (max_entries cfg) m) in *. clearbody ev.
    destruct Hev as [Hs|He].
    + rewrite map_size_insert. destruct (_ !! k); simpl; lia.
    + rewrite He, map_size_insert, lookup_empty, map_size_empty. lia.
  - rewrite map_size_empty. lia.
Qed.

(** A hit is genuine: under every interleaving, what a lookup returns is the
    response of the latest store under that very key, made less than the time
    to live before the lookup; a lookup never creates an entry. *)
Theorem cache_hit_genuine order cfg evs now key r m' :
  lookup_section cfg now key (run_events order cfg evs) = (Some r, m') →
  ∃ t, latest_store key evs = Some (t, r) ∧ now - t < ttl cfg ∧
       dom m' = dom (run_events order cfg evs).
Proof.
  unfold lookup_section. destruct (run_events order cfg evs !! key) as [e|] eqn:He; [|done].
  destruct (fresh cfg now e) eqn:Hf; [|done]. intros [= <- <-].
  exists (created_at e). split_and!.
  - by apply (run_events_entry order cfg).
  - unfold fresh, saturating_sub in Hf. zify_bool. lia.
  - rewrite dom_insert_L. apply elem_of_dom_2 in He. set_solver.
Qed.

(** Eviction is least recently used: an entry that is still fresh and that a
    store drops was accessed no later than any other entry that survives, and
    survivors are unchanged. *)
Theorem eviction_is_lru order cfg now key r m k e k' e' :
  order_ok order →
  m !! k = Some e → fresh cfg now e = true → k ≠ key →
  store_section order cfg now key r m !! k = None →
  k' ≠ key → store_section order cfg now key r m !! k' = Some e' →
  last_accessed e ≤ last_accessed e' ∧ m !! k' = Some e'.
Proof.
  intros Ho Hk Hf Hkk Hev Hk' Hs. pose proof Hs as [Hm _]%store_section_other; [|done].
  split; [|done]. unfold store_section in Hev, Hs. rewrite lookup_insert_ne in Hev, Hs by done.
  eapply (evict_loop_lru order Ho); [|exact Hev|exact Hs]. by apply retain_fresh_lookup.
Qed.

(** The hashed bytes separate the parameters that change a response: for
    one model and one conversation, requests that agree on which of
    [max_tokens] and [temperature] are given and whose stop sequences hold no
    NUL byte hash the same bytes only if the values are the same. *)
Theorem key_input_separates json model r1 r2 :
  (∀ z, rq_max_tokens r1 = Some z ∨ rq_max_tokens r2 = Some z ∨
        rq_temperature r1 = Some z ∨ rq_temperature r2 = Some z → in_u32 z) →
  (is_Some (rq_max_tokens r1) ↔ is_Some (rq_max_tokens r2)) →
  (is_Some (rq_temperature r1) ↔ is_Some (rq_temperature r2)) →
  Forall (fun s => nul_free s = true) (default [] (rq_stop_sequences r1)) →
  Forall (fun s => nul_free s = true) (default [] (rq_stop_sequences r2)) →
  key_input json model r1 = key_input json model r2 →
  rq_max_tokens r1 = rq_max_tokens r2 ∧ rq_temperature r1 = rq_temperature r2 ∧
  default [] (rq_stop_sequences r1) = default [] (rq_stop_sequences r2).
Proof.
  intros Hr Hm Ht Hs1 Hs2 Heq. unfold key_input in Heq. do 4 apply (inj (String.append _)) in Heq.
  assert (Hopt : ∀ o1 o2 t1 t2, (∀ z, o1 = Some z ∨ o2 = Some z → in_u32 z) →
    (is_Some o1 ↔ is_Some o2) → opt_bytes o1 +:+ "|" +:+ t1 = opt_bytes o2 +:+ "|" +:+ t2 →
    o1 = o2 ∧ t1 = t2).
  { intros [z1|] [z2|] t1 t2 Hz Hi; [|by destruct (proj1 Hi ltac:(eauto))|by destruct (proj2 Hi ltac:(eauto))|].
    - cbn [opt_bytes from_option to_le_bytes String.append].
      intros (H0 & (H1 & (H2 & (H3 & [_ ?]%string_cons_inj)%string_cons_inj)%string_cons_inj)%string_cons_inj)%string_cons_inj.
      split; [|done]. f_equal. apply to_le_bytes_inj; [eauto..|]. unfold to_le_bytes. by rewrite H0, H1, H2, H3.
    - cbn [opt_bytes from_option String.append]. intros [_ ?]%string_cons_inj. done. }
  apply Hopt in Heq as [-> Heq]; [|naive_solver|done].
  apply Hopt in Heq as [-> Heq]; [|naive_solver|done]. split_and!; [done..|].
  apply stop_bytes_inj; [done..|].
  by destruct (rq_stop_sequences r1), (rq_stop_sequences r2).
Qed.

(** The numbers of a request are 32-bit values, its stop sequences hold no NUL byte, and it gives a maximum of tokens and a temperature just
    when [mt] and [tp] say so. *)
Definition plain_request (mt tp : bool) (rq : CompletionRequest) : Prop :=
  (∀ z, rq_max_tokens rq = Some z ∨ rq_temperature rq = Some z → in_u32 z) ∧
  (is_Some (rq_max_tokens rq) ↔ mt = true) ∧ (is_Some (rq_temperature rq) ↔ tp = true) ∧
  Forall (fun s => nul_free s = true) (default [] (rq_stop_sequences rq)).

(** What the requests agree on that the hashed bytes keep apart. *)
Definition same_question (messages_json : list ChatMessage -> option string) (rq rq' : CompletionRequest) : Prop :=
  messages_json (rq_messages rq) = messages_json (rq_messages rq') ∧
  rq_max_tokens rq = rq_max_tokens rq' ∧ rq_temperature rq = rq_temperature rq' ∧
  default [] (rq_stop_sequences rq) = default [] (rq_stop_sequences rq').

(** serde renders every list of messages, and a rendered list shows where it ends. *)
Definition self_delimiting (messages_json : list ChatMessage -> option string) : Prop :=
  (∀ ms, is_Some (messages_json ms)) ∧
  ∀ ms ms' x y s t, messages_json ms = Some x → messages_json ms' = Some y → x +:+ s = y +:+ t → x = y.

(** Under a collision-free hash, requests of one shape share a key only when they are resolved to the same model and ask the same. *)
Lemma cache_key_separates sha256_hex messages_json mt tp model model' rq rq' :
  Inj (=) (=) sha256_hex → self_delimiting messages_json → bar_free model = true → bar_free model' = true →
  plain_request mt tp rq → plain_request mt tp rq' →
  cache_key sha256_hex messages_json model rq = cache_key sha256_hex messages_json model' rq' →
  model = model' ∧ same_question messages_json rq rq'.
Proof.
  intros Hsha [Htotal Hself] Hm Hm' (Hz & Hmt & Htp & Hs) (Hz' & Hmt' & Htp' & Hs') Heq%Hsha.
  destruct (Htotal (rq_messages rq)) as [x Hx], (Htotal (rq_messages rq')) as [y Hy]. rewrite Hx, Hy in Heq. pose proof Heq as Hall.
  unfold key_input in Heq. apply bar_terminated_inj in Heq as [-> Heq]; [|done..]. split; [done|].
  assert (x = y) as -> by by eapply (Hself _ _ _ _ _ _ Hx Hy).
  destruct (key_input_separates (Some y) model' rq rq') as (? & ? & ?); [|naive_solver..|done|done|done|].
  - intros z. naive_solver.
  - unfold same_question. by rewrite Hx, Hy.
Qed.

(** Requests that differ in their stop sequences can hash the same bytes, and
    so can requests that differ in [max_tokens] and [temperature]. *)
Lemma key_input_collides :
  let req mt t stops := mkRequest [] None mt t (Some stops) ∅ in
  key_input (Some "[]") "m" (req None None ["a"; "b"]) =
  key_input (Some "[]") "m" (req None None ["a" +:+ NUL +:+ "b"]) ∧
  key_input (Some "[]") "m" (req (Some 124) None []) =
  key_input (Some "[]") "m" (req None (Some (124 * 2 ^ 24)) []).
Proof. split; vm_compute; reflexivity. Qed.

(** ** Witnesses *)

Definition demo_cache_config : ResponseCacheConfig := mkCacheConfig 100 1.
Definition demo_response (s : string) : CompletionResponse := mkResponse s 1 1 Stop 0 0.

Lemma map_to_list_order_ok : order_ok map_to_list.
Proof. by intros m. Qed.

Lemma cache_bounded_witness :
  (size (run_events map_to_list demo_cache_config
    [EvStore 20 "b" (demo_response "y"); EvLookup 15 "a"; EvStore 10 "a" (demo_response "x")]) ≤ 1)%nat.
Proof. exact (cache_bounded map_to_list demo_cache_config _ map_to_list_order_ok). Defined.

Lemma cache_hit_genuine_witness :
  ∃ t, latest_store "a" [EvStore 10 "a" (demo_response "x")] = Some (t, demo_response "x") ∧ 30 - t < 100.
Proof.
  destruct (cache_hit_genuine map_to_list demo_cache_config [EvStore 10 "a" (demo_response "x")] 30
    "a" (demo_response "x") {["a" := mkEntry (demo_response "x") 10 30 1]}) as (t & H1 & H2 & _).
  - vm_compute. reflexivity.
  - exists t. split; [exact H1|exact H2].
Defined.

Lemma eviction_is_lru_witness :
  let m : Cache := {["a" := mkEntry (demo_response "x") 1 1 0; "b" := mkEntry (demo_response "y") 2 2 0]} in
  let cfg := mkCacheConfig 100 2 in
  store_section map_to_list cfg 3 "c" (demo_response "z") m !! "a" = None ∧ 1 ≤ 2.
Proof.
  intros m cfg.
  assert (Hn : store_section map_to_list cfg 3 "c" (demo_response "z") m !! "a" = None)
    by (vm_compute; reflexivity).
  split; [exact Hn|].
  exact (proj1 (eviction_is_lru map_to_list cfg 3 "c" (demo_response "z") m "a"
    (mkEntry (demo_response "x") 1 1 0) "b" (mkEntry (demo_response "y") 2 2 0)
    map_to_list_order_ok eq_refl eq_refl ltac:(discriminate) Hn ltac:(discriminate) eq_refl)).
Defined.

Lemma key_input_separates_witness :
  let r := mkRequest [] None (Some 5) None (Some ["x"]) ∅ in
  rq_max_tokens r = rq_max_tokens r.
Proof.
  intros r. refine (proj1 (key_input_separates (Some "[]") "m" r r _ _ _ _ _ eq_refl)).
  - intros z [Hz|[Hz|[Hz|Hz]]]; simpl in Hz; simplify_eq; unfold in_u32; lia.
  - reflexivity.
  - reflexivity.
  - repeat constructor.
  - repeat constructor.
Defined.
