(* ===== verification/RateLimiter.v ===== *)
(** * Tool rate limits: [src/tools/rate_limiter.rs]

    Per-user, per-tool limits with a minute and an hour window.  The state
    lock is held for a whole call, so a call is one step; the call reads the
    clock at up to seven points, in this order: creation of the two windows (0, 1), test and
    restart of the minute window (2, 3), test and restart of the hour window
    (4, 5), remaining time of an exhausted window (6). *)

From S2P Require Import Prelude.
Local Open Scope Z_scope.

Definition MINUTE_SECS : Z := 60.
Definition HOUR_SECS : Z := 3600.

Record ToolRateLimitConfig : Type := mkRateConfig {
  requests_per_minute : Z;
  requests_per_hour : Z
}.

Definition rate_config_default : ToolRateLimitConfig := mkRateConfig 60 1000.

Inductive LimitType : Type := PerMinute | PerHour.

Definition limit_type_display (t : LimitType) : string :=
  match t with PerMinute => "per-minute" | PerHour => "per-hour" end.

Inductive RateLimitResult : Type :=
| Allowed (remaining_minute remaining_hour : Z)
| Limited (retry_after : Z) (limit_type : LimitType).

Definition is_allowed (r : RateLimitResult) : bool :=
  match r with Allowed _ _ => true | Limited _ _ => false end.

Record WindowState : Type := mkWindow { window_start : Z; count : Z }.

Definition window_new (t : Z) : WindowState := mkWindow t 0.

(** [t_test] is the reading of [elapsed], [t_reset] that of the restart. *)
Definition maybe_reset (t_test t_reset window_duration : Z) (w : WindowState) : WindowState :=
  if window_duration <=? saturating_sub t_test (window_start w) then mkWindow t_reset 0 else w.

Definition time_until_reset (t : Z) (window_duration : Z) (w : WindowState) : Z :=
  let elapsed := saturating_sub t (window_start w) in
  if window_duration <=? elapsed then 0 else window_duration - elapsed.

Record ToolRateLimitState : Type := mkToolState {
  minute_window : WindowState;
  hour_window : WindowState
}.

Abbreviation RateLimiter := (gmap (string * string) ToolRateLimitState).

Definition limiter_new : RateLimiter := ∅.

(** [entry(key).or_insert_with(ToolRateLimitState::new)], then both resets. *)
Definition refreshed (clk : Clock) (o : option ToolRateLimitState) : ToolRateLimitState :=
  let s := default (mkToolState (window_new (clk 0%nat)) (window_new (clk 1%nat))) o in
  mkToolState
    (maybe_reset (clk 2%nat) (clk 3%nat) (secs MINUTE_SECS) (minute_window s))
    (maybe_reset (clk 4%nat) (clk 5%nat) (secs HOUR_SECS) (hour_window s)).

(** [count += 1] on a [u32]. *)
Definition bump (w : WindowState) : WindowState :=
  mkWindow (window_start w) (wrap32 (count w + 1)).

Definition check_internal (clk : Clock) (user_id tool_name : string)
    (config : ToolRateLimitConfig) (record : bool) (state : RateLimiter)
    : RateLimitResult * RateLimiter :=
  let key := (user_id, tool_name) in
  let s := refreshed clk (state !! key) in
  if requests_per_minute config <=? count (minute_window s) then
    (Limited (time_until_reset (clk 6%nat) (secs MINUTE_SECS) (minute_window s)) PerMinute,
     <[key := s]> state)
  else if requests_per_hour config <=? count (hour_window s) then
    (Limited (time_until_reset (clk 6%nat) (secs HOUR_SECS) (hour_window s)) PerHour,
     <[key := s]> state)
  else
    let s' := if record then mkToolState (bump (minute_window s)) (bump (hour_window s)) else s in
    (Allowed (wrap32 (requests_per_minute config - count (minute_window s')))
             (wrap32 (requests_per_hour config - count (hour_window s'))),
     <[key := s']> state).

Definition check_and_record clk user tool config state :=
  check_internal clk user tool config true state.

Definition check clk user tool config state :=
  check_internal clk user tool config false state.

Definition get_usage (user tool : string) (state : RateLimiter) : option (Z * Z) :=
  (fun s => (count (minute_window s), count (hour_window s))) <$> state !! (user, tool).

Definition limiter_clear (user tool : string) (state : RateLimiter) : RateLimiter :=
  delete (user, tool) state.

Definition limiter_clear_all (state : RateLimiter) : RateLimiter := ∅.

Record RateLimitError : Type := mkRateLimitError {
  rle_retry_after : Z;
  rle_limit_type : LimitType
}.

Definition rate_limit_result_into (r : RateLimitResult) : Result RateLimitError unit :=
  match r with
  | Allowed _ _ => Ok tt
  | Limited retry_after limit_type => Err (mkRateLimitError retry_after limit_type)
  end.

(** ** Specification *)

(** A call to the limiter. *)
Record Call : Type := mkCall {
  c_user : string;
  c_tool : string;
  c_config : ToolRateLimitConfig;
  c_record : bool;
  c_clock : Clock
}.

(** The calls in order of time, the latest first: the clock of each one is
    monotone and starts no earlier than the previous call ended. *)
Inductive timed : list Call → Prop :=
| timed_nil : timed []
| timed_one c : monotone (c_clock c) → timed [c]
| timed_cons c c' cs :
    monotone (c_clock c) → (c_clock c' 6%nat ≤ c_clock c 0%nat) →
    timed (c' :: cs) → timed (c :: c' :: cs).

(** An admitted and recorded call: the starts of the windows it was counted in
    and the time at which it returned. *)
Record Admission : Type := mkAdmission { a_minute : Z; a_hour : Z; a_time : Z }.

(** The limiter after the calls, and the admissions under [key], the latest
    first. *)
Definition run_call (key : string * string) (c : Call) (acc : RateLimiter * list Admission)
    : RateLimiter * list Admission :=
  let '(state, log) := acc in
  let '(res, state') :=
    check_internal (c_clock c) (c_user c) (c_tool c) (c_config c) (c_record c) state in
  (state',
   if bool_decide ((c_user c, c_tool c) = key) && c_record c && is_allowed res then
     match state' !! key with
     | Some s => mkAdmission (window_start (minute_window s)) (window_start (hour_window s))
                   (c_clock c 6%nat) :: log
     | None => log
     end
   else log).

Definition run_calls (key : string * string) (cs : list Call) : RateLimiter * list Admission :=
  foldr (run_call key) (∅, []) cs.

(** The admissions that returned in [[from, from + d)]. *)
Definition within (from d : Z) (log : list Admission) : list Admission :=
  base.filter (fun a => from ≤ a_time a < from + d) log.

(** What relates one window of the limiter to the admissions: [f] gives the
    start of the window in which an admission was counted. *)
Definition in_window (f : Admission -> Z) (s : Z) (log : list Admission) : list Admission :=
  base.filter (fun a => f a = s) log.

Definition earlier_window (d : Z) (f : Admission -> Z) (s : Z) (a : Admission) : Prop :=
  f a = s ∨ (f a + d ≤ s ∧ a_time a ≤ s).

Record window_inv (d limit : Z) (f : Admission -> Z) (T : Z) (w : WindowState)
    (log : list Admission) : Prop := {
  wi_start : window_start w ≤ T;
  wi_times : Forall (fun a => f a ≤ a_time a ≤ T) log;
  wi_past : Forall (earlier_window d f (window_start w)) log;
  wi_pairs : ForallOrdPairs (fun a b => earlier_window d f (f a) b) log;
  wi_count : Z.of_nat (length (in_window f (window_start w) log)) = count w;
  wi_limit : ∀ s, Z.of_nat (length (in_window f s log)) ≤ limit
}.

(** ** Lemmas *)

Section windows.
Context (d limit : Z) (f : Admission -> Z).
Hypothesis Hd : 0 < d.
Implicit Types (w : WindowState) (log : list Admission).

Lemma in_window_empty s log : Forall (fun a => f a ≠ s) log → in_window f s log = [].
Proof.
  unfold in_window. induction 1 as [|a log Ha _ IH]; [done|]. by rewrite filter_cons_False.
Qed.

Lemma window_inv_new t : 0 ≤ limit → window_inv d limit f t (window_new t) [].
Proof. intros Hl. by constructor; simpl; try constructor. Qed.

Lemma window_inv_later T T' w log : T ≤ T' →
  window_inv d limit f T w log → window_inv d limit f T' w log.
Proof.
  intros HT [Hs Ht Hp Hq Hc Hl]. constructor; try done; [lia|].
  eapply Forall_impl; [exact Ht|]. simpl. lia.
Qed.

Lemma window_inv_reset T t1 t2 w log : T ≤ t1 → t1 ≤ t2 →
  window_inv d limit f T w log → window_inv d limit f t2 (maybe_reset t1 t2 d w) log.
Proof.
  intros H1 H2 Hw. unfold maybe_reset, saturating_sub.
  destruct (d <=? _) eqn:E; zify_bool; [|apply (window_inv_later T); [lia|done]].
  destruct Hw as [Hs Ht Hp Hq Hc Hl].
  assert (Hold : Forall (fun a => f a + d ≤ t2 ∧ a_time a ≤ t2) log).
  { rewrite Forall_forall in Ht, Hp |- *. intros a Ha. specialize (Ht a Ha).
    destruct (Hp a Ha); lia. }
  constructor; simpl; [lia|..]; try done.
  - eapply Forall_impl; [exact Ht|]. simpl. lia.
  - eapply Forall_impl; [exact Hold|]. intros a Ha. by right.
  - rewrite in_window_empty; [done|]. eapply Forall_impl; [exact Hold|]. simpl. lia.
Qed.

Lemma window_inv_admit T T' w log a : T ≤ T' → count w < limit → limit ≤ u32_max →
  f a = window_start w → a_time a = T' →
  window_inv d limit f T w log → window_inv d limit f T' (bump w) (a :: log).
Proof.
  intros HT Hlt Hmax Hf Ha [Hs Ht Hp Hq Hc Hl]. unfold bump.
  assert (Hc0 : 0 ≤ count w) by lia.
  rewrite wrap32_small by (unfold in_u32, u32_max in *; lia).
  constructor; simpl; [lia|..].
  - constructor; [lia|]. eapply Forall_impl; [exact Ht|]. simpl. lia.
  - constructor; [by left|done].
  - constructor; [|done]. rewrite Hf. done.
  - unfold in_window. rewrite filter_cons_True by done. simpl. fold (in_window f (window_start w) log). lia.
  - intros s. unfold in_window. destruct (decide (f a = s)) as [<-|Hne].
    + rewrite filter_cons_True by done. rewrite Hf. simpl. fold (in_window f (window_start w) log). lia.
    + rewrite filter_cons_False by done. apply Hl.
Qed.

(** Admissions whose windows are among two are at most as many as the two
    windows hold. *)
Lemma two_windows s1 s2 log : Forall (fun a => f a = s1 ∨ f a = s2) log →
  (length log ≤ length (in_window f s1 log) + length (in_window f s2 log))%nat.
Proof.
  unfold in_window. induction 1 as [|a log Ha _ IH]; [done|]. rewrite !filter_cons.
  destruct Ha as [Ha|Ha]; rewrite (decide_True _ _ Ha); case_decide; simpl; lia.
Qed.

Lemma within_sub from log s : (length (in_window f s (within from d log)) ≤ length (in_window f s log))%nat.
Proof.
  unfold in_window, within. rewrite list_filter_filter.
  induction log as [|a log IH]; [done|]. rewrite !filter_cons.
  repeat case_decide; simpl in *; try lia; naive_solver.
Qed.

Lemma pairs_within from log : ForallOrdPairs (fun a b => earlier_window d f (f a) b) log →
  ForallOrdPairs (fun a b => earlier_window d f (f a) b) (within from d log).
Proof.
  unfold within. induction 1 as [|a log Ha _ IH]; [constructor|]. rewrite filter_cons.
  case_decide; [|done]. constructor; [|done]. by apply Forall_kept.
Qed.

(** An interval as long as the window meets at most two windows. *)
Lemma short_interval from log : Forall (fun a => f a ≤ a_time a) log →
  Forall (fun a => from ≤ a_time a < from + d) log →
  ForallOrdPairs (fun a b => earlier_window d f (f a) b) log →
  ∃ s1 s2, Forall (fun a => f a = s1 ∨ f a = s2) log.
Proof.
  destruct log as [|a log]; intros Ht Hi Hp; [by exists 0, 0|].
  apply Forall_cons in Ht as [Hta Ht], Hi as [Hia Hi]. inversion_clear Hp as [|? ? Hpa Hpl].
  assert (Hle : Forall (fun b => a_time a < a_time b + d) log).
  { eapply Forall_impl; [exact Hi|]. simpl. lia. }
  clear Hi Hia Ht. exists (f a).   assert (Hex : ∃ s2, Forall (fun b => f b = f a ∨ f b = s2) log); last first.
  { destruct Hex as [s2 Hs2]. exists s2. constructor; [by left|done]. }
  induction log as [|b log IH]; [by exists 0|].
  apply Forall_cons in Hle as [Hb Hle], Hpa as [Hba Hpa]. inversion_clear Hpl as [|? ? Hpb Hpl'].
  destruct Hba as [Hba|[Hba _]].
  { destruct IH as [s2 Hs2]; [done..|]. exists s2. constructor; [by left|done]. }
  exists (f b). constructor; [by right|]. rewrite !Forall_forall in *. intros c Hc.
  destruct (Hpb c Hc) as [Hcb|[_ Hcb]]; [by right|]. specialize (Hle c Hc). lia.
Qed.

Lemma window_bound T w log from : window_inv d limit f T w log →
  Z.of_nat (length (within from d log)) ≤ 2 * limit.
Proof.
  intros [Hs Ht Hp Hq Hc Hl].
  destruct (short_interval from (within from d log)) as (s1 & s2 & Hs12).
  - apply Forall_kept. eapply Forall_impl; [exact Ht|]. simpl. lia.
  - unfold within. apply Forall_forall. by intros a [? _]%list_elem_of_filter.
  - by apply pairs_within.
  - apply two_windows in Hs12. pose proof (within_sub from log s1). pose proof (within_sub from log s2).
    pose proof (Hl s1). pose proof (Hl s2). lia.
Qed.
End windows.

(** The two windows under one key. *)
Definition key_inv (cfg : ToolRateLimitConfig) (T : Z) (s : ToolRateLimitState)
    (log : list Admission) : Prop :=
  window_inv (secs MINUTE_SECS) (requests_per_minute cfg) a_minute T (minute_window s) log ∧
  window_inv (secs HOUR_SECS) (requests_per_hour cfg) a_hour T (hour_window s) log.

Definition limits_ok (cfg : ToolRateLimitConfig) : Prop :=
  in_u32 (requests_per_minute cfg) ∧ in_u32 (requests_per_hour cfg).

Lemma refreshed_inv cfg clk T o log : limits_ok cfg → monotone clk → T ≤ clk 0%nat →
  (match o with Some s => key_inv cfg T s log | None => log = [] end) →
  key_inv cfg (clk 5%nat) (refreshed clk o) log.
Proof.
  intros [[Hm _] [Hh _]] Hmono HT Ho.
  assert (H01 := Hmono 0%nat 1%nat ltac:(lia)). assert (H12 := Hmono 1%nat 2%nat ltac:(lia)).
  assert (H23 := Hmono 2%nat 3%nat ltac:(lia)). assert (H34 := Hmono 3%nat 4%nat ltac:(lia)).
  assert (H45 := Hmono 4%nat 5%nat ltac:(lia)).
  assert (Hinv : key_inv cfg (clk 1%nat)
    (default (mkToolState (window_new (clk 0%nat)) (window_new (clk 1%nat))) o) log).
  { destruct o as [s|]; simpl.
    - destruct Ho. split; (eapply window_inv_later; [|eassumption]; lia).
    - subst log. split; simpl; [|by apply window_inv_new].
      eapply window_inv_later; [exact H01|by apply window_inv_new]. }
  destruct Hinv as [Him Hih]. split; simpl.
  - apply (window_inv_later _ _ _ (clk 3%nat)); [lia|].
    apply (window_inv_reset (secs MINUTE_SECS) _ _ ltac:(done) (clk 1%nat)); [lia|lia|done].
  - apply (window_inv_reset (secs HOUR_SECS) _ _ ltac:(done) (clk 1%nat)); [lia|lia|done].
Qed.

(** What one call does to the state under its own key. *)
Lemma check_internal_own cfg clk user tool record state T log :
  let '(res, state') := check_internal clk user tool cfg record state in
  limits_ok cfg → monotone clk → T ≤ clk 0%nat →
  (match state !! (user, tool) with Some s => key_inv cfg T s log | None => log = [] end) →
  ∃ s, state' !! (user, tool) = Some s ∧
    key_inv cfg (clk 6%nat) s
      (if record && is_allowed res then
         mkAdmission (window_start (minute_window s)) (window_start (hour_window s)) (clk 6%nat) :: log
       else log).
Proof.
  unfold check_internal. set (s := refreshed clk (state !! (user, tool))).
  destruct (requests_per_minute cfg <=? count (minute_window s)) eqn:Em;
    [|destruct (requests_per_hour cfg <=? count (hour_window s)) eqn:Eh];
    intros Hl Hmono HT Ho; pose proof (refreshed_inv cfg clk T _ log Hl Hmono HT Ho) as Hs;
    fold s in Hs; assert (H56 := Hmono 5%nat 6%nat ltac:(lia)).
  1,2: exists s; rewrite lookup_insert_eq, andb_false_r; split; [done|];
    destruct Hs; split; (eapply window_inv_later; [exact H56|done]).
  zify_bool. destruct Hl as [Hm Hh], Hs as [Hsm Hsh]. rewrite andb_true_r. simpl is_allowed.
  destruct record; rewrite lookup_insert_eq; (eexists; split; [done|]); simpl.
  - split; simpl; (eapply window_inv_admit; [| | | | |eassumption]);
      unfold in_u32, u32_max, secs, MINUTE_SECS, HOUR_SECS in *; simpl; lia || done.
  - split; (eapply window_inv_later; [exact H56|done]).
Qed.

Lemma check_internal_other clk user tool cfg record state key : (user, tool) ≠ key →
  (check_internal clk user tool cfg record state).2 !! key = state !! key.
Proof.
  intros Hk. unfold check_internal. repeat case_match; simpl; by rewrite lookup_insert_ne.
Qed.

Lemma run_calls_inv key cfg cs : limits_ok cfg → timed cs →
  Forall (fun c => (c_user c, c_tool c) = key → c_config c = cfg) cs →
  let '(state, log) := run_calls key cs in
  ∀ T, (∀ c, head cs = Some c → c_clock c 6%nat ≤ T) →
  match state !! key with Some s => key_inv cfg T s log | None => log = [] end.
Proof.
  intros Hl Ht Hcfg. induction cs as [|c cs IH]; [done|].
  apply Forall_cons in Hcfg as [Hc Hcfg].
  assert (Hmono : monotone (c_clock c)) by (by inv Ht).
  assert (Htcs : timed cs) by (inv Ht; [constructor|done]).
  assert (Hhead : ∀ c', head cs = Some c' → c_clock c' 6%nat ≤ c_clock c 0%nat).
  { inv Ht; intros c0 Hc0; by inv Hc0. }
  specialize (IH Htcs Hcfg). cbn [run_calls foldr]. fold (run_calls key cs).
  destruct (run_calls key cs) as [state log]. specialize (IH _ Hhead). simpl.
  destruct (decide ((c_user c, c_tool c) = key)) as [Hk|Hk].
  - rewrite bool_decide_true by done. rewrite (Hc Hk).
    pose proof (check_internal_own cfg (c_clock c) (c_user c) (c_tool c) (c_record c) state
                  (c_clock c 0%nat) log) as Hown.
    destruct (check_internal _ _ _ cfg _ state) as [res state']. rewrite Hk in Hown.
    destruct Hown as (s & Hs & Hinv); [done|done|done|done|]. intros T HT.
    specialize (HT c eq_refl). simpl. rewrite Hs. 
    destruct (c_record c && is_allowed res); destruct Hinv; split;
      (eapply window_inv_later; [exact HT|done]).
  - rewrite bool_decide_false by done. simpl.
    pose proof (check_internal_other (c_clock c) (c_user c) (c_tool c) (c_config c) (c_record c)
                  state key Hk) as Hoth.
    destruct (check_internal _ _ _ _ _ state) as [res state']. simpl in Hoth.
    rewrite Hoth. intros T HT. specialize (HT c eq_refl).
    pose proof (Hmono 0%nat 6%nat ltac:(lia)).
    destruct (state !! key); [|done]. destruct IH; split;
      (eapply window_inv_later; [|eassumption]; lia).
Qed.

(** ** Theorems *)

(** C28. Limits hold in every interval: whatever sequence of calls the users and
    tools make, with a steady limit for one user and tool, fewer than 60
    seconds never see more than twice the per-minute limit of recorded calls
    admitted for them, one hour never more than twice the per-hour limit, and
    no window ever counts beyond its limit. *)
Theorem rate_limit_enforced user tool cfg cs from :
  limits_ok cfg → timed cs →
  Forall (fun c => (c_user c, c_tool c) = (user, tool) → c_config c = cfg) cs →
  let '(state, log) := run_calls (user, tool) cs in
  Z.of_nat (length (within from (secs 60) log)) ≤ 2 * requests_per_minute cfg ∧
  Z.of_nat (length (within from (secs 3600) log)) ≤ 2 * requests_per_hour cfg ∧
  ∀ m h, get_usage user tool state = Some (m, h) →
    m ≤ requests_per_minute cfg ∧ h ≤ requests_per_hour cfg.
Proof.
  intros Hl Ht Hc. pose proof (run_calls_inv (user, tool) cfg cs Hl Ht Hc) as Hinv.
  destruct (run_calls (user, tool) cs) as [state log].
  specialize (Hinv (default 0 ((fun c => c_clock c 6%nat) <$> head cs))). unfold get_usage.
  assert (HT : ∀ c, head cs = Some c → c_clock c 6%nat ≤ default 0 ((fun c => c_clock c 6%nat) <$> head cs))
    by (intros c ->; done).
  specialize (Hinv HT). destruct (state !! (user, tool)) as [s|]; simpl.
  - destruct Hinv as [Hm Hh]. split_and!.
    + by eapply window_bound.
    + by eapply window_bound.
    + intros m h [= <- <-]. rewrite <- (wi_count _ _ _ _ _ _ Hm), <- (wi_count _ _ _ _ _ _ Hh).
      split; [apply (wi_limit _ _ _ _ _ _ Hm)|apply (wi_limit _ _ _ _ _ _ Hh)].
  - subst log. destruct Hl as [[] []]. unfold within. simpl. split_and!; [lia|lia|done].
Qed.

(** A call decides by the limits and tells the truth about what is left: it
    is admitted exactly when both windows, restarted if they ran out, are
    below their limits, the remaining counts it reports never wrap around,
    and the waiting time it reports is within the exhausted window. *)
Theorem check_internal_spec clk user tool cfg (record : bool) state :
  limits_ok cfg →
  let s := refreshed clk (state !! (user, tool)) in
  let m := count (minute_window s) in
  let h := count (hour_window s) in
  let r := if record then 1 else 0 in
  0 ≤ m → 0 ≤ h →
  match (check_internal clk user tool cfg record state).1 with
  | Allowed rm rh =>
      m < requests_per_minute cfg ∧ h < requests_per_hour cfg ∧
      rm = requests_per_minute cfg - m - r ∧ rh = requests_per_hour cfg - h - r ∧ 0 ≤ rm ∧ 0 ≤ rh
  | Limited d PerMinute => requests_per_minute cfg ≤ m ∧ 0 ≤ d ≤ secs 60
  | Limited d PerHour => m < requests_per_minute cfg ∧ requests_per_hour cfg ≤ h ∧ 0 ≤ d ≤ secs 3600
  end.
Proof.
  intros [Hm Hh] s m h r H0m H0h. unfold check_internal. fold s. clearbody s. fold m h. unfold in_u32 in *.
  assert (Hd : ∀ t d w, 0 < d → 0 ≤ time_until_reset t d w ≤ d).
  { intros t d w Hd. unfold time_until_reset, saturating_sub. destruct (_ <=? _) eqn:E; zify_bool; lia. }
  destruct (requests_per_minute cfg <=? m) eqn:Em; zify_bool; simpl.
  { split; [done|]. by apply Hd. }
  destruct (requests_per_hour cfg <=? h) eqn:Eh; zify_bool; simpl.
  { split_and!; [done|done|by apply Hd..]. }
  subst r. destruct record; simpl; fold m h;
    rewrite ?(wrap32_small (m + 1)), ?(wrap32_small (h + 1)) by (unfold in_u32; lia);
    rewrite !wrap32_small by (unfold in_u32; lia); clear Hd; lia.
Qed.

(** Users and tools are independent, and a check does not consume: a call
    leaves the usage of every other user or tool as it was, and a call that
    does not record keeps the counts of both windows unless they ran out. *)
Theorem limiter_isolation clk user tool cfg record state u t :
  (u, t) ≠ (user, tool) →
  get_usage u t (check_internal clk user tool cfg record state).2 = get_usage u t state ∧
  get_usage u t (limiter_clear user tool state) = get_usage u t state ∧
  (check clk user tool cfg state).2 !! (user, tool) = Some (refreshed clk (state !! (user, tool))).
Proof.
  intros Hk. unfold get_usage, limiter_clear. split_and!.
  - by rewrite check_internal_other by congruence.
  - by rewrite lookup_delete_ne by congruence.
  - unfold check, check_internal. repeat case_match; simpl; by rewrite lookup_insert_eq.
Qed.

(** ** Witnesses *)

Definition demo_call (t : Z) : Call := mkCall "u" "shell" (mkRateConfig 1 10) true (frozen t).

Lemma rate_limit_enforced_witness :
  let '(state, log) := run_calls ("u", "shell") [demo_call (secs 61); demo_call (secs 2); demo_call (secs 1)] in
  length log = 2%nat ∧ Z.of_nat (length (within 0 (secs 60) log)) ≤ 2.
Proof.
  pose proof (rate_limit_enforced "u" "shell" (mkRateConfig 1 10)
    [demo_call (secs 61); demo_call (secs 2); demo_call (secs 1)] 0) as Hr.
  assert (Hlen : length (run_calls ("u", "shell") [demo_call (secs 61); demo_call (secs 2); demo_call (secs 1)]).2 = 2%nat)
    by (vm_compute; reflexivity).
  destruct (run_calls _ _) as [state log]. split; [exact Hlen|]. apply Hr.
  - unfold limits_ok, in_u32. simpl. lia.
  - repeat constructor; vm_compute; congruence.
  - repeat constructor.
Defined.

Lemma check_internal_spec_witness :
  0 ≤ 0 ∧ match (check_internal (frozen 5) "u" "shell" (mkRateConfig 1 10) true ∅).1 with
          | Allowed rm rh => 0 < 1 ∧ 0 < 10 ∧ rm = 0 ∧ rh = 9 ∧ 0 ≤ rm ∧ 0 ≤ rh
          | Limited d PerMinute => 1 ≤ 0 ∧ 0 ≤ d ≤ secs 60
          | Limited d PerHour => 0 < 1 ∧ 10 ≤ 0 ∧ 0 ≤ d ≤ secs 3600
          end.
Proof.
  split; [lia|]. refine (check_internal_spec (frozen 5) "u" "shell" (mkRateConfig 1 10) true ∅ _ _ _).
  - unfold limits_ok, in_u32. simpl. lia.
  - vm_compute. congruence.
  - vm_compute. congruence.
Defined.

Lemma limiter_isolation_witness :
  get_usage "v" "shell" (check_internal (frozen 5) "u" "shell" (mkRateConfig 1 10) true ∅).2 = None.
Proof.
  exact (proj1 (limiter_isolation (frozen 5) "u" "shell" (mkRateConfig 1 10) true ∅ "v" "shell"
    ltac:(discriminate))).
Defined.

(** The windows are fixed, not sliding: with a limit of two a minute, three
    calls are admitted within two seconds across the end of a window. *)
Lemma burst_across_windows :
  let call t := mkCall "u" "shell" (mkRateConfig 2 10) true (frozen (secs t)) in
  let log := (run_calls ("u", "shell") [call 61; call 60; call 59; call 0]).2 in
  length (within (secs 59) (secs 60) log) = 3%nat.
Proof. vm_compute. reflexivity. Qed.
