(* ===== verification/Costs.v ===== *)
(** * Model prices: [src/llm/costs.rs]

    The price per token of the known models.  [to_lowercase] is the Unicode
    lower-casing of [str]; a decimal literal [dec!(m * 10^-s)] is
    [dec_lit m s]. *)

From Stdlib Require Import Ascii.
From S2P Require Import Prelude Text.

Section costs.
Context `{Decimal}.

(** [dec!(...)] *)
Definition dec_lit (mantissa : Z) (scale : nat) : dec :=
  dec_div (dec_of_Z mantissa) (dec_of_Z (10 ^ Z.of_nat scale)).

(** The arms of the match on the model name, in order: names, then the price
    of an input and of an output token. *)
Definition price_table : list (list string * (dec * dec)) := [
  (["gpt-5.3-codex"; "gpt-5.3-codex-spark"],
   (dec_lit 2 6, dec_lit 8 6));
  (["gpt-5.2-codex"; "gpt-5.2-pro"; "gpt-5.2"],
   (dec_lit 2 6, dec_lit 8 6));
  (["gpt-5.1-codex"; "gpt-5.1-codex-max"; "gpt-5.1"],
   (dec_lit 2 6, dec_lit 8 6));
  (["gpt-5.1-codex-mini"],
   (dec_lit 3 7, dec_lit 12 7));
  (["gpt-5-codex"; "gpt-5-pro"; "gpt-5"],
   (dec_lit 2 6, dec_lit 8 6));
  (["gpt-5-mini"; "gpt-5-nano"],
   (dec_lit 3 7, dec_lit 12 7));
  (["gpt-4.1"],
   (dec_lit 2 6, dec_lit 8 6));
  (["gpt-4.1-mini"],
   (dec_lit 4 7, dec_lit 16 7));
  (["gpt-4.1-nano"],
   (dec_lit 1 7, dec_lit 4 7));
  (["gpt-4o"; "gpt-4o-2024-11-20"; "gpt-4o-2024-08-06"],
   (dec_lit 25 7, dec_lit 1 5));
  (["gpt-4o-mini"; "gpt-4o-mini-2024-07-18"],
   (dec_lit 15 8, dec_lit 6 7));
  (["gpt-4-turbo"; "gpt-4-turbo-2024-04-09"],
   (dec_lit 1 5, dec_lit 3 5));
  (["gpt-4"; "gpt-4-0613"],
   (dec_lit 3 5, dec_lit 6 5));
  (["gpt-3.5-turbo"; "gpt-3.5-turbo-0125"],
   (dec_lit 5 7, dec_lit 15 7));
  (["o3"],
   (dec_lit 2 6, dec_lit 8 6));
  (["o3-mini"; "o3-mini-2025-01-31"],
   (dec_lit 11 7, dec_lit 44 7));
  (["o4-mini"],
   (dec_lit 11 7, dec_lit 44 7));
  (["o1"; "o1-2024-12-17"],
   (dec_lit 15 6, dec_lit 6 5));
  (["o1-mini"; "o1-mini-2024-09-12"],
   (dec_lit 3 6, dec_lit 12 6));
  (["claude-opus-4-6"; "claude-opus-4-5"; "claude-opus-4-5-20251101"; "claude-opus-4-1"; "claude-opus-4-1-20250805"; "claude-opus-4-0"; "claude-opus-4-20250514"; "claude-3-opus-20240229"; "claude-3-opus-latest"],
   (dec_lit 15 6, dec_lit 75 6));
  (["claude-sonnet-4-6"; "claude-sonnet-4-5"; "claude-sonnet-4-5-20250929"; "claude-sonnet-4-0"; "claude-sonnet-4-20250514"; "claude-3-7-sonnet-20250219"; "claude-3-7-sonnet-latest"; "claude-3-5-sonnet-20241022"; "claude-3-5-sonnet-latest"],
   (dec_lit 3 6, dec_lit 15 6));
  (["claude-haiku-4-5"; "claude-haiku-4-5-20251001"; "claude-3-5-haiku-20241022"; "claude-3-5-haiku-latest"],
   (dec_lit 8 7, dec_lit 4 6));
  (["claude-3-haiku-20240307"],
   (dec_lit 25 8, dec_lit 125 8))
].

Definition local_prefixes : list string :=
  ["llama"; "mistral"; "mixtral"; "phi"; "gemma"; "qwen"; "codellama"; "deepseek";
   "starcoder"; "vicuna"; "yi"].

Definition is_local_model (to_lowercase : string -> string) (model_id : string) : bool :=
  let lower := to_lowercase model_id in
  existsb (fun p => starts_with p lower) local_prefixes ||
  contains ":latest" lower || contains ":instruct" lower.

Fixpoint price_of (id : string) (table : list (list string * (dec * dec))) : option (dec * dec) :=
  match table with
  | [] => None
  | (names, price) :: rest => if bool_decide (id ∈ names) then Some price else price_of id rest
  end.

Definition model_cost (to_lowercase : string -> string) (model_id : string) : option (dec * dec) :=
  if ends_with ":free" model_id || bool_decide (model_id = "openrouter/free")
     || bool_decide (model_id = "free")
  then Some (dec_zero, dec_zero)
  else
    let id := match rsplit_once "/" model_id with Some (_, name) => name | None => model_id end in
    match price_of id price_table with
    | Some price => Some price
    | None => if is_local_model to_lowercase id then Some (dec_zero, dec_zero) else None
    end.

Definition default_cost : dec * dec := (dec_lit 25 7, dec_lit 1 5).

(** ** Lemmas *)

Lemma rsplit_once_app c p id : rsplit_once c id = None →
  rsplit_once c (p +:+ String c id) = Some (p, id).
Proof.
  intros Hid. induction p as [|d p IH]; simpl.
  - rewrite Hid. by destruct (ascii_dec c c).
  - by rewrite IH.
Qed.

(** The price does not depend on the provider prefix, unless the name stands
    for a free model. *)
Lemma model_cost_prefix to_lowercase p id :
  rsplit_once "/" id = None → ends_with ":free" id = false → id ≠ "free" →
  ends_with ":free" (p +:+ "/" +:+ id) = false → p +:+ "/" +:+ id ≠ "openrouter/free" →
  p +:+ "/" +:+ id ≠ "free" →
  model_cost to_lowercase (p +:+ "/" +:+ id) = model_cost to_lowercase id.
Proof.
  intros Hid He Hf Hep Hop Hfp. unfold model_cost.
  rewrite He, Hep, !bool_decide_false by (done || intros ->; done).
  change ("/" +:+ id) with (String "/" id). rewrite (rsplit_once_app "/" p id Hid), Hid. done.
Qed.
End costs.
