(* ===== verification/CostGuard.v ===== *)
(** * Cost guardrails: [src/agent/cost_guard.rs], [TenantCtx] of [src/tenant.rs]

    Daily spending, per-user spending and the hourly window of LLM calls.
    Dates are day numbers in UTC, instants nanoseconds; each operation takes
    the readings it makes.  [to_lowercase] and [origin] (the least instant the
    platform can represent, below which [checked_sub] fails) are parameters.
    Log lines, with the arithmetic that only they use, are left out. *)

From S2P Require Import Prelude Text Costs.
Local Open Scope Z_scope.

Section cost_guard.
Context `{Decimal}.
Variable to_lowercase : string -> string.
Variable origin : Z.

Record CostGuardConfig : Type := mkGuardConfig {
  max_cost_per_day_cents : option Z;
  max_actions_per_hour : option Z;
  max_cost_per_user_per_day_cents : option Z
}.

Inductive CostLimitExceeded : Type :=
| DailyBudget (spent_cents limit_cents : Z)
| HourlyRate (actions limit : Z)
| UserDailyBudget (user_id : string) (spent_cents limit_cents : Z).

Record ModelTokens : Type := mkModelTokens {
  mt_input_tokens : Z;
  mt_output_tokens : Z;
  mt_cost : dec
}.

Record DailyCost : Type := mkDailyCost { total : dec; reset_date : Z }.

Record CostGuard : Type := mkGuard {
  config : CostGuardConfig;
  daily_cost : DailyCost;
  action_window : list Z;
  budget_exceeded : bool;
  model_tokens : gmap string ModelTokens;
  per_user_daily_cost : gmap string DailyCost
}.

Definition guard_new (cfg : CostGuardConfig) (today : Z) : CostGuard :=
  mkGuard cfg (mkDailyCost dec_zero today) [] false ∅ ∅.

(** The printed integer fails to parse outside [u64], and counts as zero. *)
Definition to_cents (usd : dec) : Z :=
  let cents := dec_trunc (dec_mul usd (dec_of_Z 100)) in
  if (0 <=? cents) && (cents <=? u64_max) then cents else 0.

Definition checked_sub_hour (t : Z) : option Z :=
  if t - secs 3600 <? origin then None else Some (t - secs 3600).

(** [while window.front().is_some_and(|t| *t < cutoff)] *)
Fixpoint drain_before (cutoff : Z) (window : list Z) : list Z :=
  match window with
  | [] => []
  | t :: rest => if t <? cutoff then drain_before cutoff rest else window
  end.

Definition drain (t : Z) (window : list Z) : list Z :=
  match checked_sub_hour t with Some cutoff => drain_before cutoff window | None => window end.

Definition set_window (window : list Z) (g : CostGuard) : CostGuard :=
  mkGuard (config g) (daily_cost g) window (budget_exceeded g) (model_tokens g)
    (per_user_daily_cost g).

Definition set_exceeded (b : bool) (g : CostGuard) : CostGuard :=
  mkGuard (config g) (daily_cost g) (action_window g) b (model_tokens g) (per_user_daily_cost g).

(** The hourly part of [check_allowed]; [t] is [Instant::now()]. *)
Definition check_hourly (t : Z) (g : CostGuard) : Result CostLimitExceeded unit * CostGuard :=
  match max_actions_per_hour (config g) with
  | None => (Ok tt, g)
  | Some limit =>
      let window := drain t (action_window g) in
      let count := Z.of_nat (length window) in
      (if limit <=? count then Err (HourlyRate count limit) else Ok tt, set_window window g)
  end.

Definition check_allowed (t : Z) (g : CostGuard) : Result CostLimitExceeded unit * CostGuard :=
  let spent_cents := to_cents (total (daily_cost g)) in
  if budget_exceeded g then
    (Err (DailyBudget spent_cents (default 0 (max_cost_per_day_cents (config g)))), g)
  else
    match max_cost_per_day_cents (config g) with
    | Some limit_cents =>
        if limit_cents <=? spent_cents
        then (Err (DailyBudget spent_cents limit_cents), set_exceeded true g)
        else check_hourly t g
    | None => check_hourly t g
    end.

(** What an LLM call used, and the rates of its provider. *)
Record LlmCall : Type := mkLlmCall {
  lc_model : string;
  lc_input_tokens : Z;
  lc_output_tokens : Z;
  lc_cache_read_input_tokens : Z;
  lc_cache_creation_input_tokens : Z;
  lc_cache_read_discount : dec;
  lc_cache_write_multiplier : dec;
  lc_cost_per_token : option (dec * dec)
}.

(** The cost computation of [record_llm_call]. *)
Definition call_cost (c : LlmCall) : dec :=
  let '(input_rate, output_rate) :=
    match lc_cost_per_token c with
    | Some rates => rates
    | None => default default_cost (model_cost to_lowercase (lc_model c))
    end in
  let cached_total :=
    saturating_add32 (lc_cache_read_input_tokens c) (lc_cache_creation_input_tokens c) in
  let uncached_input := saturating_sub (lc_input_tokens c) cached_total in
  let effective_discount :=
    if dec_is_zero (lc_cache_read_discount c) then dec_one else lc_cache_read_discount c in
  let cache_read_cost :=
    dec_div (dec_mul input_rate (dec_of_Z (lc_cache_read_input_tokens c))) effective_discount in
  let cache_write_cost :=
    dec_mul (dec_mul input_rate (dec_of_Z (lc_cache_creation_input_tokens c)))
      (lc_cache_write_multiplier c) in
  dec_add (dec_add (dec_add (dec_mul input_rate (dec_of_Z uncached_input)) cache_read_cost)
             cache_write_cost)
    (dec_mul output_rate (dec_of_Z (lc_output_tokens c))).

(** First critical section of [record_llm_call]: the daily total, restarted on
    a new day together with the flag and the stale per-user entries. *)
Definition add_daily (today : Z) (cost : dec) (g : CostGuard) : CostGuard :=
  let g1 :=
    if today =? reset_date (daily_cost g) then g
    else mkGuard (config g) (mkDailyCost dec_zero today) (action_window g) false (model_tokens g)
           (base.filter (fun ue => reset_date ue.2 = today) (per_user_daily_cost g)) in
  let daily := mkDailyCost (dec_add (total (daily_cost g1)) cost) (reset_date (daily_cost g1)) in
  let crossed := match max_cost_per_day_cents (config g1) with
                 | Some limit_cents => limit_cents <=? to_cents (total daily)
                 | None => false
                 end in
  mkGuard (config g1) daily (action_window g1) (budget_exceeded g1 || crossed) (model_tokens g1)
    (per_user_daily_cost g1).

Definition add_tokens (c : LlmCall) (cost : dec) (g : CostGuard) : CostGuard :=
  let entry := default (mkModelTokens 0 0 dec_zero) (model_tokens g !! lc_model c) in
  mkGuard (config g) (daily_cost g) (action_window g) (budget_exceeded g)
    (<[lc_model c := mkModelTokens (wrap64 (mt_input_tokens entry + lc_input_tokens c))
                       (wrap64 (mt_output_tokens entry + lc_output_tokens c))
                       (dec_add (mt_cost entry) cost)]> (model_tokens g))
    (per_user_daily_cost g).

(** [today] and [t] are the readings of the date and of the instant. *)
Definition record_llm_call (today t : Z) (c : LlmCall) (g : CostGuard) : dec * CostGuard :=
  let cost := call_cost c in
  let g1 := add_daily today cost g in
  let g2 := set_window (action_window g1 ++ [t]) g1 in
  (cost, add_tokens c cost g2).

Definition add_user (today : Z) (user_id : string) (cost : dec) (g : CostGuard) : CostGuard :=
  let entry := default (mkDailyCost dec_zero today) (per_user_daily_cost g !! user_id) in
  let entry1 := if today =? reset_date entry then entry else mkDailyCost dec_zero today in
  mkGuard (config g) (daily_cost g) (action_window g) (budget_exceeded g) (model_tokens g)
    (<[user_id := mkDailyCost (dec_add (total entry1) cost) (reset_date entry1)]>
       (per_user_daily_cost g)).

(** [today] is read again ([today']) for the per-user total. *)
Definition record_llm_call_for_user (today t today' : Z) (user_id : string) (c : LlmCall)
    (g : CostGuard) : dec * CostGuard :=
  let '(cost, g1) := record_llm_call today t c g in
  (cost, add_user today' user_id cost g1).

Definition check_allowed_for_user (t today : Z) (user_id : string) (g : CostGuard)
    : Result CostLimitExceeded unit * CostGuard :=
  let '(r, g1) := check_allowed t g in
  match r with
  | Err e => (Err e, g1)
  | Ok _ =>
      match max_cost_per_user_per_day_cents (config g1), per_user_daily_cost g1 !! user_id with
      | Some limit_cents, Some entry =>
          let spent_cents := to_cents (total entry) in
          if (reset_date entry =? today) && (limit_cents <=? spent_cents)
          then (Err (UserDailyBudget user_id spent_cents limit_cents), g1)
          else (Ok tt, g1)
      | _, _ => (Ok tt, g1)
      end
  end.

Definition daily_spend (today : Z) (g : CostGuard) : dec :=
  if today =? reset_date (daily_cost g) then total (daily_cost g) else dec_zero.

Definition daily_spend_for_user (today : Z) (user_id : string) (g : CostGuard) : dec :=
  match per_user_daily_cost g !! user_id with
  | Some entry => if reset_date entry =? today then total entry else dec_zero
  | None => dec_zero
  end.

Definition actions_this_hour (t : Z) (g : CostGuard) : Z * CostGuard :=
  let window := drain t (action_window g) in
  (Z.of_nat (length window), set_window window g).

Definition model_usage (g : CostGuard) : gmap string ModelTokens := model_tokens g.

(** ** The tenant context *)

Record TenantCtx : Type := mkTenant { tc_user_id : string }.

Definition check_cost_allowed (t today : Z) (tc : TenantCtx) (g : CostGuard) :=
  check_allowed_for_user t today (tc_user_id tc) g.

Definition tenant_record_llm_call (today t today' : Z) (c : LlmCall) (tc : TenantCtx)
    (g : CostGuard) :=
  record_llm_call_for_user today t today' (tc_user_id tc) c g.

(** ** Specification *)

(** A recorded call with the readings made while recording it. *)
Record Usage : Type := mkUsage {
  u_user : string;
  u_today : Z;
  u_time : Z;
  u_today' : Z;
  u_call : LlmCall
}.

(** The guard after the calls, the latest first. *)
Definition record_usage (u : Usage) (g : CostGuard) : CostGuard :=
  (record_llm_call_for_user (u_today u) (u_time u) (u_today' u) (u_user u) (u_call u) g).2.

Definition record_all (cfg : CostGuardConfig) (day0 : Z) (us : list Usage) : CostGuard :=
  foldr record_usage (guard_new cfg day0) us.

(** The date readings do not go back; [latest day0 us] is the last one. *)
Definition latest (day0 : Z) (us : list Usage) : Z :=
  match us with [] => day0 | u :: _ => u_today' u end.

Fixpoint dated (day0 : Z) (us : list Usage) : Prop :=
  match us with
  | [] => True
  | u :: rest => latest day0 rest ≤ u_today u ∧ u_today u ≤ u_today' u ∧ dated day0 rest
  end.

(** The sum of the costs of the calls that [p] selects, in order of time. *)
Definition spent (p : Usage -> bool) (us : list Usage) : dec :=
  foldr (fun u acc => if p u then dec_add acc (call_cost (u_call u)) else acc) dec_zero us.

(** One LLM call as [ChatDelegate::call_llm] makes it: the check, the call
    ([None] when the provider fails) and the recording. *)
Record Turn : Type := mkTurn {
  tn_check_time : Z;
  tn_check_day : Z;
  tn_used : option LlmCall;
  tn_day : Z;
  tn_time : Z;
  tn_day' : Z
}.

Definition guarded_call (tc : TenantCtx) (tn : Turn) (g : CostGuard)
    : Result CostLimitExceeded unit * CostGuard :=
  match check_cost_allowed (tn_check_time tn) (tn_check_day tn) tc g with
  | (Err limit, g1) => (Err limit, g1)
  | (Ok _, g1) =>
      (Ok tt, match tn_used tn with
              | Some c => (tenant_record_llm_call (tn_day tn) (tn_time tn) (tn_day' tn) c tc g1).2
              | None => g1
              end)
  end.

(** The calls of the tenants one after the other, the latest first, with the
    instants of the recorded ones. *)
Definition run_turn (x : TenantCtx * Turn) (acc : CostGuard * list Z) : CostGuard * list Z :=
  let '(g, log) := acc in
  let '(r, g') := guarded_call x.1 x.2 g in
  (g', if is_ok r then match tn_used x.2 with Some _ => tn_time x.2 :: log | None => log end else log).

Definition run_turns (g : CostGuard) (xs : list (TenantCtx * Turn)) : CostGuard * list Z :=
  foldr run_turn (g, []) xs.

(** The instants do not go back. *)
Definition last_instant (t0 : Z) (xs : list (TenantCtx * Turn)) : Z :=
  match xs with [] => t0 | x :: _ => tn_time x.2 end.

Fixpoint clocked (t0 : Z) (xs : list (TenantCtx * Turn)) : Prop :=
  match xs with
  | [] => True
  | x :: rest => last_instant t0 rest ≤ tn_check_time x.2 ∧ tn_check_time x.2 ≤ tn_time x.2 ∧
                 clocked t0 rest
  end.

(** ** Lemmas *)

Lemma dated_bound day0 us : dated day0 us →
  Forall (fun u => u_today u ≤ u_today' u ≤ latest day0 us) us ∧ day0 ≤ latest day0 us.
Proof.
  induction us as [|u us IH]; simpl; [by intros; split; [constructor|lia]|].
  intros (H1 & H2 & [IHf IHl]%IH). split; [|lia]. constructor; [lia|].
  eapply Forall_impl; [exact IHf|]. simpl. lia.
Qed.

Lemma spent_none p us : Forall (fun u => p u = false) us → spent p us = dec_zero.
Proof.
  unfold spent. induction 1 as [|u us Hu _ IH]; [done|]. simpl. by rewrite Hu.
Qed.

Lemma daily_after_add today cost g :
  daily_cost (add_daily today cost g) = mkDailyCost (dec_add (daily_spend today g) cost) today.
Proof.
  unfold add_daily, daily_spend. destruct (today =? _) eqn:E; simpl; [|done]. zify_bool. by subst.
Qed.

Lemma record_usage_daily u g :
  daily_cost (record_usage u g) =
  mkDailyCost (dec_add (daily_spend (u_today u) g) (call_cost (u_call u))) (u_today u).
Proof. apply daily_after_add. Qed.

Lemma user_after_add_daily day today cost user g :
  (∀ e, per_user_daily_cost g !! user = Some e → reset_date e ≤ today) → today ≤ day →
  daily_spend_for_user day user (add_daily today cost g) = daily_spend_for_user day user g.
Proof.
  intros Hold Hday. unfold add_daily, daily_spend_for_user.
  destruct (today =? reset_date (daily_cost g)) eqn:E; simpl; [done|].
  destruct (per_user_daily_cost g !! user) as [e|] eqn:He.
  - specialize (Hold e eq_refl). rewrite map_lookup_filter, He. simpl.
    unfold guard; repeat case_match; simplify_eq/=; try done; zify_bool; lia.
  - rewrite map_lookup_filter, He. done.
Qed.

Lemma user_after_add day user user' cost today g :
  (∀ e, per_user_daily_cost g !! user = Some e → reset_date e ≤ today) → today ≤ day →
  daily_spend_for_user day user (add_user today user' cost g) =
  if bool_decide (user = user') && (today =? day)
  then dec_add (daily_spend_for_user day user g) cost else daily_spend_for_user day user g.
Proof.
  intros Hold Hday. unfold add_user, daily_spend_for_user. simpl.
  destruct (decide (user' = user)) as [->|Hne]; last first.
  { rewrite lookup_insert_ne by done. by rewrite bool_decide_false by congruence. }
  rewrite lookup_insert_eq, bool_decide_true by done. simpl.
  destruct (per_user_daily_cost g !! user) as [e|] eqn:He; simpl.
  - specialize (Hold e eq_refl).
    destruct (today =? reset_date e) eqn:E1, (today =? day) eqn:E2, (reset_date e =? day) eqn:E3;
      simpl; rewrite ?E2, ?E3; try done; zify_bool; lia.
  - rewrite Z.eqb_refl. simpl. by destruct (today =? day).
Qed.

Lemma user_entry_date user u g e M :
  (∀ e, per_user_daily_cost g !! user = Some e → reset_date e ≤ M) → M ≤ u_today' u →
  per_user_daily_cost (record_usage u g) !! user = Some e → reset_date e ≤ u_today' u.
Proof.
  intros Hold HM. unfold record_usage, record_llm_call_for_user, record_llm_call. simpl.
  intros [[_ <-]|[_ He]]%lookup_insert_Some.
  - destruct (_ =? _) eqn:E; simpl; [zify_bool; lia|lia].
  - unfold add_daily in He. destruct (_ =? _); simpl in He.
    + specialize (Hold e He). lia.
    + apply map_lookup_filter_Some in He as [He _]. specialize (Hold e He). lia.
Qed.

Lemma record_all_user_dates cfg day0 us user e : dated day0 us →
  per_user_daily_cost (record_all cfg day0 us) !! user = Some e → reset_date e ≤ latest day0 us.
Proof.
  revert e. induction us as [|u us IH]; intros e Hd; simpl; [done|]. destruct Hd as (H1 & H2 & Hd).
  apply (user_entry_date user u _ e (latest day0 us)); [by intros; apply IH|lia].
Qed.

(** The actions of one hour. *)
Definition hour_of (x : Z) (log : list Z) : list Z :=
  base.filter (fun t => x ≤ t ≤ x + secs 3600) log.

(** The window is what remains of the log, oldest first, after dropping
    actions more than an hour old at time [T]. *)
Record hourly_inv (L T : Z) (window log : list Z) : Prop := {
  hi_split : ∃ dropped, reverse log = dropped ++ window ∧ Forall (fun t => t + secs 3600 < T) dropped;
  hi_past : Forall (fun t => t ≤ T) log;
  hi_limit : ∀ x, Z.of_nat (length (hour_of x log)) ≤ L
}.

Lemma drain_split t window : ∃ dropped,
  window = dropped ++ drain t window ∧ Forall (fun s => s + secs 3600 < t) dropped.
Proof.
  unfold drain. destruct (checked_sub_hour t) as [cutoff|] eqn:Hc; [|by exists []].
  unfold checked_sub_hour in Hc. case_match; [done|]. inv Hc.
  induction window as [|s window (dr & Heq & Hf)]; simpl; [by exists []|].
  destruct (s <? _) eqn:E; [|by exists []]. zify_bool. exists (s :: dr).
  split; [simpl; congruence|]. constructor; [lia|done].
Qed.

Lemma hourly_later L T T' w log : T ≤ T' → hourly_inv L T w log → hourly_inv L T' w log.
Proof.
  intros HT [(dr & Heq & Hdr) Hp Hl]. constructor; [|eapply Forall_impl; [exact Hp|]; simpl; lia|done].
  exists dr. split; [done|]. eapply Forall_impl; [exact Hdr|]. simpl. lia.
Qed.

Lemma hourly_drain L T t w log : T ≤ t → hourly_inv L T w log → hourly_inv L t (drain t w) log.
Proof.
  intros HT Hi. apply (hourly_later _ _ t) in Hi; [|done]. destruct Hi as [(dr & Heq & Hdr) Hp Hl].
  constructor; [|done..]. destruct (drain_split t w) as (dr' & Hw & Hdr'). exists (dr ++ dr').
  rewrite <- app_assoc, <- Hw. split; [done|]. by apply Forall_app.
Qed.

Lemma hourly_record L T t w log : T ≤ t → Z.of_nat (length w) < L →
  hourly_inv L T w log → hourly_inv L t (w ++ [t]) (t :: log).
Proof.
  intros HT Hlt Hi. apply (hourly_later _ _ t) in Hi; [|done]. destruct Hi as [(dr & Heq & Hdr) Hp Hl].
  constructor.
  - exists dr. by rewrite reverse_cons, Heq, app_assoc.
  - by constructor.
  - intros x. unfold hour_of. rewrite filter_cons. case_decide as Hx; [|apply Hl].
    assert (Hlog : log = reverse (dr ++ w)) by (by rewrite <- Heq, reverse_involutive).
    rewrite Hlog, reverse_app. cbn [length]. rewrite filter_app, length_app.
    assert (Hz : base.filter (fun s => x ≤ s ≤ x + secs 3600) (reverse dr) = []).
    { apply elem_of_nil_inv. intros s [Hs Hin]%list_elem_of_filter. rewrite elem_of_reverse in Hin.
      rewrite Forall_forall in Hdr. specialize (Hdr s Hin). lia. }
    rewrite Hz. pose proof (length_filter (fun s => x ≤ s ≤ x + secs 3600) (reverse w)) as Hf.
    rewrite length_reverse in Hf. cbn [length]. lia.
Qed.

Lemma check_hourly_window t g : ∃ w, (check_hourly t g).2 = set_window w g.
Proof.
  unfold check_hourly. destruct (max_actions_per_hour _); simpl; [by eexists|].
  exists (action_window g). by destruct g.
Qed.

(** What the check leaves: the window unchanged or drained, and after a
    successful check with a limit, drained and below the limit. *)
Lemma check_for_user_window t d user g L : max_actions_per_hour (config g) = Some L →
  let '(r, g') := check_allowed_for_user t d user g in
  config g' = config g ∧ (action_window g' = action_window g ∨ action_window g' = drain t (action_window g)) ∧
  (is_ok r = true → action_window g' = drain t (action_window g) ∧
                    Z.of_nat (length (drain t (action_window g))) < L).
Proof.
  intros HL. unfold check_allowed_for_user, check_allowed.
  assert (Hh : let '(r, g') := check_hourly t g in config g' = config g ∧
    action_window g' = drain t (action_window g) ∧
    (is_ok r = true → Z.of_nat (length (drain t (action_window g))) < L)).
  { unfold check_hourly. rewrite HL. simpl. split_and!; [done|done|].
    case_match eqn:E; [done|]. zify_bool. lia. }
  destruct (check_hourly t g) as [rh gh]. destruct Hh as (Hc & Hw & Hok).
  repeat case_match; simplify_eq/=; eauto; naive_solver.
Qed.

Lemma record_for_user_window d t d' user c g :
  let g' := (record_llm_call_for_user d t d' user c g).2 in
  config g' = config g ∧ action_window g' = action_window g ++ [t].
Proof.
  unfold record_llm_call_for_user, record_llm_call, add_daily. simpl.
  destruct (_ =? _); done.
Qed.

Lemma run_turns_hourly g0 xs L t0 : max_actions_per_hour (config g0) = Some L → 0 ≤ L →
  action_window g0 = [] → clocked t0 xs →
  let '(g, log) := run_turns g0 xs in
  config g = config g0 ∧ hourly_inv L (last_instant t0 xs) (action_window g) log.
Proof.
  intros HL HL0 Hw Hc. induction xs as [|[tc tn] xs IH]; simpl.
  { split; [done|]. rewrite Hw. constructor; [by exists []|constructor|done]. }
  destruct Hc as (H1 & H2 & Hc). specialize (IH Hc). fold (run_turns g0 xs).
  destruct (run_turns g0 xs) as [g log]. destruct IH as [Hcfg Hi]. simpl in H1, H2.
  unfold run_turn, guarded_call, check_cost_allowed.
  cbn [fst snd]. pose proof (check_for_user_window (tn_check_time tn) (tn_check_day tn) (tc_user_id tc) g L
                ltac:(by rewrite Hcfg)) as Hck.
  destruct (check_allowed_for_user _ _ _ g) as [[[]|e] g1]; destruct Hck as (Hc1 & Hw1 & Hok); cbn [is_ok].
  - destruct (Hok eq_refl) as [Hw2 Hlt]. apply (hourly_drain L _ (tn_check_time tn)) in Hi; [|done].
    destruct (tn_used tn) as [c|]; unfold tenant_record_llm_call.
    + destruct (record_for_user_window (tn_day tn) (tn_time tn) (tn_day' tn) (tc_user_id tc) c g1) as [-> ->].
      split; [congruence|]. rewrite Hw2. by apply (hourly_record L (tn_check_time tn)).
    + split; [congruence|]. rewrite Hw2. by apply (hourly_later L (tn_check_time tn)).
  - split; [congruence|]. apply (hourly_later L (tn_check_time tn)); [done|].
    destruct Hw1 as [->| ->]; [by eapply hourly_later|by eapply hourly_drain].
Qed.

(** ** Theorems *)

(** Spending is accounted to the day and the user: for any sequence of
    recorded calls whose date readings do not go back, the daily spending
    reported on the current or a later day is the sum of the costs of that
    day's calls, in total and for every user; earlier days and other users
    do not count, and a call that records past midnight counts for the day on
    which its user total was updated. *)
Theorem spending_accounted cfg day0 us day :
  dated day0 us → latest day0 us ≤ day →
  daily_spend day (record_all cfg day0 us) = spent (fun u => u_today u =? day) us ∧
  ∀ user, daily_spend_for_user day user (record_all cfg day0 us) =
          spent (fun u => bool_decide (user = u_user u) && (u_today' u =? day)) us.
Proof.
  intros Hd Hday. split.
  - revert day Hday. induction us as [|u us IH]; intros day Hday.
    { unfold daily_spend. simpl. by destruct (day =? day0). }
    simpl in Hd, Hday. destruct Hd as (H1 & H2 & Hd). unfold daily_spend at 1.
    cbn [record_all foldr spent]. fold (record_all cfg day0 us) (spent (fun u => u_today u =? day) us).
    rewrite record_usage_daily. simpl. rewrite Z.eqb_sym. destruct (u_today u =? day) eqn:E; zify_bool.
    + subst day. by rewrite (IH Hd _ H1).
    + symmetry. apply spent_none. destruct (dated_bound _ _ Hd) as [Hf _].
      eapply Forall_impl; [exact Hf|]. simpl. intros v Hv. apply Z.eqb_neq. lia.
  - intros user. revert day Hday. induction us as [|u us IH]; intros day Hday; [done|].
    simpl in Hd, Hday. destruct Hd as (H1 & H2 & Hd). cbn [record_all foldr spent].
    fold (record_all cfg day0 us).
    fold (spent (fun u => bool_decide (user = u_user u) && (u_today' u =? day)) us).
    assert (Hold : ∀ e, per_user_daily_cost (record_all cfg day0 us) !! user = Some e → reset_date e ≤ u_today u).
    { intros e He. apply (record_all_user_dates _ _ _ _ _ Hd) in He. lia. }
    rewrite <- (IH Hd day ltac:(lia)).
    rewrite <- (user_after_add_daily day (u_today u) (call_cost (u_call u)) user _ Hold ltac:(lia)).
    unfold record_usage, record_llm_call_for_user. cbn [record_llm_call fst snd].
    rewrite user_after_add; [done| |done].
    intros e He. unfold add_tokens, set_window, add_daily in He. destruct (_ =? _); simpl in He.
    + specialize (Hold e He). lia.
    + apply map_lookup_filter_Some in He as [He _]. specialize (Hold e He). lia.
Qed.

(** The hourly limit holds in every hour: when the tenants make their LLM
    calls one after the other through the guard, no closed interval of one
    hour, wherever it lies, contains more recorded calls than the limit. *)
Theorem hourly_limit_holds cfg day0 L t0 xs x :
  max_actions_per_hour cfg = Some L → 0 ≤ L → clocked t0 xs →
  Z.of_nat (length (hour_of x (run_turns (guard_new cfg day0) xs).2)) ≤ L.
Proof.
  intros HL HL0 Hc. pose proof (run_turns_hourly (guard_new cfg day0) xs L t0 HL HL0 eq_refl Hc) as Hi.
  destruct (run_turns _ xs) as [g log]. destruct Hi as [_ Hi]. apply (hi_limit _ _ _ _ Hi).
Qed.

(** A guard whose recorded spending has reached the daily limit. *)
Definition exhausted (g : CostGuard) : Prop :=
  budget_exceeded g = true ∨
  ∃ limit, max_cost_per_day_cents (config g) = Some limit ∧ limit ≤ to_cents (total (daily_cost g)).

Lemma check_exhausted t g : exhausted g →
  ∃ s l, check_allowed t g = (Err (DailyBudget s l), set_exceeded true g).
Proof.
  unfold check_allowed. intros [Hb|(limit & Hl & Hle)].
  - rewrite Hb. do 2 eexists. f_equal. destruct g; simpl in *. by rewrite Hb.
  - destruct (budget_exceeded g) eqn:Hb.
    + do 2 eexists. f_equal. destruct g; simpl in *. by rewrite Hb.
    + rewrite Hl. rewrite (proj2 (Z.leb_le _ _)) by done. eauto.
Qed.

(** An exhausted budget refuses every further call, and the refusal does not
    end with the day: from a guard that reached its daily limit, every
    sequence of guarded calls on any later days is refused with [DailyBudget]
    and records nothing, because only a recorded call restarts the daily
    total; yet the spending reported for a new day is zero. *)
Theorem lockout_outlives_the_day g xs :
  exhausted g →
  let '(g', log) := run_turns g xs in
  log = [] ∧ daily_cost g' = daily_cost g ∧
  (∀ tc tn, ∃ s l, (guarded_call tc tn g').1 = Err (DailyBudget s l)) ∧
  (∀ day, day ≠ reset_date (daily_cost g) → daily_spend day g' = dec_zero).
Proof.
  intros Hex.
  assert (Hst : ∀ g', config g' = config g → daily_cost g' = daily_cost g →
            (budget_exceeded g' = true ∨ g' = g) → exhausted g').
  { intros g' Hc Hdc [Hb| ->]; [by left|done]. }
  assert (Hrun : let '(g', log) := run_turns g xs in
    log = [] ∧ config g' = config g ∧ daily_cost g' = daily_cost g ∧ (budget_exceeded g' = true ∨ g' = g)).
  { induction xs as [|x xs IH]; cbn [run_turns foldr]; [by split_and!; auto|].
    fold (run_turns g xs). destruct (run_turns g xs) as [g1 log1]. destruct IH as (-> & Hc & Hdc & Hb).
    unfold run_turn, guarded_call, check_cost_allowed, check_allowed_for_user.
    destruct (check_exhausted (tn_check_time x.2) g1) as (s & l & ->); [by apply Hst|].
    cbn [is_ok]. split_and!; [done|done|done|by left]. }
  destruct (run_turns g xs) as [g' log]. destruct Hrun as (-> & Hc & Hdc & Hb). split_and!; [done|done| |].
  - intros tc tn. unfold guarded_call, check_cost_allowed, check_allowed_for_user.
    destruct (check_exhausted (tn_check_time tn) g') as (s & l & ->); [by apply Hst|]. by exists s, l.
  - intros day Hne. unfold daily_spend. rewrite Hdc. by rewrite (proj2 (Z.eqb_neq _ _)).
Qed.
End cost_guard.

(** ** Witnesses *)

Definition demo_llm_call : LlmCall := mkLlmCall "m" 10 0 0 0 dec_one dec_one (Some (pico_unit, pico_unit)).
Definition demo_usage (user : string) (day : Z) : Usage := mkUsage user day (secs day) day demo_llm_call.

Lemma spending_accounted_witness :
  daily_spend 2 (record_all id (mkGuardConfig None None None) 1
                   [demo_usage "b" 2; demo_usage "a" 2; demo_usage "a" 1]) = 20 * pico_unit.
Proof.
  refine (eq_trans (proj1 (spending_accounted id (mkGuardConfig None None None) 1
    [demo_usage "b" 2; demo_usage "a" 2; demo_usage "a" 1] 2 _ _)) _).
  - simpl. lia.
  - simpl. lia.
  - vm_compute. reflexivity.
Defined.

Definition demo_turn (t : Z) : TenantCtx * Turn :=
  (mkTenant "a", mkTurn t 1 (Some demo_llm_call) 1 t 1).

Lemma hourly_limit_holds_witness :
  length (run_turns id 0 (guard_new (mkGuardConfig None (Some 2) None) 1)
            [demo_turn 3; demo_turn 2; demo_turn 1]).2 = 2%nat ∧
  Z.of_nat (length (hour_of 0 (run_turns id 0 (guard_new (mkGuardConfig None (Some 2) None) 1)
            [demo_turn 3; demo_turn 2; demo_turn 1]).2)) ≤ 2.
Proof.
  split; [vm_compute; reflexivity|].
  refine (hourly_limit_holds id 0 (mkGuardConfig None (Some 2) None) 1 2 0 _ 0 eq_refl _ _).
  - lia.
  - simpl. lia.
Defined.

Lemma lockout_outlives_the_day_witness :
  let g := record_all id (mkGuardConfig (Some 1000) None None) 1 [demo_usage "a" 1] in
  (run_turns id 0 g [demo_turn (secs 200000); demo_turn (secs 100000)]).2 = [].
Proof.
  intros g.
  pose proof (lockout_outlives_the_day id 0 g [demo_turn (secs 200000); demo_turn (secs 100000)]) as Hl.
  destruct (run_turns _ _ g _) as [g' log]. apply Hl. left. vm_compute. reflexivity.
Defined.
