(* ===== verification/Allowlist.v ===== *)
(** * Network allowlists: [src/tools/wasm/allowlist.rs],
    [EndpointPattern] of [src/tools/wasm/capabilities.rs] and
    [src/sandbox/proxy/allowlist.rs]

    Which HTTP requests a WASM tool may make, and which hosts the sandbox
    proxy lets through.  Parameters: [url_parse], the parser of the [url]
    crate, [url_decode], the percent decoder of [urlencoding] ([None] when the
    decoded bytes are not UTF-8), and the case mappings of [str]. *)

From Stdlib Require Import Ascii.
From S2P Require Import Prelude Text.

(** What the code reads of a parsed [url::Url]. *)
Record Url : Type := mkUrl {
  u_scheme : string;
  u_username : string;
  u_password : option string;
  u_host_str : option string;
  u_path : string
}.

Class UrlEnv := {
  url_parse : string -> Result string Url;
  url_decode : string -> option string;
  lower : string -> string;
  upper : string -> string
}.

(** ** Endpoint patterns *)

Record EndpointPattern : Type := mkPattern {
  ep_host : string;
  ep_path_prefix : option string;
  ep_methods : list string
}.

Definition pattern_host (host : string) : EndpointPattern := mkPattern host None [].
Definition with_path_prefix (prefix : string) (p : EndpointPattern) : EndpointPattern :=
  mkPattern (ep_host p) (Some prefix) (ep_methods p).
Definition with_methods (methods : list string) (p : EndpointPattern) : EndpointPattern :=
  mkPattern (ep_host p) (ep_path_prefix p) methods.

Definition host_matches (p : EndpointPattern) (url_host : string) : bool :=
  if decide (ep_host p = url_host) then true else
  match strip_prefix "*." (ep_host p) with
  | Some suffix =>
      if ends_with suffix url_host && (String.length suffix <? String.length url_host)%nat then
        let prefix := String.substring 0 (String.length url_host - String.length suffix) url_host in
        ends_with "." prefix || bool_decide (prefix = "")
      else false
  | None => false
  end.

Section allowlist.
Context `{UrlEnv}.

Definition pattern_matches (p : EndpointPattern) (url_host url_path method : string) : bool :=
  if negb (host_matches p url_host) then false else
  if match ep_path_prefix p with Some prefix => negb (starts_with prefix url_path) | None => false end
  then false else
  if bool_decide (ep_methods p = []) then true
  else existsb (fun m => bool_decide (upper m = upper method)) (ep_methods p).

(** ** URLs *)

Definition is_ascii_hexdigit (c : ascii) : bool :=
  let n := nat_of_ascii c in
  ((48 <=? n) && (n <=? 57) || (65 <=? n) && (n <=? 70) || (97 <=? n) && (n <=? 102))%nat.

Fixpoint has_valid_percent_encoding (segment : string) : bool :=
  match segment with
  | EmptyString => true
  | String "%"%char rest =>
      match rest with
      | String a (String b rest') =>
          is_ascii_hexdigit a && is_ascii_hexdigit b && has_valid_percent_encoding rest'
      | _ => false
      end
  | String _ rest => has_valid_percent_encoding rest
  end.

(** [path.split('/')]; [cur] is the segment being read, reversed. *)
Fixpoint split_on (sep : ascii) (s cur : string) : list string :=
  match s with
  | EmptyString => [string_rev cur ""]
  | String c r =>
      if ascii_dec c sep then string_rev cur "" :: split_on sep r ""
      else split_on sep r (String c cur)
  end.

Definition split_slash (s : string) : list string := split_on "/" s "".

(** [segments.join("/")] *)
Fixpoint join (sep : string) (l : list string) : string :=
  match l with
  | [] => ""
  | [x] => x
  | x :: r => x +:+ sep +:+ join sep r
  end.

Definition backslash : ascii := ascii_of_nat 92.

Definition encoding_error (raw : string) : string :=
  "Invalid percent-encoding in path segment: " +:+ raw.

(** The loop over raw segments; [stack] holds the resolved ones, last first. *)
Fixpoint resolve (raw : list string) (stack : list string) : Result string (list string) :=
  match raw with
  | [] => Ok stack
  | raw_segment :: rest =>
      if negb (has_valid_percent_encoding raw_segment) then Err (encoding_error raw_segment) else
      match url_decode raw_segment with
      | None => Err (encoding_error raw_segment)
      | Some segment =>
          if contains "/" segment || contains (String backslash "") segment
          then Err "Path segment contains encoded path separator"
          else
            resolve rest
              (if bool_decide (segment = "") || bool_decide (segment = ".") then stack
               else if bool_decide (segment = "..") then tail stack
               else segment :: stack)
      end
  end.

Definition normalize_path (path : string) : Result string string :=
  match resolve (split_slash path) [] with
  | Err e => Err e
  | Ok stack =>
      let result := "/" +:+ join "/" (reverse stack) in
      if (1 <? String.length path)%nat && ends_with "/" path && negb (ends_with "/" result)
      then Ok (result +:+ "/") else Ok result
  end.

Record ParsedUrl : Type := mkParsed { pu_scheme : string; pu_host : string; pu_path : string }.

(** [s.strip_suffix(c)] for one character. *)
Definition strip_suffix_char (c : ascii) (s : string) : option string :=
  match string_rev s "" with
  | String d r => if ascii_dec c d then Some (string_rev r "") else None
  | EmptyString => None
  end.

Definition unbracket (host : string) : string :=
  default host (strip_prefix "[" host ≫= strip_suffix_char "]").

Definition parse_url (url : string) : Result string ParsedUrl :=
  match url_parse url with
  | Err e => Err ("URL parse failed: " +:+ e)
  | Ok parsed =>
      let scheme := lower (u_scheme parsed) in
      if negb (bool_decide (scheme = "http")) && negb (bool_decide (scheme = "https"))
      then Err ("Unsupported scheme: " +:+ scheme)
      else if negb (bool_decide (u_username parsed = "")) || bool_decide (is_Some (u_password parsed))
      then Err "URL contains userinfo (@) which is not allowed"
      else
        match u_host_str parsed with
        | None => Err "Empty host"
        | Some host =>
            match normalize_path (u_path parsed) with
            | Err e => Err e
            | Ok p => Ok (mkParsed scheme (lower (unbracket host)) p)
            end
        end
  end.

(** ** The validator *)

Inductive DenyReason : Type :=
| InvalidUrl (e : string)
| HostNotAllowed (host : string)
| PathNotAllowed (host path : string)
| MethodNotAllowed (method host : string)
| EmptyAllowlist
| InsecureScheme (scheme : string).

Definition deny_reason_display (r : DenyReason) : string :=
  match r with
  | InvalidUrl url => "Invalid URL: " +:+ url
  | HostNotAllowed host => "Host not in allowlist: " +:+ host
  | PathNotAllowed host path => "Path not allowed for host " +:+ host +:+ ": " +:+ path
  | MethodNotAllowed method host => "Method " +:+ method +:+ " not allowed for host " +:+ host
  | EmptyAllowlist => "No endpoints in allowlist"
  | InsecureScheme scheme => "Insecure scheme: " +:+ scheme +:+ " (only HTTPS allowed)"
  end.

Inductive AllowlistResult : Type := RequestAllowed | RequestDenied (r : DenyReason).

Definition request_is_allowed (r : AllowlistResult) : bool :=
  match r with RequestAllowed => true | RequestDenied _ => false end.

Record AllowlistValidator : Type := mkValidator {
  av_patterns : list EndpointPattern;
  require_https : bool
}.

Definition validator_new (ps : list EndpointPattern) : AllowlistValidator := mkValidator ps true.
Definition allow_http (v : AllowlistValidator) : AllowlistValidator := mkValidator (av_patterns v) false.

Definition validate (v : AllowlistValidator) (url method : string) : AllowlistResult :=
  match av_patterns v with
  | [] => RequestDenied EmptyAllowlist
  | _ =>
      match parse_url url with
      | Err e => RequestDenied (InvalidUrl e)
      | Ok parsed =>
          if require_https v && negb (bool_decide (pu_scheme parsed = "https"))
          then RequestDenied (InsecureScheme (pu_scheme parsed))
          else if existsb (fun p => pattern_matches p (pu_host parsed) (pu_path parsed) method)
                    (av_patterns v)
          then RequestAllowed
          else
            let hosts := List.filter (fun p => host_matches p (pu_host parsed)) (av_patterns v) in
            if bool_decide (length hosts = 0) then RequestDenied (HostNotAllowed (pu_host parsed))
            else
              let paths := List.filter (fun p =>
                match ep_path_prefix p with
                | None => true
                | Some prefix => starts_with prefix (pu_path parsed)
                end) hosts in
              if bool_decide (length paths = 0)
              then RequestDenied (PathNotAllowed (pu_host parsed) (pu_path parsed))
              else RequestDenied (MethodNotAllowed method (pu_host parsed))
      end
  end.

Definition host_allowed (v : AllowlistValidator) (host : string) : bool :=
  existsb (fun p => host_matches p host) (av_patterns v).

Definition allowed_hosts (v : AllowlistValidator) : list string := ep_host <$> av_patterns v.

(** ** The proxy's domain allowlist *)

Record DomainPattern : Type := mkDomain {
  dp_pattern : string;
  dp_is_wildcard : bool;
  dp_base_domain : string
}.

Definition domain_new (pattern : string) : DomainPattern :=
  match strip_prefix "*." pattern with
  | Some rest => mkDomain pattern true (lower rest)
  | None => mkDomain pattern false (lower pattern)
  end.

Definition domain_matches (d : DomainPattern) (host : string) : bool :=
  let host_lower := lower host in
  if dp_is_wildcard d
  then bool_decide (host_lower = dp_base_domain d) || ends_with ("." +:+ dp_base_domain d) host_lower
  else bool_decide (host_lower = dp_base_domain d).

Inductive DomainValidationResult : Type := DomainAllowed | DomainDenied (reason : string).

Abbreviation DomainAllowlist := (list DomainPattern).

Definition domains_new (domains : list string) : DomainAllowlist := domain_new <$> domains.
Definition domains_empty : DomainAllowlist := [].
Definition domains_add (pattern : string) (l : DomainAllowlist) : DomainAllowlist :=
  l ++ [domain_new pattern].

Definition domain_is_allowed (l : DomainAllowlist) (host : string) : DomainValidationResult :=
  match l with
  | [] => DomainDenied "empty allowlist"
  | _ => if existsb (fun d => domain_matches d host) l then DomainAllowed
         else DomainDenied ("host '" +:+ host +:+ "' not in allowlist: ["
                            +:+ join ", " (dp_pattern <$> l) +:+ "]")
  end.

Definition extract_host (url : string) : option string :=
  match url_parse url with
  | Err _ => None
  | Ok parsed =>
      if bool_decide (u_scheme parsed = "http") || bool_decide (u_scheme parsed = "https")
      then (fun h => lower (unbracket h)) <$> u_host_str parsed
      else None
  end.
End allowlist.

(** ** Specification *)

(** The hosts a pattern stands for: itself, and with a leading [*.] every
    proper subdomain of the rest. *)
Definition covers (pattern h : string) : Prop :=
  pattern = h ∨ ∃ suffix sub, pattern = "*." +:+ suffix ∧ h = sub +:+ "." +:+ suffix.

Definition slash_free (s : string) : bool := string_forallb (fun c => negb (Ascii.eqb c "/")) s.

(** A segment that names a file or directory, and nothing else. *)
Definition clean (seg : string) : Prop :=
  seg ≠ "" ∧ seg ≠ "." ∧ seg ≠ ".." ∧ slash_free seg = true ∧ contains (String backslash "") seg = false.

(** The absolute path of a list of segments, as a directory. *)
Definition directory (segs : list string) : string := foldr (fun s acc => "/" +:+ s +:+ acc) "/" segs.

(** ** Lemmas *)

Lemma substring_0_app x s : String.substring 0 (String.length x) (x +:+ s) = x.
Proof.
  induction x as [|c x IH]; [by destruct s|]. exact (f_equal (String c) IH).
Qed.

Lemma host_matches_iff p h : host_matches p h = true ↔ covers (ep_host p) h.
Proof.
  unfold host_matches, covers. case_decide as Heq; [tauto|].
  destruct (strip_prefix "*." (ep_host p)) as [suffix|] eqn:Hs.
  - apply strip_prefix_iff in Hs. destruct (ends_with suffix h) eqn:He; simpl.
    + apply ends_with_iff in He as [x ->]. rewrite length_append.
      replace (String.length x + String.length suffix - String.length suffix) with (String.length x) by lia.
      rewrite substring_0_app. destruct (Nat.ltb_spec (String.length suffix) (String.length x + String.length suffix)).
      * rewrite orb_true_iff, ends_with_iff, bool_decide_eq_true. split.
        -- intros [[y ->]| ->]; [|simpl in *; lia]. right. exists suffix, y. by rewrite append_assoc.
        -- intros [?|(suf & sub & Hp & Hh)]; [done|]. left. rewrite Hs in Hp.
           apply (inj (String.append "*.")) in Hp. subst suf. exists sub.
           rewrite <- append_assoc in Hh.
           apply (f_equal (fun s => String.substring 0 (String.length s - String.length suffix) s)) in Hh.
           rewrite !length_append in Hh.
           replace (String.length x + String.length suffix - String.length suffix) with (String.length x) in Hh by lia.
           replace (String.length sub + String.length "." + String.length suffix - String.length suffix)
             with (String.length (sub +:+ ".")) in Hh by (rewrite length_append; lia).
           by rewrite !substring_0_app in Hh.
      * split; [done|]. intros [?|(suf & sub & Hp & Hh)]; [done|]. rewrite Hs in Hp.
        apply (inj (String.append "*.")) in Hp. subst suf.
        apply (f_equal String.length) in Hh. rewrite !length_append in Hh. simpl in Hh. lia.
    + split; [done|]. intros [?|(suf & sub & Hp & ->)]; [done|]. rewrite Hs in Hp.
      apply (inj (String.append "*.")) in Hp. subst suf.
      rewrite <- append_assoc, ends_with_append in He. done.
  - split; [done|]. intros [?|(suf & sub & Hp & _)]; [done|].
    apply strip_prefix_iff in Hp. congruence.
Qed.

Lemma slash_free_iff s : contains "/" s = false ↔ slash_free s = true.
Proof.
  unfold slash_free. induction s as [|c s IH]; [done|]. cbn [contains string_forallb].
  rewrite orb_false_iff, andb_true_iff, IH, negb_true_iff, Ascii.eqb_neq, starts_with_cons.
  split; intros [Hc ?]; (split; [|done]).
  - destruct (ascii_dec "/" c); [by destruct s|congruence].
  - destruct (ascii_dec "/" c); [congruence|done].
Qed.

(** Two paths that agree up to the end of a segment agree on the segment. *)
Lemma segment_inj a b x y : slash_free a = true → slash_free b = true →
  a +:+ "/" +:+ x = b +:+ y → y = "" ∨ starts_with "/" y = true → a = b ∧ y = "/" +:+ x.
Proof.
  revert b. induction a as [|c a IH]; intros [|d b] Ha Hb Heq Hy.
  - done.
  - change (String "/" x = String d (b +:+ y)) in Heq. injection Heq as <- _. done.
  - change (String c (a +:+ "/" +:+ x) = y) in Heq. subst y. destruct Hy as [?|Hy]; [done|].
    rewrite starts_with_cons in Hy. destruct (ascii_dec "/" c) as [<-|]; [|done]. done.
  - change (String c (a +:+ "/" +:+ x) = String d (b +:+ y)) in Heq. injection Heq as <- Heq.
    unfold slash_free in Ha, Hb. simpl in Ha, Hb. apply andb_true_iff in Ha as [_ Ha], Hb as [_ Hb].
    destruct (IH b Ha Hb Heq Hy) as [-> ->]. done.
Qed.

Definition body (fin : string) (segs : list string) : string :=
  foldr (fun s acc => "/" +:+ s +:+ acc) fin segs.

Lemma body_starts fin segs : fin = "" ∨ fin = "/" → body fin segs = "" ∨ starts_with "/" (body fin segs) = true.
Proof.
  intros Hf. destruct segs as [|s segs]; simpl; [destruct Hf as [-> | ->]; auto|].
  right. apply starts_with_iff. by eexists.
Qed.

Lemma directory_starts segs t : ∃ x, directory segs +:+ t = "/" +:+ x.
Proof. destruct segs as [|s segs]; simpl; eexists; [done|]. by rewrite append_assoc. Qed.

(** A path under a directory has the directory's segments first. *)
Lemma under_directory pre segs fin t :
  Forall (fun s => slash_free s = true) pre → Forall (fun s => slash_free s = true) segs →
  fin = "" ∨ fin = "/" → directory pre +:+ t = body fin segs → ∃ rest, segs = pre ++ rest.
Proof.
  intros Hpre. revert segs. induction Hpre as [|a pre Ha _ IH]; intros segs Hs Hf Heq; [by exists segs|].
  destruct (directory_starts pre t) as [x Hx]. simpl in Heq. rewrite !append_assoc, Hx in Heq.
  destruct segs as [|b segs]; simpl in Heq.
  - destruct Hf as [-> | ->]; [done|]. apply (inj (String.append "/") _ "") in Heq. by destruct a.
  - apply Forall_cons in Hs as [Hsb Hs]. apply (inj (String.append "/")) in Heq.
    destruct (segment_inj a b x (body fin segs)) as [-> Hb]; [done..|by apply body_starts|].
    destruct (IH segs) as [rest ->]; [done|done|by rewrite Hx|]. by exists rest.
Qed.

Lemma join_body fin s segs : "/" +:+ join "/" (s :: segs) +:+ fin = body fin (s :: segs).
Proof.
  revert s. induction segs as [|s' segs IH]; intros s; [done|].
  change (join "/" (s :: s' :: segs)) with (s +:+ "/" +:+ join "/" (s' :: segs)).
  change (body fin (s :: s' :: segs)) with ("/" +:+ s +:+ body fin (s' :: segs)).
  rewrite <- IH, !append_assoc. done.
Qed.

Section facts.
Context `{UrlEnv}.

Lemma resolve_clean raw stack st : Forall clean stack → resolve raw stack = Ok st → Forall clean st.
Proof.
  revert stack. induction raw as [|r raw IH]; intros stack Hc; simpl; [by intros [= <-]|].
  destruct (has_valid_percent_encoding r); simpl; [|done].
  destruct (url_decode r) as [seg|]; [|done].
  destruct (contains "/" seg) eqn:Hs; simpl; [done|].
  destruct (contains (String backslash "") seg) eqn:Hb; [done|]. apply IH.
  repeat case_bool_decide; simpl; try done.
  - by destruct Hc.
  - constructor; [|done]. apply slash_free_iff in Hs. by split_and!.
Qed.

(** What the normalisation returns: the resolved segments, rendered as an
    absolute path. *)
Lemma normalize_path_segments path r : normalize_path path = Ok r →
  ∃ segs fin, resolve (split_slash path) [] = Ok (reverse segs) ∧ Forall clean segs ∧
    (fin = "" ∨ fin = "/") ∧ r = body fin segs.
Proof.
  unfold normalize_path. destruct (resolve (split_slash path) []) as [st|] eqn:Hr; [|done].
  assert (Hc : Forall clean (reverse st)) by (eapply Forall_reverse, resolve_clean; [constructor|done]).
  intros Hres. exists (reverse st). rewrite reverse_involutive.
  enough (∃ fin, (fin = "" ∨ fin = "/") ∧ r = body fin (reverse st)) as (fin & ? & ?) by (by exists fin).
  destruct (reverse st) as [|s segs].
  - exists "/". split; [by right|]. rewrite andb_false_r in Hres. by inv Hres.
  - case_match; [exists "/"|exists ""]; (split; [tauto|]); simplify_eq.
    + rewrite <- join_body. apply (append_assoc "/").
    + by rewrite <- join_body, append_nil_r.
Qed.
End facts.

(** ** Theorems *)

(** The rule by which a pattern admits a request. *)
Definition admits `{UrlEnv} (p : EndpointPattern) (host path method : string) : Prop :=
  covers (ep_host p) host ∧
  (∀ prefix, ep_path_prefix p = Some prefix → ∃ rest, path = prefix +:+ rest) ∧
  (ep_methods p = [] ∨ ∃ m, m ∈ ep_methods p ∧ upper m = upper method).

Lemma pattern_matches_iff `{UrlEnv} p host path method :
  pattern_matches p host path method = true ↔ admits p host path method.
Proof.
  unfold pattern_matches, admits. rewrite <- host_matches_iff.
  destruct (host_matches p host); simpl; [|naive_solver].
  assert (Hm : (if bool_decide (ep_methods p = []) then true
    else existsb (fun m => bool_decide (upper m = upper method)) (ep_methods p)) = true ↔
    (ep_methods p = [] ∨ ∃ m, m ∈ ep_methods p ∧ upper m = upper method)).
  { case_bool_decide; [tauto|]. rewrite existsb_exists. setoid_rewrite bool_decide_eq_true.
    setoid_rewrite list_elem_of_In. naive_solver. }
  destruct (ep_path_prefix p) as [prefix|]; [|naive_solver].
  destruct (starts_with prefix path) eqn:Hs; simpl.
  - apply starts_with_iff in Hs. naive_solver.
  - split; [done|]. intros (_ & Hp & _). destruct (Hp prefix eq_refl) as [rest Hr].
    assert (starts_with prefix path = true) by (apply starts_with_iff; by exists rest). congruence.
Qed.

Lemma validate_spec `{UrlEnv} v url method :
  validate v url method = RequestAllowed ↔
  ∃ parsed p, parse_url url = Ok parsed ∧
    (require_https v = true → pu_scheme parsed = "https") ∧
    p ∈ av_patterns v ∧ admits p (pu_host parsed) (pu_path parsed) method.
Proof.
  unfold validate. destruct (av_patterns v) as [|p0 ps] eqn:Hps.
  { split; [done|]. intros (_ & p & _ & _ & Hin & _). by apply not_elem_of_nil in Hin. }
  rewrite <- Hps. clear Hps. destruct (parse_url url) as [parsed|e]; [|naive_solver].
  set (m p := pattern_matches p (pu_host parsed) (pu_path parsed) method).
  assert (Hex : existsb m (av_patterns v) = true ↔
    ∃ p, p ∈ av_patterns v ∧ admits p (pu_host parsed) (pu_path parsed) method).
  { rewrite existsb_exists. unfold m. setoid_rewrite pattern_matches_iff.
    by setoid_rewrite list_elem_of_In. }
  assert (Hsc : (require_https v && negb (bool_decide (pu_scheme parsed = "https"))) = false ↔
    (require_https v = true → pu_scheme parsed = "https")).
  { destruct (require_https v); simpl; [|naive_solver]. case_bool_decide; naive_solver. }
  destruct (require_https v && _) eqn:Hs.
  { split; [done|]. intros (? & p & [= <-] & Hr & _). by apply Hsc in Hr. }
  destruct (existsb m (av_patterns v)) eqn:He.
  - split; [|done]. intros _. destruct (proj1 Hex eq_refl) as (p & ? & ?). exists parsed, p.
    split_and!; try done. by apply Hsc.
  - split; [cbv zeta; repeat case_bool_decide; done|].
    intros (? & p & [= <-] & _ & Hin & Ha). discriminate (proj2 Hex (ex_intro _ p (conj Hin Ha))).
Qed.

(** The allowlist admits exactly what its patterns describe: a request is
    allowed if and only if the URL parses without user information, its scheme
    is https where required, and one pattern covers the host (itself or a
    proper subdomain of a wildcard), the normalised path and the method. *)
Theorem validate_iff `{UrlEnv} v url method :
  validate v url method = RequestAllowed ↔
  ∃ parsed p, parse_url url = Ok parsed ∧
    (require_https v = true → pu_scheme parsed = "https") ∧
    p ∈ av_patterns v ∧ admits p (pu_host parsed) (pu_path parsed) method.
Proof. apply validate_spec. Qed.

(** C14. An allowed request is admitted by one pattern as a whole, and stays below that pattern's directory: the URL carries no user
    information and has the scheme https where required; a single pattern of the list covers its host and its method, and the
    normalised path starts with that pattern's prefix; that path resolves, percent-decoding and dot segments included, to a list of plain
    names, and whenever the same pattern's prefix is a directory, those names start with the names of that directory; no
    encoding of [..] or of a separator escapes it. *)
Theorem allowed_path_confined `{UrlEnv} v url method :
  validate v url method = RequestAllowed →
  ∃ u host path p segs, url_parse url = Ok u ∧ u_username u = "" ∧ u_password u = None ∧
    (require_https v = true → lower (u_scheme u) = "https") ∧
    u_host_str u = Some host ∧ normalize_path (u_path u) = Ok path ∧
    p ∈ av_patterns v ∧ covers (ep_host p) (lower (unbracket host)) ∧
    (ep_methods p = [] ∨ ∃ m, m ∈ ep_methods p ∧ upper m = upper method) ∧
    (∀ prefix, ep_path_prefix p = Some prefix → ∃ rest, path = prefix +:+ rest) ∧
    resolve (split_slash (u_path u)) [] = Ok (reverse segs) ∧ Forall clean segs ∧
    ∀ dir, Forall clean dir → ep_path_prefix p = Some (directory dir) → ∃ rest, segs = dir ++ rest.
Proof.
  intros (parsed & p & Hp & Hs & Hin & Hcov & Hpre & Hmeth)%validate_spec. unfold parse_url in Hp.
  destruct (url_parse url) as [u|]; [|done].
  destruct (_ && _); [done|]. destruct (_ || _) eqn:Hui; [done|].
  apply orb_false_iff in Hui as [Hun Hpw]. apply negb_false_iff, bool_decide_eq_true in Hun.
  apply bool_decide_eq_false in Hpw. destruct (u_host_str u) as [host|] eqn:Hh; [|done].
  destruct (normalize_path (u_path u)) as [r|] eqn:Hn; [|done]. injection Hp as <-. cbn [pu_scheme pu_host pu_path] in *.
  pose proof Hn as (segs & fin & Hres & Hc & Hf & Hr)%normalize_path_segments.
  exists u, host, r, p, segs. split_and!; try done; [by destruct (u_password u); [destruct Hpw|]|].
  intros dir Hdir Hd. destruct (Hpre _ Hd) as [rest Hrest]. rewrite Hr in Hrest.
  assert (Hsf : ∀ l, Forall clean l → Forall (fun s => slash_free s = true) l).
  { intros l Hl. eapply Forall_impl; [exact Hl|]. by intros x (_ & _ & _ & ? & _). }
  eapply (under_directory dir segs fin rest); [by apply Hsf|by apply Hsf|done|done].
Qed.

(** The proxy's allowlist admits exactly the listed domains: a host passes
    if and only if, ignoring case, it equals the domain of an entry or is a
    subdomain of a wildcard entry. *)
Theorem domain_allowed_iff `{UrlEnv} l host :
  domain_is_allowed (domains_new l) host = DomainAllowed ↔
  ∃ d, d ∈ l ∧
    match strip_prefix "*." d with
    | Some base => lower host = lower base ∨ ∃ sub, lower host = sub +:+ "." +:+ lower base
    | None => lower host = lower d
    end.
Proof.
  unfold domain_is_allowed, domains_new. destruct l as [|d0 ds].
  { split; [done|]. intros (d & Hin & _). by apply not_elem_of_nil in Hin. }
  set (l := d0 :: ds). change (domain_new <$> d0 :: ds) with (domain_new <$> l).
  assert (Hm : existsb (fun d => domain_matches d host) (domain_new <$> l) = true ↔
    ∃ d, d ∈ l ∧ domain_matches (domain_new d) host = true).
  { rewrite existsb_exists. setoid_rewrite <- list_elem_of_In. setoid_rewrite list_elem_of_fmap.
    naive_solver. }
  trans (∃ d, d ∈ l ∧ domain_matches (domain_new d) host = true).
  - rewrite <- Hm. subst l. simpl. by destruct (_ || _).
  - apply exist_proper. intros d. apply and_iff_compat_l. unfold domain_matches, domain_new.
    destruct (strip_prefix "*." d) as [base|]; simpl; [|by rewrite bool_decide_eq_true].
    rewrite orb_true_iff, bool_decide_eq_true, ends_with_iff. done.
Qed.

(** ** Witnesses *)

(** URLs of one host, written as their path; [%2e] is the only encoding. *)
Fixpoint demo_decode (fuel : nat) (s : string) : string :=
  match fuel with
  | O => s
  | S fuel =>
      match strip_prefix "%2e" s with
      | Some r => String "." (demo_decode fuel r)
      | None => match s with EmptyString => "" | String c r => String c (demo_decode fuel r) end
      end
  end.

Definition demo_url_env : UrlEnv := {|
  url_parse := fun s => Ok (mkUrl "https" "" None (Some "api.x.com") s);
  url_decode := fun s => Some (demo_decode (String.length s) s);
  lower := string_map ascii_lower;
  upper := id
|}.

(** The pattern that covers the host of the request is the one that confines its path. *)
Lemma allowed_path_confined_witness :
  let v := validator_new [mkPattern "other.com" None []; mkPattern "*.x.com" (Some "/v1/") []] in
  @validate demo_url_env v "/v1/%2e%2e/admin" "GET" = RequestDenied (PathNotAllowed "api.x.com" "/admin") ∧
  ∃ (p : EndpointPattern) (segs : list string), p ∈ av_patterns v ∧ covers (ep_host p) "api.x.com" ∧ Forall clean segs ∧
    @resolve demo_url_env (split_slash "/a/../v1/b") [] = Ok (reverse segs).
Proof.
  intros v. split; [vm_compute; reflexivity|].
  destruct (@allowed_path_confined demo_url_env v "/a/../v1/b" "GET")
    as (u & host & path & p & segs & Hu & _ & _ & _ & Hh & _ & Hin & Hcov & _ & _ & Hr & Hc & _).
  - vm_compute. reflexivity.
  - exists p, segs. injection Hu as <-. injection Hh as <-. split; [exact Hin|]. split; [exact Hcov|]. split; [exact Hc|]. exact Hr.
Defined.
