(* ===== verification/TokenStore.v ===== *)
(** * Worker tokens: [src/orchestrator/auth.rs]

    Bearer tokens that a job's container presents to the orchestrator, with
    the credentials granted to the job, and the middleware that checks them.
    The random bytes of a token and the parser of [uuid] are parameters; the
    constant-time comparison is equality of bytes.  [revoke] takes its two locks
    one after the other and is one step here. *)

From Stdlib Require Import Ascii.
From S2P Require Import Prelude Text Allowlist.

Record CredentialGrant : Type := mkGrant { secret_name : string; env_var : string }.

Record TokenStore : Type := mkStore {
  tokens : gmap Uuid string;
  credential_grants : gmap Uuid (list CredentialGrant)
}.

Definition store_new : TokenStore := mkStore ∅ ∅.

Definition hex_digit (n : nat) : ascii :=
  if decide (n < 10) then ascii_of_nat (48 + n) else ascii_of_nat (87 + n).

(** [write!(s, "{b:02x}")] *)
Definition hex_byte (b : nat) : string :=
  String (hex_digit (b / 16)) (String (hex_digit (b mod 16)) "").

(** [bytes] are the 32 bytes drawn from the system. *)
Definition generate_token (bytes : list nat) : string :=
  foldl (fun s b => s +:+ hex_byte b) "" bytes.

Definition create_token (bytes : list nat) (job_id : Uuid) (st : TokenStore) : string * TokenStore :=
  let token := generate_token bytes in
  (token, mkStore (<[job_id := token]> (tokens st)) (credential_grants st)).

Definition validate_token (job_id : Uuid) (token : string) (st : TokenStore) : bool :=
  match tokens st !! job_id with
  | Some stored => bool_decide (stored = token)
  | None => false
  end.

Definition revoke (job_id : Uuid) (st : TokenStore) : TokenStore :=
  mkStore (delete job_id (tokens st)) (delete job_id (credential_grants st)).

Definition token_count (st : TokenStore) : nat := size (tokens st).

Definition store_grants (job_id : Uuid) (grants : list CredentialGrant) (st : TokenStore) : TokenStore :=
  match grants with
  | [] => st
  | _ => mkStore (tokens st) (<[job_id := grants]> (credential_grants st))
  end.

Definition get_grants (job_id : Uuid) (st : TokenStore) : option (list CredentialGrant) :=
  credential_grants st !! job_id.

(** ** The middleware *)

(** [s.trim_start_matches(c)] *)
Fixpoint trim_start_matches (c : ascii) (s : string) : string :=
  match s with
  | EmptyString => ""
  | String d r => if ascii_dec c d then trim_start_matches c r else s
  end.

Definition extract_job_id_from_path (parse_uuid : string -> option Uuid) (path : string) : option Uuid :=
  match split_slash (trim_start_matches "/" path) with
  | worker :: id :: _ => if decide (worker = "worker") then parse_uuid id else None
  | _ => None
  end.

Inductive StatusCode : Type := BAD_REQUEST | UNAUTHORIZED.

(** [authorization] is the header's value when it is present and valid text.
    [Ok] stands for the call of the next handler. *)
Definition worker_auth_middleware (parse_uuid : string -> option Uuid) (path : string)
    (authorization : option string) (st : TokenStore) : Result StatusCode unit :=
  match extract_job_id_from_path parse_uuid path with
  | None => Err BAD_REQUEST
  | Some job_id =>
      match authorization ≫= strip_prefix "Bearer " with
      | None => Err UNAUTHORIZED
      | Some token => if negb (validate_token job_id token st) then Err UNAUTHORIZED else Ok tt
      end
  end.

(** ** Specification *)

Inductive TokenEvent : Type :=
| EvCreate (job : Uuid) (bytes : list nat)
| EvRevoke (job : Uuid)
| EvGrant (job : Uuid) (grants : list CredentialGrant).

Definition apply_token_event (ev : TokenEvent) (st : TokenStore) : TokenStore :=
  match ev with
  | EvCreate job bytes => (create_token bytes job st).2
  | EvRevoke job => revoke job st
  | EvGrant job grants => store_grants job grants st
  end.

(** The store after the events, the latest first. *)
Definition token_run (evs : list TokenEvent) : TokenStore := foldr apply_token_event store_new evs.

(** The bytes of the token that was issued last for the job and not revoked. *)
Fixpoint live_bytes (job : Uuid) (evs : list TokenEvent) : option (list nat) :=
  match evs with
  | [] => None
  | EvCreate j bytes :: rest => if decide (j = job) then Some bytes else live_bytes job rest
  | EvRevoke j :: rest => if decide (j = job) then None else live_bytes job rest
  | EvGrant _ _ :: rest => live_bytes job rest
  end.

(** The credentials granted to the job since its last revocation. *)
Fixpoint live_grants (job : Uuid) (evs : list TokenEvent) : option (list CredentialGrant) :=
  match evs with
  | [] => None
  | EvGrant j (g :: gs) :: rest => if decide (j = job) then Some (g :: gs) else live_grants job rest
  | EvRevoke j :: rest => if decide (j = job) then None else live_grants job rest
  | _ :: rest => live_grants job rest
  end.

Definition is_byte (b : nat) : Prop := b < 256.

(** ** Lemmas *)

Lemma token_run_lookup job evs : tokens (token_run evs) !! job = generate_token <$> live_bytes job evs.
Proof.
  induction evs as [|ev evs IH]; [done|]. cbn [token_run foldr]. fold (token_run evs).
  destruct ev as [j bs|j|j gs]; simpl.
  - case_decide as Hj; [subst; by rewrite lookup_insert_eq|by rewrite lookup_insert_ne].
  - case_decide as Hj; [subst; by rewrite lookup_delete_eq|by rewrite lookup_delete_ne].
  - destruct gs; done.
Qed.

Lemma token_run_grants job evs : get_grants job (token_run evs) = live_grants job evs.
Proof.
  unfold get_grants. induction evs as [|ev evs IH]; [done|]. cbn [token_run foldr]. fold (token_run evs).
  destruct ev as [j bs|j|j [|g gs]]; simpl; try done.
  - case_decide as Hj; [subst; by rewrite lookup_delete_eq|by rewrite lookup_delete_ne].
  - case_decide as Hj; [subst; by rewrite lookup_insert_eq|by rewrite lookup_insert_ne].
Qed.

Lemma generate_token_cons_gen acc bs :
  foldl (fun s b => s +:+ hex_byte b) acc bs = acc +:+ generate_token bs.
Proof.
  unfold generate_token. revert acc. induction bs as [|b bs IH]; intros acc; simpl.
  - by rewrite append_nil_r.
  - rewrite IH, (IH ("" +:+ hex_byte b)), append_assoc. done.
Qed.

Lemma generate_token_cons b bs : generate_token (b :: bs) = hex_byte b +:+ generate_token bs.
Proof. unfold generate_token at 1. simpl. by rewrite generate_token_cons_gen. Qed.

Lemma hex_digit_inj a b : a < 16 → b < 16 → hex_digit a = hex_digit b → a = b.
Proof.
  intros Ha Hb Heq. apply (f_equal nat_of_ascii) in Heq. unfold hex_digit in Heq.
  do 2 case_decide; rewrite !nat_ascii_embedding in Heq by lia; lia.
Qed.

Lemma generate_token_inj l1 l2 : Forall is_byte l1 → Forall is_byte l2 →
  generate_token l1 = generate_token l2 → l1 = l2.
Proof.
  intros H1. revert l2. induction H1 as [|a l1 Ha _ IH]; intros [|b l2] H2; rewrite ?generate_token_cons; try done.
  apply Forall_cons in H2 as [Hb H2]. unfold is_byte in *. unfold hex_byte. intros Heq.
  change (String (hex_digit (a / 16)) (String (hex_digit (a mod 16)) (generate_token l1)) =
          String (hex_digit (b / 16)) (String (hex_digit (b mod 16)) (generate_token l2))) in Heq.
  apply string_cons_inj in Heq as [Hhi [Hlo Htl]%string_cons_inj].
  apply hex_digit_inj in Hhi; [|apply Nat.Div0.div_lt_upper_bound; lia..].
  apply hex_digit_inj in Hlo; [|apply Nat.mod_upper_bound; lia..].
  f_equal; [|by apply IH]. rewrite (Nat.div_mod_eq a 16), (Nat.div_mod_eq b 16). congruence.
Qed.

Lemma length_generate_token bs : String.length (generate_token bs) = 2 * length bs.
Proof. induction bs as [|b bs IH]; [done|]. rewrite generate_token_cons, length_append, IH. simpl. lia. Qed.

(** ** Theorems *)

(** A token opens its own job and nothing else: after any sequence of
    issued and revoked tokens and grants, the middleware lets a request
    through exactly when its path names a job and its bearer token is the one
    issued last for that job and not revoked; a token is the hexadecimal form
    of the drawn bytes, two characters each, so tokens of different bytes
    differ. *)
Theorem middleware_spec parse_uuid path authorization evs :
  (worker_auth_middleware parse_uuid path authorization (token_run evs) = Ok tt ↔
   ∃ job token bytes, extract_job_id_from_path parse_uuid path = Some job ∧
     authorization = Some ("Bearer " +:+ token) ∧
     live_bytes job evs = Some bytes ∧ token = generate_token bytes) ∧
  (∀ b1 b2, Forall is_byte b1 → Forall is_byte b2 → generate_token b1 = generate_token b2 → b1 = b2) ∧
  (∀ b, String.length (generate_token b) = 2 * length b).
Proof.
  split; [|split; [apply generate_token_inj|apply length_generate_token]].
  unfold worker_auth_middleware, validate_token.
  destruct (extract_job_id_from_path parse_uuid path) as [job|]; [|naive_solver].
  destruct authorization as [v|]; cbn [mbind option_bind]; [|naive_solver].
  destruct (strip_prefix "Bearer " v) as [token|] eqn:Ht; last first.
  { split; [done|]. intros (? & token & ? & _ & [= ->] & _).
    by rewrite (proj2 (strip_prefix_iff "Bearer " _ token) eq_refl) in Ht. }
  apply strip_prefix_iff in Ht as ->. rewrite token_run_lookup.
  destruct (live_bytes job evs) as [bs|] eqn:Hl; simpl; last first.
  { split; [done|]. intros (? & ? & ? & [= <-] & _ & ? & _). congruence. }
  case_bool_decide as Hg; simpl.
  - split; [|done]. intros _. by exists job, token, bs.
  - split; [done|]. intros (? & token' & ? & [= <-] & Heq & ? & ->).
    apply (inj Some), (inj (String.append "Bearer ")) in Heq. congruence.
Qed.

(** Revocation is complete: right after a job is revoked no token opens it
    and it has no credentials left, while tokens and credentials of the other
    jobs are as before; and what is granted is what was stored last. *)
Theorem revoke_complete job evs :
  (∀ token, validate_token job token (revoke job (token_run evs)) = false) ∧
  get_grants job (revoke job (token_run evs)) = None ∧
  (∀ other token, other ≠ job →
     validate_token other token (revoke job (token_run evs)) = validate_token other token (token_run evs) ∧
     get_grants other (revoke job (token_run evs)) = live_grants other evs).
Proof.
  unfold validate_token, get_grants, revoke. simpl. rewrite !lookup_delete_eq. split_and!; try done.
  intros other token Hne. rewrite !lookup_delete_ne by done. split; [done|]. apply token_run_grants.
Qed.
