(* ===== verification/F64.v ===== *)
(** * F64: the floating-point arithmetic of the code

    [f64] and [f32] as the executable IEEE 754 specification of the Standard
    Library: 53 or 24 bits of precision, rounding to nearest even. *)

From Stdlib Require Import SpecFloat.
From S2P Require Import Prelude.
Local Open Scope Z_scope.

Definition f64 : Type := spec_float.

Definition f64_of_Z (z : Z) : f64 := binary_normalize 53 1024 z 0 false.
Definition f64_add (a b : f64) : f64 := SFadd 53 1024 a b.
Definition f64_sub (a b : f64) : f64 := SFsub 53 1024 a b.
Definition f64_mul (a b : f64) : f64 := SFmul 53 1024 a b.
Definition f64_div (a b : f64) : f64 := SFdiv 53 1024 a b.
Definition f64_ltb (a b : f64) : bool := SFltb a b.
Definition f64_leb (a b : f64) : bool := SFleb a b.

(** The literal for the decimal fraction [a/b]: division rounds correctly, so
    this is the double nearest to it. *)
Definition f64_ratio (a b : Z) : f64 := f64_div (f64_of_Z a) (f64_of_Z b).

(** The same for [f32]. *)
Definition f32 : Type := spec_float.
Definition f32_of_Z (z : Z) : f32 := binary_normalize 24 128 z 0 false.
Definition f32_add (a b : f32) : f32 := SFadd 24 128 a b.
Definition f32_mul (a b : f32) : f32 := SFmul 24 128 a b.
Definition f32_div (a b : f32) : f32 := SFdiv 24 128 a b.
Definition f32_min (a b : f32) : f32 := if SFltb b a then b else a.
Definition f32_ratio (a b : Z) : f32 := f32_div (f32_of_Z a) (f32_of_Z b).

(** [x as u32]: towards zero, saturating, zero for a NaN. *)
Definition f32_to_u32 (x : f32) : Z :=
  match x with
  | S754_finite false m e =>
      Z.min u32_max (if 0 <=? e then Z.pos m * 2 ^ e else Z.pos m / 2 ^ (- e))
  | S754_infinity false => u32_max
  | _ => 0
  end.

(** [x as usize]: towards zero, saturating, zero for a NaN. *)
Definition f64_to_usize (x : f64) : Z :=
  match x with
  | S754_finite false m e =>
      Z.min u64_max (if 0 <=? e then Z.pos m * 2 ^ e else Z.pos m / 2 ^ (- e))
  | S754_infinity false => u64_max
  | _ => 0
  end.

(** [x.clamp(lo, hi)] *)
Definition f64_clamp (lo hi x : f64) : f64 :=
  if f64_ltb x lo then lo else if f64_ltb hi x then hi else x.

(** The value of a finite float, towards zero. *)
Lemma float_value_nonneg m e : 0 ≤ (if 0 <=? e then Z.pos m * 2 ^ e else Z.pos m / 2 ^ (- e)).
Proof.
  case_match; [apply Z.mul_nonneg_nonneg; [lia|apply Z.pow_nonneg; lia]|].
  apply Z.div_pos; [lia|]. apply Z.pow_pos_nonneg; zify_bool; lia.
Qed.

Lemma f32_to_u32_range x : in_u32 (f32_to_u32 x).
Proof.
  unfold in_u32, f32_to_u32, u32_max.
  destruct x as [s|s| |s m e]; try destruct s; simpl; try lia.
  pose proof (float_value_nonneg m e). lia.
Qed.

Lemma f64_to_usize_range x : in_u64 (f64_to_usize x).
Proof.
  unfold in_u64, f64_to_usize, u64_max.
  destruct x as [s|s| |s m e]; try destruct s; simpl; try lia.
  pose proof (float_value_nonneg m e). lia.
Qed.

#[export] Hint Resolve f64_to_usize_range f32_to_u32_range : iron.

(** ** Parsing *)

(** The double nearest to [m * 10^e]: a quotient with more bits than the precision and a
    sticky bit for the remainder is rounded once. *)
Definition f64_of_decimal (m e : Z) : f64 :=
  if 0 <=? e then f64_of_Z (m * 10 ^ e)
  else
    let d := 10 ^ (- e) in
    let k := Z.max 0 (Z.log2 d - Z.log2 m + 56) in
    let q := m * 2 ^ k / d in
    let sticky := if m * 2 ^ k mod d =? 0 then 0 else 1 in
    binary_normalize 53 1024 (2 * q + sticky) (- (k + 1)) false.

Definition f64_is_finite (x : f64) : bool :=
  match x with S754_zero _ | S754_finite _ _ _ => true | _ => false end.
