(* ===== verification/ContextMonitor.v ===== *)
(** * ContextMonitor: token estimates and compaction triggers

    [src/agent/context_monitor.rs].  [usize] sums wrap at 64 bits, as in a
    release build. *)

From S2P Require Import Prelude Text TextSearch Provider F64.
Local Open Scope Z_scope.

(** ** Data *)

Definition DEFAULT_CONTEXT_LIMIT : Z := 100000.
Definition COMPACTION_THRESHOLD : f64 := f64_ratio 8 10.
Definition TOKENS_PER_WORD : f64 := f64_ratio 13 10.

Inductive CompactionStrategy : Type :=
| Summarize (keep_recent : nat)
| Truncate (keep_recent : nat)
| MoveToWorkspace.

Definition strategy_default : CompactionStrategy := Summarize 5.

Record ContextMonitor : Type := mkMonitor {
  context_limit : Z;
  threshold_ratio : f64
}.

Definition monitor_new : ContextMonitor := mkMonitor DEFAULT_CONTEXT_LIMIT COMPACTION_THRESHOLD.

Definition with_limit (limit : Z) (m : ContextMonitor) : ContextMonitor :=
  mkMonitor limit (threshold_ratio m).

Definition with_threshold (ratio : f64) (m : ContextMonitor) : ContextMonitor :=
  mkMonitor (context_limit m) (f64_clamp (f64_ratio 5 10) (f64_ratio 95 100) ratio).

(** ** Estimates *)

Definition word_count (s : string) : Z := Z.of_nat (length (split_whitespace s)).

Definition estimate_text_tokens (text : string) : Z :=
  f64_to_usize (f64_mul (f64_of_Z (word_count text)) TOKENS_PER_WORD).

Definition estimate_message_tokens (m : ChatMessage) : Z :=
  wrap64 (f64_to_usize (f64_mul (f64_of_Z (word_count (content m))) TOKENS_PER_WORD) + 4).

Definition sum64 (l : list Z) : Z := foldl (fun acc x => wrap64 (acc + x)) 0 l.

Definition estimate_tokens (messages : list ChatMessage) : Z :=
  sum64 (estimate_message_tokens <$> messages).

(** ** Triggers *)

Definition threshold (m : ContextMonitor) : Z :=
  f64_to_usize (f64_mul (f64_of_Z (context_limit m)) (threshold_ratio m)).

Definition needs_compaction (m : ContextMonitor) (messages : list ChatMessage) : bool :=
  let tokens := estimate_tokens messages in
  let threshold := f64_to_usize (f64_mul (f64_of_Z (context_limit m)) (threshold_ratio m)) in
  threshold <=? tokens.

Definition usage_percent (m : ContextMonitor) (messages : list ChatMessage) : f64 :=
  f64_mul (f64_div (f64_of_Z (estimate_tokens messages)) (f64_of_Z (context_limit m)))
    (f64_of_Z 100).

Definition suggest_compaction (m : ContextMonitor) (messages : list ChatMessage)
    : option CompactionStrategy :=
  if negb (needs_compaction m messages) then None
  else
    let tokens := estimate_tokens messages in
    let overage := f64_div (f64_of_Z tokens) (f64_of_Z (context_limit m)) in
    if f64_ltb (f64_ratio 95 100) overage then Some (Truncate 3)
    else if f64_ltb (f64_ratio 85 100) overage then Some (Summarize 5)
    else Some MoveToWorkspace.

(** ** Breakdown *)

Record ContextBreakdown : Type := mkBreakdown {
  total_tokens : Z;
  system_tokens : Z;
  user_tokens : Z;
  assistant_tokens : Z;
  tool_tokens : Z;
  message_count : nat
}.

Definition add_message (b : ContextBreakdown) (m : ChatMessage) : ContextBreakdown :=
  let tokens := estimate_message_tokens m in
  let total := wrap64 (total_tokens b + tokens) in
  match role m with
  | System => mkBreakdown total (wrap64 (system_tokens b + tokens)) (user_tokens b)
                (assistant_tokens b) (tool_tokens b) (message_count b)
  | User => mkBreakdown total (system_tokens b) (wrap64 (user_tokens b + tokens))
              (assistant_tokens b) (tool_tokens b) (message_count b)
  | Assistant => mkBreakdown total (system_tokens b) (user_tokens b)
                   (wrap64 (assistant_tokens b + tokens)) (tool_tokens b) (message_count b)
  | Tool => mkBreakdown total (system_tokens b) (user_tokens b) (assistant_tokens b)
              (wrap64 (tool_tokens b + tokens)) (message_count b)
  end.

Definition analyze (messages : list ChatMessage) : ContextBreakdown :=
  foldl add_message (mkBreakdown 0 0 0 0 0 (length messages)) messages.

(** ** Lemmas *)

Lemma wrap64_add_l a b : wrap64 (wrap64 a + b) = wrap64 (a + b).
Proof. unfold wrap64. by rewrite Zplus_mod_idemp_l. Qed.

Lemma wrap64_add_r a b : wrap64 (a + wrap64 b) = wrap64 (a + b).
Proof. unfold wrap64. by rewrite Zplus_mod_idemp_r. Qed.

Lemma wrap64_idem a : wrap64 (wrap64 a) = wrap64 a.
Proof. unfold wrap64. by rewrite Z.mod_mod. Qed.

Lemma wrap64_range z : in_u64 (wrap64 z).
Proof. unfold in_u64, wrap64. apply Z.mod_pos_bound. lia. Qed.

Definition parts (b : ContextBreakdown) : Z :=
  system_tokens b + user_tokens b + assistant_tokens b + tool_tokens b.

(** Adding a message keeps the total equal to the parts, up to wrap-around. *)
Lemma add_message_parts b m :
  wrap64 (total_tokens b) = wrap64 (parts b) →
  wrap64 (total_tokens (add_message b m)) = wrap64 (parts (add_message b m)).
Proof.
  unfold add_message. generalize (estimate_message_tokens m) as t. intros t Hb.
  destruct (role m); unfold parts, wrap64 in *; cbn [total_tokens system_tokens user_tokens
    assistant_tokens tool_tokens] in *; change (2 ^ 64) with 18446744073709551616 in *;
    Z.to_euclidean_division_equations; lia.
Qed.

Lemma total_tokens_add b m :
  total_tokens (add_message b m) = wrap64 (total_tokens b + estimate_message_tokens m).
Proof. unfold add_message. by destruct (role m). Qed.

Lemma message_count_add b m : message_count (add_message b m) = message_count b.
Proof. unfold add_message. by destruct (role m). Qed.

(** The breakdown is complete: its total is the estimate of the monitor, it
    is the sum of the four roles, and it counts every message. *)
Theorem analyze_complete messages :
  let b := analyze messages in
  total_tokens b = estimate_tokens messages ∧
  total_tokens b = wrap64 (system_tokens b + user_tokens b + assistant_tokens b + tool_tokens b) ∧
  message_count b = length messages.
Proof.
  set (b0 := mkBreakdown 0 0 0 0 0 (length messages)).
  assert (∀ b, total_tokens b = wrap64 (total_tokens b) →
            wrap64 (total_tokens b) = wrap64 (parts b) →
            let b' := foldl add_message b messages in
            total_tokens b' = foldl (fun acc x => wrap64 (acc + x)) (total_tokens b)
                                (estimate_message_tokens <$> messages) ∧
            total_tokens b' = wrap64 (parts b') ∧ message_count b' = message_count b) as H.
  { clear b0. induction messages as [|m ms IH]; intros b Hb Hp.
    { simpl. rewrite Hp in Hb. done. }
    cbn [foldl fmap list_fmap]. destruct (IH (add_message b m)) as (H1 & H2 & H3).
    - by rewrite total_tokens_add, wrap64_idem.
    - by apply add_message_parts.
    - rewrite total_tokens_add in H1. rewrite message_count_add in H3. done. }
  apply (H b0); done.
Qed.

(** A compaction is suggested exactly from the threshold on: truncation above
    95 % of the limit, a summary above 85 %, else archiving. *)
Theorem suggest_compaction_spec m messages :
  let tokens := estimate_tokens messages in
  let ratio := f64_div (f64_of_Z tokens) (f64_of_Z (context_limit m)) in
  (suggest_compaction m messages = None ↔ tokens < threshold m) ∧
  (suggest_compaction m messages = Some (Truncate 3) ↔
     threshold m ≤ tokens ∧ f64_ltb (f64_ratio 95 100) ratio = true) ∧
  (suggest_compaction m messages = Some (Summarize 5) ↔
     threshold m ≤ tokens ∧ f64_ltb (f64_ratio 95 100) ratio = false ∧
     f64_ltb (f64_ratio 85 100) ratio = true) ∧
  (suggest_compaction m messages = Some MoveToWorkspace ↔
     threshold m ≤ tokens ∧ f64_ltb (f64_ratio 95 100) ratio = false ∧
     f64_ltb (f64_ratio 85 100) ratio = false).
Proof.
  intros tokens ratio. unfold suggest_compaction, needs_compaction. fold tokens. fold (threshold m).
  fold ratio. generalize (f64_ltb (f64_ratio 95 100) ratio) as hi.
  generalize (f64_ltb (f64_ratio 85 100) ratio) as lo. generalize (threshold m) as th.
  clearbody ratio tokens. intros th lo hi.
  destruct (Z.leb_spec th tokens), hi, lo; simpl; naive_solver lia.
Qed.

Example default_threshold : threshold monitor_new = 80000.
Proof. vm_compute. reflexivity. Qed.
