(* ===== verification/Compaction.v ===== *)
(** * Compaction: shortening a thread without losing it

    [src/agent/compaction.rs].  The workspace is the class [Workspace] over its
    state; [date] and [time] are the readings of the wall clock in the two
    formats of the source.  The crate's error is [LlmError] where the provider
    fails; archival errors are the workspace's own and only logged. *)

From S2P Require Import Prelude Text TextSearch Provider Session ReplyText Prompts Reasoning.
From S2P Require Import F64 ContextMonitor.
From stdpp Require Import pretty.

(** ** Data *)

(** The one operation of [src/workspace/mod.rs] that compaction uses: append to
    a file. *)
Class Workspace (E W : Type) := {
  ws_append : string -> string -> W -> Result E unit * W
}.

Record CompactionResult : Type := mkCompactionResult {
  turns_removed : nat;
  tokens_before : Z;
  tokens_after : Z;
  summary_written : bool;
  summary : option string
}.

Record CompactionPartial : Type := mkPartial {
  cp_turns_removed : nat;
  cp_summary_written : bool;
  cp_summary : option string
}.

Definition partial_empty : CompactionPartial := mkPartial 0 false None.

(** ** Formatting *)

Definition format_turn (t : Turn) : string :=
  cat ["**Turn "; show_nat (turn_number t + 1); "**"; nl_str;
       "User: "; user_input t; nl_str;
       match response t with Some r => cat ["Agent: "; r; nl_str] | None => "" end;
       match turn_tool_calls t with
       | [] => ""
       | calls => cat ["Tools: "; str_join ", " (ttc_name <$> calls); nl_str]
       end].

Definition format_turns_for_storage (ts : list Turn) : string :=
  str_join nl_str (format_turn <$> ts).

Definition SUMMARY_PROMPT : string := cat [
  "Summarize the following conversation concisely. Focus on:"; nl_str;
  "- Key decisions made"; nl_str;
  "- Important information exchanged"; nl_str;
  "- Actions taken"; nl_str;
  "- Outcomes achieved"; nl2;
  "Be brief but capture all important details. Use bullet points."].

Definition format_message (m : ChatMessage) : string :=
  match role m with
  | User => cat ["User: "; content m]
  | Assistant => cat ["Assistant: "; content m]
  | System => cat ["System: "; content m]
  | Tool => cat ["Tool "; default "unknown" (name m); ": "; content m]
  end.

Definition summary_request (ms : list ChatMessage) : CompletionRequest :=
  mkRequest [system SUMMARY_PROMPT;
             user (cat ["Please summarize this conversation:"; nl2;
                        str_join nl2 (format_message <$> ms)])]
    None (Some 1024%Z) (Some f32_0_3) None ∅.

(** The messages of the turns to be summarized. *)
Definition turn_pair (t : Turn) : list ChatMessage :=
  user (user_input t) :: match response t with Some r => [assistant r] | None => [] end.

(** ** The compactor *)

Section compactor.
  Context {EW W : Type} `{Workspace EW W} `{LlmProvider P} `{RegexEngine}.
  Variable json_to_string : Json -> string.
  Variables date time : string.

Definition generate_summary (ms : list ChatMessage) (p : P) (w : World)
    : Result LlmError string * P * World :=
  let r := with_model_name (active_model_name p) (reasoning_new p) in
  let '(res, r', w') := reasoning_complete (summary_request ms) r w in
  (map_ok (fun x => Ok x.1) res, llm r', w').

Definition write_entry (heading body : string) (ws : W) : Result EW unit * W :=
  ws_append (cat ["daily/"; date; ".md"])
    (cat [nl_str; "## "; heading; " ("; time; ")"; nl2; body; nl_str]) ws.

Definition write_summary_to_workspace (summary : string) (ws : W) : Result EW unit * W :=
  write_entry "Context Summary" summary ws.

Definition write_context_to_workspace (body : string) (ws : W) : Result EW unit * W :=
  write_entry "Archived Context" body ws.

Definition compact_truncate (keep_recent : nat) (th : Thread) : CompactionPartial * Thread :=
  let th' := truncate_turns keep_recent th in
  (mkPartial (length (turns th) - length (turns th')) false None, th').

(** The result, the thread, the workspace, the provider and the world after. *)
Abbreviation Outcome A :=
  (Result LlmError A * Thread * option W * P * World)%type.

Definition compact_with_summary (keep_recent : nat) (th : Thread) (ws : option W) (p : P) (w : World)
    : Outcome CompactionPartial :=
  if decide (length (turns th) ≤ keep_recent) then (Ok partial_empty, th, ws, p, w)
  else
    let turns_to_remove := length (turns th) - keep_recent in
    let old_turns := take turns_to_remove (turns th) in
    let '(res, p, w) := generate_summary (flat_map turn_pair old_turns) p w in
    match res with
    | Err e => (Err e, th, ws, p, w)
    | Ok summary =>
        match ws with
        | Some s =>
            match write_summary_to_workspace summary s with
            | (Ok _, s') =>
                (Ok (mkPartial turns_to_remove true (Some summary)), truncate_turns keep_recent th,
                 Some s', p, w)
            | (Err _, s') => (Ok (mkPartial 0 false (Some summary)), th, Some s', p, w)
            end
        | None =>
            (Ok (mkPartial turns_to_remove false (Some summary)), truncate_turns keep_recent th,
             None, p, w)
        end
    end.

Definition compact_to_workspace (th : Thread) (ws : option W)
    : CompactionPartial * Thread * option W :=
  match ws with
  | None => (compact_truncate 5 th, None)
  | Some s =>
      let keep_recent := 10 in
      if decide (length (turns th) ≤ keep_recent) then (partial_empty, th, Some s)
      else
        let turns_to_remove := length (turns th) - keep_recent in
        let body := format_turns_for_storage (take turns_to_remove (turns th)) in
        match write_context_to_workspace body s with
        | (Ok _, s') => (mkPartial turns_to_remove true None, truncate_turns keep_recent th, Some s')
        | (Err _, s') => (mkPartial 0 false None, th, Some s')
        end
  end.

Definition thread_tokens (th : Thread) : Z :=
  total_tokens (analyze (messages json_to_string th)).

Definition finish_compaction (before : Z) (part : CompactionPartial) (th : Thread)
    : CompactionResult :=
  mkCompactionResult (cp_turns_removed part) before (thread_tokens th) (cp_summary_written part)
    (cp_summary part).

Definition compact (th : Thread) (strategy : CompactionStrategy) (ws : option W) (p : P) (w : World)
    : Outcome CompactionResult :=
  let before := thread_tokens th in
  match strategy with
  | Summarize keep_recent =>
      let '(res, th', ws', p', w') := compact_with_summary keep_recent th ws p w in
      (map_ok (fun part => Ok (finish_compaction before part th')) res, th', ws', p', w')
  | Truncate keep_recent =>
      let '(part, th') := compact_truncate keep_recent th in
      (Ok (finish_compaction before part th'), th', ws, p, w)
  | MoveToWorkspace =>
      let '(part, th', ws') := compact_to_workspace th ws in
      (Ok (finish_compaction before part th'), th', ws', p, w)
  end.

End compactor.

(** ** Theorems *)

Lemma length_truncate_turns k th :
  length (turns (truncate_turns k th)) = min k (length (turns th)).
Proof.
  unfold truncate_turns. case_decide; simpl; [|lia].
  unfold map_enum. rewrite length_imap, length_drop. lia.
Qed.

(** What a turn says is in its stored form. *)
Lemma format_turn_contains t :
  contains (user_input t) (format_turn t) = true ∧
  ∀ r, response t = Some r → contains r (format_turn t) = true.
Proof.
  unfold format_turn. split.
  - apply cat_contains. set_solver.
  - intros r ->. apply (contains_trans _ (cat ["Agent: "; r; nl_str])); apply cat_contains; set_solver.
Qed.

Lemma format_turns_contains ts t :
  t ∈ ts → contains (format_turn t) (format_turns_for_storage ts) = true.
Proof. intros Ht. apply str_join_in, list_elem_of_fmap. eauto. Qed.

Section compactor_facts.
  Context {EW W : Type} `{Workspace EW W} `{LlmProvider P} `{RegexEngine}.
  Variable json_to_string : Json -> string.
  Variables date time : string.

(** The account of a compaction is exact: the thread is unchanged or cut to
    its most recent turns, the number of removed turns and the token counts are
    those of the two threads, and after an error nothing was removed. *)
Theorem compact_accounts th strategy (ws : option W) (p : P) w :
  let '(res, th', _, _, _) := compact json_to_string date time th strategy ws p w in
  (th' = th ∨ ∃ keep, th' = truncate_turns keep th) ∧
  match res with
  | Ok r => turns_removed r + length (turns th') = length (turns th) ∧
            tokens_before r = thread_tokens json_to_string th ∧
            tokens_after r = thread_tokens json_to_string th'
  | Err _ => th' = th
  end.
Proof.
  unfold compact. destruct strategy as [keep|keep|].
  - unfold compact_with_summary. case_decide as Hlen; [by split; [left|]|].
    destruct (generate_summary _ p w) as [[[sm|e] p'] w']; [|by split; [left|]].
    destruct ws as [s|].
    + destruct (write_summary_to_workspace _ _ sm s) as [[u|e] s']; [|by split; [left|]].
      split; [by eauto|]. simpl. rewrite length_truncate_turns. repeat split; lia.
    + split; [by eauto|]. simpl. rewrite length_truncate_turns. repeat split; lia.
  - simpl. split; [by eauto|]. rewrite length_truncate_turns. repeat split; lia.
  - unfold compact_to_workspace. destruct ws as [s|].
    + case_decide as Hlen; [by split; [left|]|].
      destruct (write_context_to_workspace _ _ _ s) as [[u|e] s']; [|by split; [left|]].
      split; [by eauto|]. simpl. rewrite length_truncate_turns. repeat split; lia.
    + simpl. split; [by eauto|]. rewrite length_truncate_turns. repeat split; lia.
Qed.

(** With a workspace, turns are dropped only after an append to the daily log
    succeeded: archiving writes an entry with the input and the response of every
    dropped turn, summarizing one with the generated summary. *)
Theorem archived_before_dropped th strategy (s : W) (p : P) w :
  (∀ k, strategy ≠ Truncate k) →
  let '(res, th', ws', _, _) := compact json_to_string date time th strategy (Some s) p w in
  th' = th ∨
  ∃ keep entry s' u, th' = truncate_turns keep th ∧ ws' = Some s' ∧
    ws_append (cat ["daily/"; date; ".md"]) entry s = (Ok u, s') ∧
    match strategy with
    | MoveToWorkspace =>
        Forall (fun t => contains (user_input t) entry = true ∧
                         ∀ r, response t = Some r → contains r entry = true)
          (take (length (turns th) - keep) (turns th))
    | _ => ∃ sm, (generate_summary (flat_map turn_pair (take (length (turns th) - keep) (turns th)))
                    p w).1.1 = Ok sm ∧ contains sm entry = true
    end.
Proof.
  intros Hstrat. unfold compact. destruct strategy as [keep|keep|].
  - unfold compact_with_summary. case_decide as Hlen; [by left|].
    destruct (generate_summary _ p w) as [[[sm|e] p'] w'] eqn:Hg; [|by left].
    destruct (write_summary_to_workspace _ _ sm s) as [[u|e] s'] eqn:Hw; [|by left].
    right. eexists keep, _, s', u. split_and!; [done|done|exact Hw|].
    exists sm. rewrite Hg. split; [done|]. apply cat_contains. set_solver.
  - by destruct (Hstrat keep).
  - unfold compact_to_workspace. case_decide as Hlen; [by left|].
    destruct (write_context_to_workspace _ _ _ s) as [[u|e] s'] eqn:Hw; [|by left].
    right. eexists 10, _, s', u. split_and!; [done|done|exact Hw|].
    apply Forall_forall. intros t Ht. destruct (format_turn_contains t) as [Hu Hr].
    assert (∀ x, contains x (format_turn t) = true →
            contains x (cat [nl_str; "## "; "Archived Context"; " ("; time; ")"; nl2;
              format_turns_for_storage (take (length (turns th) - 10) (turns th)); nl_str]) = true) as Hin.
    { intros x Hx. eapply contains_trans; [exact Hx|].
      eapply contains_trans; [by apply format_turns_contains|]. apply cat_contains. set_solver. }
    split; [by apply Hin|]. intros r Hr'. apply Hin. by apply Hr.
Qed.

End compactor_facts.

(** ** Witnesses *)

#[export] Instance list_workspace : Workspace unit (list (string * string)) := {|
  ws_append := fun path entry l => (Ok tt, l ++ [(path, entry)])
|}.

Definition silent_provider : LlmProvider (H := pico_decimal) unit := {|
  model_name := fun _ => "silent";
  cost_per_token := fun _ => (0%Z, 0%Z);
  complete := fun _ p w => (Err (EmptyResponse "silent"), p, w);
  complete_with_tools := fun _ p w => (Err (EmptyResponse "silent"), p, w);
  list_models := fun p w => (Ok [], p, w);
  model_metadata := fun p w => (default_model_metadata "silent", p, w);
  effective_model_name := fun rq p => (default_effective_model_name rq "silent", p);
  active_model_name := fun _ => "silent";
  set_model := fun _ p => (default_set_model, p);
  calculate_cost := fun i o _ => default_calculate_cost (0%Z, 0%Z) i o;
  cache_write_multiplier := fun _ => dec_one;
  cache_read_discount := fun _ => dec_one
|}.

Definition long_thread : Thread :=
  thread_with demo_thread (thread_state demo_thread)
    ((fun n => turn_new 0 n "hello") <$> seq 0 12) 0 None None [].

Lemma archived_before_dropped_witness :
  let '(_, th', ws', _, _) :=
    compact (H := list_workspace) (H0 := pico_decimal) (H1 := silent_provider) (H2 := demo_engine) demo_printer "2026-01-01" "10:00 UTC"
      long_thread MoveToWorkspace (Some []) tt (mkWorld (fun _ => 0%Z) 0 (fun _ => 0%Z) 0 []) in
  length (turns th') = 10 ∧
  (th' = long_thread ∨ ∃ keep entry s' u, th' = truncate_turns keep long_thread ∧ ws' = Some s' ∧
     ws_append "daily/2026-01-01.md" entry [] = (Ok u, s') ∧
     Forall (fun t => contains (user_input t) entry = true ∧
                      ∀ r, response t = Some r → contains r entry = true)
       (take (length (turns long_thread) - keep) (turns long_thread))).
Proof.
  split; [vm_compute; reflexivity|].
  apply (archived_before_dropped (H := list_workspace) (H0 := pico_decimal) (H1 := silent_provider) (H2 := demo_engine)
           demo_printer "2026-01-01" "10:00 UTC" long_thread MoveToWorkspace [] tt
           (mkWorld (fun _ => 0%Z) 0 (fun _ => 0%Z) 0 [])).
  discriminate.
Defined.
