(* ===== verification/SmartRouting.v ===== *)
(** * SmartRouting: cheap or primary model by task complexity

    [src/llm/smart_routing.rs].  The regex crate is [RegexEngine] of [ReplyText],
    called with the patterns of the source; a compiled regex is its pattern.  The
    scores are [f32] arithmetic as in the source.  Unicode lower-casing is a
    parameter. *)

From Stdlib Require Import Ascii.
From stdpp Require Import pretty.
From S2P Require Import Prelude Text TextSearch Provider F64 ReplyText.
Local Open Scope Z_scope.

(** ** Tiers *)

Inductive Tier : Type := Flash | Standard | Pro | Frontier.

Definition from_score (score : Z) : Tier :=
  if (0 <=? score) && (score <=? 15) then Flash
  else if (16 <=? score) && (score <=? 40) then Standard
  else if (41 <=? score) && (score <=? 65) then Pro
  else Frontier.

Definition to_score (t : Tier) : Z :=
  match t with Flash => 8 | Standard => 28 | Pro => 52 | Frontier => 80 end.

Definition tier_as_str (t : Tier) : string :=
  match t with Flash => "flash" | Standard => "standard" | Pro => "pro" | Frontier => "frontier" end.

Record ScorerWeights : Type := mkWeights {
  wt_reasoning_words : f32; wt_token_estimate : f32; wt_code_indicators : f32;
  wt_multi_step : f32; wt_domain_specific : f32; wt_ambiguity : f32; wt_creativity : f32;
  wt_precision : f32; wt_context_dependency : f32; wt_tool_likelihood : f32;
  wt_safety_sensitivity : f32; wt_question_complexity : f32; wt_sentence_complexity : f32
}.

Definition weights_default : ScorerWeights :=
  let c n := f32_ratio n 100 in
  mkWeights (c 14) (c 12) (c 10) (c 10) (c 10) (c 5) (c 7) (c 6) (c 5) (c 5) (c 4) (c 7) (c 5).

Definition DEFAULT_DOMAIN_KEYWORDS : list string :=
  ["kubernetes"; "k8s"; "docker"; "terraform"; "nginx"; "apache"; "linux"; "unix"; "bash";
   "shell"; "solidity"; "rust"; "typescript"; "react"; "nextjs"; "vue"; "angular"; "svelte";
   "postgresql"; "postgres"; "mysql"; "mongodb"; "redis"; "graphql"; "grpc"; "protobuf";
   "websocket"; "oauth"; "jwt"; "cors"; "csrf"; "xss"; "sql.?injection"; "api"; "rest";
   "http"; "https"; "tcp"; "udp"; "dns"; "cdn"; "aws"; "gcp"; "azure"; "vercel"; "netlify";
   "cloudflare"; "ci/cd"; "devops"; "git"; "github"; "gitlab"; "blockchain"; "web3"; "defi";
   "nft"; "smart.?contract"; "ethereum"; "evm"; "anchor"; "near"; "near.?sdk"; "near.?api";
   "testnet"; "mainnet"; "meteor"; "ledger"; "cold.?wallet"; "rpc"; "indexer"; "relayer";
   "cross.?chain"; "intents"; "fogo"; "svm"; "firedancer"; "paymaster"; "gasless";
   "sessions.?sdk"; "cargo.?near"; "workspaces"; "sandbox"; "lobo"; "trezu"; "multisig";
   "treasury"; "openclaw"; "ironclaw"].

Record ScoreBreakdown : Type := mkScore {
  total : Z;
  tier : Tier;
  components : gmap string Z;
  hints : list string
}.

(** ** Patterns *)

Definition RE_REASONING : string :=
  "(?i)\b(why|how|explain|analyze|analyse|compare|contrast|evaluate|assess|reason|think|consider|implications?|consequences?|trade-?offs?|pros?\s*(and|&)\s*cons?|advantages?|disadvantages?|benefits?|drawbacks?|differs?|difference|versus|vs\.?|better|worse|optimal|best|worst)\b".

Definition RE_MULTI_STEP : string :=
  "(?i)\b(first|then|next|after|before|finally|step|steps|phase|stages?|process|workflow|sequence|procedure|pipeline|chain|series|order|followed by)\b".

Definition RE_CREATIVITY : string :=
  "(?i)\b(write|create|generate|compose|design|imagine|brainstorm|ideate|draft|invent|story|poem|essay|article|blog|content|narrative|script|summarize|summarise|rewrite|paraphrase|translate|adapt|tweet|post|thread|outline|structure|format|style|tone|voice)\b".

Definition RE_PRECISION : string :=
  "(?i)\b(\d{4}|\d+\.\d+|exactly|precisely|specific|accurate|correct|verify|confirm|date|time|number|calculate|compute|measure|count)\b".

Definition RE_CODE : string :=
  "(?i)(`{1,3}|```|function|const|let|var|import|export|class|def |async|await|=>|\.ts|\.js|\.py|\.rs|\.go|\.sol|\(\)|\[\]|\{\}|<[A-Z][a-z]+>|useState|useEffect|npm|yarn|pnpm|cargo|pip|implement|rebase|merge|commit|branch|PR|pull.?request|columns?|migrations?|module|refactor|debug|fix|bug|error|schema|database|query)".

Definition RE_TOOL : string :=
  "(?i)\b(file|read|write|search|fetch|run|execute|check|look up|find|open|save|send|post|get|download|upload|install|deploy|build|compile|test|add|update|remove|delete|modify|change|edit|create|resolve|push|pull|clone)\b".

Definition RE_SAFETY : string :=
  "(?i)\b(password|secret|private|confidential|medical|legal|financial|personal|sensitive|ssn|credit.?card|auth|token|key|encrypt|decrypt|hash|vulnerability|exploit|attack|breach)\b".

Definition RE_CONTEXT : string :=
  "(?i)\b(previous|earlier|above|before|last|that|those|it|they|we discussed|you said|mentioned|remember|recall|as I said|like I mentioned)\b".

Definition RE_VAGUE : string :=
  "(?i)\b(it|this|that|something|stuff|thing|things)\b".

Definition RE_OPEN_ENDED : string :=
  "(?i)\b(why|how|what if|explain|describe|elaborate|discuss)\b".

Definition RE_CONJUNCTIONS : string :=
  "(?i)\b(and|but|or|however|therefore|because|although|while|whereas|moreover|furthermore)\b".

Definition RE_TIER_HINT : string :=
  "(?i)\[tier:(flash|standard|pro|frontier)\]".

(** A pattern override. *)
Definition DEFAULT_OVERRIDES : list (string * Tier) :=
  [("(?i)^(hi|hello|hey|thanks|ok|sure|yes|no|yep|nope|cool|nice|great|got it)$", Flash);
   ("(?i)^what(?:'s|\s+is)?\s+(?:the\s+)?(time|date|day|weather)\b(?:\s+(?:is\s+it|today|now|in\s+\S+))?[?.!]*$", Flash);
   ("(?i)security.*(audit|review|scan)", Frontier);
   ("(?i)vulnerabilit(y|ies).*(review|scan|check|audit)", Frontier);
   ("(?i)deploy.*(mainnet|production)", Pro);
   ("(?i)production.*(deploy|release|push)", Pro)].

Definition UNCERTAINTY_PATTERNS : list string :=
  ["i'm not sure"; "i am not sure"; "i don't know"; "i do not know"; "i'm unable to";
   "i am unable to"; "i cannot"; "i can't"; "beyond my capabilities"; "beyond my ability";
   "i'm not able to"; "i am not able to"; "i don't have enough"; "i do not have enough";
   "i need more context"; "i need more information"; "could you clarify";
   "could you provide more"; "i'm not confident"; "i am not confident"].

(** ** Scoring *)

Section scoring.
  Context `{RegexEngine}.
  Variable to_lowercase : string -> string.

Definition domain_pattern (keywords : list string) : string :=
  cat ["(?i)\b("; str_join "|" keywords; ")\b"].

Definition RE_DOMAIN_DEFAULT : string := domain_pattern DEFAULT_DOMAIN_KEYWORDS.

Definition build_domain_regex (keywords : list string) : string :=
  match keywords with
  | [] => RE_DOMAIN_DEFAULT
  | _ => let pattern := domain_pattern keywords in
         if regex_valid pattern then pattern else "(?i)\b(api|code|deploy)\b"
  end.

Definition count_matches (re text : string) : Z := Z.of_nat (length (find_iter re text)).

(** [text.matches(c).count()] *)
Fixpoint count_char (c : ascii) (s : string) : Z :=
  match s with
  | EmptyString => 0
  | String d r => (if ascii_dec c d then 1 else 0) + count_char c r
  end.

(** [x as i32] *)
Definition wrap_i32 (z : Z) : Z := (z + 2 ^ 31) mod 2 ^ 32 - 2 ^ 31.

Definition token_score (char_count : Z) : Z :=
  f32_to_u32 (f32_min (f32_div (f32_of_Z (Z.max (wrap_i32 (wrap_i32 char_count - 20)) 0))
                         (f32_of_Z 5)) (f32_of_Z 100)).

Definition capped (n per : Z) : Z := Z.min (n * per) 100.

Definition tier_of_hint (s : string) : Tier :=
  let lower := to_lowercase s in
  if bool_decide (lower = "flash") then Flash
  else if bool_decide (lower = "standard") then Standard
  else if bool_decide (lower = "pro") then Pro
  else if bool_decide (lower = "frontier") then Frontier
  else Standard.

(** [components.insert(name, score)] for every dimension, in the order of the
    source. *)
Definition dimensions (prompt domain_regex : string) : list (string * Z) :=
  let n re := count_matches re prompt in
  [("token_estimate", token_score (Z.of_nat (String.length prompt)));
   ("reasoning_words", capped (n RE_REASONING) 50);
   ("multi_step", capped (n RE_MULTI_STEP) 50);
   ("creativity", capped (n RE_CREATIVITY) 50);
   ("precision", capped (n RE_PRECISION) 50);
   ("code_indicators", capped (n RE_CODE) 50);
   ("tool_likelihood", capped (n RE_TOOL) 50);
   ("safety_sensitivity", capped (n RE_SAFETY) 50);
   ("context_dependency", capped (n RE_CONTEXT) 50);
   ("domain_specific", capped (n domain_regex) 50);
   ("ambiguity", capped (n RE_VAGUE) 25);
   ("question_complexity",
      Z.min (count_char "?"%char prompt * 20 + n RE_OPEN_ENDED * 25) 100);
   ("sentence_complexity",
      capped (count_char ","%char prompt + count_char ";"%char prompt * 2 + n RE_CONJUNCTIONS) 12)].

Definition hint_if (b : bool) (h : string) : list string := if b then [h] else [].
Definition show_Z (z : Z) : string := pretty z.

Definition score_hints (prompt domain_regex : string) (triggered : Z) : list string :=
  let n re := count_matches re prompt in
  let len := Z.of_nat (String.length prompt) in
  let matches nm re least := hint_if (least <=? n re) (cat [nm; ": "; show_Z (n re); " matches"]) in
  let questions := count_char "?"%char prompt in
  let clauses := count_char ","%char prompt + count_char ";"%char prompt * 2 + n RE_CONJUNCTIONS in
  hint_if (200 <? len) (cat ["Long prompt ("; show_Z len; " chars)"]) ++
  matches "reasoning_words" RE_REASONING 2 ++ matches "multi_step" RE_MULTI_STEP 2 ++
  matches "creativity" RE_CREATIVITY 2 ++ matches "code_indicators" RE_CODE 2 ++
  matches "safety_sensitivity" RE_SAFETY 1 ++ matches "domain_specific" domain_regex 2 ++
  hint_if (2 <=? questions) (cat ["Multiple questions: "; show_Z questions]) ++
  hint_if (5 <=? clauses) (cat ["Complex structure: "; show_Z clauses; " clauses"]) ++
  hint_if (3 <=? triggered) (cat ["Multi-dimensional ("; show_Z triggered; " triggers)"]).

Definition weighted_total (w : ScorerWeights) (comps : gmap string Z) : f32 :=
  foldl (fun acc '(nm, weight) => f32_add acc (f32_mul (f32_of_Z (default 0 (comps !! nm))) weight))
    (f32_of_Z 0)
    [("reasoning_words", wt_reasoning_words w); ("token_estimate", wt_token_estimate w);
     ("code_indicators", wt_code_indicators w); ("multi_step", wt_multi_step w);
     ("domain_specific", wt_domain_specific w); ("ambiguity", wt_ambiguity w);
     ("creativity", wt_creativity w); ("precision", wt_precision w);
     ("context_dependency", wt_context_dependency w); ("tool_likelihood", wt_tool_likelihood w);
     ("safety_sensitivity", wt_safety_sensitivity w);
     ("question_complexity", wt_question_complexity w);
     ("sentence_complexity", wt_sentence_complexity w)].

(** [components.values().filter(|v| v > 20).count()] *)
Definition triggered_dimensions (comps : gmap string Z) : Z :=
  Z.of_nat (size (filter (fun kv => 20 < kv.2) comps)).

Definition score_complexity_internal (prompt : string) (w : ScorerWeights) (domain_regex : string)
    : ScoreBreakdown :=
  match capture1 RE_TIER_HINT prompt with
  | Some tier_str =>
      let t := tier_of_hint tier_str in
      mkScore (to_score t) t ∅ [cat ["Explicit tier hint: "; tier_as_str t]]
  | None =>
      let comps := list_to_map (dimensions prompt domain_regex) : gmap string Z in
      let triggered := triggered_dimensions comps in
      let sum := weighted_total w comps in
      let boosted :=
        if 3 <=? triggered then f32_mul sum (f32_ratio 13 10)
        else if 2 <=? triggered then f32_mul sum (f32_ratio 115 100)
        else sum in
      let tot := Z.min (Z.max (f32_to_u32 boosted) 0) 100 in
      mkScore tot (from_score tot) comps (score_hints prompt domain_regex triggered)
  end.

(** ** Classification *)

Inductive TaskComplexity : Type := Simple | Moderate | Complex.

Definition complexity_of (t : Tier) : TaskComplexity :=
  match t with Flash | Standard => Simple | Pro => Moderate | Frontier => Complex end.

Definition last_user_message (ms : list ChatMessage) : string :=
  match List.find (fun m => bool_decide (role m = User)) (reverse ms) with
  | Some m => content m
  | None => ""
  end.

Definition classify_text (w : ScorerWeights) (domain_regex text : string) : TaskComplexity :=
  match capture1 RE_TIER_HINT text with
  | Some tier_str => complexity_of (tier_of_hint tier_str)
  | None =>
      match List.find (fun po => is_match po.1 text) DEFAULT_OVERRIDES with
      | Some po => complexity_of po.2
      | None => complexity_of (tier (score_complexity_internal text w domain_regex))
      end
  end.

Definition response_is_uncertain (rs : CompletionResponse) : bool :=
  let text := trim (rs_content rs) in
  if str_is_empty text then true
  else let lower := to_lowercase text in existsb (fun p => contains p lower) UNCERTAINTY_PATTERNS.

End scoring.

(** ** The provider *)

Record SmartRoutingStats : Type := mkStats {
  total_requests : Z;
  cheap_requests : Z;
  primary_requests : Z;
  cascade_escalations : Z
}.

Definition stats_new : SmartRoutingStats := mkStats 0 0 0 0.

(** [fetch_add(1)] on the four counters. *)
Definition bump (t c p e : bool) (s : SmartRoutingStats) : SmartRoutingStats :=
  let one b := if b : bool then 1 else 0 in
  mkStats (wrap64 (total_requests s + one t)) (wrap64 (cheap_requests s + one c))
    (wrap64 (primary_requests s + one p)) (wrap64 (cascade_escalations s + one e)).

Record SmartRoutingConfig : Type := mkRoutingConfig {
  cascade_enabled : bool;
  domain_keywords : option (list string)
}.

Definition routing_config_default : SmartRoutingConfig := mkRoutingConfig true None.

Record SmartRoutingProvider (P C : Type) : Type := mkSmart {
  primary : P;
  cheap : C;
  routing_config : SmartRoutingConfig;
  scorer_weights : ScorerWeights;
  domain_regex : string;
  stats : SmartRoutingStats
}.
Arguments mkSmart {P C}.
Arguments primary {P C}.
Arguments cheap {P C}.
Arguments routing_config {P C}.
Arguments scorer_weights {P C}.
Arguments domain_regex {P C}.
Arguments stats {P C}.

Section provider.
  Context `{RegexEngine} `{Decimal} {P C : Type} {HP : LlmProvider P} {HC : LlmProvider C}.
  Variable to_lowercase : string -> string.
  Implicit Types (s : SmartRoutingProvider P C) (w : World).

Definition smart_new (p : P) (c : C) (config : SmartRoutingConfig) : SmartRoutingProvider P C :=
  mkSmart p c config weights_default
    (match domain_keywords config with
     | Some custom => build_domain_regex custom
     | None => RE_DOMAIN_DEFAULT
     end) stats_new.

Definition set_smart s (p : P) (c : C) (st : SmartRoutingStats) : SmartRoutingProvider P C :=
  mkSmart p c (routing_config s) (scorer_weights s) (domain_regex s) st.

Definition classify s (rq : CompletionRequest) : TaskComplexity :=
  classify_text to_lowercase (scorer_weights s) (domain_regex s)
    (trim (last_user_message (rq_messages rq))).

(** A call of one of the two models. *)
Definition on_cheap {A} (f : C -> World -> Result LlmError A * C * World) s w
    : Result LlmError A * SmartRoutingProvider P C * World :=
  let '(r, c, w') := f (cheap s) w in (r, set_smart s (primary s) c (stats s), w').

Definition on_primary {A} (f : P -> World -> Result LlmError A * P * World) s w
    : Result LlmError A * SmartRoutingProvider P C * World :=
  let '(r, p, w') := f (primary s) w in (r, set_smart s p (cheap s) (stats s), w').

Definition count_stats (t c p e : bool) s : SmartRoutingProvider P C :=
  set_smart s (primary s) (cheap s) (bump t c p e (stats s)).

Definition smart_complete (rq : CompletionRequest) s w
    : Result LlmError CompletionResponse * SmartRoutingProvider P C * World :=
  let s := count_stats true false false false s in
  match classify s rq with
  | Simple => on_cheap (complete rq) (count_stats false true false false s) w
  | Complex => on_primary (complete rq) (count_stats false false true false s) w
  | Moderate =>
      let s := count_stats false true false false s in
      if cascade_enabled (routing_config s) then
        let '(r, s, w) := on_cheap (complete rq) s w in
        match r with
        | Err e => (Err e, s, w)
        | Ok response =>
            if response_is_uncertain to_lowercase response
            then on_primary (complete rq) (count_stats false false true true s) w
            else (Ok response, s, w)
        end
      else on_cheap (complete rq) s w
  end.

Definition smart_complete_with_tools (rq : ToolCompletionRequest) s w
    : Result LlmError ToolCompletionResponse * SmartRoutingProvider P C * World :=
  on_primary (complete_with_tools rq) (count_stats true false true false s) w.

Definition smart_provider : LlmProvider (SmartRoutingProvider P C) := {|
  model_name := fun s => model_name (primary s);
  cost_per_token := fun s => cost_per_token (primary s);
  complete := smart_complete;
  complete_with_tools := smart_complete_with_tools;
  list_models := fun s w => on_primary list_models s w;
  model_metadata := fun s w => on_primary model_metadata s w;
  effective_model_name := fun rq s =>
    let '(n, p) := effective_model_name rq (primary s) in (n, set_smart s p (cheap s) (stats s));
  active_model_name := fun s => active_model_name (primary s);
  set_model := fun m s =>
    let '(r, p) := set_model m (primary s) in (r, set_smart s p (cheap s) (stats s));
  calculate_cost := fun i o s => calculate_cost i o (primary s);
  cache_write_multiplier := fun s => cache_write_multiplier (primary s);
  cache_read_discount := fun s => cache_read_discount (primary s)
|}.

End provider.

(** ** Theorems *)

Lemma from_to_score t : from_score (to_score t) = t.
Proof. by destruct t. Qed.

Section facts.
  Context `{RegexEngine}.
  Variable to_lowercase : string -> string.

(** Every complexity score lies between 0 and 100 and its tier is the one of
    the score, also when an explicit hint fixed it. *)
Theorem score_in_range prompt w re :
  let b := score_complexity_internal to_lowercase prompt w re in
  0 ≤ total b ≤ 100 ∧ tier b = from_score (total b).
Proof.
  intros b. unfold b, score_complexity_internal. destruct (capture1 RE_TIER_HINT prompt) as [h|].
  - simpl. split; [by destruct (tier_of_hint to_lowercase h)|]. by rewrite from_to_score.
  - cbn [total tier]. split; [|done]. lia.
Qed.

(** An explicit hint decides alone; otherwise the first matching override. *)
Theorem hint_decides w re text h :
  capture1 RE_TIER_HINT text = Some h →
  classify_text to_lowercase w re text = complexity_of (tier_of_hint to_lowercase h).
Proof. intros Hc. unfold classify_text. by rewrite Hc. Qed.

End facts.

Section routing.
  Context `{RegexEngine} `{Decimal} {P C : Type} {HP : LlmProvider P} {HC : LlmProvider C}.
  Variable to_lowercase : string -> string.
  Implicit Types (s : SmartRoutingProvider P C) (w : World).

(** Routing follows the classification: a simple request reaches the cheap
    model only, a complex one the primary only; a moderate one is answered by the
    cheap model unless cascading is on and its answer is uncertain, in which case
    the primary's answer is returned; an error of the cheap model is final. *)
Theorem routing_spec rq s w :
  let '(r, s', w') := smart_complete to_lowercase rq s w in
  let '(rc, c1, w1) := complete rq (cheap s) w in
  match classify to_lowercase s rq with
  | Complex =>
      let '(rp, p1, w2) := complete rq (primary s) w in
      r = rp ∧ primary s' = p1 ∧ cheap s' = cheap s ∧ w' = w2
  | Simple => r = rc ∧ primary s' = primary s ∧ cheap s' = c1 ∧ w' = w1
  | Moderate =>
      match rc with
      | Ok rs =>
          if cascade_enabled (routing_config s) && response_is_uncertain to_lowercase rs then
            let '(rp, p1, w2) := complete rq (primary s) w1 in
            r = rp ∧ primary s' = p1 ∧ cheap s' = c1 ∧ w' = w2
          else r = rc ∧ primary s' = primary s ∧ cheap s' = c1 ∧ w' = w1
      | Err _ => r = rc ∧ primary s' = primary s ∧ cheap s' = c1 ∧ w' = w1
      end
  end.
Proof.
  unfold smart_complete.
  change (classify to_lowercase (count_stats true false false false s) rq)
    with (classify to_lowercase s rq).
  destruct (classify to_lowercase s rq).
  - unfold on_cheap. cbn [cheap count_stats set_smart].
    destruct (complete rq (cheap s) w) as [[rc c1] w1]. done.
  - cbn [routing_config count_stats set_smart]. unfold on_cheap, on_primary.
    cbn [cheap primary count_stats set_smart].
    destruct (complete rq (cheap s) w) as [[rc c1] w1].
    destruct (cascade_enabled (routing_config s)); cbn [andb]; [|by destruct rc].
    destruct rc as [rs|e]; [|done].
    destruct (response_is_uncertain to_lowercase rs); [|done].
    cbn [primary cheap count_stats set_smart].
    destruct (complete rq (primary s) w1) as [[rp p1] w2]. done.
  - unfold on_primary. cbn [primary count_stats set_smart].
    destruct (complete rq (cheap s) w) as [[rc c1] w1].
    destruct (complete rq (primary s) w) as [[rp p1] w2]. done.
Qed.

(** How far the counters are from agreeing: every request is counted once, and
    twice among the models exactly when it escalated. *)
Definition imbalance (st : SmartRoutingStats) : Z :=
  wrap64 (total_requests st + cascade_escalations st - cheap_requests st - primary_requests st).

Lemma imbalance_bump (t c p e : bool) st :
  imbalance (bump t c p e st) =
  wrap64 (imbalance st + (Z.b2z t + Z.b2z e - Z.b2z c - Z.b2z p)).
Proof.
  unfold imbalance, bump. cbn [total_requests cheap_requests primary_requests cascade_escalations].
  assert (∀ b : bool, (if b then 1 else 0) = Z.b2z b) as Hb by (by intros []). rewrite !Hb.
  generalize (Z.b2z t) (Z.b2z c) (Z.b2z p) (Z.b2z e). clear. destruct st as [a b c d].
  cbn [total_requests cheap_requests primary_requests cascade_escalations]. intros.
  unfold wrap64. change (2 ^ 64) with 18446744073709551616.
  Z.to_euclidean_division_equations. lia.
Qed.

(** The statistics stay consistent: the number of requests and of
    escalations together is the number of model calls. *)
Theorem routing_stats_balanced rq trq s w :
  imbalance (stats s) = 0 →
  imbalance (stats (smart_complete to_lowercase rq s w).1.2) = 0 ∧
  imbalance (stats (smart_complete_with_tools trq s w).1.2) = 0.
Proof.
  intros Hs. split.
  - unfold smart_complete. destruct (classify _ _ _).
    + unfold on_cheap. destruct (complete _ _ _) as [[? ?] ?].
      cbn [fst snd stats count_stats set_smart]. by rewrite !imbalance_bump, Hs.
    + destruct (cascade_enabled _).
      * unfold on_cheap. destruct (complete _ _ _) as [[[rs|e] c1] w1].
        -- destruct (response_is_uncertain to_lowercase rs).
           ++ unfold on_primary. destruct (complete _ _ _) as [[? ?] ?].
              cbn [fst snd stats count_stats set_smart]. by rewrite !imbalance_bump, Hs.
           ++ cbn [fst snd stats count_stats set_smart]. by rewrite !imbalance_bump, Hs.
        -- cbn [fst snd stats count_stats set_smart]. by rewrite !imbalance_bump, Hs.
      * unfold on_cheap. destruct (complete _ _ _) as [[? ?] ?].
        cbn [fst snd stats count_stats set_smart]. by rewrite !imbalance_bump, Hs.
    + unfold on_primary. destruct (complete _ _ _) as [[? ?] ?].
      cbn [fst snd stats count_stats set_smart]. by rewrite !imbalance_bump, Hs.
  - unfold smart_complete_with_tools, on_primary. destruct (complete_with_tools _ _ _) as [[? ?] ?].
    cbn [fst snd stats count_stats set_smart]. by rewrite !imbalance_bump, Hs.
Qed.

(** Tool requests never touch the cheap model. *)
Theorem tools_go_to_primary rq s w :
  let '(r, s', w') := smart_complete_with_tools rq s w in
  let '(rp, p1, w2) := complete_with_tools rq (primary s) w in
  r = rp ∧ primary s' = p1 ∧ cheap s' = cheap s ∧ w' = w2.
Proof.
  unfold smart_complete_with_tools, on_primary. cbn [primary count_stats set_smart].
  by destruct (complete_with_tools rq (primary s) w) as [[? ?] ?].
Qed.

End routing.
