(* ===== verification/ProviderChain.v ===== *)
(** * ProviderChain: the decorators put together

    [build_provider_chain] of [src/llm/mod.rs].  [Arc<dyn LlmProvider>] hides
    whether a layer was added; here an optional layer is the sum of the wrapped
    and the plain provider, with the instance [sum_provider].  The constructors
    of the clients are parameters.  The recording layer for replay tests, which
    an environment variable turns on, and which hands every call on, is left out.

    [Genuine] is the interface a layer promises to the next one: its answers are
    answers the layer below is allowed to give. *)

From Stdlib Require Import Ascii.
From S2P Require Import Prelude Text Provider ReplyText CircuitBreaker Retry Failover.
From S2P Require Import ResponseCache SmartRouting.

(** ** An optional layer *)

Section sum.
  Context `{Decimal} {A B : Type} {HA : LlmProvider A} {HB : LlmProvider B}.

Definition lift_l {R} (x : R * A * World) : R * (A + B) * World :=
  let '(r, a, w) := x in (r, inl a, w).
Definition lift_r {R} (x : R * B * World) : R * (A + B) * World :=
  let '(r, b, w) := x in (r, inr b, w).

#[export] Instance sum_provider : LlmProvider (A + B) := {|
  model_name := fun p => match p with inl a => model_name a | inr b => model_name b end;
  cost_per_token := fun p => match p with inl a => cost_per_token a | inr b => cost_per_token b end;
  complete := fun rq p w =>
    match p with inl a => lift_l (complete rq a w) | inr b => lift_r (complete rq b w) end;
  complete_with_tools := fun rq p w =>
    match p with
    | inl a => lift_l (complete_with_tools rq a w)
    | inr b => lift_r (complete_with_tools rq b w)
    end;
  list_models := fun p w =>
    match p with inl a => lift_l (list_models a w) | inr b => lift_r (list_models b w) end;
  model_metadata := fun p w =>
    match p with inl a => lift_l (model_metadata a w) | inr b => lift_r (model_metadata b w) end;
  effective_model_name := fun rq p =>
    match p with
    | inl a => let '(n, a') := effective_model_name rq a in (n, inl a')
    | inr b => let '(n, b') := effective_model_name rq b in (n, inr b')
    end;
  active_model_name := fun p =>
    match p with inl a => active_model_name a | inr b => active_model_name b end;
  set_model := fun m p =>
    match p with
    | inl a => let '(r, a') := set_model m a in (r, inl a')
    | inr b => let '(r, b') := set_model m b in (r, inr b')
    end;
  calculate_cost := fun i o p =>
    match p with inl a => calculate_cost i o a | inr b => calculate_cost i o b end;
  cache_write_multiplier := fun p =>
    match p with inl a => cache_write_multiplier a | inr b => cache_write_multiplier b end;
  cache_read_discount := fun p =>
    match p with inl a => cache_read_discount a | inr b => cache_read_discount b end
|}.
End sum.

(** ** The interface between layers *)

(** [G] relates requests to the answers they may get, [Inv] is the invariant of
    the provider's state. *)
Class Genuine `{LlmProvider P} (G : CompletionRequest -> CompletionResponse -> Prop)
    (Inv : P -> Prop) : Prop := {
  genuine_complete : ∀ rq p w, Inv p →
    Inv (complete rq p w).1.2 ∧ ∀ rs, (complete rq p w).1.1 = Ok rs → G rq rs;
  genuine_effective : ∀ m p, Inv p → Inv (effective_model_name m p).2
}.

(** ** Building the chain *)

Record ChainConfig : Type := mkChainConfig {
  cfg_backend : string;
  cfg_max_retries : Z;
  cfg_cheap_model_name : option string;
  cfg_smart_routing_cascade : bool;
  cfg_fallback_model : option string;
  cfg_failover_cooldown_secs : Z;
  cfg_failover_cooldown_threshold : Z;
  cfg_circuit_breaker_threshold : option Z;
  cfg_circuit_breaker_recovery_secs : Z;
  cfg_response_cache_enabled : bool;
  cfg_response_cache_ttl_secs : Z;
  cfg_response_cache_max_entries : nat
}.

(** The layers, from the client outwards. *)
Definition Retried (P : Type) : Type := RetryProvider P + P.
Definition Routed (P : Type) : Type := SmartRoutingProvider (Retried P) (Retried P) + Retried P.
Definition FailingOver (P : Type) : Type := FailoverProvider (Routed P + Retried P) + Routed P.
Definition Guarded (P : Type) : Type := CircuitBreakerProvider (FailingOver P) + FailingOver P.
Definition Chain (P : Type) : Type := CachedProvider (Guarded P) + Guarded P.

Section chain.
  Context `{RegexEngine} `{Decimal} {P : Type} {HP : LlmProvider P}.
  Variable to_lowercase : string -> string.
  Variable task : option TaskId.
  Variable order : Cache -> list (string * CacheEntry).
  Variable sha256_hex : string -> string.
  Variable messages_json : list ChatMessage -> option string.

  (** The constructors of the clients. *)
  Variable create_llm_provider : Result LlmError P.
  Variable create_cheap_provider_for_backend : string -> Result LlmError (option P).
  Variable create_llm_provider_with_config : string -> Result LlmError P.

#[local] Instance retried_provider : LlmProvider (Retried P) := sum_provider.
#[local] Instance smart_instance : LlmProvider (SmartRoutingProvider (Retried P) (Retried P)) :=
  smart_provider to_lowercase.
#[local] Instance routed_provider : LlmProvider (Routed P) := sum_provider.
#[local] Instance failover_member : LlmProvider (Routed P + Retried P) := sum_provider.
#[local] Instance failover_instance : LlmProvider (FailoverProvider (Routed P + Retried P)) :=
  failover_provider task.
#[local] Instance failing_over_provider : LlmProvider (FailingOver P) := sum_provider.
#[local] Instance guarded_provider : LlmProvider (Guarded P) := sum_provider.
#[local] Instance cached_instance : LlmProvider (CachedProvider (Guarded P)) :=
  cached_provider order sha256_hex messages_json.
#[local] Instance chain_provider : LlmProvider (Chain P) := sum_provider.

Definition with_retry (cfg : ChainConfig) (p : P) : Retried P :=
  if (0 <? cfg_max_retries cfg)%Z then inl (mkRetry p (mkRetryConfig (cfg_max_retries cfg)))
  else inr p.

Definition with_routing (cfg : ChainConfig) (p : Retried P) : Result LlmError (Routed P) :=
  match cfg_cheap_model_name cfg with
  | None => Ok (inr p)
  | Some cheap_model =>
      match create_cheap_provider_for_backend cheap_model with
      | Err e => Err e
      | Ok None =>
          Err (RequestFailed (cfg_backend cfg)
                 ("Failed to create cheap provider for model '" +:+ cheap_model +:+
                  "' on backend '" +:+ cfg_backend cfg +:+ "'"))
      | Ok (Some cheap) =>
          Ok (inl (smart_new p (with_retry cfg cheap)
                     (mkRoutingConfig (cfg_smart_routing_cascade cfg) None)))
      end
  end.

Definition with_failover (cfg : ChainConfig) (p : Routed P) (w : World)
    : Result LlmError (FailingOver P) * World :=
  match cfg_fallback_model cfg with
  | None => (Ok (inr p), w)
  | Some fallback_model =>
      match create_llm_provider_with_config fallback_model with
      | Err e => (Err e, w)
      | Ok fallback =>
          let cooldown := mkCooldownConfig (secs (cfg_failover_cooldown_secs cfg))
                            (cfg_failover_cooldown_threshold cfg) in
          match with_cooldown [inl p; inr (with_retry cfg fallback)] cooldown w with
          | (Ok fo, w') => (Ok (inl fo), w')
          | (Err e, w') => (Err e, w')
          end
      end
  end.

Definition with_breaker (cfg : ChainConfig) (p : FailingOver P) : Guarded P :=
  match cfg_circuit_breaker_threshold cfg with
  | Some threshold =>
      inl (breaker_provider_new p
             (mkBreakerConfig threshold (secs (cfg_circuit_breaker_recovery_secs cfg))
                (half_open_successes_needed breaker_config_default)))
  | None => inr p
  end.

Definition with_cache (cfg : ChainConfig) (p : Guarded P) : Chain P :=
  if cfg_response_cache_enabled cfg
  then inl (cached_new p (mkCacheConfig (secs (cfg_response_cache_ttl_secs cfg))
                            (cfg_response_cache_max_entries cfg)))
  else inr p.

(** The provider for heartbeats and evaluations, which stands beside the chain. *)
Definition create_cheap_llm_provider (cfg : ChainConfig) : Result LlmError (option P) :=
  match cfg_cheap_model_name cfg with
  | None => Ok None
  | Some cheap_model => create_cheap_provider_for_backend cheap_model
  end.

Definition build_provider_chain (cfg : ChainConfig) (w : World) : Result LlmError (Chain P * option P) * World :=
  match create_llm_provider with
  | Err e => (Err e, w)
  | Ok client =>
      match with_routing cfg (with_retry cfg client) with
      | Err e => (Err e, w)
      | Ok routed =>
          match with_failover cfg routed w with
          | (Err e, w') => (Err e, w')
          | (Ok fo, w') =>
              let llm := with_cache cfg (with_breaker cfg fo) in
              match create_cheap_llm_provider cfg with
              | Err e => (Err e, w')
              | Ok cheap_llm => (Ok (llm, cheap_llm), w')
              end
          end
      end
  end.

End chain.

(** ** Every layer keeps the promise *)

(** A call keeps the invariant and answers within [Q]. *)
Definition good_call {P A} (Inv : P -> Prop) (Q : A -> Prop)
    (call : P -> World -> Result LlmError A * P * World) : Prop :=
  ∀ p w, Inv p → Inv (call p w).1.2 ∧ ∀ a, (call p w).1.1 = Ok a → Q a.

Lemma genuine_good `{Genuine P G Inv} rq : good_call Inv (G rq) (complete rq).
Proof. intros p w. apply genuine_complete. Qed.

Lemma retry_loop_good {P A} (Inv : P -> Prop) (Q : A -> Prop) call n attempt :
  good_call Inv Q call → good_call Inv Q (retry_loop call n attempt).
Proof.
  intros Hc. revert attempt; induction n as [|n IH]; intros attempt p w Hp; simpl.
  - destruct (Hc p w Hp) as [Hi Hq]. destruct (call p w) as [[[a|e] p'] w']; simpl in *.
    + naive_solver.
    + destruct (negb (is_retryable e)); naive_solver.
  - destruct (Hc p w Hp) as [Hi Hq]. destruct (call p w) as [[[a|e] p'] w']; simpl in *.
    + naive_solver.
    + destruct (negb (is_retryable e)); [naive_solver|].
      destruct (next_delay attempt e w') as [d w'']. by apply IH.
Qed.

#[export] Instance retry_genuine `{Genuine P G Inv} :
  Genuine (P := RetryProvider P) G (fun rp => Inv (rt_inner rp)).
Proof.
  split.
  - intros rq rp w Hi. simpl. unfold with_retries.
    pose proof (retry_loop_good Inv (G rq) (complete rq) (Z.to_nat (max_retries (rt_config rp))) 0
                  (genuine_good rq) (rt_inner rp) w Hi) as Hr.
    destruct (retry_loop _ _ _ _ _) as [[r p] w']. exact Hr.
  - intros m rp Hi. simpl. pose proof (genuine_effective m (rt_inner rp) Hi) as He.
    destruct (effective_model_name m (rt_inner rp)). exact He.
Qed.

Definition sum_inv {A B} (IA : A -> Prop) (IB : B -> Prop) (p : A + B) : Prop :=
  match p with inl a => IA a | inr b => IB b end.

Lemma sum_genuine `{Decimal} {A B} {HA : LlmProvider A} {HB : LlmProvider B} G IA IB :
  Genuine (P := A) G IA → Genuine (P := B) G IB → Genuine (P := A + B) G (sum_inv IA IB).
Proof.
  intros GA GB. split.
  - intros rq [a|b] w Hi; simpl in *.
    + pose proof (genuine_complete rq a w Hi) as Hr.
      destruct (complete rq a w) as [[r p] w']. exact Hr.
    + pose proof (genuine_complete rq b w Hi) as Hr.
      destruct (complete rq b w) as [[r p] w']. exact Hr.
  - intros m [a|b] Hi; simpl in *.
    + pose proof (genuine_effective m a Hi) as He. destruct (effective_model_name m a). exact He.
    + pose proof (genuine_effective m b Hi) as He. destruct (effective_model_name m b). exact He.
Qed.

Lemma smart_genuine `{RegexEngine} `{Decimal} {P C} {HP : LlmProvider P} {HC : LlmProvider C}
    to_lowercase G IP IC :
  Genuine (P := P) G IP → Genuine (P := C) G IC →
  Genuine (H0 := smart_provider to_lowercase) (P := SmartRoutingProvider P C) G
    (fun s => IP (primary s) ∧ IC (cheap s)).
Proof.
  intros GP GC. split.
  - intros rq s w [Hp Hc]. cbn [complete smart_provider]. unfold smart_complete.
    destruct (classify _ _ _).
    + unfold on_cheap. cbn [cheap count_stats set_smart].
      pose proof (genuine_complete rq (cheap s) w Hc) as Hr.
      destruct (complete rq (cheap s) w) as [[r c] w']. naive_solver.
    + unfold on_cheap. cbn [cheap primary count_stats set_smart routing_config].
      pose proof (genuine_complete rq (cheap s) w Hc) as Hr.
      destruct (complete rq (cheap s) w) as [[[rs|e] c] w']; cbn [fst snd] in Hr.
      * destruct (cascade_enabled _); [|naive_solver].
        destruct (response_is_uncertain to_lowercase rs); [|naive_solver].
        unfold on_primary. cbn [primary cheap count_stats set_smart].
        pose proof (genuine_complete rq (primary s) w' Hp) as Hr'.
        destruct (complete rq (primary s) w') as [[r' p'] w'']. naive_solver.
      * destruct (cascade_enabled _); naive_solver.
    + unfold on_primary. cbn [primary count_stats set_smart].
      pose proof (genuine_complete rq (primary s) w Hp) as Hr.
      destruct (complete rq (primary s) w) as [[r p] w']. naive_solver.
  - intros m s [Hp Hc]. cbn [effective_model_name smart_provider].
    pose proof (genuine_effective m (primary s) Hp) as He.
    destruct (effective_model_name m (primary s)). done.
Qed.

Lemma try_loop_good {P A} (Inv : P -> Prop) (Q : A -> Prop) call avail last fo w :
  good_call Inv Q call → Forall Inv (providers fo) →
  let '(r, fo', _) := try_loop call avail last fo w in
  Forall Inv (providers fo') ∧ ∀ i a, r = Ok (i, a) → Q a.
Proof.
  intros Hc. revert last fo w; induction avail as [|i avail IH]; intros last fo w Hf; simpl;
    [split; [done|naive_solver]|].
  destruct (providers fo !! i) as [p|] eqn:Hi; [|split; [done|naive_solver]].
  destruct (Hc p w (Forall_lookup_1 _ _ _ _ Hf Hi)) as [Hp Hq].
  destruct (call p w) as [[[a|e] p'] w']; cbn [fst snd] in *.
  - split; [by apply Forall_insert|naive_solver].
  - destruct (negb (is_retryable e)); [split; [by apply Forall_insert|naive_solver]|].
    destruct (note_failure i (set_provider i p' fo) w') as [fo' w''] eqn:Hn.
    apply IH. unfold note_failure in Hn. destruct (record_failure _ _) as [hit cd].
    destruct hit; [destruct (now_nanos _ _)|]; simplify_eq; by apply Forall_insert.
Qed.

Lemma failover_genuine `{Decimal} {P} {HP : LlmProvider P} task G Inv :
  Genuine (P := P) G Inv →
  Genuine (H0 := failover_provider task) (P := FailoverProvider P) G (fun fo => Forall Inv (providers fo)).
Proof.
  intros GP. split.
  - intros rq fo w Hf. cbn [complete failover_provider]. unfold served, try_providers.
    destruct (now_nanos fo w) as [nanos w1].
    destruct (available fo nanos _) as [avail|e]; [|split; [done|naive_solver]].
    pose proof (try_loop_good Inv (G rq) (complete rq) avail None fo w1 (genuine_good rq) Hf) as Hr.
    destruct (try_loop _ _ _ _ _) as [[[[i a]|e] fo'] w']; cbn [fst snd].
    + destruct Hr as [Hf' Hq]. split; [by destruct task|naive_solver].
    + split; [apply Hr|naive_solver].
  - intros m fo Hf. cbn [effective_model_name failover_provider].
    unfold failover_effective_model_name.
    assert (∀ i, Forall Inv (providers (match providers fo !! i with
        | None => ("", fo)
        | Some p => let '(nm, p') := effective_model_name m p in (nm, set_provider i p' fo) end).2)) as Hgo.
    { intros i. destruct (providers fo !! i) as [p|] eqn:Hi; [|done].
      pose proof (genuine_effective m p (Forall_lookup_1 _ _ _ _ Hf Hi)) as He.
      destruct (effective_model_name m p). by apply Forall_insert. }
    unfold take_bound_provider_for_current_task. destruct task as [t|]; [|apply Hgo].
    specialize (Hgo (default (last_used fo) (provider_for_task fo !! t))).
    cbn [providers]. destruct (providers fo !! _) as [p|]; [|done].
    destruct (effective_model_name m p). exact Hgo.
Qed.

Lemma breaker_genuine `{Genuine P G Inv} :
  Genuine (P := CircuitBreakerProvider P) G (fun cb => Inv (cb_inner cb)).
Proof.
  split.
  - intros rq cb w Hi. simpl. unfold guarded. simpl.
    destruct (check_allowed _ _ _ _ _) as [st [u|e]]; [|split; [done|naive_solver]].
    set (w1 := mkWorld _ _ _ _ _). pose proof (genuine_complete rq (cb_inner cb) w1 Hi) as Hr.
    destruct (complete rq (cb_inner cb) w1) as [[[rs|e] p] w']; naive_solver.
  - intros m cb Hi. simpl. pose proof (genuine_effective m (cb_inner cb) Hi) as He.
    destruct (effective_model_name m (cb_inner cb)). exact He.
Qed.

(** ** The chain *)

Section chain_facts.
  Context `{RegexEngine} `{Decimal} {P : Type} {HP : LlmProvider P}.
  Variable to_lowercase : string -> string.
  Variable task : option TaskId.
  Variable order : Cache -> list (string * CacheEntry).
  Variable sha256_hex : string -> string.
  Variable messages_json : list ChatMessage -> option string.
  Variable create_llm_provider : Result LlmError P.
  Variable create_cheap_provider_for_backend : string -> Result LlmError (option P).
  Variable create_llm_provider_with_config : string -> Result LlmError P.
  Variable G : CompletionRequest -> CompletionResponse -> Prop.
  Variable Inv : P -> Prop.

(** The invariant of each layer. *)
Definition retried_inv : Retried P -> Prop := sum_inv (fun rp => Inv (rt_inner rp)) Inv.
Definition routed_inv : Routed P -> Prop :=
  sum_inv (fun s => retried_inv (primary s) ∧ retried_inv (cheap s)) retried_inv.
Definition failing_over_inv : FailingOver P -> Prop :=
  sum_inv (fun fo => Forall (sum_inv routed_inv retried_inv) (providers fo)) routed_inv.
Definition guarded_inv : Guarded P -> Prop :=
  sum_inv (fun cb => failing_over_inv (cb_inner cb)) failing_over_inv.

Abbreviation key_of := (cache_key sha256_hex messages_json).
Abbreviation GuardedP := (guarded_provider to_lowercase task).
Abbreviation ChainP := (chain_provider to_lowercase task order sha256_hex messages_json).

(** All layers below the cache give answers that the clients may give to that very request. *)
Lemma guarded_genuine : Genuine G Inv → Genuine (H0 := GuardedP) G guarded_inv.
Proof.
  intros GP.
  assert (Genuine (H0 := retried_provider) G retried_inv) as G1
    by (apply sum_genuine; [apply retry_genuine|done]).
  assert (Genuine (H0 := routed_provider to_lowercase) G routed_inv) as G2
    by (apply (sum_genuine (HA := smart_instance to_lowercase)); [by apply smart_genuine|done]).
  assert (Genuine (H0 := failover_member to_lowercase) G (sum_inv routed_inv retried_inv)) as G3
    by (by apply (sum_genuine (HA := routed_provider to_lowercase))).
  assert (Genuine (H0 := failing_over_provider to_lowercase task) G failing_over_inv) as G4
    by (apply (sum_genuine (HA := failover_instance to_lowercase task)
                 (HB := routed_provider to_lowercase)); [by apply failover_genuine|done]).
  apply (sum_genuine (HB := failing_over_provider to_lowercase task)); [|done].
  apply (breaker_genuine (H0 := failing_over_provider to_lowercase task)).
Qed.

(** A request that was served: what it asked, the model it was resolved to, and the answer. *)
Abbreviation Served := (CompletionRequest * string * Result LlmError CompletionResponse)%type.

(** A cached answer was given in the past, by a client, to a request with its key. *)
Definition entries_given (past : list Served) (m : Cache) : Prop :=
  ∀ k e, m !! k = Some e → ∃ rq model, k = key_of model rq ∧ (rq, model, Ok (response e)) ∈ past ∧ G rq (response e).

Definition chain_inv (past : list Served) (c : Chain P) : Prop :=
  match c with inl cp => guarded_inv (inner cp) ∧ entries_given past (cache cp) | inr g => guarded_inv g end.

(** Construction establishes the invariant when the clients have it. *)
Lemma build_inv cfg w chain :
  (∀ p, create_llm_provider = Ok p → Inv p) →
  (∀ m p, create_cheap_provider_for_backend m = Ok (Some p) → Inv p) →
  (∀ m p, create_llm_provider_with_config m = Ok p → Inv p) →
  (build_provider_chain create_llm_provider create_cheap_provider_for_backend
     create_llm_provider_with_config cfg w).1 = Ok chain → chain_inv [] chain.1.
Proof.
  intros H1 H2 H3.
  assert (∀ p, Inv p → retried_inv (with_retry cfg p)) as Hretry.
  { intros p Hp. unfold with_retry. by case_match. }
  unfold build_provider_chain. destruct create_llm_provider as [client|e]; [|done].
  specialize (H1 _ eq_refl).
  assert (∀ r, with_routing create_cheap_provider_for_backend cfg (with_retry cfg client) = Ok r →
            routed_inv r) as Hroute.
  { intros r. unfold with_routing. destruct (cfg_cheap_model_name cfg) as [m|].
    - destruct (create_cheap_provider_for_backend m) as [[c|]|e] eqn:Hc; [|done..].
      intros [= <-]. simpl. eauto.
    - intros [= <-]. simpl. eauto. }
  destruct (with_routing _ _ _) as [routed|e]; [|done]. specialize (Hroute _ eq_refl).
  assert (∀ fo, (with_failover create_llm_provider_with_config cfg routed w).1 = Ok fo →
            failing_over_inv fo) as Hfail.
  { intros fo. unfold with_failover. destruct (cfg_fallback_model cfg) as [m|];
      [|by intros [= <-]].
    destruct (create_llm_provider_with_config m) as [fb|e] eqn:Hf; [|done].
    simpl. intros [= <-]. simpl. repeat constructor; simpl; eauto. }
  destruct (with_failover _ _ _ _) as [[fo|e] w']; [|done]. simpl in Hfail.
  specialize (Hfail _ eq_refl). destruct (create_cheap_llm_provider _ _) as [cheap_llm|e]; [|done]. simpl. intros [= <-].
  assert (guarded_inv (with_breaker cfg fo)) as Hg by (unfold with_breaker; by case_match).
  cbn [fst]. unfold with_cache. case_match; [|done]. split; [done|]. intros k e He. simpl in He.
  by rewrite lookup_empty in He.
Qed.

(** The name of the model a request is resolved to. *)
Definition resolved (rq : CompletionRequest) (c : Chain P) : string := (effective_model_name (LlmProvider := ChainP) (rq_model rq) c).1.

(** A series of requests, one after the other. *)
Fixpoint run_requests (rqs : list CompletionRequest) (c : Chain P) (w : World) : list Served :=
  match rqs with
  | [] => []
  | rq :: rqs =>
      let '(r, c', w') := complete (LlmProvider := ChainP) rq c w in
      (rq, resolved rq c, r) :: run_requests rqs c' w'
  end.

Lemma entries_given_more past x m : entries_given past m → entries_given (past ++ [x]) m.
Proof. intros Hm k e (rq & model & ? & ? & ?)%Hm. exists rq, model. set_solver. Qed.

(** One request: a client answers it, or an earlier request with its key was given this answer. *)
Lemma chain_step rq c w past : Genuine G Inv → chain_inv past c →
  let '(r, c', _) := complete (LlmProvider := ChainP) rq c w in
  chain_inv (past ++ [(rq, resolved rq c, r)]) c' ∧
  ∀ rs, r = Ok rs → G rq rs ∨
    ∃ rq' model, key_of model rq' = key_of (resolved rq c) rq ∧ (rq', model, Ok rs) ∈ past ∧ G rq' rs.
Proof.
  intros GP%guarded_genuine. unfold resolved. destruct c as [cp|g]; cbn [chain_inv].
  - intros [Hi Hc]. cbn [complete effective_model_name chain_provider sum_provider cached_instance cached_provider]. unfold cached_complete.
    pose proof (genuine_effective (Genuine := GP) (rq_model rq) (inner cp) Hi) as He.
    destruct (effective_model_name (rq_model rq) (inner cp)) as [model p]. cbn [fst snd] in *. destruct (now w) as [t w1].
    assert (entries_given past (lookup_section (config cp) t (key_of model rq) (cache cp)).2) as Hc'.
    { intros k e (e0 & (rq' & model' & ? & ? & ?)%Hc & _ & ->)%lookup_section_entry. eauto. }
    destruct (lookup_section _ _ _ _) as [[r|] m] eqn:Hl; cbn [fst snd lift_l] in *.
    + split; [split; [done|by apply entries_given_more]|]. intros rs [= <-]. right. unfold lookup_section in Hl.
      destruct (cache cp !! key_of model rq) as [e|] eqn:Hk; [|done]. destruct (fresh _ _ _); [|done]. injection Hl as <- _.
      destruct (Hc _ _ Hk) as (rq' & model' & ? & ? & ?). by exists rq', model'.
    + pose proof (genuine_complete (Genuine := GP) rq p w1 He) as [Hp Hq].
      destruct (complete rq p w1) as [[[rs|e] p'] w2]; cbn [fst snd lift_l] in *.
      * split; [|naive_solver]. split; [done|]. cbn [cache]. intros k e0 He0.
        destruct (decide (k = key_of model rq)) as [->|Hne].
        -- unfold store_section in He0. rewrite lookup_insert_eq in He0. injection He0 as <-. exists rq, model. cbn [response].
           split; [done|]. split; [set_solver|]. by apply Hq.
        -- apply store_section_other in He0 as [He0 _]; [|done]. by eapply entries_given_more.
      * split; [|naive_solver]. split; [done|]. by apply entries_given_more.
  - intros Hi. cbn [complete chain_provider sum_provider]. pose proof (genuine_complete (Genuine := GP) rq g w Hi) as [Hp Hq].
    destruct (complete rq g w) as [[r p'] w']. cbn [fst snd lift_r] in *. split; [done|]. intros rs Hr. left. by apply Hq.
Qed.

(** Every answer of a run, or the answer to an earlier request of its key. *)
Lemma run_answers rqs c w past : Genuine G Inv → chain_inv past c →
  ∀ i rq model rs, run_requests rqs c w !! i = Some (rq, model, Ok rs) → G rq rs ∨
    ∃ rq' model', key_of model' rq' = key_of model rq ∧ (rq', model', Ok rs) ∈ past ++ take i (run_requests rqs c w) ∧ G rq' rs.
Proof.
  intros GP. revert c w past. induction rqs as [|rq0 rqs IH]; intros c w past Hi i rq model rs; [done|]. cbn [run_requests].
  pose proof (chain_step rq0 c w past GP Hi) as Hs. destruct (complete rq0 c w) as [[r c'] w']. destruct Hs as [Hi' Hq].
  destruct i as [|i]; cbn [lookup list_lookup take].
  - intros [= -> <- ->]. rewrite app_nil_r. exact (Hq rs eq_refl).
  - intros Hl. destruct (IH c' w' _ Hi' i rq model rs Hl) as [?|(rq' & model' & ? & Hin & ?)]; [by left|right].
    exists rq', model'. rewrite <-app_assoc in Hin. done.
Qed.

(** C29. Whatever layers the configuration turns on, and over any series of requests one after the other, the chain invents nothing and mixes
    nothing up: a successful answer is one that a client may give to this very request, or the answer that an earlier request of
    the series was given, which a client may give to that one, and the two were resolved to the same model and agree in their rendered
    messages, their maximum of tokens, their temperature and their stop sequences.  (SHA-256 is taken to be free of collisions, a
    rendered list of messages to show where it ends; the names of the models hold no [|], the stop sequences no NUL byte, and the requests
    of the series agree on whether a maximum and a temperature are given: without these conditions the hashed bytes
    can coincide, see [key_input_collides].) *)
Theorem chain_answers_genuine cfg w w' chain rqs mt tp :
  Inj (=) (=) sha256_hex → self_delimiting messages_json → Genuine G Inv →
  (∀ p, create_llm_provider = Ok p → Inv p) →
  (∀ m p, create_cheap_provider_for_backend m = Ok (Some p) → Inv p) →
  (∀ m p, create_llm_provider_with_config m = Ok p → Inv p) →
  (build_provider_chain create_llm_provider create_cheap_provider_for_backend
     create_llm_provider_with_config cfg w).1 = Ok chain →
  let log := run_requests rqs chain.1 w' in
  Forall (fun x => bar_free x.1.2 = true ∧ plain_request mt tp x.1.1) log →
  ∀ i rq model rs, log !! i = Some (rq, model, Ok rs) →
    G rq rs ∨ ∃ j rq', (j < i)%nat ∧ log !! j = Some (rq', model, Ok rs) ∧ G rq' rs ∧ same_question messages_json rq' rq.
Proof.
  intros Hsha Hjson GP H1 H2 H3 Hb%build_inv log Hplain i rq model rs Hi; [|done..].
  destruct (run_answers rqs chain.1 w' [] GP Hb i rq model rs Hi) as [?|(rq' & model' & Hk & Hin & Hg)]; [by left|right].
  cbn [app] in Hin. apply elem_of_take in Hin as (j & Hj & Hlt).
  pose proof (Forall_lookup_1 _ _ _ _ Hplain Hi) as [Hm Hp]. pose proof (Forall_lookup_1 _ _ _ _ Hplain Hj) as [Hm' Hp'].
  apply (cache_key_separates _ _ mt tp) in Hk as [-> Hq]; [|done..]. by exists j, rq'.
Qed.

End chain_facts.

(** ** Witness *)

Definition demo_chain_config : ChainConfig :=
  mkChainConfig "nearai" 3 (Some "small") true (Some "other") 300 3 (Some 5%Z) 30 true 3600 1000.

Definition demo_cheap (m : string) : Result LlmError (option string) :=
  if bool_decide (m = "small") then Ok (Some m) else Err no_provider.
Definition demo_fallback (m : string) : Result LlmError string :=
  if bool_decide (m = "other") then Ok m else Err no_provider.

(** A stand-in for the hash and for the rendering: a list of messages as one bracket each and a closing one. *)
Definition demo_hash (s : string) : string := "h" +:+ s.
Definition demo_json (ms : list ChatMessage) : option string := Some (Nat.iter (length ms) (String "["%char) "]").

Lemma demo_hash_inj : Inj (=) (=) demo_hash.
Proof. intros a b [= ?]. done. Qed.

Lemma demo_json_delimits : self_delimiting demo_json.
Proof.
  split; [by eexists|]. intros ms ms' x y s t [= <-] [= <-]. generalize (length ms) as n, (length ms') as k. clear.
  induction n as [|n IH]; intros [|k]; cbn; try done. intros [= He]. f_equal. by apply IH.
Qed.

Definition demo_build : Result LlmError (Chain string * option string) * World :=
  build_provider_chain (H := demo_engine) (Ok "main") demo_cheap demo_fallback demo_chain_config demo_retry_world.

Definition demo_chain : Chain string := match demo_build.1 with Ok c => c.1 | Err _ => inr (inr (inr (inr (inr "main")))) end.

Abbreviation demo_question := (completion_request_new [user "Explain the borrow checker, step by step."]).

Definition demo_log : list (CompletionRequest * string * Result LlmError CompletionResponse) :=
  run_requests (H := demo_engine) (HP := named_provider) (string_map ascii_lower) (Some 1%N) map_to_list demo_hash demo_json
    [demo_question; demo_question] demo_chain demo_retry_world.

Lemma demo_plain : plain_request false false demo_question.
Proof. split; [by intros z [?|?]|]. split; [split; [by intros [? ?]|done]|]. split; [split; [by intros [? ?]|done]|]. constructor. Qed.

Abbreviation demo_answer := (mkResponse "small" 0 0 Stop 0 0).

(** The second request is answered, from the cache or anew, with what a client may say. *)
Lemma chain_answers_genuine_witness :
  demo_log !! 1%nat = Some (demo_question, "main", Ok demo_answer) ∧
  (rs_content demo_answer ∈ ["main"; "small"; "other"] ∨
   ∃ j rq', (j < 1)%nat ∧ demo_log !! j = Some (rq', "main", Ok demo_answer) ∧ rs_content demo_answer ∈ ["main"; "small"; "other"] ∧
     same_question demo_json rq' demo_question).
Proof.
  assert (demo_log !! 1%nat = Some (demo_question, "main", Ok demo_answer)) as Hi by (vm_compute; reflexivity).
  split; [exact Hi|].
  apply (chain_answers_genuine (H := demo_engine) (HP := named_provider) (string_map ascii_lower)
           (Some 1%N) map_to_list demo_hash demo_json (Ok "main") demo_cheap demo_fallback
           (fun _ rs => rs_content rs ∈ ["main"; "small"; "other"])
           (fun p => p ∈ ["main"; "small"; "other"]) demo_chain_config demo_retry_world demo_retry_world (demo_chain, Some "small")
           [demo_question; demo_question] false false) with (i := 1%nat) (rq := demo_question) (model := "main") (rs := demo_answer).
  - exact demo_hash_inj.
  - exact demo_json_delimits.
  - split.
    + intros rq' p w Hp. simpl. split; [exact Hp|]. intros rs' [= <-]. exact Hp.
    + intros m p Hp. exact Hp.
  - intros p [= <-]. set_solver.
  - intros m p. unfold demo_cheap. case_bool_decide; [|done]. intros [= <-]. subst. set_solver.
  - intros m p. unfold demo_fallback. case_bool_decide; [|done]. intros [= <-]. subst. set_solver.
  - vm_compute. reflexivity.
  - change (Forall (fun x => bar_free x.1.2 = true ∧ plain_request false false x.1.1) demo_log).
    assert (demo_log = [(demo_question, "main", Ok demo_answer); (demo_question, "main", Ok demo_answer)]) as Hl by (vm_compute; reflexivity).
    rewrite Hl. constructor; [split; [reflexivity|exact demo_plain]|]. constructor; [split; [reflexivity|exact demo_plain]|]. constructor.
  - exact Hi.
Defined.
