(* ===== verification/Sanitizer.v ===== *)
(** * Sanitizer: injection patterns and the safety policy

    [crates/ironclaw_safety/src/sanitizer.rs] and [policy.rs].  The regex crate is
    [RegexEngine], the aho-corasick crate [MultiMatcher]; [to_lowercase] is the
    standard library's full Unicode mapping. *)

From Stdlib Require Import Ascii.
From S2P Require Import Prelude Text TextSearch Provider ReplyText LeakDetector.

(** ** Policy *)

Inductive Severity : Type := Low | Medium | High | Critical.

#[export] Instance Severity_eq_dec : EqDecision Severity.
Proof. solve_decision. Defined.

Definition severity_value (s : Severity) : nat :=
  match s with Low => 1 | Medium => 2 | High => 3 | Critical => 4 end.

Inductive PolicyAction : Type := PolicyWarn | PolicyBlock | PolicyReview | PolicySanitize.

#[export] Instance PolicyAction_eq_dec : EqDecision PolicyAction.
Proof. solve_decision. Defined.

Record PolicyRule : Type := mkPolicyRule {
  rule_id : string;
  rule_description : string;
  rule_severity : Severity;
  rule_pattern : string;
  rule_action : PolicyAction
}.

Definition Policy : Type := list PolicyRule.

Definition policy_new : Policy := [].
Definition add_rule (r : PolicyRule) (p : Policy) : Policy := p ++ [r].

Section policy.
  Context `{RegexEngine}.

(** [Regex::new(pattern)?] *)
Definition rule_new (id description pattern : string) (severity : Severity) (action : PolicyAction)
    : Result string PolicyRule :=
  if regex_valid pattern then Ok (mkPolicyRule id description severity pattern action)
  else Err pattern.

Definition rule_matches (r : PolicyRule) (content : string) : bool :=
  is_match (rule_pattern r) content.

Definition policy_check (p : Policy) (content : string) : list PolicyRule :=
  List.filter (fun r => rule_matches r content) p.

Definition has_action (a : PolicyAction) (r : PolicyRule) : bool := bool_decide (rule_action r = a).

Definition is_blocked (p : Policy) (content : string) : bool :=
  existsb (has_action PolicyBlock) (policy_check p content).

End policy.

Definition policy_default : Policy :=
  [mkPolicyRule "system_file_access" "Attempt to access system files" Critical
     "(?i)(/etc/passwd|/etc/shadow|\.ssh/|\.aws/credentials)" PolicyBlock;
   mkPolicyRule "crypto_private_key" "Potential cryptocurrency private key" Critical
     "(?i)(private.?key|seed.?phrase|mnemonic).{0,20}[0-9a-f]{64}" PolicyBlock;
   mkPolicyRule "sql_pattern" "SQL-like pattern detected" Medium
     "(?i)(DROP\s+TABLE|DELETE\s+FROM|INSERT\s+INTO|UPDATE\s+\w+\s+SET)" PolicyWarn;
   mkPolicyRule "shell_injection" "Potential shell command injection" Critical
     "(?i)(;\s*rm\s+-rf|;\s*curl\s+.*\|\s*sh)" PolicyBlock;
   mkPolicyRule "excessive_urls" "Excessive number of URLs detected" Low
     "(https?://[^\s]+\s*){10,}" PolicyWarn;
   mkPolicyRule "encoded_exploit" "Potential encoded exploit payload" High
     "(?i)(base64_decode|eval\s*\(\s*base64|atob\s*\()" PolicySanitize;
   mkPolicyRule "obfuscated_string" "Potential obfuscated content" Medium
     "[^\s]{500,}" PolicyWarn].

(** ** Sanitizer *)

Record InjectionWarning : Type := mkWarning {
  iw_pattern : string;
  iw_severity : Severity;
  iw_location : nat * nat;
  iw_description : string
}.

Record SanitizedOutput : Type := mkSanitized {
  so_content : string;
  so_warnings : list InjectionWarning;
  so_was_modified : bool
}.

Record PatternInfo : Type := mkPatternInfo {
  pi_pattern : string;
  pi_severity : Severity;
  pi_description : string
}.

Record RegexPattern : Type := mkRegexPattern {
  rp_regex : string;
  rp_name : string;
  rp_severity : Severity;
  rp_description : string
}.

Record Sanitizer : Type := mkSanitizer {
  san_patterns : list PatternInfo;
  san_regex_patterns : list RegexPattern
}.

Definition injection_patterns : list PatternInfo :=
  [mkPatternInfo "ignore previous" High "Attempt to override previous instructions";
   mkPatternInfo "ignore all previous" Critical "Attempt to override all previous instructions";
   mkPatternInfo "disregard" Medium "Potential instruction override";
   mkPatternInfo "forget everything" High "Attempt to reset context";
   mkPatternInfo "you are now" High "Attempt to change assistant role";
   mkPatternInfo "act as" Medium "Potential role manipulation";
   mkPatternInfo "pretend to be" Medium "Potential role manipulation";
   mkPatternInfo "system:" Critical "Attempt to inject system message";
   mkPatternInfo "assistant:" High "Attempt to inject assistant response";
   mkPatternInfo "user:" High "Attempt to inject user message";
   mkPatternInfo "<|" Critical "Potential special token injection";
   mkPatternInfo "|>" Critical "Potential special token injection";
   mkPatternInfo "[INST]" Critical "Potential instruction token injection";
   mkPatternInfo "[/INST]" Critical "Potential instruction token injection";
   mkPatternInfo "new instructions" High "Attempt to provide new instructions";
   mkPatternInfo "updated instructions" High "Attempt to update instructions";
   mkPatternInfo "```system" High "Potential code block instruction injection";
   mkPatternInfo (cat ["```bash"; nl_str; "sudo"]) Medium "Potential dangerous command injection"].

Definition injection_regexes : list RegexPattern :=
  [mkRegexPattern "(?i)base64[:\s]+[A-Za-z0-9+/=]{50,}" "base64_payload" Medium "Potential encoded payload";
   mkRegexPattern "(?i)eval\s*\(" "eval_call" High "Potential code evaluation attempt";
   mkRegexPattern "(?i)exec\s*\(" "exec_call" High "Potential code execution attempt";
   mkRegexPattern "\x00" "null_byte" Critical "Null byte injection attempt"].

Definition sanitizer_new : Sanitizer := mkSanitizer injection_patterns injection_regexes.

Section sanitize.
  Context `{RegexEngine} `{MultiMatcher}.
  Variable to_lowercase : string -> string.

Definition escape_line (line : string) : string :=
  let trimmed := to_lowercase (trim_start line) in
  if (starts_with "system:" trimmed || starts_with "user:" trimmed ||
      starts_with "assistant:" trimmed)%bool
  then "[ESCAPED] " +:+ line else line.

Definition escape_tokens (content : string) : string :=
  let escaped := str_replace "<|" "\<|" content in
  let escaped := str_replace "|>" "|\>" escaped in
  let escaped := str_replace "[INST]" "\[INST]" escaped in
  str_replace "[/INST]" "\[/INST]" escaped.

Definition escape_content (content : string) : string :=
  let escaped := str_replace nul_str "" (escape_tokens content) in
  str_join nl_str (escape_line <$> lines escaped).

(** The matches of the automaton, then those of each regex. *)
Definition injection_warnings (s : Sanitizer) (content : string) : list InjectionWarning :=
  omap (fun '(i, loc) =>
    (fun p => mkWarning (pi_pattern p) (pi_severity p) loc (pi_description p)) <$>
      (san_patterns s !! i))
    (ac_find_iter true (pi_pattern <$> san_patterns s) content) ++
  flat_map (fun p => (fun loc => mkWarning (rp_name p) (rp_severity p) loc (rp_description p)) <$>
                       find_iter (rp_regex p) content) (san_regex_patterns s).

Definition is_critical (w : InjectionWarning) : bool := bool_decide (iw_severity w = Critical).

(** [sort_by_key(|b| Reverse(b.severity))] *)
Definition by_severity (w : InjectionWarning) : nat := 4 - severity_value (iw_severity w).

Definition sanitize (s : Sanitizer) (content : string) : SanitizedOutput :=
  let warnings := sort_by by_severity (injection_warnings s content) in
  if existsb is_critical warnings then mkSanitized (escape_content content) warnings true
  else mkSanitized content warnings false.

Definition detect (s : Sanitizer) (content : string) : list InjectionWarning :=
  so_warnings (sanitize s content).

(** Sanitizing reports every detection, the most severe first, and rewrites the
    text exactly when one of them is critical; otherwise the text is untouched. *)
Theorem sanitize_spec s content :
  let out := sanitize s content in
  so_warnings out ≡ₚ injection_warnings s content ∧
  StronglySorted (fun a b => severity_value (iw_severity b) ≤ severity_value (iw_severity a))
    (so_warnings out) ∧
  (so_was_modified out = true ↔
     ∃ w, w ∈ injection_warnings s content ∧ iw_severity w = Critical) ∧
  so_content out = (if so_was_modified out then escape_content content else content).
Proof.
  assert (∀ ws, existsb is_critical (sort_by by_severity ws) = true ↔
            ∃ w, w ∈ ws ∧ iw_severity w = Critical) as Hcrit.
  { intros ws. rewrite (existsb_perm _ _ _ (sort_by_perm by_severity ws)), existsb_exists.
    unfold is_critical. split.
    - intros (w & Hw%list_elem_of_In & Hc%bool_decide_eq_true). eauto.
    - intros (w & Hw & Hc). exists w. rewrite <-list_elem_of_In. split; [done|].
      by apply bool_decide_eq_true. }
  assert (∀ ws, StronglySorted (fun a b => severity_value (iw_severity b) ≤
            severity_value (iw_severity a)) (sort_by by_severity ws)) as Hsorted.
  { intros ws. induction (sort_by_sorted by_severity ws) as [|a l Hl IH Ha]; constructor; [done|].
    eapply Forall_impl; [exact Ha|]. intros b. unfold by_severity.
    destruct (iw_severity a), (iw_severity b); simpl; lia. }
  simpl. unfold sanitize. specialize (Hcrit (injection_warnings s content)).
  destruct (existsb is_critical _); simpl;
    (split; [apply sort_by_perm|split; [apply Hsorted|split; [done|done]]]).
Qed.

(** A special token with null bytes inside its brackets. *)
Definition split_token : string :=
  cat ["<"; nul_str; "|im_start|"; nul_str; ">"].

(** Null bytes are removed after the special tokens have been escaped, so a token
    whose brackets they split is put together again: the sanitized text, which counts
    as escaped, holds a bare special token. *)
Theorem null_bytes_rebuild_token :
  find_iter "\x00" split_token = [(1, 2); (12, 13)] →
  so_was_modified (sanitize sanitizer_new split_token) = true ∧
  contains "<|im_start|>" (so_content (sanitize sanitizer_new split_token)) = true ∧
  contains "\<|" (so_content (sanitize sanitizer_new split_token)) = false.
Proof.
  intros Hn.
  assert (so_was_modified (sanitize sanitizer_new split_token) = true) as Hm.
  { unfold sanitize.
    rewrite (existsb_perm _ _ _ (sort_by_perm by_severity _)).
    destruct (existsb is_critical _) eqn:Hc; [done|]. rewrite <-Hc. symmetry.
    unfold injection_warnings. rewrite existsb_app. cbn [sanitizer_new san_regex_patterns].
    unfold injection_regexes. cbn [flat_map rp_regex]. rewrite Hn, !existsb_app. simpl.
    by rewrite !orb_true_r. }
  split; [done|].
  assert (so_content (sanitize sanitizer_new split_token) = escape_content split_token) as ->.
  { revert Hm. unfold sanitize. by destruct (existsb is_critical _). }
  unfold escape_content.
  assert (lines (str_replace nul_str "" (escape_tokens split_token)) = ["<|im_start|>"]) as ->
    by (vm_compute; reflexivity).
  cbn [fmap list_fmap str_join]. unfold escape_line. case_match; vm_compute; done.
Qed.

End sanitize.

(** An engine that knows the regex for null bytes. *)
Definition nul_engine : RegexEngine := {|
  regex_valid := fun _ => true;
  is_match := fun re s => (re =? "\x00")%string && contains nul_str s;
  find_iter := fun re s =>
    if (re =? "\x00")%string then (fun n => (n, S n)) <$> match_indices nul_str s else [];
  capture1 := fun _ _ => None
|}.

Lemma null_bytes_rebuild_token_witness :
  so_was_modified (@sanitize nul_engine demo_matcher id sanitizer_new split_token) = true.
Proof.
  refine (proj1 (@null_bytes_rebuild_token nul_engine demo_matcher id _)).
  vm_compute. reflexivity.
Defined.
