(* ===== verification/Validator.v ===== *)
(** * Validator: input validation and manual credentials

    [crates/ironclaw_safety/src/validator.rs] and [credential_detect.rs].
    [to_lowercase] is the standard library's full Unicode mapping, [url_parse] the
    url crate. *)

From Stdlib Require Import Ascii.
From stdpp Require Import pretty.
From S2P Require Import Prelude Text TextSearch Provider ReplyText LeakDetector F64.

(** ** Validation results *)

Inductive ValidationErrorCode : Type :=
| VEmpty | VTooLong | VTooShort | VInvalidFormat | VForbiddenContent | VInvalidEncoding
| VSuspiciousPattern.

Record ValidationError : Type := mkVError {
  ve_field : string;
  ve_message : string;
  ve_code : ValidationErrorCode
}.

Record ValidationResult : Type := mkVResult {
  is_valid : bool;
  vr_errors : list ValidationError;
  vr_warnings : list string
}.

Definition vr_ok : ValidationResult := mkVResult true [] [].
Definition vr_error (e : ValidationError) : ValidationResult := mkVResult false [e] [].
Definition with_warning (w : string) (r : ValidationResult) : ValidationResult :=
  mkVResult (is_valid r) (vr_errors r) (vr_warnings r ++ [w]).
Definition merge (self other : ValidationResult) : ValidationResult :=
  mkVResult (is_valid self && is_valid other) (vr_errors self ++ vr_errors other)
    (vr_warnings self ++ vr_warnings other).

(** The set of forbidden patterns as the list of its elements in the order of the
    iteration. *)
Record Validator : Type := mkValidator {
  v_max_length : Z;
  v_min_length : Z;
  forbidden_patterns : list string
}.

Definition validator_new : Validator := mkValidator 100000 1 [].
Definition with_max_length (max : Z) (v : Validator) : Validator :=
  mkValidator max (v_min_length v) (forbidden_patterns v).
Definition with_min_length (min : Z) (v : Validator) : Validator :=
  mkValidator (v_max_length v) min (forbidden_patterns v).

(** ** Padding checks *)

Fixpoint repeat_loop (prev : string) (cs : list string) (current max_repeat : nat) : nat :=
  match cs with
  | [] => max_repeat
  | c :: cs =>
      if (c =? prev)%string then repeat_loop c cs (S current) (max max_repeat (S current))
      else repeat_loop c cs 1 max_repeat
  end.

Definition has_excessive_repetition (s : string) : bool :=
  if (String.length s <? 50)%nat then false
  else (20 <? match chars s with [] => 1 | c :: cs => repeat_loop c cs 1 1 end)%nat.

Definition is_whitespace (c : string) : bool := existsb (String.eqb c) whitespace.

Definition whitespace_ratio (s : string) : f64 :=
  f64_ratio (Z.of_nat (length (List.filter is_whitespace (chars s)))) (Z.of_nat (String.length s)).

Section validate.
  Variable to_lowercase : string -> string.

Definition forbid_pattern (p : string) (v : Validator) : Validator :=
  let p := to_lowercase p in
  mkValidator (v_max_length v) (v_min_length v)
    (if bool_decide (p ∈ forbidden_patterns v) then forbidden_patterns v
     else forbidden_patterns v ++ [p]).

(** One check: the error is merged in when the condition holds. *)
Definition fail_if (b : bool) (e : ValidationError) (r : ValidationResult) : ValidationResult :=
  if b then merge r (vr_error e) else r.

Definition check_forbidden (lower_input field : string) (r : ValidationResult) (p : string)
    : ValidationResult :=
  fail_if (contains p lower_input)
    (mkVError field ("Input contains forbidden pattern: " +:+ p) VForbiddenContent) r.

Definition validate_non_empty_input (v : Validator) (input field : string) : ValidationResult :=
  let len := Z.of_nat (String.length input) in
  let result := vr_ok in
  let result := fail_if (v_max_length v <? len)%Z
    (mkVError field (cat ["Input too long: "; pretty len; " bytes (max ";
                          pretty (v_max_length v); ")"]) VTooLong) result in
  let result := fail_if (len <? v_min_length v)%Z
    (mkVError field (cat ["Input too short: "; pretty len; " bytes (min ";
                          pretty (v_min_length v); ")"]) VTooShort) result in
  let result := fail_if (existsb (String.eqb nul_str) (chars input))
    (mkVError field "Input contains null bytes" VInvalidEncoding) result in
  let result := foldl (check_forbidden (to_lowercase input) field) result (forbidden_patterns v) in
  let result :=
    if (f64_ltb (f64_ratio 9 10) (whitespace_ratio input) && (100 <? len)%Z)%bool
    then with_warning "Input has unusually high whitespace ratio" result else result in
  if has_excessive_repetition input
  then with_warning "Input has excessive character repetition" result else result.

Definition validate (v : Validator) (input : string) : ValidationResult :=
  if str_is_empty input then vr_error (mkVError "input" "Input cannot be empty" VEmpty)
  else validate_non_empty_input v input "input".

Definition MAX_DEPTH : nat := 32.

(** [depth] counts up from the root and the values below [MAX_DEPTH] are not
    visited. *)
Fixpoint check_strings (v : Validator) (value : Json) (path : string) (result : ValidationResult)
    (depth : nat) : ValidationResult :=
  if (MAX_DEPTH <? depth)%nat then result
  else match value with
  | JString s =>
      merge result (if str_is_empty s then vr_ok else validate_non_empty_input v s path)
  | JArray arr =>
      (fix go (i : nat) (l : list Json) (result : ValidationResult) : ValidationResult :=
         match l with
         | [] => result
         | item :: l =>
             go (S i) l (check_strings v item (cat [path; "["; show_nat i; "]"]) result (S depth))
         end) 0 arr result
  | JObject obj =>
      (fix go (l : list (string * Json)) (result : ValidationResult) : ValidationResult :=
         match l with
         | [] => result
         | (k, x) :: l =>
             let child_path := if str_is_empty path then k else cat [path; "."; k] in
             go l (check_strings v x child_path result (S depth))
         end) obj result
  | _ => result
  end.

Definition validate_tool_params (v : Validator) (params : Json) : ValidationResult :=
  check_strings v params "" vr_ok 0.

(** ** What is accepted *)

Definition acceptable (v : Validator) (s : string) : Prop :=
  (v_min_length v ≤ Z.of_nat (String.length s) ≤ v_max_length v)%Z ∧
  (nul_str ∉ chars s) ∧
  Forall (fun p => contains p (to_lowercase s) = false) (forbidden_patterns v).

Lemma is_valid_fail_if b e r : is_valid (fail_if b e r) = (is_valid r && negb b)%bool.
Proof. destruct b, r as [[] ? ?]; done. Qed.

Lemma is_valid_forbidden lower field ps r :
  is_valid (foldl (check_forbidden lower field) r ps) = true ↔
  is_valid r = true ∧ Forall (fun p => contains p lower = false) ps.
Proof.
  revert r; induction ps as [|p ps IH]; intros r; simpl; [rewrite Forall_nil; naive_solver|].
  rewrite IH. unfold check_forbidden. rewrite is_valid_fail_if, Forall_cons, andb_true_iff, negb_true_iff.
  naive_solver.
Qed.

Lemma validate_non_empty_iff v s field :
  is_valid (validate_non_empty_input v s field) = true ↔ acceptable v s.
Proof.
  unfold validate_non_empty_input, acceptable. cbv zeta.
  match goal with |- is_valid (if ?b then with_warning _ ?r else ?r) = _ ↔ _ =>
    transitivity (is_valid r = true); [by destruct b|] end.
  match goal with |- is_valid (if ?b then with_warning _ ?r else ?r) = _ ↔ _ =>
    transitivity (is_valid r = true); [by destruct b|] end.
  rewrite is_valid_forbidden, !is_valid_fail_if. cbn [is_valid vr_ok].
  rewrite !andb_true_iff, !negb_true_iff, !Z.ltb_ge.
  assert (existsb (String.eqb nul_str) (chars s) = false ↔
          (nul_str ∉ chars s)) as ->; [|naive_solver].
  rewrite <-not_true_iff_false, existsb_exists. apply not_iff_compat. split.
  - intros (x & Hx%list_elem_of_In & <-%String.eqb_eq). done.
  - intros Hx. eexists. rewrite <-list_elem_of_In. split; [done|]. by apply String.eqb_eq.
Qed.

(** Input is accepted exactly when it is not empty, its byte length is within the
    limits, no character is a null and no forbidden pattern is in its lower-case form. *)
Theorem validate_accepts_iff v s :
  is_valid (validate v s) = true ↔ s ≠ "" ∧ acceptable v s.
Proof.
  unfold validate. destruct (str_is_empty s) eqn:Hs.
  - apply str_is_empty_iff in Hs. simpl. naive_solver.
  - rewrite validate_non_empty_iff. split; [|naive_solver]. intros Ha. split; [|done].
    intros ->. discriminate Hs.
Qed.

(** The strings of a value with their depth; keys are not among them. *)
Inductive string_at : Json -> nat -> string -> Prop :=
| sa_string s : string_at (JString s) 0 s
| sa_array l x d s : x ∈ l → string_at x d s → string_at (JArray l) (S d) s
| sa_object l k x d s : (k, x) ∈ l → string_at x d s → string_at (JObject l) (S d) s.

Definition strings_ok (v : Validator) (k : nat) (value : Json) : Prop :=
  ∀ d s, string_at value d s → d < k → s = "" ∨ acceptable v s.

Lemma strings_ok_array v k l :
  strings_ok v (S k) (JArray l) ↔ Forall (strings_ok v k) l.
Proof.
  rewrite Forall_forall. split.
  - intros Hs x Hx d s Hat Hd. eapply Hs; [by eapply sa_array|lia].
  - intros Hl d s Hat Hd. inversion Hat as [|? x d' ? Hx Hat'|]; subst.
    eapply (Hl x); [done..|lia].
Qed.

Lemma strings_ok_object v k l :
  strings_ok v (S k) (JObject l) ↔ Forall (fun kx => strings_ok v k kx.2) l.
Proof.
  rewrite Forall_forall. split.
  - intros Hs [key x] Hx d s Hat Hd. eapply Hs; [by eapply sa_object|lia].
  - intros Hl d s Hat Hd. inversion Hat as [| |? key x d' ? Hx Hat']; subst.
    eapply (Hl (key, x)); [done..|lia].
Qed.

Lemma check_strings_valid v k : ∀ value path r depth, depth + k = S MAX_DEPTH →
  is_valid (check_strings v value path r depth) = true ↔ is_valid r = true ∧ strings_ok v k value.
Proof.
  induction k as [|k IH]; intros value path r depth Hk.
  { assert (check_strings v value path r depth = r) as ->.
    { destruct value; simpl; by rewrite (proj2 (Nat.ltb_lt MAX_DEPTH depth)) by lia. }
    split; [|naive_solver]. intros Hr. split; [done|]. intros d s _ Hd. lia. }
  assert ((MAX_DEPTH <? depth)%nat = false) as Hd by (apply Nat.ltb_ge; lia).
  assert (∀ x p r, is_valid (check_strings v x p r (S depth)) = true ↔
            is_valid r = true ∧ strings_ok v k x) as IH' by (intros; apply IH; lia).
  destruct value as [|b|n|s|l|l]; cbn [check_strings]; rewrite Hd.
  1-3: split; [|naive_solver]; intros Hr; split; [done|]; intros d s Hat; inversion Hat.
  - cbn [is_valid merge]. rewrite andb_true_iff.
    assert (is_valid (if str_is_empty s then vr_ok else validate_non_empty_input v s path) = true ↔
            s = "" ∨ acceptable v s) as ->.
    { destruct (str_is_empty s) eqn:Hs.
      - apply str_is_empty_iff in Hs. simpl. naive_solver.
      - rewrite validate_non_empty_iff. split; [by right|]. by intros [->|?]. }
    split; intros [Hr Hs]; (split; [done|]).
    + intros d t Hat _. by inversion Hat; subst.
    + apply (Hs 0 s); [constructor|lia].
  - rewrite strings_ok_array. generalize 0 as i. revert r.
    induction l as [|x l IHl]; intros r i; [rewrite Forall_nil; naive_solver|].
    rewrite IHl, IH', Forall_cons. naive_solver.
  - rewrite strings_ok_object. revert r.
    induction l as [|[key x] l IHl]; intros r; [rewrite Forall_nil; naive_solver|].
    rewrite IHl, IH', Forall_cons. naive_solver.
Qed.

Lemma validate_tool_params_iff v params :
  is_valid (validate_tool_params v params) = true ↔
  ∀ d s, string_at params d s → d ≤ MAX_DEPTH → s = "" ∨ acceptable v s.
Proof.
  unfold validate_tool_params. rewrite (check_strings_valid v (S MAX_DEPTH)) by done. simpl.
  split.
  - intros [_ Hs] d s Hat Hd. eapply Hs; [done|lia].
  - intros Hs. split; [done|]. intros d s Hat Hd. eapply Hs; [done|lia].
Qed.

(** Tool parameters are accepted exactly when every string value down to the
    depth limit is empty or acceptable on its own; strings nested deeper than the limit
    are not looked at. *)
Theorem tool_params_valid_iff v params :
  is_valid (validate_tool_params v params) = true ↔
  ∀ d s, string_at params d s → d ≤ MAX_DEPTH → s = "" ∨ acceptable v s.
Proof. apply validate_tool_params_iff. Qed.

End validate.

(** ** Manual credentials *)

Definition AUTH_HEADER_EXACT : list string :=
  ["authorization"; "proxy-authorization"; "cookie"; "x-api-key"; "api-key"; "x-auth-token";
   "x-token"; "x-access-token"; "x-session-token"; "x-csrf-token"; "x-secret"; "x-api-secret"].

Definition AUTH_HEADER_SUBSTRINGS : list string :=
  ["auth"; "token"; "secret"; "credential"; "password"].

Definition AUTH_VALUE_PREFIXES : list string :=
  ["bearer "; "basic "; "token "; "digest "; "hoba "; "mutual "; "aws4-hmac-sha256 "].

Definition AUTH_QUERY_EXACT : list string :=
  ["api_key"; "apikey"; "api-key"; "access_token"; "token"; "key"; "secret"; "password"; "auth";
   "auth_token"; "session_token"; "client_secret"; "client_id"; "app_key"; "app_secret"; "sig";
   "signature"].

Definition AUTH_QUERY_SUBSTRINGS : list string :=
  ["token"; "secret"; "auth"; "password"; "credential"].

(** What the url crate gives of a parsed address. *)
Record ParsedUrl : Type := mkUrl {
  query_pairs : list (string * string);
  username : string;
  password : option string
}.

Section credentials.
  Variable to_lowercase : string -> string.
  Variable url_parse : string -> option ParsedUrl.

Definition header_name_is_credential (name : string) : bool :=
  let lower := to_lowercase name in
  if existsb (String.eqb lower) AUTH_HEADER_EXACT then true
  else existsb (fun sub => contains sub lower) AUTH_HEADER_SUBSTRINGS.

Definition header_value_is_credential (value : string) : bool :=
  let lower := to_lowercase value in
  existsb (fun pfx => starts_with pfx lower) AUTH_VALUE_PREFIXES.

(** [v.is_some_and(f)] *)
Definition is_some_and {A} (f : A -> bool) (o : option A) : bool := from_option f false o.

Definition headers_contain_credentials (params : Json) : bool :=
  match json_get "headers" params with
  | Some (JObject map) =>
      existsb (fun '(k, v) => header_name_is_credential k ||
                              is_some_and header_value_is_credential (as_str v)) map
  | Some (JArray items) =>
      existsb (fun item =>
        let name_match := is_some_and header_name_is_credential (json_get "name" item ≫= as_str) in
        let value_match :=
          is_some_and header_value_is_credential (json_get "value" item ≫= as_str) in
        name_match || value_match) items
  | _ => false
  end.

Definition query_param_is_credential (name : string) : bool :=
  let lower := to_lowercase name in
  if existsb (String.eqb lower) AUTH_QUERY_EXACT then true
  else existsb (fun sub => contains sub lower) AUTH_QUERY_SUBSTRINGS.

Definition parsed_url (params : Json) : option ParsedUrl :=
  (json_get "url" params ≫= as_str) ≫= url_parse.

Definition url_contains_credential_params (params : Json) : bool :=
  is_some_and (fun u => existsb (fun '(name, _) => query_param_is_credential name) (query_pairs u))
    (parsed_url params).

Definition url_contains_userinfo (params : Json) : bool :=
  is_some_and (fun u => negb (str_is_empty (username u)) || is_some_and (fun _ => true) (password u))
    (parsed_url params).

Definition params_contain_manual_credentials (params : Json) : bool :=
  headers_contain_credentials params || url_contains_credential_params params ||
  url_contains_userinfo params.

(** The two shapes in which headers are given. *)
Definition headers_as_object (headers : list (string * string)) : Json :=
  JObject [("headers", JObject (prod_map id JString <$> headers))].
Definition headers_as_array (headers : list (string * string)) : Json :=
  JObject [("headers", JArray ((fun '(k, v) =>
    JObject [("name", JString k); ("value", JString v)]) <$> headers))].

(** Both shapes of the headers are judged alike: credentials are reported exactly
    when some header has a credential's name or a value with an authentication scheme. *)
Theorem header_shapes_agree headers :
  let carries := existsb (fun '(k, v) => header_name_is_credential k ||
                                         header_value_is_credential v) headers in
  params_contain_manual_credentials (headers_as_object headers) = carries ∧
  params_contain_manual_credentials (headers_as_array headers) = carries.
Proof.
  assert (∀ x, params_contain_manual_credentials (JObject [("headers", x)]) =
            headers_contain_credentials (JObject [("headers", x)])) as Hp.
  { intros x. unfold params_contain_manual_credentials. cbn [url_contains_credential_params].
    by rewrite !orb_false_r. }
  unfold headers_as_object, headers_as_array. rewrite !Hp. unfold headers_contain_credentials.
  change (json_get "headers" (JObject [("headers", ?x)])) with (Some x).
  split; (induction headers as [|[k v] hs IH]; [done|]; cbn [fmap list_fmap existsb]; by rewrite IH).
Qed.

End credentials.
