(* ===== verification/ToolParams.v ===== *)
(** * ToolParams: parameters of tool calls

    [src/tools/coercion.rs] brings the values a model sent into the shape of the
    tool's schema; [src/tools/redaction.rs] and [redact_params] of [tool.rs] hide
    secrets before parameters are logged or shown.  An object is the list of its
    entries in the order of the keys, as in the maps of serde_json. *)

From Stdlib Require Import Ascii.
From stdpp Require Import pretty.
From S2P Require Import Prelude Text TextSearch ReplyText F64.

(** ** JSON helpers *)

Fixpoint json_eqb (a b : Json) {struct a} : bool :=
  match a, b with
  | JNull, JNull => true
  | JBool x, JBool y => Bool.eqb x y
  | JNumber x, JNumber y => (x =? y)%string
  | JString x, JString y => (x =? y)%string
  | JArray x, JArray y =>
      (fix go (x y : list Json) : bool :=
         match x, y with
         | [], [] => true
         | a :: x, b :: y => json_eqb a b && go x y
         | _, _ => false
         end) x y
  | JObject x, JObject y =>
      (fix go (x y : list (string * Json)) : bool :=
         match x, y with
         | [], [] => true
         | (k, a) :: x, (k', b) :: y => (k =? k')%string && json_eqb a b && go x y
         | _, _ => false
         end) x y
  | _, _ => false
  end.

Abbreviation Map := (list (string * Json)).

Definition map_get (k : string) (m : Map) : option Json := json_get k (JObject m).

(** [map.insert(k, v)] *)
Fixpoint map_insert (k : string) (v : Json) (m : Map) : Map :=
  match m with
  | [] => [(k, v)]
  | (k', v') :: m' =>
      match String.compare k k' with
      | Eq => (k, v) :: m'
      | Lt => (k, v) :: m
      | Gt => (k', v') :: map_insert k v m'
      end
  end.

(** [map.extend(other)] *)
Definition map_extend (m other : Map) : Map := foldl (fun m kv => map_insert kv.1 kv.2 m) m other.

Definition as_array (v : Json) : option (list Json) :=
  match v with JArray l => Some l | _ => None end.
Definition as_object (v : Json) : option Map :=
  match v with JObject l => Some l | _ => None end.
Definition has_key (k : string) (v : Json) : bool :=
  match json_get k v with Some _ => true | None => false end.
Definition is_object (v : Json) : bool := match v with JObject _ => true | _ => false end.

(** [s.split(c)] *)
Fixpoint split_char (c : ascii) (s : string) : list string :=
  match s with
  | EmptyString => [""]
  | String d r =>
      if ascii_dec c d then "" :: split_char c r
      else match split_char c r with
           | [] => [String d ""]
           | x :: l => String d x :: l
           end
  end.

(** ** Numbers in strings *)

Definition i64_in_range (z : Z) : bool := ((- 2 ^ 63 <=? z) && (z <=? 2 ^ 63 - 1))%Z.

(** [s.parse::<i64>()] *)
Definition parse_i64 (s : string) : option Z :=
  let go (neg : bool) (ds : string) : option Z :=
    match ds with
    | EmptyString => None
    | _ => n ← parse_digits ds 0;
           let z := if neg then (- n)%Z else n in
           if i64_in_range z then Some z else None
    end in
  match s with
  | String "+" r => go false r
  | String "-" r => go true r
  | _ => go false s
  end.

Definition is_digit (c : ascii) : bool := match digit_of c with Some _ => true | None => false end.

(** The exponent part: nothing, or [e], an optional sign and digits. *)
Definition parse_exponent (s : string) : option Z :=
  match s with
  | EmptyString => Some 0%Z
  | String c r =>
      if (Ascii.eqb c "e" || Ascii.eqb c "E")%bool then
        match r with
        | String "+" (String _ _ as ds) => parse_digits ds 0
        | String "-" (String _ _ as ds) => Z.opp <$> parse_digits ds 0
        | String _ _ => parse_digits r 0
        | EmptyString => None
        end
      else None
  end.

(** [s.parse::<f64>()] without the sign. *)
Definition parse_f64_unsigned (s : string) : option f64 :=
  let lower := string_map ascii_lower s in
  if ((lower =? "inf") || (lower =? "infinity"))%string then Some (SpecFloat.S754_infinity false)
  else if (lower =? "nan")%string then Some SpecFloat.S754_nan
  else
    let n := span_len is_digit s in
    let int_part := str_to n s in
    let rest := str_from n s in
    let '(frac_part, rest) :=
      match rest with
      | String "." r => let k := span_len is_digit r in (str_to k r, str_from k r)
      | _ => ("", rest)
      end in
    if (str_is_empty int_part && str_is_empty frac_part)%bool then None
    else
      e ← parse_exponent rest;
      m ← parse_digits (int_part +:+ frac_part) 0;
      Some (f64_of_decimal m (e - Z.of_nat (String.length frac_part))%Z).

Definition parse_f64 (s : string) : option f64 :=
  match s with
  | String "+" r => parse_f64_unsigned r
  | String "-" r => SpecFloat.SFopp <$> parse_f64_unsigned r
  | _ => parse_f64_unsigned s
  end.

(** ** References *)

Definition MAX_REF_DEPTH : nat := 16.

Definition resolve_ref_pointer (ref_str : string) (definitions : Json) : option Json :=
  path ← strip_prefix "#/" ref_str;
  match split_char "/" path with
  | [root; name] =>
      if ((root =? "definitions") || (root =? "$defs"))%string then json_get name definitions else None
  | _ => None
  end.

(** [budget] is what is left of the depth limit, one more than [MAX_REF_DEPTH - depth]. *)
Fixpoint resolve_refs_inner (budget : nat) (schema definitions : Json) : Json :=
  match budget with
  | O => schema
  | S budget =>
      match schema with
      | JObject obj =>
          match map_get "$ref" obj ≫= as_str with
          | Some ref_str =>
              match resolve_ref_pointer ref_str definitions with
              | Some target => resolve_refs_inner budget target definitions
              | None => schema
              end
          | None =>
              JObject ((fun '(k, v) =>
                (k, if ((k =? "definitions") || (k =? "$defs"))%string then v
                    else resolve_refs_inner budget v definitions)) <$> obj)
          end
      | JArray arr => JArray ((fun v => resolve_refs_inner budget v definitions) <$> arr)
      | _ => schema
      end
  end.

Definition resolve_refs (schema : Json) : Json :=
  let definitions :=
    match json_get "definitions" schema with
    | Some d => d
    | None => default JNull (json_get "$defs" schema)
    end in
  resolve_refs_inner (S MAX_REF_DEPTH) schema definitions.

(** ** Schema lookups *)

Definition schema_allows_type (schema : Json) (expected : string) : bool :=
  match json_get "type" schema with
  | Some (JString t) => (t =? expected)%string
  | Some (JArray types) => existsb (fun t => bool_decide (as_str t = Some expected)) types
  | _ =>
      if (expected =? "object")%string then
        bool_decide (is_Some (json_get "properties" schema ≫= as_object)) ||
        has_key "oneOf" schema || has_key "anyOf" schema || has_key "allOf" schema
      else if (expected =? "array")%string then has_key "items" schema
      else false
  end.

(** [None] when a discriminator does not match, else how many there are. *)
Fixpoint count_discriminators (props obj : Map) : option nat :=
  match props with
  | [] => Some 0
  | (key, prop_schema) :: props =>
      let need (v : Json) : option nat :=
        match map_get key obj with
        | Some x => if json_eqb x v then S <$> count_discriminators props obj else None
        | None => None
        end in
      match json_get "const" prop_schema with
      | Some const_val => need const_val
      | None =>
          match json_get "enum" prop_schema ≫= as_array with
          | Some [v] => need v
          | _ => count_discriminators props obj
          end
      end
  end.

Definition variant_matches (obj : Map) (variant : Json) : bool :=
  match json_get "properties" variant ≫= as_object with
  | None => false
  | Some props =>
      match count_discriminators props obj with Some n => (0 <? n)%nat | None => false end
  end.

Definition find_discriminated_variant (variants : list Json) (obj : Map) : option Json :=
  List.find (variant_matches obj) variants.

Definition variant_props (variant : Json) : Map :=
  default [] (json_get "properties" variant ≫= as_object).

Definition discriminated (schema : Json) (obj : Map) (key : string) : option Json :=
  variants ← json_get key schema ≫= as_array;
  find_discriminated_variant variants obj.

Definition MAX_COMBINATOR_DEPTH : nat := 4.

(** [budget] is what is left of the depth limit, as in [resolve_refs_inner]. *)
Fixpoint collect_properties (budget : nat) (schema : Json) (obj : Map) : option Map :=
  match budget with
  | O => None
  | S budget =>
      if negb (has_key "allOf" schema || has_key "oneOf" schema || has_key "anyOf" schema) then None
      else
        let add (merged : Map) (variant : Json) : Map :=
          map_extend (map_extend merged (variant_props variant))
            (default [] (collect_properties budget variant obj)) in
        let merged := map_extend [] (variant_props schema) in
        let merged := foldl add merged (default [] (json_get "allOf" schema ≫= as_array)) in
        let merged := foldl (fun m key => match discriminated schema obj key with
                                          | Some variant => add m variant
                                          | None => m
                                          end) merged ["oneOf"; "anyOf"] in
        match merged with [] => None | _ => Some merged end
  end.

Definition resolve_effective_properties (schema : Json) (obj : Map) : option Map :=
  collect_properties (S MAX_COMBINATOR_DEPTH) schema obj.

Definition object_at (key : string) (v : Json) : option Json :=
  ap ← json_get key v; if is_object ap then Some ap else None.

Definition resolve_additional_properties (schema : Json) (obj : Map) : option Json :=
  let all_of := default [] (json_get "allOf" schema ≫= as_array) in
  match omap (object_at "additionalProperties") (rev all_of) with
  | ap :: _ => Some ap
  | [] =>
      match discriminated schema obj "oneOf" ≫= object_at "additionalProperties" with
      | Some ap => Some ap
      | None => discriminated schema obj "anyOf" ≫= object_at "additionalProperties"
      end
  end.

(** ** Coercion *)

Section coerce.
  (** Unicode lower-casing; serde's parser and its printer of numbers. *)
  Variable to_lowercase : string -> string.
  Variable json_from_str : string -> option Json.
  Variable print_f64 : f64 -> string.

(** [Value::from(v)] for an [f64]: null for an infinity or NaN. *)
Definition json_of_f64 (x : f64) : Json := if f64_is_finite x then JNumber (print_f64 x) else JNull.

(** The parse of a string that is not kept: the result, or the JSON value to coerce
    further. *)
Inductive StringCoercion : Type := Keep | Replace (v : Json) | Recurse (v : Json).

Definition parse_boolean (s : string) : option bool :=
  let lower := to_lowercase s in
  if (lower =? "true")%string then Some true
  else if (lower =? "false")%string then Some false else None.

Definition coerce_compound (s : string) (schema : Json) : StringCoercion :=
  if (schema_allows_type schema "array" || schema_allows_type schema "object")%bool then
    match json_from_str s with
    | None => Keep
    | Some parsed =>
        let matches_schema :=
          match parsed with
          | JArray _ => schema_allows_type schema "array"
          | JObject _ => schema_allows_type schema "object"
          | _ => false
          end in
        if matches_schema then Recurse parsed else Keep
    end
  else Keep.

Definition coerce_string_value (s : string) (schema : Json) : StringCoercion :=
  if (str_is_empty s && schema_allows_type schema "null" &&
      negb (schema_allows_type schema "string"))%bool then Replace JNull
  else if schema_allows_type schema "string" then Keep
  else if str_is_empty s then Keep
  else match (if schema_allows_type schema "integer" then parse_i64 s else None) with
  | Some v => Replace (JNumber (pretty v))
  | None =>
      match (if schema_allows_type schema "number" then parse_f64 s else None) with
      | Some v => Replace (json_of_f64 v)
      | None =>
          match (if schema_allows_type schema "boolean" then parse_boolean s else None) with
          | Some b => Replace (JBool b)
          | None => coerce_compound s schema
          end
      end
  end.

Definition required_keys (schema : Json) : list string :=
  omap as_str (default [] (json_get "required" schema ≫= as_array)).

(** An empty string for an optional property that is not a string. *)
Definition empty_optional (required : list string) (key : string) (current prop_schema : Json)
    : bool :=
  bool_decide (as_str current = Some "") && negb (bool_decide (key ∈ required)) &&
  (schema_allows_type prop_schema "null" || negb (schema_allows_type prop_schema "string")).

(** The recursion is not structural, because a string is parsed into a value that is
    coerced with the same schema: [None] when the fuel is used up. *)
Fixpoint coerce_value (fuel : nat) (value schema : Json) : option Json :=
  match fuel with
  | O => None
  | S fuel =>
      match value with
      | JString s =>
          match coerce_string_value s schema with
          | Keep => Some value
          | Replace v => Some v
          | Recurse v => coerce_value fuel v schema
          end
      | JArray items =>
          if negb (schema_allows_type schema "array") then Some value
          else match json_get "items" schema with
               | None => Some value
               | Some item_schema => JArray <$> mapM (fun i => coerce_value fuel i item_schema) items
               end
      | JObject obj =>
          if negb (schema_allows_type schema "object") then Some value
          else
            let properties := default (variant_props schema)
                                (resolve_effective_properties schema obj) in
            let additional_schema :=
              match object_at "additionalProperties" schema with
              | Some ap => Some ap
              | None => resolve_additional_properties schema obj
              end in
            let required := required_keys schema in
            JObject <$> mapM (fun '(key, current) =>
              pair key <$>
                match map_get key properties with
                | Some prop_schema =>
                    if empty_optional required key current prop_schema then Some JNull
                    else coerce_value fuel current prop_schema
                | None =>
                    match additional_schema with
                    | Some ap => coerce_value fuel current ap
                    | None => Some current
                    end
                end) obj
      | _ => Some value
      end
  end.

(** The nesting depth, which bounds the recursion. *)
Fixpoint depth (v : Json) : nat :=
  match v with
  | JArray l => S (list_max (depth <$> l))
  | JObject l => S (list_max ((fun kv => depth kv.2) <$> l))
  | _ => 0
  end.

Definition coerce_fuel (schema : Json) : nat := 2 * depth schema + 2.

Definition prepare_params_for_schema (params schema : Json) : Json :=
  let resolved := resolve_refs schema in
  default params (coerce_value (coerce_fuel resolved) params resolved).

(** ** Every call returns *)

Lemma list_max_ge x l : x ∈ l → x ≤ list_max l.
Proof.
  intros Hx. pose proof (proj1 (list_max_le l (list_max l)) (le_n _)) as Hf.
  rewrite List.Forall_forall in Hf. apply Hf. by apply list_elem_of_In.
Qed.

Lemma depth_array x l : x ∈ l → depth x < depth (JArray l).
Proof.
  intros Hx. cbn [depth]. apply Nat.lt_succ_r, list_max_ge, list_elem_of_fmap. eauto.
Qed.

Lemma depth_object k x l : (k, x) ∈ l → depth x < depth (JObject l).
Proof.
  intros Hx. cbn [depth]. apply Nat.lt_succ_r, list_max_ge, list_elem_of_fmap. by exists (k, x).
Qed.

Lemma json_get_in k v x : json_get k v = Some x → ∃ l, v = JObject l ∧ (k, x) ∈ l.
Proof.
  destruct v as [| | | | |l]; try done. cbn [json_get].
  intros ([i [k' y]] & Hf & ->)%fmap_Some. apply list_find_Some in Hf as (Hl & Hk & _).
  simpl in Hk. subst k'. exists l. split; [done|]. by eapply list_elem_of_lookup_2.
Qed.

Lemma depth_get k v x : json_get k v = Some x → depth x < depth v.
Proof. intros (l & -> & Hin)%json_get_in. by eapply depth_object. Qed.

Lemma as_array_in v l : as_array v = Some l → v = JArray l.
Proof. destruct v; naive_solver. Qed.

Lemma as_object_in v l : as_object v = Some l → v = JObject l.
Proof. destruct v; naive_solver. Qed.

Lemma map_get_in k m x : map_get k m = Some x → (k, x) ∈ m.
Proof. unfold map_get. intros (l & [= ->] & Hin)%json_get_in. done. Qed.

Lemma map_insert_Forall (P : string * Json → Prop) k v m :
  Forall P m → P (k, v) → Forall P (map_insert k v m).
Proof.
  intros Hm Hv. induction Hm as [|[k' v'] m Hk Hm IH]; simpl; [by constructor|].
  destruct (String.compare k k'); by repeat constructor.
Qed.

Lemma map_extend_Forall (P : string * Json → Prop) m other :
  Forall P m → Forall P other → Forall P (map_extend m other).
Proof.
  intros Hm Ho. unfold map_extend. revert m Hm.
  induction Ho as [|[k v] other Hk Ho IH]; intros m Hm; simpl; [done|].
  by apply IH, map_insert_Forall.
Qed.

(** The entries of a map lie below a schema. *)
Definition below (schema : Json) (kv : string * Json) : Prop := depth kv.2 < depth schema.

Lemma below_mono s s' m : depth s ≤ depth s' → Forall (below s) m → Forall (below s') m.
Proof. intros Hd Hm. eapply Forall_impl; [exact Hm|]. unfold below. intros kv. lia. Qed.

Lemma variant_props_below v : Forall (below v) (variant_props v).
Proof.
  unfold variant_props. destruct (json_get "properties" v) as [p|] eqn:Hp; [|constructor].
  simpl. destruct (as_object p) as [m|] eqn:Hm; [|constructor].
  apply as_object_in in Hm as ->. apply depth_get in Hp.
  apply Forall_forall. intros [k x] Hin. simpl in Hin.
  apply depth_object in Hin. unfold below. cbn [snd]. lia.
Qed.

Lemma array_at_below key schema x :
  x ∈ default [] (json_get key schema ≫= as_array) → depth x < depth schema.
Proof.
  destruct (json_get key schema) as [a|] eqn:Ha; simpl; [|by intros ?%elem_of_nil].
  destruct (as_array a) as [l|] eqn:Hl; simpl; [|by intros ?%elem_of_nil].
  apply as_array_in in Hl as ->. apply depth_get in Ha. intros Hx%depth_array. lia.
Qed.

Lemma discriminated_below schema obj key v :
  discriminated schema obj key = Some v → depth v < depth schema.
Proof.
  unfold discriminated. intros (l & Hl & Hf)%bind_Some.
  apply (array_at_below key). rewrite Hl. apply List.find_some in Hf as [Hf _].
  by apply list_elem_of_In.
Qed.

Lemma foldl_Forall {A} (P : string * Json → Prop) (f : Map → A → Map) l m :
  (∀ m x, x ∈ l → Forall P m → Forall P (f m x)) → Forall P m → Forall P (foldl f m l).
Proof.
  revert m; induction l as [|x l IH]; intros m Hf Hm; simpl; [done|].
  apply IH; [|apply Hf; set_solver]. intros m' y Hy. apply Hf. set_solver.
Qed.

Lemma collect_properties_below budget schema obj m :
  collect_properties budget schema obj = Some m → Forall (below schema) m.
Proof.
  revert schema m; induction budget as [|budget IH]; intros schema m; [done|].
  cbn [collect_properties]. case_match; [done|]. cbv zeta.
  assert (∀ v m, depth v < depth schema → Forall (below schema) m →
    Forall (below schema) (map_extend (map_extend m (variant_props v))
                             (default [] (collect_properties budget v obj)))) as Hadd.
  { intros v m' Hv Hm'. apply map_extend_Forall; [apply map_extend_Forall; [done|]|].
    - eapply below_mono; [|apply variant_props_below]. lia.
    - destruct (collect_properties budget v obj) as [p|] eqn:Hp; simpl; [|constructor].
      eapply below_mono; [|by eapply IH]. lia. }
  intros Hr. assert (∀ m', match m' with [] => None | _ => Some m' end = Some m → m' = m) as Hm'
    by (intros []; naive_solver).
  apply Hm' in Hr. rewrite <-Hr. clear Hr Hm'. apply foldl_Forall.
  - intros m' key _ Hm'. destruct (discriminated schema obj key) as [v|] eqn:Hv; [|done].
    apply Hadd; [|done]. by eapply discriminated_below.
  - apply foldl_Forall.
    + intros m' v Hv Hm'. apply Hadd; [|done]. by eapply array_at_below.
    + apply map_extend_Forall; [constructor|apply variant_props_below].
Qed.

Lemma effective_below schema obj key x :
  map_get key (default (variant_props schema) (resolve_effective_properties schema obj)) = Some x →
  depth x < depth schema.
Proof.
  intros Hx%map_get_in.
  assert (Forall (below schema)
    (default (variant_props schema) (resolve_effective_properties schema obj))) as Hf.
  { destruct (resolve_effective_properties schema obj) as [m|] eqn:Hm; simpl;
      [by eapply collect_properties_below|apply variant_props_below]. }
  rewrite Forall_forall in Hf. by apply Hf in Hx.
Qed.

Lemma object_at_below key v x : object_at key v = Some x → depth x < depth v.
Proof.
  unfold object_at. intros (a & Ha & Hx)%bind_Some. case_match; [|done]. injection Hx as <-.
  by eapply depth_get.
Qed.

Lemma resolve_additional_below schema obj x :
  resolve_additional_properties schema obj = Some x → depth x < depth schema.
Proof.
  unfold resolve_additional_properties.
  destruct (omap (object_at "additionalProperties") _) as [|ap l] eqn:Ho.
  - intros Hx. assert (∃ key, discriminated schema obj key ≫= object_at "additionalProperties" = Some x)
      as [key Hk].
    { destruct (discriminated schema obj "oneOf" ≫= _) eqn:H1; [|by eexists].
      exists "oneOf". by rewrite H1. }
    apply bind_Some in Hk as (v & Hv & Hap). apply discriminated_below in Hv.
    apply object_at_below in Hap. lia.
  - intros [= ->]. assert (x ∈ x :: l) as Hx by set_solver. rewrite <-Ho in Hx.
    apply list_elem_of_omap in Hx as (v & Hv & Hap).
    apply list_elem_of_In, in_rev, list_elem_of_In, array_at_below in Hv. apply object_at_below in Hap. lia.
Qed.

Definition is_string (v : Json) : bool := match v with JString _ => true | _ => false end.

Lemma recurse_not_string s schema v :
  coerce_string_value s schema = Recurse v →
  (∃ l, v = JArray l ∧ schema_allows_type schema "array" = true) ∨
  (∃ l, v = JObject l ∧ schema_allows_type schema "object" = true).
Proof.
  unfold coerce_string_value, coerce_compound. intros Hr.
  repeat (case_match; try done); simplify_eq; eauto.
Qed.

Lemma coerce_value_returns fuel value schema :
  2 * depth schema + 1 + (if is_string value then 1 else 0) ≤ fuel →
  is_Some (coerce_value fuel value schema).
Proof.
  revert value schema; induction fuel as [|fuel IH]; intros value schema Hf; [lia|].
  assert (∀ v s, depth s < depth schema → is_Some (coerce_value fuel v s)) as IHs.
  { intros v s Hs. apply IH. destruct (is_string v); lia. }
  cbn [coerce_value]. destruct value as [|b|n|s|items|obj]; try (eexists; reflexivity).
  - destruct (coerce_string_value s schema) as [|v|v] eqn:Hc; [eexists; reflexivity..|].
    apply IH. cbn [is_string] in Hf.
    apply recurse_not_string in Hc as [(l & -> & _)|(l & -> & _)]; cbn [is_string]; lia.
  - destruct (negb (schema_allows_type schema "array")); [eexists; reflexivity|].
    destruct (json_get "items" schema) as [it|] eqn:Hi; [|eexists; reflexivity].
    apply fmap_is_Some, mapM_is_Some, Forall_forall. intros x _. apply IHs. by eapply depth_get.
  - destruct (negb (schema_allows_type schema "object")); [eexists; reflexivity|]. cbv zeta.
    apply fmap_is_Some, mapM_is_Some, Forall_forall. intros [key current] _.
    apply fmap_is_Some.
    destruct (map_get key _) as [ps|] eqn:Hps.
    + destruct (empty_optional _ key current ps); [eexists; reflexivity|]. apply IHs. by eapply effective_below.
    + destruct (object_at "additionalProperties" schema) as [ap|] eqn:Hap.
      * apply IHs. by eapply object_at_below.
      * destruct (resolve_additional_properties schema obj) as [ap|] eqn:Hr; [|eexists; reflexivity].
        apply IHs. by eapply resolve_additional_below.
Qed.

(** Coercion terminates: although a string is parsed and coerced again with the same
    schema, each round goes one level down in the schema, so twice its depth is enough
    fuel for every value and every schema, and more fuel is never needed. *)
Theorem coercion_terminates value schema fuel :
  coerce_fuel schema ≤ fuel → is_Some (coerce_value fuel value schema).
Proof.
  intros Hf. apply coerce_value_returns. unfold coerce_fuel in Hf. destruct (is_string value); lia.
Qed.

(** ** What coercion changes *)

(** [v'] is [v] with some strings replaced. *)
Inductive strings_replaced : Json -> Json -> Prop :=
| sr_same v : strings_replaced v v
| sr_string s v : strings_replaced (JString s) v
| sr_array l l' : Forall2 strings_replaced l l' → strings_replaced (JArray l) (JArray l')
| sr_object (l l' : Map) :
    Forall2 (fun kv kv' => kv.1 = kv'.1 ∧ strings_replaced kv.2 kv'.2) l l' →
    strings_replaced (JObject l) (JObject l').

Lemma coerce_value_replaces fuel value schema v :
  coerce_value fuel value schema = Some v → strings_replaced value v.
Proof.
  revert value schema v; induction fuel as [|fuel IH]; intros value schema v; [done|].
  cbn [coerce_value]. destruct value as [|b|n|s|items|obj]; try (intros [= <-]; apply sr_same).
  - intros _. apply sr_string.
  - case_match; [intros [= <-]; apply sr_same|].
    destruct (json_get "items" schema); [|intros [= <-]; apply sr_same].
    intros (l & Hl & ->)%fmap_Some. apply sr_array. apply mapM_Some in Hl.
    eapply Forall2_impl; [exact Hl|]. intros x y Hxy. eapply IH. exact Hxy.
  - case_match; [intros [= <-]; apply sr_same|]. cbv zeta.
    intros (l & Hl & ->)%fmap_Some. apply sr_object. apply mapM_Some in Hl.
    eapply Forall2_impl; [exact Hl|]. intros [key x] [key' y]. simpl.
    intros (z & Hz & [= -> ->])%fmap_Some. split; [done|].
    destruct (map_get key _) as [ps|].
    + destruct (empty_optional _ key x ps) eqn:He; [|by eapply IH].
      unfold empty_optional in He. apply andb_true_iff in He as [He _].
      apply andb_true_iff in He as [He%bool_decide_eq_true _].
      destruct x; try done. apply sr_string.
    + repeat case_match; first [eapply IH; exact Hz|injection Hz as <-; apply sr_same].
Qed.

(** Preparing the parameters of a call only ever replaces strings: every number,
    boolean and null, the keys of every object and the length and order of every array
    are as the model sent them. *)
Theorem preparation_replaces_strings_only params schema :
  strings_replaced params
    (prepare_params_for_schema params schema).
Proof.
  unfold prepare_params_for_schema.
  destruct (coerce_value _ params (resolve_refs schema)) as [v|] eqn:Hv; simpl;
    [by eapply coerce_value_replaces|apply sr_same].
Qed.

(** The type of a value by its name in a schema. *)
Definition has_type (v : Json) (schema : Json) : bool :=
  match v with
  | JNull => schema_allows_type schema "null"
  | JBool _ => schema_allows_type schema "boolean"
  | JNumber _ => schema_allows_type schema "integer" || schema_allows_type schema "number"
  | JString _ => schema_allows_type schema "string"
  | JArray _ => schema_allows_type schema "array"
  | JObject _ => schema_allows_type schema "object"
  end.

(** A string is replaced only where the schema does not allow strings, and by a value
    of a type the schema allows, with one exception: text that parses as an infinite or
    undefined number becomes null even where null is not allowed. *)
Theorem replaced_string_typed s schema :
  match coerce_string_value s schema with
  | Keep => True
  | Replace v =>
      schema_allows_type schema "string" = false ∧
      (has_type v schema = true ∨
       v = JNull ∧ ∃ x, parse_f64 s = Some x ∧ f64_is_finite x = false)
  | Recurse v => schema_allows_type schema "string" = false ∧ has_type v schema = true
  end.
Proof.
  unfold coerce_string_value.
  destruct (str_is_empty s && schema_allows_type schema "null" &&
            negb (schema_allows_type schema "string")) eqn:Hn.
  { apply andb_true_iff in Hn as [[_ Hn]%andb_true_iff Hs%negb_true_iff]. split; [done|]. by left. }
  destruct (schema_allows_type schema "string"); [done|]. destruct (str_is_empty s); [done|].
  destruct (schema_allows_type schema "integer") eqn:Hi;
    [destruct (parse_i64 s); [split; [done|]; left; simpl; by rewrite Hi|]|].
  all: destruct (schema_allows_type schema "number") eqn:Hnum;
    [destruct (parse_f64 s) as [x|] eqn:Hx;
      [split; [done|]; unfold json_of_f64; destruct (f64_is_finite x) eqn:Hfin;
        [left; simpl; rewrite Hnum; apply orb_true_r|right; eauto]|]|].
  all: destruct (schema_allows_type schema "boolean") eqn:Hb;
    [destruct (parse_boolean s); [split; [done|]; left; exact Hb|]|].
  all: unfold coerce_compound; repeat (case_match; try done); simplify_eq; done.
Qed.

(** A number too large for a double is silently turned into null, although the schema
    asks for a number and does not allow null. *)
Theorem overflowing_number_becomes_null :
  let schema := JObject [("type", JString "number")] in
  prepare_params_for_schema (JString "1e999") schema = JNull ∧
  schema_allows_type schema "null" = false.
Proof. vm_compute. done. Qed.

End coerce.

Lemma coercion_terminates_witness :
  let schema := JObject [("items", JObject [("type", JString "integer")]); ("type", JString "array")] in
  is_Some (coerce_value id (fun _ => Some (JArray [JString "5"; JString "x"])) (fun _ => "0")
             (coerce_fuel schema) (JString "[...]") schema).
Proof. cbv zeta. apply coercion_terminates. apply le_n. Defined.
