(* ===== verification/Redaction.v ===== *)
(** * Redaction: secrets in tool parameters

    [src/tools/redaction.rs], which finds secrets by the names of the keys, and
    [redact_params] of [src/tools/tool.rs], which takes the names from the tool. *)

From Stdlib Require Import Ascii.
From S2P Require Import Prelude Text TextSearch ReplyText ToolParams.

Definition REDACTED : string := "[REDACTED]".

Definition SENSITIVE_EXACT : list string :=
  ["authorization"; "proxy-authorization"; "cookie"; "set-cookie"; "x-api-key"; "api-key"; "api_key";
   "access_token"; "refresh_token"; "session_token"; "id_token"; "token"; "password"; "passwd";
   "secret"; "client_secret"; "private_key"; "apikey"; "apisecret"].

Definition SENSITIVE_PARTS : list string :=
  ["password"; "passwd"; "secret"; "credential"; "authorization"; "cookie"; "apikey"; "apisecret"].
Definition TOKEN_PARTS : list string := ["token"; "jwt"].
Definition KEY_PARTS : list string := ["key"].
Definition CONTEXT_PARTS : list string :=
  ["auth"; "oauth"; "authorization"; "api"; "access"; "refresh"; "session"; "bearer"; "private";
   "client"; "id"; "app"; "user"; "application"; "account"].

(** ** Names of keys *)

Definition in_range (lo hi : nat) (c : ascii) : bool :=
  ((lo <=? nat_of_ascii c) && (nat_of_ascii c <=? hi))%nat.
Definition is_lower (c : ascii) : bool := in_range 97 122 c.
Definition is_upper (c : ascii) : bool := in_range 65 90 c.
Definition is_ascii_digit (c : ascii) : bool := in_range 48 57 c.
Definition is_alpha (c : ascii) : bool := is_lower c || is_upper c.
Definition is_alnum (c : ascii) : bool := is_alpha c || is_ascii_digit c.

Definition camel_boundary (prev cur : ascii) (next : option ascii) : bool :=
  (is_lower prev && is_upper cur) || (is_alpha prev && is_ascii_digit cur) ||
  (is_ascii_digit prev && is_alpha cur) ||
  (is_upper prev && is_upper cur && from_option is_lower false next).

Definition next_char (s : string) : option ascii :=
  match s with EmptyString => None | String c _ => Some c end.

(** The parts of [key], [cur] being the part read so far and [prev] its last
    character. *)
Fixpoint camel_parts (prev : ascii) (cur : string) (key : string) : list string :=
  match key with
  | EmptyString => [cur]
  | String c r =>
      if camel_boundary prev c (next_char r) then cur :: camel_parts c (String c "") r
      else camel_parts c (cur +:+ String c "") r
  end.

Definition split_camel_case_key_parts (key : string) : list string :=
  match key with EmptyString => [] | String c r => camel_parts c (String c "") r end.

(** [key.split(|c| !c.is_ascii_alphanumeric())] *)
Fixpoint split_non_alnum (s : string) : list string :=
  match s with
  | EmptyString => [""]
  | String c r =>
      match split_non_alnum r with
      | [] => []
      | x :: l => if is_alnum c then String c x :: l else "" :: x :: l
      end
  end.

Definition tokenize_key_parts (key : string) : list string :=
  string_map ascii_lower <$> flat_map split_camel_case_key_parts (split_non_alnum key).

Definition has_exact (parts candidates : list string) : bool :=
  existsb (fun part => existsb (String.eqb part) candidates) parts.

Definition numbered_variant (part candidate : string) : bool :=
  (part =? candidate)%string ||
  match strip_prefix candidate part with
  | Some suffix => negb (str_is_empty suffix) && string_forallb is_ascii_digit suffix
  | None => false
  end.

Definition has_candidate_or_numbered_variant (parts candidates : list string) : bool :=
  existsb (fun part => existsb (numbered_variant part) candidates) parts.

(** [part.strip_suffix(candidate)] *)
Definition strip_suffix (suf s : string) : option string :=
  if ends_with suf s then Some (str_to (String.length s - String.length suf) s) else None.

Definition contextual_suffix (part candidate : string) : bool :=
  match strip_suffix candidate part with
  | Some prefix => negb (str_is_empty prefix) && existsb (String.eqb prefix) CONTEXT_PARTS
  | None => false
  end.

Definition has_contextual_suffix (parts candidates : list string) : bool :=
  existsb (fun part => existsb (contextual_suffix part) candidates) parts.

Definition is_sensitive_key (key : string) : bool :=
  let lower := string_map ascii_lower key in
  if existsb (String.eqb lower) SENSITIVE_EXACT then true
  else
    match tokenize_key_parts key with
    | [] => false
    | parts =>
        if has_candidate_or_numbered_variant parts SENSITIVE_PARTS then true
        else
          let has_token := has_candidate_or_numbered_variant parts TOKEN_PARTS in
          let has_key := has_candidate_or_numbered_variant parts KEY_PARTS in
          if (has_token && has_key)%bool then true
          else if (has_contextual_suffix parts TOKEN_PARTS || has_contextual_suffix parts KEY_PARTS)%bool
          then true
          else has_exact parts CONTEXT_PARTS && (has_token || has_key)
    end.

(** ** Redaction *)

Fixpoint redact_in_place (value : Json) : Json :=
  match value with
  | JObject map =>
      JObject ((fix redact_object (map : list (string * Json)) : list (string * Json) :=
        match map with
        | [] => []
        | (key, val) :: map =>
            (key, if is_sensitive_key key then JString REDACTED else redact_in_place val)
            :: redact_object map
        end) map)
  | JArray items => JArray (redact_in_place <$> items)
  | _ => value
  end.

Definition redact_sensitive_json (value : Json) : Json := redact_in_place value.

(** [redact_params]: the keys named by the tool, at the top level. *)
Definition redact_params (params : Json) (sensitive : list string) : Json :=
  match sensitive with
  | [] => params
  | _ =>
      match params with
      | JObject obj =>
          JObject (foldl (fun obj key =>
            match map_get key obj with
            | Some _ => map_insert key (JString REDACTED) obj
            | None => obj
            end) obj sensitive)
      | _ => params
      end
  end.

(** ** Members at any depth *)

Inductive member : Json -> string -> Json -> Prop :=
| m_here l k x : (k, x) ∈ l → member (JObject l) k x
| m_object l k' y k x : (k', y) ∈ l → member y k x → member (JObject l) k x
| m_array l y k x : y ∈ l → member y k x → member (JArray l) k x.

Definition redact_entry (kv : string * Json) : string * Json :=
  (kv.1, if is_sensitive_key kv.1 then JString REDACTED else redact_in_place kv.2).

Lemma redact_object_eq l : redact_in_place (JObject l) = JObject (redact_entry <$> l).
Proof. cbn [redact_in_place]. f_equal. induction l as [|[k v] l IH]; [done|]. simpl. by f_equal. Qed.

Lemma redact_members v k x :
  member (redact_sensitive_json v) k x → is_sensitive_key k = true → x = JString REDACTED.
Proof.
  unfold redact_sensitive_json. revert k x.
  induction v as [|b|n|s|l IH|l IH] using json_ind_nested; intros k x Hm Hk;
    try (by inversion Hm).
  - cbn [redact_in_place] in Hm. inversion Hm as [| |? y ? ? Hy Hyk]; subst.
    apply list_elem_of_fmap in Hy as (z & -> & Hz). rewrite Forall_forall in IH. by eapply (IH z Hz).
  - rewrite redact_object_eq in Hm. rewrite Forall_forall in IH.
    inversion Hm as [? ? ? Hin|? k' y ? ? Hin Hy|]; subst.
    + apply list_elem_of_fmap in Hin as ([k' z] & [= -> ->] & _). simpl in Hk. by rewrite Hk.
    + apply list_elem_of_fmap in Hin as ([k'' z] & [= -> ->] & Hz). simpl in Hy.
      destruct (is_sensitive_key k''); [inversion Hy|]. by eapply (IH (k'', z) Hz).
Qed.

Lemma redact_again v : redact_in_place (redact_in_place v) = redact_in_place v.
Proof.
  induction v as [|b|n|s|l IH|l IH] using json_ind_nested; try done.
  - cbn [redact_in_place]. f_equal. rewrite <-list_fmap_compose. apply list_fmap_ext.
    intros i x Hx. exact (Forall_lookup_1 _ _ _ _ IH Hx).
  - rewrite !redact_object_eq. f_equal. rewrite <-list_fmap_compose. apply list_fmap_ext.
    intros i [k x] Hx. unfold redact_entry. simpl. destruct (is_sensitive_key k) eqn:Hk; [done|].
    f_equal. exact (Forall_lookup_1 _ _ _ _ IH Hx).
Qed.

(** Values that agree except under sensitive keys. *)
Inductive agree : Json -> Json -> Prop :=
| ag_same v : agree v v
| ag_array l l' : Forall2 agree l l' → agree (JArray l) (JArray l')
| ag_object (l l' : list (string * Json)) :
    Forall2 (fun kv kv' => kv.1 = kv'.1 ∧ (is_sensitive_key kv.1 = true ∨ agree kv.2 kv'.2)) l l' →
    agree (JObject l) (JObject l').

Lemma redact_agree v v' : agree v v' → redact_sensitive_json v = redact_sensitive_json v'.
Proof.
  unfold redact_sensitive_json. revert v'.
  induction v as [|b|n|s|l IH|l IH] using json_ind_nested; intros v' Hv;
    inversion Hv as [|? l' Hl|? l' Hl]; subst; try done.
  - cbn [redact_in_place]. f_equal. clear Hv. revert l' Hl. induction IH as [|x l Hx _ IHl];
      intros l' Hl; inversion Hl; subst; [done|]. simpl. f_equal; auto.
  - rewrite !redact_object_eq. f_equal. clear Hv. revert l' Hl.
    induction IH as [|[k x] l Hx _ IHl]; intros l' Hl; inversion Hl as [|? [k' x'] ? ? [Hk Hx']]; subst;
      [done|]. rewrite !fmap_cons. f_equal; [|auto]. unfold redact_entry. simpl in *. subst k'.
    destruct (is_sensitive_key k); [done|]. destruct Hx' as [?|Hx']; [done|]. f_equal. by apply Hx.
Qed.

(** After redaction no secret is left anywhere in the value: every member with a
    sensitive name, at any depth, holds the placeholder; values that differ only under
    sensitive names become equal; and redacting again changes nothing. *)
Theorem redaction_complete v :
  (∀ k x, member (redact_sensitive_json v) k x → is_sensitive_key k = true → x = JString REDACTED) ∧
  (∀ v', agree v v' → redact_sensitive_json v = redact_sensitive_json v') ∧
  redact_sensitive_json (redact_sensitive_json v) = redact_sensitive_json v.
Proof.
  split; [|split]; [apply redact_members|apply redact_agree|apply redact_again].
Qed.
