(* ===== verification/ToolExec.v ===== *)
(** * ToolExec: the tool registry and the execution pipeline

    [src/tools/registry.rs] (which tools there are and which names are protected),
    [src/tools/execute.rs] (look up, coerce, validate, run, sanitize, wrap) and the
    approval types of [src/tools/tool.rs].  A tool's own code is the field
    [tool_execute]; [None] is the expiry of its timeout. *)

From stdpp Require Import sorting.
From S2P Require Import Prelude Text TextSearch Provider ReplyText F64 LeakDetector Sanitizer.
From S2P Require Import Validator SafetyLayer ToolParams Redaction.

(** ** Approval *)

Inductive ApprovalRequirement : Type := Never | UnlessAutoApproved | Always.

Definition is_required (r : ApprovalRequirement) : bool :=
  match r with Never => false | _ => true end.

Inductive ApprovalContext : Type := Autonomous (allowed_tools : gset string).

Definition autonomous : ApprovalContext := Autonomous ∅.
Definition autonomous_with_tools (tools : list string) : ApprovalContext :=
  Autonomous (list_to_set tools).

Definition approval_is_blocked (ctx : ApprovalContext) (tool_name : string)
    (_ : ApprovalRequirement) : bool :=
  match ctx with Autonomous allowed => negb (bool_decide (tool_name ∈ allowed)) end.

Definition is_blocked_or_default (ctx : option ApprovalContext) (tool_name : string)
    (requirement : ApprovalRequirement) : bool :=
  match ctx with
  | Some ctx => approval_is_blocked ctx tool_name requirement
  | None => is_required requirement
  end.

(** ** Tools *)

Inductive ToolDomain : Type := Orchestrator | Container.

#[export] Instance ToolDomain_eq_dec : EqDecision ToolDomain.
Proof. solve_decision. Defined.

Section tools.
  Context {JobCtx : Type}.

Record Tool : Type := mkTool {
  tool_name : string;
  tool_description : string;
  parameters_schema : Json;
  discovery_schema : Json;
  has_discovery_summary : bool;
  tool_execute : Json -> JobCtx -> option (Result string Json);
  requires_approval : Json -> ApprovalRequirement;
  execution_timeout : Z;
  domain : ToolDomain;
  sensitive_params : list string
}.

(** [tool.schema()] as the definition sent to the model. *)
Definition tool_definition (t : Tool) : ToolDefinition :=
  let has_discovery_hint :=
    has_discovery_summary t || negb (json_eqb (discovery_schema t) (parameters_schema t)) in
  let description :=
    if has_discovery_hint then
      cat [tool_description t; " (call tool_info(name: "; dq_str; tool_name t; dq_str; ", detail: ";
           dq_str; "summary"; dq_str; ") for rules/examples or detail: "; dq_str; "schema"; dq_str;
           " for the full discovery schema)"]
    else tool_description t in
  mkToolDefinition (tool_name t) description (parameters_schema t).

(** ** Registry *)

Definition PROTECTED_TOOL_NAMES : list string :=
  ["echo"; "time"; "json"; "http"; "shell"; "read_file"; "write_file"; "list_dir"; "apply_patch";
   "memory_search"; "memory_write"; "memory_read"; "memory_tree"; "create_job"; "list_jobs";
   "job_status"; "cancel_job"; "build_software"; "tool_search"; "tool_install"; "tool_auth";
   "tool_activate"; "tool_list"; "tool_remove"; "routine_create"; "routine_list"; "routine_update";
   "routine_delete"; "routine_fire"; "routine_history"; "event_emit"; "skill_list"; "skill_search";
   "skill_install"; "skill_remove"; "message"; "web_fetch"; "restart"; "image_generate"; "image_edit";
   "image_analyze"; "tool_info"].

(** The handles to the credentials, the rate limiter and the message tool are left out. *)
Record ToolRegistry : Type := mkRegistry {
  tools : gmap string Tool;
  builtin_names : gset string
}.

Definition registry_new : ToolRegistry := mkRegistry ∅ ∅.

Definition register (t : Tool) (r : ToolRegistry) : ToolRegistry :=
  if bool_decide (tool_name t ∈ PROTECTED_TOOL_NAMES ∧ tool_name t ∈ builtin_names r) then r
  else mkRegistry (<[tool_name t := t]> (tools r)) (builtin_names r).

(** [tools_lock] and [names_lock] say whether [try_write] got the locks. *)
Definition register_sync (tools_lock names_lock : bool) (t : Tool) (r : ToolRegistry) : ToolRegistry :=
  if tools_lock then
    mkRegistry (<[tool_name t := t]> (tools r))
      (if names_lock then {[tool_name t]} ∪ builtin_names r else builtin_names r)
  else r.

Definition unregister (n : string) (r : ToolRegistry) : ToolRegistry :=
  mkRegistry (delete n (tools r)) (builtin_names r).

Definition registry_get (n : string) (r : ToolRegistry) : option Tool := tools r !! n.

Definition retain_only (names : list string) (r : ToolRegistry) : ToolRegistry :=
  match names with
  | [] => r
  | _ => mkRegistry (base.filter (fun kv => kv.1 ∈ names) (tools r)) (builtin_names r)
  end.

(** The software builder: the development tools at startup, then [build_software] by the
    way of dynamic tools. *)
Definition register_builder_tool (dev_tools : list Tool) (build_software : Tool) (r : ToolRegistry)
    : ToolRegistry :=
  register build_software (foldl (fun r t => register_sync true true t r) r dev_tools).

Definition string_le (a b : string) : Prop := String.leb a b = true.
#[export] Instance string_le_dec : RelDecision string_le.
Proof. intros a b. unfold string_le. apply _. Defined.

Definition def_le (a b : ToolDefinition) : Prop := string_le (td_name a) (td_name b).
#[export] Instance def_le_dec : RelDecision def_le.
Proof. intros a b. unfold def_le. apply _. Defined.

(** [values] is the iteration of the map, in an order that is not specified. *)
Definition tool_definitions (values : gmap string Tool -> list Tool) (r : ToolRegistry)
    : list ToolDefinition :=
  merge_sort def_le (tool_definition <$> values (tools r)).

Definition tool_definitions_for (names : list string) (r : ToolRegistry) : list ToolDefinition :=
  omap (fun n => tool_definition <$> (tools r !! n)) names.

Definition tool_definitions_for_domain (values : gmap string Tool -> list Tool) (d : ToolDomain)
    (r : ToolRegistry) : list ToolDefinition :=
  tool_definition <$> base.filter (fun t => domain t = d) (values (tools r)).

Definition visible_without_approval (deny : list string) (t : Tool) : bool :=
  negb (bool_decide (tool_name t ∈ deny)) &&
  match requires_approval t (JObject []) with Never => true | _ => false end.

Definition tool_definitions_excluding (values : gmap string Tool -> list Tool) (deny : list string)
    (r : ToolRegistry) : list ToolDefinition :=
  merge_sort def_le
    (tool_definition <$> List.filter (visible_without_approval deny) (values (tools r))).

(** ** Execution *)

Inductive ToolError : Type :=
| NotFound (name : string)
| ExecutionFailed (name reason : string)
| Timeout (name : string) (timeout : Z)
| InvalidParameters (name reason : string)
| Disabled (name reason : string)
| Sandbox (name reason : string)
| AuthRequired (name : string)
| AutonomousUnavailable (name reason : string)
| RateLimited (name : string) (retry_after : option Z)
| BuilderFailed (reason : string).

Section execute.
  Context `{RegexEngine} `{MultiMatcher}.
  (** Unicode lower-casing, serde and the printers of numbers and values. *)
  Variable to_lowercase : string -> string.
  Variable json_from_str : string -> option Json.
  Variable print_f64 : f64 -> string.
  Variable to_string_pretty : Json -> Result string string.

Definition prepare_tool_params (t : Tool) (params : Json) : Json :=
  prepare_params_for_schema to_lowercase json_from_str print_f64 params (discovery_schema t).

Definition validation_details (v : ValidationResult) : string :=
  str_join "; " ((fun e => cat [ve_field e; ": "; ve_message e]) <$> vr_errors v).

Definition execute_tool_with_safety (r : ToolRegistry) (safety : SafetyLayer) (nm : string)
    (params : Json) (ctx : JobCtx) : Result ToolError string :=
  if str_is_empty nm then Err (NotFound nm)
  else match registry_get nm r with
  | None => Err (NotFound nm)
  | Some tool =>
      let normalized_params := prepare_tool_params tool params in
      let validation := validate_tool_params to_lowercase (sl_validator safety) normalized_params in
      if negb (is_valid validation) then
        Err (InvalidParameters nm ("Invalid tool parameters: " +:+ validation_details validation))
      else
        match tool_execute tool normalized_params ctx with
        | None => Err (Timeout nm (execution_timeout tool))
        | Some (Err e) => Err (ExecutionFailed nm e)
        | Some (Ok result) =>
            match to_string_pretty result with
            | Ok s => Ok s
            | Err e => Err (ExecutionFailed nm ("Failed to serialize result: " +:+ e))
            end
        end
  end.

(** [result] carries the displayed error. *)
Definition process_tool_result (safety : SafetyLayer) (nm call_id : string)
    (result : Result string string) : string * ChatMessage :=
  let raw_content :=
    match result with
    | Ok output => output
    | Err e => cat ["Tool '"; nm; "' failed: "; e]
    end in
  let sanitized := sanitize_tool_output to_lowercase safety nm raw_content in
  let content := wrap_for_llm nm (so_content sanitized) in
  (content, tool_result call_id nm content).

End execute.
End tools.

Arguments Tool : clear implicits.
Arguments ToolRegistry : clear implicits.

Section registry_laws.
  Context {JobCtx : Type}.
  Implicit Types (r : ToolRegistry JobCtx) (t : Tool JobCtx).

(** What can happen to a registry after startup. *)
Inductive dyn_step : ToolRegistry JobCtx -> ToolRegistry JobCtx -> Prop :=
| dyn_register r t : dyn_step r (register t r)
| dyn_unregister r n : dyn_step r (unregister n r)
| dyn_retain r names : dyn_step r (retain_only names r).

(** A protected name of a built-in tool, and the tool it has or no tool. *)
Definition guarded (n : string) (held : option (Tool JobCtx)) r : Prop :=
  n ∈ PROTECTED_TOOL_NAMES ∧ n ∈ builtin_names r ∧ (tools r !! n = held ∨ tools r !! n = None).

Lemma guarded_step n held r r' : dyn_step r r' → guarded n held r → guarded n held r'.
Proof.
  intros Hs (Hp & Hb & Ht). destruct Hs as [r t|r m|r names]; unfold guarded.
  - unfold register. case_bool_decide as Hc; [done|]. cbn [tools builtin_names].
    assert (tool_name t ≠ n) as Hne by (intros <-; by apply Hc).
    by rewrite lookup_insert_ne.
  - cbn [unregister tools builtin_names]. split; [done|]. split; [done|].
    destruct (decide (m = n)) as [->|Hne]; [right; by rewrite lookup_delete_eq|].
    by rewrite lookup_delete_ne.
  - unfold retain_only. destruct names as [|x names]; [done|]. cbn [tools builtin_names].
    split; [done|]. split; [done|]. rewrite map_lookup_filter.
    destruct Ht as [Ht|Ht]; rewrite Ht; [|by right].
    destruct held as [h|]; simpl; [|by right]. case_guard; [by left|by right].
Qed.

(** A protected built-in tool is never shadowed: whatever tools are registered,
    removed or filtered after startup, its name stands for that tool or for none. *)
Theorem builtin_never_shadowed r r' n t :
  rtc dyn_step r r' → n ∈ PROTECTED_TOOL_NAMES → n ∈ builtin_names r → registry_get n r = Some t →
  registry_get n r' = Some t ∨ registry_get n r' = None.
Proof.
  intros Hs Hp Hb Ht. assert (guarded n (Some t) r) as Hg by (split; [done|]; split; [done|]; by left).
  assert (guarded n (Some t) r') as (_ & _ & ?); [|done].
  clear Ht Hb Hp. induction Hs as [|r1 r2 r3 Hstep _ IH]; [done|]. eapply IH, guarded_step; eauto.
Qed.

(** One protected name is not guarded: the builder is registered the way dynamic
    tools are, so its name is never marked as built in, and any later tool of that name
    replaces it. *)
Theorem builder_can_be_shadowed dev builder impostor r :
  tool_name builder = "build_software" → tool_name impostor = "build_software" →
  "build_software" ∉ builtin_names r → "build_software" ∉ (tool_name <$> dev) →
  "build_software" ∈ PROTECTED_TOOL_NAMES ∧
  registry_get "build_software" (register_builder_tool dev builder r) = Some builder ∧
  registry_get "build_software" (register impostor (register_builder_tool dev builder r)) = Some impostor.
Proof.
  intros Hb Hi Hr Hdev.
  split; [apply (bool_decide_unpack _); vm_compute; exact I|].
  assert (∀ r, "build_software" ∉ builtin_names r →
    "build_software" ∉ builtin_names (foldl (fun r t => register_sync true true t r) r dev)) as Hn.
  { clear r Hr Hb Hi builder impostor. induction dev as [|t dev IH]; intros r Hr; [done|]. simpl.
    apply IH; [set_solver|]. simpl. set_solver. }
  specialize (Hn r Hr). unfold register_builder_tool, registry_get.
  set (r1 := foldl _ r dev) in *.
  assert (∀ t r, tool_name t = "build_software" → "build_software" ∉ builtin_names r →
    register t r = mkRegistry (<["build_software" := t]> (tools r)) (builtin_names r)) as Hreg.
  { intros t r' Ht Hr'. unfold register. rewrite Ht. rewrite bool_decide_false; [done|].
    by intros [_ ?]. }
  rewrite (Hreg builder r1), (Hreg impostor) by done. cbn [tools].
  by rewrite !lookup_insert_eq.
Qed.

(** The definitions do not depend on the iteration order of the map. *)
Lemma definitions_sorted values r :
  Sorted def_le (tool_definitions values r) ∧
  tool_definitions values r ≡ₚ tool_definition <$> values (tools r).
Proof.
  split; [|apply merge_sort_Permutation].
  apply Sorted_merge_sort. intros a b. unfold def_le, string_le.
  destruct (String.leb_total (td_name a) (td_name b)); auto.
Qed.

End registry_laws.

Section pipeline.
  Context {JobCtx : Type} `{RegexEngine} `{MultiMatcher}.
  Variable to_lowercase : string -> string.
  Variable json_from_str : string -> option Json.
  Variable print_f64 : f64 -> string.
  Variable to_string_pretty : Json -> Result string string.

Abbreviation execute := (execute_tool_with_safety to_lowercase json_from_str print_f64 to_string_pretty).
Abbreviation prepared := (prepare_tool_params to_lowercase json_from_str print_f64).

(** The same tool with other code. *)
Definition with_code (t : Tool JobCtx) (code : Json -> JobCtx -> option (Result string Json))
    : Tool JobCtx :=
  mkTool (tool_name t) (tool_description t) (parameters_schema t) (discovery_schema t)
    (has_discovery_summary t) code (requires_approval t) (execution_timeout t) (domain t)
    (sensitive_params t).

(** A tool's code sees only validated parameters: for parameters that, after
    coercion, hold a string the validator does not accept, the call is refused with an
    error that does not depend on the code of the tool; for the others the code's result,
    failure or timeout decides, under the name the call was made with. *)
Theorem execution_validates (r : ToolRegistry JobCtx) safety nm params ctx t :
  nm ≠ "" → registry_get nm r = Some t →
  let accepted := ∀ d s, string_at (prepared t params) d s → d ≤ MAX_DEPTH →
                         s = "" ∨ acceptable to_lowercase (sl_validator safety) s in
  (accepted →
   execute r safety nm params ctx =
   match tool_execute t (prepared t params) ctx with
   | None => Err (Timeout nm (execution_timeout t))
   | Some (Err e) => Err (ExecutionFailed nm e)
   | Some (Ok v) => match to_string_pretty v with
                    | Ok s => Ok s
                    | Err e => Err (ExecutionFailed nm ("Failed to serialize result: " +:+ e))
                    end
   end) ∧
  (¬ accepted → ∃ reason, ∀ code,
   execute (mkRegistry (<[nm := with_code t code]> (tools r)) (builtin_names r)) safety nm params ctx =
   Err (InvalidParameters nm reason)).
Proof.
  intros Hne Hget accepted.
  assert (str_is_empty nm = false) as Hemp.
  { destruct (str_is_empty nm) eqn:He; [|done]. by apply str_is_empty_iff in He. }
  pose proof (validate_tool_params_iff to_lowercase (sl_validator safety) (prepared t params)) as Hv.
  unfold execute_tool_with_safety. rewrite Hemp. split.
  - intros Ha. rewrite Hget. cbv zeta. by rewrite (proj2 Hv Ha).
  - intros Hna. eexists. intros code. unfold registry_get. cbn [tools]. rewrite lookup_insert_eq.
    cbv zeta. change (prepare_tool_params to_lowercase json_from_str print_f64 (with_code t code) params)
      with (prepared t params).
    assert (is_valid (validate_tool_params to_lowercase (sl_validator safety) (prepared t params)) = false)
      as -> by (apply not_true_iff_false; by rewrite Hv).
    reflexivity.
Qed.

(** C15. Whatever a tool returns or fails with, the model gets one tool message for that
    call, and its text can not break out of the wrapper: the closing tag occurs exactly
    once, at the end. *)
Theorem tool_result_contained safety nm call_id result n :
  let out := process_tool_result to_lowercase safety nm call_id result in
  (out.2 = tool_result call_id nm out.1) ∧
  (occurs_at "</tool_output" (string_map ascii_lower out.1) n = true ↔
   n + String.length "</tool_output>" = String.length out.1).
Proof. split; [done|]. apply wrap_closes_once. Qed.

End pipeline.

(** ** Examples *)

Definition demo_tool (nm : string) : Tool unit :=
  mkTool nm "d" (JObject []) (JObject []) false (fun v _ => Some (Ok v)) (fun _ => Never) 60 Orchestrator [].

Definition demo_registry : ToolRegistry unit := register_sync true true (demo_tool "shell") registry_new.

Lemma builtin_never_shadowed_witness :
  let r := register (demo_tool "shell") (unregister "http" demo_registry) in
  registry_get "shell" r = Some (demo_tool "shell") ∨ registry_get "shell" r = None.
Proof.
  cbv zeta. apply (builtin_never_shadowed demo_registry).
  - eapply rtc_l; [apply (dyn_unregister _ "http")|].
    eapply rtc_l; [apply (dyn_register _ (demo_tool "shell"))|]. apply rtc_refl.
  - apply (bool_decide_unpack _). vm_compute. exact I.
  - apply (bool_decide_unpack _). vm_compute. exact I.
  - reflexivity.
Defined.

Lemma builder_can_be_shadowed_witness :
  let r := register_builder_tool [demo_tool "shell"] (demo_tool "build_software") registry_new in
  registry_get "build_software" (register (demo_tool "build_software") r) =
  Some (demo_tool "build_software").
Proof.
  cbv zeta. refine (proj2 (proj2 (builder_can_be_shadowed [demo_tool "shell"]
    (demo_tool "build_software") (demo_tool "build_software") registry_new _ _ _ _))).
  - reflexivity.
  - reflexivity.
  - apply (bool_decide_unpack _). vm_compute. exact I.
  - apply (bool_decide_unpack _). vm_compute. exact I.
Defined.

Lemma execution_validates_witness :
  @execute_tool_with_safety unit id (fun _ => None) (fun _ => "0") (fun _ => Ok "{}") demo_registry
    (safety_new (mkSafetyConfig 100 true)) "shell" (JObject []) tt = Ok "{}".
Proof.
  edestruct (@execution_validates unit id (fun _ => None) (fun _ => "0") (fun _ => Ok "{}")
    demo_registry (safety_new (mkSafetyConfig 100 true)) "shell" (JObject []) tt) as [Hok _].
  - done.
  - reflexivity.
  - rewrite Hok; [reflexivity|]. intros d s Hs. exfalso. revert Hs. vm_compute. intros Hs.
    inversion Hs as [| |? ? ? ? ? Hin]. by apply elem_of_nil in Hin.
Defined.
