(* ===== verification/Skills.v ===== *)
(** * Skills: selection, trust and parsing of skills

    [src/skills/mod.rs] (types and limits), [selector.rs] (which skills a message
    activates), [attenuation.rs] (which tools the model may see then), [gating.rs] and
    [parser.rs].  A compiled regex is its pattern; serde_yml, [which], the environment
    and the file system are parameters. *)

From Stdlib Require Import Ascii.
From S2P Require Import Prelude Text TextSearch Provider ReplyText F64 LeakDetector SafetyLayer.
From S2P Require Import Redaction ToolExec.

(** ** Data *)

Definition MAX_KEYWORDS_PER_SKILL : nat := 20.
Definition MAX_PATTERNS_PER_SKILL : nat := 5.
Definition MAX_TAGS_PER_SKILL : nat := 10.
Definition MIN_KEYWORD_TAG_LENGTH : nat := 3.

Inductive SkillTrust : Type := Installed | Trusted.

#[export] Instance SkillTrust_eq_dec : EqDecision SkillTrust.
Proof. solve_decision. Defined.

Inductive SkillSource : Type := Workspace (path : string) | User (path : string) | Bundled (path : string).

Record ActivationCriteria : Type := mkActivation {
  keywords : list string;
  exclude_keywords : list string;
  act_patterns : list string;
  tags : list string;
  max_context_tokens : Z
}.

Record GatingRequirements : Type := mkRequirements {
  bins : list string;
  env : list string;
  config : list string
}.

Record OpenClawMeta : Type := mkOpenClaw { requires : GatingRequirements }.

Record SkillMetadata : Type := mkMetadata { openclaw : option OpenClawMeta }.

Record SkillManifest : Type := mkManifest {
  sm_name : string;
  sm_version : string;
  sm_description : string;
  activation : ActivationCriteria;
  metadata : option SkillMetadata
}.

Record LoadedSkill : Type := mkSkill {
  manifest : SkillManifest;
  prompt_content : string;
  trust : SkillTrust;
  source : SkillSource;
  content_hash : string;
  compiled_patterns : list string;
  lowercased_keywords : list string;
  lowercased_exclude_keywords : list string;
  lowercased_tags : list string
}.

Definition long_enough (k : string) : bool := (MIN_KEYWORD_TAG_LENGTH <=? String.length k)%nat.

Definition enforce_limits (a : ActivationCriteria) : ActivationCriteria :=
  mkActivation (take MAX_KEYWORDS_PER_SKILL (List.filter long_enough (keywords a)))
    (take MAX_KEYWORDS_PER_SKILL (List.filter long_enough (exclude_keywords a)))
    (take MAX_PATTERNS_PER_SKILL (act_patterns a))
    (take MAX_TAGS_PER_SKILL (List.filter long_enough (tags a)))
    (max_context_tokens a).

(** [^[a-zA-Z0-9][a-zA-Z0-9._-]{0,63}$] *)
Definition name_char (c : ascii) : bool :=
  is_alnum c || Ascii.eqb c "." || Ascii.eqb c "_" || Ascii.eqb c "-".

Definition validate_skill_name (n : string) : bool :=
  match n with
  | EmptyString => false
  | String c r => is_alnum c && string_forallb name_char r && (String.length r <=? 63)%nat
  end.

Definition normalize_line_endings (content : string) : string :=
  str_replace (String cr "") nl_str (str_replace (String cr nl_str) nl_str content).

(** ** Selection *)

Definition MAX_KEYWORD_SCORE : nat := 30.
Definition MAX_TAG_SCORE : nat := 15.
Definition MAX_REGEX_SCORE : nat := 40.

Fixpoint drop_while {A} (f : A -> bool) (l : list A) : list A :=
  match l with [] => [] | x :: r => if f x then drop_while f r else l end.

Section selector.
  Context `{RegexEngine}.
  (** The Unicode tables of the standard library. *)
  Variable to_lowercase : string -> string.
  Variable is_alphanumeric : string -> bool.

(** [word.trim_matches(|c| !c.is_alphanumeric())] *)
Definition trim_word (word : string) : string :=
  let out := fun c => negb (is_alphanumeric c) in
  cat (rev (drop_while out (rev (drop_while out (chars word))))).

Definition keyword_points (message_lower kw : string) : nat :=
  if existsb (fun word => (trim_word word =? kw)%string) (split_whitespace message_lower) then 10
  else if contains kw message_lower then 5 else 0.

Definition score_skill (s : LoadedSkill) (message_lower message : string) : nat :=
  if existsb (fun excl => contains excl message_lower) (lowercased_exclude_keywords s) then 0
  else
    let keyword_score := sum_list (keyword_points message_lower <$> lowercased_keywords s) in
    let tag_score := sum_list ((fun t => if contains t message_lower then 3 else 0) <$> lowercased_tags s) in
    let regex_score := sum_list ((fun re => if is_match re message then 20 else 0) <$> compiled_patterns s) in
    min keyword_score MAX_KEYWORD_SCORE + min tag_score MAX_TAG_SCORE + min regex_score MAX_REGEX_SCORE.

(** What a skill takes of the context budget. *)
Definition token_cost (s : LoadedSkill) : Z :=
  let declared_tokens := max_context_tokens (activation (manifest s)) in
  let approx_tokens :=
    f64_to_usize (f64_mul (f64_of_Z (Z.of_nat (String.length (prompt_content s)))) (f64_ratio 1 4)) in
  let raw_cost := if (wrap64 (declared_tokens * 2) <? approx_tokens)%Z then approx_tokens else declared_tokens in
  Z.max raw_cost 1.

Fixpoint select_loop (scored : list (LoadedSkill * nat)) (max_candidates : nat) (count : nat)
    (budget_remaining : Z) : list LoadedSkill :=
  match scored with
  | [] => []
  | (s, _) :: scored =>
      if (max_candidates <=? count)%nat then []
      else if (token_cost s <=? budget_remaining)%Z
      then s :: select_loop scored max_candidates (S count) (budget_remaining - token_cost s)
      else select_loop scored max_candidates count budget_remaining
  end.

Definition scored_skills (message : string) (available : list LoadedSkill) : list (LoadedSkill * nat) :=
  omap (fun s => let score := score_skill s (to_lowercase message) message in
                 if (0 <? score)%nat then Some (s, score) else None) available.

(** The highest score a skill can get, for the descending sort by score. *)
Definition MAX_SCORE : nat := MAX_KEYWORD_SCORE + MAX_TAG_SCORE + MAX_REGEX_SCORE.

Definition prefilter_skills (message : string) (available : list LoadedSkill) (max_candidates : nat)
    (max_context_tokens : Z) : list LoadedSkill :=
  match available with
  | [] => []
  | _ =>
      if str_is_empty message then []
      else
        let scored := sort_by (fun e => MAX_SCORE - e.2) (scored_skills message available) in
        select_loop scored max_candidates 0 max_context_tokens
  end.

End selector.

(** ** Attenuation *)

Definition READ_ONLY_TOOLS : list string :=
  ["memory_search"; "memory_read"; "memory_tree"; "time"; "echo"; "json"; "skill_list"; "skill_search"].

Record AttenuationResult : Type := mkAttenuation {
  at_tools : list ToolDefinition;
  min_trust : SkillTrust;
  explanation : string;
  removed_tools : list string
}.

Definition trust_min (a b : SkillTrust) : SkillTrust :=
  match a, b with Installed, _ | _, Installed => Installed | _, _ => Trusted end.

Definition attenuate_tools (tools : list ToolDefinition) (active : list LoadedSkill) : AttenuationResult :=
  match active with
  | [] => mkAttenuation tools Trusted "No skills active, all tools available" []
  | _ =>
      match foldr (fun s t => trust_min (trust s) t) Trusted active with
      | Trusted =>
          mkAttenuation tools Trusted
            "All active skills are trusted (full trust), all tools available" []
      | Installed =>
          let read_only t := bool_decide (td_name t ∈ READ_ONLY_TOOLS) in
          let kept := List.filter read_only tools in
          let removed := td_name <$> List.filter (fun t => negb (read_only t)) tools in
          mkAttenuation kept Installed
            (cat ["Installed skill present: restricted to read-only tools, removed ";
                  show_nat (length removed); " tool(s): "; str_join ", " removed]) removed
      end
  end.

(** ** Gating *)

Record GatingResult : Type := mkGating { passed : bool; failures : list string }.

Section gating.
  Variable binary_exists env_is_set path_exists : string -> bool.

Definition missing (present : string -> bool) (what : string) (l : list string) : list string :=
  omap (fun x => if present x then None else Some (what +:+ x)) l.

Definition check_requirements_sync (r : GatingRequirements) : GatingResult :=
  let failures := missing binary_exists "required binary not found: " (bins r) ++
                  missing env_is_set "required env var not set: " (env r) ++
                  missing path_exists "required config not found: " (config r) in
  mkGating (match failures with [] => true | _ => false end) failures.

End gating.

(** ** Parsing *)

Inductive SkillParseError : Type :=
| MissingFrontmatter | InvalidYaml (reason : string) | EmptyPrompt | InvalidName (name : string).

Record ParsedSkill : Type := mkParsed { ps_manifest : SkillManifest; ps_prompt_content : string }.

Fixpoint closing_loop (ls : list string) (pos : nat) : option nat :=
  match ls with
  | [] => None
  | line :: ls =>
      if (trim line =? "---")%string then Some pos else closing_loop ls (pos + (String.length line + 1))
  end.

Definition find_closing_delimiter (content : string) : option nat := closing_loop (lines content) 0.

Definition bom : string := bytes [239; 187; 191].

Section parser.
  Variable yaml_from_str : string -> Result string SkillManifest.

Definition parse_skill_md (content : string) : Result SkillParseError ParsedSkill :=
  let content := default content (strip_prefix bom content) in
  let trimmed := trim_start_chars (fun c => Ascii.eqb c nl || Ascii.eqb c cr) content in
  if negb (starts_with "---" trimmed) then Err MissingFrontmatter
  else
    let after_first := str_from 3 trimmed in
    match str_find nl_str after_first with
    | None => Err MissingFrontmatter
    | Some pos =>
        let after_first_line := str_from (pos + 1) after_first in
        match find_closing_delimiter after_first_line with
        | None => Err MissingFrontmatter
        | Some yaml_end =>
            match yaml_from_str (str_to yaml_end after_first_line) with
            | Err e => Err (InvalidYaml e)
            | Ok m =>
                if negb (validate_skill_name (sm_name m)) then Err (InvalidName (sm_name m))
                else
                  let m := mkManifest (sm_name m) (sm_version m) (sm_description m)
                             (enforce_limits (activation m)) (metadata m) in
                  let after_yaml := str_from yaml_end after_first_line in
                  let prompt_start := match str_find nl_str after_yaml with
                                      | Some p => p + 1
                                      | None => String.length after_yaml
                                      end in
                  let prompt := trim_start_chars (fun c => Ascii.eqb c nl) (str_from prompt_start after_yaml) in
                  if str_is_empty (trim prompt) then Err EmptyPrompt else Ok (mkParsed m prompt)
            end
        end
    end.

End parser.

(** ** What is selected *)

Section selected.
  Context `{RegexEngine}.
  Variable to_lowercase : string -> string.
  Variable is_alphanumeric : string -> bool.

Abbreviation score message s := (score_skill is_alphanumeric s (to_lowercase message) message).

Definition total_cost (l : list LoadedSkill) : Z := foldr (fun s n => (token_cost s + n)%Z) 0%Z l.

Lemma token_cost_pos s : (1 ≤ token_cost s)%Z.
Proof. unfold token_cost. lia. Qed.

Lemma select_loop_limits scored maxc count budget :
  let sel := select_loop scored maxc count budget in
  length sel ≤ maxc - count ∧ (total_cost sel ≤ Z.max 0 budget)%Z ∧ sublist sel (fst <$> scored).
Proof.
  revert count budget; induction scored as [|[s n] scored IH]; intros count budget; cbv zeta.
  - simpl. split; [lia|]. split; [lia|constructor].
  - cbn [select_loop fmap list_fmap]. destruct (Nat.leb_spec maxc count) as [Hc|Hc].
    { simpl. split; [lia|]. split; [lia|]. apply sublist_nil_l. }
    destruct (Z.leb_spec (token_cost s) budget) as [Hb|Hb].
    + destruct (IH (S count) (budget - token_cost s)%Z) as (Hl & Ht & Hs). pose proof (token_cost_pos s).
      cbn [length total_cost foldr]. fold (total_cost (select_loop scored maxc (S count) (budget - token_cost s))).
      split; [lia|]. split; [lia|]. by constructor.
    + destruct (IH count budget) as (Hl & Ht & Hs). split; [done|]. split; [done|]. by constructor.
Qed.

Lemma score_bounded s message_lower message :
  score_skill is_alphanumeric s message_lower message ≤ MAX_SCORE.
Proof. unfold score_skill, MAX_SCORE. case_match; lia. Qed.

Lemma sublist_keeps {A} (P : A → Prop) l k : sublist l k → Forall P k → Forall P l.
Proof. induction 1; rewrite ?Forall_cons; naive_solver. Qed.

Lemma StronglySorted_sublist {A} (R : A → A → Prop) l k : sublist l k → StronglySorted R k → StronglySorted R l.
Proof.
  induction 1 as [|x l k Hs IH|x l k Hs IH]; intros Hk; [done| |].
  - apply StronglySorted_inv in Hk as [Hk Hx]. constructor; [auto|]. by eapply sublist_keeps.
  - apply StronglySorted_inv in Hk as [Hk _]. auto.
Qed.

Lemma scored_skills_spec message available e :
  e ∈ scored_skills to_lowercase is_alphanumeric message available →
  e.1 ∈ available ∧ e.2 = score message e.1 ∧ 0 < e.2.
Proof.
  unfold scored_skills. intros (s & Hs & He)%list_elem_of_omap. cbv zeta in He.
  destruct (Nat.ltb_spec 0 (score message s)); [|done]. by injection He as <-.
Qed.

(** The skills a message activates stay within the limits: no more than the allowed
    number, together within the context budget, each one among the available ones, with a
    positive score that no amount of keywords can raise above the cap and without a word
    that excludes it, in the order of their scores. *)
Theorem selection_within_limits message available maxc budget :
  let sel := prefilter_skills to_lowercase is_alphanumeric message available maxc budget in
  length sel ≤ maxc ∧ (total_cost sel ≤ Z.max 0 budget)%Z ∧
  Forall (fun s => s ∈ available ∧ 0 < score message s ≤ MAX_SCORE ∧
            Forall (fun x => contains x (to_lowercase message) = false) (lowercased_exclude_keywords s)) sel ∧
  StronglySorted (fun a b => score message b ≤ score message a) sel.
Proof.
  cbv zeta. unfold prefilter_skills.
  destruct available as [|a0 rest]; [simpl; split; [lia|]; split; [lia|]; split; constructor|].
  destruct (str_is_empty message); [simpl; split; [lia|]; split; [lia|]; split; constructor|].
  set (scored := sort_by _ _).
  destruct (select_loop_limits scored maxc 0 budget) as (Hl & Ht & Hs).
  assert (∀ e, e ∈ scored → e.1 ∈ a0 :: rest ∧ e.2 = score message e.1 ∧ 0 < e.2) as Hin.
  { intros e He. apply scored_skills_spec. by rewrite <-(sort_by_perm (fun e => MAX_SCORE - e.2)). }
  split; [lia|]. split; [done|]. split.
  - eapply sublist_keeps; [exact Hs|]. apply Forall_forall.
    intros s (e & -> & He)%list_elem_of_fmap. destruct (Hin e He) as (Ha & Hsc & Hpos).
    split; [done|]. split; [rewrite <-Hsc; split; [done|]; rewrite Hsc; apply score_bounded|].
    rewrite Hsc in Hpos. unfold score_skill in Hpos.
    destruct (existsb _ (lowercased_exclude_keywords e.1)) eqn:Hex; [lia|].
    apply Forall_forall. intros x Hx. destruct (contains x (to_lowercase message)) eqn:Hc; [|done].
    apply not_true_iff_false in Hex as []. apply existsb_exists. exists x.
    by rewrite <-list_elem_of_In.
  - eapply StronglySorted_sublist; [exact Hs|].
    pose proof (sort_by_sorted (fun e : LoadedSkill * nat => MAX_SCORE - e.2)
      (scored_skills to_lowercase is_alphanumeric message (a0 :: rest))) as Hsort. fold scored in Hsort.
    clearbody scored. clear -Hsort Hin. induction Hsort as [|e l Hl IH He]; [constructor|]. simpl. constructor.
    + apply IH. intros e' He'. apply Hin. set_solver.
    + apply Forall_forall. intros s (e' & -> & He')%list_elem_of_fmap. rewrite Forall_forall in He.
      specialize (He e' He'). simpl in He.
      destruct (Hin e ltac:(set_solver)) as (_ & H1 & _), (Hin e' ltac:(set_solver)) as (_ & H2 & _).
      pose proof (score_bounded e.1 (to_lowercase message) message).
      pose proof (score_bounded e'.1 (to_lowercase message) message). lia.
Qed.

End selected.

(** ** What the model sees of the tools *)

Lemma min_trust_installed active :
  foldr (fun s t => trust_min (trust s) t) Trusted active = Installed ↔ Exists (fun s => trust s = Installed) active.
Proof.
  induction active as [|s active IH]; simpl; [by rewrite Exists_nil|].
  rewrite Exists_cons, <-IH. destruct (trust s), (foldr _ _ active); naive_solver.
Qed.

Lemma read_only_tools_protected : Forall (fun n => n ∈ PROTECTED_TOOL_NAMES) READ_ONLY_TOOLS.
Proof. apply (bool_decide_unpack _). vm_compute. exact I. Qed.

(** One installed skill among the active ones lowers what the model sees to the
    read-only tools, and only that does: no other tool is left, each one left was offered
    before and has a name no dynamic tool can take over, every offered tool is either left or named
    as removed, and without an installed skill nothing is removed. *)
Theorem installed_skill_ceiling tools active :
  let r := attenuate_tools tools active in
  (min_trust r = Installed ↔ Exists (fun s => trust s = Installed) active) ∧
  (td_name <$> at_tools r) ++ removed_tools r ≡ₚ td_name <$> tools ∧ sublist (at_tools r) tools ∧
  (min_trust r = Installed →
     Forall (fun t => td_name t ∈ READ_ONLY_TOOLS ∧ td_name t ∈ PROTECTED_TOOL_NAMES) (at_tools r) ∧
     Forall (fun n => n ∉ READ_ONLY_TOOLS) (removed_tools r)) ∧
  (min_trust r = Trusted → at_tools r = tools).
Proof.
  cbv zeta. unfold attenuate_tools. destruct active as [|s0 rest].
  { cbn. rewrite app_nil_r, Exists_nil. naive_solver. }
  pose proof (min_trust_installed (s0 :: rest)) as Hm.
  destruct (foldr _ Trusted (s0 :: rest)) eqn:Hf; cbn [min_trust at_tools removed_tools]; cycle 1.
  { rewrite app_nil_r. split; [exact Hm|]. naive_solver. }
  set (ro := fun t => bool_decide (td_name t ∈ READ_ONLY_TOOLS)).
  split; [exact Hm|]. split; [rewrite <-fmap_app; apply fmap_Permutation, (filter_partition ro)|].
  split; [clear; induction tools; simpl; [constructor|]; case_match; by constructor|].
  split; [|done]. intros _. rewrite !Forall_forall. split.
  - intros t [_ Ht%bool_decide_eq_true]%list_elem_of_In%filter_In. split; [done|].
    by apply (proj1 (Forall_forall _ _) read_only_tools_protected).
  - intros n (t & -> & [_ Ht%negb_true_iff%bool_decide_eq_false]%list_elem_of_In%filter_In)%list_elem_of_fmap. done.
Qed.

(** ** Gating *)

Lemma missing_nil present what l : missing present what l = [] ↔ Forall (fun x => present x = true) l.
Proof.
  unfold missing. induction l as [|x l IH]; simpl; [done|]. rewrite Forall_cons, <-IH.
  destruct (present x); simpl; naive_solver.
Qed.

(** A skill passes the gate exactly when everything it requires is there, and every
    missing item is reported. *)
Theorem gate_passes_iff_present binary_exists env_is_set path_exists r :
  let g := check_requirements_sync binary_exists env_is_set path_exists r in
  (passed g = true ↔ Forall (fun b => binary_exists b = true) (bins r) ∧
                     Forall (fun v => env_is_set v = true) (env r) ∧
                     Forall (fun p => path_exists p = true) (config r)) ∧
  (passed g = true ↔ failures g = []) ∧
  (∀ b, b ∈ bins r → binary_exists b = false → ("required binary not found: " +:+ b) ∈ failures g).
Proof.
  cbv zeta. unfold check_requirements_sync. cbn [passed failures].
  rewrite <-(missing_nil _ "required binary not found: "), <-(missing_nil _ "required env var not set: "),
    <-(missing_nil _ "required config not found: ").
  split; [destruct (missing binary_exists _ _), (missing env_is_set _ _), (missing path_exists _ _); naive_solver|].
  split; [case_match; naive_solver|].
  intros b Hb Hf. rewrite !elem_of_app. left. apply list_elem_of_omap. exists b. by rewrite Hf.
Qed.

(** ** Reading a skill file *)

(** The text of a skill file: the front matter between its two delimiters, then the prompt. *)
Definition line_text (ls : list string) : string := cat ((fun l => l +:+ nl_str) <$> ls).

Definition skill_text (ls : list string) (prompt : string) : string :=
  cat ["---"; nl_str; line_text ls; "---"; nl_str; prompt].

Fixpoint no_nl (s : string) : bool :=
  match s with EmptyString => true | String c r => if ascii_dec c nl then false else no_nl r end.

Definition front_line (l : string) : bool :=
  no_nl l && negb (ends_with (String cr "") l) && negb (trim l =? "---")%string.

Lemma split_nl_line l rest : no_nl l = true → split_nl (l +:+ String nl rest) = l :: split_nl rest.
Proof.
  induction l as [|c l IH]; [done|]. rewrite append_cons. cbn [no_nl split_nl].
  destruct (ascii_dec c nl); [done|]. intros Hl. by rewrite IH.
Qed.

Lemma lines_line l rest :
  no_nl l = true → ends_with (String cr "") l = false → lines (l +:+ String nl rest) = l :: lines rest.
Proof.
  intros Hl Hc. unfold lines. rewrite split_nl_line by done. cbn [lines_of]. unfold strip_cr. rewrite Hc.
  destruct rest as [|c rest]; [done|]. cbn [split_nl]. destruct (ascii_dec c nl); [done|]. by destruct (split_nl rest).
Qed.

Lemma line_text_cons l ls : line_text (l :: ls) = l +:+ String nl (line_text ls).
Proof. unfold line_text. cbn [fmap list_fmap]. by rewrite cat_cons, append_assoc. Qed.

Lemma closing_loop_finds ls rest pos :
  Forall (fun l => front_line l = true) ls →
  closing_loop (lines (line_text ls +:+ ("---" +:+ String nl rest))) pos = Some (pos + String.length (line_text ls)).
Proof.
  intros Hls. revert pos. induction Hls as [|l ls Hl _ IH]; intros pos.
  - change (line_text [] +:+ ?x) with x. rewrite lines_line by done. simpl. f_equal. lia.
  - unfold front_line in Hl. rewrite !andb_true_iff, !negb_true_iff in Hl. destruct Hl as [[Hn Hc] Ht].
    rewrite line_text_cons, append_assoc, append_cons, lines_line by done. cbn [closing_loop].
    rewrite Ht, IH, length_append. cbn [String.length]. f_equal. lia.
Qed.

Lemma skill_text_eq ls prompt :
  skill_text ls prompt = "---" +:+ String nl (line_text ls +:+ ("---" +:+ String nl prompt)).
Proof. unfold skill_text. by rewrite !cat_cons, append_nil_r. Qed.

Definition limited (m : SkillManifest) : SkillManifest :=
  mkManifest (sm_name m) (sm_version m) (sm_description m) (enforce_limits (activation m)) (metadata m).

(** A skill file laid out as documented is read back: front matter lines between the two
    delimiters reach the YAML reader unchanged, the prompt after them comes back as it
    stands, and the manifest differs only in the limits put on its activation criteria. *)
Theorem skill_file_roundtrip yaml_from_str ls prompt m :
  Forall (fun l => front_line l = true) ls → yaml_from_str (line_text ls) = Ok m →
  validate_skill_name (sm_name m) = true → trim prompt ≠ "" → starts_with nl_str prompt = false →
  parse_skill_md yaml_from_str (skill_text ls prompt) = Ok (mkParsed (limited m) prompt).
Proof.
  intros Hls Hy Hn Hp Hs. rewrite skill_text_eq. unfold parse_skill_md.
  set (rest := line_text ls +:+ ("---" +:+ String nl prompt)).
  change (default _ (strip_prefix bom ("---" +:+ String nl rest))) with ("---" +:+ String nl rest).
  change (trim_start_chars _ ("---" +:+ String nl rest)) with ("---" +:+ String nl rest).
  assert (starts_with "---" ("---" +:+ String nl rest) = true) as -> by (apply starts_with_iff; by eexists).
  change (str_from 3 ("---" +:+ String nl rest)) with (String nl rest).
  cbn [negb]. cbv zeta.
  assert (str_find nl_str (String nl rest) = Some 0) as -> by (cbn [str_find]; by destruct rest).
  change (str_from (0 + 1) (String nl rest)) with rest.
  unfold find_closing_delimiter. subst rest. rewrite closing_loop_finds by done. cbn [Nat.add].
  rewrite str_to_app, str_from_app by done. rewrite Hy, Hn. cbn [negb].
  assert (str_find nl_str ("---" +:+ String nl prompt) = Some 3) as -> by (simpl; by destruct prompt).
  change (str_from (3 + 1) ("---" +:+ String nl prompt)) with prompt.
  assert (trim_start_chars (fun c => Ascii.eqb c nl) prompt = prompt) as ->.
  { unfold trim_start_chars. destruct prompt as [|c prompt]; [done|]. cbn [span_len].
    destruct (Ascii.eqb_spec c nl) as [->|]; [|done]. cbn in Hs. by destruct prompt. }
  destruct (str_is_empty (trim prompt)) eqn:He; [by apply str_is_empty_iff in He|]. done.
Qed.

Lemma skill_file_roundtrip_witness :
  let m := mkManifest "demo" "1.0" "" (mkActivation ["write"; "ab"] [] [] [] 2000) None in
  parse_skill_md (fun _ => Ok m) (skill_text ["name: demo"; "version: 1.0"] "You help.") =
  Ok (mkParsed (mkManifest "demo" "1.0" "" (mkActivation ["write"] [] [] [] 2000) None) "You help.").
Proof.
  intros m. apply (skill_file_roundtrip (fun _ => Ok m) ["name: demo"; "version: 1.0"] "You help." m); try reflexivity.
  - repeat constructor.
  - done.
Defined.

Definition within_limits (a : ActivationCriteria) : Prop :=
  length (keywords a) ≤ MAX_KEYWORDS_PER_SKILL ∧ length (exclude_keywords a) ≤ MAX_KEYWORDS_PER_SKILL ∧
  length (act_patterns a) ≤ MAX_PATTERNS_PER_SKILL ∧ length (tags a) ≤ MAX_TAGS_PER_SKILL ∧
  Forall (fun k => MIN_KEYWORD_TAG_LENGTH ≤ String.length k) (keywords a ++ exclude_keywords a ++ tags a).

Lemma take_filter_long n l :
  Forall (fun k => MIN_KEYWORD_TAG_LENGTH ≤ String.length k) (take n (List.filter long_enough l)).
Proof.
  apply Forall_take, Forall_forall. intros k [_ Hk]%list_elem_of_In%filter_In. by apply Nat.leb_le.
Qed.

Lemma enforce_limits_within a : within_limits (enforce_limits a).
Proof.
  unfold within_limits, enforce_limits. cbn [keywords exclude_keywords act_patterns tags].
  rewrite !length_take, !Forall_app. repeat split; try lia; apply take_filter_long.
Qed.

(** Whatever a skill file holds, a skill that is read has a valid name, activation criteria within
    the limits, and a prompt that is not blank; anything else is one of the four errors. *)
Theorem parsed_skill_limited yaml_from_str content :
  match parse_skill_md yaml_from_str content with
  | Ok p => validate_skill_name (sm_name (ps_manifest p)) = true ∧
            within_limits (activation (ps_manifest p)) ∧ trim (ps_prompt_content p) ≠ ""
  | Err (InvalidName n) => validate_skill_name n = false
  | Err _ => True
  end.
Proof.
  unfold parse_skill_md. cbv zeta. destruct (starts_with "---" _); [|done]. cbn [negb].
  destruct (str_find nl_str _) as [pos|]; [|done].
  destruct (find_closing_delimiter _) as [e|]; [|done].
  destruct (yaml_from_str _) as [m|err]; [|done].
  destruct (validate_skill_name (sm_name m)) eqn:Hn; [|done]. cbn [negb].
  destruct (str_is_empty (trim _)) eqn:He; [done|]. cbn [ps_manifest ps_prompt_content sm_name activation].
  split; [done|]. split; [apply enforce_limits_within|]. intros Ht. apply str_is_empty_iff in Ht. congruence.
Qed.
