(* ===== verification/Ssrf.v ===== *)
(** * Ssrf: the guards against requests to internal addresses

    Every part of the program that fetches a URL chosen by a model, a tool, an extension or
    the configuration checks the target first: the HTTP tool ([src/tools/builtin/http.rs]), the WASM
    tools ([src/tools/wasm/wrapper.rs]), the skill installer
    ([src/tools/builtin/skill_tools.rs]), the OAuth discovery of MCP servers
    ([src/tools/mcp/auth.rs], [config.rs]), the channel setup ([src/setup/channels.rs]) and the
    configuration of base URLs ([src/config/helpers.rs]).  Each has a block list of its own.
    The address types and their predicates are those of [std::net]; the [url] crate, the
    parser and the printer of addresses and the resolver are parameters. *)

From Stdlib Require Import Ascii.
From stdpp Require Import pretty.
From S2P Require Import Prelude Text TextSearch.

(** ** Addresses of [std::net] *)

Record Ipv4Addr : Type := mkV4 { oct0 : Z; oct1 : Z; oct2 : Z; oct3 : Z }.

Record Ipv6Addr : Type := mkV6 {
  seg0 : Z; seg1 : Z; seg2 : Z; seg3 : Z; seg4 : Z; seg5 : Z; seg6 : Z; seg7 : Z
}.

Inductive IpAddr : Type := V4 (a : Ipv4Addr) | V6 (a : Ipv6Addr).

#[export] Instance Ipv4Addr_eq_dec : EqDecision Ipv4Addr.
Proof. solve_decision. Defined.
#[export] Instance Ipv6Addr_eq_dec : EqDecision Ipv6Addr.
Proof. solve_decision. Defined.

Record SocketAddr : Type := mkSocket { sa_ip : IpAddr; sa_port : Z }.

Local Open Scope Z_scope.

Definition is_private (a : Ipv4Addr) : bool :=
  (oct0 a =? 10) || ((oct0 a =? 172) && (16 <=? oct1 a) && (oct1 a <=? 31)) || ((oct0 a =? 192) && (oct1 a =? 168)).
Definition v4_is_loopback (a : Ipv4Addr) : bool := oct0 a =? 127.
Definition is_link_local (a : Ipv4Addr) : bool := (oct0 a =? 169) && (oct1 a =? 254).
Definition is_broadcast (a : Ipv4Addr) : bool := bool_decide (a = mkV4 255 255 255 255).
Definition is_documentation (a : Ipv4Addr) : bool :=
  ((oct0 a =? 192) && (oct1 a =? 0) && (oct2 a =? 2)) || ((oct0 a =? 198) && (oct1 a =? 51) && (oct2 a =? 100)) ||
  ((oct0 a =? 203) && (oct1 a =? 0) && (oct2 a =? 113)).
Definition v4_is_unspecified (a : Ipv4Addr) : bool := bool_decide (a = mkV4 0 0 0 0).
Definition v4_is_multicast (a : Ipv4Addr) : bool := (224 <=? oct0 a) && (oct0 a <=? 239).

Definition v6_is_loopback (a : Ipv6Addr) : bool := bool_decide (a = mkV6 0 0 0 0 0 0 0 1).
Definition v6_is_unspecified (a : Ipv6Addr) : bool := bool_decide (a = mkV6 0 0 0 0 0 0 0 0).
Definition is_unique_local (a : Ipv6Addr) : bool := Z.land (seg0 a) 65024 =? 64512. (* 0xfe00, 0xfc00 *)
Definition is_unicast_link_local (a : Ipv6Addr) : bool := Z.land (seg0 a) 65472 =? 65152. (* 0xffc0, 0xfe80 *)
Definition v6_is_multicast (a : Ipv6Addr) : bool := Z.land (seg0 a) 65280 =? 65280. (* 0xff00 *)

Definition to_ipv4_mapped (a : Ipv6Addr) : option Ipv4Addr :=
  if (seg0 a =? 0) && (seg1 a =? 0) && (seg2 a =? 0) && (seg3 a =? 0) && (seg4 a =? 0) && (seg5 a =? 65535)
  then Some (mkV4 (Z.shiftr (seg6 a) 8) (Z.land (seg6 a) 255) (Z.shiftr (seg7 a) 8) (Z.land (seg7 a) 255))
  else None.

Definition ip_is_loopback (ip : IpAddr) : bool :=
  match ip with V4 a => v4_is_loopback a | V6 a => v6_is_loopback a end.
Definition ip_is_unspecified (ip : IpAddr) : bool :=
  match ip with V4 a => v4_is_unspecified a | V6 a => v6_is_unspecified a end.

(** ** The block lists *)

(** [(v4.octets()[0] == 100 && (v4.octets()[1] & 0xC0) == 64)] *)
Definition is_cgnat (a : Ipv4Addr) : bool := (oct0 a =? 100) && (Z.land (oct1 a) 192 =? 64).

Definition is_disallowed_ipv4 (a : Ipv4Addr) : bool :=
  is_private a || v4_is_loopback a || is_link_local a || v4_is_multicast a || v4_is_unspecified a ||
  bool_decide (a = mkV4 169 254 169 254) || is_cgnat a.

Definition is_disallowed_ip (ip : IpAddr) : bool :=
  match ip with
  | V4 a => is_disallowed_ipv4 a
  | V6 a =>
      match to_ipv4_mapped a with Some m => is_disallowed_ipv4 m | None => false end ||
      (v6_is_loopback a || is_unique_local a || is_unicast_link_local a || v6_is_multicast a || v6_is_unspecified a)
  end.

Definition wasm_is_private_ip (ip : IpAddr) : bool :=
  match ip with
  | V4 a => v4_is_loopback a || is_private a || is_link_local a || v4_is_unspecified a || is_cgnat a
  | V6 a => v6_is_loopback a || v6_is_unspecified a || (Z.land (seg0 a) 65024 =? 64512) ||
            (Z.land (seg0 a) 65472 =? 65152)
  end.

Definition normalize_ip (ip : IpAddr) : IpAddr :=
  match ip with
  | V6 a => match to_ipv4_mapped a with Some m => V4 m | None => V6 a end
  | other => other
  end.

Definition skill_is_private_ip (ip : IpAddr) : bool :=
  match ip with V4 a => is_private a || is_link_local a | V6 a => Z.land (seg0 a) 65024 =? 64512 end.

Definition is_link_local_ip (ip : IpAddr) : bool :=
  match ip with V4 a => is_link_local a | V6 a => Z.land (seg0 a) 65472 =? 65152 end.

(** What [validate_fetch_ip] refuses. *)
Definition fetch_ip_refused (ip : IpAddr) : bool :=
  ip_is_loopback ip || ip_is_unspecified ip || skill_is_private_ip ip || is_link_local_ip ip.

Definition dangerous_ipv4 (a : Ipv4Addr) : bool :=
  v4_is_loopback a || is_private a || is_link_local a || is_broadcast a || v4_is_unspecified a ||
  ((oct0 a =? 169) && (oct1 a =? 254)) || is_cgnat a.

Definition is_dangerous_ip (ip : IpAddr) : bool :=
  match ip with
  | V4 a => dangerous_ipv4 a
  | V6 a =>
      v6_is_loopback a || v6_is_unspecified a || (Z.land (seg0 a) 65472 =? 65152) ||
      (Z.land (seg0 a) 65472 =? 65216) (* 0xfec0 *) || (Z.land (seg0 a) 65024 =? 64512) ||
      ((seg0 a =? 8193) && (seg1 a =? 3512)) (* 2001:db8 *) ||
      match to_ipv4_mapped a with Some m => dangerous_ipv4 m | None => false end
  end.

Definition config_blocked_v4 (a : Ipv4Addr) : bool :=
  is_private a || v4_is_loopback a || is_link_local a || v4_is_multicast a || v4_is_unspecified a ||
  bool_decide (a = mkV4 169 254 169 254) || is_cgnat a.

(** The first octet of an address is the high byte of its first segment. *)
Definition v6_oct0 (a : Ipv6Addr) : Z := Z.shiftr (seg0 a) 8.

Definition config_is_dangerous_ip (ip : IpAddr) : bool :=
  match ip with
  | V4 a => config_blocked_v4 a
  | V6 a =>
      match to_ipv4_mapped a with
      | Some m => config_blocked_v4 m
      | None => v6_is_loopback a || v6_is_unspecified a || (Z.land (v6_oct0 a) 254 =? 252) ||
                (Z.land (seg0 a) 65472 =? 65152) || (v6_oct0 a =? 255)
      end
  end.

Definition setup_is_disallowed_ip (ip : IpAddr) : bool :=
  match normalize_ip ip with
  | V4 a => is_private a || v4_is_loopback a || is_link_local a || v4_is_multicast a || v4_is_unspecified a ||
            bool_decide (a = mkV4 169 254 169 254) || is_cgnat a
  | V6 a => v6_is_loopback a || is_unique_local a || is_unicast_link_local a || v6_is_multicast a || v6_is_unspecified a
  end.

(** ** Parsed URLs *)

Inductive Host : Type := Domain (d : string) | HostIpv4 (a : Ipv4Addr) | HostIpv6 (a : Ipv6Addr).

Record Url : Type := mkUrl {
  u_scheme : string;
  u_username : string;
  u_password : option string;
  u_host : option Host;
  u_port : option Z;
  u_port_or_known_default : option Z
}.

(** The outcome of the [n]-th lookup is a parameter of its own: a name may resolve
    differently each time. *)
Class NetEnv := {
  url_parse : string -> Result string Url;
  ip_parse : string -> option IpAddr;
  ip_display : IpAddr -> string;
  to_lowercase : string -> string;
  lookup_host : nat -> string -> Result string (list SocketAddr);
  lookup_host_port : nat -> string -> Z -> Result string (list SocketAddr)
}.

Inductive ToolError : Type :=
| InvalidParameters (m : string) | ExecutionFailed (m : string) | Timeout (d : Z)
| NotAuthorized (m : string) | RateLimited (d : option Z) | ExternalService (m : string) | Sandbox (m : string).

Definition show_Z (z : Z) : string := pretty z.

Section guards.
  Context `{NetEnv}.

(** [Url::host_str]: an IPv6 host is written in brackets. *)
Definition show_host (h : Host) : string :=
  match h with
  | Domain d => d
  | HostIpv4 a => ip_display (V4 a)
  | HostIpv6 a => cat ["["; ip_display (V6 a); "]"]
  end.

Definition host_str (u : Url) : option string := show_host <$> u_host u.

Definition has_userinfo (u : Url) : bool :=
  negb (str_is_empty (u_username u)) || match u_password u with Some _ => true | None => false end.

(** The address of the first socket address that a block list refuses. *)
Definition first_blocked (blocked : IpAddr -> bool) (addrs : list SocketAddr) : option IpAddr :=
  find (fun ip => blocked ip) (sa_ip <$> addrs).

(** *** The HTTP tool *)

Definition validate_url (url : string) : Result ToolError Url :=
  match url_parse url with
  | Err e => Err (InvalidParameters ("invalid URL: " +:+ e))
  | Ok parsed =>
      if negb (u_scheme parsed =? "https")%string then Err (NotAuthorized "only https URLs are allowed")
      else
        match host_str parsed with
        | None => Err (InvalidParameters "URL missing host")
        | Some host =>
            let host_lower := to_lowercase host in
            if (host_lower =? "localhost")%string || ends_with ".localhost" host_lower
            then Err (NotAuthorized "localhost is not allowed")
            else
              match ip_parse host with
              | Some ip =>
                  if is_disallowed_ip ip then Err (NotAuthorized "private or local IPs are not allowed") else Ok parsed
              | None => Ok parsed
              end
        end
  end.

Definition validate_and_resolve_url (n : nat) (u : Url) : Result ToolError (list SocketAddr) :=
  match host_str u with
  | None => Err (InvalidParameters "URL missing host")
  | Some host =>
      let port := default 443 (u_port_or_known_default u) in
      match lookup_host n (cat [host; ":"; show_Z port]) with
      | Err e => Err (ExternalService (cat ["DNS resolution failed for '"; host; "': "; e]))
      | Ok [] => Err (ExternalService (cat ["DNS resolution for '"; host; "' returned no addresses"]))
      | Ok addrs =>
          match first_blocked is_disallowed_ip addrs with
          | Some ip => Err (NotAuthorized (cat ["hostname '"; host; "' resolves to disallowed IP "; ip_display ip]))
          | None => Ok addrs
          end
      end
  end.

(** *** WASM tools *)

(** [h.strip_prefix('[').and_then(|v| v.strip_suffix(']')).unwrap_or(h)] *)
Definition strip_brackets (h : string) : string :=
  match strip_prefix "[" h with
  | Some v => if ends_with "]" v then str_to (String.length v - 1) v else h
  | None => h
  end.

Definition extract_host_from_url (url : string) : option string :=
  match url_parse url with
  | Err _ => None
  | Ok parsed =>
      if negb ((u_scheme parsed =? "http") || (u_scheme parsed =? "https"))%string then None
      else (fun h => to_lowercase (strip_brackets h)) <$> host_str parsed
  end.

Definition reject_private_ip (n : nat) (url : string) : Result string unit :=
  match url_parse url with
  | Err e => Err ("Failed to parse URL: " +:+ e)
  | Ok parsed =>
      if negb ((u_scheme parsed =? "http") || (u_scheme parsed =? "https"))%string
      then Err ("Unsupported URL scheme: " +:+ u_scheme parsed)
      else if has_userinfo parsed then Err "URL contains userinfo (@) which is not allowed"
      else
        match strip_brackets <$> host_str parsed with
        | None => Err "Failed to parse host from URL"
        | Some host =>
            match ip_parse host with
            | Some ip =>
                if wasm_is_private_ip ip
                then Err (cat ["HTTP request to private/internal IP "; ip_display ip; " is not allowed"])
                else Ok tt
            | None =>
                match lookup_host n (host +:+ ":0") with
                | Err e => Err (cat ["DNS resolution failed for "; host; ": "; e])
                | Ok [] => Err ("DNS resolution returned no addresses for " +:+ host)
                | Ok addrs =>
                    match first_blocked wasm_is_private_ip addrs with
                    | Some ip =>
                        Err (cat ["DNS rebinding detected: "; host; " resolved to private IP "; ip_display ip])
                    | None => Ok tt
                    end
                end
            end
        end
  end.

(** *** The skill installer *)

Definition validate_fetch_ip (ip : IpAddr) (display_host : string) : Result ToolError unit :=
  if fetch_ip_refused ip
  then Err (ExecutionFailed ("URL points to a private/loopback/link-local address: " +:+ display_host))
  else Ok tt.

Definition host_ip_addr (h : Host) : option IpAddr :=
  match h with
  | HostIpv4 a => Some (V4 a)
  | HostIpv6 a => Some (normalize_ip (V6 a))
  | Domain _ => None
  end.

(** [host.trim_end_matches('.')] *)
Definition normalize_domain (host : string) : string :=
  let r := string_rev host "" in string_rev (str_from (span_len (Ascii.eqb ".") r) r) "".

Definition validate_fetch_url (url : string) : Result ToolError Url :=
  match url_parse url with
  | Err e => Err (ExecutionFailed (cat ["Invalid URL '"; url; "': "; e]))
  | Ok parsed =>
      if negb (u_scheme parsed =? "https")%string
      then Err (ExecutionFailed (cat ["Only HTTPS URLs are allowed for skill fetching, got scheme '"; u_scheme parsed; "'"]))
      else
        match u_host parsed with
        | None => Err (ExecutionFailed "URL has no host")
        | Some host =>
            match match host_ip_addr host with
                  | Some ip => validate_fetch_ip ip (show_host host)
                  | None => Ok tt
                  end with
            | Err e => Err e
            | Ok _ =>
                let host_lower := to_lowercase (normalize_domain (show_host host)) in
                if (host_lower =? "localhost")%string || (host_lower =? "metadata.google.internal")%string ||
                   ends_with ".internal" host_lower || ends_with ".local" host_lower
                then Err (ExecutionFailed ("URL points to an internal hostname: " +:+ show_host host))
                else Ok parsed
            end
        end
  end.

Definition validate_resolved_addrs (host : string) (addrs : list SocketAddr) : Result ToolError unit :=
  match addrs with
  | [] => Err (ExecutionFailed ("DNS resolution returned no addresses for " +:+ host))
  | _ =>
      foldl (fun r a => match r with Ok _ => validate_fetch_ip (normalize_ip (sa_ip a)) host | Err e => Err e end)
        (Ok tt) addrs
  end.

(** The addresses the client is pinned to; [None] when the URL holds the address itself.
    That [reqwest] fails to build the client is left out. *)
Definition build_safe_fetch_client (n : nat) (parsed : Url) : Result ToolError (option (list SocketAddr)) :=
  match u_host parsed with
  | None => Err (ExecutionFailed "URL has no host")
  | Some (HostIpv4 _) | Some (HostIpv6 _) => Ok None
  | Some (Domain domain) =>
      let lookup := normalize_domain domain in
      match u_port_or_known_default parsed with
      | None => Err (ExecutionFailed "URL has no valid port")
      | Some port =>
          match lookup_host_port n lookup port with
          | Err e => Err (ExecutionFailed (cat ["DNS resolution failed for "; lookup; ": "; e]))
          | Ok addrs =>
              match validate_resolved_addrs domain addrs with
              | Err e => Err e
              | Ok _ => Ok (Some addrs)
              end
          end
      end
  end.

(** *** Discovery of MCP servers *)

Definition is_localhost_url (url : string) : bool :=
  match url_parse url with
  | Err _ => false
  | Ok parsed =>
      match u_host parsed with
      | Some (Domain d) => (string_map ascii_lower d =? "localhost")%string
      | Some (HostIpv4 a) => v4_is_loopback a
      | Some (HostIpv6 a) => v6_is_loopback a
      | None => false
      end
  end.

(** The error is the message of [AuthError::DiscoveryFailed]. *)
Definition validate_url_safe (n : nat) (url : string) : Result string unit :=
  match url_parse url with
  | Err e => Err ("Invalid URL: " +:+ e)
  | Ok parsed =>
      let scheme := u_scheme parsed in
      if negb ((scheme =? "https") || (scheme =? "http"))%string then Err ("Unsupported scheme: " +:+ scheme)
      else if (scheme =? "http")%string then
        if is_localhost_url url then Ok tt
        else Err (cat ["HTTP is only allowed for localhost; use HTTPS for '"; default "" (host_str parsed); "'"])
      else
        match host_str parsed with
        | None => Err "URL has no host"
        | Some host =>
            match ip_parse host with
            | Some ip =>
                if is_dangerous_ip ip then Err ("URL points to a restricted IP address: " +:+ host) else Ok tt
            | None =>
                match lookup_host n (cat [host; ":"; show_Z (default 443 (u_port_or_known_default parsed))]) with
                | Err e => Err (cat ["DNS resolution failed for '"; host; "': "; e])
                | Ok addrs =>
                    match first_blocked is_dangerous_ip addrs with
                    | Some ip =>
                        Err (cat ["URL hostname '"; host; "' resolves to restricted IP address: "; ip_display ip])
                    | None => Ok tt
                    end
                end
            end
        end
  end.

(** *** Channel setup *)

(** The error is the message of [ChannelSetupError::Validation]. *)
Definition validate_public_https_url (n : nat) (url : string) : Result string (Url * list SocketAddr) :=
  match url_parse url with
  | Err e => Err ("Invalid URL: " +:+ e)
  | Ok parsed =>
      if negb (u_scheme parsed =? "https")%string then Err "Validation endpoint must use https"
      else if has_userinfo parsed then Err "Validation endpoint cannot contain userinfo"
      else
        match u_host parsed with
        | None => Err "Validation URL missing host"
        | Some host =>
            let normalized_host := normalize_domain (show_host host) in
            let host_lower := string_map ascii_lower normalized_host in
            if (host_lower =? "localhost")%string || ends_with ".localhost" host_lower
            then Err "Validation endpoint cannot target localhost"
            else
              let port := default 443 (u_port_or_known_default parsed) in
              let literal ip :=
                if setup_is_disallowed_ip ip
                then Err ("Validation endpoint cannot target private or local IP " +:+ ip_display ip)
                else Ok (parsed, [mkSocket ip port]) in
              match host with
              | HostIpv4 a => literal (V4 a)
              | HostIpv6 a => literal (normalize_ip (V6 a))
              | Domain domain =>
                  match lookup_host_port n normalized_host port with
                  | Err e => Err (cat ["DNS resolution failed for "; normalized_host; ": "; e])
                  | Ok found =>
                      let addrs := (fun a => mkSocket (normalize_ip (sa_ip a)) (sa_port a)) <$> found in
                      match addrs with
                      | [] => Err (cat ["Validation hostname '"; domain; "' did not resolve to any IP addresses"])
                      | _ =>
                          match first_blocked setup_is_disallowed_ip addrs with
                          | Some ip =>
                              Err (cat ["Validation hostname '"; domain; "' resolves to disallowed IP "; ip_display ip])
                          | None => Ok (parsed, addrs)
                          end
                      end
                  end
              end
        end
  end.

(** *** Base URLs of the configuration *)

(** The error is the message of [ConfigError::InvalidValue]. *)
Definition validate_base_url (n : nat) (url : string) : Result string unit :=
  match url_parse url with
  | Err e => Err (cat ["invalid URL '"; url; "': "; e])
  | Ok parsed =>
      let scheme := u_scheme parsed in
      if negb ((scheme =? "http") || (scheme =? "https"))%string
      then Err (cat ["only http/https URLs are allowed, got '"; scheme; "'"])
      else
        match host_str parsed with
        | None => Err "URL is missing a host"
        | Some host =>
            let host_lower := to_lowercase host in
            if (scheme =? "http")%string then
              if (host_lower =? "localhost")%string || (host_lower =? "127.0.0.1")%string ||
                 (host_lower =? "::1")%string || (host_lower =? "[::1]")%string || ends_with ".localhost" host_lower
              then Ok tt
              else Err (cat ["HTTP (non-TLS) is only allowed for localhost, got '"; host;
                             "'. Use HTTPS for remote endpoints."])
            else
              match ip_parse host with
              | Some ip =>
                  if config_is_dangerous_ip ip
                  then Err (cat ["URL points to a private/internal IP '"; ip_display ip;
                                 "'. This is blocked to prevent SSRF attacks."])
                  else Ok tt
              | None =>
                  match lookup_host_port n host (default 443 (u_port parsed)) with
                  | Ok addrs =>
                      match first_blocked config_is_dangerous_ip addrs with
                      | Some ip =>
                          Err (cat ["hostname '"; host; "' resolves to private/internal IP '"; ip_display ip;
                                    "'. This is blocked to prevent SSRF attacks."])
                      | None => Ok tt
                      end
                  | Err e => Err (cat ["failed to resolve hostname '"; host; "': "; e;
                                       ". Base URLs must be resolvable at config time."])
                  end
              end
        end
  end.

(** *** The callback listener of the sign-in *)

Definition is_loopback_host (host : string) : bool :=
  if (string_map ascii_lower host =? "localhost")%string then true
  else match ip_parse host with Some ip => ip_is_loopback ip | None => false end.

Definition is_wildcard_host (host : string) : bool :=
  match ip_parse host with Some ip => ip_is_unspecified ip | None => false end.

End guards.

(** ** The block lists as networks *)

#[local] Ltac Zify.zify_post_hook ::= Z.to_euclidean_division_equations.

Definition v4_num (a : Ipv4Addr) : Z := oct0 a * 16777216 + oct1 a * 65536 + oct2 a * 256 + oct3 a.

(** A network in CIDR notation: an address and the length of the prefix. *)
Abbreviation Cidr := (Ipv4Addr * Z)%type.

Definition in_cidr (a : Ipv4Addr) (net : Cidr) : bool :=
  let size := 2 ^ (32 - net.2) in v4_num a / size =? v4_num net.1 / size.

Definition in_any (nets : list Cidr) (a : Ipv4Addr) : bool := existsb (in_cidr a) nets.

Definition LOCAL_NETS : list Cidr :=
  [(mkV4 127 0 0 0, 8); (mkV4 10 0 0 0, 8); (mkV4 172 16 0 0, 12); (mkV4 192 168 0 0, 16);
   (mkV4 169 254 0 0, 16); (mkV4 0 0 0 0, 32)].
Definition CGNAT : Cidr := (mkV4 100 64 0 0, 10).
Definition MULTICAST : Cidr := (mkV4 224 0 0 0, 4).
Definition BROADCAST : Cidr := (mkV4 255 255 255 255, 32).

Definition is_octet (z : Z) : Prop := 0 <= z < 256.
Definition is_segment (z : Z) : Prop := 0 <= z < 65536.
Definition v4_wf (a : Ipv4Addr) : Prop :=
  is_octet (oct0 a) ∧ is_octet (oct1 a) ∧ is_octet (oct2 a) ∧ is_octet (oct3 a).
Definition v6_wf (a : Ipv6Addr) : Prop :=
  is_segment (seg0 a) ∧ is_segment (seg1 a) ∧ is_segment (seg2 a) ∧ is_segment (seg3 a) ∧
  is_segment (seg4 a) ∧ is_segment (seg5 a) ∧ is_segment (seg6 a) ∧ is_segment (seg7 a).
Definition ip_wf (ip : IpAddr) : Prop := match ip with V4 a => v4_wf a | V6 a => v6_wf a end.

Lemma land_192 z : is_octet z → (Z.land z 192 =? 64) = (z / 64 =? 1).
Proof.
  intros Hz. apply eqb_true_iff.
  apply (all_from_spec (fun z => eqb (Z.land z 192 =? 64) (z / 64 =? 1)) 256 0); [by vm_compute|exact Hz].
Qed.

Lemma high_byte_ula z : is_segment z → (Z.land (Z.shiftr z 8) 254 =? 252) = (Z.land z 65024 =? 64512).
Proof.
  intros Hz. apply eqb_true_iff.
  apply (all_from_spec (fun z => eqb (Z.land (Z.shiftr z 8) 254 =? 252) (Z.land z 65024 =? 64512)) (Z.to_nat 65536) 0);
    [by vm_compute|rewrite Z2Nat.id by lia; exact Hz].
Qed.

Ltac cidr :=
  intros (H0 & H1 & H2 & H3); unfold is_octet in *; unfold in_cidr, v4_num; cbn [fst snd oct0 oct1 oct2 oct3];
  match goal with |- context [2 ^ ?e] => let v := eval compute in (2 ^ e) in change (2 ^ e) with v end;
  apply eq_true_iff_eq; rewrite ?orb_true_iff, ?andb_true_iff, ?Z.eqb_eq, ?Z.leb_le; lia.

Lemma in_net8 a n : v4_wf a → 0 <= n → in_cidr a (mkV4 n 0 0 0, 8) = (oct0 a =? n).
Proof. intros Ha Hn. revert Ha. cidr. Qed.

Lemma in_net16 a n m : v4_wf a → is_octet m → in_cidr a (mkV4 n m 0 0, 16) = ((oct0 a =? n) && (oct1 a =? m)).
Proof. intros Ha Hn. unfold is_octet in Hn. revert Ha. cidr. Qed.

Lemma in_net24 a n m k :
  v4_wf a → is_octet m → is_octet k →
  in_cidr a (mkV4 n m k 0, 24) = ((oct0 a =? n) && (oct1 a =? m) && (oct2 a =? k)).
Proof. intros Ha Hn Hk. unfold is_octet in Hn, Hk. revert Ha. cidr. Qed.

Lemma in_net32 a b : v4_wf a → v4_wf b → in_cidr a (b, 32) = bool_decide (a = b).
Proof.
  destruct a as [a0 a1 a2 a3], b as [b0 b1 b2 b3]. unfold v4_wf, is_octet, in_cidr, v4_num.
  cbn [fst snd oct0 oct1 oct2 oct3]. change (2 ^ (32 - 32)) with 1. intros Ha Hb.
  apply eq_true_iff_eq. rewrite bool_decide_eq_true, !Z.div_1_r, Z.eqb_eq. split; [|congruence].
  intros Hn. f_equal; lia.
Qed.

Lemma in_172 a : v4_wf a →
  in_cidr a (mkV4 172 16 0 0, 12) = ((oct0 a =? 172) && (16 <=? oct1 a) && (oct1 a <=? 31)).
Proof. cidr. Qed.

Lemma in_cgnat a : v4_wf a → in_cidr a CGNAT = is_cgnat a.
Proof.
  intros Ha. unfold is_cgnat. rewrite land_192 by apply Ha. unfold CGNAT. revert Ha. cidr.
Qed.

Lemma in_multicast a : v4_wf a → in_cidr a MULTICAST = v4_is_multicast a.
Proof. unfold MULTICAST, v4_is_multicast. cidr. Qed.

Lemma in_any_cons net nets a : in_any (net :: nets) a = in_cidr a net || in_any nets a.
Proof. done. Qed.

Lemma in_local a : v4_wf a →
  in_any LOCAL_NETS a = v4_is_loopback a || is_private a || is_link_local a || v4_is_unspecified a.
Proof.
  intros Ha. unfold LOCAL_NETS. rewrite !in_any_cons, !in_net8, in_172, !in_net16, in_net32 by (done || lia || (repeat split; done)).
  unfold v4_is_loopback, is_private, is_link_local, v4_is_unspecified, in_any. cbn [existsb].
  by rewrite orb_false_r, !orb_assoc.
Qed.

Lemma metadata_link_local a : bool_decide (a = mkV4 169 254 169 254) = true → is_link_local a = true.
Proof. intros ->%bool_decide_eq_true. done. Qed.

(** The block list shared by the HTTP tool, the channel setup and the configuration. *)
Lemma disallowed_v4 a : v4_wf a →
  is_disallowed_ipv4 a = in_any LOCAL_NETS a || in_cidr a CGNAT || in_cidr a MULTICAST.
Proof.
  intros Ha. rewrite in_local, in_cgnat, in_multicast by done. unfold is_disallowed_ipv4.
  pose proof (metadata_link_local a) as Hm. destruct (bool_decide (a = mkV4 169 254 169 254)); [rewrite Hm by done|].
  all: destruct (is_private a), (v4_is_loopback a), (is_link_local a), (v4_is_multicast a), (v4_is_unspecified a),
    (is_cgnat a); done.
Qed.

(** The six block lists, written octet by octet in six places, are these networks on
    IPv4: all of them hold the loopback, private, link-local and unspecified networks; all but
    the one of the skill installer hold the shared address space; three add
    multicast and one the broadcast address. *)
Theorem block_lists_are_networks a : v4_wf a →
  wasm_is_private_ip (V4 a) = in_any (LOCAL_NETS ++ [CGNAT]) a ∧
  is_disallowed_ip (V4 a) = in_any (LOCAL_NETS ++ [CGNAT; MULTICAST]) a ∧
  setup_is_disallowed_ip (V4 a) = in_any (LOCAL_NETS ++ [CGNAT; MULTICAST]) a ∧
  config_is_dangerous_ip (V4 a) = in_any (LOCAL_NETS ++ [CGNAT; MULTICAST]) a ∧
  is_dangerous_ip (V4 a) = in_any (LOCAL_NETS ++ [CGNAT; BROADCAST]) a ∧
  fetch_ip_refused (V4 a) = in_any LOCAL_NETS a.
Proof.
  intros Ha. assert (∀ nets, in_any (LOCAL_NETS ++ nets) a = in_any LOCAL_NETS a || in_any nets a) as Happ
    by (intros nets; apply existsb_app).
  rewrite !Happ, !in_any_cons. unfold in_any at 2 4 6 8 10; cbn [existsb]. rewrite !orb_false_r, !orb_assoc.
  assert (in_cidr a BROADCAST = is_broadcast a) as Hb by (apply in_net32; [done|repeat split; done]).
  split; [by rewrite in_local, in_cgnat by done|].
  split; [by apply disallowed_v4|]. split; [by apply disallowed_v4|]. split; [by apply disallowed_v4|].
  rewrite Hb, in_local, in_cgnat by done. unfold is_dangerous_ip, dangerous_ipv4, fetch_ip_refused.
  cbn [ip_is_loopback ip_is_unspecified skill_is_private_ip is_link_local_ip]. fold (is_link_local a).
  destruct (is_private a), (v4_is_loopback a), (is_link_local a), (is_broadcast a), (v4_is_unspecified a),
    (is_cgnat a); done.
Qed.

Lemma block_lists_are_networks_witness :
  in_any LOCAL_NETS (mkV4 172 31 255 1) = true ∧ wasm_is_private_ip (V4 (mkV4 172 31 255 1)) = true ∧
  fetch_ip_refused (V4 (mkV4 100 64 0 1)) = false ∧ is_disallowed_ip (V4 (mkV4 100 64 0 1)) = true.
Proof.
  assert (v4_wf (mkV4 172 31 255 1)) as H1 by (repeat split; done).
  destruct (block_lists_are_networks (mkV4 172 31 255 1) H1) as (-> & _). repeat split; reflexivity.
Defined.

(** ** Internal addresses *)

(** An address that stands for this host or its network, an IPv4 address inside
    an IPv6 one included. *)
Definition internal (ip : IpAddr) : bool :=
  match normalize_ip ip with
  | V4 a => in_any (LOCAL_NETS ++ [CGNAT]) a
  | V6 a => v6_is_loopback a || v6_is_unspecified a || is_unique_local a || is_unicast_link_local a
  end.

Lemma mapped_wf a m : v6_wf a → to_ipv4_mapped a = Some m → v4_wf m.
Proof.
  unfold to_ipv4_mapped. intros (_ & _ & _ & _ & _ & _ & H6 & H7). destruct (_ && _); [|done]. intros [= <-].
  unfold v4_wf, is_octet, is_segment in *. cbn [oct0 oct1 oct2 oct3].
  rewrite !Z.shiftr_div_pow2, !(Z.land_ones _ 8) by lia. change (2 ^ 8) with 256. lia.
Qed.

Lemma internal_v4 a : internal (V4 a) = in_any (LOCAL_NETS ++ [CGNAT]) a.
Proof. done. Qed.

Lemma internal_v4_blocked a : v4_wf a → in_any (LOCAL_NETS ++ [CGNAT]) a = true →
  is_disallowed_ipv4 a = true ∧ dangerous_ipv4 a = true ∧ config_blocked_v4 a = true.
Proof.
  intros Ha. unfold in_any. rewrite existsb_app. fold (in_any LOCAL_NETS a). rewrite in_local by done.
  cbn [existsb]. rewrite in_cgnat, orb_false_r by done. unfold is_disallowed_ipv4, dangerous_ipv4, config_blocked_v4.
  destruct (is_private a), (v4_is_loopback a), (is_link_local a), (v4_is_unspecified a), (is_cgnat a);
    rewrite ?orb_true_r; cbn [orb]; rewrite ?orb_true_r; done.
Qed.

Lemma internal_blocked ip : ip_wf ip → internal ip = true →
  is_disallowed_ip ip = true ∧ is_dangerous_ip ip = true ∧ config_is_dangerous_ip ip = true ∧
  setup_is_disallowed_ip ip = true.
Proof.
  unfold internal, setup_is_disallowed_ip, config_is_dangerous_ip, is_dangerous_ip, is_disallowed_ip.
  destruct ip as [a|a]; cbn [normalize_ip ip_wf].
  - intros Ha Hi. pose proof (internal_v4_blocked a Ha Hi) as (H1 & H2 & H3). repeat split; done.
  - intros Ha. destruct (to_ipv4_mapped a) as [m|] eqn:Hm.
    + intros Hi. pose proof (internal_v4_blocked m (mapped_wf _ _ Ha Hm) Hi) as (-> & -> & H3).
      rewrite orb_true_r. repeat split; done.
    + unfold v6_oct0. rewrite high_byte_ula by apply Ha.
      unfold is_unique_local, is_unicast_link_local.
      destruct (v6_is_loopback a), (v6_is_unspecified a), (Z.land (seg0 a) 65024 =? 64512),
        (Z.land (seg0 a) 65472 =? 65152); cbn [orb]; rewrite ?orb_true_r; done.
Qed.

(** What the skill installer refuses is the same, the shared address space apart. *)
Lemma fetch_refuses_internal ip : ip_wf ip → internal ip = true →
  fetch_ip_refused (normalize_ip ip) = true ∨ ∃ a, normalize_ip ip = V4 a ∧ in_cidr a CGNAT = true.
Proof.
  intros Hw. unfold internal. assert (∀ a, v4_wf a → in_any (LOCAL_NETS ++ [CGNAT]) a = true →
    fetch_ip_refused (V4 a) = true ∨ in_cidr a CGNAT = true) as H4.
  { intros a Ha. unfold in_any. rewrite existsb_app. fold (in_any LOCAL_NETS a). rewrite in_local by done.
    cbn [existsb]. rewrite orb_false_r. unfold fetch_ip_refused.
    cbn [ip_is_loopback ip_is_unspecified skill_is_private_ip is_link_local_ip].
    destruct (v4_is_loopback a), (is_private a), (is_link_local a), (v4_is_unspecified a); cbn [orb]; auto. }
  destruct ip as [a|a]; cbn [normalize_ip].
  - intros Hi. destruct (H4 a Hw Hi); [by left|right; by eexists].
  - destruct (to_ipv4_mapped a) as [m|] eqn:Hm.
    + intros Hi. destruct (H4 m (mapped_wf _ _ Hw Hm) Hi); [by left|right; by eexists].
    + unfold fetch_ip_refused, is_unique_local, is_unicast_link_local.
      cbn [ip_is_loopback ip_is_unspecified skill_is_private_ip is_link_local_ip].
      destruct (v6_is_loopback a), (v6_is_unspecified a), (Z.land (seg0 a) 65024 =? 64512); cbn [orb]; auto.
Qed.

Lemma first_blocked_None blocked addrs :
  first_blocked blocked addrs = None → Forall (fun a => blocked (sa_ip a) = false) addrs.
Proof.
  unfold first_blocked. induction addrs as [|a addrs IH]; intros Hf; [done|]. cbn [fmap list_fmap find] in Hf.
  destruct (blocked (sa_ip a)) eqn:Hb; [done|]. constructor; [done|by apply IH].
Qed.

Definition all_external (addrs : list SocketAddr) : Prop := Forall (fun a => internal (sa_ip a) = false) addrs.
Definition addrs_wf (addrs : list SocketAddr) : Prop := Forall (fun a => ip_wf (sa_ip a)) addrs.

Lemma unblocked_external blocked addrs :
  (∀ ip, ip_wf ip → internal ip = true → blocked ip = true) →
  addrs_wf addrs → first_blocked blocked addrs = None → all_external addrs.
Proof.
  intros Hb Hw Hf%first_blocked_None. unfold addrs_wf, all_external in *. rewrite Forall_forall in *.
  intros a Ha. destruct (internal (sa_ip a)) eqn:Hi; [|done]. specialize (Hf a Ha). cbv beta in Hf.
  rewrite Hb in Hf; auto.
Qed.

Lemma normalize_internal ip : internal (normalize_ip ip) = internal ip.
Proof. unfold internal. destruct ip as [a|a]; [done|]. cbn. destruct (to_ipv4_mapped a) eqn:Hm; [done|]. cbn. by rewrite Hm. Qed.

Lemma normalize_wf ip : ip_wf ip → ip_wf (normalize_ip ip).
Proof. destruct ip as [a|a]; [done|]. cbn. destruct (to_ipv4_mapped a) eqn:Hm; [|done]. intros Ha. by eapply mapped_wf. Qed.

Section accepted.
  Context `{NetEnv}.

(** Octets are bytes and segments are 16-bit words. *)
Definition resolver_wf : Prop :=
  (∀ n s addrs, lookup_host n s = Ok addrs → addrs_wf addrs) ∧
  (∀ n s p addrs, lookup_host_port n s p = Ok addrs → addrs_wf addrs).
Definition url_wf (u : Url) : Prop :=
  match u_host u with Some (HostIpv4 a) => v4_wf a | Some (HostIpv6 a) => v6_wf a | _ => True end.

Lemma resolved_external n u addrs :
  resolver_wf → validate_and_resolve_url n u = Ok addrs → addrs ≠ [] ∧ all_external addrs.
Proof.
  intros [Hw _]. unfold validate_and_resolve_url. destruct (host_str u) as [host|]; [|done].
  destruct (lookup_host n _) as [[|a l]|e] eqn:Hl; [done| |done].
  destruct (first_blocked is_disallowed_ip (a :: l)) eqn:Hf; [done|]. intros [= <-]. split; [done|].
  eapply unblocked_external; [|by eapply Hw|exact Hf]. intros ip Hi Hb. by apply internal_blocked.
Qed.

Lemma setup_external n url u addrs :
  resolver_wf → (∀ u, url_parse url = Ok u → url_wf u) →
  validate_public_https_url n url = Ok (u, addrs) → addrs ≠ [] ∧ all_external addrs.
Proof.
  intros [_ Hw] Hu. unfold validate_public_https_url. destruct (url_parse url) as [parsed|] eqn:Hp; [|done].
  specialize (Hu _ eq_refl). unfold url_wf in Hu. cbv zeta.
  destruct (negb _); [done|]. destruct (has_userinfo parsed); [done|]. destruct (u_host parsed) as [host|]; [|done].
  destruct (_ || _); [done|]. set (port := default 443 _).
  assert (∀ ip, ip_wf ip → setup_is_disallowed_ip ip = false → all_external [mkSocket ip port]) as Hlit.
  { intros ip Hi Hd. constructor; [|constructor]. cbn [sa_ip]. destruct (internal ip) eqn:Hin; [|done].
    pose proof (internal_blocked ip Hi Hin) as (_ & _ & _ & ?). congruence. }
  destruct host as [d|a|a].
  - destruct (lookup_host_port n _ port) as [found|e] eqn:Hl; [|done].
    assert (addrs_wf ((fun a => mkSocket (normalize_ip (sa_ip a)) (sa_port a)) <$> found)) as Hf.
    { apply Hw in Hl. unfold addrs_wf in *. apply Forall_fmap. eapply Forall_impl; [exact Hl|].
      intros x. apply normalize_wf. }
    destruct (_ <$> found) as [|b l]; [done|]. destruct (first_blocked _ (b :: l)) eqn:Hb; [done|].
    intros [= <- <-]. split; [done|]. eapply unblocked_external; [|exact Hf|exact Hb].
    intros ip Hi Hin. by apply internal_blocked.
  - destruct (setup_is_disallowed_ip (V4 a)) eqn:Hd; [done|]. intros [= <- <-]. split; [done|]. by apply Hlit.
  - destruct (setup_is_disallowed_ip _) eqn:Hd; [done|]. intros [= <- <-]. split; [done|].
    apply Hlit; [by apply (normalize_wf (V6 a))|done].
Qed.

(** The addresses a request is pinned to are external: whatever a name resolves to when
    it is looked up, once the HTTP tool or the channel setup has accepted the target there is at
    least one address, and none of them is an internal one, not even as an
    IPv4 address written inside an IPv6 one. *)
Theorem pinned_addresses_external :
  resolver_wf → (∀ url u, url_parse url = Ok u → url_wf u) →
  (∀ n u addrs, validate_and_resolve_url n u = Ok addrs → addrs ≠ [] ∧ all_external addrs) ∧
  (∀ n url u addrs, validate_public_https_url n url = Ok (u, addrs) →
     addrs ≠ [] ∧ all_external addrs ∧ u_scheme u = "https" ∧ has_userinfo u = false).
Proof.
  intros Hw Hu. split; [intros n u addrs; by apply resolved_external|].
  intros n url u addrs Hv. pose proof (setup_external n url u addrs Hw (Hu url) Hv) as [H1 H2].
  split; [done|]. split; [done|]. clear H1 H2. revert Hv. unfold validate_public_https_url.
  destruct (url_parse url) as [parsed|]; [|done]. cbv zeta.
  destruct (String.eqb_spec (u_scheme parsed) "https") as [Hs|]; [|done]. cbn [negb].
  destruct (has_userinfo parsed) eqn:Hi; [done|].
  repeat case_match; intros ?; simplify_eq; done.
Qed.

Lemma resolved_addrs_accepted host addrs :
  validate_resolved_addrs host addrs = Ok tt →
  addrs ≠ [] ∧ Forall (fun a => fetch_ip_refused (normalize_ip (sa_ip a)) = false) addrs.
Proof.
  destruct addrs as [|a0 l0]; [done|]. unfold validate_resolved_addrs. intros Hf. split; [done|].
  revert Hf. generalize (a0 :: l0). clear. set (f := fun r a => _). intros l.
  assert (∀ l e, foldl f (Err e) l = Err e) as Herr by (induction l0 as [|? ? IH]; done).
  induction l as [|a l IH]; [done|]. cbn [foldl]. unfold f at 2. unfold validate_fetch_ip.
  destruct (fetch_ip_refused _) eqn:Hr; [by rewrite Herr|]. intros Hl. constructor; [done|by apply IH].
Qed.

(** The addresses the skill installer may connect to. *)
Definition fetch_targets (u : Url) (pinned : option (list SocketAddr)) : list IpAddr :=
  match pinned, u_host u with
  | Some addrs, _ => sa_ip <$> addrs
  | None, Some (HostIpv4 a) => [V4 a]
  | None, Some (HostIpv6 a) => [V6 a]
  | None, _ => []
  end.

(** The skill installer connects to some address, over https, and the only internal
    addresses it may connect to are those of the shared address space 100.64.0.0/10,
    which the other guards refuse. *)
Theorem skill_fetch_targets n url u pinned :
  resolver_wf → url_wf u → validate_fetch_url url = Ok u → build_safe_fetch_client n u = Ok pinned →
  u_scheme u = "https" ∧ fetch_targets u pinned ≠ [] ∧
  Forall (fun ip => internal ip = true → ∃ a, normalize_ip ip = V4 a ∧ in_cidr a CGNAT = true)
    (fetch_targets u pinned).
Proof.
  intros [_ Hw] Hu Hv Hb. unfold validate_fetch_url in Hv. destruct (url_parse url) as [parsed|]; [|done].
  destruct (String.eqb_spec (u_scheme parsed) "https") as [Hs|]; [|done]. cbn [negb] in Hv.
  destruct (u_host parsed) as [host|] eqn:Hh; [|done].
  destruct (match host_ip_addr host with Some ip => _ | None => _ end) as [[]|] eqn:Hip; [|done]. cbv zeta in Hv.
  destruct (_ || _) in Hv; [done|]. injection Hv as <-. split; [done|].
  unfold build_safe_fetch_client in Hb. unfold url_wf in Hu. rewrite Hh in Hb, Hu. unfold fetch_targets. rewrite Hh.
  assert (∀ ip, ip_wf ip → fetch_ip_refused (normalize_ip ip) = false → internal ip = true →
    ∃ a, normalize_ip ip = V4 a ∧ in_cidr a CGNAT = true) as Hok.
  { intros ip Hi Hr Hin. destruct (fetch_refuses_internal ip Hi Hin) as [|]; [congruence|done]. }
  unfold validate_fetch_ip in Hip. destruct host as [d|a|a]; cbn [host_ip_addr] in Hip.
  - destruct (u_port_or_known_default parsed) as [port|]; [|done].
    destruct (lookup_host_port n _ port) as [addrs|] eqn:Hl; [|done].
    destruct (validate_resolved_addrs d addrs) as [[]|] eqn:Hr; [|done]. injection Hb as <-.
    apply resolved_addrs_accepted in Hr as [Hne Hr]. apply Hw in Hl. split; [by destruct addrs|].
    unfold addrs_wf in Hl. rewrite Forall_fmap. rewrite Forall_forall in *. intros x Hx. cbn. by apply Hok; [apply Hl|apply Hr].
  - injection Hb as <-. split; [done|]. constructor; [|done]. apply (Hok (V4 a)); [done|].
    cbn [normalize_ip]. by destruct (fetch_ip_refused (V4 a)).
  - injection Hb as <-. split; [done|]. constructor; [|done]. apply (Hok (V6 a)); [done|].
    by destruct (fetch_ip_refused (normalize_ip (V6 a))).
Qed.

(** The checks that do not pin the addresses still refuse a host that is, or
    resolves at that moment to, an internal address. *)
Theorem checked_hosts_external n url u :
  resolver_wf → (∀ s ip, ip_parse s = Some ip → ip_wf ip) →
  url_parse url = Ok u → u_scheme u = "https" →
  (validate_url_safe n url = Ok tt →
     ∃ host, host_str u = Some host ∧
       ((∃ ip, ip_parse host = Some ip ∧ internal ip = false) ∨
        (∃ addrs, lookup_host n (cat [host; ":"; show_Z (default 443 (u_port_or_known_default u))]) = Ok addrs ∧
                  all_external addrs))) ∧
  (validate_base_url n url = Ok tt →
     ∃ host, host_str u = Some host ∧
       ((∃ ip, ip_parse host = Some ip ∧ internal ip = false) ∨
        (∃ addrs, lookup_host_port n host (default 443 (u_port u)) = Ok addrs ∧ all_external addrs))).
Proof.
  intros [Hw1 Hw2] Hi Hp Hs. unfold validate_url_safe, validate_base_url. rewrite Hp, Hs. cbn [String.eqb negb orb Ascii.eqb].
  assert (∀ (blocked : IpAddr -> bool) ip, (∀ ip, ip_wf ip → internal ip = true → blocked ip = true) →
    ip_wf ip → blocked ip = false → internal ip = false) as Hno.
  { intros blocked ip Hb Hwf Hf. destruct (internal ip) eqn:He; [|done]. rewrite Hb in Hf; done. }
  split; (destruct (host_str u) as [host|]; [|done]); cbn.
  - destruct (ip_parse host) as [ip|] eqn:Hip.
    + destruct (is_dangerous_ip ip) eqn:Hd; [done|]. intros _. exists host. split; [done|]. left. exists ip. split; [done|].
      eapply (Hno is_dangerous_ip); [intros; by apply internal_blocked|by eapply Hi|done].
    + destruct (lookup_host n _) as [addrs|] eqn:Hl; [|done]. destruct (first_blocked _ addrs) eqn:Hf; [done|].
      intros _. exists host. split; [done|]. right. exists addrs. split; [done|].
      eapply unblocked_external; [|by eapply Hw1|exact Hf]. intros; by apply internal_blocked.
  - destruct (ip_parse host) as [ip|] eqn:Hip.
    + destruct (config_is_dangerous_ip ip) eqn:Hd; [done|]. intros _. exists host. split; [done|]. left. exists ip. split; [done|].
      eapply (Hno config_is_dangerous_ip); [intros; by apply internal_blocked|by eapply Hi|done].
    + destruct (lookup_host_port n _ _) as [addrs|] eqn:Hl; [|done]. destruct (first_blocked _ addrs) eqn:Hf; [done|].
      intros _. exists host. split; [done|]. right. exists addrs. split; [done|].
      eapply unblocked_external; [|by eapply Hw2|exact Hf]. intros; by apply internal_blocked.
Qed.

End accepted.

(** ** What the WASM tools miss *)

(** [::ffff:a.b.c.d] *)
Definition map_v4 (a : Ipv4Addr) : Ipv6Addr :=
  mkV6 0 0 0 0 0 65535 (oct0 a * 256 + oct1 a) (oct2 a * 256 + oct3 a).

Lemma to_mapped_map a : v4_wf a → to_ipv4_mapped (map_v4 a) = Some a.
Proof.
  intros (H0 & H1 & H2 & H3). unfold to_ipv4_mapped, map_v4, is_octet in *. cbn [seg0 seg1 seg2 seg3 seg4 seg5 seg6 seg7].
  cbn [Z.eqb andb Pos.eqb]. rewrite !Z.shiftr_div_pow2, !(Z.land_ones _ 8) by lia. change (2 ^ 8) with 256.
  destruct a as [a0 a1 a2 a3]. cbn [oct0 oct1 oct2 oct3] in *. do 2 f_equal; lia.
Qed.

(** The guard of the WASM tools, whose purpose is to stop a name that resolves to an
    internal address, does not look inside IPv6 addresses that hold an IPv4 one: for every internal
    IPv4 address it refuses, it lets a name through that resolves to the same
    address in the mapped form, which the guard of the HTTP tool refuses. *)
Theorem wasm_guard_misses_mapped `{NetEnv} a n url u d :
  v4_wf a → in_any (LOCAL_NETS ++ [CGNAT]) a = true →
  url_parse url = Ok u → u_scheme u = "https" → has_userinfo u = false → u_host u = Some (Domain d) →
  starts_with "[" d = false → ip_parse d = None →
  lookup_host n (d +:+ ":0") = Ok [mkSocket (V6 (map_v4 a)) 0] →
  internal (V6 (map_v4 a)) = true ∧ wasm_is_private_ip (V4 a) = true ∧ is_disallowed_ip (V6 (map_v4 a)) = true ∧
  reject_private_ip n url = Ok tt.
Proof.
  intros Ha Hin Hp Hs Hi Hh Hb Hd Hl. split; [unfold internal, normalize_ip; by rewrite to_mapped_map|].
  split. { unfold in_any in Hin. rewrite existsb_app in Hin. fold (in_any LOCAL_NETS a) in Hin.
    rewrite in_local in Hin by done. cbn [existsb] in Hin. rewrite in_cgnat, orb_false_r in Hin by done. exact Hin. }
  split. { unfold is_disallowed_ip. rewrite to_mapped_map by done.
    by destruct (internal_v4_blocked a Ha Hin) as (-> & _ & _). }
  unfold reject_private_ip. rewrite Hp, Hs, Hi. cbn [String.eqb Ascii.eqb Bool.eqb negb orb].
  unfold host_str. rewrite Hh. cbn [fmap option_fmap option_map show_host].
  assert (strip_brackets d = d) as ->.
  { unfold strip_brackets. destruct (strip_prefix "[" d) eqn:He; [|done].
    apply strip_prefix_iff in He. assert (starts_with "[" d = true) by (apply starts_with_iff; by eexists). congruence. }
  rewrite Hd, Hl. done.
Qed.

(** ** Witnesses *)

Definition demo_url (h : Host) : Url := mkUrl "https" "" None (Some h) None (Some 443).

(** A resolver that knows three names. *)
#[local] Instance demo_net : NetEnv := {|
  url_parse := fun s =>
    if (s =? "https://public.example/")%string then Ok (demo_url (Domain "public.example"))
    else if (s =? "https://rebind.example/")%string then Ok (demo_url (Domain "rebind.example"))
    else Err "relative URL without a base";
  ip_parse := fun _ => None;
  ip_display := fun _ => "ip";
  to_lowercase := string_map ascii_lower;
  lookup_host := fun _ s =>
    if (s =? "rebind.example:0")%string then Ok [mkSocket (V6 (map_v4 (mkV4 169 254 169 254))) 0]
    else if (s =? "public.example:443")%string then Ok [mkSocket (V4 (mkV4 93 184 216 34)) 443]
    else Err "not found";
  lookup_host_port := fun _ s p =>
    if (s =? "public.example")%string then Ok [mkSocket (V4 (mkV4 93 184 216 34)) p] else Err "not found"
|}.

Lemma demo_resolver_wf : resolver_wf.
Proof.
  split; cbn.
  - intros n s addrs. repeat (case_match; [intros [= <-]; repeat constructor; done|]). done.
  - intros n s p addrs. case_match; [intros [= <-]; repeat constructor; done|done].
Qed.

Lemma demo_url_wf url u : url_parse url = Ok u → url_wf u.
Proof. cbn. repeat (case_match; [intros [= <-]; exact I|]). done. Qed.

Lemma pinned_addresses_external_witness :
  validate_and_resolve_url 0 (demo_url (Domain "public.example")) = Ok [mkSocket (V4 (mkV4 93 184 216 34)) 443] ∧
  all_external [mkSocket (V4 (mkV4 93 184 216 34)) 443].
Proof.
  split; [reflexivity|]. destruct (pinned_addresses_external demo_resolver_wf demo_url_wf) as [Hh _].
  exact (proj2 (Hh 0%nat (demo_url (Domain "public.example")) _ eq_refl)).
Defined.

Lemma skill_fetch_targets_witness :
  build_safe_fetch_client 0 (demo_url (Domain "public.example")) =
    Ok (Some [mkSocket (V4 (mkV4 93 184 216 34)) 443]) ∧
  fetch_targets (demo_url (Domain "public.example")) (Some [mkSocket (V4 (mkV4 93 184 216 34)) 443]) ≠ [].
Proof.
  split; [reflexivity|].
  exact (proj1 (proj2 (skill_fetch_targets 0 "https://public.example/" (demo_url (Domain "public.example")) _
    demo_resolver_wf I eq_refl eq_refl))).
Defined.

Lemma checked_hosts_external_witness :
  validate_url_safe 0 "https://public.example/" = Ok tt ∧
  ∃ host, host_str (demo_url (Domain "public.example")) = Some host.
Proof.
  split; [reflexivity|].
  destruct (proj1 (checked_hosts_external 0 "https://public.example/" (demo_url (Domain "public.example"))
    demo_resolver_wf ltac:(done) eq_refl eq_refl) eq_refl) as (host & Hh & _).
  by exists host.
Defined.

Lemma wasm_guard_misses_mapped_witness :
  reject_private_ip 0 "https://rebind.example/" = Ok tt ∧
  internal (V6 (map_v4 (mkV4 169 254 169 254))) = true.
Proof.
  destruct (wasm_guard_misses_mapped (mkV4 169 254 169 254) 0 "https://rebind.example/"
    (demo_url (Domain "rebind.example")) "rebind.example") as (H1 & _ & _ & H2); try reflexivity.
  - repeat split; done.
  - by split.
Defined.
