(* ===== verification/PathUtils.v ===== *)
(** * PathUtils: paths that stay inside a sandbox

    [src/tools/builtin/path_utils.rs], used by the file, image, message and HTTP tools and by
    the channels.  A path is the list of its components, the way [std::path] compares
    paths on Unix; the file system ([canonicalize], [exists], the current directory) is a
    parameter. *)

From Stdlib Require Import Ascii.
From S2P Require Import Prelude Text TextSearch Ssrf.

(** ** Paths of [std::path] *)

Inductive Component : Type := RootDir | CurDir | ParentDir | Normal (name : string).

#[export] Instance Component_eq_dec : EqDecision Component.
Proof. solve_decision. Defined.

Abbreviation PathBuf := (list Component).

Fixpoint split_char (sep : ascii) (s : string) : list string :=
  match s with
  | EmptyString => [""]
  | String c r =>
      if ascii_dec c sep then "" :: split_char sep r
      else match split_char sep r with
           | l :: ls => String c l :: ls
           | [] => [String c ""]
           end
  end.

(** [Path::components]: repeated separators and inner [.] are skipped. *)
Definition inner_component (piece : string) : option Component :=
  if (piece =? "")%string || (piece =? ".")%string then None
  else if (piece =? "..")%string then Some ParentDir else Some (Normal piece).

Definition components (s : string) : PathBuf :=
  match split_char "/" s with
  | [] => []
  | first :: rest =>
      if starts_with "/" s then RootDir :: omap inner_component rest
      else if (first =? ".")%string then CurDir :: omap inner_component rest
      else omap inner_component (first :: rest)
  end.

Definition is_absolute (p : PathBuf) : bool := match p with RootDir :: _ => true | _ => false end.

Definition path_join (p q : PathBuf) : PathBuf :=
  if is_absolute q then q
  else match p, q with
       | _ :: _, CurDir :: q => p ++ q
       | _, _ => p ++ q
       end.

(** [p.starts_with(base)] *)
Definition path_starts_with (p base : PathBuf) : bool := bool_decide (base `prefix_of` p).

(** ** Lexical normalisation *)

(** [components] is kept in reverse. *)
Definition normal_step (acc : PathBuf) (c : Component) : PathBuf :=
  match c with
  | ParentDir => match acc with Normal _ :: acc => acc | _ => acc end
  | CurDir => acc
  | other => other :: acc
  end.

Definition normalize_lexical (p : PathBuf) : PathBuf := rev (foldl normal_step [] p).

(** ** Safety checks on the text *)

Section checks.
  Variable to_lower : string -> string.

Definition is_path_safe_minimal (path : string) : bool :=
  if contains nul_str path then false
  else
    let lower := to_lower path in
    negb (contains "%2e" lower || contains "%2f" lower || contains "%5c" lower).

Definition is_path_safe_basic (path : string) : bool :=
  if contains ".." path then false
  else if contains nul_str path then false
  else
    let lower := to_lower path in
    negb (contains "%2e" lower || contains "%2f" lower || contains "%5c" lower).

End checks.

(** ** The sandbox *)

Class FileSystem := {
  canonicalize : PathBuf -> option PathBuf;
  exists_path : PathBuf -> bool;
  current_dir : option PathBuf
}.

Section validate.
  Context `{FileSystem}.
  Variable to_lower : string -> string.

Definition canonical_or_lexical (p : PathBuf) : PathBuf := default (normalize_lexical p) (canonicalize p).

(** The walk up to the nearest existing ancestor.  [anc] is the ancestor in reverse. *)
Fixpoint walk_up (resolved anc tail : PathBuf) : PathBuf :=
  if exists_path (rev anc) then default (rev anc) (canonicalize (rev anc)) ++ tail
  else match anc with
       | [] | RootDir :: _ => resolved
       | (Normal _ as c) :: anc => walk_up resolved anc (c :: tail)
       | _ :: anc => walk_up resolved anc tail
       end.

Definition check_path (resolved : PathBuf) : PathBuf :=
  if exists_path resolved then default resolved (canonicalize resolved) else walk_up resolved (rev resolved) [].

Definition resolve_path (path : PathBuf) (base_dir : option PathBuf) : PathBuf :=
  if is_absolute path then canonical_or_lexical path
  else match base_dir with
       | Some base => canonical_or_lexical (path_join base path)
       | None => normalize_lexical (path_join (default [CurDir] current_dir) path)
       end.

Definition validate_path (path_str : string) (base_dir : option PathBuf) : Result ToolError PathBuf :=
  if negb (is_path_safe_minimal to_lower path_str)
  then Err (NotAuthorized ("Path contains forbidden characters or sequences: " +:+ path_str))
  else
    let resolved := resolve_path (components path_str) base_dir in
    match base_dir with
    | None => Ok resolved
    | Some base =>
        if path_starts_with (check_path resolved) (canonical_or_lexical base) then Ok resolved
        else Err (NotAuthorized ("Path escapes sandbox: " +:+ path_str))
    end.

End validate.

(** ** Normal forms *)

Definition plain (c : Component) : Prop := match c with RootDir | Normal _ => True | _ => False end.

(** The root occurs at most at the start of a path. *)
Definition path_wf (p : PathBuf) : Prop := RootDir ∉ tail p.

(** What [canonicalize] and [normalize_lexical] return: no [.], no [..]. *)
Definition normal_path (p : PathBuf) : Prop := Forall plain p ∧ path_wf p.

Lemma path_wf_cons c p : path_wf (c :: p) ↔ RootDir ∉ p.
Proof. done. Qed.

Lemma normal_steps_plain p acc : Forall plain acc → Forall plain (foldl normal_step acc p).
Proof.
  revert acc; induction p as [|c p IH]; intros acc Ha; [done|]. apply IH. destruct c; cbn [normal_step]; try done.
  - by constructor.
  - destruct acc as [|[]]; try done. by apply Forall_cons in Ha as [_ ?].
  - by constructor.
Qed.

(** Only the components of the path, and the root only if the path holds it. *)
Lemma normal_steps_root p acc : RootDir ∈ foldl normal_step acc p → RootDir ∈ acc ∨ RootDir ∈ p.
Proof.
  revert acc; induction p as [|c p IH]; intros acc Hr; [by left|]. apply IH in Hr as [Hr|Hr]; [|right; set_solver].
  destruct c; cbn [normal_step] in Hr; [right; set_solver|by left| |left; set_solver].
  destruct acc as [|[]]; left; set_solver.
Qed.

Lemma normal_steps_bottom p acc : RootDir ∉ p → ∃ acc', foldl normal_step (acc ++ [RootDir]) p = acc' ++ [RootDir] ∧
  (RootDir ∉ acc → RootDir ∉ acc').
Proof.
  revert acc; induction p as [|c p IH]; intros acc Hp; [by exists acc|]. cbn [foldl].
  assert (RootDir ∉ p) as Hp' by set_solver.
  destruct c as [| | |n]; cbn [normal_step]; [set_solver|by apply IH| |].
  - destruct acc as [|[] acc]; cbn [app]; try (by apply (IH [])).
    1-3: by apply (IH (_ :: acc)).
    destruct (IH acc Hp') as (acc' & He & Hn). exists acc'. split; [done|]. intros Hr. apply Hn. set_solver.
  - destruct (IH (Normal n :: acc) Hp') as (acc' & He & Hn). exists acc'. split; [done|]. intros Hr. apply Hn. set_solver.
Qed.

Lemma normalize_absolute p : RootDir ∉ p → ∃ q, normalize_lexical (RootDir :: p) = RootDir :: q ∧ RootDir ∉ q.
Proof.
  intros Hp. unfold normalize_lexical. cbn [foldl normal_step].
  destruct (normal_steps_bottom p [] Hp) as (acc & He & Hn). cbn [app] in He. rewrite He, rev_unit.
  eexists. split; [done|]. rewrite list_elem_of_In, <-in_rev, <-list_elem_of_In. apply Hn. set_solver.
Qed.

Lemma normalize_plain p : Forall plain (normalize_lexical p).
Proof. unfold normalize_lexical. apply Forall_rev, normal_steps_plain. constructor. Qed.

Lemma normalize_normal p : path_wf p → normal_path (normalize_lexical p).
Proof.
  intros Hp. split; [apply normalize_plain|]. destruct p as [|c p]; [apply not_elem_of_nil|].
  apply path_wf_cons in Hp. destruct (decide (c = RootDir)) as [->|Hc].
  - destruct (normalize_absolute p Hp) as (q & -> & Hq). exact Hq.
  - unfold path_wf. intros Ht. assert (RootDir ∈ normalize_lexical (c :: p)) as Hr.
    { destruct (normalize_lexical (c :: p)); [done|]. right. exact Ht. }
    unfold normalize_lexical in Hr. rewrite list_elem_of_In, <-in_rev, <-list_elem_of_In in Hr.
    apply normal_steps_root in Hr as [?|?]; set_solver.
Qed.

Lemma normalize_fixed p : Forall plain p → normalize_lexical p = p.
Proof.
  intros Hp. unfold normalize_lexical.
  assert (∀ acc, foldl normal_step acc p = rev p ++ acc) as ->; [|by rewrite app_nil_r, rev_involutive].
  induction Hp as [|c p Hc _ IH]; intros acc; [done|]. cbn [foldl rev].
  destruct c; [|done..|]; cbn [normal_step]; by rewrite IH, <-app_assoc.
Qed.

Lemma inner_component_not_root (l : list string) : RootDir ∉ omap inner_component l.
Proof.
  intros (x & _ & Hx)%list_elem_of_omap. unfold inner_component in Hx. destruct (_ || _); [done|]. by destruct (x =? "..")%string.
Qed.

Lemma components_wf s : path_wf (components s).
Proof.
  unfold components. destruct (split_char "/" s) as [|f rest]; [apply not_elem_of_nil|].
  pose proof (inner_component_not_root rest) as H1. pose proof (inner_component_not_root (f :: rest)) as H2.
  repeat case_match; [exact H1|exact H1|]. unfold path_wf. intros Ht. apply H2.
  destruct (omap inner_component (f :: rest)); [done|]. right. exact Ht.
Qed.

Lemma path_join_wf p q : path_wf p → path_wf q → path_wf (path_join p q).
Proof.
  unfold path_join. intros Hp Hq. destruct (is_absolute q) eqn:Ha; [done|].
  destruct p as [|c p]; [by destruct q as [|[] q]|]. apply path_wf_cons in Hp.
  destruct q as [|d q]; [rewrite app_nil_r; exact Hp|]. apply path_wf_cons in Hq.
  destruct d; [done|..]; cbn [app]; rewrite path_wf_cons; set_solver.
Qed.

(** Normalising a path removes every [.] and [..], without touching the file system:
    the result has none, normalising again changes nothing, an absolute path stays absolute whatever
    number of [..] it holds, and a path without them is left as it is. *)
Theorem normalize_lexical_normal s :
  let p := normalize_lexical (components s) in
  normal_path p ∧ normalize_lexical p = p ∧ (starts_with "/" s = true → ∃ q, p = RootDir :: q) ∧
  (Forall plain (components s) → p = components s).
Proof.
  cbv zeta. split; [apply normalize_normal, components_wf|]. split; [apply normalize_fixed, normalize_plain|].
  split; [|apply normalize_fixed]. intros Hs. unfold components. rewrite Hs.
  destruct s as [|c s]; [done|]. destruct (split_char "/" (String c s)) as [|f rest] eqn:Hsp.
  { cbn [split_char] in Hsp. destruct (ascii_dec c "/"); [done|]. by destruct (split_char "/" s). }
  destruct (normalize_absolute (omap inner_component rest)) as (q & -> & _); [apply inner_component_not_root|by eexists].
Qed.

(** ** Containment *)

Section contained.
  Context `{FileSystem}.
  Variable to_lower : string -> string.

(** Where a path leads: the nearest existing ancestor, with its links resolved, and the
    rest of the path below it; the path itself when no ancestor exists. *)
Definition located (r loc : PathBuf) : Prop :=
  (∃ k, k ≤ length r ∧ exists_path (take k r) = true ∧
        (∀ j, k < j ≤ length r → exists_path (take j r) = false) ∧
        loc = default (take k r) (canonicalize (take k r)) ++ drop k r) ∨
  ((∀ j, 0 < j ≤ length r → exists_path (take j r) = false) ∧ loc = r).

Lemma walk_up_stops r anc tail : exists_path (rev anc) = true →
  walk_up r anc tail = default (rev anc) (canonicalize (rev anc)) ++ tail.
Proof. intros He. destruct anc; cbn [walk_up]; by rewrite He. Qed.

Lemma walk_up_located r k : normal_path r → k ≤ length r →
  (∀ j, k < j ≤ length r → exists_path (take j r) = false) → located r (walk_up r (rev (take k r)) (drop k r)).
Proof.
  intros [Hp Hw]. induction k as [|k IH]; intros Hk Hj.
  - rewrite take_0, drop_0. cbn [rev walk_up]. destruct (exists_path []) eqn:He.
    + left. exists 0. rewrite take_0, drop_0. split; [lia|]. split; [done|]. split; [exact Hj|done].
    + right. split; [|done]. intros j ?. apply Hj. lia.
  - destruct (lookup_lt_is_Some_2 r k ltac:(lia)) as [c Hc]. rewrite (take_S_r _ _ _ Hc), rev_unit.
    destruct (exists_path (take (S k) r)) eqn:He.
    { left. exists (S k). split; [done|]. split; [done|]. split; [exact Hj|]. rewrite (take_S_r _ _ _ Hc) in He |- *.
      assert (rev (c :: rev (take k r)) = take k r ++ [c]) as Hr by (cbn [rev]; by rewrite rev_involutive).
      rewrite walk_up_stops by (by rewrite Hr). by rewrite Hr. }
    assert (∀ j, k < j ≤ length r → exists_path (take j r) = false) as Hj'.
    { intros j ?. destruct (decide (j = S k)) as [->|]; [done|]. apply Hj. lia. }
    specialize (IH ltac:(lia) Hj'). rewrite (drop_S _ _ _ Hc) in IH.
    cbn [walk_up]. cbn [rev]. rewrite rev_involutive, <-(take_S_r _ _ _ Hc), He.
    pose proof (proj1 (Forall_forall _ _) Hp c (list_elem_of_lookup_2 _ _ _ Hc)) as Hpc.
    destruct c as [| | |name]; [|done|done|exact IH].
    (* the root is the first component *)
    right. split; [|done]. intros j ?. destruct k as [|k]; [apply Hj'; lia|]. exfalso.
    destruct r as [|c0 r]; [done|]. apply path_wf_cons in Hw. apply Hw. by eapply list_elem_of_lookup_2.
Qed.

(** What [canonicalize] is documented to return: an absolute path with no [.] or [..]. *)
Definition canonicalizes : Prop := ∀ p q, canonicalize p = Some q → normal_path q.

Lemma canonical_or_lexical_normal p : canonicalizes → path_wf p → normal_path (canonical_or_lexical p).
Proof.
  intros Hc Hp. unfold canonical_or_lexical. destruct (canonicalize p) eqn:He; cbn; [by eapply Hc|by apply normalize_normal].
Qed.

Lemma check_path_located r : normal_path r → located r (check_path r).
Proof.
  intros Hr. unfold check_path. destruct (exists_path r) eqn:He.
  - left. exists (length r). rewrite take_ge, drop_ge, app_nil_r by lia.
    split; [done|]. split; [done|]. split; [lia|done].
  - pose proof (walk_up_located r (length r) Hr ltac:(lia)) as Hw. rewrite take_ge, drop_ge in Hw by lia.
    apply Hw. lia.
Qed.

(** C17. A path the sandbox accepts leads inside it: the accepted path has no [.] or [..],
    and the place it leads to, once the links on the way to its nearest existing ancestor are
    resolved, is below the resolved base directory.  The text held no NUL byte. *)
Theorem validated_path_contained path_str base r :
  canonicalizes → path_wf base → validate_path to_lower path_str (Some base) = Ok r →
  normal_path r ∧ contains nul_str path_str = false ∧
  ∃ loc, located r loc ∧ canonical_or_lexical base `prefix_of` loc.
Proof.
  intros Hc Hb. unfold validate_path, is_path_safe_minimal. destruct (contains nul_str path_str); [done|].
  destruct (_ || _); [done|]. cbn [negb]. cbv zeta. set (q := resolve_path _ _).
  assert (normal_path q) as Hq.
  { unfold q, resolve_path. destruct (is_absolute _); [apply canonical_or_lexical_normal; [done|apply components_wf]|].
    apply canonical_or_lexical_normal; [done|]. by apply path_join_wf; [|apply components_wf]. }
  unfold path_starts_with. case_bool_decide as Hpre; [|done]. intros [= <-].
  split; [done|]. split; [done|]. exists (check_path q). by split; [apply check_path_located|].
Qed.

(** A name that leads nowhere yet is accepted directly below an existing base, and so is
    a symbolic link whose target does not exist: [exists] follows it and says no.
    Creating the file then follows the link, wherever it leads. *)
Theorem dangling_link_accepted name base :
  is_path_safe_minimal to_lower name = true → components name = [Normal name] →
  canonicalize base = Some base → normal_path base → exists_path base = true →
  canonicalize (base ++ [Normal name]) = None → exists_path (base ++ [Normal name]) = false →
  validate_path to_lower name (Some base) = Ok (base ++ [Normal name]).
Proof.
  intros Hs Hn Hb [Hbp _] He Hc Hx. unfold validate_path. rewrite Hs. cbn [negb]. rewrite Hn.
  assert (path_join base [Normal name] = base ++ [Normal name]) as Hj by (unfold path_join; by destruct base).
  unfold resolve_path. cbn [is_absolute]. rewrite Hj. unfold canonical_or_lexical at 1 2 3. rewrite Hc. cbn [default].
  assert (Forall plain (base ++ [Normal name])) as Hpl by (apply Forall_app; repeat constructor; done).
  rewrite normalize_fixed by done. unfold canonical_or_lexical. rewrite Hb. cbn [default from_option].
  assert (check_path (base ++ [Normal name]) = base ++ [Normal name]) as ->.
  { unfold check_path. rewrite Hx, rev_unit. cbn [walk_up rev]. rewrite rev_involutive, Hx.
    rewrite walk_up_stops by (by rewrite rev_involutive). by rewrite rev_involutive, Hb. }
  unfold path_starts_with. rewrite bool_decide_true by (by eexists). done.
Qed.

End contained.

(** ** The check without a base directory *)

Lemma split_char_infix sep s piece : piece ∈ split_char sep s → ∃ a b, s = a +:+ (piece +:+ b).
Proof.
  enough (∀ first rest, split_char sep s = first :: rest →
    (∃ b, s = first +:+ b) ∧ ∀ x, x ∈ rest → ∃ a b, s = a +:+ (x +:+ b)) as Hs.
  { intros Hp. destruct (split_char sep s) as [|f r]; [by apply not_elem_of_nil in Hp|].
    destruct (Hs f r eq_refl) as [[b Hb] Hr]. apply elem_of_cons in Hp as [->|Hp]; [by exists "", b|auto]. }
  induction s as [|c s IH]; intros first rest; cbn [split_char].
  - intros [= <- <-]. split; [by exists ""|]. intros x Hx. by apply not_elem_of_nil in Hx.
  - destruct (ascii_dec c sep) as [->|].
    + intros [= <- <-]. split; [by eexists|]. intros x Hx.
      destruct (split_char sep s) as [|f r]; [by apply not_elem_of_nil in Hx|].
      destruct (IH f r eq_refl) as [[b Hb] Hr]. apply elem_of_cons in Hx as [->|Hx].
      * exists (String sep ""), b. by rewrite append_cons, Hb.
      * destruct (Hr x Hx) as (a & b' & ->). exists (String sep a), b'. by rewrite append_cons.
    + destruct (split_char sep s) as [|f r].
      * intros [= <- <-]. split; [by exists s|]. intros x Hx. by apply not_elem_of_nil in Hx.
      * intros [= <- <-]. destruct (IH f r eq_refl) as [[b Hb] Hr]. split; [exists b; by rewrite append_cons, Hb|].
        intros x Hx. destruct (Hr x Hx) as (a & b' & ->). exists (String c a), b'. by rewrite append_cons.
Qed.

(** A text the basic check lets through names no parent directory, whatever the separators
    and dots around it, and passes the minimal check too. *)
Theorem basic_check_no_parent to_lower s :
  is_path_safe_basic to_lower s = true → (ParentDir ∉ components s) ∧ is_path_safe_minimal to_lower s = true.
Proof.
  unfold is_path_safe_basic, is_path_safe_minimal. destruct (contains ".." s) eqn:Hc; [done|]. intros Hm.
  split; [|exact Hm].
  assert (∀ l : list string, (∀ x, x ∈ l → x ∈ split_char "/" s) → ParentDir ∉ omap inner_component l) as Hno.
  { intros l Hl (x & Hx & Hi)%list_elem_of_omap. unfold inner_component in Hi. destruct (_ || _) in Hi; [done|].
    destruct (String.eqb_spec x "..") as [->|]; [|done]. apply Hl, split_char_infix in Hx as (a & b & Hs).
    assert (contains ".." s = true) by (apply contains_iff; by exists a, b). congruence. }
  unfold components. destruct (split_char "/" s) as [|f rest] eqn:Hsp; [apply not_elem_of_nil|].
  repeat case_match; rewrite ?not_elem_of_cons; try (split; [done|]); apply Hno; set_solver.
Qed.

(** ** Witnesses *)

(** A base directory that exists, and below it a link that leads outside, to a file
    that does not exist. *)
Definition demo_base : PathBuf := [RootDir; Normal "tmp"; Normal "box"].

#[local] Instance demo_fs : FileSystem := {|
  canonicalize := fun p => if bool_decide (p `prefix_of` demo_base ∧ p ≠ []) then Some p else None;
  exists_path := fun p => bool_decide (p `prefix_of` demo_base ∧ p ≠ []);
  current_dir := None
|}.

Lemma demo_canonicalizes : canonicalizes.
Proof.
  intros p q. cbn. case_bool_decide as Hp; [|done]. intros [= <-]. destruct Hp as [[k Hk] _].
  assert (Forall plain demo_base) as Hpl by repeat constructor. rewrite Hk, Forall_app in Hpl.
  split; [apply Hpl|]. destruct p as [|c p]; [apply not_elem_of_nil|]. apply path_wf_cons.
  unfold demo_base in Hk. simplify_list_eq. intros Hr. assert (RootDir ∈ p ++ k) as Hx by set_solver.
  match goal with He : _ = p ++ k |- _ => rewrite <-He in Hx end. set_solver.
Qed.

Lemma validated_path_contained_witness :
  validate_path (fun s => s) "a/../b.txt" (Some demo_base) = Ok (demo_base ++ [Normal "b.txt"]) ∧
  normal_path (demo_base ++ [Normal "b.txt"]).
Proof.
  assert (validate_path (fun s => s) "a/../b.txt" (Some demo_base) = Ok (demo_base ++ [Normal "b.txt"])) as Hv by reflexivity.
  split; [exact Hv|].
  exact (proj1 (validated_path_contained (fun s => s) "a/../b.txt" demo_base (demo_base ++ [Normal "b.txt"])
    demo_canonicalizes ltac:(apply (bool_decide_unpack _); reflexivity) Hv)).
Defined.

Lemma dangling_link_accepted_witness :
  validate_path (fun s => s) "out" (Some demo_base) = Ok (demo_base ++ [Normal "out"]).
Proof.
  apply (dangling_link_accepted (fun s => s) "out" demo_base); try reflexivity.
  split; [repeat constructor|apply (bool_decide_unpack _); reflexivity].
Defined.

Lemma basic_check_no_parent_witness : ParentDir ∉ components "documents/./report.pdf".
Proof. exact (proj1 (basic_check_no_parent (fun s => s) "documents/./report.pdf" eq_refl)). Defined.
