(* ===== verification/Credentials.v ===== *)
(** * Credentials: which requests a secret reaches

    [src/tools/wasm/credential_injector.rs] and the mapping types of [src/secrets/types.rs]: the
    registry of the mappings of all tools, the injector of one tool, the base64 encoder of
    Basic authorization.  The secret store is a parameter; a [HashMap] that is only iterated
    is the list of its values in the order of the iteration. *)

From Stdlib Require Import Ascii.
From S2P Require Import Prelude Text TextSearch Allowlist.

(** ** Data *)

Inductive CredentialLocation : Type :=
| AuthorizationBearer
| AuthorizationBasic (username : string)
| Header (name : string) (prefix : option string)
| QueryParam (name : string)
| UrlPath (placeholder : string).

Record CredentialMapping : Type := mkMapping {
  secret_name : string;
  location : CredentialLocation;
  host_patterns : list string
}.

Inductive SecretError : Type :=
| NotFound (name : string) | Expired | SecretDecryptionFailed (msg : string) | EncryptionFailed (msg : string)
| InvalidMasterKey | InvalidUtf8 | Database (msg : string) | SecretAccessDenied | KeychainError (msg : string).

Definition secret_error_text (e : SecretError) : string :=
  match e with
  | NotFound n => "Secret not found: " +:+ n
  | Expired => "Secret has expired"
  | SecretDecryptionFailed m => "Decryption failed: " +:+ m
  | EncryptionFailed m => "Encryption failed: " +:+ m
  | InvalidMasterKey => "Invalid master key"
  | InvalidUtf8 => "Secret value is not valid UTF-8"
  | Database m => "Database error: " +:+ m
  | SecretAccessDenied => "Secret access denied for tool"
  | KeychainError m => "Keychain error: " +:+ m
  end.

Inductive InjectionError : Type :=
| SecretNotFound (name : string) | AccessDenied (name : string) | SecretExpired (name : string)
| DecryptionFailed (msg : string) | NoMatchingCredential (host : string).

Record InjectedCredentials : Type := mkInjected {
  ic_headers : gmap string string;
  query_params : gmap string string
}.

Definition injected_empty : InjectedCredentials := mkInjected ∅ ∅.
Definition injected_is_empty (r : InjectedCredentials) : bool :=
  bool_decide (ic_headers r = ∅) && bool_decide (query_params r = ∅).

(** ** Base64 *)

Local Open Scope Z_scope.

Definition ALPHABET : string := "ABCDEFGHIJKLMNOPQRSTUVWXYZabcdefghijklmnopqrstuvwxyz0123456789+/".

Definition alphabet_at (i : Z) : ascii := default "000"%char (String.get (Z.to_nat i) ALPHABET).

(** Bytes of 8 bits: no shift below overflows its byte. *)
Definition enc0 (b0 : Z) : Z := Z.shiftr b0 2.
Definition enc1 (b0 b1 : Z) : Z := Z.lor (Z.shiftl (Z.land b0 3) 4) (Z.shiftr b1 4).
Definition enc2 (b1 b2 : Z) : Z := Z.lor (Z.shiftl (Z.land b1 15) 2) (Z.shiftr b2 6).
Definition enc3 (b2 : Z) : Z := Z.land b2 63.

Fixpoint base64_encode (input : list Z) : string :=
  match input with
  | [] => ""
  | [b0] => String (alphabet_at (enc0 b0)) (String (alphabet_at (enc1 b0 0)) "==")
  | [b0; b1] =>
      String (alphabet_at (enc0 b0)) (String (alphabet_at (enc1 b0 b1)) (String (alphabet_at (enc2 b1 0)) "="))
  | b0 :: b1 :: b2 :: rest =>
      String (alphabet_at (enc0 b0)) (String (alphabet_at (enc1 b0 b1))
        (String (alphabet_at (enc2 b1 b2)) (String (alphabet_at (enc3 b2)) (base64_encode rest))))
  end.

Local Close Scope Z_scope.

Fixpoint as_bytes (s : string) : list Z :=
  match s with EmptyString => [] | String c r => Z.of_nat (nat_of_ascii c) :: as_bytes r end.

(** ** Injection *)

Definition host_matches_pattern (host pattern : string) : bool :=
  if (pattern =? host)%string then true
  else
    match strip_prefix "*." pattern with
    | Some suffix =>
        if ends_with suffix host && (String.length suffix <? String.length host)%nat then
          let prefix := String.substring 0 (String.length host - String.length suffix) host in
          ends_with "." prefix || str_is_empty prefix
        else false
    | None => false
    end.

Definition inject_credential (r : InjectedCredentials) (l : CredentialLocation) (secret : string)
    : InjectedCredentials :=
  let header n v := mkInjected (<[n := v]> (ic_headers r)) (query_params r) in
  match l with
  | AuthorizationBearer => header "Authorization" ("Bearer " +:+ secret)
  | AuthorizationBasic username =>
      header "Authorization" ("Basic " +:+ base64_encode (as_bytes (cat [username; ":"; secret])))
  | Header name prefix => header name (match prefix with Some p => p +:+ secret | None => secret end)
  | QueryParam name => mkInjected (ic_headers r) (<[name := secret]> (query_params r))
  | UrlPath _ => r
  end.

(** *** The registry shared by all tools *)

Record SharedCredentialRegistry : Type := mkShared { mappings : list CredentialMapping }.

Definition registry_new : SharedCredentialRegistry := mkShared [].
Definition add_mappings (ms : list CredentialMapping) (r : SharedCredentialRegistry) : SharedCredentialRegistry :=
  mkShared (mappings r ++ ms).
Definition remove_mappings_for_secrets (names : list string) (r : SharedCredentialRegistry)
    : SharedCredentialRegistry :=
  mkShared (List.filter (fun m => negb (bool_decide (secret_name m ∈ names))) (mappings r)).

Definition mapping_matches (host : string) (m : CredentialMapping) : bool :=
  existsb (host_matches_pattern host) (host_patterns m).

Definition has_credentials_for_host (host : string) (r : SharedCredentialRegistry) : bool :=
  existsb (mapping_matches host) (mappings r).
Definition find_for_host (host : string) (r : SharedCredentialRegistry) : list CredentialMapping :=
  List.filter (mapping_matches host) (mappings r).

(** *** The injector of one tool *)

Record CredentialInjector : Type := mkInjector {
  ci_mappings : list CredentialMapping;
  allowed_secrets : list string
}.

Section injector.
  Variable to_lower : string -> string.
  (** [store.get_decrypted(user_id, name)] *)
  Variable get_decrypted : string -> string -> Result SecretError string.

Definition is_secret_allowed (i : CredentialInjector) (name : string) : bool :=
  let name_lower := to_lower name in
  existsb (fun pattern =>
    let pattern_lower := to_lower pattern in
    (pattern_lower =? name_lower)%string ||
    (ends_with "*" pattern_lower &&
     starts_with (str_to (String.length pattern_lower - 1) pattern_lower) name_lower)) (allowed_secrets i).

Definition find_credentials_for_host (i : CredentialInjector) (host : string) : list CredentialMapping :=
  List.filter (mapping_matches host) (ci_mappings i).

Definition injection_error (name : string) (e : SecretError) : InjectionError :=
  match e with
  | NotFound n => SecretNotFound n
  | Expired => SecretExpired name
  | _ => DecryptionFailed (secret_error_text e)
  end.

Fixpoint inject_loop (i : CredentialInjector) (user_id : string) (ms : list CredentialMapping)
    (r : InjectedCredentials) : Result InjectionError InjectedCredentials :=
  match ms with
  | [] => Ok r
  | m :: ms =>
      if negb (is_secret_allowed i (secret_name m)) then Err (AccessDenied (secret_name m))
      else match get_decrypted user_id (secret_name m) with
           | Err e => Err (injection_error (secret_name m) e)
           | Ok secret => inject_loop i user_id ms (inject_credential r (location m) secret)
           end
  end.

Definition inject (i : CredentialInjector) (user_id host : string) : Result InjectionError InjectedCredentials :=
  match find_credentials_for_host i host with
  | [] => Ok injected_empty
  | ms => inject_loop i user_id ms injected_empty
  end.

End injector.

(** ** The encoder *)

Section base64.
Local Open Scope Z_scope.

(** A decoder to hold the encoder against. *)
Fixpoint alphabet_index (c : ascii) (l : string) (i : Z) : option Z :=
  match l with
  | EmptyString => None
  | String d r => if ascii_dec c d then Some i else alphabet_index c r (i + 1)
  end.

Definition sextet (c : ascii) : option Z := alphabet_index c ALPHABET 0.

Fixpoint base64_decode (s : string) : option (list Z) :=
  match s with
  | EmptyString => Some []
  | String c0 (String c1 (String c2 (String c3 rest))) =>
      x0 ← sextet c0; x1 ← sextet c1;
      let b0 := x0 * 4 + x1 / 16 in
      if ascii_dec c2 "=" then (if ascii_dec c3 "=" then match rest with "" => Some [b0] | _ => None end else None)
      else
        x2 ← sextet c2;
        let b1 := x1 mod 16 * 16 + x2 / 4 in
        if ascii_dec c3 "=" then match rest with "" => Some [b0; b1] | _ => None end
        else
          x3 ← sextet c3;
          l ← base64_decode rest;
          Some (b0 :: b1 :: (x2 mod 4 * 64 + x3) :: l)
  | _ => None
  end.

Abbreviation octet z := (0 <= z < 256).

Definition sextet_ok (i : Z) : bool :=
  bool_decide (sextet (alphabet_at i) = Some i) && negb (bool_decide (alphabet_at i = "="%char)).

Lemma sextet_alphabet i : 0 <= i < 64 → sextet (alphabet_at i) = Some i ∧ alphabet_at i ≠ "="%char.
Proof.
  intros Hi. assert (sextet_ok i = true) as Hs by (apply (all_from_spec sextet_ok 64 0); [by vm_compute|lia]).
  unfold sextet_ok in Hs. by rewrite andb_true_iff, negb_true_iff, bool_decide_eq_true, bool_decide_eq_false in Hs.
Qed.

(** The bit operations as arithmetic, checked on all bytes. *)
Definition pairs_ok (p : Z -> Z -> bool) : bool := all_from (fun a => all_from (p a) 256 0) 256 0.

Lemma pairs_ok_spec p a b : pairs_ok p = true → octet a → octet b → p a b = true.
Proof.
  intros Hp Ha Hb. pose proof (all_from_spec _ _ _ a Hp ltac:(lia)) as Hq. exact (all_from_spec _ _ _ b Hq ltac:(lia)).
Qed.

Lemma enc_arith b0 b1 : octet b0 → octet b1 →
  enc0 b0 = b0 / 4 ∧ enc1 b0 b1 = b0 mod 4 * 16 + b1 / 16 ∧ enc2 b0 b1 = b0 mod 16 * 4 + b1 / 64 ∧ enc3 b0 = b0 mod 64.
Proof.
  intros H0 H1.
  assert ((enc0 b0 =? b0 / 4) && (enc1 b0 b1 =? b0 mod 4 * 16 + b1 / 16) && (enc2 b0 b1 =? b0 mod 16 * 4 + b1 / 64) &&
    (enc3 b0 =? b0 mod 64) = true) as He.
  { apply (pairs_ok_spec (fun b0 b1 => (enc0 b0 =? b0 / 4) && (enc1 b0 b1 =? b0 mod 4 * 16 + b1 / 16) &&
      (enc2 b0 b1 =? b0 mod 16 * 4 + b1 / 64) && (enc3 b0 =? b0 mod 64)) b0 b1); [by vm_compute|done..]. }
  rewrite !andb_true_iff, !Z.eqb_eq in He. tauto.
Qed.

#[local] Ltac Zify.zify_post_hook ::= Z.to_euclidean_division_equations.

Lemma sextet_some i : 0 <= i < 64 → sextet (alphabet_at i) = Some i.
Proof. apply sextet_alphabet. Qed.

Lemma not_pad {A} i (x y : A) : 0 <= i < 64 → (if ascii_dec (alphabet_at i) "=" then x else y) = y.
Proof. intros Hi. destruct (ascii_dec _ _) as [He|]; [|done]. by apply sextet_alphabet in Hi as [_ Hn]. Qed.

(** The encoder written for Basic authorization is base64: decoding what it produces
    gives the input back, for every sequence of bytes, and the length is four
    characters for every three bytes begun. *)
Theorem base64_roundtrip l :
  Forall (fun z => octet z) l →
  base64_decode (base64_encode l) = Some l ∧
  Z.of_nat (String.length (base64_encode l)) = 4 * ((Z.of_nat (length l) + 2) / 3).
Proof.
  remember (length l) as n eqn:Hn. revert l Hn.
  induction (lt_wf n) as [n _ IH]; intros l -> Hl.
  destruct l as [|b0 [|b1 [|b2 rest]]].
  - done.
  - apply Forall_cons in Hl as [H0 _]. destruct (enc_arith b0 0) as (He0 & He1 & _); [done|lia|].
    cbn [base64_encode base64_decode]. rewrite He0, He1, !sextet_some by lia. split; [|done]. cbn. do 2 f_equal. lia.
  - rewrite !Forall_cons in Hl. destruct Hl as (H0 & H1 & _). destruct (enc_arith b0 b1) as (He0 & He1 & _); [done..|].
    destruct (enc_arith b1 0) as (_ & _ & He2 & _); [done|lia|].
    cbn [base64_encode base64_decode]. rewrite He0, He1, He2, !sextet_some by lia. cbn [mbind option_bind].
    rewrite not_pad by lia. split; [|done]. cbn. repeat f_equal; lia.
  - rewrite !Forall_cons in Hl. destruct Hl as (H0 & H1 & H2 & Hr).
    destruct (enc_arith b0 b1) as (He0 & He1 & _); [done..|]. destruct (enc_arith b1 b2) as (_ & _ & He2 & _); [done..|].
    destruct (enc_arith b2 b2) as (_ & _ & _ & He3); [done..|].
    destruct (IH (length rest)) with (l := rest) as [Hd Hlen]; [cbn; lia|done|done|].
    cbn [base64_encode base64_decode]. rewrite He0, He1, He2, He3, !sextet_some by lia. cbn [mbind option_bind].
    rewrite !not_pad by lia. rewrite Hd. cbn [mbind option_bind]. split; [repeat f_equal; lia|].
    cbn [String.length length] in *. lia.
Qed.

Lemma base64_roundtrip_witness :
  base64_encode (as_bytes "user:pass") = "dXNlcjpwYXNz" ∧
  base64_decode (base64_encode (as_bytes "hello")) = Some (as_bytes "hello").
Proof.
  split; [reflexivity|]. apply (base64_roundtrip (as_bytes "hello")). repeat constructor; lia.
Defined.

End base64.

(** ** Which hosts a secret reaches *)

Lemma host_matches_covers host pattern : host_matches_pattern host pattern = true ↔ covers pattern host.
Proof.
  rewrite <-(host_matches_iff (pattern_host pattern) host). unfold host_matches_pattern, host_matches. cbn [pattern_host ep_host].
  destruct (String.eqb_spec pattern host) as [->|Hne]; [by rewrite decide_True|]. rewrite decide_False by done.
  destruct (strip_prefix "*." pattern) as [suffix|]; [|done].
  assert (∀ s, str_is_empty s = bool_decide (s = "")) as Hs.
  { intros s. apply eq_true_iff_eq. by rewrite str_is_empty_iff, bool_decide_eq_true. }
  by rewrite Hs.
Qed.

Lemma mapping_matches_covers host m :
  mapping_matches host m = true ↔ ∃ p, p ∈ host_patterns m ∧ covers p host.
Proof.
  unfold mapping_matches. rewrite existsb_exists. setoid_rewrite <-list_elem_of_In. by setoid_rewrite host_matches_covers.
Qed.

Section scope.
  Variable to_lower : string -> string.
  Variable get_decrypted : string -> string -> Result SecretError string.

(** The mapping and the secret a header or a query parameter comes from. *)
Definition comes_from (i : CredentialInjector) (user_id host : string) (part : InjectedCredentials -> gmap string string)
    (n v : string) : Prop :=
  ∃ m secret p, m ∈ ci_mappings i ∧ p ∈ host_patterns m ∧ covers p host ∧
    is_secret_allowed to_lower i (secret_name m) = true ∧ get_decrypted user_id (secret_name m) = Ok secret ∧
    part (inject_credential injected_empty (location m) secret) !! n = Some v.

Lemma inject_credential_parts r l secret n v :
  (ic_headers (inject_credential r l secret) !! n = Some v →
     ic_headers (inject_credential injected_empty l secret) !! n = Some v ∨ ic_headers r !! n = Some v) ∧
  (query_params (inject_credential r l secret) !! n = Some v →
     query_params (inject_credential injected_empty l secret) !! n = Some v ∨ query_params r !! n = Some v).
Proof.
  destruct l; cbn; split; intros Hn; auto; rewrite lookup_insert in Hn |- *; case_decide; auto.
Qed.

Lemma inject_loop_scoped i user_id host ms r r' :
  (∀ m, m ∈ ms → m ∈ ci_mappings i ∧ mapping_matches host m = true) →
  inject_loop to_lower get_decrypted i user_id ms r = Ok r' →
  (∀ n v, ic_headers r' !! n = Some v → comes_from i user_id host ic_headers n v ∨ ic_headers r !! n = Some v) ∧
  (∀ n v, query_params r' !! n = Some v → comes_from i user_id host query_params n v ∨ query_params r !! n = Some v).
Proof.
  revert r. induction ms as [|m ms IH]; intros r Hm; cbn [inject_loop]; [intros [= ->]; auto|].
  destruct (is_secret_allowed to_lower i (secret_name m)) eqn:Ha; [|done]. cbn [negb].
  destruct (get_decrypted user_id (secret_name m)) as [secret|e] eqn:Hg; [|done]. intros Hl.
  apply IH in Hl as [Hh Hq]; [|intros x Hx; apply Hm; by right].
  destruct (Hm m ltac:(by left)) as [Hmem (p & Hp & Hc)%mapping_matches_covers].
  split; intros n v Hn.
  - apply Hh in Hn as [Hn|Hn]; [by left|]. apply inject_credential_parts in Hn as [Hn|Hn]; [left|by right].
    exists m, secret, p. naive_solver.
  - apply Hq in Hn as [Hn|Hn]; [by left|]. apply inject_credential_parts in Hn as [Hn|Hn]; [left|by right].
    exists m, secret, p. naive_solver.
Qed.

Lemma find_credentials_spec i host m :
  m ∈ find_credentials_for_host i host ↔ m ∈ ci_mappings i ∧ mapping_matches host m = true.
Proof. unfold find_credentials_for_host. by rewrite !list_elem_of_In, filter_In. Qed.

(** C38. A secret only goes where its mapping says: every header and every query parameter the
    injector adds for a host comes from a mapping one of whose patterns covers that host, with
    a secret the tool is allowed to use; a host no pattern covers gets nothing,
    and a matching secret that is not allowed stops the request. *)
Theorem secrets_stay_on_their_hosts i user_id host :
  (∀ r, inject to_lower get_decrypted i user_id host = Ok r →
     (∀ n v, ic_headers r !! n = Some v → comes_from i user_id host ic_headers n v) ∧
     (∀ n v, query_params r !! n = Some v → comes_from i user_id host query_params n v)) ∧
  ((∀ m p, m ∈ ci_mappings i → p ∈ host_patterns m → ¬ covers p host) →
     inject to_lower get_decrypted i user_id host = Ok injected_empty) ∧
  ((∃ m, m ∈ ci_mappings i ∧ mapping_matches host m = true ∧ is_secret_allowed to_lower i (secret_name m) = false) →
     is_ok (inject to_lower get_decrypted i user_id host) = false).
Proof.
  pose proof (find_credentials_spec i host) as Hf. unfold inject. split; [|split].
  - intros r Hr. assert (inject_loop to_lower get_decrypted i user_id (find_credentials_for_host i host) injected_empty = Ok r) as Hl.
    { by destruct (find_credentials_for_host i host). }
    apply (inject_loop_scoped _ _ host) in Hl as [Hh Hq]; [|intros m; apply Hf].
    split; intros n v Hn; [apply Hh in Hn as [?|Hn]|apply Hq in Hn as [?|Hn]]; try done; cbn in Hn; by rewrite lookup_empty in Hn.
  - intros Hno. destruct (find_credentials_for_host i host) as [|m ms] eqn:He; [done|]. exfalso.
    destruct (proj1 (Hf m)) as [Hm (p & Hp & Hc)%mapping_matches_covers]; [by left|]. by eapply Hno.
  - intros (m & Hm & Hmm & Ha). assert (m ∈ find_credentials_for_host i host) as Hin by (by apply Hf).
    destruct (find_credentials_for_host i host) as [|m0 ms]; [by apply not_elem_of_nil in Hin|].
    revert Hin. generalize (m0 :: ms), injected_empty. clear -Ha. induction l as [|x l IH]; intros r Hin.
    + by apply not_elem_of_nil in Hin.
    + cbn [inject_loop]. destruct (is_secret_allowed to_lower i (secret_name x)) eqn:Hx; [|done]. cbn [negb].
      destruct (get_decrypted _ _); [|done]. apply IH. apply elem_of_cons in Hin as [->|]; [congruence|done].
Qed.

End scope.

(** The registry finds a mapping exactly when it says there is one, and once the
    secrets of an extension are removed no mapping of theirs is found for any host, while
    the mappings of other secrets are found as before. *)
Theorem registry_removal host names r :
  (has_credentials_for_host host r = true ↔ find_for_host host r ≠ []) ∧
  (∀ m, m ∈ find_for_host host (remove_mappings_for_secrets names r) ↔
        m ∈ find_for_host host r ∧ secret_name m ∉ names).
Proof.
  split.
  - unfold has_credentials_for_host, find_for_host. induction (mappings r) as [|m l IH]; cbn; [done|].
    destruct (mapping_matches host m); cbn; [naive_solver|done].
  - intros m. unfold find_for_host, remove_mappings_for_secrets. cbn [mappings].
    rewrite 2!list_elem_of_In, !filter_In, negb_true_iff, bool_decide_eq_false. tauto.
Qed.
