(* ===== verification/Hooks.v ===== *)
(** * Hooks: what extensions may do to messages and tool calls

    [src/hooks/hook.rs] (events and outcomes), [registry.rs] (registration and the chain) and
    [bundled.rs] (declarative rules, outbound webhooks and the guard of their targets).
    Parameters: the timer of tokio, the regex, JSON, URL and header crates.  A delivery of a
    webhook is spawned after the hook has answered; its guard is
    [dispatch_client_for_target]. *)

From Stdlib Require Import Ascii.
From S2P Require Import Prelude Text TextSearch ReplyText Ssrf.

Local Open Scope Z_scope.

(** ** Events and outcomes *)

Inductive HookPoint : Type :=
| BeforeInbound | BeforeToolCall | BeforeOutbound | OnSessionStart | OnSessionEnd | TransformResponse.

#[export] Instance HookPoint_eq_dec : EqDecision HookPoint.
Proof. solve_decision. Defined.

Definition point_as_str (p : HookPoint) : string :=
  match p with
  | BeforeInbound => "beforeInbound" | BeforeToolCall => "beforeToolCall" | BeforeOutbound => "beforeOutbound"
  | OnSessionStart => "onSessionStart" | OnSessionEnd => "onSessionEnd" | TransformResponse => "transformResponse"
  end.

Inductive HookEvent : Type :=
| Inbound (user_id channel content : string) (thread_id : option string)
| ToolCall (tool_name : string) (parameters : Json) (user_id context : string)
| Outbound (user_id channel content : string) (thread_id : option string)
| SessionStart (user_id session_id : string)
| SessionEnd (user_id session_id : string)
| ResponseTransform (user_id thread_id response : string).

Definition hook_point (e : HookEvent) : HookPoint :=
  match e with
  | Inbound _ _ _ _ => BeforeInbound
  | ToolCall _ _ _ _ => BeforeToolCall
  | Outbound _ _ _ _ => BeforeOutbound
  | SessionStart _ _ => OnSessionStart
  | SessionEnd _ _ => OnSessionEnd
  | ResponseTransform _ _ _ => TransformResponse
  end.

Inductive HookOutcome : Type := Continue (modified : option string) | Reject (reason : string).
Definition outcome_ok : HookOutcome := Continue None.
Definition outcome_modify (v : string) : HookOutcome := Continue (Some v).
Definition outcome_reject (r : string) : HookOutcome := Reject r.

Inductive HookFailureMode : Type := FailOpen | FailClosed.

Inductive HookError : Type :=
| ExecutionFailed (reason : string) | HookTimeout (timeout : Z) | Rejected (reason : string).

(** The trait object: what the registry reads of a hook, and its body. *)
Record Hook : Type := mkHook {
  hook_name : string;
  hook_points : list HookPoint;
  failure_mode : HookFailureMode;
  hook_timeout : Z;
  hook_execute : HookEvent -> Result HookError HookOutcome
}.

Record HookEntry : Type := mkEntry { he_hook : Hook; he_priority : Z }.

(** ** The registry *)

Record HookRegistry : Type := mkRegistry { hooks : list HookEntry }.

Definition registry_new : HookRegistry := mkRegistry [].

Definition entry_name (e : HookEntry) : string := hook_name (he_hook e).

Definition register_with_priority (hook : Hook) (priority : Z) (r : HookRegistry) : HookRegistry :=
  let l := match update_first (fun e => (entry_name e =? hook_name hook)%string) (fun _ => mkEntry hook priority) (hooks r) with
           | Some l => l
           | None => hooks r ++ [mkEntry hook priority]
           end in
  mkRegistry (sort_by (fun e => Z.to_nat (he_priority e)) l).

Definition register (hook : Hook) (r : HookRegistry) : HookRegistry := register_with_priority hook 100 r.

Definition unregister (name : string) (r : HookRegistry) : bool * HookRegistry :=
  let l := List.filter (fun e => negb (entry_name e =? name)%string) (hooks r) in
  ((length l <? length (hooks r))%nat, mkRegistry l).

Definition list_names (r : HookRegistry) : list string := entry_name <$> hooks r.

Section chain.
  Variable json_from_str : string -> Result string Json.
  Variable json_to_string : Json -> string.
  (** Whether the hook has not answered within its timeout. *)
  Variable elapsed : Hook -> HookEvent -> bool.
  Variable hook_error_text : HookError -> string.

Definition extract_content (e : HookEvent) : string :=
  match e with
  | Inbound _ _ content _ | Outbound _ _ content _ => content
  | ToolCall _ parameters _ _ => json_to_string parameters
  | ResponseTransform _ _ response => response
  | SessionStart _ session_id | SessionEnd _ session_id => session_id
  end.

Definition apply_modification (modified : string) (e : HookEvent) : HookEvent :=
  match e with
  | Inbound u c _ t => Inbound u c modified t
  | Outbound u c _ t => Outbound u c modified t
  | ToolCall n parameters u c =>
      match json_from_str modified with Ok parsed => ToolCall n parsed u c | Err _ => ToolCall n parameters u c end
  | ResponseTransform u t _ => ResponseTransform u t modified
  | SessionStart u s => SessionStart u s
  | SessionEnd u s => SessionEnd u s
  end.

(** One turn of the loop: the event the next hook sees, or the error that stops the chain. *)
Definition run_hook (h : Hook) (current : HookEvent) : Result HookError HookEvent :=
  if elapsed h current then
    match failure_mode h with FailOpen => Ok current | FailClosed => Err (HookTimeout (hook_timeout h)) end
  else
    match hook_execute h current with
    | Ok (Reject reason) => Err (Rejected reason)
    | Ok (Continue (Some value)) => Ok (apply_modification value current)
    | Ok (Continue None) => Ok current
    | Err err =>
        match failure_mode h with
        | FailOpen => Ok current
        | FailClosed => Err (ExecutionFailed (cat ["Hook '"; hook_name h; "' failed: "; hook_error_text err]))
        end
    end.

Fixpoint run_chain (matching : list Hook) (current : HookEvent) : Result HookError HookEvent :=
  match matching with
  | [] => Ok current
  | h :: matching => match run_hook h current with Err e => Err e | Ok next => run_chain matching next end
  end.

Definition matching_hooks (r : HookRegistry) (p : HookPoint) : list Hook :=
  he_hook <$> List.filter (fun e => bool_decide (p ∈ hook_points (he_hook e))) (hooks r).

Definition run (r : HookRegistry) (event : HookEvent) : Result HookError HookOutcome :=
  match matching_hooks r (hook_point event) with
  | [] => Ok outcome_ok
  | matching =>
      match run_chain matching event with
      | Err e => Err e
      | Ok current =>
          let modified := extract_content current in
          if negb (modified =? extract_content event)%string then Ok (outcome_modify modified) else Ok outcome_ok
      end
  end.

End chain.

(** ** Declarative hooks *)

Definition DEFAULT_RULE_PRIORITY : Z := 100.
Definition DEFAULT_WEBHOOK_PRIORITY : Z := 300.
Definition DEFAULT_WEBHOOK_TIMEOUT_MS : Z := 2000.
Definition DEFAULT_WEBHOOK_MAX_IN_FLIGHT : nat := 32.
Definition MAX_HOOK_TIMEOUT_MS : Z := 30000.
Definition ALL_HOOK_POINTS : list HookPoint :=
  [BeforeInbound; BeforeToolCall; BeforeOutbound; OnSessionStart; OnSessionEnd; TransformResponse].

Inductive HookBundleError : Type :=
| InvalidFormat (reason : string)
| MissingHookPoints (hook : string)
| InvalidRegex (hook pattern reason : string)
| InvalidTimeout (hook : string) (max_ms : Z)
| InvalidWebhookUrl (hook url : string)
| InvalidWebhookScheme (hook scheme : string)
| ForbiddenWebhookHost (hook host : string)
| InvalidWebhookHeader (hook header reason : string)
| ForbiddenWebhookHeader (hook header : string)
| InvalidWebhookMaxInFlight (hook : string).

Record HookRuleConfig : Type := mkRuleConfig {
  rc_name : string;
  rc_points : list HookPoint;
  rc_priority : option Z;
  rc_failure_mode : option HookFailureMode;
  rc_timeout_ms : option Z;
  rc_when_regex : option string;
  rc_reject_reason : option string;
  rc_replacements : list (string * string);
  rc_prepend : option string;
  rc_append : option string
}.

Record OutboundWebhookConfig : Type := mkWebhookConfig {
  wc_name : string;
  wc_points : list HookPoint;
  wc_url : string;
  wc_headers : list (string * string);
  wc_timeout_ms : option Z;
  wc_priority : option Z;
  wc_max_in_flight : option nat
}.

Record HookBundleConfig : Type := mkBundle { rules : list HookRuleConfig; outbound_webhooks : list OutboundWebhookConfig }.

Record HookRegistrationSummary : Type := mkSummary { sum_hooks : nat; sum_webhooks : nat; sum_errors : nat }.

Definition total_registered (s : HookRegistrationSummary) : nat := (sum_hooks s + sum_webhooks s)%nat.
Definition summary_merge (a b : HookRegistrationSummary) : HookRegistrationSummary :=
  mkSummary (sum_hooks a + sum_hooks b) (sum_webhooks a + sum_webhooks b) (sum_errors a + sum_errors b).

(** A compiled regex is its pattern. *)
Record RuleHook : Type := mkRule {
  rh_name : string;
  rh_points : list HookPoint;
  rh_failure_mode : HookFailureMode;
  rh_timeout : Z;
  when_regex : option string;
  reject_reason : option string;
  replacements : list (string * string);
  prepend : option string;
  append : option string
}.

Record OutboundWebhookHook : Type := mkWebhook {
  wh_name : string;
  wh_points : list HookPoint;
  wh_url : Url;
  wh_headers : gmap string string;
  wh_timeout : Z;
  wh_permits : nat
}.

(** *** Targets *)

Definition ipv6_mapped_ipv4 (a : Ipv6Addr) : option Ipv4Addr :=
  if (seg0 a =? 0) && (seg1 a =? 0) && (seg2 a =? 0) && (seg3 a =? 0) && (seg4 a =? 0) && (seg5 a =? 65535)
  then Some (mkV4 (Z.shiftr (seg6 a) 8) (Z.land (seg6 a) 255) (Z.shiftr (seg7 a) 8) (Z.land (seg7 a) 255))
  else None.

Definition is_forbidden_ipv4 (a : Ipv4Addr) : bool :=
  if is_private a || v4_is_loopback a || is_link_local a || is_broadcast a || is_documentation a ||
     v4_is_unspecified a || v4_is_multicast a then true
  else if (oct0 a =? 100) && ((64 <=? oct1 a) && (oct1 a <=? 127)) then true
  else (oct0 a =? 198) && ((oct1 a =? 18) || (oct1 a =? 19)).

Definition is_forbidden_ip (ip : IpAddr) : bool :=
  match ip with
  | V4 a => is_forbidden_ipv4 a
  | V6 a =>
      match ipv6_mapped_ipv4 a with
      | Some m => is_forbidden_ipv4 m
      | None =>
          if v6_is_loopback a || v6_is_unspecified a || is_unique_local a || is_unicast_link_local a || v6_is_multicast a
          then true
          else (seg0 a =? 8193) && (seg1 a =? 3512)
      end
  end.

Definition is_forbidden_webhook_host (host : string) : bool :=
  let lower := string_map ascii_lower host in
  (lower =? "localhost")%string || ends_with ".localhost" lower || (lower =? "host.docker.internal")%string ||
  (lower =? "metadata.google.internal")%string || (lower =? "metadata.aws.internal")%string.

Definition is_forbidden_header (name : string) : bool :=
  let lower := string_map ascii_lower name in
  existsb (String.eqb lower)
    ["host"; "authorization"; "cookie"; "proxy-authorization"; "forwarded"; "x-real-ip"; "transfer-encoding"; "connection"] ||
  starts_with "x-forwarded-" lower.

(** [host.trim_start_matches('[').trim_end_matches(']')] *)
Definition normalize_host (host : string) : string := trim_end_matches "]" (trim_start_chars (Ascii.eqb "[") host).

Definition timeout_from_ms (timeout_ms : option Z) (hook_name : string) : Result HookBundleError Z :=
  match timeout_ms with
  | Some ms => if (ms =? 0) || (MAX_HOOK_TIMEOUT_MS <? ms) then Err (InvalidTimeout hook_name MAX_HOOK_TIMEOUT_MS) else Ok ms
  | None => Ok 5000
  end.

Section bundled.
  Context `{RegexEngine} `{NetEnv}.
  (** The regex compiler's error and its replacement of all matches. *)
  Variable regex_error : string -> string.
  Variable replace_all : string -> string -> string -> string.
  Variable json_to_string : Json -> string.
  (** The names and values the [http] crate accepts; a name is put in lower case. *)
  Variable header_name_from : string -> Result string string.
  Variable header_value_from : string -> Result string string.

Definition regex_new (hook pattern : string) : Result HookBundleError string :=
  if regex_valid pattern then Ok pattern else Err (InvalidRegex hook pattern (regex_error pattern)).

Fixpoint compile_replacements (hook : string) (l : list (string * string)) : Result HookBundleError (list (string * string)) :=
  match l with
  | [] => Ok []
  | (pattern, replacement) :: l =>
      match regex_new hook pattern with
      | Err e => Err e
      | Ok re => match compile_replacements hook l with Err e => Err e | Ok out => Ok ((re, replacement) :: out) end
      end
  end.

Definition rule_from_config (source : string) (c : HookRuleConfig) : Result HookBundleError (RuleHook * Z) :=
  let scoped_name := cat [source; "::"; rc_name c] in
  match rc_points c with
  | [] => Err (MissingHookPoints scoped_name)
  | _ =>
      match timeout_from_ms (rc_timeout_ms c) scoped_name with
      | Err e => Err e
      | Ok timeout =>
          match match rc_when_regex c with
                | Some pattern => match regex_new scoped_name pattern with Ok re => Ok (Some re) | Err e => Err e end
                | None => Ok None
                end with
          | Err e => Err e
          | Ok guard =>
              match compile_replacements scoped_name (rc_replacements c) with
              | Err e => Err e
              | Ok reps =>
                  Ok (mkRule scoped_name (rc_points c) (default FailOpen (rc_failure_mode c)) timeout guard
                        (rc_reject_reason c) reps (rc_prepend c) (rc_append c),
                      default DEFAULT_RULE_PRIORITY (rc_priority c))
              end
          end
      end
  end.

Definition rule_execute (h : RuleHook) (event : HookEvent) : Result HookError HookOutcome :=
  let content := extract_content json_to_string event in
  if match when_regex h with Some guard => negb (is_match guard content) | None => false end then Ok outcome_ok
  else
    match reject_reason h with
    | Some reason => Ok (outcome_reject reason)
    | None =>
        let modified := foldl (fun m '(re, replacement) => replace_all re m replacement) content (replacements h) in
        let modified := match prepend h with Some prefix => prefix +:+ modified | None => modified end in
        let modified := match append h with Some suffix => modified +:+ suffix | None => modified end in
        if negb (modified =? content)%string then Ok (outcome_modify modified) else Ok outcome_ok
    end.

Definition rule_hook (h : RuleHook) : Hook :=
  mkHook (rh_name h) (rh_points h) (rh_failure_mode h) (rh_timeout h) (rule_execute h).

(** [AuditLogHook]: it only logs. *)
Definition audit_log_hook : Hook := mkHook "builtin.audit_log" ALL_HOOK_POINTS FailOpen 5000 (fun _ => Ok outcome_ok).

Definition validate_webhook_url (hook_name url : string) : Result HookBundleError Url :=
  match url_parse url with
  | Err _ => Err (InvalidWebhookUrl hook_name url)
  | Ok parsed =>
      if negb (u_scheme parsed =? "https")%string then Err (InvalidWebhookScheme hook_name (u_scheme parsed))
      else if has_userinfo parsed then Err (InvalidWebhookUrl hook_name url)
      else
        match host_str parsed with
        | Some host =>
            let normalized_host := normalize_host host in
            if match ip_parse normalized_host with
               | Some ip => is_forbidden_ip ip
               | None => is_forbidden_webhook_host normalized_host
               end
            then Err (ForbiddenWebhookHost hook_name normalized_host)
            else Ok parsed
        | None => Ok parsed
        end
  end.

Fixpoint validate_webhook_headers (hook_name : string) (headers : list (string * string)) (validated : gmap string string)
    : Result HookBundleError (gmap string string) :=
  match headers with
  | [] => Ok validated
  | (name, value) :: headers =>
      match header_name_from name with
      | Err e => Err (InvalidWebhookHeader hook_name name e)
      | Ok header_name =>
          if is_forbidden_header header_name then Err (ForbiddenWebhookHeader hook_name name)
          else match header_value_from value with
               | Err e => Err (InvalidWebhookHeader hook_name name e)
               | Ok header_value => validate_webhook_headers hook_name headers (<[header_name := header_value]> validated)
               end
      end
  end.

Definition webhook_from_config (source : string) (c : OutboundWebhookConfig) : Result HookBundleError (OutboundWebhookHook * Z) :=
  let scoped_name := cat [source; "::"; wc_name c] in
  match wc_points c with
  | [] => Err (MissingHookPoints scoped_name)
  | _ =>
      match validate_webhook_url scoped_name (wc_url c) with
      | Err e => Err e
      | Ok url =>
          match validate_webhook_headers scoped_name (wc_headers c) ∅ with
          | Err e => Err e
          | Ok headers =>
              match timeout_from_ms (Some (default DEFAULT_WEBHOOK_TIMEOUT_MS (wc_timeout_ms c))) scoped_name with
              | Err e => Err e
              | Ok timeout =>
                  let max_in_flight := default DEFAULT_WEBHOOK_MAX_IN_FLIGHT (wc_max_in_flight c) in
                  if (max_in_flight =? 0)%nat then Err (InvalidWebhookMaxInFlight scoped_name)
                  else Ok (mkWebhook scoped_name (wc_points c) url headers timeout max_in_flight,
                           default DEFAULT_WEBHOOK_PRIORITY (wc_priority c))
              end
          end
      end
  end.

(** A webhook always lets the event pass; the delivery runs on its own. *)
Definition webhook_hook (h : OutboundWebhookHook) : Hook :=
  mkHook (wh_name h) (wh_points h) FailOpen (wh_timeout h) (fun _ => Ok outcome_ok).

(** The addresses a delivery may connect to; [n] numbers the lookups. *)
Definition dispatch_client_for_target (n : nat) (parsed : Url) : Result string (list IpAddr) :=
  match host_str parsed with
  | None => Err "Webhook URL has no host"
  | Some host =>
      let normalized_host := normalize_host host in
      match ip_parse normalized_host with
      | Some ip => if is_forbidden_ip ip then Err ("Webhook target resolves to blocked IP " +:+ ip_display ip) else Ok [ip]
      | None =>
          match u_port_or_known_default parsed with
          | None => Err "Webhook URL has no valid port"
          | Some port =>
              match lookup_host_port n normalized_host port with
              | Err e => Err ("DNS resolution failed: " +:+ e)
              | Ok [] => Err "DNS resolution returned no addresses"
              | Ok addrs =>
                  match first_blocked is_forbidden_ip addrs with
                  | Some ip => Err ("Webhook target resolves to blocked IP " +:+ ip_display ip)
                  | None => Ok (sa_ip <$> addrs)
                  end
              end
          end
      end
  end.

(** *** Registration *)

Definition register_bundled_hooks (r : HookRegistry) : HookRegistry * HookRegistrationSummary :=
  (register_with_priority audit_log_hook 25 r, mkSummary 1 0 0).

Definition register_rule (source : string) (acc : HookRegistry * HookRegistrationSummary) (c : HookRuleConfig)
    : HookRegistry * HookRegistrationSummary :=
  match rule_from_config source c with
  | Ok (hook, priority) =>
      (register_with_priority (rule_hook hook) priority acc.1, mkSummary (S (sum_hooks acc.2)) (sum_webhooks acc.2) (sum_errors acc.2))
  | Err _ => (acc.1, mkSummary (sum_hooks acc.2) (sum_webhooks acc.2) (S (sum_errors acc.2)))
  end.

Definition register_webhook (source : string) (acc : HookRegistry * HookRegistrationSummary) (c : OutboundWebhookConfig)
    : HookRegistry * HookRegistrationSummary :=
  match webhook_from_config source c with
  | Ok (hook, priority) =>
      (register_with_priority (webhook_hook hook) priority acc.1, mkSummary (sum_hooks acc.2) (S (sum_webhooks acc.2)) (sum_errors acc.2))
  | Err _ => (acc.1, mkSummary (sum_hooks acc.2) (sum_webhooks acc.2) (S (sum_errors acc.2)))
  end.

Definition register_bundle (source : string) (bundle : HookBundleConfig) (r : HookRegistry)
    : HookRegistry * HookRegistrationSummary :=
  let acc := foldl (register_rule source) (r, mkSummary 0 0 0) (rules bundle) in
  foldl (register_webhook source) acc (outbound_webhooks bundle).

End bundled.

(** ** The registry *)

Definition registry_ok (r : HookRegistry) : Prop :=
  NoDup (list_names r) ∧
  StronglySorted (fun a b => (Z.to_nat (he_priority a) ≤ Z.to_nat (he_priority b))%nat) (hooks r).

Definition others (name : string) (l : list HookEntry) : list HookEntry :=
  List.filter (fun e => negb (entry_name e =? name)%string) l.

Lemma others_absent name l : name ∉ entry_name <$> l → others name l = l.
Proof.
  unfold others. induction l as [|e l IH]; intros Hn; [done|]. cbn [fmap list_fmap] in Hn. apply not_elem_of_cons in Hn as [Hne Hn].
  cbn [List.filter]. destruct (String.eqb_spec (entry_name e) name) as [He|]; [by rewrite He in Hne|]. cbn [negb]. by rewrite IH.
Qed.

Lemma update_first_entry name x l :
  NoDup (entry_name <$> l) → entry_name x = name →
  match update_first (fun e => (entry_name e =? name)%string) (fun _ => x) l with
  | Some l' => l' ≡ₚ x :: others name l
  | None => others name l = l
  end.
Proof.
  intros Hnd Hx. induction l as [|e l IH]; [done|]. cbn [update_first]. cbn [fmap list_fmap] in Hnd.
  apply NoDup_cons in Hnd as [Hn Hnd]. unfold others. cbn [List.filter]. fold (others name l).
  destruct (String.eqb_spec (entry_name e) name) as [He|He]; cbn [negb].
  - rewrite He in Hn. by rewrite others_absent.
  - specialize (IH Hnd). destruct (update_first _ _ l) as [l'|]; cbn [fmap option_fmap option_map].
    + rewrite IH. apply perm_swap.
    + by rewrite IH.
Qed.

Lemma registered_entries h p r : NoDup (list_names r) →
  hooks (register_with_priority h p r) ≡ₚ mkEntry h p :: others (hook_name h) (hooks r).
Proof.
  intros Hnd. unfold register_with_priority. cbn [hooks]. rewrite sort_by_perm.
  pose proof (update_first_entry (hook_name h) (mkEntry h p) (hooks r) Hnd eq_refl) as Hu.
  destruct (update_first _ _ (hooks r)) as [l|]; [exact Hu|]. rewrite Hu. by rewrite Permutation_app_comm.
Qed.

Lemma others_names name l : NoDup (entry_name <$> l) →
  NoDup (entry_name <$> others name l) ∧ (name ∉ entry_name <$> others name l).
Proof.
  unfold others. induction l as [|e l IH]; intros Hnd; [split; [done|apply not_elem_of_nil]|]. cbn [fmap list_fmap] in Hnd.
  apply NoDup_cons in Hnd as [Hn Hnd]. destruct (IH Hnd) as [H1 H2]. cbn [List.filter].
  destruct (String.eqb_spec (entry_name e) name) as [He|He]; cbn [negb]; [done|]. cbn [fmap list_fmap].
  rewrite NoDup_cons, not_elem_of_cons. split; [|done]. split; [|done].
  intros (x & Hx & Hin)%list_elem_of_fmap. apply Hn. rewrite Hx. apply list_elem_of_fmap_2.
  apply list_elem_of_In in Hin. apply filter_In in Hin as [Hin _]. by apply list_elem_of_In.
Qed.

Lemma register_ok h p r : registry_ok r → registry_ok (register_with_priority h p r).
Proof.
  intros [Hnd Hs]. split; [|apply sort_by_sorted]. unfold list_names. rewrite registered_entries by done.
  cbn [fmap list_fmap]. destruct (others_names (hook_name h) (hooks r) Hnd) as [H1 H2]. by constructor.
Qed.

Lemma filter_sorted {A} (R : A → A → Prop) f l : StronglySorted R l → StronglySorted R (List.filter f l).
Proof.
  induction 1 as [|x l Hl IH Hx]; [constructor|]. cbn [List.filter]. destruct (f x); [|done]. constructor; [done|].
  rewrite Forall_forall in *. intros y Hy. apply Hx. apply list_elem_of_In in Hy. apply filter_In in Hy as [Hy _].
  by apply list_elem_of_In.
Qed.

Lemma unregister_ok name r : registry_ok r → registry_ok (unregister name r).2.
Proof.
  intros [Hnd Hs]. split; [apply (others_names name (hooks r) Hnd)|]. by apply filter_sorted.
Qed.

Inductive registry_step : HookRegistry -> HookRegistry -> Prop :=
| rs_register r h p : registry_step r (register_with_priority h p r)
| rs_unregister r name : registry_step r (unregister name r).2.

(** However hooks are registered, replaced and removed, every name is held by one hook and the
    hooks are in the order of their priorities; registering puts exactly the given hook
    under its name and leaves the others alone, and removing reports whether there
    was one. *)
Theorem registry_invariant r :
  rtc registry_step registry_new r →
  registry_ok r ∧
  (∀ h p, hooks (register_with_priority h p r) ≡ₚ mkEntry h p :: others (hook_name h) (hooks r)) ∧
  (∀ name, (unregister name r).1 = bool_decide (name ∈ list_names r) ∧ (name ∉ list_names (unregister name r).2)).
Proof.
  intros Hr. assert (registry_ok r) as Hok.
  { assert (registry_ok registry_new) as H0 by (split; constructor). revert H0. clear -Hr.
    induction Hr as [|a b c Hs _ IH]; [done|]. intros Ha. apply IH. destruct Hs; [by apply register_ok|by apply unregister_ok]. }
  split; [done|]. destruct Hok as [Hnd Hs]. split; [intros h p; by apply registered_entries|].
  intros name. split; [|apply (others_names name (hooks r) Hnd)]. unfold unregister. cbn [fst].
  fold (others name (hooks r)). case_bool_decide as Hin.
  - apply Nat.ltb_lt. apply list_elem_of_fmap in Hin as (e & He & Hin). clear -He Hin. unfold others.
    assert (∀ l : list HookEntry, (length (List.filter (fun e => negb (entry_name e =? name)%string) l) ≤ length l)%nat) as Hle.
    { induction l as [|x l IH]; [done|]. cbn [List.filter length]. case_match; cbn [length]; lia. }
    induction (hooks r) as [|x l IH]; [by apply not_elem_of_nil in Hin|]. cbn [List.filter length].
    apply elem_of_cons in Hin as [Hx|Hin].
    + assert ((entry_name x =? name)%string = true) as -> by (apply String.eqb_eq; congruence). cbn [negb].
      specialize (Hle l). lia.
    + specialize (IH Hin). case_match; cbn [length]; lia.
  - rewrite others_absent by done. apply Nat.ltb_irrefl.
Qed.

Lemma registry_invariant_witness :
  let h n := mkHook n [BeforeInbound] FailOpen 5000 (fun _ => Ok outcome_ok) in
  let r := register_with_priority (h "a") 5 (register (h "b") registry_new) in
  registry_ok r ∧ list_names r = ["a"; "b"].
Proof.
  intros h r. split; [|reflexivity]. apply (registry_invariant r). subst r.
  eapply rtc_l; [apply rs_register|]. eapply rtc_l; [apply rs_register|]. apply rtc_refl.
Defined.

(** ** The chain *)

Section chain_facts.
  Variable json_from_str : string -> Result string Json.
  Variable json_to_string : Json -> string.
  Variable elapsed : Hook -> HookEvent -> bool.
  Variable hook_error_text : HookError -> string.

Abbreviation run_hook := (run_hook json_from_str elapsed hook_error_text).
Abbreviation run_chain := (run_chain json_from_str elapsed hook_error_text).
Abbreviation run := (run json_from_str json_to_string elapsed hook_error_text).

(** The same message, call or session: only the content may differ. *)
Definition same_subject (a b : HookEvent) : Prop :=
  match a, b with
  | Inbound u c _ t, Inbound u' c' _ t' => u = u' ∧ c = c' ∧ t = t'
  | Outbound u c _ t, Outbound u' c' _ t' => u = u' ∧ c = c' ∧ t = t'
  | ToolCall n _ u c, ToolCall n' _ u' c' => n = n' ∧ u = u' ∧ c = c'
  | SessionStart u s, SessionStart u' s' => u = u' ∧ s = s'
  | SessionEnd u s, SessionEnd u' s' => u = u' ∧ s = s'
  | ResponseTransform u t _, ResponseTransform u' t' _ => u = u' ∧ t = t'
  | _, _ => False
  end.

#[local] Instance same_subject_preorder : PreOrder same_subject.
Proof.
  split; [intros []; cbn; done|]. intros [] [] []; cbn; intuition congruence.
Qed.

Lemma run_hook_subject h a b : run_hook h a = Ok b → same_subject a b.
Proof.
  unfold Hooks.run_hook. destruct (elapsed h a).
  - destruct (failure_mode h); [|done]. intros [= <-]. reflexivity.
  - destruct (hook_execute h a) as [[[v|]|]|err]; [|intros [= <-]; reflexivity|done|].
    + intros [= <-]. destruct a; cbn; try done. by destruct (json_from_str v).
    + destruct (failure_mode h); [|done]. intros [= <-]. reflexivity.
Qed.

Lemma run_chain_subject hs a b : run_chain hs a = Ok b → same_subject a b.
Proof.
  revert a. induction hs as [|h hs IH]; intros a; cbn; [intros [= <-]; reflexivity|].
  destruct (run_hook h a) as [c|] eqn:Hh; [|done]. intros Hc. etrans; [by eapply run_hook_subject|by apply IH].
Qed.

Lemma run_chain_app pre post a :
  run_chain (pre ++ post) a = match run_chain pre a with Ok b => run_chain post b | Err e => Err e end.
Proof. revert a. induction pre as [|h pre IH]; intros a; cbn; [done|]. by destruct (run_hook h a). Qed.

Lemma run_chain_stops hs a e : run_chain hs a = Err e ↔
  ∃ pre h post b, hs = pre ++ h :: post ∧ run_chain pre a = Ok b ∧ run_hook h b = Err e.
Proof.
  split.
  - revert a. induction hs as [|h hs IH]; intros a; cbn; [done|].
    destruct (run_hook h a) as [b|] eqn:Hh.
    + intros (pre & h' & post & c & -> & Hp & Hr)%IH. exists (h :: pre), h', post, c. split; [done|]. cbn. by rewrite Hh.
    + intros [= <-]. by exists [], h, hs, a.
  - intros (pre & h & post & b & -> & Hp & Hr). rewrite run_chain_app, Hp. cbn. by rewrite Hr.
Qed.

(** Why a hook stops the chain. *)
Definition blocks (h : Hook) (ev : HookEvent) (e : HookError) : Prop :=
  (elapsed h ev = false ∧ ∃ reason, hook_execute h ev = Ok (Reject reason) ∧ e = Rejected reason) ∨
  (failure_mode h = FailClosed ∧ elapsed h ev = false ∧
     ∃ err, hook_execute h ev = Err err ∧ e = ExecutionFailed (cat ["Hook '"; hook_name h; "' failed: "; hook_error_text err])) ∨
  (failure_mode h = FailClosed ∧ elapsed h ev = true ∧ e = HookTimeout (hook_timeout h)).

Lemma run_hook_blocks h ev e : run_hook h ev = Err e ↔ blocks h ev e.
Proof.
  unfold Hooks.run_hook, blocks. destruct (elapsed h ev).
  - destruct (failure_mode h); naive_solver.
  - destruct (hook_execute h ev) as [[[v|]|reason]|err]; [naive_solver|naive_solver|naive_solver|].
    destruct (failure_mode h); naive_solver.
Qed.

(** An event is stopped exactly by the first hook that blocks it: a rejection by any hook, or a
    failure or timeout of one that fails closed.  The hooks before it let the event pass
    to it, those behind it have no say, and a hook that fails open never stops
    an event by failing. *)
Theorem event_stopped_iff r ev e :
  run r ev = Err e ↔
  ∃ pre h post seen, matching_hooks r (hook_point ev) = pre ++ h :: post ∧ run_chain pre ev = Ok seen ∧
    same_subject ev seen ∧ blocks h seen e.
Proof.
  assert (run r ev = Err e ↔ run_chain (matching_hooks r (hook_point ev)) ev = Err e) as ->.
  { unfold Hooks.run. destruct (matching_hooks r (hook_point ev)) as [|h hs]; [done|].
    destruct (run_chain (h :: hs) ev) as [current|]; [|split; congruence]. cbv zeta. by destruct (negb _). }
  rewrite run_chain_stops. split.
  - intros (pre & h & post & b & Hm & Hp & Hr). exists pre, h, post, b. split; [done|]. split; [done|].
    split; [by eapply run_chain_subject|by apply run_hook_blocks].
  - intros (pre & h & post & b & Hm & Hp & _ & Hb). exists pre, h, post, b. split; [done|]. split; [done|].
    by apply run_hook_blocks.
Qed.

(** What hooks may change: the content of a message, a response or the parameters of a call.  A
    modification reported is the content the last hook left, different from the
    original; session events are never modified. *)
Theorem event_modified_content r ev o :
  run r ev = Ok o →
  (o = outcome_ok ∨
   ∃ final, run_chain (matching_hooks r (hook_point ev)) ev = Ok final ∧ same_subject ev final ∧
     o = outcome_modify (extract_content json_to_string final) ∧
     extract_content json_to_string final ≠ extract_content json_to_string ev) ∧
  (∀ u s, ev = SessionStart u s ∨ ev = SessionEnd u s → o = outcome_ok).
Proof.
  intros Hrun. assert (o = outcome_ok ∨
   ∃ final, run_chain (matching_hooks r (hook_point ev)) ev = Ok final ∧ same_subject ev final ∧
     o = outcome_modify (extract_content json_to_string final) ∧
     extract_content json_to_string final ≠ extract_content json_to_string ev) as Ho.
  { unfold Hooks.run in Hrun. destruct (matching_hooks r (hook_point ev)) as [|h hs]; [left; by injection Hrun as <-|].
    destruct (run_chain (h :: hs) ev) as [final|] eqn:Hc; [|done]. cbv zeta in Hrun.
    destruct (String.eqb_spec (extract_content json_to_string final) (extract_content json_to_string ev)) as [|Hne];
      cbn [negb] in Hrun; [left; by injection Hrun as <-|]. right. exists final. split; [done|].
    split; [by eapply run_chain_subject|]. split; [by injection Hrun as <-|done]. }
  split; [done|]. intros u s Hev. destruct Ho as [|(final & _ & Hs & _ & Hne)]; [done|]. exfalso. apply Hne.
  destruct Hev as [-> | ->]; destruct final; cbn in Hs |- *; naive_solver.
Qed.

End chain_facts.

(** ** Rules *)

Section rule_facts.
  Context `{RegexEngine} `{NetEnv}.
  Variable regex_error : string -> string.
  Variable replace_all : string -> string -> string -> string.
  Variable json_to_string : Json -> string.

(** A rule never fails.  It rejects exactly the events it has a reason for and its guard
    matches, and it leaves alone those its guard does not match; one that was accepted
    has a name in the scope of its source, at least one point, valid patterns and a
    timeout between one millisecond and thirty seconds. *)
Theorem rule_behaviour source c h p ev :
  rule_from_config regex_error source c = Ok (h, p) →
  (∃ o, rule_execute replace_all json_to_string h ev = Ok o ∧
    (∀ reason, o = Reject reason ↔
       reject_reason h = Some reason ∧ ∀ g, when_regex h = Some g → is_match g (extract_content json_to_string ev) = true) ∧
    (∀ g, when_regex h = Some g → is_match g (extract_content json_to_string ev) = false → o = outcome_ok)) ∧
  rh_name h = cat [source; "::"; rc_name c] ∧ rh_points h ≠ [] ∧
  (∀ g, when_regex h = Some g → regex_valid g = true) ∧
  (in_u64 (default 5000 (rc_timeout_ms c)) → 1 ≤ rh_timeout h ≤ MAX_HOOK_TIMEOUT_MS).
Proof.
  intros Hc. split.
  - unfold rule_execute. cbv zeta. set (content := extract_content json_to_string ev).
    destruct (when_regex h) as [g|]; [destruct (is_match g content) eqn:Hm; cbn [negb]|].
    + destruct (reject_reason h) as [reason|].
      { eexists. split; [done|]. split; [|intros ? [= <-] ?; congruence].
        intros x. split; [intros [= <-]; split; [done|by intros ? [= <-]]|by intros [[= ->] _]]. }
      case_match; eexists; (split; [done|]); (split; [intros x; split; [done|by intros [? _]]|intros ? [= <-] ?; congruence]).
    + eexists. split; [done|]. split; [|done]. intros reason. split; [done|].
      intros [_ Hg]. specialize (Hg g eq_refl). congruence.
    + destruct (reject_reason h) as [reason|].
      { eexists. split; [done|]. split; [|done]. intros x. split; [by intros [= <-]|by intros [[= ->] _]]. }
      case_match; eexists; (split; [done|]); (split; [intros x; split; [done|by intros [? _]]|done]).
  - unfold rule_from_config in Hc. cbv zeta in Hc. destruct (rc_points c) as [|pt pts] eqn:Hp; [done|].
    unfold timeout_from_ms in Hc.
    destruct (rc_timeout_ms c) as [ms|]; [destruct (_ || _) eqn:Ht; [done|]|].
    all: destruct (rc_when_regex c) as [pat|]; [unfold regex_new in Hc; destruct (regex_valid pat) eqn:Hv; [|done]|].
    all: destruct (compile_replacements _ _ _) as [reps|]; [|done]; injection Hc as <- _; cbn.
    all: split; [done|]; split; [done|]; split; [naive_solver|]; unfold in_u64, MAX_HOOK_TIMEOUT_MS in *; try lia.
    all: apply orb_false_iff in Ht as [H1%Z.eqb_neq H2%Z.ltb_ge]; lia.
Qed.

(** ** Targets of webhooks *)

Definition WEBHOOK_NETS : list Cidr :=
  LOCAL_NETS ++ [CGNAT; MULTICAST; BROADCAST; (mkV4 192 0 2 0, 24); (mkV4 198 51 100 0, 24); (mkV4 203 0 113 0, 24);
                 (mkV4 198 18 0 0, 15)].

#[local] Ltac Zify.zify_post_hook ::= Z.to_euclidean_division_equations.

Lemma in_benchmark a : v4_wf a → in_cidr a (mkV4 198 18 0 0, 15) = (oct0 a =? 198) && ((oct1 a =? 18) || (oct1 a =? 19)).
Proof.
  intros (H0' & H1' & H2' & H3'). unfold is_octet in *. unfold in_cidr, v4_num. cbn [fst snd oct0 oct1 oct2 oct3].
  change (2 ^ (32 - 15)) with 131072. apply eq_true_iff_eq.
  rewrite andb_true_iff, orb_true_iff, !Z.eqb_eq. lia.
Qed.

Lemma cgnat_range a : v4_wf a → is_cgnat a = (oct0 a =? 100) && ((64 <=? oct1 a) && (oct1 a <=? 127)).
Proof.
  intros Ha. unfold is_cgnat. rewrite land_192 by apply Ha. destruct Ha as (_ & H1' & _). unfold is_octet in *.
  apply eq_true_iff_eq. rewrite !andb_true_iff, !Z.eqb_eq, !Z.leb_le. lia.
Qed.

Lemma forbidden_v4_nets a : v4_wf a → is_forbidden_ipv4 a = in_any WEBHOOK_NETS a.
Proof.
  intros Ha. unfold WEBHOOK_NETS, in_any. rewrite existsb_app. fold (in_any LOCAL_NETS a). rewrite in_local by done.
  cbn [existsb]. rewrite in_cgnat, in_multicast, cgnat_range, !in_net24, in_benchmark by done.
  assert (in_cidr a BROADCAST = is_broadcast a) as -> by (apply in_net32; [done|repeat split; done]).
  unfold is_forbidden_ipv4, is_documentation.
  destruct (is_private a), (v4_is_loopback a), (is_link_local a), (is_broadcast a), (v4_is_unspecified a),
    (v4_is_multicast a); cbn [orb]; rewrite ?orb_true_r; try done.
  all: destruct ((oct0 a =? 192) && (oct1 a =? 0) && (oct2 a =? 2)), ((oct0 a =? 198) && (oct1 a =? 51) && (oct2 a =? 100)),
    ((oct0 a =? 203) && (oct1 a =? 0) && (oct2 a =? 113)); cbn [orb]; rewrite ?orb_true_r; try done.
  all: destruct ((oct0 a =? 100) && _); cbn [orb]; rewrite ?orb_false_r; done.
Qed.

(** A webhook is delivered only to addresses outside the networks listed, every
    internal one among them, whatever its name resolves to when it is delivered. *)
Theorem webhook_targets_external n u ips :
  resolver_wf → (∀ s ip, ip_parse s = Some ip → ip_wf ip) → dispatch_client_for_target n u = Ok ips →
  ips ≠ [] ∧ Forall (fun ip => internal ip = false ∧ ∀ a, ip = V4 a → in_any WEBHOOK_NETS a = false) ips.
Proof.
  intros [_ Hw] Hi. assert (∀ ip, ip_wf ip → is_forbidden_ip ip = false →
    internal ip = false ∧ ∀ a, ip = V4 a → in_any WEBHOOK_NETS a = false) as Hok.
  { assert (∀ a, v4_wf a → is_forbidden_ipv4 a = false → in_any (LOCAL_NETS ++ [CGNAT]) a = false) as H4.
    { intros a Ha. rewrite forbidden_v4_nets by done. unfold WEBHOOK_NETS, in_any. rewrite !existsb_app. cbn [existsb].
      rewrite !orb_false_iff. tauto. }
    intros ip Hwf Hf. destruct ip as [a|a].
    - split; [by apply H4|]. intros b [= <-]. by rewrite <-forbidden_v4_nets.
    - split; [|done]. unfold internal, normalize_ip. cbn in Hf. change (ipv6_mapped_ipv4 a) with (to_ipv4_mapped a) in Hf.
      destruct (to_ipv4_mapped a) as [m|] eqn:Hm; [apply H4; [by eapply mapped_wf|done]|].
      destruct (v6_is_loopback a), (v6_is_unspecified a), (is_unique_local a), (is_unicast_link_local a); done. }
  unfold dispatch_client_for_target. destruct (host_str u) as [host|]; [|done]. cbv zeta.
  destruct (ip_parse (normalize_host host)) as [ip|] eqn:Hip.
  - destruct (is_forbidden_ip ip) eqn:Hf; [done|]. intros [= <-]. split; [done|]. constructor; [|done]. eauto.
  - destruct (u_port_or_known_default u) as [port|]; [|done].
    destruct (lookup_host_port n _ port) as [[|a l]|] eqn:Hl; [done| |done].
    destruct (first_blocked is_forbidden_ip (a :: l)) eqn:Hb; [done|]. intros [= <-]. split; [done|].
    apply first_blocked_None in Hb. apply Hw in Hl. unfold addrs_wf in Hl.
    change (Forall (fun ip => internal ip = false ∧ ∀ b, ip = V4 b → in_any WEBHOOK_NETS b = false) (sa_ip <$> (a :: l))).
    apply Forall_fmap. rewrite Forall_forall in Hb, Hl |- *. intros x Hx. apply Hok; [by apply Hl|by apply Hb].
Qed.

End rule_facts.

(** ** Bundles *)

Section bundle_facts.
  Context `{RegexEngine} `{NetEnv}.
  Variable regex_error : string -> string.
  Variable replace_all : string -> string -> string -> string.
  Variable json_to_string : Json -> string.
  Variable header_name_from header_value_from : string -> Result string string.

Definition in_scope (source name : string) : bool := starts_with (source +:+ "::") name.

(** What a registration under a scope keeps of a registry. *)
Definition scoped (source : string) (r r' : HookRegistry) : Prop :=
  NoDup (list_names r') ∧
  (∀ e, e ∈ hooks r → in_scope source (entry_name e) = false → e ∈ hooks r') ∧
  (∀ e, e ∈ hooks r' → e ∈ hooks r ∨ in_scope source (entry_name e) = true).

Lemma scoped_register source r r' h p :
  scoped source r r' → in_scope source (hook_name h) = true → scoped source r (register_with_priority h p r').
Proof.
  intros (Hnd & Hk & Hn) Hs. pose proof (registered_entries h p r' Hnd) as Hp.
  split; [|split].
  - unfold list_names. rewrite Hp. cbn [fmap list_fmap]. destruct (others_names (hook_name h) (hooks r') Hnd). by constructor.
  - intros e He Hout. rewrite Hp. right. unfold others. apply list_elem_of_In, filter_In.
    split; [by apply list_elem_of_In, Hk|]. destruct (String.eqb_spec (entry_name e) (hook_name h)) as [Heq|]; [|done].
    rewrite Heq in Hout. congruence.
  - intros e. rewrite Hp. intros [->|He]%elem_of_cons; [by right|]. apply Hn. unfold others in He.
    apply list_elem_of_In in He. apply filter_In in He as [He _]. by apply list_elem_of_In.
Qed.

Lemma cat_scope source name : in_scope source (cat [source; "::"; name]) = true.
Proof. apply starts_with_iff. exists name. by rewrite !cat_cons, append_nil_r, append_assoc. Qed.

Lemma register_rule_scoped source r acc c :
  scoped source r acc.1 → scoped source r (register_rule regex_error replace_all json_to_string source acc c).1.
Proof.
  intros Hs. unfold register_rule. destruct (rule_from_config regex_error source c) as [[h p]|] eqn:Hc; [|done].
  apply scoped_register; [done|]. unfold rule_from_config in Hc. repeat case_match; simplify_eq; apply cat_scope.
Qed.

Lemma register_webhook_scoped source r acc c :
  scoped source r acc.1 → scoped source r (register_webhook header_name_from header_value_from source acc c).1.
Proof.
  intros Hs. unfold register_webhook. destruct (webhook_from_config _ _ source c) as [[h p]|] eqn:Hc; [|done].
  apply scoped_register; [done|]. unfold webhook_from_config in Hc. repeat case_match; simplify_eq; apply cat_scope.
Qed.

Definition summary_total (s : HookRegistrationSummary) : nat := (total_registered s + sum_errors s)%nat.

Lemma register_rule_total source acc c :
  summary_total (register_rule regex_error replace_all json_to_string source acc c).2 = S (summary_total acc.2).
Proof. unfold register_rule, summary_total, total_registered. repeat case_match; cbn; lia. Qed.

Lemma register_webhook_total source acc c :
  summary_total (register_webhook header_name_from header_value_from source acc c).2 = S (summary_total acc.2).
Proof. unfold register_webhook, summary_total, total_registered. repeat case_match; cbn; lia. Qed.

(** A bundle of hooks can neither remove nor replace a hook of another source, the built-in
    audit trail among them: every entry outside its scope stays as it is, everything new is
    named in its scope, and the summary accounts for each rule and each webhook
    once. *)
Theorem bundle_stays_in_scope source bundle r :
  NoDup (list_names r) →
  let '(r', s) := register_bundle regex_error replace_all json_to_string header_name_from header_value_from source bundle r in
  scoped source r r' ∧
  (total_registered s + sum_errors s = length (rules bundle) + length (outbound_webhooks bundle))%nat.
Proof.
  intros Hnd. unfold register_bundle. cbv zeta.
  set (acc := foldl (register_rule _ _ _ source) _ (rules bundle)).
  assert (scoped source r acc.1 ∧ summary_total acc.2 = length (rules bundle)) as [Hs Ht].
  { assert (∀ l a, scoped source r a.1 → let b := foldl (register_rule regex_error replace_all json_to_string source) a l in
      scoped source r b.1 ∧ summary_total b.2 = (summary_total a.2 + length l)%nat) as Hl.
    { induction l as [|c l IH]; intros a Ha; cbn [foldl length]; [by rewrite Nat.add_0_r|].
      destruct (IH (register_rule regex_error replace_all json_to_string source a c)) as [H1 H2]; [by apply register_rule_scoped|].
      split; [done|]. rewrite H2, register_rule_total. lia. }
    apply (Hl (rules bundle) (r, mkSummary 0 0 0)). cbn. split; [done|]. naive_solver. }
  clearbody acc.
  assert (∀ l a, scoped source r a.1 → let b := foldl (register_webhook header_name_from header_value_from source) a l in
      scoped source r b.1 ∧ summary_total b.2 = (summary_total a.2 + length l)%nat) as Hl.
  { induction l as [|c l IH]; intros a Ha; cbn [foldl length]; [by rewrite Nat.add_0_r|].
    destruct (IH (register_webhook header_name_from header_value_from source a c)) as [H1 H2]; [by apply register_webhook_scoped|].
    split; [done|]. rewrite H2, register_webhook_total. lia. }
  specialize (Hl (outbound_webhooks bundle) acc Hs). cbv zeta in Hl.
  destruct (foldl _ acc _) as [r' s]. cbn in Hl. destruct Hl as [H1 H2]. split; [done|].
  unfold summary_total in H2 at 1. rewrite Ht in H2. exact H2.
Qed.

(** No header that names the host, the sender or the connection, or carries an authorization, can be
    set by a webhook. *)
Theorem webhook_headers_allowed name headers hs :
  validate_webhook_headers header_name_from header_value_from name headers ∅ = Ok hs →
  map_Forall (fun k _ => is_forbidden_header k = false) hs.
Proof.
  assert (∀ l acc, map_Forall (fun k _ => is_forbidden_header k = false) acc →
    validate_webhook_headers header_name_from header_value_from name l acc = Ok hs →
    map_Forall (fun k _ => is_forbidden_header k = false) hs) as Hl; [|by apply Hl, map_Forall_empty].
  induction l as [|[k v] l IH]; intros acc Ha; cbn; [by intros [= <-]|].
  destruct (header_name_from k) as [hn|]; [|done]. destruct (is_forbidden_header hn) eqn:Hf; [done|].
  destruct (header_value_from v) as [hv|]; [|done]. intros Hv. eapply IH; [|exact Hv]. by apply map_Forall_insert_2.
Qed.

End bundle_facts.

(** ** Witnesses *)

Definition demo_engine : RegexEngine :=
  {| regex_valid := fun _ => true; is_match := fun re s => contains re s; find_iter := fun _ _ => []; capture1 := fun _ _ => None |}.

Definition demo_rule : HookRuleConfig :=
  mkRuleConfig "no-secrets" [BeforeOutbound] None None None (Some "secret") (Some "blocked") [] None None.

Lemma event_modified_content_witness :
  let h := mkHook "tag" [BeforeOutbound] FailOpen 5000 (fun _ => Ok (outcome_modify "hi!")) in
  let r := register h registry_new in
  run (fun _ => Err "") (fun _ => "") (fun _ _ => false) (fun _ => "") r (Outbound "u" "web" "hi" None) = Ok (outcome_modify "hi!") ∧
  (outcome_modify "hi!" = outcome_ok ∨
   ∃ final, same_subject (Outbound "u" "web" "hi" None) final).
Proof.
  intros h r. split; [reflexivity|].
  destruct (event_modified_content (fun _ => Err "") (fun _ => "") (fun _ _ => false) (fun _ => "") r
    (Outbound "u" "web" "hi" None) (outcome_modify "hi!") eq_refl) as [[He|(final & _ & Hs & _)] _]; [by left|right; by exists final].
Defined.

Lemma rule_behaviour_witness :
  let _ := demo_engine in
  let h := mkRule "workspace::no-secrets" [BeforeOutbound] FailOpen 5000 (Some "secret") (Some "blocked") [] None None in
  ∃ o, rule_execute (fun _ s _ => s) (fun _ => "") h (Outbound "u" "web" "a secret" None) = Ok o ∧ o = Reject "blocked".
Proof.
  intros e h. destruct (@rule_behaviour demo_engine (fun _ => "") (fun _ s _ => s) (fun _ => "") "workspace" demo_rule h 100
    (Outbound "u" "web" "a secret" None) eq_refl) as [(o & Ho & Hr & _) _].
  exists o. split; [exact Ho|]. apply Hr. split; [reflexivity|]. by intros g [= <-].
Defined.

Lemma webhook_targets_external_witness :
  @dispatch_client_for_target demo_net 0 (demo_url (Domain "public.example")) = Ok [V4 (mkV4 93 184 216 34)] ∧
  [V4 (mkV4 93 184 216 34)] ≠ [].
Proof.
  split; [reflexivity|].
  apply (@webhook_targets_external demo_net 0 (demo_url (Domain "public.example")) [V4 (mkV4 93 184 216 34)] demo_resolver_wf);
    [done|reflexivity].
Defined.

Lemma bundle_stays_in_scope_witness :
  let _ := demo_engine in let _ := demo_net in
  let r := (register_bundled_hooks registry_new).1 in
  let '(r', s) := register_bundle (fun _ => "") (fun _ s _ => s) (fun _ => "") (fun s => Ok s) (fun s => Ok s) "workspace"
                    (mkBundle [demo_rule] []) r in
  scoped "workspace" r r' ∧ list_names r' = ["builtin.audit_log"; "workspace::no-secrets"].
Proof.
  intros e m r.
  pose proof (@bundle_stays_in_scope demo_engine demo_net (fun _ => "") (fun _ s _ => s) (fun _ => "") (fun s => Ok s) (fun s => Ok s)
    "workspace" (mkBundle [demo_rule] []) r) as Hb.
  destruct (register_bundle _ _ _ _ _ "workspace" (mkBundle [demo_rule] []) r) as [r' s] eqn:Hr.
  split; [apply Hb; repeat constructor; set_solver|].
  vm_compute in Hr. injection Hr as <- _. reflexivity.
Defined.

Lemma webhook_headers_allowed_witness :
  validate_webhook_headers (fun s => Ok s) (fun s => Ok s) "h" [("x-source", "agent")] ∅ = Ok {["x-source" := "agent"]} ∧
  map_Forall (fun k _ => is_forbidden_header k = false) ({["x-source" := "agent"]} : gmap string string).
Proof.
  split; [reflexivity|].
  apply (webhook_headers_allowed (fun s => Ok s) (fun s => Ok s) "h" [("x-source", "agent")]). reflexivity.
Defined.
