(* ===== verification/WorkspaceSearch.v ===== *)
(** * WorkspaceSearch: chunks of documents and the fusion of search results

    [src/workspace/chunker.rs] and [src/workspace/search.rs].  The iteration order of the
    hash map that collects the results is a parameter. *)

From Stdlib Require Import Ascii SpecFloat.
From S2P Require Import Prelude Text TextSearch F64.

(** ** Chunks *)

Record ChunkConfig : Type := mkChunkConfig {
  chunk_size : Z;
  overlap_percent : f32;
  min_chunk_size : Z
}.

Definition chunk_default : ChunkConfig := mkChunkConfig 800 (f32_ratio 15 100) 50.

Definition with_chunk_size (size : Z) (c : ChunkConfig) : ChunkConfig :=
  mkChunkConfig size (overlap_percent c) (min_chunk_size c).
Definition with_overlap (percent : f32) (c : ChunkConfig) : ChunkConfig :=
  mkChunkConfig (chunk_size c) (f64_clamp (f32_of_Z 0) (f32_ratio 1 2) percent) (min_chunk_size c).

Definition overlap_size (c : ChunkConfig) : Z := f64_to_usize (f32_mul (f32_of_Z (chunk_size c)) (overlap_percent c)).
Definition step_size (c : ChunkConfig) : Z := saturating_sub (chunk_size c) (overlap_size c).

(** [words[start..end]] *)
Definition word_slice (ws : list string) (s e : nat) : list string := take (e - s) (drop s ws).

(** The loop.  [chunks] is what has been pushed, the last one first; [None] is a loop that has
    not returned within the fuel. *)
Fixpoint chunk_loop (fuel : nat) (size step min_size : nat) (ws : list string) (start : nat) (chunks : list string)
    : option (list string) :=
  match fuel with
  | O => None
  | S fuel =>
      if (start <? length ws)%nat then
        let e := min (start + size) (length ws) in
        let chunk_words := word_slice ws start e in
        match (if (length chunk_words <? min_size)%nat then chunks else []) with
        | last :: rest => Some (rev (cat [last; " "; str_join " " chunk_words] :: rest))
        | [] =>
            let chunks := str_join " " chunk_words :: chunks in
            let start := start + step in
            if (length ws <=? start + min_size)%nat && (e =? length ws)%nat then Some (rev chunks)
            else chunk_loop fuel size step min_size ws start chunks
        end
      else Some (rev chunks)
  end.

Definition chunk_document (fuel : nat) (content : string) (c : ChunkConfig) : option (list string) :=
  if str_is_empty content then Some []
  else
    match split_whitespace content with
    | [] => Some []
    | ws =>
        if (Z.of_nat (length ws) <=? chunk_size c)%Z then Some [content]
        else chunk_loop fuel (Z.to_nat (chunk_size c)) (Z.to_nat (step_size c)) (Z.to_nat (min_chunk_size c)) ws 0 []
    end.

(** ** Fusion *)

Inductive FusionStrategy : Type := Rrf | WeightedScore.

Record SearchConfig : Type := mkSearchConfig {
  limit : nat;
  rrf_k : Z;
  use_fts : bool;
  use_vector : bool;
  min_score : f32;
  pre_fusion_limit : nat;
  fusion_strategy : FusionStrategy;
  fts_weight : f32;
  vector_weight : f32
}.

Definition search_default : SearchConfig :=
  mkSearchConfig 10 60 true true (f32_of_Z 0) 50 Rrf (f32_ratio 1 2) (f32_ratio 1 2).

Definition with_min_score (s : f32) (c : SearchConfig) : SearchConfig :=
  mkSearchConfig (limit c) (rrf_k c) (use_fts c) (use_vector c) (f64_clamp (f32_of_Z 0) (f32_of_Z 1) s)
    (pre_fusion_limit c) (fusion_strategy c) (fts_weight c) (vector_weight c).

(** [weight.is_finite() && weight >= 0.0] *)
Definition weight_ok (w : f32) : bool := f64_is_finite w && SFleb (f32_of_Z 0) w.

Definition with_fts_weight (w : f32) (c : SearchConfig) : SearchConfig :=
  mkSearchConfig (limit c) (rrf_k c) (use_fts c) (use_vector c) (min_score c) (pre_fusion_limit c) (fusion_strategy c)
    (if weight_ok w then w else fts_weight c) (vector_weight c).
Definition with_vector_weight (w : f32) (c : SearchConfig) : SearchConfig :=
  mkSearchConfig (limit c) (rrf_k c) (use_fts c) (use_vector c) (min_score c) (pre_fusion_limit c) (fusion_strategy c)
    (fts_weight c) (if weight_ok w then w else vector_weight c).

Record RankedResult : Type := mkRanked {
  rr_chunk_id : Uuid;
  rr_document_id : Uuid;
  rr_document_path : string;
  rr_content : string;
  rr_rank : Z
}.

Record ChunkInfo : Type := mkInfo {
  ci_document_id : Uuid;
  ci_document_path : string;
  ci_content : string;
  ci_score : f32;
  ci_fts_rank : option Z;
  ci_vector_rank : option Z
}.

Record SearchResult : Type := mkResult {
  sr_document_id : Uuid;
  sr_document_path : string;
  sr_chunk_id : Uuid;
  sr_content : string;
  score : f32;
  fts_rank : option Z;
  vector_rank : option Z
}.

Definition is_hybrid (r : SearchResult) : bool :=
  match fts_rank r, vector_rank r with Some _, Some _ => true | _, _ => false end.

Definition add_fts (sc : RankedResult -> f32) (m : gmap Uuid ChunkInfo) (r : RankedResult) : gmap Uuid ChunkInfo :=
  <[rr_chunk_id r :=
      match m !! rr_chunk_id r with
      | Some i => mkInfo (ci_document_id i) (ci_document_path i) (ci_content i) (f32_add (ci_score i) (sc r))
                    (Some (rr_rank r)) (ci_vector_rank i)
      | None => mkInfo (rr_document_id r) (rr_document_path r) (rr_content r) (sc r) (Some (rr_rank r)) None
      end]> m.

Definition add_vector (sc : RankedResult -> f32) (m : gmap Uuid ChunkInfo) (r : RankedResult) : gmap Uuid ChunkInfo :=
  <[rr_chunk_id r :=
      match m !! rr_chunk_id r with
      | Some i => mkInfo (ci_document_id i) (ci_document_path i) (ci_content i) (f32_add (ci_score i) (sc r))
                    (ci_fts_rank i) (Some (rr_rank r))
      | None => mkInfo (rr_document_id r) (rr_document_path r) (rr_content r) (sc r) None (Some (rr_rank r))
      end]> m.

Definition chunk_scores (fts_sc vec_sc : RankedResult -> f32) (fts vec : list RankedResult) : gmap Uuid ChunkInfo :=
  foldl (add_vector vec_sc) (foldl (add_fts fts_sc) ∅ fts) vec.

(** [f32::max]: the other one, when one is no number. *)
Definition f32_max (a b : f32) : f32 :=
  match a, b with S754_nan, _ => b | _, S754_nan => a | _, _ => if SFltb a b then b else a end.

Definition reduce_max (l : list f32) : option f32 :=
  match l with [] => None | x :: l => Some (foldl f32_max x l) end.

Definition set_score (s : f32) (r : SearchResult) : SearchResult :=
  mkResult (sr_document_id r) (sr_document_path r) (sr_chunk_id r) (sr_content r) s (fts_rank r) (vector_rank r).

Definition normalize_scores (l : list SearchResult) : list SearchResult :=
  match reduce_max (score <$> l) with
  | Some max_score =>
      if SFltb (f32_of_Z 0) max_score then (fun r => set_score (f32_div (score r) max_score) r) <$> l else l
  | None => l
  end.

(** The stable sort by descending score; scores that do not compare count as equal. *)
Fixpoint insert_desc (x : SearchResult) (l : list SearchResult) : list SearchResult :=
  match l with
  | [] => [x]
  | y :: l' => if SFltb (score y) (score x) then x :: l else y :: insert_desc x l'
  end.

Definition sort_desc (l : list SearchResult) : list SearchResult := foldl (fun acc x => insert_desc x acc) [] l.

Section fusion.
  Variable iter_map : gmap Uuid ChunkInfo -> list (Uuid * ChunkInfo).

Definition to_result (e : Uuid * ChunkInfo) : SearchResult :=
  let i := e.2 in
  mkResult (ci_document_id i) (ci_document_path i) e.1 (ci_content i) (ci_score i) (ci_fts_rank i) (ci_vector_rank i).

(** What both strategies do with the collected scores. *)
Definition finish (m : gmap Uuid ChunkInfo) (c : SearchConfig) : list SearchResult :=
  let results := normalize_scores (to_result <$> iter_map m) in
  let results := if SFltb (f32_of_Z 0) (min_score c)
                 then List.filter (fun r => SFleb (min_score c) (score r)) results else results in
  take (limit c) (sort_desc results).

Definition reciprocal_rank_fusion (fts vec : list RankedResult) (c : SearchConfig) : list SearchResult :=
  let rrf r := f32_div (f32_of_Z 1) (f32_add (f32_of_Z (rrf_k c)) (f32_of_Z (rr_rank r))) in
  finish (chunk_scores rrf rrf fts vec) c.

Definition weighted_score_fusion (fts vec : list RankedResult) (c : SearchConfig) : list SearchResult :=
  let weighted w r := f32_mul w (f32_div (f32_of_Z 1) (f32_of_Z (rr_rank r))) in
  finish (chunk_scores (weighted (fts_weight c)) (weighted (vector_weight c)) fts vec) c.

Definition fuse_results (fts vec : list RankedResult) (c : SearchConfig) : list SearchResult :=
  match fusion_strategy c with
  | Rrf => reciprocal_rank_fusion fts vec c
  | WeightedScore => weighted_score_fusion fts vec c
  end.

End fusion.

(** ** What the chunks hold *)

Lemma str_join_cons x y l : str_join " " (x :: y :: l) = x +:+ (" " +:+ str_join " " (y :: l)).
Proof. done. Qed.

Lemma str_join_app a b : a ≠ [] → b ≠ [] → str_join " " (a ++ b) = cat [str_join " " a; " "; str_join " " b].
Proof.
  intros Ha Hb. rewrite !cat_cons, append_nil_r. induction a as [|x a IH]; [done|].
  destruct a as [|y a].
  - destruct b as [|z b]; [done|]. done.
  - change ((x :: y :: a) ++ b) with (x :: y :: (a ++ b)). rewrite !str_join_cons.
    change (y :: a ++ b) with ((y :: a) ++ b). rewrite IH by done. by rewrite !append_assoc.
Qed.

Section chunks.
  Variable ws : list string.
  Variable size step min_size : nat.
  Hypothesis Hstep : 0 < step ≤ size.
  Hypothesis Hmin : min_size ≤ size.

(** A segment of at most [n] words, all of them of the document. *)
Definition segment (n : nat) (s : list string) : Prop := s ≠ [] ∧ length s ≤ n ∧ ∀ w, w ∈ s → w ∈ ws.

Definition covered_up_to (n : nat) (segs : list (list string)) : Prop :=
  ∀ i w, i < n → ws !! i = Some w → ∃ s, s ∈ segs ∧ w ∈ s.

Lemma word_slice_in s e w : w ∈ word_slice ws s e → w ∈ ws.
Proof.
  unfold word_slice. intros [i Hi]%list_elem_of_lookup.
  apply lookup_take_Some in Hi as [Hi _]. rewrite lookup_drop in Hi. by eapply list_elem_of_lookup_2.
Qed.

Lemma word_slice_covers s e i w : s ≤ i < e → ws !! i = Some w → w ∈ word_slice ws s e.
Proof.
  intros Hi Hw. unfold word_slice. apply (list_elem_of_lookup_2 _ (i - s)). apply lookup_take_Some.
  rewrite lookup_drop. split; [|lia]. by replace (s + (i - s)) with i by lia.
Qed.

Lemma word_slice_segment s e : s < e → e ≤ length ws → segment (e - s) (word_slice ws s e).
Proof.
  intros Hse He. assert (length (word_slice ws s e) = e - s) as Hl.
  { unfold word_slice. rewrite length_take, length_drop. lia. }
  split; [intros Hn; rewrite Hn in Hl; cbn in Hl; lia|]. split; [lia|]. apply word_slice_in.
Qed.

Lemma covered_push start e segs :
  covered_up_to start segs → covered_up_to e (word_slice ws start e :: segs).
Proof.
  intros Hc i w Hi Hw. destruct (decide (i < start)) as [Hlt|Hge].
  - destruct (Hc i w Hlt Hw) as (s & Hs & Hin). exists s. split; [by right|done].
  - exists (word_slice ws start e). split; [left|]. eapply word_slice_covers; [|done]. lia.
Qed.

Lemma segment_weaken n m s : n ≤ m → segment n s → segment m s.
Proof. unfold segment. intros ? (? & ? & ?). split; [done|]. split; [lia|done]. Qed.

Lemma fmap_rev {A B} (f : A -> B) l : rev (f <$> l) = f <$> rev l.
Proof. induction l as [|x l IH]; [done|]. cbn [fmap list_fmap rev]. by rewrite IH, fmap_app. Qed.

(** What the loop returns. *)
Definition chunked (out : list string) : Prop :=
  ∃ segs, out = str_join " " <$> segs ∧ Forall (segment (size + min_size)) segs ∧ covered_up_to (length ws) segs.

Lemma chunked_rev segs :
  Forall (segment (size + min_size)) segs → covered_up_to (length ws) segs → chunked (rev (str_join " " <$> segs)).
Proof.
  intros Hs Hc. exists (rev segs). split; [by rewrite fmap_rev|]. split; [by apply Forall_rev|].
  intros i w Hi Hw. destruct (Hc i w Hi Hw) as (s & Hin & Hws). exists s. split; [|done].
  apply list_elem_of_In, in_rev. rewrite rev_involutive. by apply list_elem_of_In.
Qed.

Lemma chunk_loop_spec fuel start segs :
  length ws - start < fuel → Forall (segment size) segs → covered_up_to (min start (length ws)) segs →
  ∃ out, chunk_loop fuel size step min_size ws start (str_join " " <$> segs) = Some out ∧ chunked out.
Proof.
  assert (∀ segs, Forall (segment size) segs → Forall (segment (size + min_size)) segs) as Hweak.
  { intros l Hl. eapply Forall_impl; [exact Hl|]. intros s. apply segment_weaken. lia. }
  revert start segs. induction fuel as [|fuel IH]; intros start segs Hf Hs Hc; [lia|]. cbn [chunk_loop].
  destruct (Nat.ltb_spec start (length ws)) as [Hlt|Hge]; cycle 1.
  { eexists. split; [done|]. apply chunked_rev; [by apply Hweak|]. by rewrite Nat.min_r in Hc. }
  rewrite Nat.min_l in Hc by lia. cbv zeta. set (e := min (start + size) (length ws)).
  assert (segment (e - start) (word_slice ws start e)) as Hseg by (apply word_slice_segment; lia).
  assert (covered_up_to e (word_slice ws start e :: segs)) as Hcov by by apply covered_push.
  assert (Forall (segment size) (word_slice ws start e :: segs)) as Hs'.
  { constructor; [|done]. eapply segment_weaken; [|exact Hseg]. lia. }
  assert (length (word_slice ws start e) = e - start) as Hl.
  { unfold word_slice. rewrite length_take, length_drop. lia. }
  destruct (if (length (word_slice ws start e) <? min_size)%nat then str_join " " <$> segs else []) as [|last rest] eqn:Hm.
  - destruct ((length ws <=? start + step + min_size)%nat && (e =? length ws)%nat) eqn:Hend.
    + apply andb_true_iff in Hend as [_ He%Nat.eqb_eq]. eexists. split; [done|].
      apply (chunked_rev (word_slice ws start e :: segs)); [by apply Hweak|]. by rewrite <-He.
    + apply (IH (start + step) (word_slice ws start e :: segs)); [lia|done|].
      intros i w Hi. apply Hcov. lia.
  - destruct (Nat.ltb_spec (length (word_slice ws start e)) min_size) as [Hshort|]; [|done].
    destruct segs as [|prev segs]; [done|]. cbn [fmap list_fmap] in Hm. injection Hm as <- <-.
    apply Forall_cons in Hs as [Hprev Hs]. destruct Hprev as (Hpn & Hpl & Hpw). destruct Hseg as (Hwn & _ & Hww).
    rewrite <-str_join_app by done. eexists. split; [done|].
    apply (chunked_rev ((prev ++ word_slice ws start e) :: segs)).
    + constructor; [|by apply Hweak]. split; [by destruct prev|]. split; [rewrite length_app; lia|].
      intros w [Hw|Hw]%elem_of_app; [by apply Hpw|by apply Hww].
    + assert (e = length ws) as He by lia. rewrite <-He. intros i w Hi Hw. destruct (Hcov i w Hi Hw) as (s & Hin & Hws).
      rewrite !elem_of_cons in Hin. destruct Hin as [->|[->|Hin]].
      * exists (prev ++ word_slice ws start e). split; [left|set_solver].
      * exists (prev ++ word_slice ws start e). split; [left|set_solver].
      * exists s. split; [by right|done].
Qed.

End chunks.

(** Indexing a document loses nothing and terminates: with a positive step and a minimum
    that is no larger than the size, the loop over the words returns within one round per
    word; the document is returned whole when it is short, and otherwise every word is in some
    chunk, each chunk holding only words of the document and never more than a full
    chunk with a merged tail. *)
Theorem chunks_cover_document content c :
  (0 < step_size c)%Z → (0 ≤ min_chunk_size c ≤ chunk_size c)%Z →
  ∃ out, chunk_document (S (length (split_whitespace content))) content c = Some out ∧
    (out = [content] ∨ out = [] ∧ split_whitespace content = [] ∨
     chunked (split_whitespace content) (Z.to_nat (chunk_size c)) (Z.to_nat (min_chunk_size c)) out).
Proof.
  intros Hs Hm. unfold chunk_document. destruct (str_is_empty content) eqn:He.
  { apply str_is_empty_iff in He as ->. eexists. split; [done|]. right. left. done. }
  destruct (split_whitespace content) as [|w0 ws0] eqn:Hw; [by eexists; split; [done|right; left]|].
  destruct (Z.leb_spec (Z.of_nat (length (w0 :: ws0))) (chunk_size c)) as [|Hlong]; [eexists; split; [done|by left]|].
  assert ((step_size c ≤ chunk_size c)%Z) as Hle.
  { unfold step_size, saturating_sub, overlap_size. pose proof (f64_to_usize_range
      (f32_mul (f32_of_Z (chunk_size c)) (overlap_percent c))) as [Hr _]. lia. }
  destruct (chunk_loop_spec (w0 :: ws0) (Z.to_nat (chunk_size c)) (Z.to_nat (step_size c)) (Z.to_nat (min_chunk_size c))
    ltac:(lia) ltac:(lia) (S (length (w0 :: ws0))) 0 []) as (out & Ho & Hc); [lia|constructor|intros i w Hi; cbn in Hi; lia|].
  exists out. split; [exact Ho|]. right. right. done.
Qed.

Lemma chunks_cover_document_witness :
  step_size chunk_default = 680%Z ∧
  ∃ out, chunk_document 4 "a b c" chunk_default = Some out.
Proof.
  split; [reflexivity|].
  destruct (chunks_cover_document "a b c" chunk_default) as (out & Ho & _); [reflexivity|done|by exists out].
Defined.

(** A chunk size below the minimum loses text: the second chunk is already too short, is
    merged into the first and ends the loop. *)
Lemma small_chunks_lose_text :
  chunk_document 100 "one two three four five six seven" (with_chunk_size 2 chunk_default) = Some ["one two three four"].
Proof. vm_compute. reflexivity. Qed.

(** ** What the fusion returns *)

(** The rank of a chunk in one list: that of its last entry. *)
Definition last_rank (id : Uuid) (l : list RankedResult) : option Z :=
  rr_rank <$> last (List.filter (fun r => bool_decide (rr_chunk_id r = id)) l).

Lemma last_rank_snoc id l r :
  last_rank id (l ++ [r]) = if decide (rr_chunk_id r = id) then Some (rr_rank r) else last_rank id l.
Proof.
  unfold last_rank. rewrite List.filter_app. cbn [List.filter]. case_decide as Hd.
  - rewrite bool_decide_true by done. by rewrite last_snoc.
  - rewrite bool_decide_false by done. by rewrite app_nil_r.
Qed.

(** Document, path and content are those of one of the entries of the chunk. *)
Definition comes_from (id : Uuid) (i : ChunkInfo) (l : list RankedResult) : Prop :=
  ∃ r, r ∈ l ∧ rr_chunk_id r = id ∧ ci_document_id i = rr_document_id r ∧ ci_document_path i = rr_document_path r ∧
       ci_content i = rr_content r.

Definition collects (fts vec : list RankedResult) (m : gmap Uuid ChunkInfo) : Prop :=
  ∀ id, match m !! id with
        | Some i => ci_fts_rank i = last_rank id fts ∧ ci_vector_rank i = last_rank id vec ∧ comes_from id i (fts ++ vec)
        | None => Forall (fun r => rr_chunk_id r ≠ id) (fts ++ vec)
        end.

Lemma last_rank_None id l : Forall (fun r => rr_chunk_id r ≠ id) l → last_rank id l = None.
Proof.
  unfold last_rank. induction 1 as [|r l Hr _ IH]; [done|]. cbn [List.filter]. by rewrite bool_decide_false.
Qed.

Lemma comes_from_weaken id i l k : (∀ r, r ∈ l → r ∈ k) → comes_from id i l → comes_from id i k.
Proof. intros Hl (r & Hr & H). exists r. auto. Qed.

Lemma add_fts_collects sc fts m r : collects fts [] m → collects (fts ++ [r]) [] (add_fts sc m r).
Proof.
  intros Hm id. specialize (Hm id). rewrite app_nil_r in *. unfold add_fts. rewrite last_rank_snoc.
  destruct (decide (rr_chunk_id r = id)) as [<-|Hne].
  - rewrite lookup_insert_eq. destruct (m !! rr_chunk_id r) as [i|]; cbn.
    + destruct Hm as (_ & Hv & Hc). split; [done|]. split; [done|]. eapply comes_from_weaken in Hc; [exact Hc|set_solver].
    + split; [done|]. split; [done|]. exists r. split; [set_solver|done].
  - rewrite lookup_insert_ne by done. destruct (m !! id) as [i|].
    + destruct Hm as (Hf & Hv & Hc). split; [done|]. split; [done|]. eapply comes_from_weaken; [|exact Hc]. set_solver.
    + rewrite Forall_app. split; [done|]. by constructor.
Qed.

Lemma add_vector_collects sc fts vec m r : collects fts vec m → collects fts (vec ++ [r]) (add_vector sc m r).
Proof.
  intros Hm id. specialize (Hm id). unfold add_vector. rewrite last_rank_snoc, app_assoc.
  destruct (decide (rr_chunk_id r = id)) as [<-|Hne].
  - rewrite lookup_insert_eq. destruct (m !! rr_chunk_id r) as [i|]; cbn.
    + destruct Hm as (Hf & _ & Hc). split; [done|]. split; [done|]. eapply comes_from_weaken; [|exact Hc]. set_solver.
    + apply Forall_app in Hm as [Hf _]. rewrite last_rank_None by done. split; [done|]. split; [done|].
      exists r. split; [set_solver|done].
  - rewrite lookup_insert_ne by done. destruct (m !! id) as [i|].
    + destruct Hm as (Hf & Hv & Hc). split; [done|]. split; [done|]. eapply comes_from_weaken; [|exact Hc]. set_solver.
    + rewrite Forall_app. split; [done|]. by constructor.
Qed.

Lemma chunk_scores_collects fs vs fts vec : collects fts vec (chunk_scores fs vs fts vec).
Proof.
  unfold chunk_scores. induction vec as [|r vec IH] using rev_ind.
  - cbn [foldl]. induction fts as [|r fts IH] using rev_ind; [intros id; cbn [foldl]; by rewrite lookup_empty|].
    rewrite foldl_snoc. by apply add_fts_collects.
  - rewrite foldl_snoc. by apply add_vector_collects.
Qed.

Lemma insert_desc_perm x l : insert_desc x l ≡ₚ x :: l.
Proof. induction l as [|y l IH]; cbn [insert_desc]; [done|]. case_match; [done|]. rewrite IH. apply perm_swap. Qed.

Lemma sort_desc_perm l : sort_desc l ≡ₚ l.
Proof.
  unfold sort_desc. assert (∀ acc, foldl (fun acc x => insert_desc x acc) acc l ≡ₚ acc ++ l) as Hs; [|by rewrite Hs].
  induction l as [|x l IH]; intros acc; cbn [foldl]; [by rewrite app_nil_r|].
  rewrite IH, insert_desc_perm. apply Permutation_middle.
Qed.

(** No result is directly followed by one with a higher score. *)
Definition descending (l : list SearchResult) : Prop := Sorted (fun a b => SFltb (score a) (score b) = false) l.

Lemma SFltb_asym a b : SFltb a b = true → SFltb b a = false.
Proof.
  unfold SFltb. destruct a as [[]|[]| |[] ma ea], b as [[]|[]| |[] mb eb]; cbn; try done.
  all: rewrite (Z.compare_antisym ea eb); destruct (ea ?= eb)%Z; cbn; try done.
  all: change (Pos.compare_cont Eq ma mb) with (ma ?= mb)%positive; change (Pos.compare_cont Eq mb ma) with (mb ?= ma)%positive;
    rewrite (Pos.compare_antisym ma mb); by destruct (ma ?= mb)%positive.
Qed.

Lemma insert_desc_sorted x l : descending l → descending (insert_desc x l).
Proof.
  unfold descending. intros Hl. induction Hl as [|y l Hl IH Hy]; cbn [insert_desc]; [repeat constructor|].
  destruct (SFltb (score y) (score x)) eqn:Hlt.
  - constructor; [by constructor|]. constructor. by apply SFltb_asym.
  - constructor; [done|]. destruct l as [|z l]; cbn [insert_desc] in *; [by constructor|].
    destruct (SFltb (score z) (score x)); constructor; [done|]. by inversion Hy.
Qed.

Lemma sort_desc_sorted l : descending (sort_desc l).
Proof.
  unfold sort_desc. assert (∀ acc, descending acc → descending (foldl (fun acc x => insert_desc x acc) acc l)) as Hs.
  { induction l as [|x l IH]; intros acc Ha; cbn [foldl]; [done|]. by apply IH, insert_desc_sorted. }
  apply Hs. constructor.
Qed.

Lemma descending_take n l : descending l → descending (take n l).
Proof.
  unfold descending. intros Hl. revert n. induction Hl as [|y l Hl IH Hy]; intros n; [rewrite take_nil; constructor|].
  destruct n as [|n]; [constructor|]. cbn [take]. constructor; [apply IH|]. destruct Hy; destruct n; cbn; by constructor.
Qed.

(** The result a collected chunk becomes, whatever its score. *)
Definition result_of (m : gmap Uuid ChunkInfo) (r : SearchResult) : Prop :=
  ∃ i, m !! sr_chunk_id r = Some i ∧ sr_document_id r = ci_document_id i ∧ sr_document_path r = ci_document_path i ∧
       sr_content r = ci_content i ∧ fts_rank r = ci_fts_rank i ∧ vector_rank r = ci_vector_rank i.

Lemma normalize_ids l : sr_chunk_id <$> normalize_scores l = sr_chunk_id <$> l.
Proof.
  unfold normalize_scores. destruct (reduce_max _); [|done]. destruct (SFltb _ _); [|done].
  rewrite <-list_fmap_compose. by apply list_fmap_ext.
Qed.

Lemma normalize_result_of m l : Forall (result_of m) l → Forall (result_of m) (normalize_scores l).
Proof.
  intros Hl. unfold normalize_scores. destruct (reduce_max _); [|done]. destruct (SFltb _ _); [|done].
  apply Forall_fmap. eapply Forall_impl; [exact Hl|]. intros r (i & H). by exists i.
Qed.

Lemma Forall_filter_bool {A} (P : A → Prop) f l : Forall P l → Forall P (List.filter f l).
Proof. induction 1; cbn [List.filter]; [done|]. case_match; [by constructor|done]. Qed.

Lemma NoDup_filter_ids f l : NoDup (sr_chunk_id <$> l) → NoDup (sr_chunk_id <$> List.filter f l).
Proof.
  induction l as [|x l IH]; intros Hl; cbn [List.filter]; [done|]. cbn [fmap list_fmap] in Hl.
  apply NoDup_cons in Hl as [Hx Hl]. destruct (f x); [|by apply IH]. cbn [fmap list_fmap]. constructor; [|by apply IH].
  intros (y & Hy & Hin)%list_elem_of_fmap. apply Hx. rewrite Hy. apply list_elem_of_fmap_2.
  apply list_elem_of_In in Hin. apply filter_In in Hin as [Hin _]. by apply list_elem_of_In.
Qed.

Section fused.
  Variable iter_map : gmap Uuid ChunkInfo -> list (Uuid * ChunkInfo).
  Hypothesis iter_perm : ∀ m, iter_map m ≡ₚ map_to_list m.

Lemma finish_spec m c :
  let out := finish iter_map m c in
  length out ≤ limit c ∧ descending out ∧ NoDup (sr_chunk_id <$> out) ∧ Forall (result_of m) out ∧
  (SFltb (f32_of_Z 0) (min_score c) = true → Forall (fun r => SFleb (min_score c) (score r) = true) out) ∧
  (SFltb (f32_of_Z 0) (min_score c) = false → size m ≤ limit c → ∀ id, is_Some (m !! id) → id ∈ sr_chunk_id <$> out).
Proof.
  cbv zeta. unfold finish. cbv zeta. set (all := normalize_scores _).
  assert (Forall (result_of m) all) as Hall.
  { apply normalize_result_of, Forall_fmap, Forall_forall. intros [id i] Hin. rewrite iter_perm in Hin.
    apply elem_of_map_to_list in Hin. by exists i. }
  assert (sr_chunk_id <$> all ≡ₚ (map_to_list m).*1) as Hids.
  { unfold all. rewrite normalize_ids, <-list_fmap_compose, <-iter_perm. by apply reflexive_eq, list_fmap_ext. }
  assert (NoDup (sr_chunk_id <$> all)) as Hnd by (rewrite Hids; apply NoDup_fst_map_to_list).
  clearbody all. match goal with |- context [sort_desc ?x] => set (kept := x) end.
  assert (Forall (result_of m) kept ∧ NoDup (sr_chunk_id <$> kept)) as [Hk Hkn].
  { unfold kept. destruct (SFltb _ _); [|done]. split; [by apply Forall_filter_bool|by apply NoDup_filter_ids]. }
  split; [rewrite length_take; lia|]. split; [apply descending_take, sort_desc_sorted|].
  split. { rewrite fmap_take. assert (NoDup (sr_chunk_id <$> sort_desc kept)) as Hs by by rewrite sort_desc_perm.
    rewrite <-(take_drop (limit c) (sr_chunk_id <$> sort_desc kept)) in Hs. by apply NoDup_app in Hs as [? _]. }
  split. { apply Forall_take. by rewrite sort_desc_perm. }
  split.
  - intros Hmin. apply Forall_take. rewrite sort_desc_perm. unfold kept. rewrite Hmin. apply Forall_forall.
    intros r [_ Hr]%list_elem_of_In%filter_In. done.
  - intros Hmin Hsz id [i Hi]. unfold kept. rewrite Hmin. rewrite take_ge.
    + rewrite sort_desc_perm, Hids. apply list_elem_of_fmap. exists (id, i). split; [done|]. by apply elem_of_map_to_list.
    + rewrite sort_desc_perm, <-(length_fmap sr_chunk_id), Hids, length_fmap, length_map_to_list. done.
Qed.

(** Fusing the two searches, with either strategy and in whatever order the hash map is read, keeps
    the limit, lists every chunk once in the order of the scores, and tells the truth about each: the
    ranks are those in the two lists, and document, path and content come from an entry of
    that chunk.  A minimum score holds for all; without one nothing is dropped but by
    the limit. *)
Theorem fusion_faithful fts vec c :
  let out := fuse_results iter_map fts vec c in
  length out ≤ limit c ∧ descending out ∧ NoDup (sr_chunk_id <$> out) ∧
  Forall (fun r => fts_rank r = last_rank (sr_chunk_id r) fts ∧ vector_rank r = last_rank (sr_chunk_id r) vec ∧
            ∃ x, x ∈ fts ++ vec ∧ rr_chunk_id x = sr_chunk_id r ∧ sr_document_id r = rr_document_id x ∧
                 sr_document_path r = rr_document_path x ∧ sr_content r = rr_content x) out ∧
  (SFltb (f32_of_Z 0) (min_score c) = true → Forall (fun r => SFleb (min_score c) (score r) = true) out) ∧
  (SFltb (f32_of_Z 0) (min_score c) = false → length (fts ++ vec) ≤ limit c →
     Forall (fun x => rr_chunk_id x ∈ sr_chunk_id <$> out) (fts ++ vec)).
Proof.
  assert (∃ fs vs, fuse_results iter_map fts vec c = finish iter_map (chunk_scores fs vs fts vec) c) as (fs & vs & ->).
  { unfold fuse_results, reciprocal_rank_fusion, weighted_score_fusion. destruct (fusion_strategy c); by do 2 eexists. }
  cbv zeta. set (m := chunk_scores fs vs fts vec).
  pose proof (chunk_scores_collects fs vs fts vec) as Hc. fold m in Hc.
  destruct (finish_spec m c) as (H1 & H2 & H3 & H4 & H5 & H6).
  split; [done|]. split; [done|]. split; [done|]. split; [|split; [done|]].
  - eapply Forall_impl; [exact H4|]. intros r (i & Hi & Hd & Hp & Hco & Hf & Hv). specialize (Hc (sr_chunk_id r)).
    rewrite Hi in Hc. destruct Hc as (Hcf & Hcv & x & Hx & Hid & H'). split; [congruence|]. split; [congruence|].
    exists x. destruct H' as (? & ? & ?). repeat split; congruence.
  - intros Hmin Hsz. apply Forall_forall. intros x Hx. apply H6; [done| |].
    + assert (NoDup (map_to_list m).*1) as Hn by apply NoDup_fst_map_to_list.
      rewrite <-length_map_to_list, <-(length_fmap fst). etrans; [|exact Hsz]. rewrite <-(length_fmap rr_chunk_id).
      apply submseteq_length, NoDup_submseteq; [done|]. intros id ([id' i] & -> & Hin)%list_elem_of_fmap.
      apply elem_of_map_to_list in Hin. specialize (Hc id'). rewrite Hin in Hc. destruct Hc as (_ & _ & y & Hy & <- & _).
      apply (list_elem_of_fmap_2 rr_chunk_id (fts ++ vec) y Hy).
    + specialize (Hc (rr_chunk_id x)). destruct (m !! rr_chunk_id x); [done|]. rewrite Forall_forall in Hc. by specialize (Hc x Hx).
Qed.

End fused.

Lemma fusion_faithful_witness :
  let r id n := mkRanked id 7%N "a.md" "text" n in
  (fun x => (sr_chunk_id x, fts_rank x, vector_rank x)) <$>
    fuse_results map_to_list [r 1%N 1%Z; r 2%N 2%Z] [r 2%N 1%Z] search_default =
    [(2%N, Some 2%Z, Some 1%Z); (1%N, Some 1%Z, None)] ∧
  length (fuse_results map_to_list [r 1%N 1%Z; r 2%N 2%Z] [r 2%N 1%Z] search_default) ≤ 10.
Proof.
  intros r. split; [vm_compute; reflexivity|]. apply (fusion_faithful map_to_list); done.
Defined.
