(* ===== verification/Pairing.v ===== *)
(** * Pairing: who may talk to the agent

    [src/pairing/store.rs].  A stranger who writes to a channel gets a code; the owner approves the
    code, and the sender joins the list of the channel.  Three files hold the state of a
    channel; [Disk] maps their names below the base directory to their contents.  Every operation
    on a file can fail: [io] says which do.  Unicode case mapping, serde, chrono and the random
    numbers are parameters. *)

From Stdlib Require Import Ascii.
From stdpp Require Import pretty.
From S2P Require Import Prelude Text TextSearch.

Local Open Scope Z_scope.

(** ** Data *)

Definition PAIRING_CODE_LENGTH : nat := 8.
Definition PAIRING_ALPHABET : string := "ABCDEFGHJKLMNPQRSTUVWXYZ23456789".
Definition PAIRING_PENDING_TTL_SECS : Z := 15 * 60.
Definition PAIRING_PENDING_MAX : nat := 3.
Definition PAIRING_APPROVE_RATE_LIMIT : nat := 10.
Definition PAIRING_APPROVE_RATE_WINDOW_SECS : Z := 5 * 60.

Inductive IoError : Type := NotFound | OtherIo (msg : string).

Inductive PairingStoreError : Type :=
| InvalidChannel (msg : string)
| InvalidPath (msg : string)
| Io (e : IoError)
| JsonError (msg : string)
| ApproveRateLimited.

Record UpsertResult : Type := mkUpsert { up_code : string; created : bool }.

Record PairingRequest : Type := mkRequest {
  pr_id : string;
  pr_code : string;
  created_at : string;
  last_seen_at : string;
  pr_meta : option Json
}.

Record PairingStoreFile : Type := mkPairingFile { pf_version : Z; requests : list PairingRequest }.
Record AllowFromStoreFile : Type := mkAllowFile { af_version : Z; allow_from : list string }.
Record ApproveAttemptsFile : Type := mkAttempts { failed_at : list Z }.

Definition empty_pairing : PairingStoreFile := mkPairingFile 1 [].
Definition empty_allow : AllowFromStoreFile := mkAllowFile 1 [].
Definition empty_attempts : ApproveAttemptsFile := mkAttempts [].

(** Libraries: the case mappings of [str], chrono's parser (the seconds of the time) and printer, and
    serde's parser and printer for each file. *)
Class PairingEnv := {
  to_lowercase : string -> string;
  to_uppercase : string -> string;
  parse_from_rfc3339 : string -> option Z;
  to_rfc3339 : Z -> option string;
  pairing_from_str : string -> option PairingStoreFile;
  pairing_to_string : PairingStoreFile -> Result string string;
  allow_from_str : string -> option AllowFromStoreFile;
  allow_to_string : AllowFromStoreFile -> Result string string;
  attempts_from_str : string -> option ApproveAttemptsFile;
  attempts_to_string : ApproveAttemptsFile -> Result string string
}.

(** ** The disk

    The operations on files that can fail.  A write that fails leaves the file empty: it was
    truncated before, and what was written of it does not parse. *)
Inductive IoOp : Type := CreateDirs | Open | Lock | Read | SetLen | Seek | WriteAll | Sync | WriteFile | Unlock.

Abbreviation Disk := (gmap string string).
Abbreviation Faults := (IoOp -> string -> option IoError).

Definition Store (A : Type) : Type := Disk -> Result PairingStoreError A * Disk.

#[export] Instance store_ret : MRet Store := fun _ a d => (Ok a, d).
#[export] Instance store_bind : MBind Store := fun _ _ k c d =>
  match c d with (Ok a, d') => k a d' | (Err e, d') => (Err e, d') end.

Definition fail {A} (e : PairingStoreError) : Store A := fun d => (Err e, d).
Definition lift {A} (r : Result PairingStoreError A) : Store A := fun d => (r, d).
Definition get : Store Disk := fun d => (Ok d, d).
Definition put (name content : string) : Store unit := fun d => (Ok tt, <[name := content]> d).

Section pairing.
Context `{PairingEnv}.
Variable io : Faults.

Definition io_step (op : IoOp) (name : string) : Store unit :=
  match io op name with Some e => fail (Io e) | None => mret tt end.

Definition read_to_string (d : Disk) (name : string) : Result IoError string :=
  match io Read name with
  | Some e => Err e
  | None => match d !! name with Some c => Ok c | None => Err NotFound end
  end.

(** [OpenOptions::new().read(true).write(true).create(..).truncate(..).open(..)] *)
Definition open_file (create truncate : bool) (name : string) : Store unit :=
  _ ← io_step Open name;
  d ← get;
  match d !! name with
  | Some _ => if truncate then put name "" else mret tt
  | None => if create then put name "" else fail (Io NotFound)
  end.

(** [fs::write] *)
Definition fs_write (name content : string) : Store unit :=
  _ ← put name "";
  _ ← io_step WriteFile name;
  put name content.

(** ** Names *)

Definition safe_char (c : ascii) : ascii :=
  if bool_decide (c ∈ ["\"; "/"; ":"; "*"; "?"; dquote; "<"; ">"; "|"]%char) then "_"%char else c.

Definition safe_channel_key (channel : string) : Result PairingStoreError string :=
  let raw := to_lowercase (trim channel) in
  if str_is_empty raw then Err (InvalidChannel "empty") else
  let safe := str_replace ".." "_" (string_map safe_char raw) in
  if str_is_empty safe || (safe =? "_")%string then Err (InvalidChannel channel) else Ok safe.

Definition pairing_path (channel : string) : Result PairingStoreError string :=
  key ← safe_channel_key channel; Ok (key +:+ "-pairing.json").

Definition allow_from_path (channel : string) : Result PairingStoreError string :=
  key ← safe_channel_key channel; Ok (key +:+ "-allowFrom.json").

Definition approve_attempts_path (channel : string) : Result PairingStoreError string :=
  key ← safe_channel_key channel; Ok (key +:+ "-approve-attempts.json").

(** ** Times and codes *)

(** The argument is the reading of the clock in seconds. *)
Definition now_iso (now : Z) : string :=
  match to_rfc3339 (wrap_i64 now) with Some s => s | None => pretty now end.

Definition parse_timestamp (value : string) : option Z :=
  match parse_from_rfc3339 value with Some t => Some (wrap64 t) | None => parse_u64 value end.

Definition is_expired (req : PairingRequest) (now_secs : Z) : bool :=
  PAIRING_PENDING_TTL_SECS <? saturating_sub now_secs (default 0 (parse_timestamp (created_at req))).

(** [rng.gen_range(0..n)]: the [i]-th draw, brought into the range. *)
Definition gen_range (rng : nat -> nat) (i n : nat) : nat := (rng i mod n)%nat.

Definition random_code (rng : nat -> nat) (from : nat) : string :=
  String.string_of_list_ascii
    ((fun i => default "A"%char (String.get (gen_range rng (from + i) (String.length PAIRING_ALPHABET)) PAIRING_ALPHABET))
     <$> seq 0 PAIRING_CODE_LENGTH).

Fixpoint unique_code_loop (existing : list string) (rng : nat -> nat) (rounds from : nat) : option string :=
  match rounds with
  | O => None
  | S rounds =>
      let code := random_code rng from in
      if bool_decide (code ∈ existing) then unique_code_loop existing rng rounds (from + PAIRING_CODE_LENGTH)
      else Some code
  end.

(** [{:04}] *)
Definition pad4 (n : nat) : string :=
  let s := show_nat n in String.concat "" (replicate (4 - String.length s) "0") +:+ s.

Definition generate_unique_code (existing : list string) (rng : nat -> nat) : string :=
  match unique_code_loop existing rng 500 0 with
  | Some code => code
  | None => random_code rng (500 * PAIRING_CODE_LENGTH) +:+ pad4 (gen_range rng (501 * PAIRING_CODE_LENGTH) (Z.to_nat 10000))
  end.

(** ** Operations *)

Definition write_pairing_file_locked (name : string) (reqs : list PairingRequest) : Store unit :=
  match pairing_to_string (mkPairingFile 1 reqs) with
  | Err m => fail (JsonError m)
  | Ok json =>
      _ ← io_step SetLen name;
      _ ← put name "";
      _ ← io_step Seek name;
      _ ← io_step WriteAll name;
      _ ← put name json;
      io_step Sync name
  end.

Definition write_pairing_file (channel : string) (reqs : list PairingRequest) : Store unit :=
  name ← lift (pairing_path channel);
  _ ← open_file true true name;
  _ ← io_step Lock name;
  _ ← write_pairing_file_locked name reqs;
  io_step Unlock name.

(** [sort_by(|a, b| a.created_at.cmp(&b.created_at))], stable. *)
Fixpoint insert_created (x : PairingRequest) (l : list PairingRequest) : list PairingRequest :=
  match l with
  | [] => [x]
  | y :: l' => if String.leb (created_at y) (created_at x) then y :: insert_created x l' else x :: l
  end.

Definition sort_created (l : list PairingRequest) : list PairingRequest :=
  foldl (fun acc x => insert_created x acc) [] l.

Definition live (now : Z) (l : list PairingRequest) : list PairingRequest :=
  base.filter (fun r => is_expired r now = false) l.

Definition list_pending (channel : string) (now : Z) : Store (list PairingRequest) :=
  name ← lift (pairing_path channel);
  d ← get;
  match read_to_string d name with
  | Err NotFound => mret []
  | Err e => fail (Io e)
  | Ok content =>
      let file := default empty_pairing (pairing_from_str content) in
      let reqs := live now (requests file) in
      _ ← (if bool_decide (length reqs = length (requests file)) then mret tt else write_pairing_file channel reqs);
      mret (sort_created reqs)
  end.

(** [fs::read_to_string(&path).unwrap_or_default()] parsed, or the empty store. *)
Definition load_pairing (d : Disk) (name : string) : PairingStoreFile :=
  let content := match read_to_string d name with Ok c => c | Err _ => "" end in
  default empty_pairing (pairing_from_str content).

Definition upsert_request (channel id : string) (meta : option Json) (clk : Clock) (rng : nat -> nat) : Store UpsertResult :=
  name ← lift (pairing_path channel);
  _ ← io_step CreateDirs name;
  _ ← open_file true false name;
  _ ← io_step Lock name;
  d ← get;
  let store := load_pairing d name in
  let now := now_iso (clk 0%nat) in
  let id := trim id in
  if str_is_empty id then (_ ← io_step Unlock name; fail (InvalidChannel "empty id")) else
  let reqs := live (clk 1%nat) (requests store) in
  let existing := (fun r => to_uppercase (pr_code r)) <$> reqs in
  match list_find (fun r => pr_id r = id) reqs with
  | Some (idx, req) =>
      let code := if str_is_empty (pr_code req) then generate_unique_code existing rng else pr_code req in
      let req' := mkRequest (pr_id req) code (created_at req) now
                    (match meta with Some m => Some m | None => pr_meta req end) in
      _ ← write_pairing_file_locked name (<[idx := req']> reqs);
      _ ← io_step Unlock name;
      mret (mkUpsert code false)
  | None =>
      if bool_decide (PAIRING_PENDING_MAX ≤ length reqs)%nat then
        _ ← io_step Unlock name;
        mret (mkUpsert "" false)
      else
        let code := generate_unique_code existing rng in
        _ ← write_pairing_file_locked name (reqs ++ [mkRequest id code now now meta]);
        _ ← io_step Unlock name;
        mret (mkUpsert code true)
  end.

Definition recent (now : Z) (l : list Z) : list Z :=
  base.filter (fun t => saturating_sub now PAIRING_APPROVE_RATE_WINDOW_SECS ≤ t) l.

Definition is_approve_rate_limited (channel : string) (now : Z) : Store bool :=
  name ← lift (approve_attempts_path channel);
  d ← get;
  match read_to_string d name with
  | Err NotFound => mret false
  | Err e => fail (Io e)
  | Ok content =>
      let data := default empty_attempts (attempts_from_str content) in
      mret (bool_decide (PAIRING_APPROVE_RATE_LIMIT ≤ length (recent now (failed_at data)))%nat)
  end.

Definition load_attempts (d : Disk) (name : string) : ApproveAttemptsFile :=
  match read_to_string d name with
  | Ok c => default empty_attempts (attempts_from_str c)
  | Err _ => empty_attempts
  end.

Definition record_failed_approve (channel : string) (now : Z) : Store unit :=
  name ← lift (approve_attempts_path channel);
  _ ← io_step CreateDirs name;
  _ ← open_file true false name;
  _ ← io_step Lock name;
  d ← get;
  let data := mkAttempts (recent now (failed_at (load_attempts d name) ++ [now])) in
  match attempts_to_string data with
  | Err m => fail (JsonError m)
  | Ok json =>
      _ ← fs_write name json;
      io_step Unlock name
  end.

Definition add_allow_from (channel entry : string) : Store unit :=
  let entry := trim entry in
  if str_is_empty entry then mret tt else
  name ← lift (allow_from_path channel);
  _ ← io_step CreateDirs name;
  _ ← open_file true true name;
  _ ← io_step Lock name;
  d ← get;
  let content := match read_to_string d name with Ok c => c | Err _ => "" end in
  let store := default empty_allow (allow_from_str content) in
  if existsb (fun e => (to_lowercase e =? to_lowercase entry)%string) (allow_from store) then io_step Unlock name else
  match allow_to_string (mkAllowFile (af_version store) (allow_from store ++ [entry])) with
  | Err m => fail (JsonError m)
  | Ok json =>
      _ ← fs_write name json;
      io_step Unlock name
  end.

Definition open_existing (name : string) : Store unit := fun d =>
  match open_file false false name d with
  | (Err (Io NotFound), d') => (Err (InvalidChannel "no pairing file"), d')
  | r => r
  end.

(** What [approve] does with the live requests, the code in upper case. *)
Definition settle (channel name code : string) (clk : Clock) (reqs : list PairingRequest) : Store (option PairingRequest) :=
  match list_find (fun r => to_uppercase (pr_code r) = code) reqs with
  | None =>
      _ ← io_step Unlock name;
      _ ← record_failed_approve channel (clk 2%nat);
      mret None
  | Some (i, entry) =>
      _ ← write_pairing_file_locked name (delete i reqs);
      _ ← io_step Unlock name;
      _ ← add_allow_from channel (pr_id entry);
      mret (Some entry)
  end.

(** The clock is read for the limit, for the requests and for the failed attempt. *)
Definition approve (channel code : string) (clk : Clock) : Store (option PairingRequest) :=
  let code := to_uppercase (trim code) in
  if str_is_empty code then mret None else
  limited ← is_approve_rate_limited channel (clk 0%nat);
  if limited : bool then fail ApproveRateLimited else
  name ← lift (pairing_path channel);
  _ ← open_existing name;
  _ ← io_step Lock name;
  d ← get;
  settle channel name code clk (live (clk 1%nat) (requests (load_pairing d name))).

Definition has_allow_from_file (channel : string) : Store bool :=
  name ← lift (allow_from_path channel);
  d ← get;
  mret (bool_decide (is_Some (d !! name))).

Definition read_allow_from (channel : string) : Store (list string) :=
  name ← lift (allow_from_path channel);
  d ← get;
  match read_to_string d name with
  | Err NotFound => mret []
  | Err e => fail (Io e)
  | Ok content => mret (allow_from (default empty_allow (allow_from_str content)))
  end.

Definition sender_listed (allow : list string) (id : string) (username : option string) : bool :=
  existsb (fun e => (trim e =? trim id)%string) allow ||
  match username with
  | None => false
  | Some u =>
      let u := to_lowercase (trim u) in
      let u_norm := default u (strip_prefix "@" u) in
      existsb (fun e => (to_lowercase (trim e) =? u)%string || (to_lowercase (trim e) =? "@" +:+ u_norm)%string) allow
  end.

Definition is_sender_allowed (channel id : string) (username : option string) : Store bool :=
  allow ← read_allow_from channel;
  mret (sender_listed allow id username).

End pairing.

(** ** Reasoning about the store

    [triple P c Q I]: from a disk with [P], [c] returns a value with [Q] or fails with [I]. *)
Definition triple {A} (P : Disk -> Prop) (c : Store A) (Q : A -> Disk -> Prop) (I : Disk -> Prop) : Prop :=
  ∀ d, P d → match c d with (Ok a, d') => Q a d' | (Err _, d') => I d' end.

Lemma triple_bind {A B} P (c : Store A) R (k : A -> Store B) Q I :
  triple P c R I → (∀ a, triple (R a) (k a) Q I) → triple P (c ≫= k) Q I.
Proof.
  intros Hc Hk d Hd. specialize (Hc d Hd). unfold mbind, store_bind.
  destruct (c d) as [[a|e] d']; [by apply Hk|done].
Qed.

Lemma triple_ret {A} (P : Disk -> Prop) (a : A) (Q : A -> Disk -> Prop) I :
  (∀ d, P d → Q a d) → triple P (mret a) Q I.
Proof. intros HQ d Hd. by apply HQ. Qed.

Lemma triple_fail {A} (P : Disk -> Prop) e (Q : A -> Disk -> Prop) I : (∀ d, P d → I d) → triple P (fail e) Q I.
Proof. intros HI d Hd. by apply HI. Qed.

Lemma triple_lift {A} (P : Disk -> Prop) (r : Result PairingStoreError A) (I : Disk -> Prop) :
  (∀ d, P d → I d) → triple P (lift r) (fun a d => r = Ok a ∧ P d) I.
Proof. intros HI d Hd. unfold lift. destruct r; [done|by apply HI]. Qed.

Lemma triple_get (P I : Disk -> Prop) : triple P get (fun a d => a = d ∧ P d) I.
Proof. intros d Hd. done. Qed.

Lemma triple_io io op name (P I : Disk -> Prop) : (∀ d, P d → I d) → triple P (io_step io op name) (fun _ => P) I.
Proof. intros HI d Hd. unfold io_step. destruct (io op name); [by apply HI|done]. Qed.

Lemma triple_put name content (P : Disk -> Prop) (Q : unit -> Disk -> Prop) I :
  (∀ d, P d → Q tt (<[name := content]> d)) → triple P (put name content) Q I.
Proof. intros HQ d Hd. by apply HQ. Qed.

Lemma triple_conseq {A} (P P' : Disk -> Prop) (c : Store A) (Q Q' : A -> Disk -> Prop) I :
  triple P' c Q' I → (∀ d, P d → P' d) → (∀ a d, Q' a d → Q a d) → triple P c Q I.
Proof.
  intros Hc HP HQ d Hd. specialize (Hc d (HP d Hd)). destruct (c d) as [[a|e] d']; [by apply HQ|done].
Qed.

(** An invariant [I] of the disk is kept by [c], however it ends. *)
Definition keeps {A} (I : Disk -> Prop) (c : Store A) : Prop := triple I c (fun _ => I) I.

Lemma keeps_bind {A B} (I : Disk -> Prop) (c : Store A) (k : A -> Store B) :
  keeps I c → (∀ a, keeps I (k a)) → keeps I (c ≫= k).
Proof. intros Hc Hk. by eapply triple_bind. Qed.

Lemma keeps_read {A} (I : Disk -> Prop) (k : Disk -> Store A) :
  (∀ d0, I d0 → keeps I (k d0)) → keeps I (get ≫= k).
Proof.
  intros Hk. eapply triple_bind; [apply triple_get|]. intros d0 d [-> Hd]. by apply (Hk d Hd).
Qed.

Lemma keeps_lift {A B} (I : Disk -> Prop) (r : Result PairingStoreError A) (k : A -> Store B) :
  (∀ a, r = Ok a → keeps I (k a)) → keeps I (lift r ≫= k).
Proof.
  intros Hk. eapply triple_bind; [by apply triple_lift|]. intros a d [Hr Hd]. by apply (Hk a Hr).
Qed.

Lemma keeps_open io create truncate name (I : Disk -> Prop) :
  (∀ d, I d → d !! name = None ∨ truncate = true → I (<[name := ""]> d)) →
  keeps I (open_file io create truncate name).
Proof.
  intros HI d Hd. unfold open_file, io_step, mbind, store_bind. destruct (io Open name); [done|].
  cbn. destruct (d !! name) eqn:Hn; [destruct truncate|destruct create]; cbn; auto.
Qed.

Lemma keeps_fs_write io name content (I : Disk -> Prop) :
  (∀ d, I d → I (<[name := ""]> d)) → (∀ d, I d → I (<[name := content]> d)) → keeps I (fs_write io name content).
Proof.
  intros He Hc. unfold fs_write. apply keeps_bind; [apply triple_put; auto|]. intros [].
  apply keeps_bind; [by apply triple_io|]. intros []. apply triple_put; auto.
Qed.

Lemma keeps_write_locked `{PairingEnv} io name reqs (I : Disk -> Prop) :
  (∀ d, I d → I (<[name := ""]> d)) →
  (∀ d json, pairing_to_string (mkPairingFile 1 reqs) = Ok json → I d → I (<[name := json]> d)) →
  keeps I (write_pairing_file_locked io name reqs).
Proof.
  intros He Hc. unfold write_pairing_file_locked. destruct (pairing_to_string _) as [json|m]; [|by apply triple_fail].
  apply keeps_bind; [by apply triple_io|]. intros []. apply keeps_bind; [apply triple_put; auto|]. intros [].
  do 2 (apply keeps_bind; [by apply triple_io|]; intros []).
  apply keeps_bind; [apply triple_put; auto|]. intros []. by apply triple_io.
Qed.

Lemma keeps_ret {A} (I : Disk -> Prop) (a : A) : keeps I (mret a).
Proof. by apply triple_ret. Qed.
Lemma keeps_fail {A} (I : Disk -> Prop) e : keeps I (fail (A := A) e).
Proof. by apply triple_fail. Qed.
Lemma keeps_io io op name (I : Disk -> Prop) : keeps I (io_step io op name).
Proof. by apply triple_io. Qed.

(** Walk through the sequence of an operation; what is left are the writes. *)
Ltac walk :=
  repeat lazymatch goal with
  | |- keeps _ (mret _) => apply keeps_ret
  | |- keeps _ (fail _) => apply keeps_fail
  | |- keeps _ (io_step _ _ _) => apply keeps_io
  | |- keeps _ (get ≫= _) => apply keeps_read; intros ? ?
  | |- keeps _ (lift _ ≫= _) => apply keeps_lift; intros ? ?
  | |- keeps _ (_ ≫= _) => apply keeps_bind; [|intros ?]
  | |- keeps _ (match _ with _ => _ end) => case_match
  | |- keeps _ (let _ := _ in _) => cbv zeta
  end.

(** ** The files of a channel *)

Definition pairing_name (key : string) : string := key +:+ "-pairing.json".
Definition allow_name (key : string) : string := key +:+ "-allowFrom.json".
Definition attempts_name (key : string) : string := key +:+ "-approve-attempts.json".

Lemma suffix_inj suf a b : a +:+ suf = b +:+ suf → a = b.
Proof.
  intros Hs. apply (f_equal (fun s => string_rev s "")) in Hs. rewrite !string_rev_append in Hs.
  apply (inj _) in Hs. rewrite <-(string_rev_involutive a), Hs. apply string_rev_involutive.
Qed.

Lemma file_names_differ a b :
  pairing_name a ≠ allow_name b ∧ pairing_name a ≠ attempts_name b ∧ allow_name a ≠ attempts_name b.
Proof.
  repeat split; intros Hs; apply (f_equal (fun s => string_rev s "")) in Hs;
    unfold pairing_name, allow_name, attempts_name in Hs; rewrite !string_rev_append in Hs; cbn in Hs;
    rewrite ?append_cons in Hs; done.
Qed.

Lemma pairing_path_name `{PairingEnv} channel name :
  pairing_path channel = Ok name → ∃ key, safe_channel_key channel = Ok key ∧ name = pairing_name key.
Proof. unfold pairing_path, mbind, result_bind. destruct (safe_channel_key channel) as [key|]; [|done]. intros [= <-]. by exists key. Qed.

Lemma allow_path_name `{PairingEnv} channel name :
  allow_from_path channel = Ok name → ∃ key, safe_channel_key channel = Ok key ∧ name = allow_name key.
Proof. unfold allow_from_path, mbind, result_bind. destruct (safe_channel_key channel) as [key|]; [|done]. intros [= <-]. by exists key. Qed.

Lemma attempts_path_name `{PairingEnv} channel name :
  approve_attempts_path channel = Ok name → ∃ key, safe_channel_key channel = Ok key ∧ name = attempts_name key.
Proof. unfold approve_attempts_path, mbind, result_bind. destruct (safe_channel_key channel) as [key|]; [|done]. intros [= <-]. by exists key. Qed.

(** ** Steps

    What other parts of the program do with the store, under any faults, clocks and draws. *)
Inductive PairingOp : Type :=
| OpList (channel : string)
| OpUpsert (channel id : string) (meta : option Json)
| OpApprove (channel code : string).

Inductive store_step `{PairingEnv} (io : Faults) (clk : Clock) : PairingOp -> Disk -> Disk -> Prop :=
| step_list channel d : store_step io clk (OpList channel) d (list_pending io channel (clk 0%nat) d).2
| step_upsert channel id meta rng d :
    store_step io clk (OpUpsert channel id meta) d (upsert_request io channel id meta clk rng d).2
| step_approve channel code d : store_step io clk (OpApprove channel code) d (approve io channel code clk d).2.

(** serde reads what it wrote, and does not take an empty file for a document. *)
Class PairingLaws `{PairingEnv} : Prop := {
  pairing_empty : pairing_from_str "" = None;
  pairing_printed f s : pairing_to_string f = Ok s → pairing_from_str s = Some f;
  allow_empty : allow_from_str "" = None;
  allow_printed f s : allow_to_string f = Ok s → allow_from_str s = Some f;
  attempts_empty : attempts_from_str "" = None;
  attempts_printed f : ∃ s, attempts_to_string f = Ok s ∧ attempts_from_str s = Some f
}.

Section steps.
Context `{PairingLaws}.

Lemma triple_after {A} (I : Disk -> Prop) (c : Store A) d : keeps I c → I d → I (c d).2.
Proof. intros Hc Hd. specialize (Hc d Hd). by destruct (c d) as [[]]. Qed.

(** *** Pending requests *)

Definition pending (d : Disk) (key : string) : list PairingRequest :=
  requests (default empty_pairing (d !! pairing_name key ≫= pairing_from_str)).

Definition well_kept (l : list PairingRequest) : Prop := (length l ≤ PAIRING_PENDING_MAX)%nat ∧ NoDup (pr_id <$> l).

Definition pending_ok (d : Disk) : Prop := ∀ key, well_kept (pending d key).

Lemma well_kept_sublist l k : l `sublist_of` k → well_kept k → well_kept l.
Proof.
  intros Hl [Hk Hn]. split; [pose proof (sublist_length _ _ Hl); lia|].
  eapply sublist_NoDup; [exact Hn|]. by apply fmap_sublist.
Qed.

Lemma live_sublist now l : live now l `sublist_of` l.
Proof. apply sublist_filter. Qed.

Lemma pending_insert d key key' content :
  pending (<[pairing_name key := content]> d) key' =
  if decide (key = key') then requests (default empty_pairing (pairing_from_str content)) else pending d key'.
Proof.
  unfold pending. case_decide as Hk; [subst; by rewrite lookup_insert_eq|].
  rewrite lookup_insert_ne; [done|]. by intros ?%suffix_inj.
Qed.

Lemma pending_other d name content key : (∀ k, name ≠ pairing_name k) → pending (<[name := content]> d) key = pending d key.
Proof. intros Hn. unfold pending. by rewrite lookup_insert_ne. Qed.

Lemma pending_ok_put d key content :
  well_kept (requests (default empty_pairing (pairing_from_str content))) →
  pending_ok d → pending_ok (<[pairing_name key := content]> d).
Proof. intros Hc Hd key'. rewrite pending_insert. by case_decide. Qed.

Lemma pending_ok_clear d key : pending_ok d → pending_ok (<[pairing_name key := ""]> d).
Proof. apply pending_ok_put. rewrite pairing_empty. split; [cbn; lia|constructor]. Qed.

Lemma pending_ok_other d name content :
  (∀ k, name ≠ pairing_name k) → pending_ok d → pending_ok (<[name := content]> d).
Proof. intros Hn Hd key. by rewrite pending_other. Qed.

Lemma pending_ok_write io key reqs : well_kept reqs → keeps pending_ok (write_pairing_file_locked io (pairing_name key) reqs).
Proof.
  intros Hr. apply keeps_write_locked; [intros; by apply pending_ok_clear|].
  intros d json Hj. apply pending_ok_put. by rewrite (pairing_printed _ _ Hj).
Qed.

Lemma load_pairing_kept io d key : pending_ok d → well_kept (requests (load_pairing io d (pairing_name key))).
Proof.
  intros Hd. specialize (Hd key). unfold pending in Hd. unfold load_pairing, read_to_string.
  assert (well_kept (requests (default empty_pairing (pairing_from_str "")))) as Hempty.
  { rewrite pairing_empty. split; [cbn; lia|constructor]. }
  destruct (io Read _); [done|]. by destruct (d !! pairing_name key).
Qed.

Lemma well_kept_touch l i r r' :
  l !! i = Some r → pr_id r' = pr_id r → well_kept l → well_kept (<[i := r']> l).
Proof.
  intros Hi Hr [Hl Hn]. split; [by rewrite length_insert|].
  rewrite list_fmap_insert, Hr, list_insert_id; [done|]. by rewrite list_lookup_fmap, Hi.
Qed.

Lemma well_kept_snoc l r :
  Forall (fun x => pr_id x ≠ pr_id r) l → (length l < PAIRING_PENDING_MAX)%nat → well_kept l → well_kept (l ++ [r]).
Proof.
  intros Hf Hl [_ Hn]. split; [rewrite length_app; cbn; lia|]. rewrite fmap_app. apply NoDup_app.
  split; [done|]. split; [|apply NoDup_singleton]. intros x Hx ->%list_elem_of_singleton.
  apply list_elem_of_fmap in Hx as (y & Hy & Hin). rewrite Forall_forall in Hf. by apply (Hf y Hin).
Qed.

Lemma attempts_not_pairing key k : attempts_name key ≠ pairing_name k.
Proof. intros Hn. destruct (file_names_differ k key) as (_ & Hd & _). by apply Hd. Qed.
Lemma allow_not_pairing key k : allow_name key ≠ pairing_name k.
Proof. intros Hn. destruct (file_names_differ k key) as (Hd & _). by apply Hd. Qed.

Lemma list_pending_keeps io channel now : keeps pending_ok (list_pending io channel now).
Proof.
  unfold list_pending. apply keeps_lift. intros name (key & Hk & ->)%pairing_path_name.
  apply keeps_read. intros d Hd. destruct (read_to_string io d _) as [content|[]] eqn:Hr; walk.
  unfold write_pairing_file. apply keeps_lift. intros name (key' & Hk' & ->)%pairing_path_name. rewrite Hk in Hk'. injection Hk' as <-.
  apply keeps_bind; [apply keeps_open; intros; by apply pending_ok_clear|]. intros [].
  apply keeps_bind; [walk|]. intros []. apply keeps_bind; [|intros; walk]. apply pending_ok_write.
  eapply well_kept_sublist; [apply live_sublist|]. specialize (Hd key). unfold pending in Hd.
  unfold read_to_string in Hr. destruct (io Read _); [done|]. destruct (d !! pairing_name key); [|done]. by injection Hr as ->.
Qed.

Lemma upsert_keeps io channel id meta clk rng : keeps pending_ok (upsert_request io channel id meta clk rng).
Proof.
  unfold upsert_request. apply keeps_lift. intros name (key & Hk & ->)%pairing_path_name.
  apply keeps_bind; [walk|]. intros []. apply keeps_bind; [apply keeps_open; intros; by apply pending_ok_clear|]. intros [].
  apply keeps_bind; [walk|]. intros []. apply keeps_read. intros d Hd.
  destruct (str_is_empty (trim id)); [walk|].
  pose proof (well_kept_sublist _ _ (live_sublist (clk 1%nat) _) (load_pairing_kept io d key Hd)) as Hl.
  set (reqs := live _ _) in *. destruct (list_find _ reqs) as [[idx req]|] eqn:Hf.
  - apply list_find_Some in Hf as (Hi & _). apply keeps_bind; [|intros; walk].
    apply pending_ok_write. by eapply well_kept_touch.
  - case_bool_decide as Hm; [walk|]. apply keeps_bind; [|intros; walk].
    apply pending_ok_write. apply well_kept_snoc; [|lia|done].
    apply list_find_None in Hf. by eapply Forall_impl; [exact Hf|].
Qed.

Lemma record_failed_keeps io channel now (I : Disk -> Prop) :
  (∀ d key content, safe_channel_key channel = Ok key → I d → I (<[attempts_name key := content]> d)) →
  keeps I (record_failed_approve io channel now).
Proof.
  intros HI. unfold record_failed_approve. apply keeps_lift. intros name (key & Hk & ->)%attempts_path_name.
  apply keeps_bind; [walk|]. intros []. apply keeps_bind; [apply keeps_open; auto|]. intros [].
  walk; apply keeps_fs_write; auto.
Qed.

Lemma add_allow_keeps io channel entry (I : Disk -> Prop) :
  (∀ d key content, safe_channel_key channel = Ok key → I d → I (<[allow_name key := content]> d)) →
  keeps I (add_allow_from io channel entry).
Proof.
  intros HI. unfold add_allow_from. destruct (str_is_empty (trim entry)); [walk|].
  apply keeps_lift. intros name (key & Hk & ->)%allow_path_name.
  apply keeps_bind; [walk|]. intros []. apply keeps_bind; [apply keeps_open; auto|]. intros [].
  walk; apply keeps_fs_write; auto.
Qed.

Lemma keeps_open_existing io name (I : Disk -> Prop) :
  (∀ d, I d → d !! name = None → I (<[name := ""]> d)) → keeps I (open_existing io name).
Proof.
  intros HI d Hd. unfold open_existing.
  pose proof (keeps_open io false false name I ltac:(naive_solver) d Hd) as Ho.
  destruct (open_file io false false name d) as [[[]|[| |[]| |]] d']; done.
Qed.

Lemma limited_keeps io channel now (I : Disk -> Prop) : keeps I (is_approve_rate_limited io channel now).
Proof. unfold is_approve_rate_limited. walk. Qed.

(** What an approval leaves alone: an invariant of the pairing files that lost requests, and of the
    other two files. *)
Lemma approve_keeps io channel code clk (I : Disk -> Prop) :
  (∀ d key content, safe_channel_key channel = Ok key → I d → I (<[attempts_name key := content]> d)) →
  (∀ d key content, safe_channel_key channel = Ok key → I d → I (<[allow_name key := content]> d)) →
  (∀ d key, safe_channel_key channel = Ok key → I d → I (<[pairing_name key := ""]> d)) →
  (∀ d key i, safe_channel_key channel = Ok key → I d →
     keeps I (write_pairing_file_locked io (pairing_name key)
                (delete i (live (clk 1%nat) (requests (load_pairing io d (pairing_name key))))))) →
  keeps I (approve io channel code clk).
Proof.
  intros Hat Hal Hpe Hpw. unfold approve. destruct (str_is_empty _); [walk|].
  apply keeps_bind; [apply limited_keeps|]. intros []; [walk|].
  apply keeps_lift. intros name (key & Hk & ->)%pairing_path_name.
  apply keeps_bind; [apply keeps_open_existing; auto|]. intros []. apply keeps_bind; [walk|]. intros [].
  apply keeps_read. intros d Hd. unfold settle. destruct (list_find _ _) as [[i entry]|].
  - apply keeps_bind; [by apply Hpw|]. intros []. apply keeps_bind; [walk|]. intros [].
    apply keeps_bind; [by apply add_allow_keeps|]. intros []. walk.
  - apply keeps_bind; [walk|]. intros []. apply keeps_bind; [by apply record_failed_keeps|]. intros []. walk.
Qed.

Lemma store_step_pending io clk op d d' : store_step io clk op d d' → pending_ok d → pending_ok d'.
Proof.
  destruct 1; apply triple_after; [apply list_pending_keeps|apply upsert_keeps|]. apply approve_keeps.
  - intros d0 key content _. apply pending_ok_other, attempts_not_pairing.
  - intros d0 key content _. apply pending_ok_other, allow_not_pairing.
  - intros d0 key _. apply pending_ok_clear.
  - intros d0 key i _ Hd. apply pending_ok_write. eapply well_kept_sublist; [|by apply (load_pairing_kept io d0 key)].
    etrans; [apply sublist_delete|apply live_sublist].
Qed.

End steps.

(** Any sequence of operations, each with its own faults and clock. *)
Inductive reachable `{PairingEnv} : Disk -> Prop :=
| reach_empty : reachable ∅
| reach_step io clk op d d' : reachable d → store_step io clk op d d' → reachable d'.

(** Strangers cannot fill the store: whatever is requested, approved or listed, and whichever file
    operation fails, every channel holds at most three pending requests, no two of
    the same sender. *)
Theorem pending_requests_bounded `{PairingLaws} d key :
  reachable d → (length (pending d key) ≤ PAIRING_PENDING_MAX)%nat ∧ NoDup (pr_id <$> pending d key).
Proof.
  intros Hd. enough (pending_ok d) as Hok by apply Hok.
  induction Hd as [|io clk op d d' _ IH Hs]; [|by eapply store_step_pending].
  intros k. unfold pending. rewrite lookup_empty. split; [cbn; lia|constructor].
Qed.

(** *** Admission *)

Section admission.
Context `{PairingLaws}.

Definition allowed (d : Disk) (key : string) : list string :=
  allow_from (default empty_allow (d !! allow_name key ≫= allow_from_str)).

Lemma allowed_insert d key key' content :
  allowed (<[allow_name key := content]> d) key' =
  if decide (key = key') then allow_from (default empty_allow (allow_from_str content)) else allowed d key'.
Proof.
  unfold allowed. case_decide as Hk; [subst; by rewrite lookup_insert_eq|].
  rewrite lookup_insert_ne; [done|]. by intros ?%suffix_inj.
Qed.

Lemma allowed_other d name content key : (∀ k, name ≠ allow_name k) → allowed (<[name := content]> d) key = allowed d key.
Proof. intros Hn. unfold allowed. by rewrite lookup_insert_ne. Qed.

Lemma pairing_not_allow key k : pairing_name key ≠ allow_name k.
Proof. apply (file_names_differ key k). Qed.
Lemma attempts_not_allow key k : attempts_name key ≠ allow_name k.
Proof. intros Hn. destruct (file_names_differ k key) as (_ & _ & Hd). by apply Hd. Qed.

(** Up to the locked part, [approve] only reads. *)
Lemma approve_reads io channel code clk d :
  (∃ e, approve io channel code clk d = (Err e, d)) ∨
  approve io channel code clk d = (Ok None, d) ∧ to_uppercase (trim code) = "" ∨
  ∃ key, safe_channel_key channel = Ok key ∧ to_uppercase (trim code) ≠ "" ∧
    is_approve_rate_limited io channel (clk 0%nat) d = (Ok false, d) ∧
    approve io channel code clk d =
      settle io channel (pairing_name key) (to_uppercase (trim code)) clk
        (live (clk 1%nat) (requests (load_pairing io d (pairing_name key)))) d.
Proof.
  unfold approve. destruct (str_is_empty _) eqn:He; [right; left; split; [done|by apply str_is_empty_iff]|].
  assert (to_uppercase (trim code) ≠ "") as Hne by (intros Hs%str_is_empty_iff; congruence).
  assert (∃ r, is_approve_rate_limited io channel (clk 0%nat) d = (r, d)) as [r Hr].
  { unfold is_approve_rate_limited, mbind, store_bind, lift. destruct (approve_attempts_path channel); [|by eexists].
    cbn. destruct (read_to_string io d a) as [|[]]; by eexists. }
  unfold mbind, store_bind. rewrite Hr. destruct r as [[]|]; [by left; eexists|..|by left; eexists].
  unfold lift. destruct (pairing_path channel) as [name|] eqn:Hp; [|by left; eexists].
  apply pairing_path_name in Hp as (key & Hk & ->).
  unfold open_existing, open_file, io_step, mbind, store_bind. destruct (io Open _) as [[]|]; [by left; eexists|by left; eexists|]. cbn.
  destruct (d !! pairing_name key); cbn; [|by left; eexists]. destruct (io Lock _); [by left; eexists|]. cbn.
  right. right. by exists key.
Qed.

(** The entries of every list are old ones, or [e] with [P]. *)
Definition admits_only (d : Disk) (P : string -> string -> Prop) (d' : Disk) : Prop :=
  ∀ key e, e ∈ allowed d' key → e ∈ allowed d key ∨ P key e.

Lemma admits_clear d P key d' : admits_only d P d' → admits_only d P (<[allow_name key := ""]> d').
Proof.
  intros Ha key' e. rewrite allowed_insert. case_decide; [|apply Ha]. rewrite allow_empty. by intros ?%not_elem_of_nil.
Qed.

Lemma admits_other d P name content d' :
  (∀ k, name ≠ allow_name k) → admits_only d P d' → admits_only d P (<[name := content]> d').
Proof. intros Hn Ha key' e. rewrite allowed_other by done. apply Ha. Qed.

Lemma add_allow_admits io channel entry d P :
  (∀ key, safe_channel_key channel = Ok key → P key (trim entry)) →
  keeps (admits_only d P) (add_allow_from io channel entry).
Proof.
  intros HP. unfold add_allow_from. destruct (str_is_empty (trim entry)); [walk|].
  apply keeps_lift. intros name (key & Hk & ->)%allow_path_name.
  apply keeps_bind; [walk|]. intros []. apply keeps_bind; [apply keeps_open; intros; by apply admits_clear|]. intros [].
  apply keeps_bind; [walk|]. intros []. apply keeps_read. intros d0 Hd0.
  assert (∀ e, e ∈ allow_from (default empty_allow (allow_from_str
    (match read_to_string io d0 (allow_name key) with Ok c => c | Err _ => "" end))) → e ∈ allowed d key ∨ P key e) as Hold.
  { intros e. unfold read_to_string. destruct (io Read _); [rewrite allow_empty; by intros ?%not_elem_of_nil|].
    intros He. apply (Hd0 key e). unfold allowed. destruct (d0 !! allow_name key); [done|].
    rewrite allow_empty in He. by apply not_elem_of_nil in He. }
  set (store := default empty_allow _) in *. destruct (existsb _ _); [walk|].
  destruct (allow_to_string _) as [json|] eqn:Hj; [|walk].
  apply keeps_bind; [|intros; walk]. apply keeps_fs_write; [intros; by apply admits_clear|].
  intros d1 Hd1 key' e. rewrite allowed_insert. case_decide as Hkk; [|apply Hd1]. subst key'.
  rewrite (allow_printed _ _ Hj). cbn. intros [He| ->%list_elem_of_singleton]%elem_of_app; [by apply Hold|].
  right. by apply HP.
Qed.

Lemma write_locked_admits io key reqs d P :
  keeps (admits_only d P) (write_pairing_file_locked io (pairing_name key) reqs).
Proof. apply keeps_write_locked; intros; apply admits_other; auto using pairing_not_allow. Qed.

Lemma admits_nothing d P : admits_only d P d.
Proof. intros key e He. by left. Qed.

Lemma load_pending io d key r : r ∈ requests (load_pairing io d (pairing_name key)) → r ∈ pending d key.
Proof.
  unfold load_pairing, read_to_string, pending. destruct (io Read _); [rewrite pairing_empty; by intros ?%not_elem_of_nil|].
  destruct (d !! pairing_name key); [done|]. rewrite pairing_empty. by intros ?%not_elem_of_nil.
Qed.

Lemma upsert_admits io channel id meta clk rng d P : keeps (admits_only d P) (upsert_request io channel id meta clk rng).
Proof.
  unfold upsert_request. apply keeps_lift. intros name (key & Hk & ->)%pairing_path_name.
  apply keeps_bind; [walk|]. intros [].
  apply keeps_bind; [apply keeps_open; intros; apply admits_other; auto using pairing_not_allow|]. intros [].
  walk; apply write_locked_admits.
Qed.

Lemma list_admits io channel now d P : keeps (admits_only d P) (list_pending io channel now).
Proof.
  unfold list_pending. walk. unfold write_pairing_file. apply keeps_lift. intros name (key & Hk & ->)%pairing_path_name.
  apply keeps_bind; [apply keeps_open; intros; apply admits_other; auto using pairing_not_allow|]. intros [].
  walk. apply write_locked_admits.
Qed.

Lemma settle_admits io channel key code clk reqs d P :
  (∀ r k, r ∈ reqs → to_uppercase (pr_code r) = code → safe_channel_key channel = Ok k → P k (trim (pr_id r))) →
  keeps (admits_only d P) (settle io channel (pairing_name key) code clk reqs).
Proof.
  intros HP. unfold settle. destruct (list_find _ _) as [[i entry]|] eqn:Hf.
  - apply list_find_Some in Hf as (Hi & Hc & _). apply list_elem_of_lookup_2 in Hi.
    apply keeps_bind; [apply write_locked_admits|]. intros []. apply keeps_bind; [walk|]. intros [].
    apply keeps_bind; [apply add_allow_admits; intros; by eapply HP|]. intros []. walk.
  - apply keeps_bind; [walk|]. intros []. apply keeps_bind; [|intros; walk].
    apply record_failed_keeps. intros. apply admits_other; auto using attempts_not_allow.
Qed.

End admission.

(** C26. Nobody gets onto a list without a code the owner gave: whatever happens to the store, and
    whichever file operation fails, an entry that appears on the list of a channel is the sender
    of a request that was pending on that channel, had not expired, and carried the
    code that was approved. *)
Theorem admission_needs_live_code `{PairingLaws} io clk op d d' key e :
  store_step io clk op d d' → e ∈ allowed d' key →
  e ∈ allowed d key ∨
  ∃ channel code r, op = OpApprove channel code ∧ safe_channel_key channel = Ok key ∧
    r ∈ pending d key ∧ is_expired r (clk 1%nat) = false ∧
    to_uppercase (pr_code r) = to_uppercase (trim code) ∧ to_uppercase (trim code) ≠ "" ∧ e = trim (pr_id r).
Proof.
  intros Hs. revert key e. change (admits_only d (fun key e => ∃ channel code r, op = OpApprove channel code ∧
    safe_channel_key channel = Ok key ∧ r ∈ pending d key ∧ is_expired r (clk 1%nat) = false ∧
    to_uppercase (pr_code r) = to_uppercase (trim code) ∧ to_uppercase (trim code) ≠ "" ∧ e = trim (pr_id r)) d').
  destruct Hs as [channel d|channel id meta rng d|channel code d].
  - eapply triple_after; [apply list_admits|apply admits_nothing].
  - eapply triple_after; [apply upsert_admits|apply admits_nothing].
  - destruct (approve_reads io channel code clk d) as [[? ->]|[[-> _]|(key & Hk & Hc & _ & ->)]]; [apply admits_nothing..|].
    eapply triple_after; [|apply admits_nothing]. apply settle_admits. intros r k [Hx Hr]%list_elem_of_filter Hrc Hk'.
    rewrite Hk in Hk'. injection Hk' as <-. exists channel, code, r. repeat (split; [done|]).
    split; [by eapply load_pending|]. done.
Qed.

(** What a successful sequence went through. *)
Lemma bind_Ok {A B} (c : Store A) (k : A -> Store B) d b d' :
  (c ≫= k) d = (Ok b, d') → ∃ a d1, c d = (Ok a, d1) ∧ k a d1 = (Ok b, d').
Proof. unfold mbind, store_bind. destruct (c d) as [[a|] d1]; [by exists a, d1|done]. Qed.

Lemma io_step_Ok io op name d u d' : io_step io op name d = (Ok u, d') → d' = d.
Proof. unfold io_step. destruct (io op name); [done|]. by intros [= _ ->]. Qed.

Lemma add_allow_replaces `{PairingLaws} io channel key entry d u d' :
  safe_channel_key channel = Ok key → trim entry ≠ "" →
  add_allow_from io channel entry d = (Ok u, d') → allowed d' key = [trim entry].
Proof.
  intros Hk Hne. unfold add_allow_from. destruct (str_is_empty (trim entry)) eqn:He; [by apply str_is_empty_iff in He|].
  intros (name & ? & Hl & Hr)%bind_Ok. injection Hl as Hl <-. apply allow_path_name in Hl as (k & Hk' & ->).
  rewrite Hk in Hk'. injection Hk' as <-.
  apply bind_Ok in Hr as (? & ? & ->%io_step_Ok & (? & d1 & Ho & Hr)%bind_Ok).
  assert (d1 !! allow_name key = Some "") as Hd1.
  { unfold open_file in Ho. apply bind_Ok in Ho as (? & ? & ->%io_step_Ok & (? & ? & [= <- <-] & Ho)%bind_Ok).
    destruct (d !! allow_name key); injection Ho as _ <-; apply lookup_insert_eq. }
  apply bind_Ok in Hr as (? & ? & ->%io_step_Ok & (? & ? & [= <- <-] & Hr)%bind_Ok).
  assert ((match read_to_string io d1 (allow_name key) with Ok c => c | Err _ => "" end) = "") as Hread.
  { unfold read_to_string. destruct (io Read _); [done|]. by rewrite Hd1. }
  rewrite Hread, allow_empty in Hr. cbn in Hr.
  destruct (allow_to_string _) as [json|] eqn:Hj; [|done].
  apply bind_Ok in Hr as (? & d2 & Hw & ->%io_step_Ok). unfold fs_write in Hw.
  apply bind_Ok in Hw as (? & ? & _ & (? & ? & _ & [= _ <-])%bind_Ok).
  rewrite allowed_insert, decide_True by done. by rewrite (allow_printed _ _ Hj).
Qed.

(** The code erases the list of a channel before it reads it, so an approval leaves the new sender
    as the only entry: every sender approved earlier is refused from then on. *)
Theorem approval_forgets_earlier_senders `{PairingLaws} io channel key code clk d d' r :
  safe_channel_key channel = Ok key →
  approve io channel code clk d = (Ok (Some r), d') → trim (pr_id r) ≠ "" →
  allowed d' key = [trim (pr_id r)] ∧
  ∀ id, trim id ≠ trim (trim (pr_id r)) → sender_listed (allowed d' key) id None = false.
Proof.
  intros Hk Ha Hne. enough (allowed d' key = [trim (pr_id r)]) as Hl.
  { split; [done|]. intros id Hid. rewrite Hl. unfold sender_listed. cbn [existsb]. rewrite !orb_false_r. by apply String.eqb_neq, not_eq_sym. }
  destruct (approve_reads io channel code clk d) as [[? Hn]|[[Hn _]|(k & Hk' & Hc & _ & Hs)]].
  - congruence.
  - congruence.
  - rewrite Hk in Hk'. injection Hk' as <-. rewrite Hs in Ha. unfold settle in Ha.
    destruct (list_find _ _) as [[i entry]|]; [|by apply bind_Ok in Ha as (? & ? & _ & (? & ? & _ & [=])%bind_Ok)].
    apply bind_Ok in Ha as (? & ? & _ & (? & ? & _ & (? & d2 & Hadd & [= <- <-])%bind_Ok)%bind_Ok).
    by eapply add_allow_replaces.
Qed.

(** *** Guessing codes *)

Definition no_faults : Faults := fun _ _ => None.

(** [guesses key d h]: a disk [d] reached without faults, on which the wrong codes for the channel
    [key] were tried at the times [h], the latest first.  The clock never goes back. *)
Inductive guesses `{PairingEnv} (key : string) : Disk -> list Z -> Prop :=
| guesses_none d : d !! attempts_name key = None → guesses key d []
| guesses_wrong clk channel code d d' h :
    guesses key d h → safe_channel_key channel = Ok key → monotone clk → 0 ≤ clk 0%nat →
    (∀ t, head h = Some t → t ≤ clk 0%nat) → to_uppercase (trim code) ≠ "" →
    approve no_faults channel code clk d = (Ok None, d') → guesses key d' (clk 2%nat :: h)
| guesses_other clk op d d' h :
    guesses key d h → store_step no_faults clk op d d' →
    (∀ channel code, op = OpApprove channel code → safe_channel_key channel = Ok key →
       (approve no_faults channel code clk d).1 ≠ Ok None ∨ to_uppercase (trim code) = "") →
    guesses key d' h.

Section guessing.
Context `{PairingLaws}.

Definition fails (d : Disk) (key : string) : list Z :=
  failed_at (default empty_attempts (d !! attempts_name key ≫= attempts_from_str)).

Definition cutoff (now : Z) : Z := saturating_sub now PAIRING_APPROVE_RATE_WINDOW_SECS.

Lemma rate_limited_spec channel key now d :
  safe_channel_key channel = Ok key →
  is_approve_rate_limited no_faults channel now d =
    (Ok (bool_decide (PAIRING_APPROVE_RATE_LIMIT ≤ length (recent now (fails d key)))%nat), d).
Proof.
  intros Hk. unfold is_approve_rate_limited, approve_attempts_path, mbind, store_bind, result_bind. rewrite Hk. cbn.
  unfold read_to_string, no_faults, fails. cbn. fold (attempts_name key).
  by destruct (d !! attempts_name key); cbn.
Qed.

Lemma record_failed_spec channel key now d :
  safe_channel_key channel = Ok key →
  ∃ d', record_failed_approve no_faults channel now d = (Ok tt, d') ∧
    fails d' key = recent now (fails d key ++ [now]).
Proof.
  intros Hk. unfold record_failed_approve, approve_attempts_path, mbind, store_bind, result_bind. rewrite Hk. cbn.
  unfold open_file, mbind, store_bind. cbn. fold (attempts_name key).
  assert (∃ d1, (match d !! attempts_name key with Some _ => mret tt | None => put (attempts_name key) "" end : Store unit) d
    = (Ok tt, d1) ∧ failed_at (load_attempts no_faults d1 (attempts_name key)) = fails d key) as (d1 & Hopen & Hload).
  { unfold fails, load_attempts, read_to_string. destruct (d !! attempts_name key) eqn:Hd; eexists; (split; [done|]); cbn.
    - by rewrite Hd.
    - by rewrite lookup_insert_eq, attempts_empty. }
  rewrite Hopen. cbn. rewrite Hload.
  destruct (attempts_printed (mkAttempts (recent now (fails d key ++ [now])))) as (s & -> & Hs).
  cbn. eexists. split; [done|]. unfold fails. by rewrite lookup_insert_eq; cbn; rewrite Hs.
Qed.

(** An operation that is no wrong guess leaves the record of the guesses alone. *)
Definition attempts_same (d : Disk) (key : string) (d' : Disk) : Prop :=
  d' !! attempts_name key = d !! attempts_name key.

Lemma attempts_same_other d key d' name content :
  name ≠ attempts_name key → attempts_same d key d' → attempts_same d key (<[name := content]> d').
Proof. unfold attempts_same. intros Hn. by rewrite lookup_insert_ne. Qed.

Lemma pairing_not_attempts a b : pairing_name a ≠ attempts_name b.
Proof. apply (file_names_differ a b). Qed.
Lemma allow_not_attempts a b : allow_name a ≠ attempts_name b.
Proof. apply (file_names_differ a b). Qed.

Lemma write_locked_same io d key name reqs :
  name ≠ attempts_name key → keeps (attempts_same d key) (write_pairing_file_locked io name reqs).
Proof. intros Hn. apply keeps_write_locked; intros; by apply attempts_same_other. Qed.

Lemma other_step_same io clk op d d' key :
  io = no_faults → store_step io clk op d d' →
  (∀ channel code, op = OpApprove channel code → safe_channel_key channel = Ok key →
     (approve no_faults channel code clk d).1 ≠ Ok None ∨ to_uppercase (trim code) = "") →
  attempts_same d key d'.
Proof.
  intros -> Hs Hno. destruct Hs as [channel d|channel id meta rng d|channel code d].
  - eapply triple_after; [|done]. unfold list_pending. walk. unfold write_pairing_file. apply keeps_lift.
    intros name (k & Hk & ->)%pairing_path_name.
    apply keeps_bind; [apply keeps_open; intros; apply attempts_same_other; auto using pairing_not_attempts|]. intros [].
    walk. apply write_locked_same, pairing_not_attempts.
  - eapply triple_after; [|done]. unfold upsert_request. apply keeps_lift. intros name (k & Hk & ->)%pairing_path_name.
    apply keeps_bind; [walk|]. intros [].
    apply keeps_bind; [apply keeps_open; intros; apply attempts_same_other; auto using pairing_not_attempts|]. intros [].
    walk; apply write_locked_same, pairing_not_attempts.
  - specialize (Hno channel code eq_refl).
    destruct (approve_reads no_faults channel code clk d) as [[? ->]|[[-> _]|(k & Hk & Hc & _ & Ha)]]; [done..|].
    rewrite Ha in Hno |- *. unfold settle in *. destruct (list_find _ _) as [[i entry]|].
    + eapply triple_after; [|done]. apply keeps_bind; [apply write_locked_same, pairing_not_attempts|]. intros [].
      apply keeps_bind; [walk|]. intros []. apply keeps_bind; [|intros; walk].
      apply add_allow_keeps. intros. apply attempts_same_other; auto using allow_not_attempts.
    + destruct (decide (k = key)) as [->|Hne].
      * exfalso. destruct (Hno Hk) as [Hn|]; [|done]. apply Hn.
        destruct (record_failed_spec channel key (clk 2%nat) d Hk) as (d' & Hr & _).
        unfold mbind, store_bind, io_step, no_faults at 1. cbn. by rewrite Hr.
      * eapply triple_after; [|done]. apply keeps_bind; [walk|]. intros []. apply keeps_bind; [|intros; walk].
        apply record_failed_keeps. intros d0 k' content Hk'. rewrite Hk in Hk'. injection Hk' as <-.
        apply attempts_same_other. by intros ?%suffix_inj.
Qed.

(** What the file records of the guesses: those of the last window. *)
Definition recorded (d : Disk) (key : string) (h : list Z) : Prop :=
  Forall (fun x => 0 ≤ x) h ∧
  match h with
  | [] => fails d key = []
  | t :: _ => Forall (fun x => x ≤ t) h ∧ fails d key ≡ₚ base.filter (fun x => cutoff t ≤ x) h
  end.

Lemma recent_recorded d key h now :
  recorded d key h → (∀ t, head h = Some t → t ≤ now) → recent now (fails d key) ≡ₚ base.filter (fun x => cutoff now ≤ x) h.
Proof.
  intros [_ Hr] Hnow. unfold recent. fold (cutoff now). destruct h as [|t h]; [by rewrite Hr|].
  destruct Hr as [_ ->]. rewrite list_filter_filter. match goal with |- ?a ≡ₚ ?b => enough (a = b) as -> by done end.
  apply list_filter_iff. specialize (Hnow t eq_refl). unfold cutoff, saturating_sub. lia.
Qed.

Lemma wrong_guess_recorded channel key code clk d d' h :
  recorded d key h → safe_channel_key channel = Ok key → monotone clk → 0 ≤ clk 0%nat →
  (∀ t, head h = Some t → t ≤ clk 0%nat) → to_uppercase (trim code) ≠ "" →
  approve no_faults channel code clk d = (Ok None, d') →
  recorded d' key (clk 2%nat :: h) ∧
  (length (base.filter (fun x => (cutoff (clk 0%nat) ≤ x)%Z) h) < PAIRING_APPROVE_RATE_LIMIT)%nat.
Proof.
  intros Hr Hk Hmono H0' Hlast Hc Ha.
  assert (clk 0%nat ≤ clk 2%nat) as Hle by (apply Hmono; lia).
  destruct (approve_reads no_faults channel code clk d) as [[? Hn]|[[_ ?]|(k & Hk' & _ & Hlim & Hs)]]; [congruence|done|].
  rewrite Hk in Hk'. injection Hk' as <-. rewrite (rate_limited_spec channel key) in Hlim by done. split.
  2:{ injection Hlim as Hlim. apply bool_decide_eq_false in Hlim. rewrite (recent_recorded _ _ _ _ Hr Hlast) in Hlim. lia. }
  rewrite Hs in Ha. unfold settle in Ha. destruct (list_find _ _) as [[i entry]|].
  { by apply bind_Ok in Ha as (? & ? & _ & (? & ? & _ & (? & ? & _ & [=])%bind_Ok)%bind_Ok). }
  apply bind_Ok in Ha as (? & ? & ->%io_step_Ok & (? & d1 & Hrec & [= <-])%bind_Ok).
  destruct (record_failed_spec channel key (clk 2%nat) d Hk) as (d2 & Hrec' & Hf). rewrite Hrec in Hrec'. injection Hrec' as _ <-.
  pose proof Hr as [Hpos Hrest]. split; [by constructor; [lia|]|]. split.
  - constructor; [lia|]. destruct h as [|t h]; [done|]. destruct Hrest as [Hmax _]. specialize (Hlast t eq_refl).
    eapply Forall_impl; [exact Hmax|]. cbn. lia.
  - rewrite Hf. unfold recent. rewrite filter_app. fold (cutoff (clk 2%nat)).
    change (base.filter _ (fails d key)) with (recent (clk 2%nat) (fails d key)).
    rewrite (recent_recorded d key h (clk 2%nat) Hr) by (intros t Ht; specialize (Hlast t Ht); lia).
    rewrite filter_cons, filter_cons, filter_nil, decide_True by (unfold cutoff, saturating_sub, PAIRING_APPROVE_RATE_WINDOW_SECS; lia).
    rewrite decide_True by (unfold cutoff, saturating_sub, PAIRING_APPROVE_RATE_WINDOW_SECS; lia). by rewrite Permutation_app_comm.
Qed.

Lemma guesses_recorded key d h : guesses key d h → recorded d key h.
Proof.
  induction 1 as [d Hd|clk channel code d d' h _ IH Hk Hm H0' Hlast Hc Ha|clk op d d' h _ IH Hs Hno].
  - split; [constructor|]. unfold fails. by rewrite Hd.
  - by eapply wrong_guess_recorded.
  - pose proof (other_step_same _ _ _ _ _ _ eq_refl Hs Hno) as Hsame. unfold recorded, fails in *. by rewrite Hsame.
Qed.

End guessing.

(** Codes cannot be guessed faster than the limit: however requests, approvals and lists are mixed, no
    five minutes see more than ten wrong codes for a channel, and the limit
    survives a restart, since it is kept on disk. *)
Theorem guesses_rate_limited `{PairingLaws} key d h t :
  guesses key d h →
  (length (base.filter (fun x => (t ≤ x ≤ t + PAIRING_APPROVE_RATE_WINDOW_SECS)%Z) h) ≤ PAIRING_APPROVE_RATE_LIMIT)%nat.
Proof.
  induction 1 as [d Hd|clk channel code d d' h Hg IH Hk Hm H0' Hlast Hc Ha|clk op d d' h _ IH Hs Hno]; [cbn; lia| |done].
  pose proof (guesses_recorded _ _ _ Hg) as Hr. pose proof (proj1 Hr) as Hpos.
  destruct (wrong_guess_recorded _ _ _ _ _ _ _ Hr Hk Hm H0' Hlast Hc Ha) as [_ Hlim].
  rewrite filter_cons. case_decide as Hin; [|done]. cbn [length].
  enough (length (base.filter (fun x => (t ≤ x ≤ t + PAIRING_APPROVE_RATE_WINDOW_SECS)%Z) h) ≤
          length (base.filter (fun x => (cutoff (clk 0%nat) ≤ x)%Z) h))%nat by lia.
  assert (clk 0%nat ≤ clk 2%nat) as Hle by (apply Hm; lia).
  apply submseteq_length, sublist_submseteq. clear -Hin Hpos Hle. induction Hpos as [|x l Hx Hl IH]; [constructor|].
  rewrite !filter_cons. unfold cutoff, saturating_sub in *.
  repeat case_decide; first [exact IH | apply sublist_skip; exact IH | apply sublist_cons; exact IH | exfalso; lia].
Qed.

(** *** Names and codes *)

Lemma safe_char_clean c : safe_char c ≠ "/"%char ∧ safe_char c ≠ "\"%char.
Proof.
  unfold safe_char. case_bool_decide as Hc; [done|]. rewrite !not_elem_of_cons in Hc.
  destruct Hc as (? & ? & _). done.
Qed.

Lemma replaced_char_clean c k s :
  c ≠ "_"%char → (∀ x, safe_char x ≠ c) → contains (String c "") (replace_go ".." "_" k (string_map safe_char s)) = false.
Proof.
  intros Hu Hc. revert k. induction s as [|x s IH]; intros k; [done|]. cbn [string_map replace_go].
  destruct k as [|k]; [|apply IH]. destruct (starts_with _ _).
  - change ("_" +:+ ?r) with (String "_" r). rewrite contains_char_cons, IH, bool_decide_false by done. done.
  - rewrite contains_char_cons, IH, bool_decide_false; [done|]. intros ->. by apply (Hc x).
Qed.

Lemma dots_replaced k s : contains ".." (replace_go ".." "_" k s) = false.
Proof.
  revert k. induction s as [|x s IH]; intros k; [done|]. cbn [replace_go]. destruct k as [|k]; [|apply IH].
  destruct (starts_with ".." (String x s)) eqn:Hs.
  - change ("_" +:+ ?r) with (String "_" r). cbn [contains]. by rewrite IH.
  - cbn [contains]. rewrite IH, orb_false_r. destruct s as [|y s]; [by unfold starts_with; cbn [String.prefix replace_go]; destruct (ascii_dec "." x)|].
    cbn [replace_go]. destruct (starts_with ".." (String y s)) eqn:Hy.
    + change ("_" +:+ ?r) with (String "_" r). unfold starts_with. cbn [String.prefix]. by destruct (ascii_dec "." x).
    + revert Hs. unfold starts_with. cbn [String.prefix]. destruct (ascii_dec "." x); [|done]. destruct (ascii_dec "." y); [by destruct s|done].
Qed.

(** A channel name cannot lead out of the directory of the store: the names of its files hold no
    separator and no [..], and are never empty. *)
Theorem channel_key_contained `{PairingEnv} channel key :
  safe_channel_key channel = Ok key →
  contains "/" key = false ∧ contains "\" key = false ∧ contains ".." key = false ∧ key ≠ "".
Proof.
  unfold safe_channel_key. destruct (str_is_empty (to_lowercase _)); [done|].
  destruct (str_is_empty _) eqn:He; [done|]. destruct (_ =? _)%string; [done|]. intros [= <-].
  split; [apply replaced_char_clean; [done|apply safe_char_clean]|].
  split; [apply replaced_char_clean; [done|apply safe_char_clean]|]. split; [apply dots_replaced|].
  intros Hk%str_is_empty_iff. congruence.
Qed.

(** Two channels can share their lists: the replacement is not injective. *)
Lemma channel_keys_collide `{PairingEnv} :
  (∀ s, to_lowercase s = string_map ascii_lower s) → safe_channel_key "a/b" = safe_channel_key "a:b".
Proof. intros Hl. unfold safe_channel_key. by rewrite !Hl. Qed.

Lemma unique_code_loop_spec existing rng rounds from :
  match unique_code_loop existing rng rounds from with
  | Some code => code ∉ existing
  | None => ∀ i, (i < rounds)%nat → random_code rng (from + i * PAIRING_CODE_LENGTH) ∈ existing
  end.
Proof.
  revert from. induction rounds as [|rounds IH]; intros from; cbn [unique_code_loop]; [lia|].
  case_bool_decide as Hin; [|done]. specialize (IH (from + PAIRING_CODE_LENGTH)%nat).
  destruct (unique_code_loop _ _ _ _); [done|]. intros [|i] Hi; [by rewrite Nat.add_0_r|].
  replace (from + S i * PAIRING_CODE_LENGTH)%nat with (from + PAIRING_CODE_LENGTH + i * PAIRING_CODE_LENGTH)%nat by lia.
  apply IH. lia.
Qed.

(** A new code differs from every pending one, unless 500 draws in a row hit pending codes. *)
Lemma generated_code_fresh existing rng :
  generate_unique_code existing rng ∉ existing ∨
  ∀ i, (i < 500)%nat → random_code rng (i * PAIRING_CODE_LENGTH) ∈ existing.
Proof.
  unfold generate_unique_code. pose proof (unique_code_loop_spec existing rng 500 0) as Hs.
  destruct (unique_code_loop existing rng 500 0); [by left|by right].
Qed.

(** ** A concrete store

    Files are written as the bits of an encoding; requests with metadata are refused. *)
Definition flat (r : PairingRequest) : option (string * string * string * string) :=
  match pr_meta r with None => Some (pr_id r, pr_code r, created_at r, last_seen_at r) | Some _ => None end.
Definition unflat (t : string * string * string * string) : PairingRequest :=
  match t with (i, c, a, l) => mkRequest i c a l None end.

#[export] Instance demo_pairing : PairingEnv := {|
  to_lowercase := string_map ascii_lower;
  to_uppercase := string_map (fun c => if (97 <=? nat_of_ascii c)%nat && (nat_of_ascii c <=? 122)%nat
                                       then ascii_of_nat (nat_of_ascii c - 32) else c);
  parse_from_rfc3339 := fun _ => None;
  to_rfc3339 := fun _ => None;
  pairing_from_str := fun s => (fun p : Z * list (string * string * string * string) =>
    mkPairingFile p.1 (unflat <$> p.2)) <$> decode_text s;
  pairing_to_string := fun f => match mapM flat (requests f) with
    | Some l => Ok (encode_text (pf_version f, l)) | None => Err "metadata" end;
  allow_from_str := fun s => (fun p : Z * list string => mkAllowFile p.1 p.2) <$> decode_text s;
  allow_to_string := fun f => Ok (encode_text (af_version f, allow_from f));
  attempts_from_str := fun s => mkAttempts <$> decode_text s;
  attempts_to_string := fun f => Ok (encode_text (failed_at f))
|}.

Lemma unflat_flat l k : mapM flat l = Some k → unflat <$> k = l.
Proof.
  intros Hm%mapM_Some. induction Hm as [|x y l k Hx Hm IH]; [done|]. cbn. rewrite IH. f_equal.
  unfold flat in Hx. destruct x as [i c a s [m|]]; [done|]. by injection Hx as <-.
Qed.

#[export] Instance demo_pairing_laws : PairingLaws.
Proof.
  split; try done.
  - intros [v l] s. cbn. destruct (mapM flat l) as [k|] eqn:Hm; [|done]. intros [= <-]. rewrite decode_encode_text. cbn.
    by rewrite (unflat_flat _ _ Hm).
  - intros [v l] s. cbn. intros [= <-]. by rewrite decode_encode_text.
  - intros [l]. cbn. eexists. split; [done|]. by rewrite decode_encode_text.
Qed.

Definition demo_asked : Disk := (upsert_request no_faults "telegram" "alice" None (frozen 1000) (fun i => i) ∅).2.
Definition demo_alice : Disk := (approve no_faults "Telegram" " abcdefgh " (frozen 1060) demo_asked).2.
Definition demo_bob_asked : Disk := (upsert_request no_faults "telegram" "bob" None (frozen 2000) (fun i => i + 8)%nat demo_alice).2.
Definition demo_bob : PairingRequest := mkRequest "bob" "JKLMNPQR" "2000" "2000" None.

Lemma pending_requests_bounded_witness :
  reachable demo_asked ∧ (length (pending demo_asked "telegram") ≤ PAIRING_PENDING_MAX)%nat ∧
  NoDup (pr_id <$> pending demo_asked "telegram").
Proof.
  assert (reachable demo_asked) as Hr by (eapply reach_step; [apply reach_empty|apply (step_upsert no_faults (frozen 1000) "telegram" "alice" None (fun i => i))]).
  split; [exact Hr|]. exact (pending_requests_bounded demo_asked "telegram" Hr).
Defined.

Lemma admission_needs_live_code_witness :
  allowed demo_asked "telegram" = [] ∧ allowed demo_alice "telegram" = ["alice"] ∧
  ∃ r, r ∈ pending demo_asked "telegram" ∧ pr_code r = "ABCDEFGH".
Proof.
  split; [vm_compute; reflexivity|]. split; [vm_compute; reflexivity|].
  destruct (admission_needs_live_code no_faults (frozen 1060) (OpApprove "Telegram" " abcdefgh ") demo_asked demo_alice
    "telegram" "alice") as [He|(channel & code & r & _ & _ & Hr & _)].
  - constructor.
  - replace (allowed demo_alice "telegram") with ["alice"] by (vm_compute; reflexivity). apply list_elem_of_here.
  - exfalso. replace (allowed demo_asked "telegram") with (@nil string) in He by (vm_compute; reflexivity). by apply not_elem_of_nil in He.
  - exists r. split; [exact Hr|]. 
    replace (pending demo_asked "telegram") with [mkRequest "alice" "ABCDEFGH" "1000" "1000" None] in Hr by (vm_compute; reflexivity).
    apply list_elem_of_singleton in Hr as ->. reflexivity.
Defined.

Lemma approval_forgets_earlier_senders_witness :
  sender_listed (allowed demo_bob_asked "telegram") "alice" None = true ∧
  sender_listed (allowed (approve no_faults "telegram" "JKLMNPQR" (frozen 2060) demo_bob_asked).2 "telegram") "alice" None = false.
Proof.
  split; [vm_compute; reflexivity|].
  destruct (approval_forgets_earlier_senders no_faults "telegram" "telegram" "JKLMNPQR" (frozen 2060) demo_bob_asked
    (approve no_faults "telegram" "JKLMNPQR" (frozen 2060) demo_bob_asked).2 demo_bob) as [_ Hid].
  - vm_compute. reflexivity.
  - vm_compute. reflexivity.
  - vm_compute. discriminate.
  - apply Hid. vm_compute. discriminate.
Defined.

Lemma guesses_rate_limited_witness :
  ∃ d, guesses "telegram" d [500] ∧
  (length (base.filter (fun x => (400 ≤ x ≤ 400 + PAIRING_APPROVE_RATE_WINDOW_SECS)%Z) [500%Z]) ≤ PAIRING_APPROVE_RATE_LIMIT)%nat.
Proof.
  set (d := (approve no_faults "telegram" "WRONG" (frozen 500) demo_asked).2).
  assert (guesses "telegram" d [500]) as Hg.
  { apply (guesses_wrong "telegram" (frozen 500) "telegram" "WRONG" demo_asked d []).
    - apply guesses_none. vm_compute. reflexivity.
    - vm_compute. reflexivity.
    - intros i j _. unfold frozen. lia.
    - unfold frozen. lia.
    - intros t. discriminate.
    - vm_compute. discriminate.
    - vm_compute. reflexivity. }
  exists d. split; [exact Hg|]. exact (guesses_rate_limited "telegram" d [500] 400 Hg).
Defined.

Lemma channel_key_contained_witness :
  safe_channel_key "../Tele\gram" = Ok "__tele_gram" ∧ contains ".." "__tele_gram" = false.
Proof.
  assert (safe_channel_key "../Tele\gram" = Ok "__tele_gram") as Hk by (vm_compute; reflexivity).
  split; [exact Hk|]. destruct (channel_key_contained _ _ Hk) as (_ & _ & Hd & _). exact Hd.
Defined.
