(* ===== verification/Shell.v ===== *)
(** * Shell: the tool that runs commands

    [src/tools/builtin/shell.rs]: the classification of a command and the approval it needs, the
    patterns it is refused for, and how it is run.  An execution returns its result with the
    process it started.  Processes, the Docker sandbox, the environment, serde, Unicode
    case mapping and lossy decoding are parameters. *)

From Stdlib Require Import Ascii.
From S2P Require Import Prelude Text TextSearch Provider ReplyText ToolExec Ssrf HttpTool.

Local Open Scope Z_scope.

(** ** Limits and patterns *)

Definition MAX_OUTPUT_SIZE : nat := Z.to_nat (64 * 1024).
Definition DEFAULT_TIMEOUT : Z := 120.

Definition BLOCKED_COMMANDS : list string :=
  ["rm -rf /"; "rm -rf /*"; ":(){ :|:& };:"; "dd if=/dev/zero"; "mkfs"; "chmod -R 777 /";
   "> /dev/sda"; "curl | sh"; "wget | sh"; "curl | bash"; "wget | bash"].

Definition DANGEROUS_PATTERNS : list string :=
  ["sudo "; "doas "; " | sh"; " | bash"; " | zsh"; "eval "; "$(curl"; "$(wget"; "/etc/passwd";
   "/etc/shadow"; "~/.ssh"; ".bash_history"; "id_rsa"].

Definition NEVER_AUTO_APPROVE_PATTERNS : list string :=
  ["rm -rf"; "rm -fr"; "chmod -r 777"; "chmod 777"; "chown -r"; "shutdown"; "reboot"; "poweroff";
   "init 0"; "init 6"; "iptables"; "nft"; "useradd"; "userdel"; "passwd"; "visudo"; "crontab";
   "systemctl disable"; "launchctl unload"; "kill -9"; "killall"; "pkill"; "docker rm"; "docker rmi";
   "docker system prune"; "git push --force"; "git push --force-with-lease"; "git push -f";
   "git reset --hard"; "git clean -f"; "DROP TABLE"; "DROP DATABASE"; "TRUNCATE"; "DELETE FROM";
   "sudo"].

Definition SAFE_ENV_VARS : list string :=
  ["PATH"; "HOME"; "USER"; "LOGNAME"; "SHELL"; "TERM"; "COLORTERM"; "LANG"; "LC_ALL"; "LC_CTYPE";
   "LC_MESSAGES"; "PWD"; "TMPDIR"; "TMP"; "TEMP"; "XDG_RUNTIME_DIR"; "XDG_DATA_HOME";
   "XDG_CONFIG_HOME"; "XDG_CACHE_HOME"; "CARGO_HOME"; "RUSTUP_HOME"; "NODE_PATH"; "NPM_CONFIG_PREFIX";
   "EDITOR"; "VISUAL"; "SystemRoot"; "SYSTEMROOT"; "ComSpec"; "PATHEXT"; "APPDATA"; "LOCALAPPDATA";
   "USERPROFILE"; "ProgramFiles"; "ProgramFiles(x86)"; "WINDIR"].

Definition LOW_RISK_PATTERNS : list string :=
  ["ls"; "ll"; "la"; "dir"; "cat"; "less"; "more"; "head"; "tail"; "grep"; "rg"; "ag"; "fd"; "locate";
   "echo"; "printf"; "pwd"; "cd"; "env"; "printenv"; "which"; "whereis"; "type"; "date"; "cal";
   "uptime"; "uname"; "df"; "du"; "free"; "top"; "htop"; "ps"; "git status"; "git log"; "git diff";
   "git show"; "git branch"; "git remote"; "git fetch"; "cargo check"; "cargo clippy"; "curl --head";
   "curl -I"; "ping"; "wc"; "sort"; "uniq"; "tr"; "cut"; "jq"; "yq"; "file"; "stat"; "man"].

Definition MEDIUM_RISK_PATTERNS : list string :=
  ["awk"; "sed"; "find"; "mkdir"; "rmdir"; "touch"; "cp"; "copy"; "mv"; "move"; "git commit";
   "git add"; "git push"; "git checkout"; "git switch"; "git merge"; "git rebase"; "git stash";
   "git tag"; "cargo build"; "cargo run"; "cargo test"; "npm test"; "npm run test"; "yarn test";
   "npm install"; "npm ci"; "npm update"; "pip install"; "pip uninstall"; "brew install";
   "brew uninstall"; "apt install"; "apt remove"; "make"; "cmake"; "tar"; "zip"; "unzip"; "gzip";
   "gunzip"; "ssh"; "scp"; "rsync"; "curl"; "wget"; "docker build"; "docker pull"; "docker run";
   "kubectl apply"; "kubectl create"].

(** ** Risk *)

Inductive RiskLevel : Type := Low | Medium | High.

Definition risk_max (a b : RiskLevel) : RiskLevel :=
  match a, b with
  | High, _ | _, High => High
  | Medium, _ | _, Medium => Medium
  | Low, Low => Low
  end.

(** [iter.max()] *)
Definition risk_maximum (l : list RiskLevel) : option RiskLevel :=
  match l with [] => None | r :: l => Some (foldl risk_max r l) end.

Definition matches_command_pattern (segment pattern : string) : bool :=
  if contains " " pattern then (segment =? pattern)%string || starts_with (pattern +:+ " ") segment
  else (default "" (head (split_whitespace segment)) =? pattern)%string.

(** [s.split(['|', '&', ';'])] *)
Definition is_separator (c : ascii) : bool := bool_decide (c ∈ ["|"; "&"; ";"]%char).

Fixpoint split_where (f : ascii -> bool) (s : string) : list string :=
  match s with
  | EmptyString => [""]
  | String c r =>
      if f c then "" :: split_where f r
      else match split_where f r with
           | [] => [String c ""]
           | piece :: rest => String c piece :: rest
           end
  end.

Class ShellEnv := {
  to_lowercase : string -> string;
  json_from_str : string -> option Json;
  from_utf8_lossy : string -> string;
  env_var : string -> option string;
  current_dir : option string;
  target_windows : bool
}.

Inductive SandboxPolicy : Type := ReadOnly | WorkspaceWrite | FullAccess.

(** The manager of the sandbox: what the tool asks of it, and what it does with a command; [None] when
    the time is up. *)
Record SandboxManager : Type := mkSandbox {
  is_initialized : bool;
  config_enabled : bool;
  execute_with_policy : string -> string -> SandboxPolicy -> option (Result string (string * Z))
}.

(** A process on the host, and how it ends. *)
Record HostCommand : Type := mkHost {
  program : string;
  args : list string;
  env : gmap string string;
  cwd : string;
  hc_timeout : Z
}.

Inductive ProcessEnd : Type :=
| SpawnFailed (e : string)
| WaitFailed (e : string)
| TimedOut
| Exited (stdout stderr : string) (code : option Z).

(** What an execution started. *)
Inductive Started : Type :=
| InSandbox (cmd workdir : string) (policy : SandboxPolicy) (timeout : Z)
| OnHost (c : HostCommand).

Record ShellTool : Type := mkShell {
  working_dir : option string;
  timeout : Z;
  allow_dangerous : bool;
  sandbox : option SandboxManager;
  sandbox_policy : SandboxPolicy
}.

Definition shell_new : ShellTool := mkShell None DEFAULT_TIMEOUT false None ReadOnly.
Definition with_working_dir (dir : string) (t : ShellTool) : ShellTool :=
  mkShell (Some dir) (timeout t) (allow_dangerous t) (sandbox t) (sandbox_policy t).
Definition with_timeout (d : Z) (t : ShellTool) : ShellTool :=
  mkShell (working_dir t) d (allow_dangerous t) (sandbox t) (sandbox_policy t).
Definition with_sandbox (s : SandboxManager) (t : ShellTool) : ShellTool :=
  mkShell (working_dir t) (timeout t) (allow_dangerous t) (Some s) (sandbox_policy t).
Definition with_sandbox_policy (p : SandboxPolicy) (t : ShellTool) : ShellTool :=
  mkShell (working_dir t) (timeout t) (allow_dangerous t) (sandbox t) p.

Section shell.
Context `{ShellEnv}.
(** How a process started on the host ends. *)
Variable run_host : HostCommand -> ProcessEnd.

Definition classify_segment (segment : string) : RiskLevel :=
  let seg_lower := to_lowercase segment in
  if existsb (fun p => matches_command_pattern seg_lower (to_lowercase p)) NEVER_AUTO_APPROVE_PATTERNS then High
  else if existsb (fun p => matches_command_pattern seg_lower p) LOW_RISK_PATTERNS then Low
  else if existsb (fun p => matches_command_pattern seg_lower p) MEDIUM_RISK_PATTERNS then Medium
  else Medium.

Definition segments (command : string) : list string :=
  List.filter (fun s => negb (str_is_empty s)) (trim <$> split_where is_separator command).

Definition classify_command_risk (command : string) : RiskLevel :=
  default Medium (risk_maximum (classify_segment <$> segments command)).

Definition extract_command_param (params : Json) : option string :=
  match json_get "command" params ≫= as_str with
  | Some c => Some c
  | None =>
      match as_str params with
      | Some s => match json_from_str s with Some v => json_get "command" v ≫= as_str | None => None end
      | None => None
      end
  end.

(** ** Injection *)

Definition shell_end (c : ascii) : bool := bool_decide (c ∈ [" "; tab; nl; ";"; "|"; "&"; ")"]%char).

Definition has_pipe_to (lower shell : string) : bool :=
  existsb (fun prefix =>
    let pattern := prefix +:+ shell in
    existsb (fun i =>
      match String.get (i + String.length pattern) lower with
      | None => true
      | Some c => shell_end c
      end) (match_indices pattern lower)) ["| "; "|"].

Definition contains_shell_pipe (lower : string) : bool :=
  has_pipe_to lower "sh" || has_pipe_to lower "bash" || has_pipe_to lower "zsh" || has_pipe_to lower "dash" ||
  has_pipe_to lower "/bin/sh" || has_pipe_to lower "/bin/bash".

Definition has_command_substitution (s : string) : bool := contains "$(" s || contains "`" s.

Definition token_before (c : ascii) : bool := bool_decide (c ∈ [" "; tab; "|"; ";"; "&"; nl; "("]%char).

Definition has_command_token (lower token : string) : bool :=
  existsb (fun i =>
    match i with
    | O => true
    | S k => match String.get k lower with Some c => token_before c | None => false end
    end) (match_indices token lower).

Definition detect_command_injection (cmd : string) : option string :=
  if contains nul_str cmd then Some "null byte in command" else
  let lower := to_lowercase cmd in
  if (contains "base64 -d" lower || contains "base64 --decode" lower) && contains_shell_pipe lower
  then Some "base64 decode piped to shell" else
  if (contains "printf" lower || contains "echo -e" lower || contains "echo $'" lower) &&
     (contains "\x" lower || contains "\0" lower) && contains_shell_pipe lower
  then Some "encoded escape sequences piped to shell" else
  if (contains "xxd -r" lower || has_command_token lower "od ") && contains_shell_pipe lower
  then Some "binary decode piped to shell" else
  if (has_command_token lower "dig " || has_command_token lower "nslookup " || has_command_token lower "host ") &&
     has_command_substitution lower
  then Some "potential DNS exfiltration via command substitution" else
  if (has_command_token lower "nc " || has_command_token lower "ncat " || has_command_token lower "netcat ") &&
     (contains "|" lower || contains "<" lower)
  then Some "netcat with data piping" else
  if contains "curl" lower &&
     (contains "-d @" lower || contains "-d@" lower || contains "--data @" lower ||
      contains "--data-binary @" lower || contains "--upload-file" lower)
  then Some "curl posting file contents" else
  if contains "wget" lower && contains "--post-file" lower then Some "wget posting file contents" else
  if (contains "| rev" lower || contains "|rev" lower) && contains_shell_pipe lower
  then Some "string reversal piped to shell" else
  None.

Definition is_blocked (t : ShellTool) (cmd : string) : option string :=
  let normalized := to_lowercase cmd in
  if existsb (fun b => contains b normalized) BLOCKED_COMMANDS then Some "Command contains blocked pattern"
  else if negb (allow_dangerous t) && existsb (fun p => contains p normalized) DANGEROUS_PATTERNS
  then Some "Command contains potentially dangerous pattern"
  else None.

(** ** Output *)

Definition truncate_output (s : string) : string :=
  if (String.length s <=? MAX_OUTPUT_SIZE)%nat then s else
  let half := (MAX_OUTPUT_SIZE / 2)%nat in
  let head_end := floor_char_boundary s half in
  let tail_start := floor_char_boundary s (String.length s - half) in
  cat [str_to head_end s; nl_str; nl_str; "... [truncated "; show_nat (String.length s - MAX_OUTPUT_SIZE);
       " bytes] ..."; nl_str; nl_str; str_from tail_start s].

Definition truncate_for_error (s : string) : string :=
  if (count_chars s <=? 100)%nat then s else take_chars 100 s +:+ "...".

(** ** Execution *)

Definition safe_env : gmap string string :=
  list_to_map (omap (fun var => (fun val => (var, val)) <$> env_var var) SAFE_ENV_VARS : list (string * string)).

Definition combine_output (stdout stderr : string) : string :=
  if str_is_empty stderr then stdout
  else if str_is_empty stdout then stderr
  else cat [stdout; nl_str; nl_str; "--- stderr ---"; nl_str; stderr].

(** At most the first [MAX_OUTPUT_SIZE] bytes of a stream are kept. *)
Definition read_stream (bytes : string) : string := from_utf8_lossy (str_to MAX_OUTPUT_SIZE bytes).

Definition execute_direct (cmd workdir : string) (timeout : Z) (extra_env : gmap string string)
    : Result ToolError (string * Z) * list Started :=
  let c := mkHost (if target_windows then "cmd" else "sh") (if target_windows then ["/C"; cmd] else ["-c"; cmd])
             (extra_env ∪ safe_env) workdir timeout in
  match run_host c with
  | SpawnFailed e => (Err (ExecutionFailed ("Failed to spawn command: " +:+ e)), [])
  | WaitFailed e => (Err (ExecutionFailed ("Command execution failed: " +:+ e)), [OnHost c])
  | TimedOut => (Err (Timeout timeout), [OnHost c])
  | Exited out err code =>
      (Ok (truncate_output (combine_output (read_stream out) (read_stream err)), default (-1) code), [OnHost c])
  end.

Definition execute_sandboxed (t : ShellTool) (s : SandboxManager) (cmd workdir : string) (timeout : Z)
    : Result ToolError (string * Z) * list Started :=
  (match execute_with_policy s cmd workdir (sandbox_policy t) with
   | Some (Ok (output, exit_code)) => Ok (truncate_output output, exit_code)
   | Some (Err e) => Err (ExecutionFailed ("Sandbox error: " +:+ e))
   | None => Err (Timeout timeout)
   end, [InSandbox cmd workdir (sandbox_policy t) timeout]).

Definition execute_command (t : ShellTool) (cmd : string) (workdir : option string) (timeout_secs : option Z)
    (extra_env : gmap string string) : Result ToolError (string * Z) * list Started :=
  match is_blocked t cmd with
  | Some reason => (Err (NotAuthorized (cat [reason; ": "; truncate_for_error cmd])), [])
  | None =>
  match detect_command_injection cmd with
  | Some reason =>
      (Err (NotAuthorized (cat ["Command injection detected ("; reason; "): "; truncate_for_error cmd])), [])
  | None =>
      let dir := match workdir with
                 | Some w => w
                 | None => match working_dir t with Some w => w | None => default "." current_dir end
                 end in
      let d := default (timeout t) timeout_secs in
      match sandbox t with
      | Some s =>
          if is_initialized s || config_enabled s then execute_sandboxed t s cmd dir d
          else execute_direct cmd dir d extra_env
      | None => execute_direct cmd dir d extra_env
      end
  end
  end.

(** [ToolOutput::success]; its duration is left out. *)
Record ShellOutput : Type := mkShellOutput { out_text : string; exit_code : Z; success : bool; sandboxed : bool }.

Definition execute (t : ShellTool) (params : Json) (extra_env : gmap string string)
    : Result ToolError ShellOutput * list Started :=
  match require_str params "command" with
  | Err e => (Err e, [])
  | Ok command =>
      let workdir := json_get "workdir" params ≫= as_str in
      let timeout_secs := json_get "timeout" params ≫= as_u64 in
      match execute_command t command workdir timeout_secs extra_env with
      | (Err e, started) => (Err e, started)
      | (Ok (output, code), started) =>
          (Ok (mkShellOutput output code (code =? 0) (match sandbox t with Some _ => true | None => false end)), started)
      end
  end.

Definition risk_level_for (params : Json) : RiskLevel :=
  match extract_command_param params with Some cmd => classify_command_risk cmd | None => Medium end.

Definition requires_approval (params : Json) : ApprovalRequirement :=
  match risk_level_for params with
  | Low => UnlessAutoApproved
  | Medium => UnlessAutoApproved
  | High => Always
  end.

End shell.

(** ** What is run *)

(** [started_ok t command extra s]: [s] runs [command] where and how the tool may. *)
Definition started_ok `{ShellEnv} (t : ShellTool) (command : string) (extra : gmap string string) (s : Started) : Prop :=
  match s with
  | InSandbox cmd _ policy _ =>
      cmd = command ∧ policy = sandbox_policy t ∧
      ∃ m, sandbox t = Some m ∧ (is_initialized m = true ∨ config_enabled m = true)
  | OnHost c =>
      last (args c) = Some command ∧
      (∀ m, sandbox t = Some m → is_initialized m = false ∧ config_enabled m = false) ∧
      ∀ var val, env c !! var = Some val →
        extra !! var = Some val ∨ var ∈ SAFE_ENV_VARS ∧ env_var var = Some val
  end.

Section running.
Context `{ShellEnv}.
Variable run_host : HostCommand -> ProcessEnd.

Lemma safe_env_spec var val : safe_env !! var = Some val → var ∈ SAFE_ENV_VARS ∧ env_var var = Some val.
Proof.
  unfold safe_env. intros Hl%elem_of_list_to_map_2. apply list_elem_of_omap in Hl as (v & Hin & Hv).
  destruct (env_var v) eqn:He; [|done]. by injection Hv as -> ->.
Qed.

Lemma execute_direct_ok t cmd dir d extra s :
  (∀ m, sandbox t = Some m → is_initialized m = false ∧ config_enabled m = false) →
  s ∈ (execute_direct run_host cmd dir d extra).2 → started_ok t cmd extra s.
Proof.
  intros Hsb. unfold execute_direct. set (c := mkHost _ _ _ _ _).
  assert (started_ok t cmd extra (OnHost c)) as Hc.
  { split; [by unfold c; destruct target_windows|]. split; [done|]. intros var val. change (env c) with (extra ∪ safe_env).
    rewrite lookup_union_Some_raw. intros [?|[_ ?%safe_env_spec]]; [by left|by right]. }
  destruct (run_host c); cbn; [by intros ?%not_elem_of_nil|..]; by intros ->%list_elem_of_singleton.
Qed.

Lemma execute_command_ok t cmd workdir secs extra s :
  s ∈ (execute_command run_host t cmd workdir secs extra).2 →
  is_blocked t cmd = None ∧ detect_command_injection cmd = None ∧ started_ok t cmd extra s.
Proof.
  unfold execute_command. destruct (is_blocked t cmd); [by intros ?%not_elem_of_nil|].
  destruct (detect_command_injection cmd); [by intros ?%not_elem_of_nil|]. intros Hs. split; [done|]. split; [done|].
  destruct (sandbox t) as [m|] eqn:Hsb.
  - destruct (is_initialized m || config_enabled m) eqn:Hm.
    + apply list_elem_of_singleton in Hs as ->. split; [done|]. split; [done|]. exists m. split; [done|].
      by apply orb_true_iff in Hm.
    + eapply execute_direct_ok; [|exact Hs]. intros m' Hm'. rewrite Hsb in Hm'. injection Hm' as <-.
      by apply orb_false_iff in Hm.
  - eapply execute_direct_ok; [|exact Hs]. intros m' Hm'. congruence.
Qed.

Lemma execute_started_length t params extra : (length (execute run_host t params extra).2 ≤ 1)%nat.
Proof.
  unfold execute, execute_command, execute_sandboxed, execute_direct. repeat case_match; simplify_eq/=; lia.
Qed.
End running.

(** C27. Whatever the model asks the shell for, at most one process is started, it runs the command
    that was given, and that command passed both screens.  It runs on the host only when no sandbox
    is in use, and then sees no variable of the agent's environment but the listed
    ones and those the job was given; otherwise it runs under the policy of the tool. *)
Theorem shell_runs_screened `{ShellEnv} run_host t params extra :
  (length (execute run_host t params extra).2 ≤ 1)%nat ∧
  ∀ s, s ∈ (execute run_host t params extra).2 →
    ∃ command, json_get "command" params ≫= as_str = Some command ∧
      is_blocked t command = None ∧ detect_command_injection command = None ∧ started_ok t command extra s.
Proof.
  split; [apply execute_started_length|]. intros s. unfold execute, require_str, ok_or.
  destruct (json_get "command" params ≫= as_str) as [command|]; [|by intros ?%not_elem_of_nil].
  intros Hs. exists command. split; [done|].
  destruct (execute_command _ _ _ _ _ _) as [[[o c]|e] started] eqn:He;
    apply (execute_command_ok run_host t command (json_get "workdir" params ≫= as_str) (json_get "timeout" params ≫= as_u64) extra);
    by rewrite He.
Qed.

(** A sandbox that is configured but neither started nor enabled is skipped, and the command runs on
    the host; the result still says that it was sandboxed. *)
Theorem disabled_sandbox_runs_on_host `{ShellEnv} run_host t m params command extra out started :
  sandbox t = Some m → is_initialized m = false → config_enabled m = false →
  json_get "command" params ≫= as_str = Some command →
  execute run_host t params extra = (Ok out, started) →
  (∃ c, started = [OnHost c]) ∧ sandboxed out = true.
Proof.
  intros Hs Hi He Hc. unfold execute, require_str, ok_or. rewrite Hc. unfold execute_command.
  destruct (is_blocked t command); [done|]. destruct (detect_command_injection command); [done|].
  rewrite Hs, Hi, He. cbn [orb]. unfold execute_direct. set (c := mkHost _ _ _ _ _).
  destruct (run_host c); intros [= <- <-]. split; [by exists c|done].
Qed.

(** ** Approval *)

Lemma risk_max_high a b : risk_max a b = High ↔ a = High ∨ b = High.
Proof. destruct a, b; cbn; naive_solver. Qed.

Lemma risk_maximum_high l : default Medium (risk_maximum l) = High ↔ High ∈ l.
Proof.
  destruct l as [|r l]; cbn; [split; [done|by intros ?%not_elem_of_nil]|].
  revert r. induction l as [|x l IH]; intros r; cbn.
  - rewrite list_elem_of_singleton. naive_solver.
  - rewrite IH, !elem_of_cons. pose proof (risk_max_high r x). naive_solver.
Qed.

Lemma classify_segment_high `{ShellEnv} seg :
  classify_segment seg = High ↔
  ∃ p, p ∈ NEVER_AUTO_APPROVE_PATTERNS ∧ matches_command_pattern (to_lowercase seg) (to_lowercase p) = true.
Proof.
  unfold classify_segment. destruct (existsb _ NEVER_AUTO_APPROVE_PATTERNS) eqn:He.
  - split; [intros _|done]. apply existsb_exists in He as (p & Hp%list_elem_of_In & Hm). by exists p.
  - split; [by repeat case_match|]. intros (p & Hp%list_elem_of_In & Hm).
    assert (existsb (fun p => matches_command_pattern (to_lowercase seg) (to_lowercase p)) NEVER_AUTO_APPROVE_PATTERNS = true)
      as Ht by (apply existsb_exists; by exists p). congruence.
Qed.

(** A command is never run without asking, not even when the user lets the tool run freely, exactly
    when one of its parts between [|], [&] and [;] begins with a destructive command. *)
Theorem always_asked_iff `{ShellEnv} params :
  requires_approval params = Always ↔
  ∃ cmd seg p, extract_command_param params = Some cmd ∧ seg ∈ segments cmd ∧
    p ∈ NEVER_AUTO_APPROVE_PATTERNS ∧ matches_command_pattern (to_lowercase seg) (to_lowercase p) = true.
Proof.
  unfold requires_approval, risk_level_for. destruct (extract_command_param params) as [cmd|]; [|naive_solver].
  trans (classify_command_risk cmd = High); [destruct (classify_command_risk cmd); naive_solver|].
  unfold classify_command_risk. rewrite risk_maximum_high, list_elem_of_fmap. split.
  - intros (seg & Hseg & Hin). symmetry in Hseg. apply classify_segment_high in Hseg as (p & Hp & Hm). by exists cmd, seg, p.
  - intros (cmd' & seg & p & [= <-] & Hin & Hp & Hm). exists seg. split; [|done]. symmetry. apply classify_segment_high. by exists p.
Qed.

(** ** Tokens and pipes *)

(** The byte before position [i], if there is one, satisfies [f]; likewise the byte at [i]. *)
Definition left_ok (f : ascii -> bool) (s : string) (i : nat) : Prop :=
  ∀ k c, i = S k → String.get k s = Some c → f c = true.
Definition right_ok (f : ascii -> bool) (s : string) (i : nat) : Prop :=
  ∀ c, String.get i s = Some c → f c = true.

Lemma get_Some_lt k s : (k < String.length s)%nat → ∃ c, String.get k s = Some c.
Proof.
  revert k. induction s as [|c s IH]; intros k Hk; cbn in *; [lia|]. destruct k; [by exists c|]. apply IH. lia.
Qed.

Lemma unbordered_nonempty p : unbordered p = true → p ≠ "".
Proof. by intros Hu ->. Qed.

(** The two searches see every occurrence: a token stands alone when it starts the text or follows a
    space, a separator or a parenthesis; a pipe to a shell counts when the
    name of the shell ends there. *)
Theorem command_search_complete lower token shell :
  unbordered token = true → unbordered ("| " +:+ shell) = true → unbordered ("|" +:+ shell) = true →
  (has_command_token lower token = true ↔
     ∃ i, occurs_at token lower i = true ∧ left_ok token_before lower i) ∧
  (has_pipe_to lower shell = true ↔
     ∃ i pattern, pattern ∈ ["| " +:+ shell; "|" +:+ shell] ∧ occurs_at pattern lower i = true ∧
       right_ok shell_end lower (i + String.length pattern)).
Proof.
  intros Ht Hp1 Hp2. split.
  - unfold has_command_token. rewrite existsb_exists. setoid_rewrite <-list_elem_of_In.
    setoid_rewrite (match_indices_spec token lower _ Ht). split.
    + intros (i & Ho & Hi). exists i. split; [done|]. intros k c -> Hg. by rewrite Hg in Hi.
    + intros (i & Ho & Hi). exists i. split; [done|]. destruct i as [|k]; [done|].
      destruct (get_Some_lt k lower) as [c Hg]; [pose proof (occurs_at_length _ _ _ (unbordered_nonempty _ Ht) Ho); lia|].
      rewrite Hg. by apply (Hi k).
  - assert (∀ pattern, unbordered pattern = true →
      existsb (fun i => match String.get (i + String.length pattern) lower with None => true | Some c => shell_end c end)
        (match_indices pattern lower) = true ↔
      ∃ i, occurs_at pattern lower i = true ∧ right_ok shell_end lower (i + String.length pattern)) as Hone.
    { intros pattern Hu. rewrite existsb_exists. setoid_rewrite <-list_elem_of_In.
      setoid_rewrite (match_indices_spec pattern lower _ Hu). f_equiv. intros i. f_equiv. unfold right_ok.
      destruct (String.get _ lower) as [c|]; [|naive_solver]. split; [by intros Hc ? [= <-]|naive_solver]. }
    unfold has_pipe_to. cbn [existsb]. rewrite orb_false_r, orb_true_iff, (Hone _ Hp1), (Hone _ Hp2). split.
    + intros [(i & Ho & Hr)|(i & Ho & Hr)]; [exists i, ("| " +:+ shell)|exists i, ("|" +:+ shell)];
        (split; [|done]); [apply list_elem_of_here|apply list_elem_of_further, list_elem_of_here].
    + intros (i & pattern & [->|[->|[]%not_elem_of_nil]%elem_of_cons]%elem_of_cons & Ho & Hr); [left|right]; by exists i.
Qed.

(** ** Output *)

(** UTF-8: a character takes at most four bytes. *)
Definition utf8_spaced (s : string) : Prop :=
  ∀ i, (i ≤ String.length s)%nat → ∃ j, (i - 3 ≤ j ≤ i)%nat ∧ is_char_boundary s j = true.

Lemma char_floor_max s e j : (j ≤ e)%nat → is_char_boundary s j = true → (j ≤ char_floor s e ≤ e)%nat.
Proof.
  induction e as [|e IH]; intros Hj Hb; cbn [char_floor]; [lia|].
  destruct (is_char_boundary s (S e)) eqn:He; [lia|]. destruct (decide (j = S e)) as [->|]; [congruence|].
  specialize (IH ltac:(lia) Hb). lia.
Qed.

Lemma floor_char_boundary_near s pos :
  utf8_spaced s → (pos < String.length s)%nat →
  (pos - 3 ≤ floor_char_boundary s pos ≤ pos)%nat ∧ is_char_boundary s (floor_char_boundary s pos) = true.
Proof.
  intros Hs Hp. unfold floor_char_boundary. rewrite decide_False by lia. split; [|apply char_floor_boundary].
  destruct (Hs pos ltac:(lia)) as (j & Hj & Hb). pose proof (char_floor_max s pos j ltac:(lia) Hb). lia.
Qed.

Lemma half_of_limit : (MAX_OUTPUT_SIZE / 2)%nat = Z.to_nat (32 * 1024).
Proof. apply Nat2Z.inj. rewrite Nat2Z.inj_div. unfold MAX_OUTPUT_SIZE. rewrite !Z2Nat.id by lia. reflexivity. Qed.

(** What the model is shown of a long output is its beginning and its end, cut between characters,
    each about half of the limit, with a note in between; a short output is shown whole. *)
Theorem truncation_keeps_both_ends s :
  utf8_spaced s →
  truncate_output s = s ∧ (String.length s ≤ MAX_OUTPUT_SIZE)%nat ∨
  ∃ first middle last_part, s = first +:+ (middle +:+ last_part) ∧
    (MAX_OUTPUT_SIZE / 2 - 3 ≤ String.length first ≤ MAX_OUTPUT_SIZE / 2)%nat ∧
    (MAX_OUTPUT_SIZE / 2 ≤ String.length last_part ≤ MAX_OUTPUT_SIZE / 2 + 3)%nat ∧
    is_char_boundary s (String.length first) = true ∧
    is_char_boundary s (String.length s - String.length last_part) = true ∧
    truncate_output s = cat [first; nl_str; nl_str; "... [truncated "; show_nat (String.length s - MAX_OUTPUT_SIZE);
                             " bytes] ..."; nl_str; nl_str; last_part].
Proof.
  intros Hu. unfold truncate_output. destruct (Nat.leb_spec (String.length s) MAX_OUTPUT_SIZE) as [Hl|Hl]; [by left|right].
  assert (2 * (MAX_OUTPUT_SIZE / 2) = MAX_OUTPUT_SIZE ∧ 3 < MAX_OUTPUT_SIZE / 2)%nat as [Hh Hb].
  { rewrite half_of_limit. unfold MAX_OUTPUT_SIZE. lia. }
  set (half := (MAX_OUTPUT_SIZE / 2)%nat) in *. set (n := String.length s) in *.
  destruct (floor_char_boundary_near s half Hu ltac:(lia)) as [Ha Hba].
  destruct (floor_char_boundary_near s (n - half) Hu ltac:(lia)) as [Hc Hbc].
  set (a := floor_char_boundary s half) in *. set (b := floor_char_boundary s (n - half)) in *.
  assert (a ≤ b)%nat as Hab.
  { unfold b, floor_char_boundary. rewrite decide_False by (fold n; lia). apply char_floor_max; [lia|done]. }
  exists (str_to a s), (slice a b s), (str_from b s).
  rewrite str_to_length, str_from_length. fold n.
  replace (a `min` n)%nat with a by lia. replace (n - (n - b))%nat with b by lia.
  rewrite <-append_assoc, str_to_slice, str_to_from by lia.
  split; [done|]. split; [lia|]. split; [lia|]. split; [done|]. split; [done|]. done.
Qed.

(** ** Patterns that match nothing *)

Definition is_upper (c : ascii) : bool := (65 <=? nat_of_ascii c)%nat && (nat_of_ascii c <=? 90)%nat.
Definition lower_case (s : string) : bool := string_forallb (fun c => negb (is_upper c)) s.

Lemma lower_case_app x y : lower_case (x +:+ y) = lower_case x && lower_case y.
Proof.
  unfold lower_case. induction x as [|c x IH]; [done|]. rewrite append_cons. cbn. by rewrite IH, andb_assoc.
Qed.

Lemma lower_case_contains p s : lower_case s = true → lower_case p = false → contains p s = false.
Proof.
  intros Hs Hp. destruct (contains p s) eqn:Hc; [|done]. apply contains_iff in Hc as (a & b & ->).
  rewrite !lower_case_app, Hp, andb_false_l, andb_false_r in Hs. done.
Qed.

(** A command is compared in lower case, and some patterns are not: no spelling of
    [chmod -R 777 /] is blocked by its entry, and the read-only [curl -I] never counts as
    low risk by its own. *)
Theorem uppercase_patterns_dead `{ShellEnv} cmd seg :
  (∀ s, lower_case (to_lowercase s) = true) →
  contains "chmod -R 777 /" (to_lowercase cmd) = false ∧
  matches_command_pattern (to_lowercase seg) "curl -I" = false.
Proof.
  intros Hl. split; [by apply lower_case_contains|]. unfold matches_command_pattern. cbn [contains].
  change (contains " " "curl -I") with true. cbv iota. apply orb_false_iff. split.
  - apply String.eqb_neq. intros Hs. specialize (Hl seg). by rewrite Hs in Hl.
  - destruct (starts_with _ _) eqn:Hs; [|done]. apply starts_with_iff in Hs as (r & Hs). specialize (Hl seg).
    rewrite Hs, lower_case_app in Hl. done.
Qed.

(** ** Concrete commands *)

#[export] Instance demo_shell : ShellEnv := {|
  to_lowercase := string_map ascii_lower;
  json_from_str := fun _ => None;
  from_utf8_lossy := fun s => s;
  env_var := fun v => if (v =? "PATH")%string then Some "/bin" else if (v =? "API_KEY")%string then Some "k" else None;
  current_dir := Some "/work";
  target_windows := false
|}.

Definition command_params (cmd : string) : Json := JObject [("command", JString cmd)].
Definition two_lines (a b : string) : string := cat [a; nl_str; b].

(** The parts of a command that a shell would run are not all seen: a second line, a substitution, a
    doubled space or a path hide a destructive command from the classification. *)
Lemma hidden_commands_not_high :
  classify_command_risk "rm -rf x" = High ∧
  classify_command_risk (two_lines "ls" "rm -rf x") = Low ∧
  classify_command_risk "ls $(rm -rf x)" = Low ∧
  classify_command_risk "rm  -rf x" = Medium ∧
  classify_command_risk "/bin/rm -rf x" = Medium ∧
  classify_command_risk "mysql -e 'DROP TABLE users'" = Medium.
Proof. repeat split; vm_compute; reflexivity. Qed.

Definition demo_run (c : HostCommand) : ProcessEnd := Exited "out" "" (Some 0).

Lemma demo_lower_case s : lower_case (string_map ascii_lower s) = true.
Proof.
  induction s as [|c s IH]; [done|]. unfold lower_case in *. cbn. rewrite IH, andb_true_r.
  by destruct c as [[] [] [] [] [] [] [] []].
Qed.

Lemma uppercase_patterns_dead_witness :
  is_blocked shell_new "chmod -R 777 /" = None ∧ contains "chmod -R 777 /" (to_lowercase "chmod -R 777 /") = false.
Proof.
  split; [vm_compute; reflexivity|]. apply (uppercase_patterns_dead "chmod -R 777 /" ""). exact demo_lower_case.
Defined.

Definition idle_sandbox : SandboxManager := mkSandbox false false (fun _ _ _ => None).

Lemma disabled_sandbox_runs_on_host_witness :
  ∃ out started, execute demo_run (with_sandbox idle_sandbox shell_new) (command_params "ls") ∅ = (Ok out, started) ∧
    (∃ c, started = [OnHost c]) ∧ sandboxed out = true.
Proof.
  destruct (execute demo_run (with_sandbox idle_sandbox shell_new) (command_params "ls") ∅) as [[out|] started] eqn:He.
  - exists out, started. split; [reflexivity|].
    apply (disabled_sandbox_runs_on_host demo_run (with_sandbox idle_sandbox shell_new) idle_sandbox
      (command_params "ls") "ls" ∅ out started); [reflexivity..|exact He].
  - exfalso. vm_compute in He. discriminate.
Defined.

Lemma command_search_complete_witness :
  has_pipe_to "cat x |sh" "sh" = true ∧ has_pipe_to "cat x | shift" "sh" = false ∧
  (has_command_token "sync " "nc " = true → ∃ i, occurs_at "nc " "sync " i = true ∧ left_ok token_before "sync " i).
Proof.
  split; [reflexivity|]. split; [reflexivity|].
  apply (command_search_complete "sync " "nc " "sh"); reflexivity.
Defined.

Lemma truncation_keeps_both_ends_witness : truncate_output "ok" = "ok".
Proof.
  destruct (truncation_keeps_both_ends "ok") as [[Ht _]|(a & b & c & Hs & Ha & Hc & _)].
  - intros i Hi. exists i. split; [lia|]. cbn in Hi. destruct i as [|[|[|i]]]; [reflexivity..|lia].
  - exact Ht.
  - exfalso. apply (f_equal String.length) in Hs. rewrite !length_append, half_of_limit in *. cbn in Hs. lia.
Defined.
