(* ===== verification/SessionManager.v ===== *)
(** * SessionManager: which thread a message belongs to

    [src/agent/session_manager.rs].  Sessions are shared ([Arc<Mutex<Session>>]): the manager holds
    references into a heap, and a task that got a reference keeps it even when the manager forgets
    the session.  An operation takes several locks one after the other; each block
    under a lock is one step of a [Task], and tasks interleave ([sys_step]).  The parser and printer
    of UUIDs are parameters, fresh identifiers and clock readings arguments of a step. *)

From S2P Require Import Prelude JobState Provider Session Undo Hooks.

(** ** State *)

Record ThreadKey : Type := mkKey {
  tk_user : string;
  tk_channel : string;
  tk_external : option string
}.

#[export] Instance thread_key_eq : EqDecision ThreadKey.
Proof. solve_decision. Defined.

#[export] Instance thread_key_countable : Countable ThreadKey.
Proof.
  apply (inj_countable' (fun k => (tk_user k, tk_channel k, tk_external k)) (fun t => mkKey t.1.1 t.1.2 t.2)).
  by intros [].
Defined.

Abbreviation Ref := nat.

(** [fired] collects the lifecycle events handed to the hooks. *)
Record Manager : Type := mkManager {
  heap : gmap Ref Session;
  next_ref : Ref;
  sessions : gmap string Ref;
  thread_map : gmap ThreadKey Uuid;
  undo_managers : gmap Uuid UndoManager;
  hooked : bool;
  fired : list HookEvent
}.

Definition manager_empty (hooks : bool) : Manager := mkManager ∅ 0 ∅ ∅ ∅ hooks [].

Definition with_heap (h : gmap Ref Session) (m : Manager) : Manager :=
  mkManager h (next_ref m) (sessions m) (thread_map m) (undo_managers m) (hooked m) (fired m).
Definition with_thread_map (tm : gmap ThreadKey Uuid) (m : Manager) : Manager :=
  mkManager (heap m) (next_ref m) (sessions m) tm (undo_managers m) (hooked m) (fired m).
Definition with_undo (um : gmap Uuid UndoManager) (m : Manager) : Manager :=
  mkManager (heap m) (next_ref m) (sessions m) (thread_map m) um (hooked m) (fired m).
Definition with_sessions (s : gmap string Ref) (m : Manager) : Manager :=
  mkManager (heap m) (next_ref m) s (thread_map m) (undo_managers m) (hooked m) (fired m).
Definition fire (es : list HookEvent) (m : Manager) : Manager :=
  mkManager (heap m) (next_ref m) (sessions m) (thread_map m) (undo_managers m) (hooked m)
    (if hooked m then fired m ++ es else fired m).

(** The threads of the session behind a reference. *)
Definition has_thread (m : Manager) (r : Ref) (tid : Uuid) : bool :=
  match heap m !! r with Some s => bool_decide (is_Some (threads s !! tid)) | None => false end.

(** [thread_map.values().any(|&v| v == uuid)] *)
Definition is_mapped (m : Manager) (tid : Uuid) : bool :=
  existsb (fun kv => bool_decide (kv.2 = tid)) (map_to_list (thread_map m)).

(** ** Steps *)

Inductive Task : Type :=
(** [resolve_thread_with_parsed_uuid] *)
| TResolve (key : ThreadKey) (parsed : option Uuid)
| TNewSession (key : ThreadKey) (parsed : option Uuid)
| TLookup (key : ThreadKey) (parsed : option Uuid) (r : Ref)
| TAdopt (key : ThreadKey) (r : Ref) (tid : Uuid)
| TAdoptMap (key : ThreadKey) (r : Ref) (tid : Uuid)
| TCreate (key : ThreadKey) (r : Ref)
| TMap (key : ThreadKey) (r : Ref) (tid : Uuid)
| TUndo (key : ThreadKey) (r : Ref) (tid : Uuid) (adopted : bool)
| TDone (key : ThreadKey) (r : Ref) (tid : Uuid)
(** [register_thread] *)
| TRegister (key : ThreadKey) (r : Ref) (tid : Uuid)
| TRegisterUndo (key : ThreadKey) (r : Ref) (tid : Uuid)
| TRegisterSession (key : ThreadKey) (r : Ref)
| TRegistered
(** [prune_stale_sessions] *)
| TPrune (max_idle : Z)
| TPruneThreads (stale : list (string * string))
| TPruneRemove (stale : list (string * string)) (tids : list Uuid)
| TPruneMap (users : list string) (tids : list Uuid) (count : nat)
| TPruneUndo (tids : list Uuid) (count : nat)
| TPruned (count : nat).

Section manager.
Variable parse_str : string -> option Uuid.
Variable uuid_to_string : Uuid -> string.

(** The write block of [get_or_create_session]. *)
Definition create_session (now : Z) (sid : Uuid) (user : string) (m : Manager) : Ref * Manager :=
  match sessions m !! user with
  | Some r => (r, m)
  | None =>
      let r := next_ref m in
      (r, fire [SessionStart user (uuid_to_string sid)]
            (mkManager (<[r := session_new now sid user]> (heap m)) (S r) (<[user := r]> (sessions m))
               (thread_map m) (undo_managers m) (hooked m) (fired m)))
  end.

(** The block under the read lock: a thread found, or the identifier that may be adopted. *)
Definition lookup_or_adopt (key : ThreadKey) (parsed : option Uuid) (r : Ref) (m : Manager) : Uuid + option Uuid :=
  let ext_uuid := match parsed with Some u => Some u | None => tk_external key ≫= parse_str end in
  let adoptable :=
    match tk_external key with
    | Some _ => match ext_uuid with Some u => if is_mapped m u then None else Some u | None => None end
    | None => None
    end in
  match thread_map m !! key with
  | Some tid => if has_thread m r tid then inl tid else inr adoptable
  | None => inr adoptable
  end.

Definition remove_all {A} (ks : list string) (g : gmap string A) : gmap string A := foldl (fun g k => delete k g) g ks.
Definition remove_uuids {A} (ks : list Uuid) (g : gmap Uuid A) : gmap Uuid A := foldl (fun g k => delete k g) g ks.

(** [locked r]: whether [try_lock] on the session fails. *)
Definition stale_sessions (locked : Ref -> bool) (cutoff : Z) (m : Manager) : list (string * string) :=
  omap (fun ur : string * Ref =>
    match heap m !! ur.2 with
    | Some s => if locked ur.2 then None
                else if (last_active_at s <? cutoff)%Z then Some (ur.1, uuid_to_string (sess_id s)) else None
    | None => None
    end) (map_to_list (sessions m)).

Definition stale_threads (locked : Ref -> bool) (users : list string) (m : Manager) : list Uuid :=
  flat_map (fun u => match sessions m !! u with
                     | Some r => if locked r then [] else match heap m !! r with Some s => (map_to_list (threads s)).*1 | None => [] end
                     | None => []
                     end) users.

(** One block of a task.  [clk] is the clock, [sid] and [tid] the identifiers it would draw. *)
Definition task_step (clk : Clock) (sid tid : Uuid) (locked : Ref -> bool) (t : Task) (m : Manager) : Task * Manager :=
  match t with
  | TResolve key parsed =>
      match sessions m !! tk_user key with
      | Some r => (TLookup key parsed r, m)
      | None => (TNewSession key parsed, m)
      end
  | TNewSession key parsed =>
      let '(r, m) := create_session (clk 0) sid (tk_user key) m in (TLookup key parsed r, m)
  | TLookup key parsed r =>
      match lookup_or_adopt key parsed r m with
      | inl found => (TDone key r found, m)
      | inr (Some u) => (TAdopt key r u, m)
      | inr None => (TCreate key r, m)
      end
  | TAdopt key r u => (if has_thread m r u then TAdoptMap key r u else TCreate key r, m)
  | TAdoptMap key r u =>
      if is_mapped m u then (TCreate key r, m)
      else (TUndo key r u true, with_thread_map (<[key := u]> (thread_map m)) m)
  | TCreate key r =>
      match heap m !! r with
      | Some s =>
          let '(s', id) := create_thread clk tid s in
          (TMap key r id, with_heap (<[r := s']> (heap m)) m)
      | None => (t, m)
      end
  | TMap key r u => (TUndo key r u false, with_thread_map (<[key := u]> (thread_map m)) m)
  | TUndo key r u adopted =>
      (TDone key r u,
       if adopted then match undo_managers m !! u with Some _ => m | None => with_undo (<[u := manager_new]> (undo_managers m)) m end
       else with_undo (<[u := manager_new]> (undo_managers m)) m)
  | TRegister key r u => (TRegisterUndo key r u, with_thread_map (<[key := u]> (thread_map m)) m)
  | TRegisterUndo key r u =>
      (TRegisterSession key r,
       match undo_managers m !! u with Some _ => m | None => with_undo (<[u := manager_new]> (undo_managers m)) m end)
  | TRegisterSession key r =>
      (TRegistered, match sessions m !! tk_user key with
                    | Some _ => m
                    | None => with_sessions (<[tk_user key := r]> (sessions m)) m
                    end)
  | TPrune max_idle =>
      let cutoff := (clk O - secs max_idle)%Z in
      match stale_sessions locked cutoff m with
      | [] => (TPruned O, m)
      | stale => (TPruneThreads stale, m)
      end
  | TPruneThreads stale =>
      let tids := stale_threads locked stale.*1 m in
      (TPruneRemove stale tids, fire ((fun us => SessionEnd us.1 us.2) <$> stale) m)
  | TPruneRemove stale tids =>
      let after := remove_all stale.*1 (sessions m) in
      (TPruneMap stale.*1 tids (size (sessions m) - size after), with_sessions after m)
  | TPruneMap users tids count =>
      (TPruneUndo tids count, with_thread_map (base.filter (fun kv => tk_user kv.1 ∉ users) (thread_map m)) m)
  | TPruneUndo tids count => (TPruned count, with_undo (remove_uuids tids (undo_managers m)) m)
  | TDone _ _ _ | TRegistered | TPruned _ => (t, m)
  end.

(** The tasks as the callers start them. *)
Definition resolve_thread_with_parsed_uuid (user channel : string) (ext : option string) (parsed : option Uuid) : Task :=
  TResolve (mkKey user channel ext) parsed.
Definition resolve_thread (user channel : string) (ext : option string) : Task :=
  resolve_thread_with_parsed_uuid user channel ext None.
Definition register_thread (user channel : string) (tid : Uuid) (r : Ref) : Task :=
  TRegister (mkKey user channel (Some (uuid_to_string tid))) r tid.
Definition prune_stale_sessions (max_idle : Z) : Task := TPrune max_idle.

(** A task on its own, [n] blocks of it; [clk], [sid], [tid] and [locked] may differ from block to block. *)
Fixpoint run_task (n : nat) (clk : nat -> Clock) (sid tid : nat -> Uuid) (locked : nat -> Ref -> bool)
    (t : Task) (m : Manager) : Task * Manager :=
  match n with
  | O => (t, m)
  | S n => let '(t, m) := task_step (clk 0) (sid 0) (tid 0) (locked 0) t m in
           run_task n (fun i => clk (S i)) (fun i => sid (S i)) (fun i => tid (S i)) (fun i => locked (S i)) t m
  end.

(** ** Interleavings

    A system is the manager with the tasks in flight.  Besides the tasks' blocks, anybody who holds a
    session may change it: its user stays, and threads are never removed. *)
Definition session_grows (s s' : Session) : Prop :=
  sess_user_id s' = sess_user_id s ∧ ∀ tid, is_Some (threads s !! tid) → is_Some (threads s' !! tid).

Definition starts (m : Manager) (t : Task) : Prop :=
  match t with
  | TResolve _ _ | TPrune _ => True
  | TRegister key r _ => ∃ s, heap m !! r = Some s ∧ sess_user_id s = tk_user key
  | _ => False
  end.

Inductive sys_step : Manager * list Task -> Manager * list Task -> Prop :=
| sys_start t m ts : starts m t → sys_step (m, ts) (m, t :: ts)
| sys_block clk sid tid locked i t t' m m' ts :
    ts !! i = Some t → task_step clk sid tid locked t m = (t', m') → sys_step (m, ts) (m', <[i := t']> ts)
| sys_use r s s' m ts :
    heap m !! r = Some s → session_grows s s' → sys_step (m, ts) (with_heap (<[r := s']> (heap m)) m, ts).

End manager.

(** ** Ownership *)

Definition owns (m : Manager) (r : Ref) (user : string) : Prop := ∃ s, heap m !! r = Some s ∧ sess_user_id s = user.

Definition manager_ok (m : Manager) : Prop :=
  (∀ u r, sessions m !! u = Some r → owns m r u) ∧ ∀ r, next_ref m ≤ r → heap m !! r = None.

Definition task_ok (m : Manager) (t : Task) : Prop :=
  match t with
  | TLookup key _ r | TAdopt key r _ | TCreate key r | TRegister key r _ | TRegisterUndo key r _ | TRegisterSession key r =>
      owns m r (tk_user key)
  | TAdoptMap key r tid | TMap key r tid | TUndo key r tid _ | TDone key r tid =>
      owns m r (tk_user key) ∧ has_thread m r tid = true
  | _ => True
  end.

Definition heap_grows (m m' : Manager) : Prop :=
  ∀ r s, heap m !! r = Some s → ∃ s', heap m' !! r = Some s' ∧ session_grows s s'.

#[export] Instance session_grows_preorder : PreOrder session_grows.
Proof. split; [by intros s|]. intros a b c [Hu Ht] [Hu' Ht']. split; [congruence|auto]. Qed.

Lemma heap_grows_same m m' : heap m' = heap m → heap_grows m m'.
Proof. intros Hh r s Hs. exists s. by rewrite Hh. Qed.

Lemma heap_grows_insert m m' r s s' :
  heap m' = <[r := s']> (heap m) → (heap m !! r = Some s ∧ session_grows s s' ∨ heap m !! r = None) → heap_grows m m'.
Proof.
  intros Hh Hr r0 s0 Hs. rewrite Hh. destruct (decide (r = r0)) as [<-|Hne].
  - rewrite lookup_insert_eq. destruct Hr as [[Hr Hg]|Hr]; [|congruence]. rewrite Hs in Hr. injection Hr as <-. by exists s'.
  - rewrite lookup_insert_ne by done. by exists s0.
Qed.

Lemma owns_grows m m' r u : heap_grows m m' → owns m r u → owns m' r u.
Proof. intros Hg (s & Hs & Hu). destruct (Hg r s Hs) as (s' & Hs' & Hu' & _). exists s'. split; [done|congruence]. Qed.

Lemma has_thread_grows m m' r tid : heap_grows m m' → has_thread m r tid = true → has_thread m' r tid = true.
Proof.
  intros Hg. unfold has_thread. destruct (heap m !! r) as [s|] eqn:Hs; [|done]. intros Ht%bool_decide_eq_true.
  destruct (Hg r s Hs) as (s' & -> & _ & Hth). apply bool_decide_eq_true. auto.
Qed.

Lemma task_ok_grows m m' t : heap_grows m m' → task_ok m t → task_ok m' t.
Proof.
  intros Hg. destruct t; cbn; try done; eauto using owns_grows.
  all: intros [Ho Ht]; eauto using owns_grows, has_thread_grows.
Qed.

Lemma create_thread_grows clk tid s : session_grows s (create_thread clk tid s).1.
Proof.
  split; [done|]. cbn. intros u Hu. destruct (threads s !! tid) eqn:Ht; [done|].
  destruct (decide (tid = u)) as [<-|]; [by rewrite lookup_insert_eq|by rewrite lookup_insert_ne].
Qed.

Lemma create_thread_has clk tid s : is_Some (threads (create_thread clk tid s).1 !! tid).
Proof. cbn. destruct (threads s !! tid) eqn:Ht; [by rewrite Ht|by rewrite lookup_insert_eq]. Qed.

Lemma remove_all_lookup {A} ks (g : gmap string A) u x :
  remove_all ks g !! u = Some x ↔ g !! u = Some x ∧ u ∉ ks.
Proof.
  unfold remove_all. revert g. induction ks as [|k ks IH]; intros g; cbn.
  - split; [intros Hu; split; [done|apply not_elem_of_nil]|by intros [Hu _]].
  - rewrite IH, not_elem_of_cons, lookup_delete_Some. naive_solver.
Qed.

(** The parts of a manager that ownership depends on. *)
Lemma manager_ok_same m m' :
  heap m' = heap m → next_ref m' = next_ref m → (∀ u r, sessions m' !! u = Some r → sessions m !! u = Some r) →
  manager_ok m → manager_ok m' ∧ heap_grows m m'.
Proof.
  intros Hh Hn Hs [Hr Hf]. pose proof (heap_grows_same m m' Hh) as Hg. split; [|done]. split.
  - intros u r Hu%Hs. eapply owns_grows; eauto.
  - intros r. rewrite Hn, Hh. auto.
Qed.

Section blocks.
Variable parse_str : string -> option Uuid.
Variable uuid_to_string : Uuid -> string.

Lemma create_session_ok now sid user m r m' :
  manager_ok m → create_session uuid_to_string now sid user m = (r, m') →
  manager_ok m' ∧ heap_grows m m' ∧ owns m' r user.
Proof.
  intros [Hr Hf]. unfold create_session. destruct (sessions m !! user) as [r0|] eqn:Hs.
  - intros [= <- <-]. split; [done|]. split; [by apply heap_grows_same|auto].
  - intros [= <- <-]. set (m' := fire _ _).
    assert (heap m' = <[next_ref m := session_new now sid user]> (heap m)) as Hh by done.
    assert (heap_grows m m') as Hg by (eapply (heap_grows_insert _ _ _ (session_new now sid user)); [exact Hh|right; apply Hf; lia]).
    assert (owns m' (next_ref m) user) as Ho by (eexists; rewrite Hh, lookup_insert_eq; split; done).
    split; [|done]. split.
    + intros u r. change (sessions m') with (<[user := next_ref m]> (sessions m)). rewrite lookup_insert_Some.
      intros [[<- <-]|[_ Hu]]; [done|]. eapply owns_grows; eauto.
    + intros r. change (next_ref m') with (S (next_ref m)). intros Hle. rewrite Hh, lookup_insert_ne by lia. apply Hf. lia.
Qed.

Lemma lookup_or_adopt_found key parsed r m tid :
  lookup_or_adopt parse_str key parsed r m = inl tid → has_thread m r tid = true.
Proof.
  unfold lookup_or_adopt. destruct (thread_map m !! key) as [t|]; [|done]. destruct (has_thread m r t) eqn:Ht; [|done].
  by intros [= <-].
Qed.

Lemma task_step_ok clk sid tid locked t m t' m' :
  manager_ok m → task_ok m t → task_step parse_str uuid_to_string clk sid tid locked t m = (t', m') →
  manager_ok m' ∧ heap_grows m m' ∧ task_ok m' t'.
Proof.
  intros Hm Ht Hs.
  assert (heap m' = heap m → next_ref m' = next_ref m → (∀ u r, sessions m' !! u = Some r → sessions m !! u = Some r) →
    task_ok m t' → manager_ok m' ∧ heap_grows m m' ∧ task_ok m' t') as Hsame.
  { intros Hh Hn Hse Hok. destruct (manager_ok_same m m' Hh Hn Hse Hm) as [? ?]. eauto using task_ok_grows. }
  destruct t as [key parsed|key parsed|key parsed r|key r u|key r u|key r|key r u|key r u ad|key r u|key r u|key r u|key r| |idle|stale|stale tids|users tids n|tids n|n];
    cbn [task_step task_ok] in *.
  - destruct (sessions m !! tk_user key) as [r|] eqn:Hu; injection Hs as <- <-; (apply Hsame; [done..|]); [|done].
    by apply Hm.
  - destruct (create_session _ _ _ _ _) as [r m1] eqn:Hc. injection Hs as <- <-. by eapply create_session_ok.
  - destruct (lookup_or_adopt parse_str key parsed r m) as [u|[u|]] eqn:Hl; injection Hs as <- <-;
      (apply Hsame; [done..|]); [|done..].
    split; [done|]. by eapply lookup_or_adopt_found.
  - destruct (has_thread m r u) eqn:Hh; injection Hs as <- <-; (by apply Hsame).
  - destruct (is_mapped m u); injection Hs as <- <-; (apply Hsame; [done..|]); [by destruct Ht|done].
  - destruct Ht as (s & Hh & Hu). rewrite Hh in Hs. destruct (create_thread clk tid s) as [s' id] eqn:Hc. injection Hs as <- <-.
    pose proof (create_thread_grows clk tid s) as Hgr. pose proof (create_thread_has clk tid s) as Hhas. rewrite Hc in Hgr, Hhas.
    set (m1 := with_heap _ m). assert (heap_grows m m1) as Hg by (eapply (heap_grows_insert _ _ r s s'); [done|by left]).
    assert (id = tid) as -> by (by apply (f_equal snd) in Hc).
    split; [|split; [done|]].
    + destruct Hm as [Hr Hf]. split; [intros u r' Hu'; eapply owns_grows; [done|by apply Hr]|].
      intros r' Hr'. cbn. rewrite lookup_insert_ne; [by apply Hf|]. intros <-. by rewrite (Hf r Hr') in Hh.
    + split; [exists s'; cbn; rewrite lookup_insert_eq; split; [done|]; cbn in Hgr; by rewrite (proj1 Hgr)|].
      unfold has_thread. cbn. rewrite lookup_insert_eq. by apply bool_decide_eq_true.
  - injection Hs as <- <-. by apply Hsame.
  - injection Hs as <- <-. destruct ad, (undo_managers m !! u); (by apply Hsame).
  - injection Hs as <- <-. by apply Hsame.
  - injection Hs as <- <-. by apply Hsame.
  - injection Hs as <- <-. destruct (undo_managers m !! u); (by apply Hsame).
  - injection Hs as <- <-. destruct (sessions m !! tk_user key) eqn:Hu; [by apply Hsame|].
    pose proof (heap_grows_same m (with_sessions (<[tk_user key := r]> (sessions m)) m) eq_refl) as Hg.
    split; [|done]. destruct Hm as [Hr Hf]. split; [|done]. intros u r'. cbn. rewrite lookup_insert_Some.
    intros [[<- <-]|[_ Hu']]; eapply owns_grows; eauto.
  - injection Hs as <- <-. by apply Hsame.
  - destruct (stale_sessions _ _ _ _); injection Hs as <- <-; by apply Hsame.
  - injection Hs as <- <-. by apply Hsame.
  - injection Hs as <- <-. apply Hsame; [done|done| |done]. intros u r Hu%remove_all_lookup. apply Hu.
  - injection Hs as <- <-. by apply Hsame.
  - injection Hs as <- <-. by apply Hsame.
  - injection Hs as <- <-. by apply Hsame.
Qed.

Definition sys_ok (x : Manager * list Task) : Prop := manager_ok x.1 ∧ Forall (task_ok x.1) x.2.

Lemma sys_step_ok x y : sys_step parse_str uuid_to_string x y → sys_ok x → sys_ok y.
Proof.
  intros Hstep [Hm Ht]. destruct Hstep as [t m ts Hst|clk sid tid locked i t t' m m' ts Hi Hs|r s s' m ts Hr Hg]; cbn in *.
  - split; [done|]. constructor; [|done]. by destruct t.
  - pose proof (Forall_lookup_1 _ _ _ _ Ht Hi) as Hti.
    destruct (task_step_ok _ _ _ _ _ _ _ _ Hm Hti Hs) as (Hm' & Hg & Ht'). split; [done|]. cbn.
    apply Forall_insert; [|done]. eapply Forall_impl; [exact Ht|]. intros t0. by apply task_ok_grows.
  - set (m' := with_heap _ m). assert (heap_grows m m') as Hgr by (eapply (heap_grows_insert _ _ r s s'); [done|by left]).
    split.
    + destruct Hm as [Hrf Hf]. split; [intros u r' Hu'; eapply owns_grows; [done|by apply Hrf]|].
      intros r' Hr'. cbn in *. rewrite lookup_insert_ne; [by apply Hf|]. intros <-. by rewrite (Hf r Hr') in Hr.
    + eapply Forall_impl; [exact Ht|]. intros t0. by apply task_ok_grows.
Qed.

End blocks.

Lemma reachable_ok parse_str uuid_to_string hooks x :
  rtc (sys_step parse_str uuid_to_string) (manager_empty hooks, []) x → sys_ok x.
Proof.
  intros Hr. remember (manager_empty hooks, []) as x0 eqn:Hx.
  assert (sys_ok x0) as Hok.
  { subst. split; [|constructor]. split; [intros u r0; cbn; by rewrite lookup_empty|intros r0 _; apply lookup_empty]. }
  clear Hx. induction Hr as [|x y z Hxy _ IH]; [done|]. apply IH. by eapply sys_step_ok.
Qed.

(** C24. However lookups, registrations, prunings and the use of sessions interleave, a message is only
    ever routed to a thread of the session of the user it came from. *)
Theorem threads_stay_with_their_user parse_str uuid_to_string hooks m ts key r tid :
  rtc (sys_step parse_str uuid_to_string) (manager_empty hooks, []) (m, ts) → TDone key r tid ∈ ts →
  ∃ s, heap m !! r = Some s ∧ sess_user_id s = tk_user key ∧ is_Some (threads s !! tid).
Proof.
  intros [_ Hts]%reachable_ok Hin.
  rewrite Forall_forall in Hts. destruct (Hts _ Hin) as [(s & Hs & Hu) Ht]. exists s. split; [done|]. split; [done|].
  unfold has_thread in Ht. rewrite Hs in Ht. by apply bool_decide_eq_true in Ht.
Qed.

(** ** Progress *)

(** The blocks a task still has to go at most. *)
Definition blocks_left (t : Task) : nat :=
  match t with
  | TResolve _ _ => 8 | TNewSession _ _ => 7 | TLookup _ _ _ => 6 | TAdopt _ _ _ => 5 | TAdoptMap _ _ _ => 4
  | TCreate _ _ => 3 | TMap _ _ _ => 2 | TUndo _ _ _ _ => 1 | TDone _ _ _ => 0
  | TRegister _ _ _ => 3 | TRegisterUndo _ _ _ => 2 | TRegisterSession _ _ => 1 | TRegistered => 0
  | TPrune _ => 5 | TPruneThreads _ => 4 | TPruneRemove _ _ => 3 | TPruneMap _ _ _ => 2 | TPruneUndo _ _ => 1 | TPruned _ => 0
  end.

(** Every task ends whatever the others do in between: each of its blocks brings it nearer to its end,
    and eight are enough. *)
Theorem tasks_terminate parse_str uuid_to_string hooks x i t clk sid tid locked :
  rtc (sys_step parse_str uuid_to_string) (manager_empty hooks, []) x → x.2 !! i = Some t →
  blocks_left t ≤ 8 ∧
  (blocks_left t = 0 ∨
   blocks_left (task_step parse_str uuid_to_string clk sid tid locked t x.1).1 < blocks_left t).
Proof.
  intros [_ Hts]%reachable_ok Hi. destruct x as [m ts]. cbn in *. pose proof (Forall_lookup_1 _ _ _ _ Hts Hi) as Ht.
  split; [destruct t; cbn; lia|].
  destruct t; cbn [task_step]; try (right; cbn; lia); try (left; reflexivity); right.
  - destruct (sessions m !! _); cbn; lia.
  - destruct (create_session _ _ _ _ _). cbn. lia.
  - destruct (lookup_or_adopt _ _ _ _ _) as [|[]]; cbn; lia.
  - destruct (has_thread _ _ _); cbn; lia.
  - destruct (is_mapped _ _); cbn; lia.
  - destruct Ht as (s & -> & _). cbn. lia.
  - destruct (stale_sessions _ _ _ _); cbn; lia.
Qed.

(** ** Routing *)

Definition routed (m : Manager) (key : ThreadKey) (r : Ref) (tid : Uuid) : Prop :=
  sessions m !! tk_user key = Some r ∧ thread_map m !! key = Some tid ∧ has_thread m r tid = true.

(** What a lookup has established when nobody interferes. *)
Definition route_ok (m : Manager) (t : Task) : Prop :=
  match t with
  | TLookup key _ r | TAdopt key r _ | TCreate key r => sessions m !! tk_user key = Some r
  | TAdoptMap key r tid | TMap key r tid => sessions m !! tk_user key = Some r ∧ has_thread m r tid = true
  | TUndo key r tid _ | TDone key r tid => routed m key r tid
  | TResolve _ _ | TNewSession _ _ => True
  | _ => False
  end.

Definition task_key (t : Task) : option ThreadKey :=
  match t with
  | TResolve key _ | TNewSession key _ | TLookup key _ _ | TAdopt key _ _ | TAdoptMap key _ _ | TCreate key _
  | TMap key _ _ | TUndo key _ _ _ | TDone key _ _ | TRegister key _ _ | TRegisterUndo key _ _ | TRegisterSession key _ => Some key
  | _ => None
  end.

Section routing.
Variable parse_str : string -> option Uuid.
Variable uuid_to_string : Uuid -> string.

Lemma route_step clk sid tid locked t m t' m' :
  manager_ok m → task_ok m t → route_ok m t → task_step parse_str uuid_to_string clk sid tid locked t m = (t', m') →
  route_ok m' t' ∧ task_key t' = task_key t.
Proof.
  intros Hm Ht Hr Hs.
  pose proof (task_step_ok parse_str uuid_to_string clk sid tid locked t m t' m' Hm Ht Hs) as (_ & Hg & Ht').
  destruct t; cbn [task_step route_ok] in *; try done.
  - destruct (sessions m !! tk_user key) eqn:Hu; by injection Hs as <- <-.
  - unfold create_session in Hs. destruct (sessions m !! tk_user key) eqn:Hu; injection Hs as <- <-; [done|].
    split; [|done]. cbn. apply lookup_insert_eq.
  - destruct (lookup_or_adopt parse_str key parsed r m) as [u|[u|]] eqn:Hl; injection Hs as <- <-; [|done..].
    split; [|done]. unfold lookup_or_adopt in Hl. destruct (thread_map m !! key) as [u'|] eqn:Hk; [|done].
    destruct (has_thread m r u') eqn:Hh; [|done]. injection Hl as ->. done.
  - destruct (has_thread m r tid0) eqn:Hh; injection Hs as <- <-; done.
  - destruct (is_mapped m tid0); injection Hs as <- <-; [by destruct Hr|].
    split; [|done]. destruct Hr as [Hr Hh]. split; [done|]. split; [apply lookup_insert_eq|done].
  - destruct Ht as (s & Hh & _). rewrite Hh in Hs. destruct (create_thread clk tid s) as [s' id]. injection Hs as <- <-.
    destruct Ht' as [_ Hhas]. done.
  - injection Hs as <- <-. split; [|done]. destruct Hr as [Hr Hh]. split; [done|]. split; [apply lookup_insert_eq|done].
  - injection Hs as <- <-. split; [|done]. destruct Hr as (Hr & Hk & Hh).
    by destruct adopted, (undo_managers m !! tid0).
  - by injection Hs as <- <-.
Qed.

Lemma run_task_done n clk sid tid locked t m :
  manager_ok m → task_ok m t → route_ok m t → blocks_left t ≤ n →
  ∃ key r u m', run_task parse_str uuid_to_string n clk sid tid locked t m = (TDone key r u, m') ∧
    task_key t = Some key ∧ routed m' key r u ∧ manager_ok m'.
Proof.
  revert clk sid tid locked t m. induction n as [|n IH]; intros clk sid tid locked t m Hm Ht Hr Hn.
  - destruct t; cbn in *; try lia; try done. eexists _, _, _, _. split; [done|]. split; [done|]. done.
  - cbn [run_task]. destruct (task_step parse_str uuid_to_string (clk 0) (sid 0) (tid 0) (locked 0) t m) as [t' m'] eqn:Hs.
    pose proof (task_step_ok parse_str uuid_to_string _ _ _ _ _ _ _ _ Hm Ht Hs) as (Hm' & _ & Ht').
    destruct (route_step _ _ _ _ _ _ _ _ Hm Ht Hr Hs) as [Hr' Hkey].
    destruct (IH (fun i => clk (S i)) (fun i => sid (S i)) (fun i => tid (S i)) (fun i => locked (S i)) t' m' Hm' Ht' Hr')
      as (key & r & u & m'' & Hrun & Hk & Hrest).
    { enough (blocks_left t' < blocks_left t ∨ blocks_left t' = 0) by lia. clear -Ht Hr Hs.
      destruct t; cbn [task_step] in Hs; try done; repeat case_match; injection Hs as <- <-; cbn; try lia.
      destruct Ht as (s & Hh & _). congruence. }
    exists key, r, u, m''. split; [done|]. split; [congruence|done].
Qed.

(** Blocks of other lookups and registrations. *)
Definition other_step (key : ThreadKey) (m m' : Manager) : Prop :=
  ∃ clk sid tid locked t t' key', task_step parse_str uuid_to_string clk sid tid locked t m = (t', m') ∧
    task_ok m t ∧ task_key t = Some key' ∧ key' ≠ key.

Lemma other_step_routed key r tid m m' :
  manager_ok m → other_step key m m' → routed m key r tid → manager_ok m' ∧ routed m' key r tid.
Proof.
  intros Hm (clk & sid & tid' & locked & t & t' & key' & Hs & Ht & Hk & Hne) (Hse & Htm & Hth).
  pose proof (task_step_ok parse_str uuid_to_string _ _ _ _ _ _ _ _ Hm Ht Hs) as (Hm' & Hg & _). split; [done|].
  assert (∀ u : Uuid, <[key' := u]> (thread_map m) !! key = Some tid) as Hins by (intros u; by rewrite lookup_insert_ne).
  split; [|split; [|by eapply has_thread_grows]].
  - destruct t; cbn [task_step] in Hs; simplify_eq/=; repeat (case_match; simplify_eq/=); try done.
    + unfold create_session in *. repeat (case_match; simplify_eq/=); [done|].
      rewrite lookup_insert_ne; [done|]. intros Heq. rewrite Heq in *. congruence.
    + rewrite lookup_insert_ne; [done|]. intros Heq. rewrite Heq in *. congruence.
  - destruct t; cbn [task_step] in Hs; simplify_eq/=; repeat (case_match; simplify_eq/=); try done; try apply Hins.
    unfold create_session in *. by repeat (case_match; simplify_eq/=).
Qed.

End routing.

(** A conversation stays where it is: the thread a message is routed to is the one every later message with
    the same user, channel and thread identifier is routed to, whatever blocks of other lookups
    and registrations come in between; the lookup returns it after two blocks and
    changes nothing. *)
Theorem routing_stable parse_str uuid_to_string key parsed clk sid tid locked m key' r u m1 m2 :
  manager_ok m →
  run_task parse_str uuid_to_string 8 clk sid tid locked (TResolve key parsed) m = (TDone key' r u, m1) →
  rtc (other_step parse_str uuid_to_string key) m1 m2 →
  key' = key ∧ ∀ parsed' clk' sid' tid' locked',
    run_task parse_str uuid_to_string 2 clk' sid' tid' locked' (TResolve key parsed') m2 = (TDone key r u, m2).
Proof.
  intros Hm Hrun Hrest.
  destruct (run_task_done parse_str uuid_to_string 8 clk sid tid locked (TResolve key parsed) m Hm I I (le_n 8))
    as (k & r' & u' & m1' & Hrun' & [= <-] & Hr & Hm1).
  rewrite Hrun in Hrun'. injection Hrun' as -> <- <- <-. split; [done|].
  assert (routed m2 key r u) as (Hs & Ht & Hh).
  { clear Hrun Hm. induction Hrest as [|a b c Hab _ IH]; [done|].
    destruct (other_step_routed _ _ _ _ _ _ _ Hm1 Hab Hr) as [? ?]. by apply IH. }
  intros. cbn. rewrite Hs. cbn. unfold lookup_or_adopt. by rewrite Ht, Hh.
Qed.

(** ** Pruning *)

Lemma stale_sessions_spec uuid_to_string locked cutoff m u :
  u ∈ (stale_sessions uuid_to_string locked cutoff m).*1 ↔
  ∃ r s, sessions m !! u = Some r ∧ heap m !! r = Some s ∧ locked r = false ∧ (last_active_at s < cutoff)%Z.
Proof.
  unfold stale_sessions. rewrite list_elem_of_fmap. split.
  - intros ([u' sid] & -> & Hx). apply list_elem_of_omap in Hx as ([u0 r] & Hin%elem_of_map_to_list & Hf). cbn in Hf.
    destruct (heap m !! r) as [s|] eqn:Hr; [|done]. destruct (locked r) eqn:Hl; [done|].
    destruct (Z.ltb_spec (last_active_at s) cutoff); [|done]. injection Hf as -> <-. by exists r, s.
  - intros (r & s & Hs & Hh & Hl & Hlt). exists (u, uuid_to_string (sess_id s)). split; [done|].
    apply list_elem_of_omap. exists (u, r). split; [by apply elem_of_map_to_list|]. cbn. rewrite Hh, Hl.
    apply Z.ltb_lt in Hlt. by rewrite Hlt.
Qed.

Lemma stale_sessions_nodup uuid_to_string locked cutoff m : NoDup (stale_sessions uuid_to_string locked cutoff m).*1.
Proof.
  unfold stale_sessions. pose proof (NoDup_fst_map_to_list (sessions m)) as Hn. revert Hn.
  induction (map_to_list (sessions m)) as [|[u r] l IH]; cbn; [by intros|]. intros [Hu Hn]%NoDup_cons.
  specialize (IH Hn). destruct (heap m !! r) as [s|]; [|done]. destruct (locked r); [done|]. destruct (_ <? _)%Z; [|done].
  cbn. apply NoDup_cons. split; [|done]. intros (x & -> & Hx)%list_elem_of_fmap. apply Hu.
  apply list_elem_of_omap in Hx as ([u' r'] & Hin & Hf). cbn in Hf.
  apply list_elem_of_fmap. exists (u', r'). split; [|done]. cbn.
  destruct (heap m !! r'); [|done]. destruct (locked r'); [done|]. destruct (_ <? _)%Z; [|done]. by injection Hf as <-.
Qed.

Lemma remove_all_size {A} ks (g : gmap string A) :
  NoDup ks → (∀ k, k ∈ ks → is_Some (g !! k)) → size g - size (remove_all ks g) = length ks.
Proof.
  unfold remove_all. intros Hn. assert (∀ g : gmap string A, (∀ k, k ∈ ks → is_Some (g !! k)) →
    size (foldl (fun g k => delete k g) g ks) + length ks = size g) as Hs; [|intros Hk; rewrite <-(Hs g Hk); lia].
  induction Hn as [|k ks Hk Hn IH]; intros g0 Hin; cbn; [lia|].
  destruct (Hin k (list_elem_of_here _ _)) as [x Hx].
  rewrite Nat.add_succ_r, IH; [|intros k' Hk'; rewrite lookup_delete_ne; [apply Hin; by constructor|by intros ->]].
  rewrite map_size_delete_Some by (by exists x). assert (size g0 ≠ 0); [|lia].
  intros He%map_size_empty_inv. by rewrite He, lookup_empty in Hx.
Qed.

Lemma remove_uuids_lookup {A} ks (g : gmap Uuid A) u x :
  remove_uuids ks g !! u = Some x ↔ g !! u = Some x ∧ u ∉ ks.
Proof.
  unfold remove_uuids. revert g. induction ks as [|k ks IH]; intros g; cbn.
  - split; [intros Hu; split; [done|apply not_elem_of_nil]|by intros [Hu _]].
  - rewrite IH, not_elem_of_cons, lookup_delete_Some. naive_solver.
Qed.

Lemma stale_threads_spec locked users m tid :
  tid ∈ stale_threads locked users m ↔
  ∃ u r s, u ∈ users ∧ sessions m !! u = Some r ∧ locked r = false ∧ heap m !! r = Some s ∧ is_Some (threads s !! tid).
Proof.
  unfold stale_threads. rewrite list_elem_of_In, in_flat_map. setoid_rewrite <-list_elem_of_In. split.
  - intros (u & Hu & Ht). destruct (sessions m !! u) as [r|] eqn:Hs; [|by apply not_elem_of_nil in Ht].
    destruct (locked r) eqn:Hl; [by apply not_elem_of_nil in Ht|].
    destruct (heap m !! r) as [s|] eqn:Hr; [|by apply not_elem_of_nil in Ht].
    apply list_elem_of_fmap in Ht as ([tid' th] & -> & Ht%elem_of_map_to_list). exists u, r, s. repeat (split; [done|]). by exists th.
  - intros (u & r & s & Hu & Hs & Hl & Hr & [th Hth]). exists u. split; [done|]. rewrite Hs, Hl, Hr.
    apply list_elem_of_fmap. exists (tid, th). split; [done|]. by apply elem_of_map_to_list.
Qed.

(** Pruning takes away exactly the idle sessions nobody is using, with all that hangs on them: a session that is
    younger or locked stays; routes and undo histories go with their sessions and only with
    them; the sessions themselves stay valid for whoever still holds them; and the number
    returned is that of the sessions taken away. *)
Theorem pruning_exact parse_str uuid_to_string idle clk sid tid locked m :
  let gone u := ∃ r s, sessions m !! u = Some r ∧ heap m !! r = Some s ∧ locked r = false ∧
                       (last_active_at s < clk O - secs idle)%Z in
  ∃ users m',
    run_task parse_str uuid_to_string 5 (fun _ => clk) sid tid (fun _ => locked) (prune_stale_sessions idle) m =
      (TPruned (length users), m') ∧
    NoDup users ∧ (∀ u, u ∈ users ↔ gone u) ∧ heap m' = heap m ∧
    (∀ u r, sessions m' !! u = Some r ↔ sessions m !! u = Some r ∧ ¬ gone u) ∧
    (∀ key x, thread_map m' !! key = Some x ↔ thread_map m !! key = Some x ∧ ¬ gone (tk_user key)) ∧
    (∀ x mgr, undo_managers m' !! x = Some mgr ↔
       undo_managers m !! x = Some mgr ∧
       ∀ u r s, gone u → sessions m !! u = Some r → heap m !! r = Some s → threads s !! x = None).
Proof.
  intros gone. set (st := stale_sessions uuid_to_string locked (clk O - secs idle)%Z m).
  assert (∀ u, u ∈ st.*1 ↔ gone u) as Hst by apply stale_sessions_spec.
  exists st.*1.
  assert (∀ x, x ∉ stale_threads locked st.*1 m ↔
    ∀ u r s, gone u → sessions m !! u = Some r → heap m !! r = Some s → threads s !! x = None) as Hth.
  { intros x. rewrite stale_threads_spec. split.
    - intros Hno u r s Hg Hs Hr. destruct (threads s !! x) eqn:Hx; [|done]. exfalso. apply Hno. exists u, r, s.
      split; [by apply Hst|]. split; [done|]. split; [|by rewrite Hx].
      destruct Hg as (r' & s' & Hs' & _ & Hl & _). congruence.
    - intros Hall (u & r & s & Hu & Hs & Hl & Hr & Hx). rewrite (Hall u r s) in Hx; [by destruct Hx|by apply Hst|done|done]. }
  assert (stale_sessions uuid_to_string locked (clk O - secs idle)%Z m = st) as Hdef by done. clearbody st.
  unfold prune_stale_sessions. cbn [run_task task_step]. rewrite Hdef. destruct st as [|x st].
  - exists m. cbn. split; [done|]. split; [constructor|]. split; [done|]. split; [done|].
    assert (∀ u, ¬ gone u) as Hno by (intros u Hg%Hst; by apply not_elem_of_nil in Hg).
    split; [naive_solver|]. split; [naive_solver|]. naive_solver.
  - cbn [run_task task_step]. eexists. split.
    + assert (∀ k, k ∈ (x :: st).*1 → is_Some (sessions m !! k)) as Hin by (intros k (r & s & -> & _)%Hst; done).
      pose proof (stale_sessions_nodup uuid_to_string locked (clk O - secs idle)%Z m) as Hn. rewrite Hdef in Hn.
      change (sessions (fire _ m)) with (sessions m). rewrite (remove_all_size _ _ Hn Hin). reflexivity.
    + split; [by rewrite <-Hdef; apply stale_sessions_nodup|]. split; [done|]. split; [done|]. split; [|split].
      * intros u r. rewrite <-Hst. apply remove_all_lookup.
      * intros key y. rewrite <-Hst. apply map_lookup_filter_Some.
      * intros y mgr. rewrite <-Hth. apply remove_uuids_lookup.
Qed.

(** ** Schedules *)

(** The tasks named by [l] take one block each, in that order; an entry is the task, the identifiers it would
    draw and the clock. *)
Fixpoint run_schedule (parse_str : string -> option Uuid) (uuid_to_string : Uuid -> string)
    (l : list (nat * Uuid * Z)) (x : Manager * list Task) : Manager * list Task :=
  match l with
  | [] => x
  | (i, id, now) :: l =>
      run_schedule parse_str uuid_to_string l
        (match x.2 !! i with
         | Some t => let '(t', m') := task_step parse_str uuid_to_string (frozen now) id id (fun _ => false) t x.1 in
                     (m', <[i := t']> x.2)
         | None => x
         end)
  end.

Lemma run_schedule_steps parse_str uuid_to_string l x :
  rtc (sys_step parse_str uuid_to_string) x (run_schedule parse_str uuid_to_string l x).
Proof.
  revert x. induction l as [|[[i id] now] l IH]; intros [m ts]; cbn; [done|].
  destruct (ts !! i) as [t|] eqn:Hi; [|apply IH].
  destruct (task_step parse_str uuid_to_string (frozen now) id id (fun _ => false) t m) as [t' m'] eqn:Hs.
  eapply rtc_l; [|apply IH]. by eapply sys_block.
Qed.

Definition demo_key : ThreadKey := mkKey "alice" "telegram" (Some "chat-1").
Definition demo_resolve : Task := resolve_thread "alice" "telegram" (Some "chat-1").
Definition demo_show (u : Uuid) : string := "id".

Definition two_lookups : Manager * list Task := (manager_empty false, [demo_resolve; demo_resolve]).

Lemma two_lookups_reachable : rtc (sys_step (fun _ => None) demo_show) (manager_empty false, []) two_lookups.
Proof. eapply rtc_l; [by apply (sys_start _ _ demo_resolve)|]. eapply rtc_l; [by apply (sys_start _ _ demo_resolve)|done]. Qed.

(** Two first messages of a conversation that arrive together can end in different threads: both lookups miss, both
    create a thread, and the second mapping replaces the first. *)
Theorem concurrent_lookups_split :
  ∃ m ts a b, rtc (sys_step (fun _ => None) demo_show) (manager_empty false, []) (m, ts) ∧
    TDone demo_key 0 a ∈ ts ∧ TDone demo_key 0 b ∈ ts ∧ a ≠ b ∧ thread_map m !! demo_key = Some b.
Proof.
  set (sched := imap (fun n i => (i, N.of_nat (S n), 0%Z)) [0; 1; 0; 1; 0; 1; 0; 1; 0; 1; 0; 1]%nat).
  destruct (run_schedule (fun _ => None) demo_show sched two_lookups) as [m ts] eqn:He.
  exists m, ts, 7%N, 8%N. split; [rewrite <-He; etrans; [exact two_lookups_reachable|apply run_schedule_steps]|].
  assert (thread_map m !! demo_key = Some 8%N) as Hm by (apply (f_equal (fun x => thread_map x.1 !! demo_key)) in He; cbn [fst] in He; rewrite <-He; vm_compute; reflexivity).
  assert (ts = [TDone demo_key 0 7%N; TDone demo_key 0 8%N]) as -> by (apply (f_equal snd) in He; cbn [snd] in He; rewrite <-He; vm_compute; reflexivity).
  split; [apply list_elem_of_here|]. split; [apply list_elem_of_further, list_elem_of_here|]. split; [discriminate|exact Hm].
Qed.

Definition demo_routed : Manager * list Task :=
  run_schedule (fun _ => None) demo_show [(0%nat, 1%N, 0%Z); (0%nat, 2%N, 0%Z); (0%nat, 3%N, 0%Z); (0%nat, 4%N, 0%Z);
    (0%nat, 5%N, 0%Z); (0%nat, 6%N, 0%Z)] two_lookups.

Lemma demo_routed_reachable : rtc (sys_step (fun _ => None) demo_show) (manager_empty false, []) (demo_routed.1, demo_routed.2).
Proof. rewrite <-surjective_pairing. unfold demo_routed. etrans; [exact two_lookups_reachable|apply run_schedule_steps]. Qed.

Lemma threads_stay_with_their_user_witness :
  ∃ s, heap demo_routed.1 !! 0%nat = Some s ∧ sess_user_id s = "alice" ∧ is_Some (threads s !! 4%N).
Proof.
  apply (threads_stay_with_their_user (fun _ => None) demo_show false demo_routed.1 demo_routed.2 demo_key 0 4%N).
  - exact demo_routed_reachable.
  - replace demo_routed.2 with [TDone demo_key 0 4%N; demo_resolve] by (vm_compute; reflexivity). apply list_elem_of_here.
Defined.

Lemma tasks_terminate_witness :
  blocks_left (task_step (fun _ => None) demo_show (frozen 0) 1%N 1%N (fun _ => false) demo_resolve demo_routed.1).1 < 8.
Proof.
  destruct (tasks_terminate (fun _ => None) demo_show false (demo_routed.1, demo_routed.2) 1%nat demo_resolve
    (frozen 0) 1%N 1%N (fun _ => false)) as [_ [H0|H1]].
  - exact demo_routed_reachable.
  - vm_compute. reflexivity.
  - discriminate H0.
  - exact H1.
Defined.

Lemma manager_empty_ok hooks : manager_ok (manager_empty hooks).
Proof. split; [intros u r; cbn; by rewrite lookup_empty|intros r _; apply lookup_empty]. Qed.

Lemma routing_stable_witness :
  ∃ m1, run_task (fun _ => None) demo_show 8 (fun _ => frozen 0) (fun _ => 1%N) (fun _ => 2%N) (fun _ _ => false)
          demo_resolve (manager_empty false) = (TDone demo_key 0 2%N, m1) ∧
  run_task (fun _ => None) demo_show 2 (fun _ => frozen 0) (fun _ => 3%N) (fun _ => 4%N) (fun _ _ => false)
          demo_resolve m1 = (TDone demo_key 0 2%N, m1).
Proof.
  eexists. split; [vm_compute; reflexivity|].
  eapply (routing_stable (fun _ => None) demo_show demo_key None (fun _ => frozen 0) (fun _ => 1%N) (fun _ => 2%N) (fun _ _ => false)
    (manager_empty false) demo_key 0 2%N); [apply manager_empty_ok|vm_compute; reflexivity|apply rtc_refl].
Defined.
