(* ===== verification/History.v ===== *)
(** * History: conversations in the database

    The persistence of [src/agent/thread_ops.rs]: what is stored of a turn, how messages are rebuilt from the
    rows, and how a thread is loaded from them when a message names it.  The database is an interface, the
    class [Database]; serde's printer and parser are parameters. *)

From stdpp Require Import pretty.
From S2P Require Import Prelude Text TextSearch JobState Provider Session ReplyText SessionManager.

Record ConversationMessage : Type := mkRow { row_role : string; row_content : string }.

(** The operations of [Database] that conversations use, over the state of the store. *)
Class Database (D : Type) := {
  ensure_conversation : Uuid -> string -> string -> D -> Result string bool * D;
  add_conversation_message : Uuid -> string -> string -> D -> Result string unit * D;
  list_conversation_messages : Uuid -> D -> Result string (list ConversationMessage);
  conversation_belongs_to_user : Uuid -> string -> D -> Result string bool;
  get_conversation_metadata : Uuid -> D -> Result string (option Json)
}.

Class HistoryEnv := {
  json_to_string : Json -> string;
  serialize : Json -> Result string string;
  json_from_str : string -> option Json
}.

Section history.
Context `{HistoryEnv} `{Database D}.

(** ** Writing *)

Definition ensure_writable_conversation (tid : Uuid) (channel user_id : string) (d : D) : bool * D :=
  match ensure_conversation tid channel user_id d with
  | (Ok true, d) => (true, d)
  | (_, d) => (false, d)
  end.

(** The three kinds of rows are stored alike; a missing store, a refusal and an error are ignored. *)
Definition persist_row (tid : Uuid) (channel user_id role content : string) (d : option D) : option D :=
  match d with
  | None => None
  | Some d =>
      match ensure_writable_conversation tid channel user_id d with
      | (false, d) => Some d
      | (true, d) => Some (add_conversation_message tid role content d).2
      end
  end.

Definition persist_user_message (tid : Uuid) (channel user_id user_input : string) (d : option D) : option D :=
  persist_row tid channel user_id "user" user_input d.

Definition persist_assistant_response (tid : Uuid) (channel user_id response : string) (d : option D) : option D :=
  persist_row tid channel user_id "assistant" response d.

Definition call_label (turn_number i : nat) : string := cat ["turn"; show_nat turn_number; "_"; show_nat i].

Definition opt_field (key : string) (v : option string) : list (string * Json) :=
  match v with Some s => [(key, JString s)] | None => [] end.

Definition call_summary (turn_number i : nat) (tc : TurnToolCall) : Json :=
  JObject ([("name", JString (ttc_name tc)); ("call_id", JString (call_label turn_number i))] ++
    opt_field "result_preview" ((fun r => truncate_preview (value_text json_to_string r) 500) <$> ttc_result tc) ++
    opt_field "result" ((fun r => truncate_preview (value_text json_to_string r) 1000) <$> ttc_result tc) ++
    opt_field "error" ((fun e => truncate_preview e 200) <$> ttc_error tc) ++
    opt_field "rationale" ((fun e => truncate_preview e 500) <$> ttc_rationale tc) ++
    opt_field "tool_call_id" ((fun e => truncate_preview e 128) <$> ttc_tool_call_id tc)).

Definition calls_wrapper (turn_number : nat) (calls : list TurnToolCall) (narrative : option string) : Json :=
  let summaries := JArray (imap (call_summary turn_number) calls) in
  JObject (opt_field "narrative" ((fun n => truncate_preview n 1000) <$> narrative) ++ [("calls", summaries)]).

Definition persist_tool_calls (tid : Uuid) (channel user_id : string) (turn_number : nat) (calls : list TurnToolCall)
    (narrative : option string) (d : option D) : option D :=
  match calls with
  | [] => d
  | _ => match serialize (calls_wrapper turn_number calls narrative) with
         | Err _ => d
         | Ok content => persist_row tid channel user_id "tool_calls" content d
         end
  end.

(** ** Reading *)

Definition str_field (key default_value : string) (c : Json) : string := default default_value (json_get key c ≫= as_str).

Definition row_calls (content : string) : list Json :=
  match json_from_str content with
  | Some (JArray arr) => arr
  | Some (JObject obj) => match json_get "calls" (JObject obj) with Some (JArray arr) => arr | _ => [] end
  | _ => []
  end.

Definition rebuilt_call (c : Json) : ToolCall :=
  mkToolCall (str_field "call_id" "call_0" c) (str_field "name" "unknown" c) (default (JObject []) (json_get "parameters" c))
    (json_get "rationale" c ≫= as_str).

Definition rebuilt_result (c : Json) : ChatMessage :=
  tool_result (str_field "call_id" "call_0" c) (str_field "name" "unknown" c)
    (match json_get "error" c ≫= as_str with
     | Some err => err
     | None => match json_get "result" c ≫= as_str with
               | Some res => res
               | None => default "OK" (json_get "result_preview" c ≫= as_str)
               end
     end).

Definition rebuild_calls (calls : list Json) : list ChatMessage :=
  match calls with
  | [] => []
  | c :: _ =>
      if bool_decide (is_Some (json_get "call_id" c ≫= as_str))
      then assistant_with_tool_calls None (rebuilt_call <$> calls) :: (rebuilt_result <$> calls)
      else []
  end.

Definition rebuild_row (msg : ConversationMessage) : list ChatMessage :=
  if (row_role msg =? "user")%string then [user (row_content msg)]
  else if (row_role msg =? "assistant")%string then [assistant (row_content msg)]
  else if (row_role msg =? "tool_calls")%string then rebuild_calls (row_calls (row_content msg))
  else [].

Definition rebuild_chat_messages_from_db (rows : list ConversationMessage) : list ChatMessage := rows ≫= rebuild_row.

(** ** Loading a thread *)

Definition FORGED_THREAD_ID_ERROR : string := "Invalid or unauthorized thread ID.".

Definition requires_preexisting_uuid_thread (channel : string) : bool :=
  (channel =? "gateway")%string || (channel =? "test")%string.

Variable parse_str : string -> option Uuid.
Variable uuid_to_string : Uuid -> string.

(** What the database says about a thread the user names: the rows to load, or a refusal. *)
Definition load_rows (channel user_id : string) (tid : Uuid) (d : option D) : option string + list ConversationMessage :=
  let refused := if requires_preexisting_uuid_thread channel then Some FORGED_THREAD_ID_ERROR else None in
  match d with
  | None => inr []
  | Some d =>
      match conversation_belongs_to_user tid user_id d with
      | Err _ => inl refused
      | Ok true => inr (match list_conversation_messages tid d with Ok rows => rows | Err _ => [] end)
      | Ok false =>
          match get_conversation_metadata tid d with
          | Err _ => inl refused
          | Ok _ => inl refused
          end
      end
  end.

(** The thread enters the session. *)
Definition insert_thread (now : Z) (r : Ref) (tid : Uuid) (th : Thread) (m : Manager) : Manager :=
  match heap m !! r with
  | Some s => with_heap (<[r := session_with s (Some tid) (<[tid := th]> (threads s)) now]> (heap m)) m
  | None => m
  end.

(** [maybe_hydrate_thread], its blocks in order.  [clk 0] is read when a session is created, [clk 1] and [clk 2] by the
    thread, [clk 3] at the end. *)
Definition maybe_hydrate_thread (clk : Clock) (sid : Uuid) (user_id channel external : string) (d : option D) (m : Manager)
    : option string * Manager :=
  match parse_str external with
  | None => (None, m)
  | Some tid =>
      let '(r, m) := create_session uuid_to_string (clk 0) sid user_id m in
      if has_thread m r tid then (None, m) else
      match load_rows channel user_id tid d with
      | inl refusal => (refusal, m)
      | inr rows =>
          let ms := rebuild_chat_messages_from_db rows in
          let sess := match heap m !! r with Some s => sess_id s | None => sid end in
          let th := with_id (clk 1) tid sess in
          let th := match ms with [] => th | _ => restore_from_messages (fun i => clk (2 + i)) ms th end in
          let m := insert_thread (clk 3) r tid th m in
          (None, (run_task parse_str uuid_to_string 3 (fun _ => clk) (fun _ => sid) (fun _ => tid) (fun _ _ => false)
                    (register_thread uuid_to_string user_id channel tid r) m).2)
      end
  end.

End history.

(** ** Reading back *)

Section rebuilding.
Context `{HistoryEnv}.

Lemma rebuild_calls_ids calls m :
  m ∈ rebuild_calls calls → role m = Tool → ∃ id, tool_call_id m = Some id ∧ id ∈ rebuild_calls calls ≫= msg_call_ids.
Proof.
  unfold rebuild_calls. destruct calls as [|c calls]; [by intros ?%not_elem_of_nil|].
  case_bool_decide; [|by intros ?%not_elem_of_nil]. set (cs := c :: calls).
  intros [->|(x & -> & Hx)%list_elem_of_fmap]%elem_of_cons Hrole; [done|].
  eexists. split; [reflexivity|]. apply list_elem_of_bind. eexists. split; [|apply list_elem_of_here].
  change (str_field "call_id" "call_0" x ∈ tc_id <$> (rebuilt_call <$> cs)).
  apply list_elem_of_fmap. exists (rebuilt_call x). split; [done|]. apply list_elem_of_fmap. by exists x.
Qed.

Lemma rebuilt_well_referenced rows :
  Forall (well_referenced (known_ids (rebuild_chat_messages_from_db rows))) (rebuild_chat_messages_from_db rows).
Proof.
  apply Forall_forall. intros m Hm Hrole. unfold rebuild_chat_messages_from_db in *.
  pose proof Hm as Hm'. apply list_elem_of_bind in Hm' as (row & Hrow & Hin).
  assert (∃ id, tool_call_id m = Some id ∧ id ∈ rebuild_row row ≫= msg_call_ids) as (id & Hid & Hin').
  { unfold rebuild_row in *. repeat case_match; [apply list_elem_of_singleton in Hrow; by subst|apply list_elem_of_singleton in Hrow; by subst| |by apply not_elem_of_nil in Hrow].
    by apply rebuild_calls_ids. }
  exists id. split; [done|]. unfold known_ids. apply elem_of_list_to_set.
  apply list_elem_of_bind in Hin' as (m' & Hm'' & Hb). apply list_elem_of_bind. exists m'. split; [done|].
  apply list_elem_of_bind. by exists row.
Qed.
End rebuilding.

(** Whatever the rows of a conversation hold, written by this version or an older one or damaged, the messages rebuilt
    from them follow the tool protocol: every result answers a call, so sanitizing has nothing to rewrite. *)
Theorem rebuilt_messages_referenced `{HistoryEnv} rows :
  sanitize_tool_messages (rebuild_chat_messages_from_db rows) = rebuild_chat_messages_from_db rows.
Proof. apply sanitize_id, rebuilt_well_referenced. Qed.

(** ** The round trip through the database *)

(** A value as serde's maps can hold it: no object has a key twice. *)
Inductive distinct_keys : Json → Prop :=
| dk_null : distinct_keys JNull
| dk_bool b : distinct_keys (JBool b)
| dk_number r : distinct_keys (JNumber r)
| dk_string t : distinct_keys (JString t)
| dk_array l : Forall distinct_keys l → distinct_keys (JArray l)
| dk_object l : NoDup l.*1 → Forall (fun kv => distinct_keys kv.2) l → distinct_keys (JObject l).

(** The same value, up to the order of the members of its objects. *)
Inductive same_value : Json → Json → Prop :=
| sv_refl v : same_value v v
| sv_array l l' : Forall2 same_value l l' → same_value (JArray l) (JArray l')
| sv_object l k l' : l ≡ₚ k → Forall2 (fun a b => a.1 = b.1 ∧ same_value a.2 b.2) k l' → same_value (JObject l) (JObject l').

(** serde prints every such value, and parses what it printed as the same value. *)
Class HistoryLaws `{HistoryEnv} : Prop := {
  serialized v : distinct_keys v → ∃ s v', serialize v = Ok s ∧ json_from_str s = Some v' ∧ same_value v v'
}.

Lemma json_get_iff key l v : NoDup l.*1 → json_get key (JObject l) = Some v ↔ (key, v) ∈ l.
Proof.
  induction l as [|[k x] l IH]; intros Hnd; [split; [done|by intros ?%not_elem_of_nil]|].
  cbn [fmap list_fmap fst] in Hnd. apply NoDup_cons in Hnd as [Hni Hnd]. specialize (IH Hnd). cbn in *. case_decide as Hk.
  - cbn. subst k. split; [intros [= <-]; by apply elem_of_cons; left|]. intros [[= ->]|Hin]%elem_of_cons; [done|]. exfalso. apply Hni.
    apply list_elem_of_fmap. by exists (key, v).
  - destruct (list_find _ l) as [[i kv]|]; cbn in *; rewrite IH, elem_of_cons; naive_solver.
Qed.

Lemma same_object l v : same_value (JObject l) v → ∃ l', v = JObject l' ∧ ∃ k, l ≡ₚ k ∧ Forall2 (fun a b => a.1 = b.1 ∧ same_value a.2 b.2) k l'.
Proof.
  inversion 1; subst; [|by eauto 10]. exists l. split; [done|]. exists l. split; [done|]. apply Forall_Forall2_diag, Forall_true.
  intros a. split; [done|constructor].
Qed.

(** The members of an object are found again. *)
Lemma same_get key c c' : distinct_keys c → same_value c c' → option_Forall2 same_value (json_get key c) (json_get key c').
Proof.
  destruct c as [| | | | |l]; try by (intros _ Hs; inversion Hs; subst; constructor).
  intros Hd (l' & -> & k & Hp & Hf)%same_object. inversion Hd as [| | | | |? Hnd _]; subst.
  assert (k.*1 = l'.*1) as Hkeys by (clear -Hf; induction Hf as [|a b k l' [Hab _] _ IH]; [done|]; cbn; by rewrite Hab, IH).
  assert (NoDup k.*1) as Hk by by rewrite <-Hp. assert (NoDup l'.*1) as Hl' by by rewrite <-Hkeys.
  assert (json_get key (JObject l) = json_get key (JObject k)) as ->.
  { apply option_eq. intros v. rewrite !json_get_iff by done. by rewrite Hp. }
  clear -Hf. unfold json_get. induction Hf as [|[a x] [b y] k l' [Hab Hv] _ IH]; [constructor|]. cbn in *. subst b.
  case_decide; [by constructor|]. destruct (list_find _ k) as [[? ?]|], (list_find _ l') as [[? ?]|]; cbn in *; inversion IH; by constructor.
Qed.

Lemma same_str v v' : same_value v v' → as_str v = as_str v'.
Proof. by inversion 1. Qed.

Lemma same_get_str key c c' : distinct_keys c → same_value c c' → (json_get key c' ≫= as_str) = (json_get key c ≫= as_str).
Proof. intros Hd Hs. destruct (same_get key c c' Hd Hs) as [v v' Hv|]; [|done]. cbn. by rewrite (same_str v v'). Qed.

(** A store that accepts the conversation: rows are appended, and nothing else changes in it. *)
Class Writable `{Database D} (tid : Uuid) (channel user_id : string) : Prop := {
  ensure_kept d : ∃ d', ensure_conversation tid channel user_id d = (Ok true, d') ∧
    list_conversation_messages tid d' = list_conversation_messages tid d;
  add_appended role content d rows : list_conversation_messages tid d = Ok rows →
    ∃ d', add_conversation_message tid role content d = (Ok tt, d') ∧
      list_conversation_messages tid d' = Ok (rows ++ [mkRow role content])
}.

Section roundtrip.
Context `{HistoryLaws} `{Database D}.
Context (tid : Uuid) (channel user_id : string) `{!Writable (D := D) tid channel user_id}.

(** What [process_user_input] stores of a turn: the calls and the answer only when there is an answer. *)
Definition persist_turn (t : Turn) (d : option D) : option D :=
  let d := persist_user_message tid channel user_id (user_input t) d in
  match response t with
  | None => d
  | Some r =>
      persist_assistant_response tid channel user_id r
        (persist_tool_calls tid channel user_id (turn_number t) (turn_tool_calls t) (narrative t) d)
  end.

(** What comes back: the calls under new identifiers, without their parameters, and with errors, results and reasons cut. *)
Definition hydrated_content (tc : TurnToolCall) : string :=
  match ttc_error tc with
  | Some e => truncate_preview e 200
  | None => match ttc_result tc with
            | Some r => truncate_preview (value_text json_to_string r) 1000
            | None => "OK"
            end
  end.

Definition hydrated_call (n i : nat) (tc : TurnToolCall) : ToolCall :=
  mkToolCall (call_label n i) (ttc_name tc) (JObject []) ((fun e => truncate_preview e 500) <$> ttc_rationale tc).

Definition hydrated_turn (t : Turn) : list ChatMessage :=
  user (user_input t) ::
  match response t with
  | None => []
  | Some r =>
      match turn_tool_calls t with
      | [] => []
      | calls => assistant_with_tool_calls None (imap (hydrated_call (turn_number t)) calls) ::
                 imap (fun i tc => tool_result (call_label (turn_number t) i) (ttc_name tc) (hydrated_content tc)) calls
      end ++ [assistant r]
  end.

Lemma persist_row_appends role content d rows :
  list_conversation_messages tid d = Ok rows →
  ∃ d', persist_row tid channel user_id role content (Some d) = Some d' ∧
    list_conversation_messages tid d' = Ok (rows ++ [mkRow role content]).
Proof.
  intros Hr. unfold persist_row, ensure_writable_conversation.
  destruct (ensure_kept (tid := tid) (channel := channel) (user_id := user_id) d) as (d1 & -> & Hd1). rewrite <-Hd1 in Hr.
  destruct (add_appended (channel := channel) (user_id := user_id) role content d1 rows Hr) as (d2 & -> & Hd2).
  by exists d2.
Qed.

Lemma summary_fields n i tc :
  rebuilt_call (call_summary n i tc) = hydrated_call n i tc ∧
  rebuilt_result (call_summary n i tc) = tool_result (call_label n i) (ttc_name tc) (hydrated_content tc).
Proof.
  unfold call_summary, rebuilt_call, rebuilt_result, hydrated_call, hydrated_content, str_field.
  destruct tc as [nm ps [res|] [err|] [rat|] [cid|]]; split; reflexivity.
Qed.

(** Rebuilding looks at the texts of a call and, for the parameters, at a member that is never written. *)
Lemma rebuilt_same c c' : distinct_keys c → same_value c c' → json_get "parameters" c = None →
  rebuilt_call c' = rebuilt_call c ∧ rebuilt_result c' = rebuilt_result c.
Proof.
  intros Hd Hs Hp. unfold rebuilt_call, rebuilt_result, str_field. rewrite !(same_get_str _ c c' Hd Hs). split; [|done].
  pose proof (same_get "parameters" c c' Hd Hs) as Hg. rewrite Hp in Hg |- *. by destruct (json_get "parameters" c'); [inversion Hg|].
Qed.

Lemma opt_field_keys key v : sublist (opt_field key v).*1 [key] ∧ Forall (fun kv => distinct_keys kv.2) (opt_field key v).
Proof. destruct v; cbn; (split; [repeat constructor|repeat constructor]). Qed.

Lemma summary_distinct n i tc : distinct_keys (call_summary n i tc) ∧ json_get "parameters" (call_summary n i tc) = None.
Proof.
  split; [|by destruct tc as [nm ps [res|] [err|] [rat|] [cid|]]]. unfold call_summary. constructor.
  - apply (sublist_NoDup _ (["name"; "call_id"] ++ ["result_preview"] ++ ["result"] ++ ["error"] ++ ["rationale"] ++ ["tool_call_id"]));
      [apply (bool_decide_unpack _); vm_compute; exact I|].
    rewrite !fmap_app. repeat (apply sublist_app; [first [apply opt_field_keys|done]|]). apply opt_field_keys.
  - repeat (apply Forall_app; split); try apply opt_field_keys. repeat constructor.
Qed.

Lemma wrapper_distinct n calls narr : distinct_keys (calls_wrapper n calls narr).
Proof.
  unfold calls_wrapper. constructor.
  - apply (sublist_NoDup _ (["narrative"] ++ ["calls"])); [apply (bool_decide_unpack _); vm_compute; exact I|].
    rewrite fmap_app. apply sublist_app; [apply opt_field_keys|done].
  - apply Forall_app. split; [apply opt_field_keys|]. apply Forall_singleton. constructor.
    apply Forall_forall. intros c (i & tc & -> & _)%elem_of_lookup_imap. apply summary_distinct.
Qed.

Lemma rebuild_calls_same cs cs' :
  Forall (fun c => distinct_keys c ∧ json_get "parameters" c = None) cs → Forall2 same_value cs cs' → rebuild_calls cs' = rebuild_calls cs.
Proof.
  intros Hd Hs. assert (rebuilt_call <$> cs' = rebuilt_call <$> cs ∧ rebuilt_result <$> cs' = rebuilt_result <$> cs) as [Hc Hr].
  { induction Hs as [|c c' cs cs' Hcc _ IH]; [done|]. apply Forall_cons in Hd as [[Hdc Hpc] Hd].
    destruct (IH Hd) as [IHc IHr], (rebuilt_same c c' Hdc Hcc Hpc) as [Hc1 Hr1]. cbn. by rewrite Hc1, Hr1, IHc, IHr. }
  unfold rebuild_calls. destruct Hs as [|c c' cs cs' Hcc _]; [done|]. apply Forall_cons in Hd as [[Hdc _] _].
  rewrite (same_get_str "call_id" c c' Hdc Hcc), Hc, Hr. done.
Qed.

Lemma rebuild_row_calls n calls narr s v :
  calls ≠ [] → json_from_str s = Some v → same_value (calls_wrapper n calls narr) v →
  rebuild_row (mkRow "tool_calls" s) =
    assistant_with_tool_calls None (imap (hydrated_call n) calls) ::
    imap (fun i tc => tool_result (call_label n i) (ttc_name tc) (hydrated_content tc)) calls.
Proof.
  intros Hne Hs Hv. unfold rebuild_row. cbn [row_role row_content String.eqb Ascii.eqb Bool.eqb].
  assert (Forall2 same_value (imap (call_summary n) calls) (row_calls s)) as Hcs.
  { pose proof (same_get "calls" _ v (wrapper_distinct n calls narr) Hv) as Hg. unfold row_calls. rewrite Hs.
    assert (json_get "calls" (calls_wrapper n calls narr) = Some (JArray (imap (call_summary n) calls))) as Hw by by destruct narr.
    rewrite Hw in Hg. inversion Hg as [? w Hsw Hx Hget|]; subst. apply same_object in Hv as (l' & -> & _). rewrite <-Hget.
    inversion Hsw; subst; [|done]. apply Forall_Forall2_diag, Forall_true. constructor. }
  assert (Forall (fun c => distinct_keys c ∧ json_get "parameters" c = None) (imap (call_summary n) calls)) as Hd.
  { apply Forall_forall. intros c (i & tc & -> & _)%elem_of_lookup_imap. apply summary_distinct. }
  rewrite (rebuild_calls_same _ _ Hd Hcs).
  assert (rebuild_calls (imap (call_summary n) calls) =
    assistant_with_tool_calls None (rebuilt_call <$> imap (call_summary n) calls) :: (rebuilt_result <$> imap (call_summary n) calls)) as ->.
  { unfold rebuild_calls. destruct calls as [|tc calls]; [done|]. by destruct tc as [nm ps [res|] [err|] [rat|] [cid|]]. }
  rewrite !fmap_imap. f_equal; [f_equal|]; apply imap_ext; intros i tc _; apply summary_fields.
Qed.

Lemma persist_turn_rows t d rows :
  list_conversation_messages tid d = Ok rows →
  ∃ d' added, persist_turn t (Some d) = Some d' ∧ list_conversation_messages tid d' = Ok (rows ++ added) ∧
    rebuild_chat_messages_from_db added = hydrated_turn t.
Proof.
  intros Hr. unfold persist_turn, persist_user_message, hydrated_turn.
  destruct (persist_row_appends "user" (user_input t) d rows Hr) as (d1 & -> & Hd1).
  destruct (response t) as [r|]; [|by exists d1, [mkRow "user" (user_input t)]].
  unfold persist_tool_calls, persist_assistant_response. destruct (turn_tool_calls t) as [|tc calls] eqn:Hc.
  - destruct (persist_row_appends "assistant" r d1 _ Hd1) as (d2 & -> & Hd2). rewrite <-app_assoc in Hd2.
    by exists d2, [mkRow "user" (user_input t); mkRow "assistant" r].
  - destruct (serialized _ (wrapper_distinct (turn_number t) (tc :: calls) (narrative t))) as (s & v & -> & Hs & Hv).
    destruct (persist_row_appends "tool_calls" s d1 _ Hd1) as (d2 & -> & Hd2).
    destruct (persist_row_appends "assistant" r d2 _ Hd2) as (d3 & -> & Hd3). rewrite <-!app_assoc in Hd3.
    eexists d3, _. split; [done|]. split; [exact Hd3|]. unfold rebuild_chat_messages_from_db.
    cbn [app mbind list_bind]. rewrite (rebuild_row_calls _ (tc :: calls) _ _ v ltac:(done) Hs Hv), app_nil_r. done.
Qed.

End roundtrip.


(** ** Who may load a conversation *)

Section loading.
Context `{HistoryEnv} `{Database D}.
Variable parse_str : string -> option Uuid.
Variable uuid_to_string : Uuid -> string.

Lemma insert_thread_other now r tid th m r' : r' ≠ r → heap (insert_thread now r tid th m) !! r' = heap m !! r'.
Proof. intros Hne. unfold insert_thread. destruct (heap m !! r); [|done]. cbn. by rewrite lookup_insert_ne. Qed.

Lemma run_register_heap clk sid tid locked key r u m :
  heap (run_task parse_str uuid_to_string 3 clk sid tid locked (TRegister key r u) m).2 = heap m.
Proof. cbn. by repeat case_match. Qed.

Lemma has_thread_heap m m' r tid : heap m' !! r = heap m !! r → has_thread m' r tid = has_thread m r tid.
Proof. intros Hh. unfold has_thread. by rewrite Hh. Qed.

Lemma insert_thread_has now r tid th m u :
  has_thread (insert_thread now r tid th m) r u = true → u = tid ∨ has_thread m r u = true.
Proof.
  unfold insert_thread, has_thread. destruct (heap m !! r) as [s|] eqn:Hr; [|by rewrite Hr]. cbn.
  rewrite lookup_insert_eq. cbn. rewrite !bool_decide_eq_true. destruct (decide (u = tid)) as [->|Hne]; [by left|].
  rewrite lookup_insert_ne by done. by right.
Qed.

End loading.

(** A message cannot bring somebody else's conversation into a session: a thread that appears in some session by loading
    is the one the message named, in the session of its sender, and the database confirmed that the
    conversation is the sender's (or there is no database).  On the channels whose identifiers the
    server hands out, a message that names any other conversation is refused. *)
Theorem hydration_guarded `{HistoryEnv} `{Database D} parse_str uuid_to_string clk sid user_id channel external d m r tid :
  let out := maybe_hydrate_thread (D := D) parse_str uuid_to_string clk sid user_id channel external d m in
  (has_thread m r tid = false → has_thread out.2 r tid = true →
     parse_str external = Some tid ∧
     r = (create_session uuid_to_string (clk 0%nat) sid user_id m).1 ∧
     match d with Some db => conversation_belongs_to_user tid user_id db = Ok true | None => True end) ∧
  (∀ db tid', d = Some db → parse_str external = Some tid' → requires_preexisting_uuid_thread channel = true →
     conversation_belongs_to_user tid' user_id db ≠ Ok true →
     (let '(r', m') := create_session uuid_to_string (clk 0%nat) sid user_id m in has_thread m' r' tid' = false) →
     out.1 = Some FORGED_THREAD_ID_ERROR).
Proof.
  intros out. unfold out, maybe_hydrate_thread. clear out. destruct (parse_str external) as [t|] eqn:Hp; [|split; [cbn; intros Hno Hyes; congruence|done]].
  destruct (create_session uuid_to_string (clk 0%nat) sid user_id m) as [r0 m0] eqn:Hc. cbn [fst].
  assert (∀ r u, has_thread m r u = false → has_thread m0 r u = true → False) as Hnew.
  { intros r1 u Hno Hyes. unfold create_session in Hc. destruct (sessions m !! user_id); injection Hc as <- <-; [congruence|].
    unfold has_thread in *. cbn in Hyes. destruct (decide (r1 = next_ref m)) as [->|Hne].
    - rewrite lookup_insert_eq in Hyes. cbn in Hyes. rewrite lookup_empty in Hyes. by apply bool_decide_eq_true in Hyes as [].
    - rewrite lookup_insert_ne in Hyes by done. congruence. }
  destruct (has_thread m0 r0 t) eqn:Hh; [split; [naive_solver|intros db tid' _ [= <-] _ _ Hn; congruence]|].
  unfold load_rows. split.
  - intros Hno Hyes. destruct d as [db|].
    + destruct (conversation_belongs_to_user t user_id db) as [[]|] eqn:Ho; [|destruct (get_conversation_metadata t db)|]; try by destruct (Hnew r tid Hno).
      cbn [snd] in Hyes. unfold register_thread in Hyes.
      destruct (decide (r = r0)) as [->|Hne].
      * erewrite has_thread_heap in Hyes by (by rewrite run_register_heap).
        apply insert_thread_has in Hyes as [->|Hyes]; [done|by destruct (Hnew r0 tid Hno)].
      * erewrite has_thread_heap in Hyes by (rewrite run_register_heap; by apply insert_thread_other). by destruct (Hnew r tid Hno).
    + cbn [snd] in Hyes. unfold register_thread in Hyes. destruct (decide (r = r0)) as [->|Hne].
      * erewrite has_thread_heap in Hyes by (by rewrite run_register_heap).
        apply insert_thread_has in Hyes as [->|Hyes]; [done|by destruct (Hnew r0 tid Hno)].
      * erewrite has_thread_heap in Hyes by (rewrite run_register_heap; by apply insert_thread_other). by destruct (Hnew r tid Hno).
  - intros db tid' -> [= <-] -> Ho _. destruct (conversation_belongs_to_user t user_id db) as [[]|]; [done| |done].
    by destruct (get_conversation_metadata t db).
Qed.

(** ** A concrete database *)

Definition MemDb : Type := gmap Uuid (string * list ConversationMessage).

#[export] Instance mem_database : Database MemDb := {|
  ensure_conversation tid channel user_id d :=
    match d !! tid with
    | Some (owner, _) => (Ok (owner =? user_id)%string, d)
    | None => (Ok true, <[tid := (user_id, [])]> d)
    end;
  add_conversation_message tid role content d :=
    match d !! tid with
    | Some (owner, rows) => (Ok tt, <[tid := (owner, rows ++ [mkRow role content])]> d)
    | None => (Ok tt, <[tid := ("", [mkRow role content])]> d)
    end;
  list_conversation_messages tid d := Ok (match d !! tid with Some (_, rows) => rows | None => [] end);
  conversation_belongs_to_user tid user_id d :=
    Ok (match d !! tid with Some (owner, _) => (owner =? user_id)%string | None => false end);
  get_conversation_metadata tid d := Ok None
|}.

#[export] Instance demo_history : HistoryEnv := {|
  json_to_string v := encode_text v;
  serialize v := Ok (encode_text v);
  json_from_str := decode_text
|}.

#[export] Instance demo_history_laws : HistoryLaws.
Proof. split. intros v _. exists (encode_text v), v. split; [done|]. split; [apply decode_encode_text|constructor]. Qed.

(** A database that holds this one conversation, as its owner sees it. *)
Definition OwnDb : Type := list ConversationMessage.

#[export] Instance own_database : Database OwnDb := {|
  ensure_conversation _ _ _ d := (Ok true, d);
  add_conversation_message _ role content d := (Ok tt, d ++ [mkRow role content]);
  list_conversation_messages _ d := Ok d;
  conversation_belongs_to_user _ _ _ := Ok true;
  get_conversation_metadata _ _ := Ok None
|}.

#[export] Instance own_writable tid channel user_id : Writable (D := OwnDb) tid channel user_id.
Proof.
  split; [intros d; by exists d|]. intros role content d rows [= <-]. by exists (d ++ [mkRow role content]).
Qed.

Definition demo_call : TurnToolCall :=
  mkTurnToolCall "http" (JObject [("url", JString "https://a.example")]) (Some (JString "200")) None (Some "to look") None.
Definition demo_stored_turn : Turn :=
  mkTurn 0 "hello" (Some "done") [demo_call] TurnState.Completed 0%Z None None None [].


(** A database with a conversation of each of two users. *)
Definition demo_db : MemDb := {[ 1%N := ("alice", []); 2%N := ("bob", []) ]}.
Definition demo_parse_id (s : string) : option Uuid :=
  if (s =? "one")%string then Some 1%N else if (s =? "two")%string then Some 2%N else None.

Lemma hydration_guarded_witness :
  has_thread (maybe_hydrate_thread demo_parse_id demo_show (frozen 0) 9%N "alice" "gateway" "one" (Some demo_db) (manager_empty false)).2 0 1%N = true ∧
  conversation_belongs_to_user 1%N "alice" demo_db = Ok true ∧
  (maybe_hydrate_thread demo_parse_id demo_show (frozen 0) 9%N "alice" "gateway" "two" (Some demo_db) (manager_empty false)).1
    = Some FORGED_THREAD_ID_ERROR.
Proof.
  split; [vm_compute; reflexivity|]. split.
  - apply (hydration_guarded demo_parse_id demo_show (frozen 0) 9%N "alice" "gateway" "one" (Some demo_db) (manager_empty false) 0 1%N);
      vm_compute; reflexivity.
  - apply (proj2 (hydration_guarded demo_parse_id demo_show (frozen 0) 9%N "alice" "gateway" "two" (Some demo_db) (manager_empty false) 0 1%N)
      demo_db 2%N); [reflexivity|reflexivity|reflexivity|vm_compute; discriminate|vm_compute; reflexivity].
Defined.
