(* ===== verification/Messages.v ===== *)
(** * Messages: what comes in from a channel

    The incoming message and its attachments ([src/channels/channel.rs]), the text the attachments add
    to a message ([src/agent/attachments.rs]), the router of explicit commands ([src/agent/router.rs]), and
    the previews and metadata of [src/agent/agent_loop.rs].  The base64 crate and Unicode
    lower-casing are parameters. *)

From Stdlib Require Import Ascii SpecFloat.
From stdpp Require Import pretty.
From S2P Require Import Prelude Text TextSearch F64 Provider ReplyText.

(** ** Data *)

Inductive AttachmentKind : Type := Audio | Image | Document.

Definition from_mime_type (mime : string) : AttachmentKind :=
  let base := trim (match str_find ";" mime with Some n => str_to n mime | None => mime end) in
  if starts_with "audio/" base then Audio
  else if starts_with "image/" base then Image
  else Document.

Record IncomingAttachment : Type := mkAttachment {
  att_id : string;
  att_kind : AttachmentKind;
  mime_type : string;
  filename : option string;
  size_bytes : option Z;
  source_url : option string;
  storage_key : option string;
  extracted_text : option string;
  att_data : string;
  duration_secs : option Z
}.

Record IncomingMessage : Type := mkIncoming {
  im_id : Uuid;
  im_channel : string;
  im_user_id : string;
  im_owner_id : string;
  im_sender_id : string;
  im_user_name : option string;
  im_content : string;
  im_thread_id : option string;
  im_scope_id : option string;
  im_received_at : Z;
  im_metadata : Json;
  im_timezone : option string;
  im_attachments : list IncomingAttachment;
  im_internal : bool
}.

(** [IncomingMessage { content, ..message.clone() }] *)
Definition with_content (c : string) (m : IncomingMessage) : IncomingMessage :=
  mkIncoming (im_id m) (im_channel m) (im_user_id m) (im_owner_id m) (im_sender_id m) (im_user_name m) c (im_thread_id m)
    (im_scope_id m) (im_received_at m) (im_metadata m) (im_timezone m) (im_attachments m) (im_internal m).

Definition text_or_number (v : Json) : option string :=
  match v with JString s => Some s | JNumber n => Some n | _ => None end.

Definition first_some {A} (a b : option A) : option A := match a with Some x => Some x | None => b end.

Definition routing_target_from_metadata (metadata : Json) : option string :=
  first_some (json_get "signal_target" metadata ≫= text_or_number)
    (first_some (json_get "chat_id" metadata ≫= text_or_number) (json_get "target" metadata ≫= text_or_number)).

Definition routing_target (m : IncomingMessage) : option string :=
  first_some (routing_target_from_metadata (im_metadata m))
    (if str_is_empty (im_sender_id m) then None else Some (im_sender_id m)).

Definition chat_tool_execution_metadata (m : IncomingMessage) : Json :=
  JObject [("notify_channel", JString (im_channel m));
           ("notify_user", JString (default (im_user_id m) (routing_target m)));
           ("notify_thread_id", match im_thread_id m with Some t => JString t | None => JNull end);
           ("notify_metadata", im_metadata m)].

(** ** Previews *)

Definition truncate_for_preview (output : string) (max_chars : nat) : string :=
  let collapsed := str_join " " (split_whitespace
    (string_map (fun c => if ascii_dec c nl then " "%char else c) (take_chars (max_chars + 50) output))) in
  if (max_chars <? count_chars collapsed)%nat then take_chars max_chars collapsed +:+ "..." else collapsed.

(** ** Attachments *)

Definition escape_xml_text (s : string) : string :=
  str_replace ">" "&gt;" (str_replace "<" "&lt;" (str_replace "&" "&amp;" s)).

Definition escape_xml_attr (s : string) : string :=
  str_replace ">" "&gt;" (str_replace "<" "&lt;" (str_replace dq_str "&quot;" (str_replace "&" "&amp;" s))).

Local Open Scope Z_scope.

(** [n/d] to the nearest integer, halves to the even one. *)
Definition round_half_even (n d : Z) : Z :=
  let q := n / d in
  match 2 * (n mod d) ?= d with
  | Lt => q
  | Gt => q + 1
  | Eq => if Z.even q then q else q + 1
  end.

(** [{:.1}] of a number that is not negative. *)
Definition fmt_tenths (x : f64) : string :=
  match x with
  | S754_finite _ m e =>
      let t := if 0 <=? e then 10 * Zpos m * 2 ^ e else round_half_even (10 * Zpos m) (2 ^ (- e)) in
      cat [pretty (t / 10); "."; pretty (t mod 10)]
  | S754_zero _ => "0.0"
  | S754_infinity _ => "inf"
  | S754_nan => "NaN"
  end.

Definition format_size (bytes : Z) : string :=
  if bytes <? 1024 then pretty bytes +:+ "B"
  else if bytes <? 1024 * 1024 then pretty (bytes / 1024) +:+ "KB"
  else fmt_tenths (f64_ratio bytes (1024 * 1024)) +:+ "MB".

Local Close Scope Z_scope.

Definition quoted (name value : string) : string := cat [" "; name; "="; dq_str; value; dq_str].

Definition size_attr (att : IncomingAttachment) : string :=
  match size_bytes att with Some s => quoted "size" (format_size s) | None => "" end.

Definition attachment_tag (index : nat) (kind : string) (attrs : list string) (body : string) : string :=
  cat ["<attachment"; quoted "index" (show_nat index); quoted "type" kind; cat attrs; ">"; nl_str; body; nl_str; "</attachment>"].

Definition format_attachment (index : nat) (att : IncomingAttachment) : string :=
  let fname := quoted "filename" (escape_xml_attr (default "unknown" (filename att))) in
  let mime := quoted "mime" (escape_xml_attr (mime_type att)) in
  match att_kind att with
  | Audio =>
      attachment_tag index "audio"
        [fname; match duration_secs att with Some d => quoted "duration" (pretty d +:+ "s") | None => "" end]
        (match extracted_text att with
         | Some text => "Transcript: " +:+ escape_xml_text text
         | None => "Audio transcript unavailable."
         end)
  | Image =>
      attachment_tag index "image" [fname; mime; size_attr att]
        (if str_is_empty (att_data att) then "[Image attached — visual content not available in this conversation]"
         else "[Image attached — sent as visual content]")
  | Document =>
      attachment_tag index "document" [fname; mime; size_attr att]
        (match extracted_text att with
         | Some text => escape_xml_text text
         | None => "[Document attached — text extraction unavailable]"
         end)
  end.

Record AugmentResult : Type := mkAugment { aug_text : string; image_parts : list ContentPart }.

Section attachments.
(** [base64::engine::general_purpose::STANDARD.encode] *)
Variable b64_encode : string -> string.

Definition image_part (att : IncomingAttachment) : list ContentPart :=
  match att_kind att with
  | Image =>
      if str_is_empty (att_data att) then []
      else [ImagePart (mkImageUrl (cat ["data:"; mime_type att; ";base64,"; b64_encode (att_data att)]) None)]
  | _ => []
  end.

Definition augment_with_attachments (content : string) (attachments : list IncomingAttachment) : option AugmentResult :=
  match attachments with
  | [] => None
  | _ =>
      Some (mkAugment
        (cat [content; nl_str; nl_str; "<attachments>";
              cat (imap (fun i att => nl_str +:+ format_attachment (i + 1) att) attachments);
              nl_str; "</attachments>"])
        (attachments ≫= image_part))
  end.
End attachments.

(** ** Explicit commands *)

Inductive MessageIntent : Type :=
| CreateJob (title description : string) (category : option string)
| CheckJobStatus (job_id : option string)
| CancelJob (job_id : string)
| ListJobs (filter_by : option string)
| HelpJob (job_id : string)
| Chat (content : string)
| Command (command : string) (args : list string)
| Unknown.

Section router.
Variable to_lowercase : string -> string.

Definition is_command (prefix : string) (m : IncomingMessage) : bool := starts_with prefix (trim (im_content m)).

Definition parse_command (prefix content : string) : MessageIntent :=
  match split_whitespace (default content (strip_prefix prefix content)) with
  | [] => Unknown
  | first :: rest =>
      let cmd := to_lowercase first in
      if bool_decide (cmd ∈ ["job"; "create"]) then CreateJob (str_join " " rest) (str_join " " rest) None
      else if (cmd =? "status")%string then CheckJobStatus (head rest)
      else if (cmd =? "cancel")%string then match rest with job :: _ => CancelJob job | [] => Unknown end
      else if bool_decide (cmd ∈ ["list"; "jobs"]) then ListJobs (head rest)
      else if (cmd =? "help")%string then match rest with job :: _ => HelpJob job | [] => Command "help" [] end
      else Command cmd rest
  end.

Definition route_command (prefix : string) (m : IncomingMessage) : option MessageIntent :=
  let content := trim (im_content m) in
  if starts_with prefix content then Some (parse_command prefix content) else None.
End router.

(** ** What an attachment can say *)

(** The escapes undone, as a reader of the text does. *)
Fixpoint unescape_go (skip : nat) (s : string) : string :=
  match s with
  | EmptyString => ""
  | String c r =>
      match skip with
      | S k => unescape_go k r
      | O =>
          if starts_with "&amp;" s then String "&" (unescape_go 4 r)
          else if starts_with "&lt;" s then String "<" (unescape_go 3 r)
          else if starts_with "&gt;" s then String ">" (unescape_go 3 r)
          else String c (unescape_go 0 r)
      end
  end.

Definition unescape_xml_text (s : string) : string := unescape_go 0 s.

(** The escaping character by character. *)
Definition escape_char (c : ascii) : string :=
  if ascii_dec c "&" then "&amp;" else if ascii_dec c "<" then "&lt;" else if ascii_dec c ">" then "&gt;" else String c "".

Fixpoint escape_chars (s : string) : string :=
  match s with EmptyString => "" | String c r => escape_char c +:+ escape_chars r end.

(** [replace] of a single character. *)
Lemma replace_char_cons c q x s :
  str_replace (String c "") q (String x s) = (if ascii_dec c x then q else String x "") +:+ str_replace (String c "") q s.
Proof.
  unfold str_replace. cbn [replace_go]. unfold starts_with. cbn [String.prefix].
  destruct (ascii_dec c x); [by destruct s|done].
Qed.

Lemma replace_char_app c q a b :
  str_replace (String c "") q (a +:+ b) = str_replace (String c "") q a +:+ str_replace (String c "") q b.
Proof. induction a as [|x a IH]; [done|]. by rewrite append_cons, !replace_char_cons, IH, append_assoc. Qed.

Lemma escape_xml_text_chars s : escape_xml_text s = escape_chars s.
Proof.
  unfold escape_xml_text. induction s as [|c s IH]; [done|]. cbn [escape_chars]. rewrite <-IH, replace_char_cons, !replace_char_app.
  f_equal. by destruct c as [[] [] [] [] [] [] [] []].
Qed.

Lemma unescape_char c s : unescape_go 0 (escape_char c +:+ s) = String c (unescape_go 0 s).
Proof.
  unfold escape_char. destruct (ascii_dec c "&") as [->|Ha]; [by destruct s|].
  destruct (ascii_dec c "<") as [->|Hl]; [by destruct s|]. destruct (ascii_dec c ">") as [->|Hg]; [by destruct s|].
  change (String c "" +:+ s) with (String c s). cbn [unescape_go]. unfold starts_with. cbn [String.prefix].
  destruct (ascii_dec "&" c); [congruence|done].
Qed.

Lemma escaped_no_bracket c s : c = "<"%char ∨ c = ">"%char → contains (String c "") (escape_chars s) = false.
Proof.
  intros Hc. induction s as [|x s IH]; [by destruct Hc as [->| ->]|]. cbn [escape_chars].
  assert (∀ y, contains (String c "") (escape_char x +:+ y) = contains (String c "") y) as Hx; [|by rewrite Hx].
  intros y. unfold escape_char. destruct Hc as [->| ->];
    (destruct (ascii_dec x "&"); [reflexivity|]; destruct (ascii_dec x "<") as [|]; [reflexivity|];
     destruct (ascii_dec x ">"); [reflexivity|]; change (String x "" +:+ y) with (String x y); cbn [contains]; unfold starts_with; cbn [String.prefix];
     match goal with |- context [ascii_dec ?a x] => destruct (ascii_dec a x) end; [congruence|done]).
Qed.

(** The text of an attachment cannot pretend to be anything else: in the message it holds no angle bracket, so it can
    neither close its element nor open another, and undoing the escapes gives back exactly the
    text that was extracted. *)
Theorem attachment_text_confined s :
  contains "<" (escape_xml_text s) = false ∧ contains ">" (escape_xml_text s) = false ∧
  unescape_xml_text (escape_xml_text s) = s.
Proof.
  rewrite escape_xml_text_chars. split; [by apply escaped_no_bracket; left|]. split; [by apply escaped_no_bracket; right|].
  unfold unescape_xml_text. induction s as [|c s IH]; [done|]. cbn [escape_chars]. by rewrite unescape_char, IH.
Qed.

(** The sizes the model is told. *)
Lemma format_size_examples :
  format_size 1023 = "1023B" ∧ format_size 1536 = "1KB" ∧ format_size 1572864 = "1.5MB" ∧ format_size 13002342 = "12.4MB".
Proof. repeat split; vm_compute; reflexivity. Qed.
