(* ===== verification/Dispatcher.v ===== *)
(** * Dispatcher: the chat delegate of the agentic loop

    [ChatDelegate] and [run_agentic_loop] of [src/agent/dispatcher.rs]: the signals, the limits before a model call,
    the guarded call with its retry, the answer, and a round of tool calls in its three phases (preflight with hooks
    and approval, parallel execution, results in order).

    The state a delegate shares with other tasks is [Shared]; they act on it between the steps, as an arbitrary
    function [ce_others].  A task of the parallel phase that panics or is cancelled is one of
    [ce_join].  The thread of tokio, serde, the clocks and the printers of durations are fields of [ChatEnv]. *)

From Stdlib Require Import Ascii SpecFloat.
From stdpp Require Import pretty.
From S2P Require Import Prelude Text TextSearch F64 Costs CostGuard JobState Hooks Skills Provider Session.
From S2P Require Import ReplyText Prompts Reasoning AgenticLoop LeakDetector Sanitizer Validator SafetyLayer.
From S2P Require Import ToolParams Redaction ToolExec Messages ChatText.

(** ** Errors *)

(** The variants of the crate's error that these functions build. *)
Inductive Error : Type :=
| ELlm (e : LlmError)
| ETool (e : ToolError)
| EJob (e : JobError).

Local Open Scope Z_scope.

(** [{:.2}] of a number that is not negative. *)
Definition fmt_hundredths (x : f64) : string :=
  match x with
  | S754_finite _ m e =>
      let t := if 0 <=? e then 100 * Zpos m * 2 ^ e else round_half_even (100 * Zpos m) (2 ^ (- e)) in
      cat [pretty (t / 100); "."; pretty (t mod 100 / 10); pretty (t mod 10)]
  | S754_zero _ => "0.00"
  | S754_infinity _ => "inf"
  | S754_nan => "NaN"
  end.

Definition dollars (cents : Z) : string := "$" +:+ fmt_hundredths (f64_ratio cents 100).

Definition limit_text (l : CostLimitExceeded) : string :=
  match l with
  | DailyBudget spent_cents limit_cents =>
      cat ["Daily cost limit exceeded: spent "; dollars spent_cents; " of "; dollars limit_cents; " allowed"]
  | HourlyRate actions limit =>
      cat ["Hourly action limit exceeded: "; pretty actions; " actions of "; pretty limit; " allowed per hour"]
  | UserDailyBudget user_id spent_cents limit_cents =>
      cat ["User '"; user_id; "' daily cost limit exceeded: spent "; dollars spent_cents; " of "; dollars limit_cents;
           " allowed"]
  end.

Local Close Scope Z_scope.

(** ** The environment *)

(** What a tool can see: the job context and the stash its pointer leads to. *)
Abbreviation ToolCtx J := (J * gmap string string)%type.

(** The state shared with other tasks. *)
Record Shared `{Decimal} (J : Type) : Type := mkShared {
  sh_session : Session;
  sh_tools : ToolRegistry (ToolCtx J);
  sh_hooks : HookRegistry;
  sh_guard : CostGuard
}.
Arguments mkShared {_ J}.
Arguments sh_session {_ J}.
Arguments sh_tools {_ J}.
Arguments sh_hooks {_ J}.
Arguments sh_guard {_ J}.

Class ChatEnv `{Decimal} (J : Type) := {
  ce_lower : string -> string;
  ce_origin : Z;
  ce_from_str : string -> Result string Json;
  ce_to_string : Json -> string;
  ce_pretty : Json -> Result string string;
  ce_print_f64 : f64 -> string;
  ce_duration : Z -> string;
  ce_hook_elapsed : Hook -> HookEvent -> bool;
  ce_hook_error : HookError -> string;
  (** the order of iteration of the tool table *)
  ce_values : gmap string (ToolExec.Tool (ToolCtx J)) -> list (ToolExec.Tool (ToolCtx J));
  (** the UTC date at a reading of the clock, and fresh identifiers *)
  ce_date : nat -> Z;
  ce_uuid : nat -> Uuid;
  (** the other tasks *)
  ce_others : nat -> Shared J -> Shared J;
  (** the order in which spawned calls are joined, and which of them did not return *)
  ce_join : nat -> list (nat * ToolCall) -> list (nat * ToolCall * bool)
}.

Definition parse_value `{ChatEnv J} (s : string) : option Json :=
  match ce_from_str s with Ok v => Some v | Err _ => None end.

(** The [Display] of the errors that a tool call can end with. *)
Definition tool_error_text `{ChatEnv J} (e : ToolError) : string :=
  match e with
  | NotFound nm => cat ["Tool "; nm; " not found"]
  | ExecutionFailed nm reason => cat ["Tool "; nm; " execution failed: "; reason]
  | Timeout nm timeout => cat ["Tool "; nm; " timed out after "; ce_duration timeout]
  | InvalidParameters nm reason => cat ["Invalid parameters for tool "; nm; ": "; reason]
  | Disabled nm reason => cat ["Tool "; nm; " is disabled: "; reason]
  | Sandbox nm reason => cat ["Sandbox error for tool "; nm; ": "; reason]
  | AuthRequired nm => cat ["Tool "; nm; " requires authentication"]
  | AutonomousUnavailable nm reason => cat ["Tool "; nm; " is not available for autonomous execution: "; reason]
  | RateLimited nm retry_after =>
      cat ["Tool "; nm; " is rate limited, retry after ";
           match retry_after with Some d => cat ["Some("; ce_duration d; ")"] | None => "None" end]
  | BuilderFailed reason => cat ["Tool builder failed: "; reason]
  end.

Definition displayed `{ChatEnv J} (r : Result ToolError string) : Result string string :=
  match r with Ok s => Ok s | Err e => Err ("Tool error: " +:+ tool_error_text e) end.

(** ** The delegate *)

Record LlmCallRecord `{Decimal} : Type := mkCallRecord {
  lr_conversation_id : Uuid;
  lr_provider : string;
  lr_model : string;
  lr_input_tokens : Z;
  lr_output_tokens : Z;
  lr_cost : dec
}.

Record ChatDelegate (J : Type) : Type := mkChat {
  cd_safety : SafetyLayer;
  cd_auto_approve_tools : bool;
  cd_llm_backend : string;
  cd_tenant : TenantCtx;
  (** [None] without a store, else what [get_setting("selected_model")] gives *)
  cd_selected_model : option (Result string (option Json));
  cd_thread_id : Uuid;
  cd_message : IncomingMessage;
  cd_job_ctx : J;
  cd_active_skills : list LoadedSkill;
  cd_cached_prompt : string;
  cd_cached_prompt_no_tools : string;
  cd_nudge_at : nat;
  cd_force_text_at : nat;
  cd_user_tz : string
}.
Arguments mkChat {J}.
Arguments cd_safety {J}.
Arguments cd_auto_approve_tools {J}.
Arguments cd_llm_backend {J}.
Arguments cd_tenant {J}.
Arguments cd_selected_model {J}.
Arguments cd_thread_id {J}.
Arguments cd_message {J}.
Arguments cd_job_ctx {J}.
Arguments cd_active_skills {J}.
Arguments cd_cached_prompt {J}.
Arguments cd_cached_prompt_no_tools {J}.
Arguments cd_nudge_at {J}.
Arguments cd_force_text_at {J}.
Arguments cd_user_tz {J}.

(** [cs_executed] lists the calls handed to a tool, the latest last. *)
Record ChatState `{Decimal} (J P : Type) : Type := mkChatState {
  cs_shared : Shared J;
  cs_reasoning : Reasoning P;
  cs_world : World;
  cs_stash : gmap string string;
  cs_status : list StatusUpdate;
  cs_records : list LlmCallRecord;
  cs_executed : list ToolCall;
  cs_tick : nat
}.
Arguments mkChatState {_ J P}.
Arguments cs_shared {_ J P}.
Arguments cs_reasoning {_ J P}.
Arguments cs_world {_ J P}.
Arguments cs_stash {_ J P}.
Arguments cs_status {_ J P}.
Arguments cs_records {_ J P}.
Arguments cs_executed {_ J P}.
Arguments cs_tick {_ J P}.

Inductive PreflightOutcome : Type := Refused (error_msg : string) | Runnable.

(** What the preflight decides about one call. *)
Inductive Decision (C : Type) : Type :=
| Refuse (tc : ToolCall) (error_msg : string)
| Run (tc : ToolCall)
| Ask (tc : ToolCall) (tool : ToolExec.Tool C) (allow_always : bool).
Arguments Refuse {C}.
Arguments Run {C}.
Arguments Ask {C}.

Definition with_arguments (args : Json) (tc : ToolCall) : ToolCall :=
  mkToolCall (tc_id tc) (tc_name tc) args (tc_reasoning tc).

(** The values the hooks did not see, put back into what they returned. *)
Definition restore_sensitive (sensitive : list string) (orig parsed : Json) : Json :=
  match parsed with
  | JObject obj =>
      JObject (foldl (fun obj key =>
        match json_get key orig with Some v => map_insert key v obj | None => obj end) obj sensitive)
  | _ => parsed
  end.

Definition NUDGE_MESSAGE : string :=
  "You are approaching the tool call limit. Provide your best final answer on the next response using the information you have gathered so far. Do not call any more tools.".

(** [sess.threads.get_mut(&tid)] *)
Definition on_thread (tid : Uuid) (f : Thread -> Thread) (s : Session) : Session :=
  session_with s (active_thread_id s) (alter f tid (threads s)) (last_active_at s).

(** [thread.last_turn_mut()] *)
Definition on_last_turn (tid : Uuid) (f : Session.Turn -> Session.Turn) (s : Session) : Session :=
  on_thread tid (fun th => thread_with th (thread_state th) (update_last f (turns th)) (updated_at th)
                             (pending_approval th) (pending_auth th) (pending_messages th)) s.

Definition set_narrative (n : option string) (t : Session.Turn) : Session.Turn :=
  match narrative t with
  | Some _ => t
  | None => Session.mkTurn (turn_number t) (user_input t) (response t) (turn_tool_calls t) (turn_state t)
              (turn_started_at t) (turn_completed_at t) (turn_error t) n (image_content_parts t)
  end.

Definition set_override (m : string) (c : ReasoningContext) : ReasoningContext :=
  mkContext (rc_messages c) (available_tools c) (job_description c) (current_state c) (rc_metadata c) (force_text c)
    (rc_system_prompt c) (Some m).

Definition set_prompt (p : string) (force : bool) (c : ReasoningContext) : ReasoningContext :=
  mkContext (rc_messages c) (available_tools c) (job_description c) (current_state c) (rc_metadata c) force
    (Some p) (model_override c).

Section delegate.
  Context {J P : Type} `{LlmProvider P} `{!ChatEnv J} `{RegexEngine} `{MultiMatcher}.
  Variable cd : ChatDelegate J.
  Implicit Types (d : ChatState J P) (ctx : ReasoningContext) (tc : ToolCall).

(** *** Access to the state *)

Definition session_of d : Session := sh_session (cs_shared d).
Definition tools_of d : ToolRegistry (ToolCtx J) := sh_tools (cs_shared d).
Definition get_tool d (nm : string) : option (ToolExec.Tool (ToolCtx J)) := registry_get nm (tools_of d).

Definition with_shared (sh : Shared J) d : ChatState J P :=
  mkChatState sh (cs_reasoning d) (cs_world d) (cs_stash d) (cs_status d) (cs_records d) (cs_executed d) (cs_tick d).

Definition with_session (s : Session) d : ChatState J P :=
  with_shared (mkShared s (tools_of d) (sh_hooks (cs_shared d)) (sh_guard (cs_shared d))) d.

Definition with_guard (g : CostGuard) d : ChatState J P :=
  with_shared (mkShared (session_of d) (tools_of d) (sh_hooks (cs_shared d)) g) d.

Definition with_engine (r : Reasoning P) (w : World) d : ChatState J P :=
  mkChatState (cs_shared d) r w (cs_stash d) (cs_status d) (cs_records d) (cs_executed d) (cs_tick d).

Definition with_stash (s : gmap string string) d : ChatState J P :=
  mkChatState (cs_shared d) (cs_reasoning d) (cs_world d) s (cs_status d) (cs_records d) (cs_executed d) (cs_tick d).

Definition with_records (l : list LlmCallRecord) d : ChatState J P :=
  mkChatState (cs_shared d) (cs_reasoning d) (cs_world d) (cs_stash d) (cs_status d) l (cs_executed d) (cs_tick d).

Definition with_executed (l : list ToolCall) d : ChatState J P :=
  mkChatState (cs_shared d) (cs_reasoning d) (cs_world d) (cs_stash d) (cs_status d) (cs_records d) l (cs_tick d).

Definition send_status (u : StatusUpdate) d : ChatState J P :=
  mkChatState (cs_shared d) (cs_reasoning d) (cs_world d) (cs_stash d) (cs_status d ++ [u]) (cs_records d)
    (cs_executed d) (cs_tick d).

(** Other tasks run. *)
Definition others d : ChatState J P :=
  mkChatState (ce_others (cs_tick d) (cs_shared d)) (cs_reasoning d) (cs_world d) (cs_stash d) (cs_status d)
    (cs_records d) (cs_executed d) (S (cs_tick d)).

(** A reading of the clock with its date. *)
Definition read_clock d : Z * Z * ChatState J P :=
  let '(t, w) := now (cs_world d) in (t, ce_date (w_ticks (cs_world d)), with_engine (cs_reasoning d) w d).

(** *** Signals and limits *)

Definition chat_check_signals d : LoopSignal * ChatState J P :=
  let d := others d in
  (match threads (session_of d) !! cd_thread_id cd with
   | Some thread => if decide (thread_state thread = ThreadState.Interrupted) then SigStop else SigContinue
   | None => SigContinue
   end, d).

Definition offered_tools d : list ToolDefinition :=
  let defs := tool_definitions ce_values (tools_of d) in
  match cd_active_skills cd with [] => defs | active => at_tools (attenuate_tools defs active) end.

Definition chat_before_llm_call ctx (iteration : nat) d : option LoopOutcome * ReasoningContext * ChatState J P :=
  let ctx := if (iteration =? cd_nudge_at cd)%nat then push_message (system NUDGE_MESSAGE) ctx else ctx in
  let ctx := set_tools (offered_tools d) ctx in
  let force := (cd_force_text_at cd <=? iteration)%nat || force_text ctx in
  let ctx := set_prompt (if force then cd_cached_prompt_no_tools cd else cd_cached_prompt cd) force ctx in
  (None, ctx, send_status (Thinking (cat ["Thinking (step "; show_nat iteration; ")..."])) d).

(** *** The model call *)

(** The model chosen in the settings: a string that is not blank. *)
Definition selected_model : option string :=
  match cd_selected_model cd with
  | Some (Ok (Some v)) =>
      match as_str v with
      | Some m => if str_is_empty (trim m) then None else Some (trim m)
      | None => None
      end
  | _ => None
  end.

Definition apply_override (iteration : nat) ctx : ReasoningContext :=
  if (iteration =? 0)%nat then match selected_model with Some m => set_override m ctx | None => ctx end else ctx.

Definition respond_call ctx d : Result LlmError RespondOutput * ChatState J P :=
  let '(res, r, w) := respond_with_tools parse_value ctx (cs_reasoning d) (cs_world d) in
  (res, with_engine r w d).

Definition retry_context ctx : ReasoningContext :=
  let ctx := set_messages (compact_messages_for_retry (rc_messages ctx)) ctx in
  if force_text ctx then set_tools [] ctx else ctx.

(** What is billed: the model that served the request, at its own rates. *)
Definition llm_usage ctx (out : RespondOutput) (nm : string) (p : P) : LlmCall :=
  let u := ro_usage out in
  mkLlmCall nm (Reasoning.input_tokens u) (Reasoning.output_tokens u) (Reasoning.cache_read_input_tokens u)
    (Reasoning.cache_creation_input_tokens u) (cache_read_discount p) (cache_write_multiplier p)
    (match model_override ctx with Some _ => None | None => Some (cost_per_token p) end).

Definition record_output ctx (out : RespondOutput) d : ChatState J P :=
  let r := cs_reasoning d in
  let '(nm, p) := effective_model_name (model_override ctx) (llm r) in
  let d := with_engine (set_llm p r) (cs_world d) d in
  let usage := llm_usage ctx out nm p in
  let '(t, today, d) := read_clock d in
  let '(_, today', d) := read_clock d in
  let '(cost, g) := tenant_record_llm_call ce_lower today t today' usage (cd_tenant cd) (sh_guard (cs_shared d)) in
  let d := with_guard g d in
  match cd_selected_model cd with
  | None => d
  | Some _ => with_records (cs_records d ++ [mkCallRecord _ (cd_thread_id cd) (cd_llm_backend cd) nm
                                              (lc_input_tokens usage) (lc_output_tokens usage) cost]) d
  end.

Definition chat_call_llm (_ : unit) ctx (iteration : nat) d : Result Error RespondOutput * ReasoningContext * ChatState J P :=
  let '(t, today, d) := read_clock d in
  let '(allowed, g) := check_cost_allowed ce_origin t today (cd_tenant cd) (sh_guard (cs_shared d)) in
  let d := with_guard g d in
  match allowed with
  | Err limit => (Err (ELlm (InvalidResponse "agent" (limit_text limit))), ctx, d)
  | Ok _ =>
      let ctx := apply_override iteration ctx in
      let '(res, d) := respond_call ctx d in
      match res with
      | Ok out => (Ok out, ctx, record_output ctx out d)
      | Err (ContextLengthExceeded _ _) =>
          let ctx := retry_context ctx in
          let '(res, d) := respond_call ctx d in
          match res with
          | Ok out => (Ok out, ctx, record_output ctx out d)
          | Err e => (Err (ELlm e), ctx, d)
          end
      | Err e => (Err (ELlm e), ctx, d)
      end
  end.

Definition chat_handle_text_response (text : string) (_ : ResponseMetadata) ctx d : TextAction * ReasoningContext * ChatState J P :=
  (Return (Response (strip_internal_tool_call_text text)), ctx, d).

(** *** A round of tool calls: what is shown and recorded first *)

Definition sanitized (source text : string) : string :=
  so_content (sanitize_tool_output ce_lower (cd_safety cd) source text).

Definition not_blank (s : string) : option string := if str_is_empty (trim s) then None else Some s.

Definition round_narrative (content : option string) : option string :=
  match content ≫= not_blank with
  | Some c => not_blank (sanitized "agent_narrative" c)
  | None => None
  end.

Definition rationale_of tc : option string := sanitized "tool_rationale" <$> tc_reasoning tc.

Definition round_decisions (calls : list ToolCall) : list ToolDecision :=
  omap (fun tc => mkDecision (tc_name tc) <$> rationale_of tc) calls.

Definition announce (content : option string) (calls : list ToolCall) d : ChatState J P :=
  let d := send_status (Thinking (contextual_tool_message calls)) d in
  match round_narrative content, round_decisions calls with
  | None, [] => d
  | n, ds => send_status (ReasoningUpdate (default "" n) ds) d
  end.

Definition sensitive_of (tool : option (ToolExec.Tool (ToolCtx J))) : list string :=
  match tool with Some t => sensitive_params t | None => [] end.

Definition safe_arguments d tc : Json :=
  match get_tool d (tc_name tc) with
  | Some tool => redact_params (tc_arguments tc) (sensitive_params tool)
  | None => tc_arguments tc
  end.

Definition record_calls (content : option string) (calls : list ToolCall) d : ChatState J P :=
  with_session
    (on_last_turn (cd_thread_id cd) (fun turn =>
       foldl (fun turn tc => record_tool_call_with_reasoning (tc_name tc) (safe_arguments d tc) (rationale_of tc)
                               (Some (tc_id tc)) turn)
         (set_narrative (round_narrative content) turn) calls) (session_of d)) d.

(** *** Phase 1: preflight *)

Definition tool_event (sensitive : list string) tc : HookEvent :=
  Hooks.ToolCall (tc_name tc) (redact_params (tc_arguments tc) sensitive) (im_user_id (cd_message cd)) "chat".

(** The arguments the hooks let through, or the message of the refusal. *)
Definition hooked_arguments d (sensitive : list string) tc : Result string Json :=
  match Hooks.run ce_from_str ce_to_string ce_hook_elapsed ce_hook_error (sh_hooks (cs_shared d))
          (tool_event sensitive tc) with
  | Err (Rejected reason) => Err ("Tool call rejected by hook: " +:+ reason)
  | Err err => Err ("Tool call blocked by hook policy: " +:+ ce_hook_error err)
  | Ok (Hooks.Continue (Some new_params)) =>
      match ce_from_str new_params with
      | Ok parsed => Ok (restore_sensitive sensitive (tc_arguments tc) parsed)
      | Err _ => Ok (tc_arguments tc)
      end
  | Ok _ => Ok (tc_arguments tc)
  end.

Definition needs_approval d (nm : string) (r : ApprovalRequirement) : bool :=
  match r with
  | Never => false
  | UnlessAutoApproved => negb (is_tool_auto_approved (session_of d) nm)
  | Always => true
  end.

Definition shared_relay : bool :=
  ends_with "-relay" (im_channel (cd_message cd)) &&
  negb (bool_decide (json_get "event_type" (im_metadata (cd_message cd)) ≫= as_str = Some "direct_message")).

Definition relay_refusal (nm : string) : string :=
  cat ["Tool '"; nm; "' requires approval and cannot run in shared channels. Ask the user to message me directly (DM) to use this tool."].

Definition decide_call d tc : Decision (ToolCtx J) :=
  let tool_opt := get_tool d (tc_name tc) in
  match hooked_arguments d (sensitive_of tool_opt) tc with
  | Err msg => Refuse tc msg
  | Ok args =>
      let tc := with_arguments args tc in
      match cd_auto_approve_tools cd, tool_opt with
      | false, Some tool =>
          let requirement := requires_approval tool args in
          if needs_approval d (tc_name tc) requirement then
            if shared_relay then Refuse tc (relay_refusal (tc_name tc))
            else Ask tc tool (match requirement with Always => false | _ => true end)
          else Run tc
      | _, _ => Run tc
      end
  end.

(** Stops at the first call that has to be asked for; [idx] is its position. *)
Fixpoint preflight_from d (idx : nat) (calls : list ToolCall)
    : list (ToolCall * PreflightOutcome) * option (nat * ToolCall * ToolExec.Tool (ToolCtx J) * bool) :=
  match calls with
  | [] => ([], None)
  | tc :: calls =>
      match decide_call d tc with
      | Ask tc tool allow_always => ([], Some (idx, tc, tool, allow_always))
      | Refuse tc msg => let '(l, a) := preflight_from d (S idx) calls in ((tc, Refused msg) :: l, a)
      | Run tc => let '(l, a) := preflight_from d (S idx) calls in ((tc, Runnable) :: l, a)
      end
  end.

Fixpoint runnable_from (i : nat) (l : list (ToolCall * PreflightOutcome)) : list (nat * ToolCall) :=
  match l with
  | [] => []
  | (tc, Runnable) :: l => (i, tc) :: runnable_from (S i) l
  | (_, Refused _) :: l => runnable_from (S i) l
  end.

(** *** Phase 2: execution *)

Definition execute_chat_tool d tc : Result ToolError string :=
  execute_tool_with_safety ce_lower parse_value ce_print_f64 ce_pretty (tools_of d) (cd_safety cd) (tc_name tc)
    (tc_arguments tc) (cd_job_ctx cd, cs_stash d).

Definition start_call tc d : ChatState J P :=
  send_status (ToolStarted (tc_name tc)) (with_executed (cs_executed d ++ [tc]) d).

(** One call with the updates around it. *)
Definition run_one tc d : Result ToolError string * ChatState J P :=
  let result := execute_chat_tool d tc in
  let d := start_call tc d in
  (result, send_status (tool_completed ce_pretty ce_to_string (tc_name tc) (displayed result) (tc_arguments tc)
                          (get_tool d (tc_name tc))) d).

Abbreviation Slots := (list (option (Result ToolError string))).

Definition task_failed tc : Result ToolError string := Err (ExecutionFailed (tc_name tc) "Task failed during execution").

(** The tasks in the order they are joined; one that did not return leaves its slot as it is. *)
Fixpoint join_all (joined : list (nat * ToolCall * bool)) (slots : Slots) d : Slots * ChatState J P :=
  match joined with
  | [] => (slots, d)
  | (i, tc, true) :: joined => join_all joined slots (start_call tc d)
  | (i, tc, false) :: joined =>
      let '(result, d) := run_one tc d in join_all joined (<[i := Some result]> slots) d
  end.

Definition fill_lost (runnable : list (nat * ToolCall)) (slots : Slots) : Slots :=
  foldl (fun slots '(i, tc) =>
    match slots !! i with Some None => <[i := Some (task_failed tc)]> slots | _ => slots end) slots runnable.

Definition execute_runnable (n : nat) (runnable : list (nat * ToolCall)) d : Slots * ChatState J P :=
  let slots := replicate n None in
  match runnable with
  | [] => (slots, d)
  | [(i, tc)] => let '(result, d) := run_one tc d in (<[i := Some result]> slots, d)
  | _ =>
      let '(slots, d) := join_all (ce_join (cs_tick d) runnable) slots d in
      (fill_lost runnable slots, d)
  end.

(** *** Phase 3: the results, in the order of the calls *)

(** The record of a result in the last turn of the thread. *)
Definition record_result tc (failed : bool) (content : string) d : ChatState J P :=
  with_session
    (on_last_turn (cd_thread_id cd)
       (if failed then record_tool_error_for (tc_id tc) content else record_tool_result_for (tc_id tc) (JString content))
       (session_of d)) d.

Definition image_sentinel tc (result : Result ToolError string) : option Json :=
  match result with
  | Ok output =>
      if existsb (String.eqb (tc_name tc)) ["image_generate"; "image_edit"] then
        match parse_value output with
        | Some v => if decide (json_get "type" v ≫= as_str = Some "image_generated") then Some v else None
        | None => None
        end
      else None
  | Err _ => None
  end.

(** The image, or else a preview of the output. *)
Definition show_result tc (result : Result ToolError string) d : ChatState J P :=
  match image_sentinel tc result, result with
  | Some v, _ =>
      let data_url := default "" (json_get "data" v ≫= as_str) in
      if str_is_empty data_url then d else send_status (ImageGenerated data_url (json_get "path" v ≫= as_str)) d
  | None, Ok output => if str_is_empty output then d else send_status (ToolResult (tc_name tc) output) d
  | None, Err _ => d
  end.

(** A tool that waits for a token puts the thread in authentication mode, the first one only. *)
Definition note_auth tc (result : Result ToolError string) (deferred_auth : option string) d
    : option string * ChatState J P :=
  match deferred_auth, check_auth_required parse_value (tc_name tc) result with
  | None, Some (ext_name, instructions) =>
      let auth_data := parse_auth_result parse_value result in
      let '(t0, _, d) := read_clock d in
      let '(t1, _, d) := read_clock d in
      let d := with_session
        (on_thread (cd_thread_id cd) (enter_auth_mode (fun i => if (i =? 0)%nat then t0 else t1) ext_name) (session_of d)) d in
      (Some instructions,
       send_status (AuthNeeded ext_name (Some instructions) (auth_url auth_data) (setup_url auth_data)) d)
  | _, _ => (deferred_auth, d)
  end.

Definition stash_output tc (result : Result ToolError string) d : ChatState J P :=
  match result with Ok output => with_stash (<[tc_id tc := output]> (cs_stash d)) d | Err _ => d end.

Definition tool_message tc (result : Result string string) : string * ChatMessage :=
  process_tool_result ce_lower (cd_safety cd) (tc_name tc) (tc_id tc) result.

Definition no_result tc : Result ToolError string := Err (ExecutionFailed (tc_name tc) "No result available").

Definition finish_call tc (result : Result ToolError string) (deferred_auth : option string) ctx d
    : option string * ReasoningContext * ChatState J P :=
  let d := show_result tc result d in
  let '(deferred_auth, d) := note_auth tc result deferred_auth d in
  let d := stash_output tc result d in
  let '(content, msg) := tool_message tc (displayed result) in
  (deferred_auth, push_message msg ctx, record_result tc (negb (is_ok result)) content d).

Definition refuse_call tc (error_msg : string) ctx d : ReasoningContext * ChatState J P :=
  let '(content, msg) := tool_message tc (Err error_msg) in
  (push_message msg ctx, record_result tc true content d).

Fixpoint postflight (l : list (ToolCall * PreflightOutcome)) (slots : Slots) (deferred_auth : option string) ctx d
    : option string * ReasoningContext * ChatState J P :=
  match l with
  | [] => (deferred_auth, ctx, d)
  | (tc, outcome) :: l =>
      let '(deferred_auth, ctx, d) :=
        match outcome with
        | Refused error_msg => let '(ctx, d) := refuse_call tc error_msg ctx d in (deferred_auth, ctx, d)
        | Runnable => finish_call tc (default (no_result tc) (mjoin (head slots))) deferred_auth ctx d
        end in
      postflight l (tail slots) deferred_auth ctx d
  end.

(** *** The round *)

Definition pending_for (calls : list ToolCall) (idx : nat) tc (tool : ToolExec.Tool (ToolCtx J)) (always_allowed : bool)
    ctx d : PendingApproval :=
  mkPendingApproval (ce_uuid (cs_tick d)) (tc_name tc) (tc_arguments tc)
    (redact_params (tc_arguments tc) (sensitive_params tool)) (tool_description tool) (tc_id tc) (rc_messages ctx)
    (drop (S idx) calls) (Some (cd_user_tz cd)) always_allowed.

Definition chat_execute_tool_calls (calls : list ToolCall) (content : option string) ctx d
    : Result Error (option LoopOutcome) * ReasoningContext * ChatState J P :=
  let ctx := push_message (assistant_with_tool_calls content calls) ctx in
  let d := record_calls content calls (announce content calls d) in
  let '(preflight, approval_needed) := preflight_from d 0 calls in
  let d := others d in
  let '(slots, d) := execute_runnable (length preflight) (runnable_from 0 preflight) d in
  let d := others d in
  let '(deferred_auth, ctx, d) := postflight preflight slots None ctx d in
  match deferred_auth, approval_needed with
  | Some instructions, _ => (Ok (Some (Response instructions)), ctx, d)
  | None, Some (idx, tc, tool, always_allowed) =>
      (Ok (Some (NeedApproval (pending_for calls idx tc tool always_allowed ctx d))), ctx, others d)
  | None, None => (Ok None, ctx, d)
  end.

#[export] Instance chat_delegate : LoopDelegate Error unit (ChatState J P) := {|
  check_signals := chat_check_signals;
  before_llm_call := chat_before_llm_call;
  call_llm := chat_call_llm;
  handle_text_response := chat_handle_text_response;
  execute_tool_calls := chat_execute_tool_calls;
  on_tool_intent_nudge := default_on_tool_intent_nudge;
  after_iteration := default_after_iteration
|}.
End delegate.

(** ** Running the loop *)

Inductive AgenticLoopResult : Type :=
| LoopResponse (text : string)
| LoopNeedApproval (pending : PendingApproval).

(** The parts of the agent's configuration that a turn reads. *)
Record TurnConfig : Type := mkTurnConfig {
  max_tool_iterations : nat;
  auto_approve_tools : bool;
  llm_backend : string
}.

(** What is loaded for a turn: the workspace prompt ([None] without a workspace), the skills selected for the
    message, the context the channel gives, the setting, the time zone and what the job context draws. *)
Record TurnInput : Type := mkTurnInput {
  ti_message : IncomingMessage;
  ti_system_prompt : option (Result string string);
  ti_active_skills : list LoadedSkill;
  ti_conversation : list (string * string);
  ti_selected_model : option (Result string (option Json));
  ti_user_tz : string;
  ti_interceptor : option N;
  ti_job_id : Uuid;
  ti_job_created_at : Z;
  ti_stash : N
}.

Section agent.
  Context {P : Type} `{LlmProvider P} `{!ChatEnv JobContext} `{RegexEngine} `{MultiMatcher}.
  Variable safety : SafetyLayer.
  Variable config : TurnConfig.

(** The map lists its entries in the order of its iteration. *)
Definition with_conversation_data (kv : string * string) (r : Reasoning P) : Reasoning P :=
  mkReasoning (llm r) (workspace_system_prompt r) (skill_context r) (channel r) (model_name_hint r) (is_group_chat r)
    (match update_first (fun e => (e.1 =? kv.1)%string) (fun _ => kv) (conversation_context r) with
     | Some l => l
     | None => conversation_context r ++ [kv]
     end).

Definition loaded_prompt (ti : TurnInput) : option string :=
  match ti_system_prompt ti with
  | Some (Ok prompt) => if str_is_empty prompt then None else Some prompt
  | _ => None
  end.

Definition turn_reasoning (ti : TurnInput) (p : P) : Reasoning P :=
  let m := ti_message ti in
  let r := with_group_chat (is_group_message m) (with_model_name (active_model_name p)
             (with_channel (im_channel m) (reasoning_new p))) in
  let r := foldl (fun r kv => with_conversation_data kv r) r (ti_conversation ti) in
  let r := match loaded_prompt ti with Some prompt => with_system_prompt prompt r | None => r end in
  match active_skill_context (ti_active_skills ti) with Some c => with_skill_context c r | None => r end.

Definition chat_job_context (ti : TurnInput) : JobContext :=
  let m := ti_message ti in
  let c := with_requester_id (with_user (ti_job_id ti) (ti_job_created_at ti) (ti_stash ti) (im_user_id m) "chat"
             "Interactive chat session") (im_sender_id m) in
  JobState.mkContext _ (job_id c) (state c) (user_id c) (requester_id c) (conversation_id c) (title c) (description c)
    (category c) (budget c) (budget_token c) (bid_amount c) (estimated_cost c) (estimated_duration c) (actual_cost c)
    (total_tokens_used c) (max_tokens c) (created_at c) (started_at c) (completed_at c) (repair_attempts c)
    (transitions c) (chat_tool_execution_metadata m) (extra_env c) (ti_interceptor ti) (tool_output_stash c)
    (ti_user_tz ti).

Definition turn_tools (ti : TurnInput) (sh : Shared JobContext) : list ToolDefinition :=
  let defs := tool_definitions ce_values (sh_tools sh) in
  match ti_active_skills ti with [] => defs | active => at_tools (attenuate_tools defs active) end.

Definition turn_delegate (ti : TurnInput) (tenant : TenantCtx) (tid : Uuid) (r : Reasoning P) (tools : list ToolDefinition)
    : ChatDelegate JobContext :=
  mkChat safety (auto_approve_tools config) (llm_backend config) tenant (ti_selected_model ti) tid (ti_message ti)
    (chat_job_context ti) (ti_active_skills ti) (build_system_prompt_with_tools tools r)
    (build_system_prompt_with_tools [] r) (max_tool_iterations config - 1) (max_tool_iterations config) (ti_user_tz ti).

Definition turn_loop_config : AgenticLoopConfig := mkLoopConfig (max_tool_iterations config + 1) true 2.

Definition outcome_result (tid : Uuid) (res : Result Error LoopOutcome) : Result Error AgenticLoopResult :=
  match res with
  | Err e => Err e
  | Ok (Response text) => Ok (LoopResponse text)
  | Ok Stopped => Err (EJob (ContextError tid "Interrupted"))
  | Ok MaxIterations =>
      Err (ELlm (InvalidResponse "agent"
        (cat ["Exceeded maximum tool iterations ("; show_nat (max_tool_iterations config); ")"])))
  | Ok (Failure reason) => Err (ELlm (InvalidResponse "agent" reason))
  | Ok (NeedApproval pending) => Ok (LoopNeedApproval pending)
  end.

Definition chat_outcome (ti : TurnInput) (tenant : TenantCtx) (tid : Uuid) (initial : list ChatMessage)
    (p : P) (w : World) (sh : Shared JobContext) (tick : nat)
    : Result Error LoopOutcome * ReasoningContext * ChatState JobContext P :=
  let r := turn_reasoning ti p in
  let tools := turn_tools ti sh in
  let cd := turn_delegate ti tenant tid r tools in
  let ctx := mkContext initial tools None None {[ "thread_id" := pretty tid ]} false (Some (cd_cached_prompt cd)) None in
  run_agentic_loop (H := chat_delegate cd) ce_lower tt turn_loop_config ctx (mkChatState sh r w ∅ [] [] [] tick).

Definition run_chat_loop (ti : TurnInput) (tenant : TenantCtx) (tid : Uuid) (initial : list ChatMessage)
    (p : P) (w : World) (sh : Shared JobContext) (tick : nat)
    : Result Error AgenticLoopResult * ReasoningContext * ChatState JobContext P :=
  let '(res, ctx, d) := chat_outcome ti tenant tid initial p w sh tick in
  (outcome_result tid res, ctx, d).
End agent.

(** ** Properties of a round *)

Section rounds.
  Context {J P : Type} `{LlmProvider P} `{!ChatEnv J} `{RegexEngine} `{MultiMatcher}.
  Variable cd : ChatDelegate J.
  Implicit Types (d : ChatState J P) (ctx : ReasoningContext) (tc : ToolCall).

(** What the user or the configuration allows without being asked. *)
Definition permitted d (nm : string) (args : Json) : Prop :=
  cd_auto_approve_tools cd = true ∨
  match get_tool d nm with
  | None => True
  | Some tool =>
      match requires_approval tool args with
      | Never => True
      | UnlessAutoApproved => is_tool_auto_approved (session_of d) nm = true
      | Always => False
      end
  end.

(** [tc] is what the hooks made of the requested call [tc0], and needs no question. *)
Definition cleared d tc0 tc : Prop :=
  hooked_arguments cd d (sensitive_of (get_tool d (tc_name tc0))) tc0 = Ok (tc_arguments tc) ∧
  tc = with_arguments (tc_arguments tc) tc0 ∧ permitted d (tc_name tc0) (tc_arguments tc).

(** The decisions look only at the tools, the hooks and the automatic approvals. *)
Definition same_policy d d' : Prop :=
  tools_of d = tools_of d' ∧ sh_hooks (cs_shared d) = sh_hooks (cs_shared d') ∧
  auto_approved_tools (session_of d) = auto_approved_tools (session_of d').

Lemma hooked_policy d d' s tc : same_policy d d' → hooked_arguments cd d s tc = hooked_arguments cd d' s tc.
Proof. intros (_ & Hh & _). unfold hooked_arguments. by rewrite Hh. Qed.

Lemma decide_call_policy d d' tc : same_policy d d' → decide_call cd d tc = decide_call cd d' tc.
Proof.
  intros Hp. pose proof Hp as (Ht & Hh & Ha). unfold decide_call, get_tool. rewrite <-Ht.
  rewrite (hooked_policy d d') by done. unfold needs_approval, is_tool_auto_approved. by rewrite Ha.
Qed.

Lemma preflight_policy d d' i calls : same_policy d d' → preflight_from cd d i calls = preflight_from cd d' i calls.
Proof.
  intros Hp. revert i. induction calls as [|tc calls IH]; intros i; [done|]. simpl.
  rewrite (decide_call_policy d d') by done. by rewrite !IH.
Qed.

Lemma announced_policy content calls d : same_policy (record_calls cd content calls (announce cd content calls d)) d.
Proof. unfold announce. split; [|split]; by repeat case_match. Qed.

(** *** The preflight *)

Lemma decide_call_spec d tc0 :
  match decide_call cd d tc0 with
  | Refuse tc _ | Ask tc _ _ => tc_id tc = tc_id tc0 ∧ tc_name tc = tc_name tc0
  | Run tc => cleared d tc0 tc
  end.
Proof.
  unfold decide_call. destruct (hooked_arguments cd d _ tc0) as [args|msg] eqn:Hh; [|done].
  assert (permitted d (tc_name tc0) args → cleared d tc0 (with_arguments args tc0)) as Hrun by done.
  unfold permitted in Hrun. destruct (cd_auto_approve_tools cd); [by apply Hrun; left|].
  destruct (get_tool d (tc_name tc0)) as [tool|]; [|by apply Hrun; right].
  cbn [tc_name with_arguments]. destruct (needs_approval d (tc_name tc0) (requires_approval tool args)) eqn:Hn.
  - by destruct (shared_relay cd).
  - apply Hrun. right. destruct (requires_approval tool args); [done| |done].
    simpl in Hn. by apply negb_false_iff in Hn.
Qed.

(** The answered calls are a prefix of the requested ones; all of them when nobody has to be asked. *)
Lemma preflight_prefix d i calls :
  let '(pf, a) := preflight_from cd d i calls in
  (fun x => (tc_id x.1, tc_name x.1)) <$> pf = (fun tc => (tc_id tc, tc_name tc)) <$> take (length pf) calls ∧
  match a with
  | None => length pf = length calls
  | Some (k, tc, tool, always) =>
      k = (i + length pf)%nat ∧
      ∃ tc0, calls !! length pf = Some tc0 ∧ decide_call cd d tc0 = Ask tc tool always
  end.
Proof.
  revert i. induction calls as [|tc0 calls IH]; intros i; [done|]. cbn [preflight_from].
  pose proof (decide_call_spec d tc0) as Hd. specialize (IH (S i)).
  destruct (preflight_from cd d (S i) calls) as [pf a] eqn:Hpf. destruct IH as [IH Ha].
  assert (match a with None => S (length pf) = S (length calls)
    | Some (k, tc, tool, always) => k = (i + S (length pf))%nat ∧
        ∃ tc1, calls !! length pf = Some tc1 ∧ decide_call cd d tc1 = Ask tc tool always end) as Ha'.
  { destruct a as [[[[k ?] ?] ?]|]; [|by f_equal]. destruct Ha as [-> Ha]. split; [lia|done]. }
  destruct (decide_call cd d tc0) as [tc msg|tc|tc tool always] eqn:Hdec.
  - split; [|done]. cbn. destruct Hd as [-> ->]. by rewrite <-IH.
  - split; [|done]. cbn. destruct Hd as (_ & -> & _). by rewrite <-IH.
  - split; [done|]. split; [simpl; lia|]. by exists tc0.
Qed.

Lemma runnable_cleared d i k calls j tc :
  (j, tc) ∈ runnable_from k (preflight_from cd d i calls).1 → ∃ tc0, tc0 ∈ calls ∧ cleared d tc0 tc.
Proof.
  revert i k. induction calls as [|tc0 calls IH]; intros i k; [by intros ?%elem_of_nil|]. cbn [preflight_from].
  pose proof (decide_call_spec d tc0) as Hd. specialize (IH (S i) (S k)).
  destruct (preflight_from cd d (S i) calls) as [pf a]. destruct (decide_call cd d tc0) as [tc1 msg|tc1|tc1 tool always];
    cbn [fst runnable_from] in *.
  - intros (tc' & ? & ?)%IH. exists tc'. split; [by apply elem_of_cons; right|done].
  - intros [[= -> ->]|(tc' & ? & ?)%IH]%elem_of_cons;
      [exists tc0; split; [by apply elem_of_cons; left|done]|exists tc'; split; [by apply elem_of_cons; right|done]].
  - by intros ?%elem_of_nil.
Qed.

(** *** Execution *)

(** tokio's [JoinSet] gives each spawned task back once. *)
Definition joins_all : Prop := ∀ n l, fst <$> ce_join n l ≡ₚ l.

Lemma run_one_result tc d : (run_one cd tc d).1 = execute_chat_tool cd d tc.
Proof. done. Qed.

(** The results do not depend on what was logged before. *)
Lemma join_all_slots joined slots d :
  (join_all cd joined slots d).1 =
  foldl (fun slots x => if (x.2 : bool) then slots else <[x.1.1 := Some (execute_chat_tool cd d x.1.2)]> slots) slots joined.
Proof.
  revert slots d. induction joined as [|[[i tc] [|]] joined IH]; intros slots d; [done| |]; cbn [join_all foldl fst snd].
  - by rewrite IH.
  - unfold run_one. by rewrite IH.
Qed.

Lemma join_all_executed joined slots d :
  cs_executed (join_all cd joined slots d).2 = cs_executed d ++ ((fun x => x.1.2) <$> joined).
Proof.
  revert slots d. induction joined as [|[[i tc] [|]] joined IH]; intros slots d; cbn [join_all fmap list_fmap].
  - by rewrite app_nil_r.
  - rewrite IH. simpl. by rewrite <-app_assoc.
  - unfold run_one. rewrite IH. simpl. by rewrite <-app_assoc.
Qed.

Lemma execute_runnable_executed n runnable d :
  joins_all → ∃ ran, cs_executed (execute_runnable cd n runnable d).2 = cs_executed d ++ ran ∧ ran ≡ₚ snd <$> runnable.
Proof.
  intros Hj. unfold execute_runnable. destruct runnable as [|[i tc] [|x runnable]].
  - exists []. by rewrite app_nil_r.
  - exists [tc]. done.
  - set (l := (i, tc) :: x :: runnable). pose proof (join_all_executed (ce_join (cs_tick d) l) (replicate n None) d) as He.
    destruct (join_all cd _ _ d) as [slots d'] eqn:Hjoin. simpl in He |- *.
    exists ((fun x => x.1.2) <$> ce_join (cs_tick d) l). split; [done|].
    change (((fun x => x.1.2) <$> ce_join (cs_tick d) l) ≡ₚ snd <$> l).
    transitivity (snd <$> (fst <$> ce_join (cs_tick d) l)); [by rewrite <-list_fmap_compose|].
    exact (fmap_Permutation snd _ _ (Hj (cs_tick d) l)).
Qed.

Lemma execute_runnable_grows n runnable d : ∃ ran, cs_executed (execute_runnable cd n runnable d).2 = cs_executed d ++ ran.
Proof.
  unfold execute_runnable. destruct runnable as [|[i tc] [|x runnable]]; [exists []; by rewrite app_nil_r|by exists [tc]|].
  set (l := (i, tc) :: x :: runnable). pose proof (join_all_executed (ce_join (cs_tick d) l) (replicate n None) d) as He.
  destruct (join_all cd _ _ d) as [slots d']. by eexists.
Qed.

(** Later phases run nothing. *)
Lemma finish_call_log tc r a ctx d :
  cs_executed (finish_call cd tc r a ctx d).2 = cs_executed d ∧
  ∃ msg, rc_messages (finish_call cd tc r a ctx d).1.2 = rc_messages ctx ++ [msg] ∧
         role msg = Provider.Tool ∧ tool_call_id msg = Some (tc_id tc) ∧ name msg = Some (tc_name tc).
Proof.
  unfold finish_call, show_result, note_auth, stash_output.
  split; repeat (case_match; simplify_eq/=; try done); eexists; done.
Qed.

Lemma postflight_log l slots a ctx d :
  let '(a', ctx', d') := postflight cd l slots a ctx d in
  cs_executed d' = cs_executed d ∧
  ∃ answers, rc_messages ctx' = rc_messages ctx ++ answers ∧ Forall (fun m => role m = Provider.Tool) answers ∧
    (fun m => (tool_call_id m, name m)) <$> answers = (fun x => (Some (tc_id x.1), Some (tc_name x.1))) <$> l.
Proof.
  revert slots a ctx d. induction l as [|[tc outcome] l IH]; intros slots a ctx d; cbn [postflight].
  { split; [done|]. exists []. by rewrite app_nil_r. }
  set (step := match outcome with Refused _ => _ | Runnable => _ end).
  assert (cs_executed step.2 = cs_executed d ∧ ∃ msg, rc_messages step.1.2 = rc_messages ctx ++ [msg] ∧
            role msg = Provider.Tool ∧ tool_call_id msg = Some (tc_id tc) ∧ name msg = Some (tc_name tc)) as [He (msg & Hm & Hr & Hi & Hn)].
  { unfold step. destruct outcome; [|apply finish_call_log]. unfold refuse_call. simpl. split; [done|]. by eexists. }
  destruct step as [[a1 ctx1] d1]. specialize (IH (tail slots) a1 ctx1 d1).
  destruct (postflight cd l (tail slots) a1 ctx1 d1) as [[a' ctx'] d']. destruct IH as (He' & answers & Hms & Hrs & Hids).
  simpl in *. split; [by rewrite He', He|]. exists (msg :: answers). rewrite Hms, Hm, <-app_assoc.
  split; [done|]. split; [by constructor|]. cbn. by rewrite Hi, Hn, Hids.
Qed.

(** The state of a round before its phases. *)
Abbreviation announced content calls d := (record_calls cd content calls (announce cd content calls d)).

Lemma announced_executed content calls d : cs_executed (announced content calls d) = cs_executed d.
Proof. unfold announce. by repeat case_match. Qed.


(** The thread, if it is still there, waits for a token of the extension. *)
Definition awaits_token (ext : string) d : Prop :=
  ∀ th, threads (session_of d) !! cd_thread_id cd = Some th → extension_name <$> pending_auth th = Some ext.

Lemma on_thread_awaits f ext d :
  (∀ th, pending_auth (f th) = pending_auth th) → awaits_token ext d →
  awaits_token ext (with_session (on_thread (cd_thread_id cd) f (session_of d)) d).
Proof.
  intros Hf Hd th. cbn. rewrite lookup_alter, decide_True by done. destruct (threads _ !! _) as [th0|] eqn:Hth; [|done].
  intros [= <-]. rewrite Hf. by apply Hd.
Qed.

Lemma record_result_awaits tc failed content ext d : awaits_token ext d → awaits_token ext (record_result cd tc failed content d).
Proof. by apply on_thread_awaits. Qed.

Lemma show_result_session tc r d : session_of (show_result tc r d) = session_of d.
Proof. unfold show_result. by repeat case_match. Qed.

(** A finished call keeps a request for a token, or makes the first one from its own output. *)
Lemma finish_call_auth tc r a ctx d :
  let '(a', _, d') := finish_call cd tc r a ctx d in
  match a, a' with
  | Some text, _ => a' = Some text ∧ ∀ ext, awaits_token ext d → awaits_token ext d'
  | None, None => True
  | None, Some text => ∃ output ext, r = Ok output ∧ check_auth_required parse_value (tc_name tc) r = Some (ext, text) ∧ awaits_token ext d'
  end.
Proof.
  unfold finish_call. pose proof (show_result_session tc r d) as Hs. set (d1 := show_result tc r d) in *. clearbody d1.
  assert (∀ ext d', awaits_token ext d' → awaits_token ext (record_result cd tc (negb (is_ok r)) (tool_message cd tc (displayed r)).1 (stash_output tc r d'))) as Hend.
  { intros ext d' Hd'. apply record_result_awaits. by destruct r. }
  destruct (tool_message cd tc (displayed r)) as [content msg]. cbn [fst] in Hend.
  unfold note_auth. destruct a as [text|]; cbn [fst snd].
  - split; [done|]. intros ext Hd. apply Hend. unfold awaits_token. by rewrite Hs.
  - destruct (check_auth_required _ _ r) as [[ext text]|] eqn:Hc; [|done].
    assert (∃ output, r = Ok output) as [output ->].
    { unfold check_auth_required in Hc. destruct (_ && _); [done|]. destruct r; [by eexists|done]. }
    cbn [fst snd read_clock now].
    exists output, ext. split; [done|]. split; [done|]. apply Hend. intros th. cbn. rewrite lookup_alter, decide_True by done.
    destruct (threads _ !! _); [|done]. by intros [= <-].
Qed.

Lemma finish_call_message tc r a ctx d :
  rc_messages (finish_call cd tc r a ctx d).1.2 = rc_messages ctx ++ [(tool_message cd tc (displayed r)).2].
Proof.
  unfold finish_call. destruct (note_auth cd tc r a _) as [a' d']. by destruct (tool_message cd tc (displayed r)) as [content msg].
Qed.

(** A request for a token comes from the output of a call that ran, and the message that answers that call shows it. *)
Lemma postflight_auth l slots a ctx d :
  let '(a', ctx', d') := postflight cd l slots a ctx d in
  match a, a' with
  | Some text, _ => a' = Some text ∧ ∀ ext, awaits_token ext d → awaits_token ext d'
  | None, None => True
  | None, Some text => ∃ tc output ext answers, (tc, Runnable) ∈ l ∧
      check_auth_required (E := ToolError) parse_value (tc_name tc) (Ok output) = Some (ext, text) ∧
      rc_messages ctx' = rc_messages ctx ++ answers ∧ (tool_message cd tc (Ok output)).2 ∈ answers ∧ awaits_token ext d'
  end.
Proof.
  revert slots a ctx d. induction l as [|[tc [msg|]] l IH]; intros slots a ctx d; cbn [postflight]; [by destruct a| |].
  - unfold refuse_call. destruct (tool_message cd tc (Err msg)) as [content m]. set (d1 := record_result _ _ _ _ _).
    specialize (IH (tail slots) a (push_message m ctx) d1). destruct (postflight cd l _ a _ d1) as [[a' ctx'] d'].
    destruct a as [text|]; [destruct IH as [-> Hk]; split; [done|]; intros ext Hd; by apply Hk, record_result_awaits|].
    destruct a' as [text|]; [|done]. destruct IH as (tc' & output & ext & answers & Hin & Hc & Hm & Ha & Hw).
    exists tc', output, ext, (m :: answers). cbn in Hm. rewrite <-app_assoc in Hm. split_and!; try done; by apply elem_of_cons; right.
  - set (r := default (no_result tc) _). pose proof (finish_call_auth tc r a ctx d) as Hf. pose proof (finish_call_message tc r a ctx d) as Hmsg.
    destruct (finish_call cd tc r a ctx d) as [[a1 ctx1] d1]. cbn [fst snd] in *.
    specialize (IH (tail slots) a1 ctx1 d1). pose proof (postflight_log l (tail slots) a1 ctx1 d1) as Hlog.
    destruct (postflight cd l _ a1 ctx1 d1) as [[a' ctx'] d']. destruct Hlog as (_ & sent & Hsent & _).
    assert (∀ answers, rc_messages ctx' = rc_messages ctx1 ++ answers →
      rc_messages ctx' = rc_messages ctx ++ (tool_message cd tc (displayed r)).2 :: answers) as Hmore.
    { intros answers ->. by rewrite Hmsg, <-app_assoc. }
    destruct a as [text|]; [destruct Hf as [-> Hk]; destruct IH as [-> Hk']; split; [done|]; intros ext Hd; by apply Hk', Hk|]. destruct a1 as [text|].
    + destruct Hf as (output & ext & Hr & Hc & Hw). destruct IH as [-> Hk].
      exists tc, output, ext, ((tool_message cd tc (displayed r)).2 :: sent). rewrite Hr in *. split_and!; [by apply elem_of_cons; left|done| | |by apply Hk].
      * by apply Hmore.
      * by apply elem_of_cons; left.
    + destruct a' as [text|]; [|done]. destruct IH as (tc' & output & ext & answers & Hin & Hc & Hm & Ha & Hw).
      exists tc', output, ext, ((tool_message cd tc (displayed r)).2 :: answers). split_and!; [by apply elem_of_cons; right|done| | |done].
      * by apply Hmore.
      * by apply elem_of_cons; right.
Qed.

(** The user has to be asked about the call. *)
Definition must_ask d tc : Prop := ∃ tc' tool always, decide_call cd d tc = Ask tc' tool always.

(** C18. Every call of a round is accounted for: the context grows by the request and one tool message per answered call, in the order of the
    calls and under their identifiers, and the first unanswered call, if there is one, is one the user must be asked about.  Either all
    are answered and the loop goes on; or that call is put before the user with the rest kept for later; or the round ends with
    instructions which the output of an answered call, shown in its message, asked the user to follow, and the thread waits for
    the token of that extension. *)
Theorem round_answers_calls calls content ctx d :
  let '(res, ctx', d') := chat_execute_tool_calls cd calls content ctx d in
  ∃ answers n,
    rc_messages ctx' = rc_messages ctx ++ assistant_with_tool_calls content calls :: answers ∧
    Forall (fun m => role m = Provider.Tool) answers ∧
    (fun m => (tool_call_id m, name m)) <$> answers = (fun tc => (Some (tc_id tc), Some (tc_name tc))) <$> take n calls ∧
    match res with
    | Ok None => n = length calls
    | Ok (Some (NeedApproval p)) =>
        ∃ tc, calls !! n = Some tc ∧ must_ask d tc ∧ pa_tool_name p = tc_name tc ∧ pa_tool_call_id p = tc_id tc ∧
              context_messages p = rc_messages ctx' ∧ calls = take n calls ++ tc :: deferred_tool_calls p
    | Ok (Some (Response text)) =>
        (n = length calls ∨ ∃ tc, calls !! n = Some tc ∧ must_ask d tc) ∧
        ∃ tc output ext, tc ∈ take n calls ∧ check_auth_required (E := ToolError) parse_value (tc_name tc) (Ok output) = Some (ext, text) ∧
          (tool_message cd tc (Ok output)).2 ∈ answers ∧ awaits_token ext d'
    | _ => False
    end.
Proof.
  unfold chat_execute_tool_calls.
  rewrite (preflight_policy _ d) by apply announced_policy. pose proof (preflight_prefix d 0 calls) as Hpre.
  destruct (preflight_from cd d 0 calls) as [pf a]. destruct Hpre as [Hids Ha].
  destruct (execute_runnable cd _ _ _) as [slots d1].
  pose proof (postflight_log pf slots None (push_message (assistant_with_tool_calls content calls) ctx) (others d1)) as Hp.
  pose proof (postflight_auth pf slots None (push_message (assistant_with_tool_calls content calls) ctx) (others d1)) as Hauth.
  destruct (postflight cd pf slots None _ (others d1)) as [[auth ctx2] d2]. destruct Hp as (_ & answers & Hms & Hr & Hans).
  assert (rc_messages ctx2 = rc_messages ctx ++ assistant_with_tool_calls content calls :: answers) as Hctx
    by (rewrite Hms; simpl; by rewrite <-app_assoc).
  assert ((fun m => (tool_call_id m, name m)) <$> answers =
          (fun tc => (Some (tc_id tc), Some (tc_name tc))) <$> take (length pf) calls) as Hanswered.
  { rewrite Hans. apply (f_equal (fmap (fun p => (Some p.1, Some p.2)))) in Hids. by rewrite <-!list_fmap_compose in Hids. }
  destruct auth as [instructions|]; [exists answers, (length pf); split_and!; try done|].
  - destruct a as [[[[k tc] tool] always]|]; [|by left]. destruct Ha as (_ & tc0 & Hlook & Hdec). right. exists tc0.
    split; [done|]. by exists tc, tool, always.
  - destruct Hauth as (tc & output & ext & answers' & Hin & Hc & Hms' & Hshown & Hw). rewrite Hms in Hms'. apply app_inv_head in Hms' as <-.
    assert ((tc_id tc, tc_name tc) ∈ (fun tc => (tc_id tc, tc_name tc)) <$> take (length pf) calls) as (tc0 & Heq & Hin0)%list_elem_of_fmap.
    { rewrite <-Hids. apply list_elem_of_fmap. by exists (tc, Runnable). }
    injection Heq as Hid Hn. unfold tool_message in Hshown. rewrite Hid, Hn in *. by exists tc0, output, ext.
  - destruct a as [[[[k tc] tool] always]|]; exists answers, (length pf); split_and!; try done.
    destruct Ha as (-> & tc0 & Hlook & Hdec). pose proof (decide_call_spec d tc0) as Hd. rewrite Hdec in Hd. destruct Hd as [Hid Hn].
    exists tc0. split_and!; [done|by exists tc, tool, always|done|done|done|]. unfold pending_for. cbn [deferred_tool_calls Nat.add].
    by rewrite take_drop_middle.
Qed.

(** Finishing order does not matter: however the parallel calls of a round are joined, the results handed to
    the model are the same. *)
Theorem parallel_order_irrelevant joined joined' slots d :
  joined ≡ₚ joined' → NoDup ((fun x => x.1.1) <$> joined) →
  (join_all cd joined slots d).1 = (join_all cd joined' slots d).1.
Proof.
  intros Hperm. rewrite !join_all_slots. revert slots.
  induction Hperm as [|[[i tc] lost] l l' Hp IH|[[i tc] lost] [[j tc'] lost'] l|l l' l'' Hp IH Hp' IH']; intros slots Hnd;
    cbn [foldl fst snd fmap list_fmap] in *; [done| | |].
  - apply NoDup_cons in Hnd as [_ Hnd]. by apply IH.
  - f_equal. apply NoDup_cons in Hnd as [Hni _].
    assert (i ≠ j) as Hij by (intros ->; apply Hni; by apply elem_of_cons; left).
    destruct lost, lost'; [done..|]. by rewrite list_insert_insert_ne.
  - rewrite IH by done. apply IH'. by rewrite <-Hp.
Qed.

(** *** Sensitive parameters *)

Lemma json_get_cons key a x (l : Map) :
  json_get key (JObject ((a, x) :: l)) = if decide (a = key) then Some x else json_get key (JObject l).
Proof. cbn. case_decide; [done|]. by destruct (list_find _ l) as [[? ?]|]. Qed.

Lemma map_get_insert k v k' m : map_get k' (map_insert k v m) = if decide (k = k') then Some v else map_get k' m.
Proof.
  unfold map_get. induction m as [|[a x] m IH]; cbn [map_insert]; [apply json_get_cons|].
  destruct (String.compare k a) eqn:Hc; rewrite !json_get_cons; [|done|].
  - apply String.compare_eq_iff in Hc as ->. by case_decide.
  - rewrite IH. repeat case_decide; subst; [|done..].
    pose proof (String.compare_antisym k' k') as Hs. by rewrite Hc in Hs.
Qed.

Lemma restore_sensitive_get s orig obj key v :
  key ∈ s → json_get key orig = Some v → json_get key (restore_sensitive s orig (JObject obj)) = Some v.
Proof.
  intros Hin Hget. unfold restore_sensitive. change (json_get key (JObject ?m)) with (map_get key m).
  assert (∀ obj, key ∈ s ∨ map_get key obj = Some v → map_get key (foldl (fun obj key =>
    match json_get key orig with Some v => map_insert key v obj | None => obj end) obj s) = Some v) as Hfold; [|by apply Hfold; left].
  clear obj Hin. induction s as [|k s IH]; intros obj Hor; cbn [foldl].
  { by destruct Hor as [?%elem_of_nil|?]. }
  apply IH. destruct (decide (k = key)) as [->|Hne].
  - right. rewrite Hget, map_get_insert. by rewrite decide_True.
  - destruct Hor as [[->|?]%elem_of_cons|Ho]; [done|by left|right].
    destruct (json_get k orig); [|done]. rewrite map_get_insert. by rewrite decide_False.
Qed.

(** Hooks work on redacted arguments only: their verdict does not depend on the value of a sensitive parameter, and
    when they hand back an object every sensitive parameter has in it the value the model gave. *)
Theorem hooks_blind_to_secrets d s tc tc' :
  (tc_name tc = tc_name tc' → redact_params (tc_arguments tc) s = redact_params (tc_arguments tc') s →
   is_ok (hooked_arguments cd d s tc) = is_ok (hooked_arguments cd d s tc')) ∧
  (∀ args key v, hooked_arguments cd d s tc = Ok args → is_object args = true → key ∈ s →
     json_get key (tc_arguments tc) = Some v → json_get key args = Some v).
Proof.
  split.
  - intros Hn Hr. unfold hooked_arguments, tool_event. rewrite Hn, Hr. by repeat case_match.
  - intros args key v Hh Ho Hin Hget. unfold hooked_arguments in Hh.
    destruct (Hooks.run _ _ _ _ _ _) as [[[p|]|]|[]]; simplify_eq/=; try done.
    destruct (ce_from_str p) as [parsed|]; simplify_eq; [|done].
    destruct parsed; try done. by apply restore_sensitive_get.
Qed.

(** A token that is asked for in the same round hides a question: when one call waits for a token and a
    later one needs approval, the round ends with the instructions alone; the later call gets no answer, and no
    approval is left pending for it. *)
Theorem token_request_hides_question c1 c1' c2 c2' tool always rest content ctx d ext instructions :
  decide_call cd d c1 = Run c1' → decide_call cd d c2 = Ask c2' tool always →
  check_auth_required parse_value (tc_name c1') (execute_chat_tool cd (others (announced content (c1 :: c2 :: rest) d)) c1') =
    Some (ext, instructions) →
  let '(res, ctx', _) := chat_execute_tool_calls cd (c1 :: c2 :: rest) content ctx d in
  res = Ok (Some (Response instructions)) ∧
  ∃ answer, rc_messages ctx' = rc_messages ctx ++ [assistant_with_tool_calls content (c1 :: c2 :: rest); answer] ∧
            tool_call_id answer = Some (tc_id c1).
Proof.
  intros H1' H2' Ha. pose proof (decide_call_spec d c1) as Hd. rewrite H1' in Hd. destruct Hd as (_ & Hc1 & _).
  unfold chat_execute_tool_calls. rewrite (preflight_policy _ d) by apply announced_policy.
  cbn [preflight_from]. rewrite H1', H2'. cbn [length runnable_from execute_runnable replicate].
  unfold run_one. cbn [insert list_insert postflight tail head mjoin option_join].
  unfold finish_call, note_auth, id. cbn [default]. rewrite Ha. cbn.
  split; [done|]. eexists. rewrite <-app_assoc. split; [done|]. by rewrite Hc1.
Qed.
End rounds.

(** ** Properties of the loop *)

Section loop.
  Context {J P : Type} `{LlmProvider P} `{!ChatEnv J} `{RegexEngine} `{MultiMatcher}.
  Implicit Types (d : ChatState J P) (ctx : ReasoningContext).

(** *** The loop comes to an end of its own *)

Definition concludes (r : Result Error LoopOutcome) : Prop :=
  match r with Ok MaxIterations | Ok (Failure _) => False | _ => True end.

Lemma respond_forced ctx d : force_text ctx = true →
  match (respond_call ctx d).1 with Ok out => ∃ t, ro_result out = RText t | Err _ => True end.
Proof.
  intros Hf. unfold respond_call, respond_with_tools, effective_tools. rewrite Hf. unfold run_llm.
  destruct (complete _ _ _) as [[[rs|e] p] w]; [|exact I]. cbn [fst map_ok]. unfold text_output. case_match; by eexists.
Qed.

Lemma retry_keeps_force ctx : force_text (retry_context ctx) = force_text ctx.
Proof. unfold retry_context. by case_match. Qed.

Lemma override_keeps_force (cd : ChatDelegate J) i ctx : force_text (apply_override cd i ctx) = force_text ctx.
Proof. unfold apply_override. by repeat case_match. Qed.

Variable cd : ChatDelegate J.

Lemma call_forced ctx i d : force_text ctx = true →
  let '(res, ctx', _) := chat_call_llm cd tt ctx i d in
  force_text ctx' = true ∧ match res with Ok out => ∃ t, ro_result out = RText t | Err _ => True end.
Proof.
  intros Hf. unfold chat_call_llm. destruct (read_clock d) as [[t today] d0].
  destruct (check_cost_allowed _ _ _ _ _) as [[[]|] g]; [|done].
  assert (force_text (apply_override cd i ctx) = true) as Hf' by (by rewrite override_keeps_force).
  pose proof (respond_forced _ (with_guard g d0) Hf') as Hr. destruct (respond_call _ _) as [[out|e] d1]; [done|].
  destruct e; try done. assert (force_text (retry_context (apply_override cd i ctx)) = true) as Hf'' by (by rewrite retry_keeps_force).
  pose proof (respond_forced _ d1 Hf'') as Hr2. by destruct (respond_call _ d1) as [[out|e] d2].
Qed.

Abbreviation from config := (loop_from (H := chat_delegate cd) ce_lower tt config).

Lemma react_concludes config next i nudges t out ctx d :
  (∀ nudges t ctx d, concludes (next nudges t ctx d).1.1) →
  concludes (react (H := chat_delegate cd) ce_lower config next i nudges t out ctx d).1.1.
Proof.
  intros Hnext. unfold react. destruct (ro_result out) as [text|calls content].
  - destruct (should_nudge _ _ _ _ _); [apply Hnext|exact I].
  - destruct (FinishReason_is_length _); [apply Hnext|]. cbn [execute_tool_calls chat_delegate].
    unfold chat_execute_tool_calls. destruct (preflight_from _ _ _ _) as [pf a]. destruct (execute_runnable _ _ _ _) as [slots d1].
    destruct (postflight _ _ _ _ _ _) as [[[auth|] ctx2] d2]; [exact I|]. destruct a as [[[[k tc] tool] always]|]; [exact I|apply Hnext].
Qed.

Lemma forced_concludes config next i nudges t ctx d :
  (cd_force_text_at cd ≤ i)%nat →
  concludes (iteration_body (H := chat_delegate cd) ce_lower tt config next i nudges t ctx d).1.1.
Proof.
  intros Hi. unfold iteration_body. cbn [before_llm_call chat_delegate]. unfold chat_before_llm_call. cbv zeta.
  rewrite (proj2 (Nat.leb_le _ _) Hi), orb_true_l. set (ctx1 := set_prompt _ true _). cbn [call_llm chat_delegate].
  pose proof (call_forced ctx1 i (send_status (Thinking (cat ["Thinking (step "; show_nat i; ")..."])) d) eq_refl) as Hc.
  destruct (chat_call_llm cd tt ctx1 i _) as [[[out|e] ctx2] d2]; [|done]. destruct Hc as [Hf (text & Ht)].
  unfold react. rewrite Ht. unfold should_nudge. rewrite Hf, !andb_false_r. exact I.
Qed.

Lemma loop_concludes config n i nudges t ctx d :
  (1 ≤ n)%nat → (cd_force_text_at cd < i + n)%nat → concludes (from config n i nudges t ctx d).1.1.
Proof.
  revert i nudges t ctx d. induction n as [|n IH]; intros i nudges t ctx d Hn Hi; [lia|]. cbn [loop_from].
  cbn [check_signals chat_delegate]. destruct (chat_check_signals cd d) as [sig d1].
  assert (∀ ctx, concludes (iteration_body (H := chat_delegate cd) ce_lower tt config (from config n (S i)) i nudges t ctx d1).1.1) as Hbody.
  { intros ctx'. destruct (decide (cd_force_text_at cd ≤ i)%nat); [by apply forced_concludes|].
    unfold iteration_body. cbn [before_llm_call call_llm chat_delegate]. destruct (chat_before_llm_call _ _ _ _) as [[early ctx1] d2] eqn:Hb.
    assert (early = None) as -> by (unfold chat_before_llm_call in Hb; congruence).
    destruct (chat_call_llm cd tt ctx1 i d2) as [[[out|e] ctx2] d3]; [|exact I]. apply react_concludes. intros. apply IH; lia. }
  destruct sig; [apply Hbody|done|apply Hbody].
Qed.

(** *** The setting that is never read *)

(** The delegate with another answer of the settings store. *)
Definition with_setting (r : Result string (option Json)) : ChatDelegate J :=
  mkChat (cd_safety cd) (cd_auto_approve_tools cd) (cd_llm_backend cd) (cd_tenant cd) (Some r) (cd_thread_id cd)
    (cd_message cd) (cd_job_ctx cd) (cd_active_skills cd) (cd_cached_prompt cd) (cd_cached_prompt_no_tools cd)
    (cd_nudge_at cd) (cd_force_text_at cd) (cd_user_tz cd).

Lemma call_ignores_setting r r' ctx i d :
  i ≠ O → chat_call_llm (with_setting r) tt ctx i d = chat_call_llm (with_setting r') tt ctx i d.
Proof.
  intros Hi. unfold chat_call_llm, apply_override. by rewrite (proj2 (Nat.eqb_neq i 0) Hi).
Qed.

Lemma loop_ignores_setting config r r' n i nudges t ctx d :
  i ≠ O →
  loop_from (H := chat_delegate (with_setting r)) ce_lower tt config n i nudges t ctx d =
  loop_from (H := chat_delegate (with_setting r')) ce_lower tt config n i nudges t ctx d.
Proof.
  revert i nudges t ctx d. induction n as [|n IH]; intros i nudges t ctx d Hi; [done|]. cbn [loop_from].
  change (check_signals (LoopDelegate := chat_delegate (with_setting r')) d) with
    (check_signals (LoopDelegate := chat_delegate (with_setting r)) d).
  destruct (check_signals d) as [sig d1].
  assert (∀ ctx, iteration_body (H := chat_delegate (with_setting r)) ce_lower tt config
      (loop_from (H := chat_delegate (with_setting r)) ce_lower tt config n (S i)) i nudges t ctx d1 =
    iteration_body (H := chat_delegate (with_setting r')) ce_lower tt config
      (loop_from (H := chat_delegate (with_setting r')) ce_lower tt config n (S i)) i nudges t ctx d1) as Hbody.
  { intros ctx'. unfold iteration_body. cbn [before_llm_call call_llm chat_delegate].
    change (chat_before_llm_call (with_setting r') ctx' i d1) with (chat_before_llm_call (with_setting r) ctx' i d1).
    destruct (chat_before_llm_call (with_setting r) ctx' i d1) as [[[o|] ctx1] d2]; [done|].
    rewrite (call_ignores_setting r r') by done. destruct (chat_call_llm _ tt ctx1 i d2) as [[[out|e] ctx2] d3]; [|done].
    unfold react. destruct (ro_result out) as [text|calls content].
    - destruct (should_nudge _ _ _ _ _); [by apply IH|done].
    - destruct (FinishReason_is_length _); [by apply IH|]. cbn [execute_tool_calls after_iteration chat_delegate].
      change (chat_execute_tool_calls (with_setting r') calls content ctx2 d3) with
        (chat_execute_tool_calls (with_setting r) calls content ctx2 d3).
      destruct (chat_execute_tool_calls _ _ _ _ _) as [[[[o|]|e] ctx3] d4]; [done|by apply IH|done]. }
  destruct sig; [apply Hbody|done|apply Hbody].
Qed.

(** *** The calls of the loop and the cost guard *)

Lemma read_clock_shared d t day d' : read_clock d = (t, day, d') → cs_shared d' = cs_shared d.
Proof. unfold read_clock, now. by intros [= <- <- <-]. Qed.

Lemma record_output_guard ctx out d :
  ∃ c day t day', sh_guard (cs_shared (record_output cd ctx out d)) =
    (tenant_record_llm_call ce_lower day t day' c (cd_tenant cd) (sh_guard (cs_shared d))).2.
Proof.
  unfold record_output. destruct (effective_model_name _ _) as [nm p].
  destruct (read_clock _) as [[t day] d1] eqn:Hr1. destruct (read_clock d1) as [[t' day'] d2] eqn:Hr2.
  apply read_clock_shared in Hr1, Hr2. change (cs_shared (with_engine _ _ d)) with (cs_shared d) in Hr1. rewrite Hr2, Hr1. exists (llm_usage ctx out nm p), day, t, day'.
  destruct (tenant_record_llm_call _ _ _ _ _ _ _) as [cost g]. by destruct (cd_selected_model cd).
Qed.

Lemma respond_call_guard ctx d res d' : respond_call ctx d = (res, d') → sh_guard (cs_shared d') = sh_guard (cs_shared d).
Proof. unfold respond_call. destruct (respond_with_tools _ _ _ _) as [[? ?] ?]. by intros [= <- <-]. Qed.

(** What a turn owes the guard when it was asked at [t]. *)
Definition guarded_as (t today : Z) (res : Result Error RespondOutput) d d' : Prop :=
  ∃ used day t' day',
    let turn := CostGuard.mkTurn t today used day t' day' in
    let '(verdict, g') := guarded_call ce_lower ce_origin (cd_tenant cd) turn (sh_guard (cs_shared d)) in
    sh_guard (cs_shared d') = g' ∧ (is_ok res = true ↔ is_ok verdict = true ∧ is_Some used) ∧
    (is_ok verdict = false → cs_reasoning d' = cs_reasoning d).

Lemma answered_as t today g ctx out d d1 :
  check_cost_allowed ce_origin t today (cd_tenant cd) (sh_guard (cs_shared d)) = (Ok tt, g) →
  sh_guard (cs_shared d1) = g → guarded_as t today (Ok out) d (record_output cd ctx out d1).
Proof.
  intros Hck Hg. destruct (record_output_guard ctx out d1) as (c & day & t' & day' & Hr). exists (Some c), day, t', day'.
  unfold guarded_call. cbn [tn_check_time tn_check_day tn_used tn_day tn_time tn_day']. rewrite Hck, Hr, Hg. naive_solver.
Qed.

Lemma failed_as t today g e d d1 :
  check_cost_allowed ce_origin t today (cd_tenant cd) (sh_guard (cs_shared d)) = (Ok tt, g) →
  sh_guard (cs_shared d1) = g → guarded_as t today (Err e) d d1.
Proof.
  intros Hck Hg. exists None, 0%Z, 0%Z, 0%Z. unfold guarded_call. cbn [tn_check_time tn_check_day tn_used]. rewrite Hck.
  split; [done|]. split; [|done]. cbn. split; [done|]. by intros [_ [? ?]].
Qed.

(** A model call is a guarded call of the cost guard: the guard is asked first and left as [guarded_call] leaves
    it, only an answer is charged, and when the guard refuses the provider is not reached. *)
Theorem model_calls_guarded ctx i d :
  let '(res, _, d') := chat_call_llm cd tt ctx i d in
  guarded_as (w_clock (cs_world d) (w_ticks (cs_world d))) (ce_date (w_ticks (cs_world d))) res d d'.
Proof.
  unfold chat_call_llm. destruct (read_clock d) as [[t today] d0] eqn:Hrc.
  pose proof (read_clock_shared _ _ _ _ Hrc) as Hsh. unfold read_clock, now in Hrc. injection Hrc as Ht Htoday Hd0. rewrite Ht, Htoday, Hsh.
  destruct (check_cost_allowed ce_origin t today (cd_tenant cd) (sh_guard (cs_shared d))) as [[[]|limit] g] eqn:Hck.
  - destruct (respond_call _ (with_guard g d0)) as [res d1] eqn:Hr1. apply respond_call_guard in Hr1. cbn in Hr1.
    destruct res as [out|e]; [by eapply answered_as|]. destruct e; try (by eapply failed_as).
    destruct (respond_call _ d1) as [res d2] eqn:Hr2. apply respond_call_guard in Hr2. rewrite Hr1 in Hr2.
    destruct res as [out|e]; [by eapply answered_as|by eapply failed_as].
  - exists None, 0%Z, 0%Z, 0%Z. unfold guarded_call. cbn [tn_check_time tn_check_day tn_used]. rewrite Hck.
    split; [done|]. split; [naive_solver|]. intros _. by subst d0.
Qed.
End loop.

(** ** Turns *)

Section turns.
  Context {P : Type} `{LlmProvider P} `{!ChatEnv JobContext} `{RegexEngine} `{MultiMatcher}.
  Variable safety : SafetyLayer.
  Variable config : TurnConfig.

(** C23. A chat turn always comes to a conclusion of its own: with an answer, a question to the user, an interruption or an
    error, never by running out of iterations; the last iterations offer no tools, so the
    model has to answer in text. *)
Theorem chat_turn_concludes ti tenant tid initial (p : P) w sh tick :
  concludes (chat_outcome safety config ti tenant tid initial p w sh tick).1.1.
Proof. unfold chat_outcome, run_agentic_loop. cbv zeta. apply loop_concludes; cbn; lia. Qed.

(** The same input with another answer of the settings store. *)
Definition with_selected_model (r : Result string (option Json)) (ti : TurnInput) : TurnInput :=
  mkTurnInput (ti_message ti) (ti_system_prompt ti) (ti_active_skills ti) (ti_conversation ti) (Some r) (ti_user_tz ti)
    (ti_interceptor ti) (ti_job_id ti) (ti_job_created_at ti) (ti_stash ti).

(** The model a user selects in the settings is never used: a turn is the same, call by call, whatever the store
    answers for it, because the override is applied in iteration 0 and the loop starts with 1. *)
Theorem selected_model_ignored ti r r' tenant tid initial (p : P) w sh tick :
  run_chat_loop safety config (with_selected_model r ti) tenant tid initial p w sh tick =
  run_chat_loop safety config (with_selected_model r' ti) tenant tid initial p w sh tick.
Proof.
  unfold run_chat_loop, chat_outcome, run_agentic_loop. cbv zeta.
  set (cd := turn_delegate safety config (with_selected_model r ti) tenant tid (turn_reasoning (with_selected_model r ti) p)
    (turn_tools (with_selected_model r ti) sh)).
  change (turn_delegate safety config (with_selected_model r' ti) tenant tid (turn_reasoning (with_selected_model r' ti) p)
    (turn_tools (with_selected_model r' ti) sh)) with (with_setting cd r').
  change cd with (with_setting cd r) at 1. by rewrite (loop_ignores_setting cd (turn_loop_config config) r r').
Qed.
End turns.

(** ** Examples *)

Module Demo.
#[local] Instance provider : LlmProvider unit := {|
  model_name := fun _ => "demo";
  cost_per_token := fun _ => (0, 0)%Z;
  complete := fun _ p w => (Err (EmptyResponse "demo"), p, w);
  complete_with_tools := fun _ p w => (Err (EmptyResponse "demo"), p, w);
  list_models := fun p w => (Ok [], p, w);
  model_metadata := fun p w => (default_model_metadata "demo", p, w);
  effective_model_name := fun rq p => (default_effective_model_name rq "demo", p);
  active_model_name := fun _ => "demo";
  set_model := fun _ p => (default_set_model, p);
  calculate_cost := fun i o _ => default_calculate_cost (0, 0)%Z i o;
  cache_write_multiplier := fun _ => dec_one;
  cache_read_discount := fun _ => dec_one
|}.

#[local] Instance engine : RegexEngine :=
  {| regex_valid := fun _ => true; is_match := fun _ _ => false; find_iter := fun _ _ => []; capture1 := fun _ _ => None |}.
#[local] Instance matcher : MultiMatcher := {| ac_find_iter := fun _ _ _ => [] |}.

(** The text of the demonstration tool is the one document the parser knows. *)
Definition waiting : Json := JObject [("awaiting_token", JBool true); ("name", JString "mail")].

#[local] Instance env : ChatEnv unit := {|
  ce_lower := id; ce_origin := 0%Z;
  ce_from_str := fun s => if (s =? "W")%string then Ok waiting else Err "?";
  ce_to_string := fun _ => "{}"; ce_pretty := fun _ => Ok "W"; ce_print_f64 := fun _ => "0"; ce_duration := fun _ => "1s";
  ce_hook_elapsed := fun _ _ => false; ce_hook_error := fun _ => "e"; ce_values := fun m => snd <$> map_to_list m;
  ce_date := fun _ => 0%Z; ce_uuid := N.of_nat; ce_others := fun _ s => s;
  ce_join := fun _ l => (fun x => (x, false)) <$> rev l
|}.

Definition tool (nm : string) (r : ApprovalRequirement) : ToolExec.Tool (ToolCtx unit) :=
  mkTool nm "d" (JObject []) (JObject []) false (fun v _ => Some (Ok v)) (fun _ => r) 60 Orchestrator [].

Definition tools : ToolRegistry (ToolCtx unit) :=
  register_sync true true (tool "tool_auth" Never)
    (register_sync true true (tool "echo" Never) (register_sync true true (tool "shell" Always) ToolExec.registry_new)).

Definition thread : Thread := start_turn (frozen 0) "hi" (with_id 0 1 2).

Definition chat_state : ChatState unit unit :=
  mkChatState
    (mkShared (session_with (session_new 0 2 "u") (Some 1%N) {[ 1%N := thread ]} 0) tools Hooks.registry_new
       (guard_new (mkGuardConfig None None None) 0))
    (reasoning_new tt) (mkWorld (fun _ => 0%Z) 0 (fun _ => 0%Z) 0 []) ∅ [] [] [] 0.

Definition message : IncomingMessage := mkIncoming 1 "web" "u" "u" "u" None "hi" None None 0 JNull None [] false.

Definition chat : ChatDelegate unit :=
  mkChat (safety_new (mkSafetyConfig 1000 false)) false "demo" (mkTenant "u") None 1 message tt [] "" "" 9 10 "UTC".

Definition call (id nm : string) : ToolCall := mkToolCall id nm (JObject []) None.

Lemma joins : joins_all (J := unit).
Proof. intros n l. cbn. rewrite <-list_fmap_compose, list_fmap_id. symmetry. apply Permutation_rev. Qed.


(** With the two free tools both run, in the order in which they were joined. *)
Lemma parallel_round :
  cs_executed (chat_execute_tool_calls chat [call "a" "echo"; call "b" "tool_auth"] None context_new chat_state).2 =
  [call "b" "tool_auth"; call "a" "echo"].
Proof. vm_compute. reflexivity. Qed.

Lemma parallel_order_irrelevant_witness :
  (join_all chat [(0, call "a" "echo", false); (1, call "b" "shell", true)]%nat [None; None] chat_state).1 =
  (join_all chat [(1, call "b" "shell", true); (0, call "a" "echo", false)]%nat [None; None] chat_state).1.
Proof.
  apply (parallel_order_irrelevant chat); [apply perm_swap|].
  apply (bool_decide_unpack _). vm_compute. exact I.
Defined.

Lemma token_request_hides_question_witness :
  let '(res, ctx', _) :=
    chat_execute_tool_calls chat [call "a" "tool_auth"; call "b" "shell"] None context_new chat_state in
  res = Ok (Some (Response "Please provide your API token/key.")) ∧
  ∃ answer, rc_messages ctx' = [assistant_with_tool_calls None [call "a" "tool_auth"; call "b" "shell"]; answer] ∧
            tool_call_id answer = Some "a".
Proof.
  exact (token_request_hides_question chat (call "a" "tool_auth") (call "a" "tool_auth") (call "b" "shell") (call "b" "shell")
    (tool "shell" Always) false [] None context_new chat_state "mail" "Please provide your API token/key."
    eq_refl eq_refl eq_refl).
Defined.

(** What the next turn shows of the call that was never asked for and never ran: a success. *)
Lemma hidden_question_reads_ok :
  let d' := (chat_execute_tool_calls chat [call "a" "tool_auth"; call "b" "shell"] None context_new chat_state).2 in
  (fun th => (pending_approval th, last (messages (fun _ => "{}") th))) <$> threads (session_of d') !! 1%N =
  Some (None, Some (tool_result (generate_tool_call_id 0 1) "shell" "OK")).
Proof. vm_compute. reflexivity. Qed.
End Demo.
