(* ===== verification/UserTurn.v ===== *)
(** * UserTurn: a message, an approval or a token enters a thread

    The handlers of [src/agent/thread_ops.rs] that run the chat loop: [process_user_input] with its screening, queue,
    compaction, checkpoint, turn and persistence, [process_approval] with the replay of the deferred calls,
    [handle_auth_intercept], [process_auth_token], [process_compact].  They compose the sessions, the
    safety layer, the compactor, the undo manager, the history, the hooks and the dispatcher.

    What a turn loads (prompt, skills, settings) and the extension manager are fields of [TurnEnv].  An
    explicit command is handed to the command handlers, which are not modelled: it is the outcome [Routed]. *)

From Stdlib Require Import SpecFloat.
From stdpp Require Import pretty.
From S2P Require Import Prelude Text TextSearch F64 Costs CostGuard JobState Hooks Skills Provider Session Undo.
From S2P Require Import ReplyText Prompts Reasoning ContextMonitor Compaction AgenticLoop LeakDetector Sanitizer Validator SafetyLayer.
From S2P Require Import ToolParams Redaction ToolExec SessionManager History Submission ThreadOps Messages ChatText Dispatcher.

(** [{:.0}] of a number that is not negative. *)
Definition fmt_units (x : f64) : string :=
  match x with
  | S754_finite _ m e => pretty (if (0 <=? e)%Z then Zpos m * 2 ^ e else round_half_even (Zpos m) (2 ^ (- e)))%Z
  | S754_zero _ => "0"
  | S754_infinity _ => "inf"
  | S754_nan => "NaN"
  end.

(** The answers of [configure_token]. *)
Record ConfigureResult : Type := mkConfigured { activated : bool; configure_message : string }.

Inductive ExtensionError : Type :=
| ValidationFailed (text : string)
| OtherExtensionError (text : string).

Definition extension_error_text (e : ExtensionError) : string :=
  match e with ValidationFailed s | OtherExtensionError s => s end.

Class TurnEnv `{Decimal} := {
  te_load : nat -> IncomingMessage -> TurnInput;
  te_timezone_valid : string -> bool;
  te_b64 : string -> string;
  te_prefix : string;
  te_date : string;
  te_time : string;
  te_money : dec -> string;
  te_uuid_text : Uuid -> string;
  te_error_text : Error -> string;
  (** [None] without an extension manager *)
  te_configure : option (string -> string -> string -> Result ExtensionError ConfigureResult)
}.

Record AgentState `{Decimal} (P D W : Type) : Type := mkAgentState {
  ag_chat : ChatState JobContext P;
  ag_undo : gmap Uuid UndoManager;
  ag_db : option D;
  ag_ws : option W
}.
Arguments mkAgentState {_ P D W}.
Arguments ag_chat {_ P D W}.
Arguments ag_undo {_ P D W}.
Arguments ag_db {_ P D W}.
Arguments ag_ws {_ P D W}.

(** How a handler ends: with a result for the user, a missing thread, or a command for the command handlers. *)
Inductive UserOutcome : Type :=
| Answered (r : SubmissionResult)
| Missing (tid : Uuid)
| Routed (intent : MessageIntent).

Section turns.
  Context {P D EW W : Type} `{LlmProvider P} `{!ChatEnv JobContext} `{!TurnEnv} `{HistoryEnv} `{Database D}.
  Context `{Workspace EW W} `{RegexEngine} `{MultiMatcher}.
  Variable safety : SafetyLayer.
  Variable config : TurnConfig.
  Variable monitor : ContextMonitor.
  Implicit Types (a : AgentState P D W) (m : IncomingMessage) (tid : Uuid).

(** *** Access to the state *)

Definition with_chat (c : ChatState JobContext P) a : AgentState P D W := mkAgentState c (ag_undo a) (ag_db a) (ag_ws a).
Definition with_undo (u : gmap Uuid UndoManager) a : AgentState P D W := mkAgentState (ag_chat a) u (ag_db a) (ag_ws a).
Definition with_db (d : option D) a : AgentState P D W := mkAgentState (ag_chat a) (ag_undo a) d (ag_ws a).
Definition with_ws (w : option W) a : AgentState P D W := mkAgentState (ag_chat a) (ag_undo a) (ag_db a) w.
Definition tell (u : StatusUpdate) a : AgentState P D W := with_chat (send_status u (ag_chat a)) a.
Definition ag_session a : Session := session_of (ag_chat a).
Definition ag_thread tid a : option Thread := threads (ag_session a) !! tid.
Definition edit_thread tid (f : Thread -> Thread) a : AgentState P D W :=
  with_chat (with_session (on_thread tid f (ag_session a)) (ag_chat a)) a.
Definition ag_others a : AgentState P D W := with_chat (others (ag_chat a)) a.

(** Two readings of the clock, as the operations on a thread take them. *)
Definition ag_clock a : Clock * AgentState P D W :=
  let '(t0, _, c) := read_clock (ag_chat a) in
  let '(t1, _, c) := read_clock c in
  (fun i => if (i =? 0)%nat then t0 else t1, with_chat c a).

(** *** Screening *)

(** Validation, policy and the scan for secrets; the message that refuses the input. *)
Definition screen_input (content : string) : option string :=
  let validation := validate_input ce_lower safety content in
  if negb (is_valid validation) then Some ("Input rejected by safety validation: " +:+ validation_details validation)
  else if existsb (has_action PolicyBlock) (check_policy safety content) then
    Some "Input rejected by safety policy."
  else scan_inbound_for_secrets safety content.

(** What the state of a thread makes of a new input: an answer at once, or [None] to go on.  Between the
    snapshot and the second look at a busy thread other tasks can act. *)
Definition QUEUED : string := "Message queued — will be processed after the current turn.".
Definition NO_ATTACHMENTS : string :=
  "Cannot queue messages with attachments while a turn is processing. Please resend after the current turn completes.".
Definition QUEUE_FULL : string :=
  cat ["Message queue full ("; show_nat MAX_PENDING_MESSAGES; "). Wait for the current turn to complete."].

Definition queue_input m tid (content : string) a : option SubmissionResult * AgentState P D W :=
  let a := ag_others a in
  match ag_thread tid a with
  | None => (Some (submission_error "Thread no longer exists."), a)
  | Some th =>
      if decide (thread_state th = ThreadState.Processing) then
        match im_attachments m with
        | _ :: _ => (Some (submission_error NO_ATTACHMENTS), a)
        | [] =>
            match screen_input content with
            | Some refusal => (Some (submission_error refusal), a)
            | None =>
                let '(clk, a) := ag_clock a in
                let '(th, queued) := queue_message (clk 0) content th in
                if queued then (Some (SubmissionOk (Some QUEUED)), edit_thread tid (fun _ => th) a)
                else (Some (submission_error QUEUE_FULL), a)
            end
        end
      else (None, a)
  end.

Definition waiting_message (th : Thread) : string :=
  match pending_approval th with
  | Some p => cat ["Waiting for approval: "; pa_tool_name p; " — "; Messages.truncate_for_preview (pa_description p) 80;
                   ". Use /interrupt to cancel."]
  | None => "Waiting for approval. Use /interrupt to cancel."
  end.

Definition admit_input m tid (content : string) (th : Thread) a : option SubmissionResult * AgentState P D W :=
  match thread_state th with
  | ThreadState.Processing => queue_input m tid content a
  | ThreadState.AwaitingApproval => (Some (pending (waiting_message th)), a)
  | ThreadState.Completed => (Some (submission_error "Thread completed. Use /thread new."), a)
  | ThreadState.Idle | ThreadState.Interrupted => (None, a)
  end.

(** *** Before the turn *)

Definition auto_compact tid (th : Thread) a : AgentState P D W :=
  let ms := messages json_to_string th in
  match suggest_compaction monitor ms with
  | None => a
  | Some strategy =>
      let a := tell (Status (cat ["Context at "; fmt_units (usage_percent monitor ms); "% capacity, compacting..."])) a in
      let c := ag_chat a in
      let '(_, th, ws, p, w) :=
        compact json_to_string te_date te_time th strategy (ag_ws a) (llm (cs_reasoning c)) (cs_world c) in
      with_ws ws (edit_thread tid (fun _ => th) (with_chat (with_engine (set_llm p (cs_reasoning c)) w c) a))
  end.

Definition fresh_uuid a : Uuid * AgentState P D W :=
  let c := ag_chat a in
  (ce_uuid (cs_tick c), with_chat (mkChatState (cs_shared c) (cs_reasoning c) (cs_world c) (cs_stash c) (cs_status c)
     (cs_records c) (cs_executed c) (S (cs_tick c))) a).

Definition take_checkpoint tid (th : Thread) a : AgentState P D W :=
  let '(mgr, mgrs) := get_undo_manager tid (ag_undo a) in
  let '(cp, a) := fresh_uuid a in
  let n := display_turn_number th in
  with_undo (<[tid := checkpoint cp n (messages json_to_string th) ("Before turn " +:+ pretty n) mgr]> mgrs) a.

Definition effective_input m (content : string) : string * list ContentPart :=
  match augment_with_attachments te_b64 content (im_attachments m) with
  | Some r => (aug_text r, image_parts r)
  | None => (content, [])
  end.

Definition set_images (parts : list ContentPart) (t : Session.Turn) : Session.Turn :=
  Session.mkTurn (turn_number t) (user_input t) (response t) (turn_tool_calls t) (turn_state t) (turn_started_at t)
    (turn_completed_at t) (turn_error t) (narrative t) parts.

Definition begin_turn m tid (content : string) a : AgentState P D W :=
  let '(text, images) := effective_input m content in
  let '(clk, a) := ag_clock a in
  let a := edit_thread tid (fun th =>
    let th := start_turn clk text th in
    thread_with th (thread_state th) (update_last (set_images images) (turns th)) (updated_at th) (pending_approval th)
      (pending_auth th) (pending_messages th)) a in
  tell (Thinking "Processing...")
    (with_db (persist_user_message tid (im_channel m) (im_user_id m) text (ag_db a)) a).

(** *** The loop *)

Definition for_message m (ti : TurnInput) : TurnInput :=
  mkTurnInput m (ti_system_prompt ti) (ti_active_skills ti) (ti_conversation ti) (ti_selected_model ti) (ti_user_tz ti)
    (ti_interceptor ti) (ti_job_id ti) (ti_job_created_at ti) (ti_stash ti).

(** The logs of a loop after those of its caller. *)
Definition after_loop (c d : ChatState JobContext P) : ChatState JobContext P :=
  mkChatState (cs_shared d) (cs_reasoning d) (cs_world d) (cs_stash c) (cs_status c ++ cs_status d)
    (cs_records c ++ cs_records d) (cs_executed c ++ cs_executed d) (cs_tick d).

Definition run_loop m (tenant : TenantCtx) tid (ms : list ChatMessage) a : Result Error AgenticLoopResult * AgentState P D W :=
  let c := ag_chat a in
  let '(res, _, d) :=
    run_chat_loop safety config (for_message m (te_load (cs_tick c) m)) tenant tid ms (llm (cs_reasoning c)) (cs_world c)
      (cs_shared c) (cs_tick c) in
  (res, with_chat (after_loop c d) a).

(** *** The end of the turn *)

Definition transform_response m tid (response : string) a : string :=
  match Hooks.run ce_from_str ce_to_string ce_hook_elapsed ce_hook_error (sh_hooks (cs_shared (ag_chat a)))
          (ResponseTransform (im_user_id m) (te_uuid_text tid) response) with
  | Err (Rejected reason) => cat ["[Response filtered: "; reason; "]"]
  | Err err => cat ["[Response blocked by hook policy: "; ce_hook_error err; "]"]
  | Ok (Hooks.Continue (Some new_response)) => new_response
  | Ok _ => response
  end.

Definition end_turn tid (response : string) a : AgentState P D W :=
  let '(clk, a) := ag_clock a in edit_thread tid (complete_turn clk response) a.

(** The calls of the turn, then the answer. *)
Definition persist_answer m tid (response : string) a : AgentState P D W :=
  let '(n, calls, narr) :=
    match ag_thread tid a ≫= last_turn with
    | Some t => (turn_number t, turn_tool_calls t, narrative t)
    | None => (0%nat, [], None)
    end in
  with_db (persist_assistant_response tid (im_channel m) (im_user_id m) response
             (persist_tool_calls tid (im_channel m) (im_user_id m) n calls narr (ag_db a))) a.

Definition offer_suggestions (suggestions : list string) a : AgentState P D W :=
  match suggestions with [] => a | _ => tell (Suggestions suggestions) a end.

(** The totals of all models since the start, in the order of the map. *)
Definition turn_cost a : StatusUpdate :=
  let '(i, o, cost) :=
    foldl (fun '(i, o, cost) mt => (wrap64 (i + mt_input_tokens mt), wrap64 (o + mt_output_tokens mt), dec_add cost (mt_cost mt)))
      (0%Z, 0%Z, dec_zero) ((map_to_list (model_usage (sh_guard (cs_shared (ag_chat a))))).*2) in
  TurnCost i o ("$" +:+ te_money cost).

Definition ask_user tid (p : PendingApproval) a : SubmissionResult * AgentState P D W :=
  let '(clk, a) := ag_clock a in
  let a := edit_thread tid (await_approval (clk 0)  p) a in
  (NeedApproval (request_id p) (pa_tool_name p) (pa_description p) (display_parameters p) (allow_always p),
   tell (ApprovalNeeded (te_uuid_text (request_id p)) (pa_tool_name p) (pa_description p) (display_parameters p) (allow_always p)) a).

Definition abandon_turn tid (e : Error) a : SubmissionResult * AgentState P D W :=
  let '(clk, a) := ag_clock a in
  (submission_error (te_error_text e), edit_thread tid (fail_turn clk (te_error_text e)) a).

Definition conclude_input m tid (result : Result Error AgenticLoopResult) a : SubmissionResult * AgentState P D W :=
  match result with
  | Ok (LoopResponse text) =>
      let '(text, suggestions) := extract_suggestions parse_value text in
      let text := transform_response m tid text a in
      let a := persist_answer m tid text (tell (Status "Done") (end_turn tid text a)) in
      let a := offer_suggestions suggestions a in
      (Response text, tell (turn_cost a) a)
  | Ok (LoopNeedApproval p) => ask_user tid p a
  | Err e => abandon_turn tid e a
  end.

(** ** A message of the user *)

Definition run_turn m (tenant : TenantCtx) tid (content : string) (th : Thread) a : UserOutcome * AgentState P D W :=
  let a := auto_compact tid th a in
  match ag_thread tid a with
  | None => (Missing tid, a)
  | Some th =>
      let a := begin_turn m tid content (take_checkpoint tid th a) in
      match ag_thread tid a with
      | None => (Missing tid, a)
      | Some th =>
          let '(result, a) := run_loop m tenant tid (messages json_to_string th) a in
          match ag_thread tid a with
          | None => (Missing tid, a)
          | Some th =>
              if decide (thread_state th = ThreadState.Interrupted)
              then (Answered SubmissionInterrupted, tell (Status "Interrupted") a)
              else let '(r, a) := conclude_input m tid result a in (Answered r, a)
          end
      end
  end.

Definition process_user_input m (tenant : TenantCtx) tid (content : string) a : UserOutcome * AgentState P D W :=
  match ag_thread tid a with
  | None => (Missing tid, a)
  | Some th =>
      let '(early, a) := admit_input m tid content th a in
      match early with
      | Some r => (Answered r, a)
      | None =>
          match screen_input content with
          | Some refusal => (Answered (submission_error refusal), a)
          | None =>
              match route_command ce_lower te_prefix (with_content content m) with
              | Some intent => (Routed intent, a)
              | None =>
                  match ag_thread tid a with
                  | None => (Missing tid, a)
                  | Some th => run_turn m tenant tid content th a
                  end
              end
          end
      end
  end.

(** ** An approval *)

(** A valid time zone of this message, else the one the question was asked under. *)
Definition approval_timezone m (p : PendingApproval) : string :=
  default "UTC" (first_some (im_timezone m ≫= fun tz => if te_timezone_valid tz then Some tz else None) (pa_user_timezone p)).

(** The fields that a tool call needs. *)
Definition approval_delegate m tid (p : PendingApproval) a : ChatDelegate JobContext :=
  let ti := for_message m (te_load (cs_tick (ag_chat a)) m) in
  let tz := approval_timezone m p in
  mkChat safety (auto_approve_tools config) (llm_backend config) (mkTenant (im_user_id m)) None tid m
    (with_timezone (chat_job_context ti) tz) [] "" "" 0 0 tz.

Definition pending_call (p : PendingApproval) : ToolCall := mkToolCall (pa_tool_call_id p) (pa_tool_name p) (pa_parameters p) None.

Definition preview_output (tc : ToolCall) (result : Result ToolError string) a : AgentState P D W :=
  match result with
  | Ok output => if str_is_empty output then a else tell (ToolResult (tc_name tc) output) a
  | Err _ => a
  end.

(** The sanitized result goes to the thread; it is also the message for the model. *)
Definition record_outcome (cd : ChatDelegate JobContext) (tc : ToolCall) (result : Result ToolError string) a
    : ChatMessage * AgentState P D W :=
  let '(content, msg) := tool_message cd tc (displayed result) in
  (msg, with_chat (record_result cd tc (negb (is_ok result)) content (ag_chat a)) a).

Definition handle_auth_intercept m tid (result : Result ToolError string) (ext_name instructions : string) a : AgentState P D W :=
  let auth_data := parse_auth_result parse_value result in
  let a :=
    match ag_thread tid a with
    | None => a
    | Some _ =>
        let '(clk, a) := ag_clock a in
        let a := end_turn tid instructions (edit_thread tid (enter_auth_mode clk ext_name) a) in
        with_db (persist_assistant_response tid (im_channel m) (im_user_id m) instructions (ag_db a)) a
    end in
  tell (AuthNeeded ext_name (Some instructions) (auth_url auth_data) (setup_url auth_data)) a.

(** The approved call itself. *)
Definition run_approved (cd : ChatDelegate JobContext) (p : PendingApproval) a : Result ToolError string * AgentState P D W :=
  let tc := pending_call p in
  let c := with_stash ∅ (ag_chat a) in
  let result := execute_chat_tool cd c tc in
  let c := start_call tc c in
  let c := send_status (tool_completed ce_pretty ce_to_string (tc_name tc) (displayed result) (display_parameters p)
                          (get_tool c (tc_name tc))) c in
  (result, preview_output tc result (with_chat c a)).

(** *** The deferred calls *)

Definition deferred_question a (tc : ToolCall) : option (ToolExec.Tool (ToolCtx JobContext) * bool) :=
  match get_tool (ag_chat a) (tc_name tc) with
  | Some tool =>
      if auto_approve_tools config then None
      else
        let requirement := requires_approval tool (tc_arguments tc) in
        if needs_approval (ag_chat a) (tc_name tc) requirement
        then Some (tool, match requirement with Always => false | _ => true end) else None
  | None => None
  end.

Fixpoint deferred_preflight a (idx : nat) (calls : list ToolCall)
    : list ToolCall * option (nat * ToolCall * ToolExec.Tool (ToolCtx JobContext) * bool) :=
  match calls with
  | [] => ([], None)
  | tc :: calls =>
      match deferred_question a tc with
      | Some (tool, always) => ([], Some (idx, tc, tool, always))
      | None => let '(l, q) := deferred_preflight a (S idx) calls in (tc :: l, q)
      end
  end.

Definition deferred_results (cd : ChatDelegate JobContext) (runnable : list ToolCall) a
    : list (ToolCall * Result ToolError string) * AgentState P D W :=
  let '(slots, c) := execute_runnable cd (length runnable) (imap (fun i tc => (i, tc)) runnable) (ag_chat a) in
  (zip_with (fun tc slot => (tc, default (task_failed tc) slot)) runnable slots, with_chat c a).

Fixpoint deferred_postflight (cd : ChatDelegate JobContext) m tid (l : list (ToolCall * Result ToolError string))
    (deferred_auth : option string) (context : list ChatMessage) a : option string * list ChatMessage * AgentState P D W :=
  match l with
  | [] => (deferred_auth, context, a)
  | (tc, result) :: l =>
      let a := preview_output tc result a in
      let '(msg, a) := record_outcome cd tc result a in
      let '(deferred_auth, a) :=
        match deferred_auth, check_auth_required parse_value (tc_name tc) result with
        | None, Some (ext_name, instructions) => (Some instructions, handle_auth_intercept m tid result ext_name instructions a)
        | _, _ => (deferred_auth, a)
        end in
      deferred_postflight cd m tid l deferred_auth (context ++ [msg]) a
  end.

(** The replay of the deferred calls: where the handler ends early, or the context for the loop. *)
Definition replay_deferred (cd : ChatDelegate JobContext) m tid (p : PendingApproval) (context : list ChatMessage) a
    : (SubmissionResult + list ChatMessage) * AgentState P D W :=
  let calls := deferred_tool_calls p in
  let a := match calls with
           | [] => a
           | _ => tell (Thinking (cat ["Executing "; show_nat (length calls); " deferred tool(s)..."])) a
           end in
  let '(runnable, question) := deferred_preflight a 0 calls in
  let '(results, a) := deferred_results cd runnable a in
  let a := ag_others a in
  let '(deferred_auth, context, a) := deferred_postflight cd m tid results None context a in
  match deferred_auth, question with
  | Some instructions, _ => (inl (Response instructions), a)
  | None, Some (idx, tc, tool, always) =>
      let '(id, a) := fresh_uuid a in
      let '(r, a) := ask_user tid
        (mkPendingApproval id (tc_name tc) (tc_arguments tc) (redact_params (tc_arguments tc) (sensitive_params tool))
           (tool_description tool) (tc_id tc) context (drop (S idx) calls) (pa_user_timezone p) always) a in
      (inl r, a)
  | None, None => (inr context, a)
  end.

(** No hook and no look at an interruption here. *)
Definition conclude_approval m tid (result : Result Error AgenticLoopResult) a : SubmissionResult * AgentState P D W :=
  match result with
  | Ok (LoopResponse text) =>
      let '(text, suggestions) := extract_suggestions parse_value text in
      (Response text, offer_suggestions suggestions (tell (Status "Done") (persist_answer m tid text (end_turn tid text a))))
  | Ok (LoopNeedApproval p) => ask_user tid p a
  | Err e => abandon_turn tid e a
  end.

Definition set_state (st : ThreadState.t) (th : Thread) : Thread :=
  thread_with th st (turns th) (updated_at th) (pending_approval th) (pending_auth th) (pending_messages th).

Definition approve m tid (p : PendingApproval) (always : bool) a : UserOutcome * AgentState P D W :=
  let a := if always
           then with_chat (with_session (auto_approve_tool (pa_tool_name p) (ag_session a)) (ag_chat a)) a else a in
  let a := edit_thread tid (set_state ThreadState.Processing) a in
  let cd := approval_delegate m tid p a in
  let '(result, a) := run_approved cd p a in
  let '(msg, a) := record_outcome cd (pending_call p) result a in
  match check_auth_required parse_value (pa_tool_name p) result with
  | Some (ext_name, instructions) =>
      (Answered (Response instructions), handle_auth_intercept m tid result ext_name instructions a)
  | None =>
      let '(replayed, a) := replay_deferred cd m tid p (context_messages p ++ [msg]) a in
      match replayed with
      | inl r => (Answered r, a)
      | inr context =>
          let '(result, a) := run_loop m (mkTenant (im_user_id m)) tid context a in
          match ag_thread tid a with
          | None => (Missing tid, a)
          | Some _ => let '(r, a) := conclude_approval m tid result a in (Answered r, a)
          end
      end
  end.

Definition rejection_text (p : PendingApproval) : string :=
  cat ["Tool '"; pa_tool_name p; "' was rejected. The agent will not execute this tool."; nl_str; nl_str;
       "You can continue the conversation or try a different approach."].

Definition reject m tid (p : PendingApproval) a : UserOutcome * AgentState P D W :=
  let rejection := rejection_text p in
  let a :=
    match ag_thread tid a with
    | None => a
    | Some _ =>
        let '(clk, a) := ag_clock a in
        let a := end_turn tid rejection (edit_thread tid (clear_pending_approval (clk 0)) a) in
        with_db (persist_assistant_response tid (im_channel m) (im_user_id m) rejection (ag_db a)) a
    end in
  (Answered (Response rejection), tell (Status "Rejected") a).

Definition process_approval m tid (req : option Uuid) (approved always : bool) a : UserOutcome * AgentState P D W :=
  match ag_thread tid a with
  | None => (Missing tid, a)
  | Some th =>
      if decide (thread_state th = ThreadState.AwaitingApproval) then
        let '(th, taken) := take_pending_approval th in
        let a := edit_thread tid (fun _ => th) a in
        match taken with
        | None => (Answered (ok_with_message ""), a)
        | Some p =>
            if match req with Some id => negb (bool_decide (id = request_id p)) | None => false end then
              let '(clk, a) := ag_clock a in
              (Answered (submission_error "Request ID mismatch. Use the correct request ID."),
               edit_thread tid (await_approval (clk 0) p) a)
            else if approved then approve m tid p always a else reject m tid p a
        end
      else (Answered (ok_with_message ""), a)
  end.

(** ** A token *)

Definition reenter_auth tid (ext text : string) a : AgentState P D W :=
  let '(clk, a) := ag_clock a in
  tell (AuthNeeded ext (Some text) None None) (edit_thread tid (enter_auth_mode clk ext) a).

(** The token goes to the extension manager and nowhere else. *)
Definition process_auth_token m (pa : PendingAuth) (token : string) tid a : option string * AgentState P D W :=
  let token := trim token in
  let ext := extension_name pa in
  let a := edit_thread tid (fun th => (take_pending_auth th).1) a in
  match te_configure with
  | None => (Some "Extension manager not available.", a)
  | Some configure_token =>
      match configure_token ext token (im_user_id m) with
      | Ok result =>
          if activated result
          then (Some (configure_message result), tell (AuthCompleted ext true (configure_message result)) a)
          else (Some (configure_message result), reenter_auth tid ext (configure_message result) a)
      | Err e =>
          let msg := extension_error_text e in
          match e with
          | ValidationFailed _ => (Some msg, reenter_auth tid ext msg a)
          | OtherExtensionError _ => (Some msg, tell (AuthCompleted ext false msg) a)
          end
      end
  end.

(** ** Compaction on request *)

Definition process_compact tid a : UserOutcome * AgentState P D W :=
  match ag_thread tid a with
  | None => (Missing tid, a)
  | Some th =>
      let ms := messages json_to_string th in
      let strategy := default (ContextMonitor.Summarize 5) (suggest_compaction monitor ms) in
      let c := ag_chat a in
      let '(res, th, ws, p, w) :=
        compact json_to_string te_date te_time th strategy (ag_ws a) (llm (cs_reasoning c)) (cs_world c) in
      let a := with_ws ws (edit_thread tid (fun _ => th) (with_chat (with_engine (set_llm p (cs_reasoning c)) w c) a)) in
      match res with
      | Ok r =>
          (Answered (ok_with_message (cat ["Compacted: "; show_nat (turns_removed r); " turns removed, "; pretty (tokens_before r);
             " → "; pretty (tokens_after r); " tokens (was "; fmt_tenths (usage_percent monitor ms); "% full)";
             if summary_written r then ", summary saved to workspace" else ""])), a)
      | Err e => (Answered (submission_error ("Compaction failed: " +:+ te_error_text (ELlm e))), a)
      end
  end.

(** ** Properties of an input *)

Ltac no_trace :=
  cbv beta iota; split; [first [left; reflexivity|right; reflexivity]|];
  split; [intros ?; discriminate|]; split; [intros ?; discriminate|];
  intros ? ? Hor; destruct Hor; simplify_eq; try congruence; split; reflexivity.

(** C22. Refused input leaves no trace: a message that validation, policy or the scan for secrets turns down
    enters neither the thread nor its queue nor the database, reaches no model and no tool, and is
    not taken for a command; an idle thread answers it with the refusal. *)
Theorem refused_input_leaves_no_trace m tenant tid content refusal a :
  screen_input content = Some refusal →
  let '(out, a') := process_user_input m tenant tid content a in
  (a' = a ∨ a' = ag_others a) ∧ (∀ text, out ≠ Answered (Response text)) ∧ (∀ intent, out ≠ Routed intent) ∧
  (∀ th, ag_thread tid a = Some th → thread_state th = ThreadState.Idle ∨ thread_state th = ThreadState.Interrupted →
     out = Answered (submission_error refusal) ∧ a' = a).
Proof.
  intros Hs. unfold process_user_input. destruct (ag_thread tid a) as [th|]; [|no_trace].
  unfold admit_input. destruct (thread_state th) eqn:Hst; rewrite ?Hs; try no_trace.
  unfold queue_input. destruct (ag_thread tid (ag_others a)) as [th'|]; [|no_trace].
  case_decide; [|rewrite ?Hs; no_trace]. destruct (im_attachments m); rewrite ?Hs; no_trace.
Qed.

Lemma ag_clock_keeps a clk a' :
  ag_clock a = (clk, a') → cs_shared (ag_chat a') = cs_shared (ag_chat a) ∧ ag_db a' = ag_db a ∧
    cs_executed (ag_chat a') = cs_executed (ag_chat a) ∧ cs_reasoning (ag_chat a') = cs_reasoning (ag_chat a) ∧
    ag_undo a' = ag_undo a ∧ ag_ws a' = ag_ws a.
Proof. unfold ag_clock, read_clock, now. by intros [= <- <-]. Qed.

Lemma edit_thread_lookup tid f a : ag_thread tid (edit_thread tid f a) = f <$> ag_thread tid a.
Proof. unfold ag_thread, edit_thread, ag_session, session_of. cbn. by rewrite lookup_alter_eq. Qed.

Lemma end_turn_spec tid text a th :
  ag_thread tid a = Some th →
  ∃ clk, ag_thread tid (end_turn tid text a) = Some (complete_turn clk text th) ∧
    ag_db (end_turn tid text a) = ag_db a ∧ cs_executed (ag_chat (end_turn tid text a)) = cs_executed (ag_chat a) ∧
    cs_reasoning (ag_chat (end_turn tid text a)) = cs_reasoning (ag_chat a).
Proof.
  intros Hth. unfold end_turn. destruct (ag_clock a) as [clk a1] eqn:Hc. apply ag_clock_keeps in Hc as (Hsh & Hdb & Hex & Hr & _).
  exists clk. rewrite edit_thread_lookup. unfold ag_thread, ag_session, session_of in *. rewrite Hsh, Hth. done.
Qed.

Lemma last_message_completed clk text th :
  turns th ≠ [] → last (messages json_to_string (complete_turn clk text th)) = Some (assistant text).
Proof.
  intros Hne. unfold messages, render_turns, map_enum. cbn [turns complete_turn thread_with].
  destruct (turns th) as [|t ts _] using rev_ind; [done|]. rewrite update_last_snoc, imap_app, concat_app. cbn.
  rewrite app_nil_r. unfold turn_messages at 2. cbn [response turn_complete]. by rewrite last_app, app_comm_cons, last_snoc.
Qed.

(** What the user hears is what is kept: after an answer the thread is idle, the answer is the last thing the
    model will see of it, and in a store that accepts the conversation it is the last row. *)
Theorem answer_is_recorded m tid text a th :
  ag_thread tid a = Some th → turns th ≠ [] →
  let '(r, a') := conclude_input m tid (Ok (LoopResponse text)) a in
  ∃ answer, r = Response answer ∧
    (∃ th', ag_thread tid a' = Some th' ∧ thread_state th' = ThreadState.Idle ∧
            last (messages json_to_string th') = Some (assistant answer)) ∧
    (Writable (D := D) tid (im_channel m) (im_user_id m) →
     ∀ d rows, ag_db a = Some d → list_conversation_messages tid d = Ok rows →
     ∃ d' added, ag_db a' = Some d' ∧ list_conversation_messages tid d' = Ok (rows ++ added ++ [mkRow "assistant" answer])).
Proof.
  intros Hth Hne. unfold conclude_input. destruct (extract_suggestions parse_value text) as [clean sugg].
  set (answer := transform_response m tid clean a). destruct (end_turn_spec tid answer a th Hth) as (clk & Hth1 & Hdb1 & _).
  set (a1 := tell (Status "Done") (end_turn tid answer a)) in *.
  assert (ag_thread tid a1 = Some (complete_turn clk answer th)) as Ha1 by done.
  assert (ag_db a1 = ag_db a) as Hd1 by done. exists answer. split; [done|].
  assert (∀ a, ag_thread tid (offer_suggestions sugg a) = ag_thread tid a ∧ ag_db (offer_suggestions sugg a) = ag_db a) as Hoff.
  { intros a'. by destruct sugg. }
  change (ag_thread tid (tell ?u ?x)) with (ag_thread tid x). change (ag_db (tell ?u ?x)) with (ag_db x).
  destruct (Hoff (persist_answer m tid answer a1)) as [-> ->]. unfold persist_answer. rewrite Ha1. cbn [mbind option_bind].
  split.
  - exists (complete_turn clk answer th). destruct (last_turn _); (split; [exact Ha1|]; split; [done|by apply last_message_completed]).
  - intros Hw d rows Hd Hrows. set (data := match last_turn _ with Some _ => _ | None => _ end). destruct data as [[n calls] narr].
    cbn [with_db ag_db]. rewrite Hd1, Hd. unfold persist_assistant_response.
    assert (∃ d1 added, persist_tool_calls tid (im_channel m) (im_user_id m) n calls narr (Some d) = Some d1 ∧
              list_conversation_messages tid d1 = Ok (rows ++ added)) as (d1 & added & -> & Hrows1).
    { unfold persist_tool_calls. destruct calls; [exists d, []; by rewrite app_nil_r|].
      destruct (serialize _); [|exists d, []; by rewrite app_nil_r].
      destruct (persist_row_appends tid (im_channel m) (im_user_id m) "tool_calls" a0 d rows Hrows) as (d1 & -> & ?).
      by eexists d1, _. }
    destruct (persist_row_appends tid (im_channel m) (im_user_id m) "assistant" answer d1 _ Hrows1) as (d2 & -> & Hrows2).
    exists d2, added. split; [done|]. by rewrite app_assoc.
Qed.

(** ** Properties of an approval *)

Abbreviation executed a := (cs_executed (ag_chat a)).

Lemma record_outcome_keeps cd tc result a :
  executed (record_outcome cd tc result a).2 = executed a ∧
  let msg := (record_outcome cd tc result a).1 in
  role msg = Provider.Tool ∧ tool_call_id msg = Some (tc_id tc) ∧ name msg = Some (tc_name tc).
Proof. done. Qed.

Lemma preview_keeps tc result a : executed (preview_output tc result a) = executed a.
Proof. unfold preview_output. by repeat case_match. Qed.

Lemma ag_clock_executed a clk a' : ag_clock a = (clk, a') → executed a' = executed a.
Proof. intros Hc. by apply ag_clock_keeps in Hc as (_ & _ & ? & _). Qed.

Lemma end_turn_executed tid text a : executed (end_turn tid text a) = executed a.
Proof. unfold end_turn. destruct (ag_clock a) as [clk a1] eqn:Hc. by apply ag_clock_executed in Hc. Qed.

Lemma auth_keeps m tid result ext ins a : executed (handle_auth_intercept m tid result ext ins a) = executed a.
Proof.
  unfold handle_auth_intercept. destruct (ag_thread tid a); [|done]. destruct (ag_clock a) as [clk a1] eqn:Hc.
  change (executed (tell ?u ?x)) with (executed x). cbn [with_db ag_chat]. rewrite end_turn_executed.
  by apply ag_clock_executed in Hc.
Qed.

Lemma ask_keeps tid p a : executed (ask_user tid p a).2 = executed a.
Proof. unfold ask_user. destruct (ag_clock a) as [clk a1] eqn:Hc. by apply ag_clock_executed in Hc. Qed.

Lemma deferred_postflight_spec cd m tid l auth context a :
  let '(_, context', a') := deferred_postflight cd m tid l auth context a in
  executed a' = executed a ∧
  ∃ answers, context' = context ++ answers ∧ Forall (fun msg => role msg = Provider.Tool) answers ∧
    tool_call_id <$> answers = (fun x => Some (tc_id x.1)) <$> l.
Proof.
  revert auth context a. induction l as [|[tc result] l IH]; intros auth context a; cbn [deferred_postflight].
  { split; [done|]. exists []. by rewrite app_nil_r. }
  pose proof (record_outcome_keeps cd tc result (preview_output tc result a)) as [He (Hr & Hi & _)].
  destruct (record_outcome cd tc result (preview_output tc result a)) as [msg a1]. cbn [fst snd] in *.
  set (step := match auth with Some _ => _ | None => _ end).
  assert (executed step.2 = executed a) as Hstep.
  { unfold step. repeat case_match; cbn [snd]; by rewrite ?auth_keeps, He, preview_keeps. }
  destruct step as [auth' a2]. specialize (IH auth' (context ++ [msg]) a2).
  destruct (deferred_postflight cd m tid l auth' _ a2) as [[auth'' context'] a3]. destruct IH as (He3 & answers & -> & Hrs & Hids).
  cbn [snd] in Hstep. split; [by rewrite He3|]. exists (msg :: answers). rewrite <-app_assoc. split; [done|].
  split; [by constructor|]. cbn. by rewrite Hi, Hids.
Qed.

Lemma deferred_preflight_split a i calls :
  let '(runnable, question) := deferred_preflight a i calls in
  Forall (fun tc => deferred_question a tc = None) runnable ∧
  match question with
  | None => calls = runnable
  | Some (k, tc, tool, always) =>
      k = (i + length runnable)%nat ∧ calls = runnable ++ tc :: drop (S (length runnable)) calls ∧
      deferred_question a tc = Some (tool, always)
  end.
Proof.
  revert i. induction calls as [|tc calls IH]; intros i; cbn [deferred_preflight]; [done|].
  destruct (deferred_question a tc) as [[tool always]|] eqn:Hq.
  - split; [done|]. split; [cbn; lia|]. done.
  - specialize (IH (S i)). destruct (deferred_preflight a (S i) calls) as [l q]. destruct IH as [Hl Hqs].
    split; [by constructor|]. destruct q as [[[[k tc'] tool] always]|]; [|by f_equal].
    destruct Hqs as (-> & Hc & Ht). split; [cbn; lia|]. split; [|done]. cbn. f_equal. exact Hc.
Qed.

Lemma execute_runnable_length cd n runnable (c : ChatState JobContext P) :
  length (execute_runnable cd n runnable c).1 = n.
Proof.
  unfold execute_runnable. destruct runnable as [|[i tc] [|x l]].
  - apply length_replicate.
  - cbn [run_one fst]. by rewrite length_insert, length_replicate.
  - set (l' := (i, tc) :: x :: l). pose proof (join_all_slots cd (ce_join (cs_tick c) l') (replicate n None) c) as Hs.
    destruct (join_all cd _ _ c) as [slots c']. cbn [fst] in *. subst slots.
    assert (∀ js (s : list (option (Result ToolError string))), length (foldl (fun slots x => if (x.2 : bool) then slots
      else <[x.1.1 := Some (execute_chat_tool cd c x.1.2)]> slots) s js) = length s) as Hjoin.
    { induction js as [|[[? ?] []] js IH]; intros s; [done|apply IH|]. cbn [foldl]. rewrite IH. apply length_insert. }
    assert (∀ rs (s : list (option (Result ToolError string))), length (fill_lost rs s) = length s) as Hfill.
    { unfold fill_lost. induction rs as [|[? ?] rs IH]; intros s; [done|]. cbn [foldl]. rewrite IH.
      repeat case_match; rewrite ?length_insert; done. }
    by rewrite Hfill, Hjoin, length_replicate.
Qed.

Lemma imap_pair_snd {A} (l : list A) : (imap (fun i x => (i, x)) l).*2 = l.
Proof. apply list_eq. intros i. rewrite list_lookup_fmap, list_lookup_imap. by destruct (l !! i). Qed.

Lemma deferred_results_spec cd runnable a :
  joins_all (J := JobContext) →
  (deferred_results cd runnable a).1.*1 = runnable ∧
  ∃ ran, executed (deferred_results cd runnable a).2 = executed a ++ ran ∧ ran ≡ₚ runnable.
Proof.
  intros Hj. unfold deferred_results. set (rs := imap _ runnable).
  pose proof (execute_runnable_length cd (length runnable) rs (ag_chat a)) as Hlen.
  destruct (execute_runnable_executed cd (length runnable) rs (ag_chat a) Hj) as (ran & Hran & Hperm).
  destruct (execute_runnable cd (length runnable) rs (ag_chat a)) as [slots c]. cbn [fst snd] in *. split.
  - revert slots Hlen. clear. induction runnable as [|tc l IH]; intros [|s slots] Hlen; try done.
    cbn. f_equal. apply IH. by injection Hlen.
  - exists ran. split; [done|]. rewrite Hperm. unfold rs. by rewrite imap_pair_snd.
Qed.

(** *** The thread survives *)

Lemma record_outcome_thread cd tc result tid a :
  is_Some (ag_thread tid a) → is_Some (ag_thread tid (record_outcome cd tc result a).2).
Proof.
  intros Ht. unfold record_outcome, tool_message, process_tool_result. cbn [snd].
  unfold ag_thread, ag_session, session_of, record_result, on_last_turn, on_thread in *. cbn.
  rewrite lookup_alter. case_decide; subst; [|done]. by apply fmap_is_Some.
Qed.

Lemma ag_clock_thread a clk a' tid : ag_clock a = (clk, a') → ag_thread tid a' = ag_thread tid a.
Proof. intros (Hsh & _)%ag_clock_keeps. unfold ag_thread, ag_session, session_of. by rewrite Hsh. Qed.

Lemma end_turn_thread tid text a : is_Some (ag_thread tid a) → is_Some (ag_thread tid (end_turn tid text a)).
Proof. intros [th Hth]. destruct (end_turn_spec tid text a th Hth) as (clk & -> & _). done. Qed.

Lemma auth_thread m tid result ext ins a :
  is_Some (ag_thread tid a) → is_Some (ag_thread tid (handle_auth_intercept m tid result ext ins a)).
Proof.
  intros [th Hth]. unfold handle_auth_intercept. rewrite Hth. destruct (ag_clock a) as [clk a1] eqn:Hc.
  change (ag_thread tid (tell ?u (with_db ?x ?y))) with (ag_thread tid y). apply end_turn_thread.
  rewrite edit_thread_lookup. apply fmap_is_Some. by rewrite (ag_clock_thread _ _ _ tid Hc), Hth.
Qed.

Lemma deferred_postflight_thread cd m tid l auth context a :
  is_Some (ag_thread tid a) → is_Some (ag_thread tid (deferred_postflight cd m tid l auth context a).2).
Proof.
  revert auth context a. induction l as [|[tc result] l IH]; intros auth context a Ht; cbn [deferred_postflight]; [done|].
  assert (is_Some (ag_thread tid (preview_output tc result a))) as Hp by (unfold preview_output; by repeat case_match).
  pose proof (record_outcome_thread cd tc result tid _ Hp) as Hr.
  destruct (record_outcome cd tc result (preview_output tc result a)) as [msg a1]. cbn [snd] in Hr.
  destruct auth as [auth|]; [by apply IH|]. destruct (check_auth_required _ _ _) as [[ext ins]|]; apply IH; [by apply auth_thread|done].
Qed.

(** Running calls changes nothing that is shared. *)
Lemma deferred_results_shared cd runnable a :
  cs_shared (ag_chat (deferred_results cd runnable a).2) = cs_shared (ag_chat a).
Proof.
  unfold deferred_results, execute_runnable. destruct (imap _ runnable) as [|[i tc] [|x l]]; [done|done|].
  assert (∀ js s (c : ChatState JobContext P), cs_shared (join_all cd js s c).2 = cs_shared c) as Hj.
  { clear. induction js as [|[[i tc] []] js IH]; intros s c; [done|by cbn; rewrite IH|]. cbn. by rewrite IH. }
  specialize (Hj (ce_join (cs_tick (ag_chat a)) ((i, tc) :: x :: l)) (replicate (length runnable) None) (ag_chat a)).
  by destruct (join_all _ _ _ _).
Qed.

(** Other tasks do not remove the thread. *)
Definition thread_kept tid : Prop :=
  ∀ n (s : Shared JobContext), is_Some (threads (sh_session s) !! tid) → is_Some (threads (sh_session (ce_others n s)) !! tid).

(** The replay answers what the round left open: with no further question every deferred call gets its tool
    message, in order, before the model is called again; at a question the calls before it are answered and
    the thread waits for the user with that call and the rest behind it. *)
Theorem deferred_calls_answered cd m tid p context a :
  joins_all (J := JobContext) → thread_kept tid → is_Some (ag_thread tid a) →
  let '(out, a') := replay_deferred cd m tid p context a in
  match out with
  | inr context' =>
      ∃ answers, context' = context ++ answers ∧ Forall (fun msg => role msg = Provider.Tool) answers ∧
        tool_call_id <$> answers = (fun tc => Some (tc_id tc)) <$> deferred_tool_calls p
  | inl (NeedApproval _ _ _ _ _) =>
      ∃ th q answered tc answers, ag_thread tid a' = Some th ∧ thread_state th = ThreadState.AwaitingApproval ∧
        pending_approval th = Some q ∧ pa_tool_name q = tc_name tc ∧ pa_tool_call_id q = tc_id tc ∧
        pa_parameters q = tc_arguments tc ∧ deferred_tool_calls p = answered ++ tc :: deferred_tool_calls q ∧
        context_messages q = context ++ answers ∧ tool_call_id <$> answers = (fun tc => Some (tc_id tc)) <$> answered
  | inl _ => True
  end.
Proof.
  intros Hj Hk Ht. unfold replay_deferred. set (calls := deferred_tool_calls p).
  set (a0 := match calls with [] => a | _ => _ end).
  assert (is_Some (ag_thread tid a0)) as Ht0 by (unfold a0; by destruct calls).
  pose proof (deferred_preflight_split a0 0 calls) as Hsplit. destruct (deferred_preflight a0 0 calls) as [runnable question].
  destruct Hsplit as [_ Hq]. destruct (deferred_results_spec cd runnable a0 Hj) as [Hfst _].
  pose proof (deferred_results_shared cd runnable a0) as Hsh.
  destruct (deferred_results cd runnable a0) as [results a1]. cbn [fst snd] in *.
  assert (is_Some (ag_thread tid (ag_others a1))) as Ht1.
  { apply Hk. unfold ag_thread, ag_session, session_of in Ht0. by rewrite Hsh. }
  pose proof (deferred_postflight_spec cd m tid results None context (ag_others a1)) as Hpost.
  pose proof (deferred_postflight_thread cd m tid results None context (ag_others a1) Ht1) as Ht2.
  destruct (deferred_postflight cd m tid results None context (ag_others a1)) as [[auth context'] a2].
  destruct Hpost as (_ & answers & Hctx & Hroles & Hids). cbn [snd] in Ht2.
  assert (tool_call_id <$> answers = (fun tc => Some (tc_id tc)) <$> runnable) as Hanswered.
  { rewrite Hids, <-Hfst. by rewrite <-list_fmap_compose. }
  destruct auth as [ins|]; [done|]. destruct question as [[[[k tc] tool] always]|]; [|subst; by exists answers].
  destruct Hq as (-> & Hcalls & _). unfold fresh_uuid, ask_user. destruct (ag_clock _) as [clk a3] eqn:Hc.
  destruct Ht2 as [th2 Hth2]. pose proof (ag_clock_thread _ _ _ tid Hc) as Ht3.
  eexists _, _, runnable, tc, answers. change (ag_thread tid (tell ?u ?x)) with (ag_thread tid x). rewrite edit_thread_lookup, Ht3.
  change (ag_thread tid (with_chat _ a2)) with (ag_thread tid a2). rewrite Hth2. cbn [fmap option_fmap option_map].
  split_and!; [reflexivity|done|reflexivity|done|done|done|exact Hcalls|exact Hctx|done].
Qed.
(** *** What runs *)

Lemma run_loop_executed m tenant tid ms a : ∃ l, executed (run_loop m tenant tid ms a).2 = executed a ++ l.
Proof. unfold run_loop. destruct (run_chat_loop _ _ _ _ _ _ _ _ _ _) as [[res ctx] d]. by exists (cs_executed d). Qed.

Lemma conclude_approval_keeps m tid result a : executed (conclude_approval m tid result a).2 = executed a.
Proof.
  unfold conclude_approval. destruct result as [[text|p]|e].
  - destruct (extract_suggestions parse_value text) as [clean sugg]. cbn [snd].
    assert (∀ a, executed (offer_suggestions sugg a) = executed a) as -> by (intros a'; by destruct sugg).
    change (executed (tell ?u ?x)) with (executed x). unfold persist_answer.
    destruct (match _ with Some _ => _ | None => _ end) as [[n calls] narr]. apply end_turn_executed.
  - apply ask_keeps.
  - unfold abandon_turn. destruct (ag_clock a) as [clk a1] eqn:Hc. by apply ag_clock_executed in Hc.
Qed.

Lemma tell_preflight u a i calls : deferred_preflight (tell u a) i calls = deferred_preflight a i calls.
Proof. revert i. induction calls as [|tc calls IH]; intros i; [done|]. cbn [deferred_preflight]. by rewrite IH. Qed.

(** A replay runs what [deferred_results] runs. *)
Lemma replay_runs cd m tid p context a :
  ∃ a0, executed a0 = executed a ∧ executed (replay_deferred cd m tid p context a).2 =
    executed (deferred_results cd (deferred_preflight a 0 (deferred_tool_calls p)).1 a0).2.
Proof.
  unfold replay_deferred. set (calls := deferred_tool_calls p). set (a0 := match calls with [] => a | _ => _ end).
  assert (deferred_preflight a0 0 calls = deferred_preflight a 0 calls) as ->.
  { unfold a0. destruct calls; [done|apply tell_preflight]. }
  exists a0. split; [unfold a0; by destruct calls|].
  destruct (deferred_preflight a 0 calls) as [runnable question]. cbn [fst].
  destruct (deferred_results cd runnable a0) as [results a1]. cbn [snd].
  pose proof (deferred_postflight_spec cd m tid results None context (ag_others a1)) as Hpost.
  destruct (deferred_postflight cd m tid results None context (ag_others a1)) as [[auth context'] a2].
  destruct Hpost as [He _]. change (executed (ag_others a1)) with (executed a1) in He. rewrite <-He.
  destruct auth; [done|]. destruct question as [[[[k tc] tool] always]|]; [|done].
  unfold fresh_uuid. match goal with |- context [ask_user tid ?q ?x] => pose proof (ask_keeps tid q x) as Hask; by destruct (ask_user tid q x) end.
Qed.

Lemma replay_executed cd m tid p context a :
  joins_all (J := JobContext) →
  ∃ ran, executed (replay_deferred cd m tid p context a).2 = executed a ++ ran ∧
         ran ≡ₚ (deferred_preflight a 0 (deferred_tool_calls p)).1.
Proof.
  intros Hj. destruct (replay_runs cd m tid p context a) as (a0 & <- & ->). by apply deferred_results_spec.
Qed.

Lemma replay_grows cd m tid p context a : ∃ ran, executed (replay_deferred cd m tid p context a).2 = executed a ++ ran.
Proof.
  destruct (replay_runs cd m tid p context a) as (a0 & <- & ->). unfold deferred_results.
  match goal with |- context [execute_runnable cd ?n ?l ?c] => destruct (execute_runnable_grows cd n l c) as [ran Hran] end.
  exists ran. by destruct (execute_runnable cd _ _ _).
Qed.

(** *** Answers of the user *)

(** The question the thread waits on. *)
Definition open_question tid a : option PendingApproval :=
  th ← ag_thread tid a; if decide (thread_state th = ThreadState.AwaitingApproval) then pending_approval th else None.

Abbreviation nothing_runs a a' := (executed a' = executed a ∧ cs_reasoning (ag_chat a') = cs_reasoning (ag_chat a)).

Lemma reject_runs_nothing m tid p a : nothing_runs a (reject m tid p a).2.
Proof.
  unfold reject. destruct (ag_thread tid a) as [th1|] eqn:Ht1; [|done]. destruct (ag_clock a) as [clk a2] eqn:Hc.
  pose proof (ag_clock_thread _ _ _ tid Hc) as Ht2. apply ag_clock_keeps in Hc as (_ & _ & He & Hr & _). cbn [snd].
  change (executed (tell ?u (with_db ?x ?y))) with (executed y). change (cs_reasoning (ag_chat (tell ?u (with_db ?x ?y)))) with (cs_reasoning (ag_chat y)).
  edestruct (end_turn_spec tid (rejection_text p) (edit_thread tid (clear_pending_approval (clk 0)) a2)) as (? & _ & _ & -> & ->);
    [by rewrite edit_thread_lookup, Ht2, Ht1|]. split; [exact He|exact Hr].
Qed.

Lemma approve_runs_the_call m tid p always a : ∃ rest, executed (approve m tid p always a).2 = executed a ++ pending_call p :: rest.
Proof.
  unfold approve. set (a2 := edit_thread tid (set_state _) _). set (cd := approval_delegate m tid p a2).
  assert (executed a2 = executed a) as He2 by (unfold a2; by destruct always).
  assert (executed (run_approved cd p a2).2 = executed a ++ [pending_call p]) as He3.
  { rewrite <-He2. unfold run_approved. cbn [snd]. by rewrite preview_keeps. }
  destruct (run_approved cd p a2) as [result a3]. cbn [snd] in He3.
  pose proof (proj1 (record_outcome_keeps cd (pending_call p) result a3)) as He4.
  destruct (record_outcome cd (pending_call p) result a3) as [msg a4]. cbn [snd] in He4. rewrite He3 in He4.
  destruct (check_auth_required _ _ _) as [[ext ins]|]; [exists []; cbn [snd]; by rewrite auth_keeps|].
  destruct (replay_grows cd m tid p (context_messages p ++ [msg]) a4) as (ran & Hran).
  destruct (replay_deferred cd m tid p _ a4) as [[r|context] a5]; cbn [snd] in Hran; rewrite He4, <-app_assoc in Hran;
    [by exists ran|].
  destruct (run_loop_executed m (mkTenant (im_user_id m)) tid context a5) as [l Hl].
  destruct (run_loop m _ tid context a5) as [res a6]. cbn [snd] in Hl. rewrite Hran, <-app_assoc in Hl.
  destruct (ag_thread tid a6); [|by exists (ran ++ l)].
  pose proof (conclude_approval_keeps m tid res a6) as Hc. destruct (conclude_approval m tid res a6) as [r a7].
  cbn [snd] in Hc |- *. rewrite Hc, Hl. by exists (ran ++ l).
Qed.

(** C13. Nothing runs that was not asked for: a tool call waits for its approval.  When the thread waits on no question (it does not exist, is
    in another state or has none), under a wrong request identifier or with a refusal no tool runs and no model is
    called; an approval of the question runs exactly the call it was about, with those parameters, before anything else. *)
Theorem approval_runs_what_was_asked m tid req approved always a :
  let a' := (process_approval m tid req approved always a).2 in
  match open_question tid a with
  | None => nothing_runs a a'
  | Some p =>
      if approved && match req with Some id => bool_decide (id = request_id p) | None => true end
      then ∃ rest, executed a' = executed a ++ pending_call p :: rest
      else nothing_runs a a'
  end.
Proof.
  cbv zeta. unfold open_question, process_approval. destruct (ag_thread tid a) as [th|] eqn:Hth; [|done]. cbn [mbind option_bind].
  destruct (decide _) as [Hst|]; [|done]. unfold take_pending_approval. set (a1 := edit_thread tid _ a).
  destruct (pending_approval th) as [p|]; [|done].
  destruct req as [id|]; [destruct (bool_decide (id = request_id p)); cbn [negb]|].
  - destruct approved; cbn [andb]; [exact (approve_runs_the_call m tid p always a1)|exact (reject_runs_nothing m tid p a1)].
  - rewrite andb_false_r. destruct (ag_clock a1) as [clk a2] eqn:Hc. apply ag_clock_keeps in Hc as (_ & _ & He & Hr & _). by split.
  - destruct approved; cbn [andb]; [exact (approve_runs_the_call m tid p always a1)|exact (reject_runs_nothing m tid p a1)].
Qed.

(** The other tools of a round wait for no hook: once one call of a round is approved, the calls behind it that need
    no question all run, as the model wrote them, whatever hooks are registered. *)
Theorem deferred_calls_skip_hooks cd m tid p context a hooks :
  joins_all (J := JobContext) →
  Forall (fun tc => deferred_question a tc = None) (deferred_tool_calls p) →
  let sh := cs_shared (ag_chat a) in
  let hooked := with_chat (with_shared (mkShared (sh_session sh) (sh_tools sh) hooks (sh_guard sh)) (ag_chat a)) a in
  ∃ ran, executed (replay_deferred cd m tid p context hooked).2 = executed a ++ ran ∧ ran ≡ₚ deferred_tool_calls p.
Proof.
  intros Hj Hq. cbv zeta. set (hooked := with_chat _ a). destruct (replay_executed cd m tid p context hooked Hj) as (ran & Hran & Hperm).
  exists ran. split; [exact Hran|]. rewrite Hperm.
  assert (∀ tc, deferred_question hooked tc = deferred_question a tc) as Hsame by done.
  assert (∀ calls i, Forall (fun tc => deferred_question a tc = None) calls → (deferred_preflight hooked i calls).1 = calls) as ->; [|done|done].
  clear Hq Hran Hperm ran. intros calls i Hq. revert i. induction Hq as [|tc calls Htc _ IH]; intros i; [done|].
  cbn [deferred_preflight]. rewrite Hsame, Htc. specialize (IH (S i)). destruct (deferred_preflight hooked (S i) calls). cbn in *. by rewrite IH.
Qed.

(** A refused call is replayed as a success: after a rejection the thread goes on with the rejection as its last
    answer, but the call the user refused, like the ones behind it, has no result, and in every later
    turn the model is shown the result OK for it. *)
Theorem rejected_call_reads_ok m tid p a th pre t j tc :
  ag_thread tid a = Some th → turns th = pre ++ [t] → turn_tool_calls t !! j = Some tc →
  ttc_result tc = None → ttc_error tc = None →
  ∃ th', ag_thread tid (reject m tid p a).2 = Some th' ∧ thread_state th' = ThreadState.Idle ∧ pending_approval th' = None ∧
    tool_result (generate_tool_call_id (Z.of_nat (length pre)) (Z.of_nat j)) (ttc_name tc) "OK" ∈ messages json_to_string th'.
Proof.
  intros Hth Hts Htc Hr He. unfold reject. rewrite Hth. destruct (ag_clock a) as [clk a1] eqn:Hc.
  pose proof (ag_clock_thread _ _ _ tid Hc) as Ht1. cbn [snd]. change (ag_thread tid (tell ?u (with_db ?x ?y))) with (ag_thread tid y).
  edestruct (end_turn_spec tid (rejection_text p) (edit_thread tid (clear_pending_approval (clk 0)) a1)) as (clk' & -> & _);
    [by rewrite edit_thread_lookup, Ht1, Hth|].
  eexists. split; [reflexivity|]. split; [done|]. split; [done|].
  unfold messages, render_turns, map_enum. cbn [turns complete_turn clear_pending_approval thread_with]. rewrite Hts.
  rewrite update_last_snoc, imap_app, concat_app. apply elem_of_app. right. cbn. rewrite app_nil_r.
  unfold turn_messages. cbn [turn_complete turn_tool_calls image_content_parts]. apply elem_of_cons. right. apply elem_of_app. left.
  destruct (turn_tool_calls t) as [|c0 calls] eqn:Hcalls; [done|]. rewrite <-Hcalls in *. apply elem_of_cons. right.
  apply list_elem_of_fmap. exists (generate_tool_call_id (Z.of_nat (length pre + 0)) (Z.of_nat j), tc).
  unfold tool_content. cbn [fst snd]. rewrite He, Hr, Nat.add_0_r. split; [done|].
  apply list_elem_of_lookup. exists j. unfold map_enum. rewrite list_lookup_imap, Htc. done.
Qed.
End turns.

(** ** Examples *)

Module Example.
#[local] Instance provider : LlmProvider unit := {|
  model_name := fun _ => "demo";
  cost_per_token := fun _ => (0, 0)%Z;
  complete := fun _ p w => (Err (EmptyResponse "demo"), p, w);
  complete_with_tools := fun _ p w => (Err (EmptyResponse "demo"), p, w);
  list_models := fun p w => (Ok [], p, w);
  model_metadata := fun p w => (default_model_metadata "demo", p, w);
  effective_model_name := fun rq p => (default_effective_model_name rq "demo", p);
  active_model_name := fun _ => "demo";
  set_model := fun _ p => (default_set_model, p);
  calculate_cost := fun i o _ => default_calculate_cost (0, 0)%Z i o;
  cache_write_multiplier := fun _ => dec_one;
  cache_read_discount := fun _ => dec_one
|}.

#[local] Instance engine : RegexEngine :=
  {| regex_valid := fun _ => true; is_match := fun _ _ => false; find_iter := fun _ _ => []; capture1 := fun _ _ => None |}.
#[local] Instance matcher : MultiMatcher := {| ac_find_iter := fun _ _ _ => [] |}.

#[local] Instance env : ChatEnv JobContext := {|
  ce_lower := id; ce_origin := 0%Z; ce_from_str := fun _ => Err "?";
  ce_to_string := fun _ => "{}"; ce_pretty := fun _ => Ok "{}"; ce_print_f64 := fun _ => "0"; ce_duration := fun _ => "1s";
  ce_hook_elapsed := fun _ _ => false; ce_hook_error := fun _ => "e"; ce_values := fun m => snd <$> map_to_list m;
  ce_date := fun _ => 0%Z; ce_uuid := N.of_nat; ce_others := fun _ s => s;
  ce_join := fun _ l => (fun x => (x, false)) <$> rev l
|}.

Definition message : IncomingMessage := mkIncoming 1 "web" "u" "u" "u" None "hi" None None 0 JNull None [] false.

#[local] Instance turn_env : TurnEnv := {|
  te_load := fun _ m => mkTurnInput m None [] [] None "UTC" None 5 0 1;
  te_timezone_valid := fun _ => true; te_b64 := id; te_prefix := "/"; te_date := "2026-01-01"; te_time := "10:00";
  te_money := fun _ => "0"; te_uuid_text := fun _ => "id"; te_error_text := fun _ => "failed"; te_configure := None
|}.

Definition tool (nm : string) (r : ApprovalRequirement) : ToolExec.Tool (ToolCtx JobContext) :=
  mkTool nm "d" (JObject []) (JObject []) false (fun v _ => Some (Ok v)) (fun _ => r) 60 Orchestrator [].

Definition tools : ToolRegistry (ToolCtx JobContext) :=
  register_sync true true (tool "echo" Never) (register_sync true true (tool "shell" Always) ToolExec.registry_new).

Definition call (id nm : string) : ToolCall := mkToolCall id nm (JObject []) None.

Definition question : PendingApproval :=
  mkPendingApproval 9 "shell" (JObject []) (JObject []) "d" "a" [user "hi"] [call "b" "echo"; call "c" "echo"] None false.

(** A thread that waits for the approval of its first call. *)
Definition asked_call : TurnToolCall := mkTurnToolCall "shell" (JObject []) None None None (Some "a").
Definition asked : Session.Turn := Session.mkTurn 0 "hi" None [asked_call] TurnState.Processing 0 None None None [].
Definition thread : Thread := mkThread 1 2 ThreadState.AwaitingApproval [asked] 0 0 JNull (Some question) None [].

Definition state_of (th : Thread) : AgentState unit OwnDb (list (string * string)) :=
  mkAgentState
    (mkChatState
       (mkShared (session_with (session_new 0 2 "u") (Some 1%N) {[ 1%N := th ]} 0) tools Hooks.registry_new
          (guard_new (mkGuardConfig None None None) 0))
       (reasoning_new tt) (mkWorld (fun _ => 0%Z) 0 (fun _ => 0%Z) 0 []) ∅ [] [] [] 0) ∅ (Some []) None.

Definition waiting : AgentState unit OwnDb (list (string * string)) := state_of thread.
Definition idle : AgentState unit OwnDb (list (string * string)) := state_of (set_state ThreadState.Idle thread).

Definition layer : SafetyLayer := safety_new (mkSafetyConfig 1000 false).
Definition cfg : TurnConfig := mkTurnConfig 3 false "demo".

Lemma approval_joins : joins_all (J := JobContext).
Proof. intros n l. cbn. rewrite <-list_fmap_compose, list_fmap_id. symmetry. apply Permutation_rev. Qed.

Lemma refused_input_leaves_no_trace_witness :
  ∃ refusal, screen_input layer "" = Some refusal ∧
    process_user_input layer cfg monitor_new message (mkTenant "u") 1 "" idle = (Answered (submission_error refusal), idle).
Proof.
  destruct (screen_input layer "") as [refusal|] eqn:Hs; [|vm_compute in Hs; discriminate]. exists refusal. split; [done|].
  pose proof (refused_input_leaves_no_trace layer cfg monitor_new message (mkTenant "u") 1 "" refusal idle Hs) as Ht.
  destruct (process_user_input layer cfg monitor_new message (mkTenant "u") 1 "" idle) as [out a'].
  destruct Ht as (_ & _ & _ & Ht). destruct (Ht _ eq_refl (or_introl eq_refl)) as [-> ->]. reflexivity.
Defined.

Lemma answer_is_recorded_witness :
  let '(r, a') := conclude_input message 1 (Ok (LoopResponse "done")) idle in
  ∃ answer, r = Response answer ∧
    (∃ th', ag_thread 1 a' = Some th' ∧ thread_state th' = ThreadState.Idle ∧
            last (messages json_to_string th') = Some (assistant answer)).
Proof.
  pose proof (answer_is_recorded message 1 "done" idle (set_state ThreadState.Idle thread) eq_refl ltac:(discriminate)) as Hw.
  destruct (conclude_input message 1 (Ok (LoopResponse "done")) idle) as [r a']. destruct Hw as (answer & Hr & Hth & _).
  exists answer. split; [exact Hr|exact Hth].
Defined.

Definition chat : ChatDelegate JobContext := approval_delegate layer cfg message 1 question waiting.

Lemma kept : thread_kept 1.
Proof. intros n s Hs. exact Hs. Qed.

Lemma deferred_calls_answered_witness :
  match (replay_deferred cfg chat message 1 question [user "hi"] waiting).1 with
  | inr context' => ∃ answers, context' = [user "hi"] ++ answers ∧ tool_call_id <$> answers = [Some "b"; Some "c"]
  | inl _ => False
  end.
Proof.
  pose proof (deferred_calls_answered cfg chat message 1 question [user "hi"] waiting approval_joins kept (ex_intro _ _ eq_refl)) as Hw.
  assert (∃ c, (replay_deferred cfg chat message 1 question [user "hi"] waiting).1 = inr c) as [c Hc] by (eexists; vm_compute; reflexivity).
  destruct (replay_deferred cfg chat message 1 question [user "hi"] waiting) as [out a']. cbn [fst] in Hc |- *. subst out.
  destruct Hw as (answers & Hctx & _ & Hids). exists answers. split; [exact Hctx|exact Hids].
Defined.

Lemma approval_runs_what_was_asked_witness :
  (∃ rest, cs_executed (ag_chat (process_approval layer cfg message 1 (Some 9%N) true false waiting).2) = pending_call question :: rest) ∧
  cs_executed (ag_chat (process_approval layer cfg message 1 (Some 8%N) true false waiting).2) = [] ∧
  cs_executed (ag_chat (process_approval layer cfg message 2 (Some 9%N) true false waiting).2) = [].
Proof.
  split; [|split].
  - exact (approval_runs_what_was_asked layer cfg message 1 (Some 9%N) true false waiting).
  - exact (proj1 (approval_runs_what_was_asked layer cfg message 1 (Some 8%N) true false waiting)).
  - exact (proj1 (approval_runs_what_was_asked layer cfg message 2 (Some 9%N) true false waiting)).
Defined.

(** A hook that rejects every tool call. *)
Definition refuse_all : HookRegistry :=
  Hooks.register (mkHook "no" [BeforeToolCall] FailClosed 1 (fun _ => Ok (Reject "no"))) Hooks.registry_new.

Lemma deferred_calls_skip_hooks_witness :
  let sh := cs_shared (ag_chat waiting) in
  let hooked := with_chat (with_shared (mkShared (sh_session sh) (sh_tools sh) refuse_all (sh_guard sh)) (ag_chat waiting)) waiting in
  ∃ ran, cs_executed (ag_chat (replay_deferred cfg chat message 1 question [] hooked).2) = ran ∧ ran ≡ₚ [call "b" "echo"; call "c" "echo"].
Proof.
  apply (deferred_calls_skip_hooks cfg chat message 1 question [] waiting refuse_all approval_joins).
  apply (bool_decide_unpack _). vm_compute. exact I.
Defined.

Lemma rejected_call_reads_ok_witness :
  ∃ th', ag_thread 1 (reject message 1 question waiting).2 = Some th' ∧ thread_state th' = ThreadState.Idle ∧
    pending_approval th' = None ∧ tool_result (generate_tool_call_id 0 0) "shell" "OK" ∈ messages json_to_string th'.
Proof.
  pose proof (rejected_call_reads_ok message 1 question waiting thread [] asked 0 asked_call eq_refl eq_refl eq_refl eq_refl eq_refl) as Hw.
  cbn [length Z.of_nat ttc_name asked_call] in Hw. exact Hw.
Defined.
End Example.
