(* ===== verification/Worker.v ===== *)
(** * Worker: the execution of a job

    [src/worker/job.rs] with [src/worker/autonomous_recovery.rs], [src/context/fallback.rs],
    [ensure_ends_with_user_message] of [src/util.rs] and the messages of [src/tools/autonomy.rs].  A worker takes a job
    from the scheduler, lets the model plan, executes the plan and then runs the agentic loop with its own delegate;
    its tools run without questions, within the approval context of the job.

    The handlers are computations of the monad [St] over [WorkerState].  What the worker shares with other tasks
    (the contexts and memories of jobs, the tools, the hooks, the rate limiter and the channel of messages) is
    [WorkerShared]; the other tasks act on it before every access ([we_others]).  The writes that are spawned
    and forgotten are the log [ws_db]. *)

From Stdlib Require Import Ascii.
From stdpp Require Import pretty.
From S2P Require Import Prelude Text TextSearch Effects F64 JobState JobMemory ContextManager Hooks RateLimiter Provider.
From S2P Require Import Session ReplyText Prompts Reasoning AgenticLoop LeakDetector Sanitizer Validator SafetyLayer.
From S2P Require Import ToolParams Redaction ToolExec ChatText Dispatcher.

(** ** Malformed answers: [autonomous_recovery.rs] *)

Definition EMPTY_TOOL_COMPLETION_NUDGE : string :=
  str_join nl_str ["Your previous tool-enabled response was empty or malformed.";
                   "If you need to use a tool, call it now with valid arguments.";
                   "Otherwise, provide a real status update about work already completed."].

Definition FORCE_TEXT_RECOVERY_PROMPT : string :=
  str_join nl_str ["Your previous tool-enabled responses were empty or malformed.";
                   "Do not call any more tools in the next reply.";
                   "Instead, provide a concise final status based only on work already completed.";
                   "If the job is complete, say so explicitly. If not, explain what blocked you."].

Definition EMPTY_TOOL_COMPLETION_FAILURE : string :=
  "the selected model repeatedly returned empty or malformed tool-completion responses and is not reliable for autonomous tool use.".

Record RecoveryState : Type := mkRecovery {
  empty_completions : Z;
  text_pending : bool;
  text_active : bool
}.

Definition recovery_default : RecoveryState := mkRecovery 0 false false.

Inductive RecoveryAction : Type := RContinue | ToolModeNudge | ForceTextRecovery | RFail.

Definition begin_iteration (r : RecoveryState) : bool * RecoveryState :=
  if text_pending r then (true, mkRecovery (empty_completions r) false true) else (text_active r, r).

Definition on_text_response (m : ResponseMetadata) (text : string) (r : RecoveryState) : RecoveryAction * RecoveryState :=
  match anomaly m with
  | Some EmptyToolCompletion =>
      let n := Z.min u64_max (empty_completions r + 1) in
      if (n =? 1)%Z then (ToolModeNudge, mkRecovery n (text_pending r) false)
      else if (n =? 2)%Z then (ForceTextRecovery, mkRecovery n true false)
      else (RFail, mkRecovery n (text_pending r) false)
  | a =>
      if match a with Some EmptyTextResponse => text_active r | _ => false end
      then (RFail, mkRecovery (empty_completions r) (text_pending r) false)
      else if negb (str_is_empty (trim text)) then (RContinue, recovery_default)
      else (RContinue, r)
  end.

Definition on_valid_tool_call (_ : RecoveryState) : RecoveryState := recovery_default.

(** ** Tools of autonomous work: [autonomy.rs] *)

Definition AUTONOMOUS_TOOL_DENYLIST : list string :=
  ["routine_create"; "routine_update"; "routine_delete"; "routine_fire"; "event_emit"; "create_job"; "job_prompt";
   "restart"; "tool_install"; "tool_auth"; "tool_activate"; "tool_remove"; "tool_upgrade"; "skill_install";
   "skill_remove"; "secret_list"; "secret_delete"].

Definition is_autonomous_tool_denylisted (nm : string) : bool := bool_decide (nm ∈ AUTONOMOUS_TOOL_DENYLIST).

Definition autonomous_unavailable_message (nm owner : string) : string :=
  if is_autonomous_tool_denylisted nm then cat ["Tool '"; nm; "' is not available in autonomous jobs or routines"]
  else cat ["Tool '"; nm; "' is not currently available for owner '"; owner; "'"].

Definition autonomous_unavailable_error (nm owner : string) : ToolError :=
  AutonomousUnavailable nm (autonomous_unavailable_message nm owner).

(** [active] is the owner of the extension manager with the names of its active tools. *)
Definition autonomous_allowed_tool_names {C} (r : ToolRegistry C) (active : option (string * list string)) (owner : string)
    : gset string :=
  let keep (s : gset string) := base.filter (fun nm => is_autonomous_tool_denylisted nm = false) s in
  keep (builtin_names r) ∪
  match active with
  | Some (o, names) => if (o =? owner)%string then keep (list_to_set names) else ∅
  | None => ∅
  end.

(** ** Messages and events *)

Inductive WorkerMessage : Type := Start | Stop | Ping | UserMessage (content : string).

Definition ensure_ends_with_user_message (ms : list ChatMessage) : list ChatMessage :=
  match last ms with
  | Some m => if decide (role m = User) then ms else ms ++ [user "Continue."]
  | None => ms ++ [user "Continue."]
  end.

Record PlannedAction : Type := mkPlanned {
  pl_tool_name : string;
  pl_parameters : Json;
  pl_reasoning : string;
  pl_expected_outcome : string
}.

Record ActionPlan : Type := mkPlan {
  goal : string;
  plan_actions : list PlannedAction;
  plan_estimated_cost : option f64;
  plan_estimated_time_secs : option Z;
  confidence : f64
}.

Inductive AppEvent : Type :=
| JobMessage (job role content : string)
| JobToolUse (job tool : string) (input : Json)
| JobToolResult (job tool output : string)
| JobStatusEvent (job message : string)
| JobResult (job status : string) (session_id : option string) (fallback_deliverable : option Json)
| JobReasoning (job narrative : string) (decisions : list ToolDecision).

Definition text_field (key dflt : string) (data : Json) : string := default dflt (json_get key data ≫= as_str).

Definition decision_of_json (d : Json) : option ToolDecision :=
  match json_get "tool_name" d ≫= as_str, json_get "rationale" d ≫= as_str with
  | Some t, Some r => Some (mkDecision t r)
  | _, _ => None
  end.

Definition decisions_from_json (v : option Json) : list ToolDecision :=
  match v with Some (JArray l) => omap decision_of_json l | _ => [] end.

(** What is broadcast for an event. *)
Definition app_event (job event_type : string) (data : Json) : option AppEvent :=
  if (event_type =? "message")%string then
    Some (JobMessage job (text_field "role" "assistant" data) (text_field "content" "" data))
  else if (event_type =? "tool_use")%string then
    Some (JobToolUse job (text_field "tool_name" "unknown" data) (default JNull (json_get "input" data)))
  else if (event_type =? "tool_result")%string then
    Some (JobToolResult job (text_field "tool_name" "unknown" data) (text_field "output" "" data))
  else if (event_type =? "status")%string then Some (JobStatusEvent job (text_field "message" "" data))
  else if (event_type =? "result")%string then
    Some (JobResult job (text_field "status" "completed" data) (json_get "session_id" data ≫= as_str)
            (json_get "fallback_deliverable" data))
  else if (event_type =? "reasoning")%string then
    Some (JobReasoning job (text_field "narrative" "" data) (decisions_from_json (json_get "decisions" data)))
  else None.

(** ** What is left of a failed job: [fallback.rs] *)

Definition truncate_str (s : string) (max_len : nat) : string := str_to (floor_char_boundary s max_len) s.

Record LastAction : Type := mkLast { la_tool_name : string; la_output_preview : string; la_success : bool }.
Record ActionStats : Type := mkStats { st_total : Z; st_successful : Z; st_failed : Z }.

Record FallbackDeliverable : Type := mkFallback {
  fb_partial : bool;
  fb_failure_reason : string;
  fb_last_action : option LastAction;
  fb_action_stats : ActionStats;
  fb_tokens_used : Z;
  fb_cost : string;
  fb_elapsed_secs : f64;
  fb_repair_attempts : Z
}.

Section fallback.
  Context `{Decimal}.
  Variable json_to_string : Json -> string.
  Variable dec_to_string : dec -> string.
  Variable print_f64 : f64 -> string.

Definition last_action_of (a : ActionRecord) : LastAction :=
  let text :=
    match ar_output_sanitized a with
    | Some (JString s) => s
    | Some v => json_to_string v
    | None => default "" (ar_error a)
    end in
  mkLast (ar_tool_name a) (truncate_str text 200) (ar_success a).

(** [now] is the reading of [elapsed]. *)
Definition fallback_build (c : JobContext) (m : Memory) (reason : string) (now : Z) : FallbackDeliverable :=
  let successful := wrap32 (Z.of_nat (successful_actions m)) in
  mkFallback (0 <? successful)%Z (truncate_str reason 1000) (last_action_of <$> last_action m)
    (mkStats (wrap32 (Z.of_nat (length (actions m)))) successful (wrap32 (Z.of_nat (failed_actions m))))
    (total_tokens_used c) (dec_to_string (actual_cost c)) (f64_of_Z (default 0%Z (elapsed c now))) (repair_attempts c).

Definition number (z : Z) : Json := JNumber (pretty z).

(** [serde_json::to_value], which cannot fail for these fields. *)
Definition fallback_json (f : FallbackDeliverable) : Json :=
  JObject [
    ("partial", JBool (fb_partial f));
    ("failure_reason", JString (fb_failure_reason f));
    ("last_action",
      match fb_last_action f with
      | Some a => JObject [("tool_name", JString (la_tool_name a)); ("output_preview", JString (la_output_preview a));
                           ("success", JBool (la_success a))]
      | None => JNull
      end);
    ("action_stats", let s := fb_action_stats f in
      JObject [("total", number (st_total s)); ("successful", number (st_successful s)); ("failed", number (st_failed s))]);
    ("tokens_used", number (fb_tokens_used f));
    ("cost", JString (fb_cost f));
    ("elapsed_secs", JNumber (print_f64 (fb_elapsed_secs f)));
    ("repair_attempts", number (fb_repair_attempts f))].

Definition set_metadata (v : Json) (c : JobContext) : JobContext :=
  JobState.mkContext _ (job_id c) (state c) (user_id c) (requester_id c) (conversation_id c) (title c) (description c)
    (category c) (budget c) (budget_token c) (bid_amount c) (estimated_cost c) (estimated_duration c) (actual_cost c)
    (total_tokens_used c) (max_tokens c) (created_at c) (started_at c) (completed_at c) (repair_attempts c)
    (transitions c) v (extra_env c) (http_interceptor c) (tool_output_stash c) (user_timezone c).

Definition store_fallback_in_metadata (fallback : option FallbackDeliverable) (c : JobContext) : JobContext :=
  match fallback with
  | None => c
  | Some f =>
      let members := match metadata c with JObject l => l | _ => [] end in
      set_metadata (JObject (map_insert "fallback_deliverable" (fallback_json f) members)) c
  end.
End fallback.

(** ** The worker *)

Record Worker : Type := mkWorker {
  wk_job : Uuid;
  wk_safety : SafetyLayer;
  wk_use_planning : bool;
  wk_approval : option ApprovalContext;
  wk_interceptor : option N;
  (** whether there are a store and subscribers to events *)
  wk_store : bool;
  wk_sse : bool
}.

(** What the worker's spawned writes bring to the database. *)
Inductive DbWrite `{Decimal} : Type :=
| DbStatus (s : JobState) (reason : option string)
| DbEvent (event_type : string) (data : Json)
| DbAction (a : ActionRecord)
| DbToolFailure (tool error : string).

Record WorkerShared `{Decimal} : Type := mkWorkerShared {
  wsh_contexts : ContextManager;
  wsh_tools : ToolRegistry (ToolCtx JobContext);
  wsh_hooks : HookRegistry;
  wsh_limiter : RateLimiter;
  wsh_inbox : list WorkerMessage
}.

(** A call that reached the code of a tool: its name, the parameters as the model wrote them, the tool, the
    parameters and the context it was given. *)
Record Executed `{Decimal} : Type := mkExecuted {
  ex_name : string;
  ex_asked : Json;
  ex_tool : ToolExec.Tool (ToolCtx JobContext);
  ex_params : Json;
  ex_context : JobContext
}.

(** [ws_executed] lists what was handed to the code of a tool, the latest last. *)
Record WorkerState `{Decimal} (P : Type) : Type := mkWorkerState {
  ws_shared : WorkerShared;
  ws_reasoning : Reasoning P;
  ws_world : World;
  ws_rate_limits : nat;
  ws_recovery : RecoveryState;
  ws_has_text : bool;
  ws_db : list DbWrite;
  ws_sse : list AppEvent;
  ws_executed : list Executed;
  ws_tick : nat
}.
Arguments mkWorkerState {_ P}.
Arguments ws_shared {_ P}.
Arguments ws_reasoning {_ P}.
Arguments ws_world {_ P}.
Arguments ws_rate_limits {_ P}.
Arguments ws_recovery {_ P}.
Arguments ws_has_text {_ P}.
Arguments ws_db {_ P}.
Arguments ws_sse {_ P}.
Arguments ws_executed {_ P}.
Arguments ws_tick {_ P}.

Class WorkerEnv `{Decimal} := {
  (** the other tasks *)
  we_others : nat -> WorkerShared -> WorkerShared;
  (** the order in which spawned calls are joined, and which of them did not return *)
  we_join : nat -> list (nat * ToolSelection) -> list (nat * ToolSelection * bool);
  (** [Tool::rate_limit_config] *)
  we_rate_limit : ToolExec.Tool (ToolCtx JobContext) -> option ToolRateLimitConfig;
  we_parse_plan : string -> Result string ActionPlan;
  we_uuid : nat -> Uuid;
  we_uuid_text : Uuid -> string;
  we_decimal_text : dec -> string;
  we_llm_text : LlmError -> string
}.

Definition MAX_CONSECUTIVE_RATE_LIMITS : nat := 10.
Definition MAX_WORKER_ITERATIONS : Z := 500.

Definition is_completion_eligible_error (e : LlmError) : bool :=
  match e with EmptyResponse _ => true | _ => false end.

Definition selections_to_tool_calls (l : list ToolSelection) : list ToolCall :=
  (fun s => mkToolCall (ts_tool_call_id s) (ts_tool_name s) (ts_parameters s)
              (if str_is_empty (ts_reasoning s) then None else Some (ts_reasoning s))) <$> l.

Section worker.
  Context {P : Type} `{LlmProvider P} `{!ChatEnv JobContext} `{!WorkerEnv} `{RegexEngine} `{MultiMatcher}.
  Variable wk : Worker.
  Implicit Types (s : WorkerState P) (ctx : ReasoningContext) (c : JobContext).

Abbreviation Job := (St (WorkerState P)).

(** *** Texts of errors *)

Definition job_error_text (e : JobError) : string :=
  match e with
  | JobState.NotFound id => cat ["Job "; we_uuid_text id; " not found"]
  | InvalidTransition id from target =>
      cat ["Job "; we_uuid_text id; " already in state "; from; ", cannot transition to "; target]
  | JobFailed id reason => cat ["Job "; we_uuid_text id; " failed: "; reason]
  | JobStuck id d => cat ["Job "; we_uuid_text id; " stuck for "; ce_duration d]
  | MaxJobsExceeded max => cat ["Maximum parallel jobs ("; show_nat max; ") exceeded"]
  | ContextError id reason => cat ["Job "; we_uuid_text id; " context error: "; reason]
  end.

Definition error_text (e : Error) : string :=
  match e with
  | ELlm e => "LLM error: " +:+ we_llm_text e
  | ETool e => "Tool error: " +:+ tool_error_text e
  | EJob e => "Job error: " +:+ job_error_text e
  end.

Definition budget_text (e : TokenBudgetExceeded) : string :=
  cat ["Token budget exceeded: used "; pretty (tb_used e); " of "; pretty (tb_limit e); " allowed tokens"].

(** *** Access to the state *)

Definition with_wshared (sh : WorkerShared) s : WorkerState P :=
  mkWorkerState sh (ws_reasoning s) (ws_world s) (ws_rate_limits s) (ws_recovery s) (ws_has_text s) (ws_db s) (ws_sse s)
    (ws_executed s) (ws_tick s).
Definition with_contexts (cm : ContextManager) s : WorkerState P :=
  with_wshared (mkWorkerShared _ cm (wsh_tools (ws_shared s)) (wsh_hooks (ws_shared s)) (wsh_limiter (ws_shared s))
                  (wsh_inbox (ws_shared s))) s.
Definition with_limiter (l : RateLimiter) s : WorkerState P :=
  with_wshared (mkWorkerShared _ (wsh_contexts (ws_shared s)) (wsh_tools (ws_shared s)) (wsh_hooks (ws_shared s)) l
                  (wsh_inbox (ws_shared s))) s.
Definition with_inbox (l : list WorkerMessage) s : WorkerState P :=
  with_wshared (mkWorkerShared _ (wsh_contexts (ws_shared s)) (wsh_tools (ws_shared s)) (wsh_hooks (ws_shared s))
                  (wsh_limiter (ws_shared s)) l) s.
Definition with_brain (r : Reasoning P) (w : World) s : WorkerState P :=
  mkWorkerState (ws_shared s) r w (ws_rate_limits s) (ws_recovery s) (ws_has_text s) (ws_db s) (ws_sse s) (ws_executed s)
    (ws_tick s).
Definition with_progress (limits : nat) (rec : RecoveryState) (text : bool) s : WorkerState P :=
  mkWorkerState (ws_shared s) (ws_reasoning s) (ws_world s) limits rec text (ws_db s) (ws_sse s) (ws_executed s) (ws_tick s).
Definition with_logs (db : list DbWrite) (sse : list AppEvent) (ex : list Executed) s : WorkerState P :=
  mkWorkerState (ws_shared s) (ws_reasoning s) (ws_world s) (ws_rate_limits s) (ws_recovery s) (ws_has_text s) db sse ex
    (ws_tick s).

(** Other tasks run, then the shared state is looked at. *)
Definition acquire : Job WorkerShared := act (fun s =>
  let sh := we_others (ws_tick s) (ws_shared s) in
  (sh, mkWorkerState sh (ws_reasoning s) (ws_world s) (ws_rate_limits s) (ws_recovery s) (ws_has_text s) (ws_db s) (ws_sse s)
         (ws_executed s) (S (ws_tick s)))).

Definition read_now : Job Z := act (fun s => let '(t, w) := now (ws_world s) in (t, with_brain (ws_reasoning s) w s)).
Definition pause (d : Z) : Job unit := modify (fun s => with_brain (ws_reasoning s) (sleep d (ws_world s)) s).
Definition fresh_uuid : Job Uuid := gets (fun s => we_uuid (ws_tick s)).

(** The clock at [n] program points. *)
Fixpoint readings (n : nat) : Job (list Z) :=
  match n with O => mret [] | S n => t ← read_now; l ← readings n; mret (t :: l) end.
Definition clock_of (l : list Z) : Clock := fun i => default 0%Z (l !! i).

Definition job_context : Job (Result JobError JobContext) :=
  sh ← acquire; mret (get_context (wk_job wk) (wsh_contexts sh)).

Definition update_job {R} (f : Clock -> JobContext -> R * JobContext) : Job (Result JobError R) :=
  _ ← acquire;
  l ← readings 2;
  act (fun s => let '(r, cm) := update_context (wk_job wk) (f (clock_of l)) (wsh_contexts (ws_shared s)) in (r, with_contexts cm s)).

(** *** Events and records *)

Definition db_write (w : DbWrite) : Job unit :=
  modify (fun s => if wk_store wk then with_logs (ws_db s ++ [w]) (ws_sse s) (ws_executed s) s else s).

Definition broadcast (e : AppEvent) : Job unit :=
  modify (fun s => if wk_sse wk then with_logs (ws_db s) (ws_sse s ++ [e]) (ws_executed s) s else s).

Definition persist_status (st : JobState) (reason : option string) : Job unit := db_write (DbStatus st reason).

Definition log_event (event_type : string) (data : Json) : Job unit :=
  _ ← db_write (DbEvent event_type data);
  match app_event (we_uuid_text (wk_job wk)) event_type data with
  | Some e => broadcast e
  | None => mret tt
  end.

Definition said (who text : string) : Json := JObject [("role", JString who); ("content", JString text)].
Definition log_status (text : string) : Job unit := log_event "status" (JObject [("message", JString text)]).
Definition log_result (status : string) (success : bool) (text : string) : Job unit :=
  log_event "result" (JObject [("status", JString status); ("success", JBool success); ("message", JString text)]).

(** *** The end of a job *)

Definition build_fallback (reason : string) : Job (option FallbackDeliverable) :=
  sh ← acquire;
  match get_memory (wk_job wk) (wsh_contexts sh) with
  | Err _ => mret None
  | Ok m =>
      r ← job_context;
      match r with
      | Err _ => mret None
      | Ok c => t ← read_now; mret (Some (fallback_build ce_to_string we_decimal_text c m reason t))
      end
  end.

(** The update of a context with a move of its state, and what is written to the metadata after it. *)
Definition move_job (move : Clock -> JobContext -> JobContext * Result string unit) (after : JobContext -> JobContext)
    : Job (Result Error unit) :=
  r ← update_job (fun clk c => match move clk c with (c, Ok _) => (Ok tt, after c) | (c, Err e) => (Err e, c) end);
  mret match r with
       | Err e => Err (EJob e)
       | Ok (Err reason) => Err (EJob (ContextError (wk_job wk) reason))
       | Ok (Ok _) => Ok tt
       end.

Definition COMPLETED : string := "Job completed successfully".

Definition mark_completed : Job (Result Error unit) :=
  _ ←? move_job (fun clk c => transition_to clk c Completed (Some COMPLETED)) id;
  _ ← log_result "completed" true COMPLETED;
  _ ← persist_status Completed (Some COMPLETED);
  mret (Ok tt).

Definition store_fallback (f : option FallbackDeliverable) : JobContext -> JobContext :=
  store_fallback_in_metadata ce_print_f64 f.

Definition mark_failed (reason : string) : Job (Result Error unit) :=
  fallback ← build_fallback reason;
  _ ←? move_job (fun clk c => transition_to clk c Failed (Some reason)) (store_fallback fallback);
  _ ← log_result "failed" false ("Execution failed: " +:+ reason);
  _ ← persist_status Failed (Some reason);
  mret (Ok tt).

Definition mark_stuck_job (reason : string) : Job (Result Error unit) :=
  fallback ← build_fallback reason;
  _ ←? move_job (fun clk c => mark_stuck clk c reason) (store_fallback fallback);
  _ ← log_result "stuck" false ("Job stuck: " +:+ reason);
  _ ← persist_status Stuck (Some reason);
  mret (Ok tt).

(** *** Tool calls *)

Definition prepared (tool : ToolExec.Tool (ToolCtx JobContext)) (params : Json) : Json :=
  prepare_tool_params ce_lower parse_value ce_print_f64 tool params.

Definition call_event (tool : ToolExec.Tool (ToolCtx JobContext)) (nm : string) (params : Json) (user : string) : HookEvent :=
  Hooks.ToolCall nm (redact_params params (sensitive_params tool)) user ("job:" +:+ we_uuid_text (wk_job wk)).

(** The parameters the hooks leave, or the error of the hook that stopped the call. *)
Definition hooked_params (hooks : HookRegistry) (tool : ToolExec.Tool (ToolCtx JobContext)) (nm : string) (params : Json)
    (user : string) : Result ToolError Json :=
  match Hooks.run ce_from_str ce_to_string ce_hook_elapsed ce_hook_error hooks (call_event tool nm params user) with
  | Err (Rejected reason) => Err (ExecutionFailed nm ("Blocked by hook: " +:+ reason))
  | Err err => Err (ExecutionFailed nm ("Blocked by hook failure mode: " +:+ ce_hook_error err))
  | Ok (Hooks.Continue (Some new_params)) =>
      match ce_from_str new_params with
      | Ok parsed => Ok (prepared tool parsed)
      | Err _ => Ok params
      end
  | Ok _ => Ok params
  end.

(** [Some] is the time to wait. *)
Definition check_rate (tool : ToolExec.Tool (ToolCtx JobContext)) (nm user : string) : Job (option Z) :=
  match we_rate_limit tool with
  | None => mret None
  | Some config =>
      _ ← acquire;
      ts ← readings 7;
      act (fun s =>
        let '(r, l) := check_and_record (clock_of ts) user nm config (wsh_limiter (ws_shared s)) in
        (match r with Limited retry_after _ => Some retry_after | Allowed _ _ => None end, with_limiter l s))
  end.

Definition with_http_interceptor (i : option N) c : JobContext :=
  match http_interceptor c with
  | Some _ => c
  | None =>
      JobState.mkContext _ (job_id c) (state c) (user_id c) (requester_id c) (conversation_id c) (title c) (description c)
        (category c) (budget c) (budget_token c) (bid_amount c) (estimated_cost c) (estimated_duration c) (actual_cost c)
        (total_tokens_used c) (max_tokens c) (created_at c) (started_at c) (completed_at c) (repair_attempts c)
        (transitions c) (metadata c) (extra_env c) i (tool_output_stash c) (user_timezone c)
  end.

(** Everything before the tool's code, and what that code will get. *)
Definition clear_call (nm : string) (params : Json)
    : Job (Result Error Executed) :=
  sh ← acquire;
  match registry_get nm (wsh_tools sh) with
  | None => mret (Err (ETool (ToolExec.NotFound nm)))
  | Some tool =>
      let normalized := prepared tool params in
      r ← job_context;
      match r with
      | Err e => mret (Err (EJob e))
      | Ok c =>
          let c := with_http_interceptor (wk_interceptor wk) c in
          if is_blocked_or_default (wk_approval wk) nm (requires_approval tool normalized) then
            mret (Err (ETool (autonomous_unavailable_error nm (user_id c))))
          else
            limited ← check_rate tool nm (user_id c);
            match limited with
            | Some retry_after => mret (Err (ETool (ToolExec.RateLimited nm (Some retry_after))))
            | None =>
                sh ← acquire;
                match hooked_params (wsh_hooks sh) tool nm normalized (user_id c) with
                | Err e => mret (Err (ETool e))
                | Ok effective =>
                    if decide (state c = Cancelled) then mret (Err (ETool (ExecutionFailed nm "Job is cancelled")))
                    else
                      let validation := validate_tool_params ce_lower (sl_validator (wk_safety wk)) effective in
                      if negb (is_valid validation) then
                        mret (Err (ETool (InvalidParameters nm
                          ("Invalid tool parameters: " +:+ validation_details validation))))
                      else mret (Ok (mkExecuted _ nm params tool effective c))
                end
            end
      end
  end.

Definition note_executed (e : Executed) : Job unit :=
  modify (fun s => with_logs (ws_db s) (ws_sse s) (ws_executed s ++ [e]) s).

Definition pretty_or_empty (v : Json) : string := match ce_pretty v with Ok t => t | Err _ => "" end.

(** The record of what a tool gave back. *)
Definition action_of (nm : string) (out : option (Result string Json)) (duration : Z) (a : ActionRecord) : ActionRecord :=
  match out with
  | Some (Ok v) =>
      succeed pretty_or_empty
        (match ce_pretty v with
         | Ok t => Some (so_content (sanitize_tool_output ce_lower (wk_safety wk) nm t))
         | Err _ => None
         end) v duration a
  | Some (Err e) => fail e duration a
  | None => fail "Execution timeout" duration a
  end.

Definition record_action_in_memory (nm : string) (safe_params : Json) (out : option (Result string Json)) (duration : Z)
    : Job unit :=
  _ ← acquire;
  id ← fresh_uuid;
  t ← read_now;
  r ← act (fun s =>
    let '(r, cm) := update_memory (wk_job wk) (fun m =>
      let '(a, m) := create_action id t nm safe_params m in
      let rec := action_of nm out duration a in (rec, record_action rec m)) (wsh_contexts (ws_shared s)) in
    (r, with_contexts cm s));
  match r with Ok rec => db_write (DbAction rec) | Err _ => mret tt end.

Definition tool_outcome (tool : ToolExec.Tool (ToolCtx JobContext)) (nm : string) (out : option (Result string Json))
    : Result Error string :=
  match out with
  | None => Err (ETool (Timeout nm (execution_timeout tool)))
  | Some (Err e) => Err (ETool (ExecutionFailed nm e))
  | Some (Ok v) =>
      match ce_pretty v with
      | Ok t => Ok t
      | Err e => Err (ETool (ExecutionFailed nm ("Failed to serialize result: " +:+ e)))
      end
  end.

(** The stash of a job's context is empty: only the chat dispatcher fills one. *)
Definition run_cleared (e : Executed) : Job (Result Error string) :=
  let tool := ex_tool e in
  t0 ← read_now;
  _ ← note_executed e;
  let out := tool_execute tool (ex_params e) (ex_context e, ∅) in
  t1 ← read_now;
  _ ← record_action_in_memory (ex_name e) (redact_params (ex_params e) (sensitive_params tool)) out (t1 - t0)%Z;
  mret (tool_outcome tool (ex_name e) out).

Definition execute_tool_inner (nm : string) (params : Json) : Job (Result Error string) :=
  e ←? clear_call nm params;
  run_cleared e.

(** A task that does not return: its call may have reached the tool. *)
Definition lost_call (nm : string) (params : Json) : Job unit :=
  r ← clear_call nm params;
  match r with Ok e => note_executed e | Err _ => mret tt end.

Fixpoint join_tools (joined : list (nat * ToolSelection * bool)) (slots : list (option (Result Error string)))
    : Job (list (option (Result Error string))) :=
  match joined with
  | [] => mret slots
  | (i, sel, true) :: joined =>
      _ ← lost_call (ts_tool_name sel) (ts_parameters sel);
      join_tools joined slots
  | (i, sel, false) :: joined =>
      r ← execute_tool_inner (ts_tool_name sel) (ts_parameters sel);
      join_tools joined (<[i := Some r]> slots)
  end.

Definition lost_result (sel : ToolSelection) : Result Error string :=
  Err (ETool (ExecutionFailed (ts_tool_name sel) "Task failed during execution")).

Definition execute_tools_parallel (sels : list ToolSelection) : Job (list (Result Error string)) :=
  match sels with
  | [] => mret []
  | [sel] => r ← execute_tool_inner (ts_tool_name sel) (ts_parameters sel); mret [r]
  | _ =>
      joined ← gets (fun s => we_join (ws_tick s) (imap pair sels));
      slots ← join_tools joined (replicate (length sels) None);
      mret (zip_with (fun sel slot => default (lost_result sel) slot) sels slots)
  end.

(** The result becomes a tool message; an error never ends the job. *)
Definition process_tool_result_job (sel : ToolSelection) (result : Result Error string) ctx : Job ReasoningContext :=
  let nm := ts_tool_name sel in
  _ ← log_event "tool_use" (JObject [("tool_name", JString nm);
        ("input", JString (AgenticLoop.truncate_for_preview (ce_to_string (ts_parameters sel)) 500))]);
  let shown := match result with Ok t => Ok t | Err e => Err (error_text e) end in
  let ctx := push_message (process_tool_result ce_lower (wk_safety wk) nm (ts_tool_call_id sel) shown).2 ctx in
  let reported success text :=
    log_event "tool_result" (JObject [("tool_name", JString nm); ("success", JBool success);
      ("output", JString (AgenticLoop.truncate_for_preview text 500))]) in
  match result with
  | Ok raw => _ ← reported true (so_content (sanitize_tool_output ce_lower (wk_safety wk) nm raw)); mret ctx
  | Err e => _ ← db_write (DbToolFailure nm (error_text e)); _ ← reported false ("Error: " +:+ error_text e); mret ctx
  end.

(** *** A plan *)

Inductive PlanSignal : Type := PlanGoOn | PlanStop | PlanInterrupted (content : string).

(** The messages before an action, up to the one that ends the plan. *)
Fixpoint plan_signal (inbox : list WorkerMessage) : PlanSignal * list WorkerMessage :=
  match inbox with
  | [] => (PlanGoOn, [])
  | Stop :: rest => (PlanStop, rest)
  | UserMessage content :: rest => (PlanInterrupted content, rest)
  | (Ping | Start) :: rest => plan_signal rest
  end.

Definition receive_plan_signal : Job PlanSignal :=
  sh ← acquire;
  let '(sig, rest) := plan_signal (wsh_inbox sh) in
  _ ← modify (with_inbox rest);
  mret sig.

(** Whether the plan came to its end, with the context. *)
Fixpoint plan_loop (i : nat) (l : list PlannedAction) ctx : Job (bool * ReasoningContext) :=
  match l with
  | [] => mret (true, ctx)
  | a :: l =>
      sig ← receive_plan_signal;
      match sig with
      | PlanStop => mret (false, ctx)
      | PlanInterrupted content =>
          _ ← log_event "message" (said "user" content);
          _ ← log_status "Plan interrupted by user message, re-evaluating...";
          mret (false, push_message (user content) ctx)
      | PlanGoOn =>
          let sel := mkSelection (pl_tool_name a) (pl_parameters a) (pl_reasoning a) []
                       (cat ["plan_"; we_uuid_text (wk_job wk); "_"; show_nat i]) in
          let ctx := push_message (assistant_with_tool_calls None (selections_to_tool_calls [sel])) ctx in
          r ← execute_tool_inner (pl_tool_name a) (pl_parameters a);
          ctx ← process_tool_result_job sel r ctx;
          _ ← pause (secs 1 / 10);
          plan_loop (S i) l ctx
      end
  end.

Definition ASSESS : string :=
  "All planned actions have been executed. Assess the results: if the job is fully complete, state that the job is complete. Otherwise, briefly list what remains.".

Definition remaining_work (response : string) : string :=
  cat ["The planned actions are done but the job is not yet complete. Remaining work:"; nl2; response; nl2;
       "Continue executing now — use tools to finish the job."].

Definition ask_model {A} (f : Reasoning P -> World -> Result LlmError A * Reasoning P * World) : Job (Result LlmError A) :=
  act (fun s => let '(res, r, w) := f (ws_reasoning s) (ws_world s) in (res, with_brain r w s)).

Definition execute_plan (plan : ActionPlan) ctx : Job (Result Error ReasoningContext) :=
  '(finished, ctx) ← plan_loop 0 (plan_actions plan) ctx;
  if negb finished then mret (Ok ctx)
  else
    let asked := push_message (user ASSESS) ctx in
    res ← ask_model (respond parse_value ce_to_string asked);
    match res with
    | Err e => mret (Err (ELlm e))
    | Ok response =>
        let response := strip_suggestions parse_value response in
        if llm_signals_completion ce_lower response then
          _ ←? mark_completed;
          mret (Ok (push_message (assistant response) asked))
        else
          _ ← log_status "Plan completed but job needs more work, continuing...";
          mret (Ok (push_message (user (remaining_work response)) ctx))
    end.

(** *** The delegate *)

Definition no_usage : TokenUsage := mkUsage 0 0 0 0.
Definition empty_output : RespondOutput := mkOutput (RText "") no_usage Provider.Stop (mkRespMeta None).

Definition set_limits (n : nat) : Job unit := modify (fun s => with_progress n (ws_recovery s) (ws_has_text s) s).

Definition handle_rate_limit (retry_after : option Z) : Job (Result Error RespondOutput) :=
  n ← gets (fun s => S (ws_rate_limits s));
  _ ← set_limits n;
  let wait := default (secs 5) retry_after in
  if decide (MAX_CONSECUTIVE_RATE_LIMITS ≤ n)%nat then
    _ ←? mark_failed "Persistent rate limiting: exceeded retry limit";
    mret (Err (ELlm (Provider.RateLimited "rate-limit-exhausted" None)))
  else
    _ ← log_status (cat ["Rate limited, retrying in "; pretty (wait / secs 1)%Z; "s... ("; show_nat n; "/";
                         show_nat MAX_CONSECUTIVE_RATE_LIMITS; ")"]);
    _ ← pause wait;
    mret (Ok empty_output).

(** An empty answer after a text counts as the end of the job. *)
Definition try_complete_on_error (e : LlmError) : Job (option RespondOutput) :=
  has_text ← gets ws_has_text;
  if is_completion_eligible_error e && has_text then _ ← mark_completed; mret (Some empty_output) else mret None.

Definition llm_failure (e : LlmError) : Job (Result Error RespondOutput) :=
  match e with
  | Provider.RateLimited _ retry_after => handle_rate_limit retry_after
  | e =>
      done ← try_complete_on_error e;
      mret match done with Some out => Ok out | None => Err (ELlm e) end
  end.

Definition is_user_message (m : WorkerMessage) : option string := match m with UserMessage t => Some t | _ => None end.

Definition stops_worker (st : JobState) : bool :=
  match st with Cancelled | Failed | Completed | Submitted | Accepted => true | _ => false end.

(** The whole channel is drained. *)
Definition job_check_signals : Job LoopSignal :=
  sh ← acquire;
  let texts := omap is_user_message (wsh_inbox sh) in
  _ ← modify (with_inbox []);
  _ ← st_iter (fun t => log_event "message" (said "user" t)) texts;
  if existsb (fun m => match m with Stop => true | _ => false end) (wsh_inbox sh) then mret SigStop
  else match texts with
  | t :: _ => mret (InjectMessage t)
  | [] =>
      r ← job_context;
      mret match r with
           | Ok c => if stops_worker (state c) then SigStop else SigContinue
           | Err _ => SigContinue
           end
  end.

Definition job_before_llm_call ctx (_ : nat) : Job (option LoopOutcome * ReasoningContext) :=
  force ← act (fun s => let '(b, r) := begin_iteration (ws_recovery s) in (b, with_progress (ws_rate_limits s) r (ws_has_text s) s));
  ctx ← (if force : bool then mret (set_tools [] ctx)
         else sh ← acquire; mret (set_tools (tool_definitions ce_values (wsh_tools sh)) ctx));
  mret (None, set_messages (ensure_ends_with_user_message (rc_messages ctx)) ctx).

Definition charge_tokens (out : RespondOutput) : Job (Result Error unit) :=
  let total := usage_total (ro_usage out) in
  if (0 <? total)%Z then
    r ← update_job (fun _ c => let '(c, r) := add_tokens c total in (r, c));
    match r with
    | Err e => mret (Err (EJob e))
    | Ok (Err e) => mark_failed (budget_text e)
    | Ok (Ok _) => mret (Ok tt)
    end
  else mret (Ok tt).

Definition job_call_llm (_ : unit) ctx (_ : nat) : Job (Result Error RespondOutput) :=
  sel ← ask_model (select_tools ctx);
  match sel with
  | Ok (x :: l) =>
      _ ← set_limits 0;
      let s := x :: l in
      let text := head (base.filter (fun t => t ≠ "") (ts_reasoning <$> s)) in
      mret (Ok (mkOutput (RToolCalls (selections_to_tool_calls s) text) no_usage ToolUse (mkRespMeta None)))
  | Err e => llm_failure e
  | Ok [] =>
      res ← ask_model (respond_with_tools parse_value ctx);
      match res with
      | Ok out => _ ← set_limits 0; _ ←? charge_tokens out; mret (Ok out)
      | Err e => llm_failure e
      end
  end.

Definition job_handle_text_response (text : string) (m : ResponseMetadata) ctx : Job (TextAction * ReasoningContext) :=
  action ← act (fun s => let '(a, r) := on_text_response m text (ws_recovery s) in (a, with_progress (ws_rate_limits s) r (ws_has_text s) s));
  match action with
  | ToolModeNudge =>
      _ ← log_status "Model returned an empty tool-completion response; retrying with a stronger tool-use nudge.";
      mret (TextContinue, push_message (user EMPTY_TOOL_COMPLETION_NUDGE) ctx)
  | ForceTextRecovery =>
      _ ← log_status "Model returned repeated empty tool-completion responses; requesting a final status update without tools.";
      mret (TextContinue, push_message (user FORCE_TEXT_RECOVERY_PROMPT) ctx)
  | RFail => mret (Return (Failure EMPTY_TOOL_COMPLETION_FAILURE), ctx)
  | RContinue =>
      if str_is_empty text then
        has_text ← gets ws_has_text;
        if has_text : bool then _ ← mark_completed; mret (Return (Response ""), ctx) else mret (TextContinue, ctx)
      else
        let text := strip_suggestions parse_value text in
        _ ← mark_completed;
        _ ← modify (fun s => with_progress (ws_rate_limits s) (ws_recovery s) true s);
        _ ← log_event "message" (said "assistant" text);
        mret (Return (Response text), push_message (assistant text) ctx)
  end.

Definition job_narrative (content : option string) : string :=
  match content ≫= not_blank with
  | Some t => default "" (not_blank (so_content (sanitize_tool_output ce_lower (wk_safety wk) "job_narrative" t)))
  | None => ""
  end.

Definition job_decisions (calls : list ToolCall) : list Json :=
  omap (fun tc => (fun r => JObject [("tool_name", JString (tc_name tc));
    ("rationale", JString (so_content (sanitize_tool_output ce_lower (wk_safety wk) "tool_rationale" r)))]) <$> tc_reasoning tc) calls.

Definition selection_of_call (tc : ToolCall) : ToolSelection :=
  mkSelection (tc_name tc) (tc_arguments tc) (default "" (tc_reasoning tc)) [] (tc_id tc).

Fixpoint report_results (l : list (ToolSelection * Result Error string)) ctx : Job ReasoningContext :=
  match l with
  | [] => mret ctx
  | (sel, r) :: l => ctx ← process_tool_result_job sel r ctx; report_results l ctx
  end.

Definition job_execute_tool_calls (calls : list ToolCall) (content : option string) ctx
    : Job (Result Error (option LoopOutcome) * ReasoningContext) :=
  _ ← modify (fun s => with_progress (ws_rate_limits s) (on_valid_tool_call (ws_recovery s)) (ws_has_text s) s);
  let content := strip_suggestions parse_value <$> content in
  _ ← match content with Some t => log_event "message" (said "assistant" t) | None => mret tt end;
  _ ← match job_decisions calls with
      | [] => mret tt
      | ds => log_event "reasoning" (JObject [("narrative", JString (job_narrative content)); ("decisions", JArray ds)])
      end;
  let ctx := push_message (assistant_with_tool_calls content calls) ctx in
  let sels := selection_of_call <$> calls in
  results ← execute_tools_parallel sels;
  ctx ← report_results (zip sels results) ctx;
  mret (Ok None, ctx).

Definition job_on_tool_intent_nudge (text : string) ctx : Job ReasoningContext :=
  _ ← log_event "message" (JObject [("role", JString "assistant");
        ("content", JString (AgenticLoop.truncate_for_preview text 2000)); ("nudge", JBool true)]);
  mret ctx.

(** The methods of the trait take the context apart from the state. *)
Definition flat {A B} (x : (A * B) * WorkerState P) : A * B * WorkerState P := x.

#[local] Instance job_delegate : LoopDelegate Error unit (WorkerState P) := {|
  check_signals := job_check_signals;
  before_llm_call := fun ctx i s => flat (job_before_llm_call ctx i s);
  call_llm := fun r ctx i s => let '(res, s) := job_call_llm r ctx i s in (res, ctx, s);
  handle_text_response := fun text m ctx s => flat (job_handle_text_response text m ctx s);
  execute_tool_calls := fun calls content ctx s => flat (job_execute_tool_calls calls content ctx s);
  on_tool_intent_nudge := fun text ctx s => job_on_tool_intent_nudge text ctx s;
  after_iteration := fun _ s => (pause (secs 1 / 10) s).2
|}.

(** *** A job from start to end *)

Definition plan_text (p : ActionPlan) : string :=
  str_join nl_str (imap (fun i a => cat [show_nat (S i); ". "; pl_tool_name a; " - "; pl_reasoning a]) (plan_actions p)).

Definition make_plan ctx : Job (option ActionPlan * ReasoningContext) :=
  if negb (wk_use_planning wk) then mret (None, ctx)
  else
    res ← ask_model (plan we_parse_plan ctx);
    match res with
    | Err _ => mret (None, ctx)
    | Ok p =>
        _ ← log_event "message" (said "assistant" (cat ["Plan: "; goal p; nl2; plan_text p]));
        mret (Some p, push_message (assistant (cat ["I've created a plan to accomplish this goal: "; goal p; nl2; "Steps:";
                                                    nl_str; plan_text p])) ctx)
    end.

Definition loop_iterations (c : Result JobError JobContext) : nat :=
  let asked := match c with Ok c => json_get "max_iterations" (metadata c) ≫= as_u64 | Err _ => None end in
  Z.to_nat (Z.min (default 50%Z asked) MAX_WORKER_ITERATIONS).

Definition settle_outcome (res : Result Error LoopOutcome) : Job (Result Error unit) :=
  match res with
  | Err e => mret (Err e)
  | Ok MaxIterations => mark_failed "Maximum iterations exceeded: job hit the iteration cap"
  | Ok (Failure reason) => mark_failed reason
  | Ok _ => mret (Ok tt)
  end.

Definition plan_settled : Job bool :=
  r ← job_context;
  mret match r with
       | Ok c => is_terminal (state c) || bool_decide (state c = Stuck) || bool_decide (state c = Completed)
       | Err _ => false
       end.

Definition run_job_loop (n : nat) ctx : Job (Result Error LoopOutcome) :=
  act (fun s =>
    let s := with_progress 0 recovery_default false s in
    let '(res, _, s) := run_agentic_loop ce_lower tt (mkLoopConfig n true 2) ctx s in (res, s)).

Definition execution_loop ctx : Job (Result Error unit) :=
  r ← job_context;
  sh ← acquire;
  let ctx := set_tools (tool_definitions ce_values (wsh_tools sh)) ctx in
  '(plan, ctx) ← make_plan ctx;
  let loop ctx := res ← run_job_loop (loop_iterations r) ctx; settle_outcome res in
  match plan with
  | None => loop ctx
  | Some p =>
      ctx ←? execute_plan p ctx;
      settled ← plan_settled;
      if settled : bool then mret (Ok tt) else loop ctx
  end.

Definition system_text c : string :=
  cat ["You are an autonomous agent working on a job."; nl2; "Job: "; title c; nl_str; "Description: "; description c; nl2;
       "You have access to tools to complete this job. Plan your approach and execute tools as needed."; nl_str;
       "You may request multiple tools at once if they can be executed in parallel."; nl_str;
       "Report when the job is complete or if you encounter issues you cannot resolve."].

(** [recv]: an empty inbox stands for a closed channel. *)
Definition receive : Job (option WorkerMessage) :=
  sh ← acquire;
  match wsh_inbox sh with
  | [] => mret None
  | m :: rest => _ ← modify (with_inbox rest); mret (Some m)
  end.

(** The end of the run, as the state of the job has it. *)
Definition conclude (result : option (Result Error unit)) : Job (Result Error unit) :=
  match result with
  | None => mark_stuck_job "Execution timeout"
  | Some (Err e) => mark_failed (error_text e)
  | Some (Ok _) =>
      r ← job_context;
      match r with
      | Err _ => mret (Ok tt)
      | Ok c =>
          if is_terminal (state c) || bool_decide (state c = Completed) || bool_decide (state c = Stuck) then mret (Ok tt)
          else mark_completed
      end
  end.

(** [cut] is the state in which the timeout found the execution loop, [None] when it ended in time. *)
Definition run_worker (cut : option (WorkerState P)) : Job (Result Error unit) :=
  m ← receive;
  match m with
  | None | Some Stop => mret (Ok tt)
  | Some _ =>
      r ← job_context;
      match r with
      | Err e => mret (Err (EJob e))
      | Ok c =>
          _ ← modify (fun s => let p := llm (ws_reasoning s) in
                with_brain (with_model_name (active_model_name p) (reasoning_new p)) (ws_world s) s);
          let ctx := push_message (system (system_text c))
            (mkContext [] [] (Some (description c)) None ∅ false None None) in
          result ← match cut with
                   | None => r ← execution_loop ctx; mret (Some r)
                   | Some s' => _ ← modify (fun _ => s'); mret None
                   end;
          conclude result
      end
  end.
End worker.

(** ** What reaches a tool *)

(** Most of what a worker does leaves the log of the executed calls alone. *)
Section log.
  Context {P : Type} `{LlmProvider P} `{!ChatEnv JobContext} `{!WorkerEnv} `{RegexEngine} `{MultiMatcher}.
  Variable wk : Worker.
  Variable Q : list Executed → Prop.
  Implicit Types (s : WorkerState P).

Definition logged s : Prop := Q (ws_executed s).

Lemma frame_modify (f : WorkerState P -> WorkerState P) :
  (∀ s, ws_executed (f s) = ws_executed s) → preserves logged (modify f).
Proof. intros Hf. apply preserves_modify. intros s. unfold logged. by rewrite Hf. Qed.

Lemma frame_act {A} (f : WorkerState P -> A * WorkerState P) :
  (∀ s, ws_executed (f s).2 = ws_executed s) → preserves logged (act f).
Proof. intros Hf. apply preserves_act. intros s. unfold logged. by rewrite Hf. Qed.

Ltac frame := first [apply frame_modify | apply frame_act]; intros ?; cbv beta delta [act ask_model]; cbn; repeat case_match; simplify_eq; done.

Lemma acquire_logged : preserves logged acquire.
Proof. frame. Qed.
Lemma read_now_logged : preserves logged read_now.
Proof. frame. Qed.
Lemma pause_logged d : preserves logged (pause d).
Proof. frame. Qed.
Lemma db_write_logged w : preserves logged (db_write wk w).
Proof. apply frame_modify. intros s. by destruct (wk_store wk). Qed.
Lemma broadcast_logged e : preserves logged (broadcast wk e).
Proof. apply frame_modify. intros s. by destruct (wk_sse wk). Qed.
Lemma ask_model_logged {A} f : preserves logged (ask_model (A := A) f).
Proof. frame. Qed.
Lemma set_limits_logged n : preserves logged (set_limits n).
Proof. frame. Qed.
Lemma inbox_logged l : preserves logged (modify (with_inbox l)).
Proof. frame. Qed.
#[local] Hint Resolve acquire_logged read_now_logged pause_logged db_write_logged broadcast_logged
  ask_model_logged set_limits_logged inbox_logged : effects.

Lemma log_event_logged t d : preserves logged (log_event wk t d).
Proof. unfold log_event. preserve. Qed.
Lemma readings_logged n : preserves logged (readings n).
Proof. induction n; cbn [readings]; preserve. Qed.
#[local] Hint Resolve log_event_logged readings_logged : effects.

Lemma update_job_logged {R} (f : Clock -> JobContext -> R * JobContext) : preserves logged (update_job wk f).
Proof. unfold update_job. preserve. frame. Qed.
#[local] Hint Resolve update_job_logged : effects.

Lemma mark_completed_logged : preserves logged (mark_completed wk).
Proof. unfold mark_completed, move_job, log_result, persist_status. preserve. Qed.
Lemma mark_failed_logged reason : preserves logged (mark_failed wk reason).
Proof. unfold mark_failed, build_fallback, job_context, move_job, log_result, persist_status. preserve. Qed.
Lemma mark_stuck_logged reason : preserves logged (mark_stuck_job wk reason).
Proof. unfold mark_stuck_job, build_fallback, job_context, move_job, log_result, persist_status. preserve. Qed.
Lemma check_rate_logged tool nm user : preserves logged (check_rate tool nm user).
Proof. unfold check_rate. preserve. frame. Qed.
Lemma record_logged nm safe out d : preserves logged (record_action_in_memory wk nm safe out d).
Proof. unfold record_action_in_memory, fresh_uuid. preserve. frame. Qed.
#[local] Hint Resolve mark_completed_logged mark_failed_logged mark_stuck_logged check_rate_logged
  record_logged : effects.

Lemma conclude_logged result : preserves logged (conclude wk result).
Proof. unfold conclude, job_context. preserve. Qed.
End log.

#[export] Hint Resolve acquire_logged read_now_logged pause_logged db_write_logged broadcast_logged ask_model_logged set_limits_logged
  inbox_logged log_event_logged readings_logged update_job_logged mark_completed_logged mark_failed_logged mark_stuck_logged
  check_rate_logged record_logged conclude_logged : effects.

Ltac frame := first [apply frame_modify | apply frame_act]; intros ?; cbv beta delta [act ask_model]; cbn; repeat case_match; simplify_eq; done.

Section permissions.
  Context {P : Type} `{LlmProvider P} `{!ChatEnv JobContext} `{!WorkerEnv} `{RegexEngine} `{MultiMatcher}.
  Variable wk : Worker.
  Implicit Types (s : WorkerState P) (ctx : ReasoningContext).

(** Where the parameters of a call come from: what was asked for, brought into shape, or what the hooks, shown that without its secrets,
    wrote instead, brought into shape again. *)
Definition asked_or_hooked (e : Executed) : Prop :=
  let asked := prepared (ex_tool e) (ex_asked e) in
  ex_params e = asked ∨
  ∃ hooks text parsed,
    Hooks.run ce_from_str ce_to_string ce_hook_elapsed ce_hook_error hooks
      (call_event wk (ex_tool e) (ex_name e) asked (user_id (ex_context e))) = Ok (Hooks.Continue (Some text)) ∧
    ce_from_str text = Ok parsed ∧ ex_params e = prepared (ex_tool e) parsed.

(** The job may use the tool without a question for what was asked, the parameters are valid, and the job was not cancelled in the
    context that was read for the call, which is the one the tool is given. *)
Definition permitted (e : Executed) : Prop :=
  is_blocked_or_default (wk_approval wk) (ex_name e) (requires_approval (ex_tool e) (prepared (ex_tool e) (ex_asked e))) = false ∧
  asked_or_hooked e ∧
  is_valid (validate_tool_params ce_lower (sl_validator (wk_safety wk)) (ex_params e)) = true ∧
  state (ex_context e) ≠ Cancelled.

Definition all_permitted s : Prop := Forall permitted (ws_executed s).

Abbreviation lawful_log := (logged (P := P) (Forall permitted)).

Lemma hooked_params_from hooks tool nm params c eff :
  hooked_params wk hooks tool nm (prepared tool params) (user_id c) = Ok eff → asked_or_hooked (mkExecuted _ nm params tool eff c).
Proof.
  unfold hooked_params, asked_or_hooked. cbn [ex_name ex_params ex_asked ex_tool ex_context]. cbv zeta.
  destruct (Hooks.run _ _ _ _ _ _) as [[[text|]|]|[]] eqn:Hr; try done; try (intros [= <-]; by left).
  destruct (ce_from_str text) as [parsed|] eqn:Hp; intros [= <-]; [right; by exists hooks, text, parsed|by left].
Qed.

(** A computation that keeps the log lawful and whose value satisfies [Q]. *)
Abbreviation lawful c Q := (outcome lawful_log c (fun r s => lawful_log s ∧ Q r)).

Lemma lawful_keeps {A} (c : St (WorkerState P) A) : preserves lawful_log c → lawful c (fun _ => True).
Proof. intros Hc s Hs. split; [by apply Hc|done]. Qed.

Lemma lawful_bind {A B} (c : St (WorkerState P) A) (k : A -> St (WorkerState P) B) (Q : B -> Prop) :
  preserves lawful_log c → (∀ a, lawful (k a) Q) → lawful (c ≫= k) Q.
Proof.
  intros Hc Hk. eapply outcome_bind; [by apply lawful_keeps|]. intros a s [Hs _]. by apply Hk.
Qed.

Lemma clear_call_lawful nm params :
  lawful (clear_call wk nm params) (fun r => match r with Ok e => permitted e | Err _ => True end).
Proof.
  unfold clear_call, job_context. apply lawful_bind; [auto with effects|]. intros sh.
  destruct (registry_get nm (wsh_tools sh)) as [tool|]; [|by apply outcome_ret].
  apply lawful_bind; [preserve|]. intros [c|e]; [|by apply outcome_ret].
  destruct (is_blocked_or_default _ _ _) eqn:Hb; [by apply outcome_ret|].
  apply lawful_bind; [auto with effects|]. intros [w|]; [by apply outcome_ret|].
  apply lawful_bind; [auto with effects|]. intros sh'.
  destruct (hooked_params _ _ _ _ _ _) as [eff|e] eqn:Hh; [|by apply outcome_ret].
  destruct (decide (state _ = Cancelled)) as [Hc|Hc]; [by apply outcome_ret|].
  destruct (is_valid _) eqn:Hv; cbn [negb]; apply outcome_ret; [|done].
  intros s Hs. split; [done|]. split; [done|]. split; [by eapply hooked_params_from|]. done.
Qed.

Lemma note_permitted e : permitted e → preserves lawful_log (note_executed e).
Proof. intros He. apply preserves_modify. intros s Hs. apply Forall_app. split; [done|by apply Forall_singleton]. Qed.

Lemma after_clear {A} nm params (k : Result Error Executed -> St (WorkerState P) A) :
  (∀ e, permitted e → preserves lawful_log (k (Ok e))) → (∀ e, preserves lawful_log (k (Err e))) →
  preserves lawful_log (r ← clear_call wk nm params; k r).
Proof.
  intros Hk He s Hs. rewrite bind_run. destruct (clear_call_lawful nm params s Hs) as [Hs' Hp].
  destruct (clear_call wk nm params s) as [[e|e] s']; [by apply Hk|by apply He].
Qed.

Lemma execute_tool_permitted nm params : preserves lawful_log (execute_tool_inner wk nm params).
Proof.
  unfold execute_tool_inner, st_try. apply after_clear; [|intros; preserve]. intros e He. unfold run_cleared.
  preserve. by apply note_permitted.
Qed.

Lemma lost_clawful_log nm params : preserves lawful_log (lost_call wk nm params).
Proof. unfold lost_call. apply after_clear; [by apply note_permitted|intros; preserve]. Qed.
#[local] Hint Resolve execute_tool_permitted lost_clawful_log : effects.

Lemma join_tools_permitted joined slots : preserves lawful_log (join_tools wk joined slots).
Proof. revert slots. induction joined as [|[[i sel] []] joined IH]; intros slots; cbn [join_tools]; preserve. Qed.
#[local] Hint Resolve join_tools_permitted : effects.

Lemma process_result_permitted sel r ctx : preserves lawful_log (process_tool_result_job wk sel r ctx).
Proof. unfold process_tool_result_job. preserve. Qed.
#[local] Hint Resolve process_result_permitted : effects.

Lemma report_results_permitted l ctx : preserves lawful_log (report_results wk l ctx).
Proof. revert ctx. induction l as [|[sel r] l IH]; intros ctx; cbn [report_results]; preserve. Qed.
#[local] Hint Resolve report_results_permitted : effects.

Lemma parallel_permitted sels : preserves lawful_log (execute_tools_parallel wk sels).
Proof. unfold execute_tools_parallel. preserve. Qed.

Lemma plan_loop_permitted i l ctx : preserves lawful_log (plan_loop wk i l ctx).
Proof.
  revert i ctx. induction l as [|a l IH]; intros i ctx; cbn [plan_loop]; unfold receive_plan_signal, log_status; preserve.
Qed.
#[local] Hint Resolve parallel_permitted plan_loop_permitted : effects.

Lemma llm_failure_permitted e : preserves lawful_log (llm_failure wk e).
Proof. unfold llm_failure, handle_rate_limit, try_complete_on_error, log_status. preserve. Qed.

Lemma charge_tokens_permitted out : preserves lawful_log (charge_tokens wk out).
Proof. unfold charge_tokens. preserve. Qed.
#[local] Hint Resolve llm_failure_permitted charge_tokens_permitted : effects.

#[local] Instance delegate_permitted : KeptByDelegate (H := job_delegate wk) lawful_log.
Proof.
  split.
  - change (preserves lawful_log (job_check_signals wk)). unfold job_check_signals, job_context. preserve.
  - intros ctx i. change (preserves lawful_log (job_before_llm_call (P := P) ctx i)). unfold job_before_llm_call. preserve. frame.
  - intros r ctx i d Hd. cbn [call_llm job_delegate].
    assert (preserves lawful_log (job_call_llm wk r ctx i)) as Hc by (unfold job_call_llm; preserve).
    specialize (Hc d Hd). by destruct (job_call_llm wk r ctx i d).
  - intros t m ctx. change (preserves lawful_log (job_handle_text_response wk t m ctx)).
    unfold job_handle_text_response, log_status. preserve; frame.
  - intros calls content ctx. change (preserves lawful_log (job_execute_tool_calls wk calls content ctx)).
    unfold job_execute_tool_calls. preserve; frame.
  - intros t ctx. change (preserves lawful_log (job_on_tool_intent_nudge wk t ctx)). unfold job_on_tool_intent_nudge. preserve.
  - intros i. apply pause_logged.
Qed.

Lemma run_job_loop_permitted n ctx : preserves lawful_log (run_job_loop wk n ctx).
Proof.
  apply preserves_act. intros s Hs. cbv beta zeta. set (s0 := with_progress 0 recovery_default false s).
  pose proof (run_agentic_loop_keeps (H := job_delegate wk) lawful_log ce_lower tt (mkLoopConfig n true 2) ctx s0 Hs) as Hr.
  by destruct (run_agentic_loop _ _ _ _ _) as [[res c] s'].
Qed.
#[local] Hint Resolve run_job_loop_permitted : effects.

Lemma execution_loop_permitted ctx : preserves lawful_log (execution_loop wk ctx).
Proof.
  unfold execution_loop, make_plan, execute_plan, plan_settled, settle_outcome, job_context, log_status. preserve.
Qed.

#[local] Hint Resolve execution_loop_permitted : effects.

Lemma run_worker_permitted : preserves all_permitted (run_worker wk None).
Proof. change (preserves lawful_log (run_worker wk None)). unfold run_worker, receive, job_context. preserve; frame. Qed.

Lemma timeout_executes_nothing s' s : ws_executed (run_worker wk (Some s') s).2 ∈ [ws_executed s; ws_executed s'].
Proof.
  pose (Q := fun l : list Executed => l ∈ [ws_executed s; ws_executed s']).
  assert (preserves (logged (P := P) Q) (run_worker wk (Some s'))) as Hr; [|apply Hr; unfold logged, Q; set_solver].
  unfold run_worker, receive, job_context. preserve; first [frame|apply preserves_modify; intros; unfold logged, Q; set_solver].
Qed.

(** C3. A job acts within its permissions: whatever the model, the plan, the hooks and the other tasks do, a worker hands a call to a tool only
    when the approval context of the job lets that tool run unasked for what the model or the plan asked; with
    parameters that are what was asked for or what a hook made of it, brought into shape, and that passed validation; and not when
    the job was cancelled in the context read for the call.  (That context is read once, before the rate limit and the
    hooks; a hook's rewriting is not put to the approval again.)  When the timeout cuts the work off, nothing more is
    handed to a tool: the log is the one the cut found, or, for a worker that never started, the one from before; and a cut that finds
    the first calls of what the worker would have done without it leaves permitted calls only. *)
Theorem job_stays_permitted cut s :
  all_permitted s →
  match cut with
  | None => all_permitted (run_worker wk None s).2
  | Some s' =>
      ws_executed (run_worker wk (Some s') s).2 ∈ [ws_executed s; ws_executed s'] ∧
      (ws_executed s' `prefix_of` ws_executed (run_worker wk None s).2 → all_permitted (run_worker wk (Some s') s).2)
  end.
Proof.
  intros Hs. pose proof (run_worker_permitted s Hs) as Hp. destruct cut as [s'|]; [|done].
  pose proof (timeout_executes_nothing s' s) as Hin. split; [done|]. intros [rest Hrest]. unfold all_permitted in *.
  rewrite Hrest in Hp. apply Forall_app in Hp as [Hp _]. by apply list_elem_of_In in Hin as [<-|[<-|[]]].
Qed.

(** With an allow list, which is what the scheduler gives every job it dispatches, only listed tools run. *)
Lemma job_within_allow_list allowed s :
  wk_approval wk = Some (Autonomous allowed) → ws_executed s = [] →
  Forall (fun e => ex_name e ∈ allowed) (ws_executed (run_worker wk None s).2).
Proof.
  intros Ha He. assert (all_permitted (run_worker wk None s).2) as Hp.
  { apply run_worker_permitted. unfold all_permitted. by rewrite He. }
  eapply Forall_impl; [exact Hp|]. intros e (Hb & _). rewrite Ha in Hb. cbn in Hb. apply negb_false_iff in Hb.
  by apply bool_decide_eq_true in Hb.
Qed.
End permissions.

(** ** How a run ends *)

Lemma transition_reaches `{Decimal} clk c st reason c' u : transition_to clk c st reason = (c', Ok u) → state c' = st.
Proof.
  unfold transition_to. destruct (can_transition_to _ _); cbn [negb]; [|done]. case_decide; [by intros [= <-]|].
  by intros [= <-].
Qed.

Section endings.
  Context {P : Type} `{LlmProvider P} `{!ChatEnv JobContext} `{!WorkerEnv} `{RegexEngine} `{MultiMatcher}.
  Variable wk : Worker.
  Implicit Types (s : WorkerState P) (ctx : ReasoningContext) (c : JobContext).

Definition context_of s : option JobContext := contexts (wsh_contexts (ws_shared s)) !! wk_job wk.

(** Neither waiting nor running nor handed in: done, failed, cancelled, accepted, or stuck and left to the repair. *)
Definition settled (st : JobState) : bool := match st with Pending | InProgress | Submitted => false | _ => true end.

Definition job_settled s : Prop := ∀ c, context_of s = Some c → settled (state c) = true.

Lemma log_event_shared t d s : ws_shared (log_event wk t d s).2 = ws_shared s.
Proof.
  unfold log_event, db_write, broadcast, modify, mbind, st_bind. destruct (wk_store wk), (wk_sse wk), (app_event _ _ _); done.
Qed.

Lemma readings_shared n s : ws_shared (readings n s).2 = ws_shared s.
Proof.
  revert s. induction n as [|n IH]; intros s; [done|]. cbn [readings]. rewrite !bind_run, ret_run. cbn [snd]. by rewrite IH.
Qed.

Lemma acquire_shared s : (acquire s).1 = ws_shared (acquire s).2.
Proof. done. Qed.

(** A successful update leaves the context that the move and what follows it made. *)
Lemma move_job_Ok move after s s' :
  move_job wk move after s = (Ok tt, s') →
  ∃ clk c0 c1 u, contexts (wsh_contexts (acquire s).1) !! wk_job wk = Some c0 ∧ move clk c0 = (c1, Ok u) ∧
    context_of s' = Some (after c1).
Proof.
  unfold move_job, update_job. rewrite !bind_run, ret_run. cbn [fst snd]. unfold act.
  pose proof (readings_shared 2 (acquire s).2) as Hsh. destruct (readings 2 (acquire s).2) as [l s1]. cbn [fst snd] in *.
  rewrite Hsh. change (ws_shared (acquire s).2) with (acquire s).1. unfold update_context.
  destruct (contexts _ !! wk_job wk) as [c0|] eqn:Hc0; [|done].
  destruct (move (clock_of l) c0) as [c1 [u|e]] eqn:Hm; cbn; [|done]. intros [= <-].
  exists (clock_of l), c0, c1, u. split; [done|]. split; [done|]. unfold context_of. cbn. by rewrite lookup_insert_eq.
Qed.

(** The moves with their log. *)
Lemma marked_Ok move after t d st reason s s' :
  (_ ←? move_job wk move after; _ ← log_event wk t d; _ ← persist_status wk st reason; mret (Ok tt)) s = (Ok tt, s') →
  (∀ clk c c' u, move clk c = (c', Ok u) → state (after c') = st) → ∃ c, context_of s' = Some c ∧ state c = st.
Proof.
  unfold st_try. rewrite bind_run. destruct (move_job wk move after s) as [[[]|e] s1] eqn:Hm; [|done]. cbn [fst snd].
  rewrite !bind_run, ret_run. intros [= <-] Hst. apply move_job_Ok in Hm as (clk & c0 & c1 & u & _ & Hmv & Hc).
  exists (after c1). split; [|by eapply Hst]. unfold context_of in *.
  destruct (wk_store wk); cbn; by rewrite log_event_shared.
Qed.

Lemma store_fallback_state (f : option FallbackDeliverable) c : state (store_fallback f c) = state c.
Proof. by destruct f. Qed.

Lemma mark_completed_Ok s s' : mark_completed wk s = (Ok tt, s') → ∃ c, context_of s' = Some c ∧ state c = Completed.
Proof.
  unfold mark_completed, log_result. intros Hm. eapply marked_Ok; [exact Hm|]. intros clk c c' u. apply transition_reaches.
Qed.

Lemma mark_failed_Ok reason s s' :
  mark_failed wk reason s = (Ok tt, s') → ∃ c, context_of s' = Some c ∧ state c = Failed.
Proof.
  unfold mark_failed, log_result. rewrite bind_run. intros Hm. eapply marked_Ok; [exact Hm|]. intros clk c c' u.
  rewrite store_fallback_state. apply transition_reaches.
Qed.

Lemma mark_stuck_Ok reason s s' :
  mark_stuck_job wk reason s = (Ok tt, s') → ∃ c, context_of s' = Some c ∧ state c = Stuck.
Proof.
  unfold mark_stuck_job, log_result. rewrite bind_run. intros Hm. eapply marked_Ok; [exact Hm|]. intros clk c c' u.
  rewrite store_fallback_state. apply transition_reaches.
Qed.

(** How the run of a job ended: by a timeout as stuck, with an error as failed, else as the table has it or completed. *)
Definition ended (result : option (Result Error unit)) s : Prop :=
  match result with
  | None => ∃ c, context_of s = Some c ∧ state c = Stuck
  | Some (Err _) => ∃ c, context_of s = Some c ∧ state c = Failed
  | Some (Ok _) => job_settled s
  end.

Lemma conclude_ends result s s' : conclude wk result s = (Ok tt, s') → ended result s'.
Proof.
  destruct result as [[u|e]|]; cbn [conclude ended]; [|by apply mark_failed_Ok|by apply mark_stuck_Ok].
  unfold job_settled, job_context. rewrite !bind_run, ret_run. cbn [fst snd]. unfold get_context. rewrite acquire_shared.
  generalize (acquire s).2 as s1. intros s1. fold (context_of s1).
  destruct (context_of s1) as [c|] eqn:Hc; cbn [ok_or]; [|intros [= <-] c' Hc'; congruence].
  destruct (is_terminal (state c) || _ || _) eqn:Ht.
  - intros [= <-] c' Hc'. rewrite Hc in Hc'. injection Hc' as <-. by destruct (state c).
  - intros (c' & Hc' & Hst)%mark_completed_Ok c'' Hc''. rewrite Hc' in Hc''. injection Hc'' as <-. by rewrite Hst.
Qed.

Lemma state_settles st s : settled st = true → (∃ c, context_of s = Some c ∧ state c = st) → job_settled s.
Proof. intros Hst (c & Hc & <-) c' Hc'. by simplify_eq. Qed.

End endings.

(** ** A round of tool calls *)

Section rounds.
  Context {P : Type} `{LlmProvider P} `{!ChatEnv JobContext} `{!WorkerEnv} `{RegexEngine} `{MultiMatcher}.
  Variable wk : Worker.
  Implicit Types (s : WorkerState P) (ctx : ReasoningContext).

Lemma process_result_message sel r ctx s :
  ∃ content, rc_messages (process_tool_result_job wk sel r ctx s).1 =
    rc_messages ctx ++ [tool_result (ts_tool_call_id sel) (ts_tool_name sel) content].
Proof.
  unfold process_tool_result_job. cbv zeta. rewrite bind_run. destruct r; eexists; rewrite !bind_run, ret_run; reflexivity.
Qed.

Lemma join_tools_length joined slots s : length (join_tools wk joined slots s).1 = length slots.
Proof.
  revert slots s. induction joined as [|[[i sel] []] joined IH]; intros slots s; cbn [join_tools]; [done| |];
    rewrite bind_run, IH; [done|apply length_insert].
Qed.

Lemma parallel_length sels s : length (execute_tools_parallel wk sels s).1 = length sels.
Proof.
  destruct sels as [|a [|b sels]]; [done| |]; unfold execute_tools_parallel; rewrite !bind_run, ret_run; [done|].
  cbn [fst]. rewrite length_zip_with, join_tools_length, length_replicate. lia.
Qed.

Lemma report_results_messages l ctx s :
  ∃ answers, rc_messages (report_results wk l ctx s).1 = rc_messages ctx ++ answers ∧
    Forall (fun m => role m = Provider.Tool) answers ∧
    (fun m => (tool_call_id m, name m)) <$> answers =
    (fun x => (Some (ts_tool_call_id x.1), Some (ts_tool_name x.1))) <$> l.
Proof.
  revert ctx s. induction l as [|[sel r] l IH]; intros ctx s; cbn [report_results].
  - exists []. by rewrite app_nil_r.
  - rewrite bind_run. destruct (process_result_message sel r ctx s) as [content Hc].
    destruct (IH (process_tool_result_job wk sel r ctx s).1 (process_tool_result_job wk sel r ctx s).2)
      as (answers & Hm & Hr & Hids).
    exists (tool_result (ts_tool_call_id sel) (ts_tool_name sel) content :: answers).
    rewrite Hm, Hc, <-app_assoc. split; [done|]. split; [by constructor|]. cbn. by rewrite Hids.
Qed.

(** A job answers every call: a round never ends the job, and the context grows by the request and exactly one tool
    message per call, in the order of the calls and under their identifiers, whatever failed, was
    refused or did not return. *)
Theorem job_round_answers_calls calls content ctx s :
  let '(res, ctx', _) := job_execute_tool_calls wk calls content ctx s in
  res = Ok None ∧
  ∃ shown answers, rc_messages ctx' = rc_messages ctx ++ assistant_with_tool_calls shown calls :: answers ∧
    Forall (fun m => role m = Provider.Tool) answers ∧
    (fun m => (tool_call_id m, name m)) <$> answers = (fun tc => (Some (tc_id tc), Some (tc_name tc))) <$> calls.
Proof.
  unfold job_execute_tool_calls. cbv zeta. rewrite !bind_run, ret_run. cbn [fst snd]. split; [done|].
  set (sels := selection_of_call <$> calls).
  match goal with |- context [execute_tools_parallel wk sels ?s0] => set (s1 := s0) end.
  pose proof (parallel_length sels s1) as Hlen. set (results := (execute_tools_parallel wk sels s1).1) in *.
  match goal with |- context [report_results wk (zip sels results) ?c ?s0] =>
    destruct (report_results_messages (zip sels results) c s0) as (answers & Hm & Hr & Hids) end.
  exists (strip_suggestions parse_value <$> content), answers. rewrite Hm. cbn [push_message rc_messages].
  split; [by rewrite <-app_assoc|]. split; [done|]. rewrite Hids. unfold sels in *. clearbody results. clear -Hlen. revert results Hlen.
  induction calls as [|tc calls IH]; intros [|r results] Hlen; try done. cbn. f_equal. apply IH. cbn in Hlen. lia.
Qed.

(** ** Hooks and secrets *)

(** A hook that rewrites a call of a job takes its secrets away: when the hooks change the parameters at all, what
    the tool gets is the same for all values of the sensitive parameters, since the hooks were shown the
    redacted ones and nothing is put back; the chat dispatcher restores them. *)
Theorem job_hooks_drop_secrets hooks (tool : ToolExec.Tool (ToolCtx JobContext)) nm p p' user effective :
  redact_params p (sensitive_params tool) = redact_params p' (sensitive_params tool) →
  hooked_params wk hooks tool nm p user = Ok effective → effective ≠ p →
  hooked_params wk hooks tool nm p' user = Ok effective.
Proof.
  intros Hr. unfold hooked_params, call_event. rewrite Hr. intros Hh Hne. repeat case_match; simplify_eq; done.
Qed.

(** ** Messages to a running job *)

(** Of the messages that wait for a job only the first is heard: the comment promises the others for the next
    iteration, but the drain has emptied the channel, and none of them reaches the model. *)
Theorem later_messages_lost s text texts :
  let sh := (acquire s).1 in
  omap is_user_message (wsh_inbox sh) = text :: texts → Stop ∉ wsh_inbox sh →
  let '(signal, s') := job_check_signals wk s in
  signal = InjectMessage text ∧ wsh_inbox (ws_shared s') = [].
Proof.
  cbv zeta. intros Ht Hs.
  assert (existsb (fun m => match m with Stop => true | _ => false end) (wsh_inbox (acquire s).1) = false) as Hno.
  { apply not_true_iff_false. intros (m & Hm & Hst)%existsb_exists. destruct m; try done. by apply Hs, list_elem_of_In. }
  unfold job_check_signals. cbv zeta. rewrite bind_run, Ht, !bind_run, Hno.
  rewrite ret_run. split; [done|]. cbn [st_iter].
  assert (∀ l s, wsh_inbox (ws_shared s) = [] →
    wsh_inbox (ws_shared (st_iter (fun t => log_event wk "message" (said "user" t)) l s).2) = []) as Hl.
  { intros l. induction l as [|t l IH]; intros s0 Hs0; [done|]. cbn [st_iter]. rewrite bind_run. apply IH.
    by rewrite log_event_shared. }
  apply (Hl (text :: texts)). done.
Qed.
End rounds.

(** ** Runs that nothing disturbs *)

Section quiet.
  Context {P : Type} `{LlmProvider P} `{!ChatEnv JobContext} `{!WorkerEnv} `{RegexEngine} `{MultiMatcher}.
  Variable wk : Worker.
  Implicit Types (s : WorkerState P) (ctx : ReasoningContext) (c : JobContext).

(** No other task acts meanwhile. *)
Definition quiet : Prop := ∀ n sh, we_others n sh = sh.
Context (Hquiet : quiet).

Lemma acquire_quiet s : ws_shared (acquire s).2 = ws_shared s.
Proof. apply Hquiet. Qed.

Lemma receive_quiet s m rest :
  wsh_inbox (ws_shared s) = m :: rest →
  ∃ s1, receive s = (Some m, s1) ∧ context_of wk s1 = context_of wk s ∧ wsh_inbox (ws_shared s1) = rest.
Proof.
  intros Hi. unfold receive. rewrite bind_run, acquire_shared, acquire_quiet, Hi, bind_run, ret_run.
  eexists. split; [done|]. unfold context_of. cbn. by rewrite Hquiet.
Qed.

Lemma job_context_quiet s c :
  context_of wk s = Some c → ∃ s1, job_context wk s = (Ok c, s1) ∧ ws_shared s1 = ws_shared s.
Proof.
  intros Hc. unfold job_context. rewrite bind_run, ret_run, acquire_shared, acquire_quiet. eexists.
  split; [|by apply acquire_quiet]. unfold get_context. fold (context_of wk s). by rewrite Hc.
Qed.

Lemma signals_stop s :
  Stop ∈ wsh_inbox (ws_shared s) → ∃ s1, job_check_signals wk s = (SigStop, s1) ∧ context_of wk s1 = context_of wk s.
Proof.
  intros Hs. unfold job_check_signals. cbv zeta. rewrite !bind_run.
  rewrite (proj2 (existsb_exists _ _)). 2: { exists Stop. split; [|done]. apply list_elem_of_In. by rewrite acquire_shared, acquire_quiet. }
  rewrite ret_run. eexists. split; [done|].
  assert (∀ l s0, ws_shared (st_iter (fun t => log_event wk "message" (said "user" t)) l s0).2 = ws_shared s0) as Hl.
  { intros l. induction l as [|t l IH]; intros s0; [done|]. cbn [st_iter]. rewrite bind_run, IH. apply log_event_shared. }
  unfold context_of. rewrite Hl. cbn. by rewrite Hquiet.
Qed.

(** A move that is allowed succeeds. *)
Lemma move_job_quiet move after s c :
  context_of wk s = Some c → (∀ clk, is_ok (move clk c).2 = true) → ∃ s1, move_job wk move after s = (Ok tt, s1).
Proof.
  intros Hc Hm. unfold move_job, update_job. rewrite !bind_run, ret_run. cbn [fst snd]. unfold act.
  pose proof (readings_shared 2 (acquire s).2) as Hsh. destruct (readings 2 (acquire s).2) as [l s1]. cbn [fst snd] in *.
  unfold update_context. rewrite Hsh, acquire_quiet. fold (context_of wk s). rewrite Hc.
  specialize (Hm (clock_of l)). destruct (move (clock_of l) c) as [c1 [u|e]]; [|done]. by eexists.
Qed.

Lemma mark_completed_quiet s c :
  context_of wk s = Some c → state c = InProgress → ∃ s1, mark_completed wk s = (Ok tt, s1).
Proof.
  intros Hc Hst. unfold mark_completed, st_try. rewrite bind_run.
  destruct (move_job_quiet (fun clk c => transition_to clk c Completed (Some COMPLETED)) id s c Hc) as [s1 ->].
  { intros clk. unfold transition_to. rewrite Hst. cbn. by case_decide. }
  cbn [fst snd]. rewrite !bind_run, ret_run. by eexists.
Qed.

(** The stop signal ends the loop at once, without an error and with the context as it was. *)
Lemma execution_loop_stopped s c ctx :
  context_of wk s = Some c → Stop ∈ wsh_inbox (ws_shared s) → wk_use_planning wk = false →
  (0 < loop_iterations (Ok c))%nat →
  ∃ s1, execution_loop wk ctx s = (Ok tt, s1) ∧ context_of wk s1 = Some c.
Proof.
  intros Hc Hstop Hp Hn. unfold execution_loop.
  destruct (job_context_quiet s c Hc) as (s2 & Hj & Hs2). rewrite (bind_step _ _ _ _ _ Hj), bind_run. cbv zeta.
  set (s3 := (acquire s2).2). assert (ws_shared s3 = ws_shared s) as Hs3 by (unfold s3; by rewrite acquire_quiet, Hs2).
  generalize (acquire s2).1. clearbody s3. intros sh. unfold make_plan. rewrite Hp. cbn [negb].
  rewrite bind_run, ret_run. cbn [fst snd]. unfold run_job_loop, act, run_agentic_loop. rewrite bind_run. cbv zeta.
  cbn [max_iterations]. destruct (loop_iterations (Ok c)) as [|n]; [lia|].
  destruct (signals_stop (with_progress 0 recovery_default false s3)) as (s4 & Hsig & Hs4); [cbn; by rewrite Hs3|].
  cbn [loop_from check_signals job_delegate]. rewrite Hsig. cbn [fst snd settle_outcome]. rewrite ret_run.
  exists s4. split; [done|]. rewrite Hs4. unfold context_of. cbn. by rewrite Hs3.
Qed.

(** A job that is stopped reads as completed: the worker that finds the stop signal leaves its loop without an
    error, and the end of the run then marks the job, which is still in progress, as completed successfully. *)
Theorem stopped_job_reads_completed s c rest :
  context_of wk s = Some c → state c = InProgress → wsh_inbox (ws_shared s) = Start :: rest → Stop ∈ rest →
  wk_use_planning wk = false → (0 < loop_iterations (Ok c))%nat →
  ∃ s' c', run_worker wk None s = (Ok tt, s') ∧ context_of wk s' = Some c' ∧ state c' = Completed.
Proof.
  intros Hc Hst Hi Hstop Hp Hn. destruct (receive_quiet s Start rest Hi) as (s1 & Hr & Hc1 & Hi1).
  unfold run_worker. rewrite (bind_step _ _ _ _ _ Hr). cbv iota.
  destruct (job_context_quiet s1 c) as (s2 & Hj & Hs2); [by rewrite Hc1|]. rewrite (bind_step _ _ _ _ _ Hj). cbv iota zeta.
  rewrite bind_run. set (s3 := (modify _ s2).2). assert (ws_shared s3 = ws_shared s1) as Hs3 by exact Hs2. clearbody s3.
  destruct (execution_loop_stopped s3 c (push_message (system (system_text c))
    (mkContext [] [] (Some (description c)) None ∅ false None None))) as (s4 & He & Hc4).
  { unfold context_of. rewrite Hs3. by rewrite <-Hc, <-Hc1. }
  { by rewrite Hs3, Hi1. }
  { done. }
  { done. }
  rewrite !bind_run, He, ret_run. cbn [fst snd conclude].
  destruct (job_context_quiet s4 c Hc4) as (s5 & Hj5 & Hs5). rewrite (bind_step _ _ _ _ _ Hj5). cbv iota.
  rewrite Hst. cbn [is_terminal orb].
  destruct (mark_completed_quiet s5 c) as [s6 Hm]; [by unfold context_of; rewrite Hs5|done|].
  rewrite !bool_decide_eq_false_2 by done. cbn [orb]. rewrite Hm.
  apply mark_completed_Ok in Hm as (c' & Hc' & Hst'). eauto.
Qed.
End quiet.

(** ** Witnesses *)

Module Demo.
#[local] Instance provider : LlmProvider unit := {|
  model_name := fun _ => "demo";
  cost_per_token := fun _ => (0, 0)%Z;
  complete := fun _ p w => (Err (EmptyResponse "demo"), p, w);
  complete_with_tools := fun _ p w => (Err (EmptyResponse "demo"), p, w);
  list_models := fun p w => (Ok [], p, w);
  model_metadata := fun p w => (default_model_metadata "demo", p, w);
  effective_model_name := fun rq p => (default_effective_model_name rq "demo", p);
  active_model_name := fun _ => "demo";
  set_model := fun _ p => (default_set_model, p);
  calculate_cost := fun i o _ => default_calculate_cost (0, 0)%Z i o;
  cache_write_multiplier := fun _ => dec_one;
  cache_read_discount := fun _ => dec_one
|}.

#[local] Instance engine : RegexEngine :=
  {| regex_valid := fun _ => true; is_match := fun _ _ => false; find_iter := fun _ _ => []; capture1 := fun _ _ => None |}.
#[local] Instance matcher : MultiMatcher := {| ac_find_iter := fun _ _ _ => [] |}.

(** What the hook of the demonstration writes is the one document the parser knows. *)
#[local] Instance env : ChatEnv JobContext := {|
  ce_lower := id; ce_origin := 0%Z;
  ce_from_str := fun s => if (s =? "W")%string then Ok (JObject [("rewritten", JBool true)]) else Err "?";
  ce_to_string := fun v => if decide (v = JObject [("rewritten", JBool true)]) then "W" else "{}"; ce_pretty := fun _ => Ok "{}"; ce_print_f64 := fun _ => "0"; ce_duration := fun _ => "1s";
  ce_hook_elapsed := fun _ _ => false; ce_hook_error := fun _ => "e"; ce_values := fun m => snd <$> map_to_list m;
  ce_date := fun _ => 0%Z; ce_uuid := N.of_nat; ce_others := fun _ s => s;
  ce_join := fun _ l => (fun x => (x, false)) <$> rev l
|}.

#[local] Instance job_env : WorkerEnv := {|
  we_others := fun _ sh => sh; we_join := fun _ l => (fun x => (x, false)) <$> rev l;
  we_rate_limit := fun _ => None; we_parse_plan := fun _ => Err "no plan"; we_uuid := N.of_nat;
  we_uuid_text := fun _ => "job"; we_decimal_text := fun _ => "0"; we_llm_text := fun _ => "failed"
|}.

Definition tool (nm : string) (secrets : list string) : ToolExec.Tool (ToolCtx JobContext) :=
  mkTool nm "d" (JObject []) (JObject []) false (fun v _ => Some (Ok v)) (fun _ => Never) 60 Orchestrator secrets.

Definition tools : ToolRegistry (ToolCtx JobContext) :=
  register_sync true true (tool "echo" []) (register_sync true true (tool "login" ["password"]) ToolExec.registry_new).

Definition started : JobContext :=
  (transition_to (fun _ => 0%Z) (with_user 7 0 0 "u" "t" "d") InProgress None).1.

Definition wk : Worker :=
  mkWorker 7 (safety_new (mkSafetyConfig 1000 false)) false (Some (Autonomous {[ "echo" ]})) None true true.

Definition begin (inbox : list WorkerMessage) : WorkerState unit :=
  mkWorkerState
    (mkWorkerShared _ (mkManager {[ 7%N := started ]} {[ 7%N := memory_new 7 ]} 1) tools Hooks.registry_new ∅ inbox)
    (reasoning_new tt) (mkWorld (fun _ => 0%Z) 0 (fun _ => 0%Z) 0 []) 0 recovery_default false [] [] [] 0.

(** A model that asks for one call of a tool and has nothing to say afterwards. *)
#[local] Instance busy : LlmProvider bool := {|
  model_name := fun _ => "busy";
  cost_per_token := fun _ => (0, 0)%Z;
  complete := fun _ p w => (Err (EmptyResponse "busy"), p, w);
  complete_with_tools := fun _ (p : bool) w =>
    if p then (Err (EmptyResponse "busy"), p, w)
    else (Ok (mkToolResponse None [mkToolCall "c1" "echo" (JObject [("text", JString "hi")]) None] 1 1 ToolUse 0 0), true, w);
  list_models := fun p w => (Ok [], p, w);
  model_metadata := fun p w => (default_model_metadata "busy", p, w);
  effective_model_name := fun rq p => (default_effective_model_name rq "busy", p);
  active_model_name := fun _ => "busy";
  set_model := fun _ p => (default_set_model, p);
  calculate_cost := fun i o _ => default_calculate_cost (0, 0)%Z i o;
  cache_write_multiplier := fun _ => dec_one;
  cache_read_discount := fun _ => dec_one
|}.

Definition begin_busy : WorkerState bool :=
  mkWorkerState (ws_shared (begin [Start])) (reasoning_new false) (ws_world (begin [Start])) 0 recovery_default false [] [] [] 0.

(** A run to its end, and one that is cut off when all is done but the marking of the job. *)
Lemma job_stays_permitted_witness :
  let done := (run_worker wk None begin_busy).2 in
  all_permitted wk done ∧
  (fun e => (ex_name e, ex_params e)) <$> ws_executed done = [("echo", JObject [("text", JString "hi")])] ∧
  all_permitted wk (run_worker wk (Some done) begin_busy).2.
Proof.
  split; [|split; [vm_compute; reflexivity|]].
  - apply (job_stays_permitted wk None begin_busy). constructor.
  - apply (job_stays_permitted wk (Some (run_worker wk None begin_busy).2) begin_busy); [constructor|reflexivity].
Defined.

Definition timed_out : WorkerState unit := (run_worker wk (Some (begin [])) (begin [Start])).2.


(** The model of the demonstration fails, and so does the job. *)
Lemma failing_job : state <$> context_of wk (run_worker wk None (begin [Start])).2 = Some Failed.
Proof. vm_compute. reflexivity. Qed.

Lemma alone : quiet.
Proof. by intros n sh. Qed.

Lemma stopped_job_reads_completed_witness :
  ∃ s' c', run_worker wk None (begin [Start; Stop]) = (Ok tt, s') ∧ context_of wk s' = Some c' ∧ state c' = Completed.
Proof.
  apply (stopped_job_reads_completed wk alone (begin [Start; Stop]) started [Stop]);
    [reflexivity|reflexivity|reflexivity|by constructor|reflexivity|].
  apply (bool_decide_unpack _). vm_compute. exact I.
Defined.

Lemma later_messages_lost_witness :
  let '(signal, s') := job_check_signals wk (begin [UserMessage "a"; UserMessage "b"]) in
  signal = InjectMessage "a" ∧ wsh_inbox (ws_shared s') = [].
Proof.
  apply (later_messages_lost wk (begin [UserMessage "a"; UserMessage "b"]) "a" ["b"]); [reflexivity|].
  cbn. by intros [Hs|[Hs|Hs]%elem_of_cons]%elem_of_cons; [..|apply not_elem_of_nil in Hs].
Defined.

(** A hook that rewrites the parameters of every tool call. *)
Definition rewriting : HookRegistry :=
  Hooks.register (mkHook "rewrite" [BeforeToolCall] FailOpen 1 (fun _ => Ok (Hooks.Continue (Some "W")))) Hooks.registry_new.

Definition login (password : string) : Json := JObject [("password", JString password)].

Lemma job_hooks_drop_secrets_witness :
  hooked_params wk rewriting (tool "login" ["password"]) "login" (login "b") "u" = Ok (JObject [("rewritten", JBool true)]).
Proof.
  apply (job_hooks_drop_secrets wk rewriting (tool "login" ["password"]) "login" (login "a") (login "b") "u");
    [reflexivity|vm_compute; reflexivity|discriminate].
Defined.
End Demo.
