(* ===== verification/Scheduler.v ===== *)
(** * Scheduler: which jobs run, and with what permissions

    [src/agent/scheduler.rs] with the tasks of [src/agent/task.rs].  The scheduler holds the table of running jobs
    behind a lock; a spawned worker, a spawned cleanup loop and every caller act on it concurrently.

    The operations are computations of the monad [St] over [SchedState]; the other tasks act at every point where a
    lock is taken ([se_others]) and, without the table of jobs, while that lock is held ([se_locked]).
    [sched_step] is the system of the atomic actions of all tasks, and the operations are shown to be
    sequences of its steps, so that an invariant of the steps holds for every interleaving of operations. *)

From stdpp Require Import pretty.
From S2P Require Import Prelude Text Effects F64 JobState JobMemory ContextManager Hooks Provider Reasoning AgenticLoop.
From S2P Require Import ReplyText LeakDetector Sanitizer Validator SafetyLayer ToolParams Redaction ToolExec Dispatcher Worker.

(** ** Tasks: [task.rs] *)

Record TaskOutput : Type := mkTaskOutput { to_result : Json; to_duration : Z }.

Record TaskContext : Type := mkTaskContext { tk_task_id : Uuid; tk_parent_id : option Uuid; tk_metadata : Json }.

Definition task_context_new (id : Uuid) : TaskContext := mkTaskContext id None JNull.
Definition with_parent (parent : Uuid) (c : TaskContext) : TaskContext :=
  mkTaskContext (tk_task_id c) (Some parent) (tk_metadata c).
Definition with_metadata (v : Json) (c : TaskContext) : TaskContext := mkTaskContext (tk_task_id c) (tk_parent_id c) v.

(** A handler is its description and its code. *)
Record TaskHandler : Type := mkHandler {
  th_description : string;
  th_run : TaskContext -> Result Error TaskOutput
}.

Inductive Task : Type :=
| TaskJob (id : Uuid) (title description : string)
| TaskToolExec (parent_id : Uuid) (tool_name : string) (params : Json)
| TaskBackground (id : Uuid) (handler : TaskHandler).

Definition task_id (t : Task) : option Uuid :=
  match t with TaskJob id _ _ => Some id | TaskToolExec _ _ _ => None | TaskBackground id _ => Some id end.

Definition task_description (t : Task) : string :=
  match t with
  | TaskJob _ title _ => "job: " +:+ title
  | TaskToolExec _ nm _ => "tool: " +:+ nm
  | TaskBackground _ h => "background: " +:+ th_description h
  end.

(** ** The scheduler *)

Record SchedulerConfig : Type := mkSchedConfig {
  max_parallel_jobs : nat;
  max_jobs_per_user : option nat;
  max_tokens_per_job : Z;
  use_planning : bool
}.

Record Scheduler : Type := mkScheduler {
  sc_config : SchedulerConfig;
  sc_safety : SafetyLayer;
  sc_store : bool;
  sc_sse : bool;
  sc_interceptor : option N
}.

(** A spawned worker: its channel is open until it ends. *)
Record WorkerTask : Type := mkWorkerTask {
  wt_worker : Worker;
  wt_inbox : list WorkerMessage;
  wt_finished : bool
}.

Inductive SchedWrite `{Decimal} : Type := DbSaveJob (c : JobContext) | DbCancelled (id : Uuid) (reason : string).

(** [sd_jobs] maps a job to the index of its worker in [sd_tasks]; [sd_cleanups] lists the cleanup loops with whether
    they have seen that their job is finished; [sd_active] is the owner of the extension manager with its active tools;
    a subtask is [true] when it has ended.  [sd_stopping] is the worker that [stop] has taken from the table and
    not yet ended; the lock of the table is held meanwhile. *)
Record SchedState `{Decimal} : Type := mkSched {
  sd_contexts : ContextManager;
  sd_tools : ToolRegistry (ToolCtx JobContext);
  sd_active : option (string * list string);
  sd_jobs : gmap Uuid nat;
  sd_stopping : option nat;
  sd_tasks : list WorkerTask;
  sd_cleanups : list (Uuid * bool);
  sd_subtasks : gmap Uuid bool;
  sd_writes : list SchedWrite;
  sd_tick : nat
}.

Class SchedEnv `{Decimal} := {
  (** the other tasks, and what they can do while the table of jobs is locked *)
  se_others : nat -> SchedState -> SchedState;
  se_locked : nat -> SchedState -> SchedState;
  se_clock : nat -> Clock;
  se_uuid : nat -> Uuid;
  se_stash : nat -> N;
  (** the writing of a job to the database *)
  se_save : nat -> JobContext -> Result string unit;
  (** a subtask that ends without sending its result *)
  se_lost : nat -> bool
}.

Section scheduler.
  Context `{Decimal} `{!ChatEnv JobContext} `{!SchedEnv} `{RegexEngine} `{MultiMatcher}.
  Variable sc : Scheduler.
  Implicit Types (s : SchedState) (c : JobContext).

Abbreviation Sch := (St SchedState).

Definition with_manager (cm : ContextManager) s : SchedState :=
  mkSched _ cm (sd_tools s) (sd_active s) (sd_jobs s) (sd_stopping s) (sd_tasks s) (sd_cleanups s) (sd_subtasks s) (sd_writes s) (sd_tick s).
Definition with_jobs (j : gmap Uuid nat) s : SchedState :=
  mkSched _ (sd_contexts s) (sd_tools s) (sd_active s) j (sd_stopping s) (sd_tasks s) (sd_cleanups s) (sd_subtasks s) (sd_writes s) (sd_tick s).
Definition with_tasks (l : list WorkerTask) s : SchedState :=
  mkSched _ (sd_contexts s) (sd_tools s) (sd_active s) (sd_jobs s) (sd_stopping s) l (sd_cleanups s) (sd_subtasks s) (sd_writes s) (sd_tick s).
Definition with_cleanups (l : list (Uuid * bool)) s : SchedState :=
  mkSched _ (sd_contexts s) (sd_tools s) (sd_active s) (sd_jobs s) (sd_stopping s) (sd_tasks s) l (sd_subtasks s) (sd_writes s) (sd_tick s).
Definition with_subtasks (m : gmap Uuid bool) s : SchedState :=
  mkSched _ (sd_contexts s) (sd_tools s) (sd_active s) (sd_jobs s) (sd_stopping s) (sd_tasks s) (sd_cleanups s) m (sd_writes s) (sd_tick s).
Definition with_writes (l : list SchedWrite) s : SchedState :=
  mkSched _ (sd_contexts s) (sd_tools s) (sd_active s) (sd_jobs s) (sd_stopping s) (sd_tasks s) (sd_cleanups s) (sd_subtasks s) l (sd_tick s).
Definition with_tick (n : nat) s : SchedState :=
  mkSched _ (sd_contexts s) (sd_tools s) (sd_active s) (sd_jobs s) (sd_stopping s) (sd_tasks s) (sd_cleanups s) (sd_subtasks s) (sd_writes s) n.

Definition with_stopping (i : option nat) s : SchedState :=
  mkSched _ (sd_contexts s) (sd_tools s) (sd_active s) (sd_jobs s) i (sd_tasks s) (sd_cleanups s) (sd_subtasks s) (sd_writes s)
    (sd_tick s).

(** A lock is taken: the other tasks have run. *)
Definition await : Sch unit := modify (fun s => with_tick (S (sd_tick s)) (se_others (sd_tick s) s)).
(** The same while the table of jobs is locked. *)
Definition await_locked : Sch unit := modify (fun s => with_tick (S (sd_tick s)) (se_locked (sd_tick s) s)).

Definition on_contexts {R} (f : Clock -> ContextManager -> R * ContextManager) : Sch R := act (fun s =>
  let '(r, cm) := f (se_clock (sd_tick s)) (sd_contexts s) in (r, with_manager cm s)).

Definition sched_write (w : SchedWrite) : Sch unit :=
  modify (fun s => if sc_store sc then with_writes (sd_writes s ++ [w]) s else s).

(** *** Workers *)

Definition task_finished (i : nat) s : bool := match sd_tasks s !! i with Some t => wt_finished t | None => true end.

Definition send_to (m : WorkerMessage) (t : WorkerTask) : WorkerTask :=
  if wt_finished t then t else mkWorkerTask (wt_worker t) (wt_inbox t ++ [m]) (wt_finished t).
Definition finish_task (t : WorkerTask) : WorkerTask := mkWorkerTask (wt_worker t) (wt_inbox t) true.

Definition update_task (i : nat) (f : WorkerTask -> WorkerTask) s : SchedState := with_tasks (alter f i (sd_tasks s)) s.

Definition job_worker (id : Uuid) (approval : option ApprovalContext) : Worker :=
  mkWorker id (sc_safety sc) (use_planning (sc_config sc)) approval (sc_interceptor sc) (sc_store sc) (sc_sse sc).

(** Spawn a worker, send it [Start], enter it in the table and spawn its cleanup loop. *)
Definition register_worker (id : Uuid) (approval : option ApprovalContext) s : SchedState :=
  with_cleanups (sd_cleanups s ++ [(id, false)])
    (with_jobs (<[id := length (sd_tasks s)]> (sd_jobs s))
       (with_tasks (sd_tasks s ++ [mkWorkerTask (job_worker id approval) [Start] false]) s)).

Definition SCHEDULED : string := "Scheduled for execution".

(** The limit on the jobs of one user, when it stands in the way. *)
Definition user_limit (id : Uuid) : Sch (option nat) :=
  match max_jobs_per_user (sc_config sc) with
  | None => mret None
  | Some max =>
      _ ← await_locked;
      r ← gets (fun s => get_context id (sd_contexts s));
      match r with
      | Err _ => mret None
      | Ok c =>
          _ ← await_locked;
          n ← gets (fun s => parallel_blocking_count_for (user_id c) (sd_contexts s));
          mret (if decide (max ≤ n)%nat then Some max else None)
      end
  end.

Definition start_context clk c : Result string unit * JobContext :=
  let '(c, r) := transition_to clk c InProgress (Some SCHEDULED) in (r, c).

(** Under the lock of the table, which reads [jobs]. *)
Definition schedule_locked (id : Uuid) (approval : option ApprovalContext) (jobs : gmap Uuid nat) : Sch (Result JobError unit) :=
  match jobs !! id with
  | Some _ => mret (Ok tt)
  | None =>
      if decide (max_parallel_jobs (sc_config sc) ≤ size jobs)%nat then
        mret (Err (MaxJobsExceeded (max_parallel_jobs (sc_config sc))))
      else
        refused ← user_limit id;
        match refused with
        | Some max => mret (Err (MaxJobsExceeded max))
        | None =>
            _ ← await_locked;
            r ← on_contexts (fun clk => update_context id (start_context clk));
            match r with
            | Err e => mret (Err e)
            | Ok (Err reason) => mret (Err (ContextError id reason))
            | Ok (Ok _) => _ ← modify (register_worker id approval); mret (Ok tt)
            end
        end
  end.

Definition schedule_with_context (id : Uuid) (approval : option ApprovalContext) : Sch (Result JobError unit) :=
  _ ← await;
  jobs ← gets sd_jobs;
  schedule_locked id approval jobs.

Definition schedule (id : Uuid) : Sch (Result JobError unit) := schedule_with_context id None.

(** *** Dispatch *)

Definition user_max_tokens (meta : option Json) : option Z :=
  v ← meta; m ← json_get "max_tokens" v; as_u64 m.

Definition effective_max_tokens (meta : option Json) : Z :=
  let cap := max_tokens_per_job (sc_config sc) in
  match user_max_tokens meta with
  | Some asked => if (cap =? 0)%Z then asked else Z.min asked cap
  | None => cap
  end.

Definition set_max_tokens (n : Z) c : JobContext :=
  JobState.mkContext _ (job_id c) (state c) (user_id c) (requester_id c) (conversation_id c) (title c) (description c)
    (category c) (budget c) (budget_token c) (bid_amount c) (estimated_cost c) (estimated_duration c) (actual_cost c)
    (total_tokens_used c) n (created_at c) (started_at c) (completed_at c) (repair_attempts c)
    (transitions c) (metadata c) (extra_env c) (http_interceptor c) (tool_output_stash c) (user_timezone c).

Definition apply_budget (n : Z) c : JobContext := if (0 <? n)%Z then set_max_tokens n c else c.

(** Metadata and budget in one update. *)
Definition prepare_context (id : Uuid) (meta : option Json) (cm : ContextManager)
    : Result JobError JobContext * ContextManager :=
  let n := effective_max_tokens meta in
  match meta with
  | Some v => update_context_and_get id (fun c => apply_budget n (set_metadata v c)) cm
  | None => if (0 <? n)%Z then update_context_and_get id (set_max_tokens n) cm else (get_context id cm, cm)
  end.

Definition save_job c : Sch (Result JobError unit) :=
  if sc_store sc then
    _ ← await;
    r ← gets (fun s => se_save (sd_tick s) c);
    match r with
    | Ok _ => _ ← sched_write (DbSaveJob c); mret (Ok tt)
    | Err e => mret (Err (JobFailed (job_id c) ("failed to persist job: " +:+ e)))
    end
  else mret (Ok tt).

(** A new job with its metadata and budget, saved. *)
Definition enroll_job (user ttl descr : string) (meta : option Json) : Sch (Result JobError Uuid) :=
  _ ← await;
  fresh ← gets (fun s => (se_uuid (sd_tick s), se_stash (sd_tick s)));
  id ←? on_contexts (fun clk => create_job_for_user fresh.1 (clk 0%nat) fresh.2 user ttl descr);
  _ ← await;
  c ←? on_contexts (fun _ => prepare_context id meta);
  _ ←? save_job c;
  mret (Ok id).

Definition dispatch_job_inner (user ttl descr : string) (meta : option Json) (approval : option ApprovalContext)
    : Sch (Result JobError Uuid) :=
  id ←? enroll_job user ttl descr meta;
  _ ←? schedule_with_context id approval;
  mret (Ok id).

Definition autonomous_approval_context (user : string) : Sch ApprovalContext :=
  _ ← await;
  gets (fun s => Autonomous (autonomous_allowed_tool_names (sd_tools s) (sd_active s) user)).

Definition dispatch_job (user ttl descr : string) (meta : option Json) : Sch (Result JobError Uuid) :=
  approval ← autonomous_approval_context user;
  dispatch_job_inner user ttl descr meta (Some approval).

Definition dispatch_job_with_context (user ttl descr : string) (meta : option Json) (approval : ApprovalContext)
    : Sch (Result JobError Uuid) :=
  dispatch_job_inner user ttl descr meta (Some approval).

(** *** Subtasks *)

Definition execute_tool_task (approval : option ApprovalContext) (id : Uuid) (nm : string) (params : Json)
    : Sch (Result Error TaskOutput) :=
  t0 ← gets (fun s => se_clock (sd_tick s) 0%nat);
  _ ← await;
  found ← gets (fun s => registry_get nm (sd_tools s));
  match found with
  | None => mret (Err (ETool (ToolExec.NotFound nm)))
  | Some tool =>
      _ ← await;
      r ← gets (fun s => get_context id (sd_contexts s));
      match r with
      | Err e => mret (Err (EJob e))
      | Ok c =>
          if decide (state c = Cancelled) then mret (Err (ETool (ExecutionFailed nm "Job is cancelled")))
          else if is_blocked_or_default approval nm (requires_approval tool (Worker.prepared tool params)) then
            mret (Err (ETool (autonomous_unavailable_error nm (user_id c))))
          else
            _ ← await;
            out ← gets (fun s => execute_tool_with_safety ce_lower parse_value ce_print_f64 ce_pretty (sd_tools s)
                                   (sc_safety sc) nm params (c, ∅));
            t1 ← gets (fun s => se_clock (sd_tick s) 0%nat);
            mret match out with
                 | Err e => Err (ETool e)
                 | Ok text =>
                     match ce_from_str text with
                     | Ok v => Ok (mkTaskOutput v (Z.max 0 (t1 - t0)))
                     | Err e => Err (ETool (ExecutionFailed nm ("Failed to parse tool output as JSON: " +:+ e)))
                     end
                 end
      end
  end.

(** The receiver of a subtask: what it yields when it is awaited, [None] for a closed channel. *)
Abbreviation Receiver := (Sch (option (Result Error TaskOutput))).

Definition received (run : Sch (Result Error TaskOutput)) : Receiver :=
  lost ← gets (fun s => se_lost (sd_tick s));
  r ← run;
  mret (if lost : bool then None else Some r).

Definition USE_SCHEDULE : string := "Use schedule() for Job tasks, not spawn_subtask()".

Definition subtask_code (parent id : Uuid) (t : Task) : Result JobError Receiver :=
  match t with
  | TaskJob _ _ _ => Err (ContextError parent USE_SCHEDULE)
  | TaskToolExec p nm params => Ok (received (execute_tool_task None p nm params))
  | TaskBackground _ h => Ok (received (_ ← await; mret (th_run h (with_parent parent (task_context_new id)))))
  end.

Definition spawn_subtask (parent : Uuid) (t : Task) : Sch (Result JobError Receiver) :=
  id ← gets (fun s => se_uuid (sd_tick s));
  match subtask_code parent id t with
  | Err e => mret (Err e)
  | Ok rx =>
      _ ← await;
      _ ← modify (fun s => with_subtasks (<[id := false]> (sd_subtasks s)) s);
      mret (Ok rx)
  end.

Fixpoint spawn_all (parent : Uuid) (l : list Task) : Sch (list (option Receiver)) :=
  match l with
  | [] => mret []
  | t :: l =>
      r ← spawn_subtask parent t;
      rest ← spawn_all parent l;
      mret (match r with Ok rx => Some rx | Err _ => None end :: rest)
  end.

Fixpoint collect (parent : Uuid) (l : list (option Receiver)) : Sch (list (Result Error TaskOutput)) :=
  match l with
  | [] => mret []
  | None :: l =>
      rest ← collect parent l;
      mret (Err (EJob (ContextError parent "Subtask failed to spawn")) :: rest)
  | Some rx :: l =>
      r ← rx;
      rest ← collect parent l;
      mret (default (Err (EJob (ContextError parent "Subtask channel closed unexpectedly"))) r :: rest)
  end.

Definition spawn_batch (parent : Uuid) (l : list Task) : Sch (list (Result Error TaskOutput)) :=
  match l with
  | [] => mret []
  | _ => receivers ← spawn_all parent l; collect parent receivers
  end.

(** *** Stopping and messages *)

Definition STOPPED : string := "Stopped by scheduler".

(** The move is tried, and a refusal only logged. *)
Definition cancel_context clk c : JobContext := (transition_to clk c Cancelled (Some STOPPED)).1.

(** Under the lock of the table, from which the job was removed: a moment for the worker at [i] to end by itself, the
    abort, and the state of the job.  The abort takes effect at once here; tokio lets a worker that is not waiting run
    to its next await first. *)
Definition end_worker (id : Uuid) (i : nat) : Sch (Result JobError unit) :=
  _ ← await_locked;
  _ ← modify (update_task i finish_task);
  _ ← await_locked;
  r ← on_contexts (fun clk => update_context id (fun c => (tt, cancel_context clk c)));
  _ ← match r with Ok _ => sched_write (DbCancelled id STOPPED) | Err _ => mret tt end;
  _ ← modify (with_stopping None);
  mret r.

Definition take_worker (id : Uuid) (i : nat) s : SchedState :=
  with_stopping (Some i) (with_jobs (delete id (sd_jobs s)) (update_task i (send_to Stop) s)).

Definition stop (id : Uuid) : Sch (Result JobError unit) :=
  _ ← await;
  found ← gets (fun s => sd_jobs s !! id);
  match found with
  | None => mret (Ok tt)
  | Some i => _ ← modify (take_worker id i); end_worker id i
  end.

Definition send_message (id : Uuid) (content : string) : Sch (Result JobError unit) :=
  _ ← await;
  found ← gets (fun s => sd_jobs s !! id);
  match found with
  | None => mret (Err (JobState.NotFound id))
  | Some i =>
      _ ← await;
      closed ← gets (task_finished i);
      if closed : bool then mret (Err (JobFailed id "Worker channel closed"))
      else _ ← modify (update_task i (send_to (UserMessage content))); mret (Ok tt)
  end.

Definition is_running (id : Uuid) s : bool := bool_decide (is_Some (sd_jobs s !! id)).
Definition running_count s : nat := size (sd_jobs s).
Definition subtask_count s : nat := size (sd_subtasks s).
Definition running_jobs s : list Uuid := (map_to_list (sd_jobs s)).*1.

(** The jobs whose worker has not ended. *)
Definition unfinished s : gmap Uuid nat := base.filter (fun x => task_finished x.2 s = false) (sd_jobs s).

Definition cleanup_finished : Sch unit :=
  _ ← await;
  _ ← modify (fun s => with_jobs (unfinished s) s);
  _ ← await;
  modify (fun s => with_subtasks (base.filter (fun x => x.2 = false) (sd_subtasks s)) s).

Definition stop_all : Sch unit :=
  _ ← await;
  ids ← gets running_jobs;
  _ ← st_iter (fun id => _ ← stop id; mret tt) ids;
  _ ← await;
  modify (fun s => with_subtasks ∅ s).

(** *** The cleanup loop *)

(** One look of the loop: is the job gone or its worker done? *)
Definition sees_finished (id : Uuid) s : bool :=
  match sd_jobs s !! id with Some i => task_finished i s | None => true end.
End scheduler.

(** ** The actions of all tasks *)

(** Workers run on, take and get messages, and end for good. *)
Definition tasks_evolve (l l' : list WorkerTask) : Prop :=
  Forall2 (fun t t' => wt_worker t' = wt_worker t ∧ (wt_finished t = true → wt_finished t' = true)) l l'.

Section steps.
  Context `{Decimal}.
  Implicit Types (s : SchedState).

(** What needs no lock of the table of jobs. *)
Inductive free_step : SchedState → SchedState → Prop :=
| fs_contexts cm s : free_step s (with_manager cm s)
| fs_tools r a s : free_step s (mkSched _ (sd_contexts s) r a (sd_jobs s) (sd_stopping s) (sd_tasks s) (sd_cleanups s)
                                  (sd_subtasks s) (sd_writes s) (sd_tick s))
| fs_tasks l s : tasks_evolve (sd_tasks s) l → free_step s (with_tasks l s)
| fs_subtasks m s : free_step s (with_subtasks m s)
| fs_writes l s : free_step s (with_writes l s)
| fs_tick n s : free_step s (with_tick n s).

(** A worker is entered where there is room, taken out by the stop of its job, or forgotten by a cleanup loop that
    has seen the job finished or by the sweep of the finished ones. *)
Inductive sched_step (sc : Scheduler) : SchedState → SchedState → Prop :=
| ss_free s s' : free_step s s' → sched_step sc s s'
| ss_register id approval s :
    sd_stopping s = None → sd_jobs s !! id = None → (size (sd_jobs s) < max_parallel_jobs (sc_config sc))%nat →
    sched_step sc s (register_worker sc id approval s)
| ss_look id before after s :
    sd_stopping s = None → sd_cleanups s = before ++ (id, false) :: after → sees_finished id s = true →
    sched_step sc s (with_cleanups (before ++ (id, true) :: after) s)
| ss_forget id before after s :
    sd_stopping s = None → sd_cleanups s = before ++ (id, true) :: after →
    sched_step sc s (with_cleanups (before ++ after) (with_jobs (delete id (sd_jobs s)) s))
| ss_sweep s : sd_stopping s = None → sched_step sc s (with_jobs (unfinished s) s)
| ss_take id i s :
    sd_stopping s = None → sd_jobs s !! id = Some i →
    sched_step sc s (with_stopping (Some i) (with_jobs (delete id (sd_jobs s)) s))
| ss_release i s :
    sd_stopping s = Some i → task_finished i s = true → sched_step sc s (with_stopping None s).

(** A scheduler without jobs. *)
Definition sched_start (cm : ContextManager) (r : ToolRegistry (ToolCtx JobContext)) (active : option (string * list string)) : SchedState :=
  mkSched _ cm r active ∅ None [] [] ∅ [] 0.

Definition job_of (t : WorkerTask) : Uuid := wk_job (wt_worker t).

Definition task_at s (i : nat) (id : Uuid) (t : WorkerTask) : Prop := sd_tasks s !! i = Some t ∧ job_of t = id.

(** The job was given two workers. *)
Definition twice s (id : Uuid) : Prop := ∃ i j t u, i ≠ j ∧ task_at s i id t ∧ task_at s j id u.

Record sched_inv (max : nat) s : Prop := {
  si_size : (size (sd_jobs s) ≤ max)%nat;
  si_entries : ∀ id i, sd_jobs s !! id = Some i → ∃ t, task_at s i id t;
  si_stopping : ∀ i, sd_stopping s = Some i → is_Some (sd_tasks s !! i);
  si_running : ∀ i id t, task_at s i id t → wt_finished t = false →
                 sd_jobs s !! id = Some i ∨ sd_stopping s = Some i ∨ twice s id;
  si_cleanups : ∀ id b, (id, b) ∈ sd_cleanups s → ∃ i t, task_at s i id t;
  si_seen : ∀ id i t, (id, true) ∈ sd_cleanups s → task_at s i id t → twice s id ∨ wt_finished t = true
}.
End steps.

Section invariant.
  Context `{Decimal}.
  Variable sc : Scheduler.
  Implicit Types (s : SchedState).

(** What the invariant looks at. *)
Definition same_table s s' : Prop :=
  sd_jobs s' = sd_jobs s ∧ sd_stopping s' = sd_stopping s ∧ sd_cleanups s' = sd_cleanups s.

Lemma evolve_refl l : tasks_evolve l l.
Proof. apply Forall2_same_length_lookup_2; [done|]. intros i t t' Ht Ht'. simplify_eq. done. Qed.

Lemma evolve_alter f i l :
  (∀ t, wt_worker (f t) = wt_worker t ∧ (wt_finished t = true → wt_finished (f t) = true)) → tasks_evolve l (alter f i l).
Proof.
  intros Hf. apply Forall2_same_length_lookup_2; [by rewrite length_alter|]. intros j t t' Ht.
  destruct (decide (i = j)) as [->|Hne].
  - rewrite list_lookup_alter_eq, Ht. intros [= <-]. apply Hf.
  - rewrite list_lookup_alter_ne, Ht by done. by intros [= <-].
Qed.

Lemma finish_evolves i s : tasks_evolve (sd_tasks s) (alter finish_task i (sd_tasks s)).
Proof. by apply evolve_alter. Qed.

Lemma send_evolves m i s : tasks_evolve (sd_tasks s) (alter (send_to m) i (sd_tasks s)).
Proof. apply evolve_alter. intros t. unfold send_to. by destruct (wt_finished t) eqn:Hf. Qed.

Lemma free_step_table s s' : free_step s s' → same_table s s' ∧ tasks_evolve (sd_tasks s) (sd_tasks s').
Proof. destruct 1; (split; [done|]); try apply evolve_refl. done. Qed.

Lemma evolve_back s s' i id t' : tasks_evolve (sd_tasks s) (sd_tasks s') → task_at s' i id t' →
  ∃ t, task_at s i id t ∧ (wt_finished t = true → wt_finished t' = true).
Proof.
  intros He [Ht Hid]. destruct (Forall2_lookup_r _ _ _ _ _ He Ht) as (t & Htl & Hw & Hf).
  exists t. split; [split; [done|]|done]. unfold job_of in *. by rewrite <-Hw.
Qed.

Lemma evolve_on s s' i id t : tasks_evolve (sd_tasks s) (sd_tasks s') → task_at s i id t → ∃ t', task_at s' i id t'.
Proof.
  intros He [Ht Hid]. destruct (Forall2_lookup_l _ _ _ _ _ He Ht) as (t' & Htl & Hw & _).
  exists t'. split; [done|]. unfold job_of in *. by rewrite Hw.
Qed.

Lemma evolve_twice s s' id : tasks_evolve (sd_tasks s) (sd_tasks s') → twice s id → twice s' id.
Proof.
  intros He (i & j & t & u & Hne & Ht & Hu). destruct (evolve_on _ _ _ _ _ He Ht) as [t' ?].
  destruct (evolve_on _ _ _ _ _ He Hu) as [u' ?]. by exists i, j, t', u'.
Qed.

Lemma inv_evolve max s s' :
  same_table s s' → tasks_evolve (sd_tasks s) (sd_tasks s') → sched_inv max s → sched_inv max s'.
Proof.
  intros (Hj & Hs & Hc) He [I1 I2 I3 I4 I5 I6]. split; rewrite ?Hj, ?Hs, ?Hc.
  - done.
  - intros id i [t Ht]%I2. by eapply evolve_on.
  - intros i [t Ht]%I3. destruct (Forall2_lookup_l _ _ _ _ _ He Ht) as (t' & ? & _). eauto.
  - intros i id t' Ht' Hf. destruct (evolve_back _ _ _ _ _ He Ht') as (t & Ht & Hm).
    destruct (I4 i id t Ht) as [?|[?|?]]; [|by auto..|].
    + destruct (wt_finished t); [|done]. by rewrite Hm in Hf.
    + right. right. by eapply evolve_twice.
  - intros id b (i & t & Ht)%I5. exists i. by eapply evolve_on.
  - intros id i t' Hc' Ht'. destruct (evolve_back _ _ _ _ _ He Ht') as (t & Hat & Hm).
    destruct (I6 id i t Hc' Hat); [left; by eapply evolve_twice|right; by apply Hm].
Qed.

(** The tasks stay; entries go only when their worker is done, has a double, or is being stopped. *)
Lemma inv_shrink max s s' :
  sd_tasks s' = sd_tasks s → (∀ id i, sd_jobs s' !! id = Some i → sd_jobs s !! id = Some i) →
  (∀ i, sd_stopping s' = Some i → is_Some (sd_tasks s !! i)) →
  (∀ i id t, task_at s i id t → wt_finished t = false → sd_jobs s !! id = Some i ∨ sd_stopping s = Some i →
     sd_jobs s' !! id = Some i ∨ sd_stopping s' = Some i ∨ twice s id) →
  (∀ id b, (id, b) ∈ sd_cleanups s' → ∃ b', (id, b') ∈ sd_cleanups s ∧
     (b = true → b' = false → ∀ i t, task_at s i id t → twice s id ∨ wt_finished t = true)) →
  sched_inv max s → sched_inv max s'.
Proof.
  intros Ht Hj Hst Hgo Hc [I1 I2 I3 I4 I5 I6].
  assert (∀ i id t, task_at s' i id t ↔ task_at s i id t) as Hat by (intros; unfold task_at; by rewrite Ht).
  assert (∀ id, twice s id → twice s' id) as Htw.
  { intros id (i & j & t & u & ? & ? & ?). exists i, j, t, u. by rewrite !Hat. }
  split.
  - etrans; [|exact I1]. rewrite <-!size_dom. apply subseteq_size. intros id. rewrite !elem_of_dom. intros [i Hi]. eauto.
  - intros id i [t ?]%Hj%I2. exists t. by rewrite Hat.
  - intros i. rewrite Ht. apply Hst.
  - intros i id t Hat' Hf. rewrite Hat in Hat'.
    destruct (I4 i id t Hat' Hf) as [Hi|[Hi|Hi]]; [| |by auto].
    + destruct (Hgo i id t Hat' Hf) as [?|[?|?]]; auto.
    + destruct (Hgo i id t Hat' Hf) as [?|[?|?]]; auto.
  - intros id b (b' & Hb & _)%Hc. destruct (I5 id b' Hb) as (i & t & ?). exists i, t. by rewrite Hat.
  - intros id i t (b' & Hb & Hnew)%Hc Hat'. rewrite Hat in Hat'.
    assert (twice s id ∨ wt_finished t = true) as [?|?]; [destruct b'; eauto|by auto|by auto].
Qed.

Lemma new_task_at id approval s : 
  task_at (register_worker sc id approval s) (length (sd_tasks s)) id (mkWorkerTask (job_worker sc id approval) [Start] false).
Proof. split; [|done]. cbn. by rewrite lookup_app_r, Nat.sub_diag. Qed.

Lemma old_task_at id approval s i id' t : task_at s i id' t → task_at (register_worker sc id approval s) i id' t.
Proof. intros [Ht ?]. split; [|done]. cbn. by apply lookup_app_l_Some. Qed.

Lemma register_task_at id approval s i id' t :
  task_at (register_worker sc id approval s) i id' t →
  task_at s i id' t ∨ (i = length (sd_tasks s) ∧ id' = id).
Proof.
  intros [Ht Hid]. cbn in Ht. apply lookup_app_Some in Ht as [Ht|[Hl Ht]]; [by left|]. right.
  apply list_lookup_singleton_Some in Ht as [Hi <-]. split; [lia|done].
Qed.

Lemma old_ne_new s i id t : task_at s i id t → i ≠ length (sd_tasks s).
Proof. intros [Ht%lookup_lt_Some _]. lia. Qed.

Lemma old_twice id approval s id' : twice s id' → twice (register_worker sc id approval s) id'.
Proof. intros (i & j & t & u & ? & ? & ?). exists i, j, t, u. split; [done|]. split; by apply old_task_at. Qed.

(** A second worker makes two. *)
Lemma second_twice id approval s i t : task_at s i id t → twice (register_worker sc id approval s) id.
Proof.
  intros Ht. exists i, (length (sd_tasks s)), t, (mkWorkerTask (job_worker sc id approval) [Start] false).
  split; [by eapply old_ne_new|]. split; [by apply old_task_at|apply new_task_at].
Qed.

Lemma inv_register id approval s :
  sd_stopping s = None → sd_jobs s !! id = None → (size (sd_jobs s) < max_parallel_jobs (sc_config sc))%nat →
  sched_inv (max_parallel_jobs (sc_config sc)) s →
  sched_inv (max_parallel_jobs (sc_config sc)) (register_worker sc id approval s).
Proof.
  intros Hst Hno Hroom [I1 I2 I3 I4 I5 I6]. split.
  - cbn. rewrite map_size_insert_None by done. lia.
  - cbn. intros id' i [[<- <-]|[Hne Hi]]%lookup_insert_Some; [eexists; apply new_task_at|].
    destruct (I2 id' i Hi) as [t ?]. exists t. by apply old_task_at.
  - cbn. by rewrite Hst.
  - intros i id' t [Ht|[-> ->]]%register_task_at Hf; [|left; cbn; by rewrite lookup_insert_eq].
    destruct (decide (id' = id)) as [->|Hne]; [right; right; by eapply second_twice|].
    destruct (I4 i id' t Ht Hf) as [?|[?|?]]; [|congruence|by right; right; apply old_twice].
    left. cbn. by rewrite lookup_insert_ne.
  - cbn [sd_cleanups register_worker with_cleanups]. intros id' b [Hb|Hb]%elem_of_app.
    + destruct (I5 id' b Hb) as (i & t & ?). exists i, t. by apply old_task_at.
    + apply list_elem_of_singleton in Hb as [= -> ->]. eexists _, _. apply new_task_at.
  - cbn [sd_cleanups register_worker with_cleanups]. intros id' i t [Hb|Hb]%elem_of_app; [|by apply list_elem_of_singleton in Hb].
    destruct (decide (id' = id)) as [->|Hne].
    + left. destruct (I5 id true Hb) as (j & u & ?). by eapply second_twice.
    + intros [Ht|[_ ->]]%register_task_at; [|done]. destruct (I6 id' i t Hb Ht); [left; by apply old_twice|by right].
Qed.

Lemma sched_step_inv s s' :
  sched_step sc s s' → sched_inv (max_parallel_jobs (sc_config sc)) s → sched_inv (max_parallel_jobs (sc_config sc)) s'.
Proof.
  destruct 1 as [s s' Hf|id ap s Hst Hno Hroom|id before after s Hst Hc Hsee|id before after s Hst Hc|s Hst|id i s Hst Hi|i s Hst Hfin];
    intros I.
  - apply free_step_table in Hf as [? ?]. by eapply inv_evolve.
  - by apply inv_register.
  - eapply inv_shrink; [..|exact I]; try done; cbn; rewrite ?Hst; [done|by intros ???? _ [?|?]; auto|]. intros id' b Hb. rewrite Hc.
    apply elem_of_app in Hb as [Hb|[[= -> ->]|Hb]%elem_of_cons]; [exists b|exists false|exists b]; rewrite elem_of_app, elem_of_cons;
      (split; [by auto|]); [by intros -> | |by intros ->].
    intros _ _ i t Ht. destruct (wt_finished t) eqn:Hf; [by right|]. left. unfold sees_finished, task_finished in Hsee.
    destruct I as [_ _ _ I4 _ _]. destruct (I4 i id t Ht Hf) as [Hi|[?|?]]; [|congruence|done].
    rewrite Hi in Hsee. destruct Ht as [Ht _]. rewrite Ht in Hsee. congruence.
  - eapply inv_shrink; [..|exact I]; try done; cbn.
    + intros id' i Hi%lookup_delete_Some. by destruct Hi.
    + by rewrite Hst.
    + intros i id' t Ht Hf [Hi|?]; [|congruence]. destruct (decide (id' = id)) as [->|Hne]; [|left; by rewrite lookup_delete_ne].
      destruct I as [_ _ _ _ _ I6]. destruct (I6 id i t) as [?|?]; [rewrite Hc; set_solver|done|by auto|congruence].
    + intros id' b Hb. exists b. split; [rewrite Hc; set_solver|by intros ->].
  - eapply inv_shrink; [..|exact I]; try done; cbn.
    + intros id i Hi%map_lookup_filter_Some. by destruct Hi.
    + by rewrite Hst.
    + intros i id t Ht Hf [Hi|?]; [|congruence]. left. apply map_lookup_filter_Some_2; [done|]. cbn. unfold task_finished.
      destruct Ht as [-> _]. done.
    + intros id b Hb. exists b. split; [done|by intros ->].
  - eapply inv_shrink; [..|exact I]; try done; cbn.
    + intros id' i' Hi'%lookup_delete_Some. by destruct Hi'.
    + intros i' [= <-]. destruct I as [_ I2 _ _ _ _]. destruct (I2 id i Hi) as [t [Ht _]]. eauto.
    + intros i' id' t Ht Hf [Hi'|?]; [|congruence]. destruct (decide (id' = id)) as [->|Hne].
      * right. left. congruence.
      * left. by rewrite lookup_delete_ne.
    + intros id' b Hb. exists b. split; [done|by intros ->].
  - eapply inv_shrink; [..|exact I]; try done; cbn.
    + intros i' id' t Ht Hf [Hi'|Hs]; [by left|]. rewrite Hst in Hs. injection Hs as <-.
      unfold task_finished in Hfin. destruct Ht as [Ht _]. rewrite Ht in Hfin. congruence.
    + intros id' b Hb. exists b. split; [done|by intros ->].
Qed.

Lemma reachable_inv cm r active s :
  rtc (sched_step sc) (sched_start cm r active) s → sched_inv (max_parallel_jobs (sc_config sc)) s.
Proof.
  intros Hr. apply (rtc_ind_r (sched_inv (max_parallel_jobs (sc_config sc))) (sched_start cm r active)) in Hr; [done| |].
  - split; cbn; try done; [rewrite map_size_empty; lia|intros i id t [Ht _]; done|..]; intros; by set_solver.
  - intros s1 s2 _ Hs. by apply sched_step_inv.
Qed.

Definition running (l : list WorkerTask) : list WorkerTask := base.filter (fun t => wt_finished t = false) l.

Lemma NoDup_not_twice s id : NoDup (job_of <$> sd_tasks s) → ¬ twice s id.
Proof.
  intros Hn (i & j & t & u & Hne & [Ht Hti] & [Hu Huj]). apply Hne. eapply (NoDup_lookup _ _ _ id Hn).
  - rewrite list_lookup_fmap, Ht. cbn. by rewrite Hti.
  - rewrite list_lookup_fmap, Hu. cbn. by rewrite Huj.
Qed.

(** The job of the worker that is being stopped. *)
Definition stopping_job s : gset Uuid :=
  match sd_stopping s ≫= fun i => sd_tasks s !! i with Some t => {[ job_of t ]} | None => ∅ end.

Lemma running_registered max s :
  sched_inv max s → NoDup (job_of <$> sd_tasks s) →
  list_to_set (job_of <$> running (sd_tasks s)) ⊆ dom (sd_jobs s) ∪ stopping_job s.
Proof.
  intros I Hn id. rewrite elem_of_list_to_set, list_elem_of_fmap. intros (t & -> & [Hf Ht]%list_elem_of_filter).
  apply list_elem_of_lookup in Ht as [i Hi]. destruct I as [_ _ _ I4 _ _].
  destruct (I4 i (job_of t) t) as [Hj|[Hj|Hj]]; [done|done|..].
  - apply elem_of_union_l, elem_of_dom. eauto.
  - apply elem_of_union_r. unfold stopping_job. rewrite Hj. cbn. rewrite Hi. by apply elem_of_singleton.
  - by destruct (NoDup_not_twice s (job_of t)).
Qed.

Lemma stopping_job_size s : (size (stopping_job s) ≤ match sd_stopping s with Some _ => 1 | None => 0 end)%nat.
Proof.
  unfold stopping_job. destruct (sd_stopping s) as [i|]; cbn; [destruct (sd_tasks s !! i)|]; rewrite ?size_singleton, ?size_empty; lia.
Qed.

(** C4. The limit on parallel jobs holds under every interleaving of the operations of the scheduler, its workers and
    the cleanup loops: the table never has more than [max_parallel_jobs] entries, and as long as no job
    is given a second worker, at most that many workers run, beside one that is just being stopped. *)
Theorem workers_capped cm r active s :
  rtc (sched_step sc) (sched_start cm r active) s →
  (size (sd_jobs s) ≤ max_parallel_jobs (sc_config sc))%nat ∧
  (NoDup (job_of <$> sd_tasks s) →
   length (running (sd_tasks s)) ≤ max_parallel_jobs (sc_config sc) + match sd_stopping s with Some _ => 1 | None => 0 end)%nat.
Proof.
  intros I%reachable_inv. split; [by destruct I|]. intros Hn. pose proof (running_registered _ s I Hn) as Hsub.
  apply subseteq_size in Hsub. rewrite size_list_to_set, length_fmap in Hsub.
  - pose proof (size_union_alt (dom (sd_jobs s)) (stopping_job s)) as Hu. pose proof (stopping_job_size s).
    pose proof (subseteq_size (stopping_job s ∖ dom (sd_jobs s)) (stopping_job s) ltac:(set_solver)).
    rewrite size_dom in Hu. destruct I as [I1 _ _ _ _ _]. lia.
  - eapply sublist_NoDup; [exact Hn|]. apply fmap_sublist, sublist_filter.
Qed.
End invariant.

(** ** The operations are made of these actions *)

(** The other tasks only take such steps, and none but the free ones while the table is locked. *)
Class OthersStep `{Decimal} `{!SchedEnv} (sc : Scheduler) : Prop := {
  others_step n s : sd_stopping s = None → rtc (sched_step sc) s (se_others n s) ∧ sd_stopping (se_others n s) = None;
  locked_step n s : rtc free_step s (se_locked n s)
}.

Section operations.
  Context `{Decimal} `{!ChatEnv JobContext} `{!SchedEnv} `{RegexEngine} `{MultiMatcher}.
  Variable sc : Scheduler.
  Context `{!OthersStep sc}.
  Variable s0 : SchedState.
  Implicit Types (s : SchedState).

(** Reached from [s0] with the lock of the table free. *)
Definition reached s : Prop := rtc (sched_step sc) s0 s ∧ sd_stopping s = None.

(** Reached, with the table as it was when the lock was taken. *)
Definition held (o : option nat) (jobs : gmap Uuid nat) s : Prop :=
  rtc (sched_step sc) s0 s ∧ sd_stopping s = o ∧ sd_jobs s = jobs.

Lemma held_free o jobs s s' : free_step s s' → held o jobs s → held o jobs s'.
Proof.
  intros Hf (Hr & Ho & Hj). destruct (free_step_table _ _ Hf) as [(Hj' & Ho' & _) _].
  split; [eapply rtc_r; [exact Hr|by constructor]|]. by rewrite Hj', Ho'.
Qed.

Lemma held_frees o jobs s s' : rtc free_step s s' → held o jobs s → held o jobs s'.
Proof. induction 1 as [|x y z Hf _ IH]; [done|]. intros Hh. by apply IH, (held_free o jobs x). Qed.

Lemma await_locked_held o jobs : preserves (held o jobs) await_locked.
Proof.
  apply preserves_modify. intros s Hs. eapply held_free; [apply fs_tick|]. eapply held_frees; [apply locked_step|done].
Qed.

Lemma on_contexts_held {R} o jobs (f : Clock -> ContextManager -> R * ContextManager) : preserves (held o jobs) (on_contexts f).
Proof.
  apply preserves_act. intros s Hs. destruct (f _ _) as [r cm]. eapply held_free; [apply fs_contexts|done].
Qed.

Lemma sched_write_held o jobs w : preserves (held o jobs) (sched_write sc w).
Proof.
  apply preserves_modify. intros s Hs. destruct (sc_store sc); [|done]. eapply held_free; [apply fs_writes|done].
Qed.

Lemma subtasks_held o jobs f : preserves (held o jobs) (modify (fun s => with_subtasks (f s) s)).
Proof. apply preserves_modify. intros s Hs. eapply held_free; [apply fs_subtasks|done]. Qed.

Lemma finish_held o jobs i : preserves (held o jobs) (modify (update_task i finish_task)).
Proof. apply preserves_modify. intros s Hs. eapply held_free; [apply fs_tasks, finish_evolves|done]. Qed.

Lemma send_held o jobs i m : preserves (held o jobs) (modify (update_task i (send_to m))).
Proof. apply preserves_modify. intros s Hs. eapply held_free; [apply fs_tasks, send_evolves|done]. Qed.
#[local] Hint Resolve await_locked_held on_contexts_held sched_write_held subtasks_held finish_held send_held : effects.

Lemma held_reached {A} (c : St SchedState A) : (∀ jobs, preserves (held None jobs) c) → preserves reached c.
Proof. intros Hc s [Hr Hs]. destruct (Hc (sd_jobs s) s) as (? & ? & _); done. Qed.

Lemma await_reached : preserves reached await.
Proof.
  apply preserves_modify. intros s [Hr Hs]. destruct (others_step (sd_tick s) s Hs) as [Ho Hso].
  split; [|done]. eapply rtc_r; [by etrans|]. apply ss_free, fs_tick.
Qed.
#[local] Hint Resolve await_reached : effects.

Lemma on_contexts_reached {R} (f : Clock -> ContextManager -> R * ContextManager) : preserves reached (on_contexts f).
Proof. apply held_reached. auto with effects. Qed.
Lemma sched_write_reached w : preserves reached (sched_write sc w).
Proof. apply held_reached. auto with effects. Qed.
Lemma subtasks_reached f : preserves reached (modify (fun s => with_subtasks (f s) s)).
Proof. apply held_reached. intros. apply subtasks_held. Qed.
Lemma send_reached i m : preserves reached (modify (update_task i (send_to m))).
Proof. apply held_reached. auto with effects. Qed.
#[local] Hint Resolve on_contexts_reached sched_write_reached subtasks_reached send_reached : effects.

(** With the lock taken on a table that has room for the job. *)
Lemma register_reached id ap jobs :
  jobs !! id = None → (size jobs < max_parallel_jobs (sc_config sc))%nat →
  outcome (held None jobs) (modify (register_worker sc id ap)) (fun _ => reached).
Proof.
  intros Hno Hroom s (Hr & Hs & Hj). split; [|done]. eapply rtc_r; [exact Hr|]. apply ss_register; by rewrite ?Hj.
Qed.

Lemma held_outcome {A B} jobs (c : St SchedState A) (k : A -> St SchedState B) :
  preserves (held None jobs) c → (∀ a, outcome (held None jobs) (k a) (fun _ => reached)) →
  outcome (held None jobs) (c ≫= k) (fun _ => reached).
Proof. intros Hc Hk. eapply outcome_bind; [|intros a; apply Hk]. intros s Hs. by apply Hc. Qed.

Lemma held_ret {A} jobs (a : A) : outcome (held None jobs) (mret a) (fun _ => reached).
Proof. apply outcome_ret. by intros s (? & ? & _). Qed.

Lemma user_limit_held o jobs id : preserves (held o jobs) (user_limit sc id).
Proof. unfold user_limit. preserve. Qed.

Lemma schedule_locked_reached id ap jobs : outcome (held None jobs) (schedule_locked sc id ap jobs) (fun _ => reached).
Proof.
  unfold schedule_locked. destruct (jobs !! id) eqn:Hno; [apply held_ret|]. case_decide as Hroom; [apply held_ret|].
  apply held_outcome; [apply user_limit_held|]. intros [max|]; [apply held_ret|].
  apply held_outcome; [auto with effects|]. intros _. apply held_outcome; [auto with effects|].
  intros [[u|e]|e]; [|apply held_ret..].
  eapply outcome_bind; [apply register_reached; [done|lia]|]. intros ?. by apply outcome_ret.
Qed.

Lemma schedule_reached id ap : preserves reached (schedule_with_context sc id ap).
Proof.
  unfold schedule_with_context. apply preserves_bind; [apply await_reached|]. intros _ s [Hr Hs]. rewrite bind_run.
  by apply schedule_locked_reached.
Qed.
#[local] Hint Resolve schedule_reached : effects.

Lemma dispatch_inner_reached user ttl descr meta ap : preserves reached (dispatch_job_inner sc user ttl descr meta ap).
Proof. unfold dispatch_job_inner, enroll_job, save_job. preserve. Qed.
#[local] Hint Resolve dispatch_inner_reached : effects.

Lemma dispatch_job_reached user ttl descr meta : preserves reached (dispatch_job sc user ttl descr meta).
Proof. unfold dispatch_job, autonomous_approval_context. preserve. Qed.

Lemma execute_tool_task_reached ap id nm params : preserves reached (execute_tool_task sc ap id nm params).
Proof. unfold execute_tool_task. preserve. Qed.
#[local] Hint Resolve execute_tool_task_reached : effects.

(** *** Subtasks *)

Lemma subtask_code_reached parent id t rx : subtask_code sc parent id t = Ok rx → preserves reached rx.
Proof. destruct t; [done|..]; intros [= <-]; unfold received; preserve. Qed.

Lemma spawn_subtask_reached parent t :
  outcome reached (spawn_subtask sc parent t) (fun r s => reached s ∧ match r with Ok rx => preserves reached rx | Err _ => True end).
Proof.
  intros s Hs. unfold spawn_subtask. rewrite bind_run. cbn [fst snd gets].
  destruct (subtask_code sc parent (se_uuid (sd_tick s)) t) as [rx|e] eqn:Hc; [|by rewrite ret_run].
  rewrite !bind_run, ret_run. split; [|by eapply subtask_code_reached]. apply subtasks_reached. by apply await_reached.
Qed.

Lemma spawn_all_reached parent l :
  outcome reached (spawn_all sc parent l) (fun rs s => reached s ∧
    Forall (fun r => match r with Some rx => preserves reached rx | None => True end) rs).
Proof.
  induction l as [|t l IH]; cbn [spawn_all]; [by apply outcome_ret|].
  eapply outcome_bind; [apply spawn_subtask_reached|]. intros r s [Hs Hr]. rewrite bind_run, ret_run.
  destruct (IH s Hs) as [Hs' Hrs]. split; [done|]. constructor; [by destruct r|done].
Qed.

Lemma collect_reached parent l :
  Forall (fun r => match r with Some rx => preserves reached rx | None => True end) l → preserves reached (collect parent l).
Proof. induction 1 as [|[rx|] l Hrx _ IH]; cbn [collect]; preserve. Qed.

Lemma spawn_batch_reached parent l : preserves reached (spawn_batch sc parent l).
Proof.
  unfold spawn_batch. destruct l as [|t l]; [preserve|]. intros s Hs. rewrite bind_run.
  destruct (spawn_all_reached parent (t :: l) s Hs) as [Hs' Hrs]. by apply collect_reached.
Qed.

(** *** Stopping *)

(** The table is locked and the worker at [i] has ended. *)
Definition ended (i : nat) s : Prop := rtc (sched_step sc) s0 s ∧ sd_stopping s = Some i ∧ task_finished i s = true.

Lemma evolve_finished i s s' :
  tasks_evolve (sd_tasks s) (sd_tasks s') → task_finished i s = true → task_finished i s' = true.
Proof.
  intros He. unfold task_finished. destruct (sd_tasks s' !! i) as [t'|] eqn:Ht'; [|done].
  destruct (Forall2_lookup_r _ _ _ _ _ He Ht') as (t & -> & _ & Hf). apply Hf.
Qed.

Lemma ended_free i s s' : free_step s s' → ended i s → ended i s'.
Proof.
  intros Hf (Hr & Hs & He). destruct (free_step_table _ _ Hf) as [(_ & Hs' & _) Hev].
  split; [eapply rtc_r; [exact Hr|by constructor]|]. rewrite Hs'. split; [done|by eapply evolve_finished].
Qed.

Lemma ended_frees i s s' : rtc free_step s s' → ended i s → ended i s'.
Proof. induction 1 as [|x y z Hf _ IH]; [done|]. intros Hh. by apply IH, (ended_free i x). Qed.

Lemma await_locked_ended i : preserves (ended i) await_locked.
Proof. apply preserves_modify. intros s Hs. eapply ended_free; [apply fs_tick|]. eapply ended_frees; [apply locked_step|done]. Qed.

Lemma on_contexts_ended {R} i (f : Clock -> ContextManager -> R * ContextManager) : preserves (ended i) (on_contexts f).
Proof. apply preserves_act. intros s Hs. destruct (f _ _) as [r cm]. eapply ended_free; [apply fs_contexts|done]. Qed.

Lemma sched_write_ended i w : preserves (ended i) (sched_write sc w).
Proof. apply preserves_modify. intros s Hs. destruct (sc_store sc); [|done]. eapply ended_free; [apply fs_writes|done]. Qed.
#[local] Hint Resolve await_locked_ended on_contexts_ended sched_write_ended : effects.

Lemma release_reached i : outcome (ended i) (modify (with_stopping None)) (fun _ => reached).
Proof. intros s (Hr & Hs & He). split; [|done]. eapply rtc_r; [exact Hr|]. by eapply ss_release. Qed.

Lemma finish_ended i jobs : outcome (held (Some i) jobs) (modify (update_task i finish_task)) (fun _ => ended i).
Proof.
  intros s Hs. pose proof (finish_held (Some i) jobs i s Hs) as (Hr & Ho & _). split; [done|]. split; [done|].
  unfold task_finished. cbn. destruct (sd_tasks s !! i) eqn:Ht; [rewrite list_lookup_alter_eq, Ht; done|].
  by rewrite list_lookup_alter_eq, Ht.
Qed.

Lemma take_held id i s :
  reached s → sd_jobs s !! id = Some i → held (Some i) (delete id (sd_jobs s)) (take_worker id i s).
Proof.
  intros [Hr Hs] Hi. split; [|done]. eapply rtc_r; [eapply rtc_r; [exact Hr|apply ss_free, fs_tasks, (send_evolves Stop i)]|].
  by apply (ss_take sc id i (with_tasks (alter (send_to Stop) i (sd_tasks s)) s)).
Qed.

Lemma ended_bind {A B} i (c : St SchedState A) (k : A -> St SchedState B) :
  preserves (ended i) c → (∀ a, outcome (ended i) (k a) (fun _ => reached)) → outcome (ended i) (c ≫= k) (fun _ => reached).
Proof. intros Hc Hk. eapply outcome_bind; [|intros a; apply Hk]. intros s Hs. by apply Hc. Qed.

Lemma end_worker_reached id i jobs : outcome (held (Some i) jobs) (end_worker sc id i) (fun _ => reached).
Proof.
  unfold end_worker. eapply (outcome_bind _ _ _ (fun _ => held (Some i) jobs)); [apply (await_locked_held (Some i) jobs)|]. intros _.
  eapply outcome_bind; [apply finish_ended|]. intros ?. do 3 (apply ended_bind; [preserve|]; intros ?).
  eapply outcome_bind; [apply release_reached|]. intros ?. by apply outcome_ret.
Qed.

Lemma stop_reached id : preserves reached (stop sc id).
Proof.
  unfold stop. apply preserves_bind; [apply await_reached|]. intros _ s Hs. rewrite bind_run. cbn [fst snd gets].
  destruct (sd_jobs s !! id) as [i|] eqn:Hi; [|done]. rewrite bind_run. by eapply end_worker_reached, take_held.
Qed.
#[local] Hint Resolve stop_reached : effects.

Lemma stop_all_reached : preserves reached (stop_all sc).
Proof. unfold stop_all. preserve. Qed.

Lemma sweep_reached : preserves reached (modify (fun s => with_jobs (unfinished s) s)).
Proof. apply preserves_modify. intros s [Hr Hs]. split; [|done]. eapply rtc_r; [exact Hr|]. by apply ss_sweep. Qed.
#[local] Hint Resolve sweep_reached : effects.

Lemma cleanup_finished_reached : preserves reached cleanup_finished.
Proof. unfold cleanup_finished. preserve. Qed.

Lemma send_message_reached id content : preserves reached (send_message id content).
Proof. unfold send_message. preserve. Qed.

(** C5. Every operation is such a sequence: whatever the other tasks do at the points where it waits, a call of the
    scheduler takes the system from a state with a free table to another one by atomic steps, so
    every invariant of the steps holds at its end and, for the others, at each of those points. *)
Theorem operations_take_steps (s : SchedState) :
  reached s →
  (∀ id ap, reached (schedule_with_context sc id ap s).2) ∧
  (∀ user ttl descr meta, reached (dispatch_job sc user ttl descr meta s).2) ∧
  (∀ user ttl descr meta ap, reached (dispatch_job_with_context sc user ttl descr meta ap s).2) ∧
  (∀ parent l, reached (spawn_batch sc parent l s).2) ∧
  (∀ id, reached (stop sc id s).2) ∧
  (∀ id content, reached (send_message id content s).2) ∧
  reached (cleanup_finished s).2 ∧ reached (stop_all sc s).2.
Proof.
  intros Hs. split_and!; intros;
    [by apply schedule_reached|by apply dispatch_job_reached|by apply dispatch_inner_reached|by apply spawn_batch_reached
    |by apply stop_reached|by apply send_message_reached|by apply cleanup_finished_reached|by apply stop_all_reached].
Qed.
End operations.

(** ** Admission *)

Lemma jobs_where_insert `{Decimal} (p : JobContext -> bool) id c cm cm' :
  contexts cm !! id = None → contexts cm' !! id = Some c → (∀ id', id' ≠ id → contexts cm' !! id' = contexts cm !! id') →
  p c = true → length (jobs_where p cm') = S (length (jobs_where p cm)).
Proof.
  intros Hno Hc Hother Hp. unfold jobs_where. assert (contexts cm' = <[id := c]> (contexts cm)) as ->.
  { apply map_eq. intros id'. destruct (decide (id' = id)) as [->|Hne]; [by rewrite lookup_insert_eq|].
    rewrite lookup_insert_ne by done. by apply Hother. }
  rewrite !length_fmap, !length_map_to_list, map_filter_insert_True by done.
  rewrite map_size_insert_None; [done|]. by apply map_lookup_filter_None_2; left.
Qed.

Section admission.
  Context `{Decimal} `{!ChatEnv JobContext} `{!SchedEnv} `{RegexEngine} `{MultiMatcher}.
  Variable sc : Scheduler.
  Implicit Types (s : SchedState) (c : JobContext) (cm : ContextManager).

Lemma user_max_tokens_range meta n : user_max_tokens meta = Some n → (0 ≤ n)%Z.
Proof.
  unfold user_max_tokens. intros (v & _ & (m & _ & Hm)%bind_Some)%bind_Some. unfold as_u64 in Hm.
  destruct m; try done. by apply parse_u64_range in Hm as [? _].
Qed.

Lemma prepared_budget id meta cm c :
  contexts cm !! id = Some c → max_tokens c = 0%Z →
  ∃ c', (prepare_context sc id meta cm).1 = Ok c' ∧ contexts (prepare_context sc id meta cm).2 !! id = Some c' ∧
    max_tokens c' = Z.max 0 (effective_max_tokens sc meta) ∧ state c' = state c ∧ user_id c' = user_id c ∧
    ∀ id', id' ≠ id → contexts (prepare_context sc id meta cm).2 !! id' = contexts cm !! id'.
Proof.
  intros Hc Hz. unfold prepare_context, update_context_and_get, get_context, apply_budget. rewrite Hc.
  generalize (effective_max_tokens sc meta) as n. intros n. destruct meta as [v|], (0 <? n)%Z eqn:Hn; zify_bool; eexists; cbn; rewrite ?lookup_insert_eq, ?Hc;
    (split_and!; [done|done|cbn; lia|done|done|]); intros id' Hne; by rewrite ?lookup_insert_ne.
Qed.

(** The budget of a dispatched job is the one it asks for, within the configured cap, except that a request for
    zero tokens lifts the cap: the minimum is then zero, zero is not applied, and the context keeps its
    own zero, which stands for no limit at all. *)
Theorem budget_capped_unless_zero id meta cm c :
  contexts cm !! id = Some c → max_tokens c = 0%Z → (0 < max_tokens_per_job (sc_config sc))%Z →
  ∃ c', (prepare_context sc id meta cm).1 = Ok c' ∧
    if decide (user_max_tokens meta = Some 0%Z) then ∀ n, (add_tokens c' n).2 = Ok tt
    else (0 < max_tokens c' ≤ max_tokens_per_job (sc_config sc))%Z.
Proof.
  intros Hc Hz Hcap. destruct (prepared_budget id meta cm c Hc Hz) as (c' & Hp & _ & Hm & _). exists c'. split; [done|].
  unfold effective_max_tokens in Hm. destruct (user_max_tokens meta) as [asked|] eqn:Ha.
  - apply user_max_tokens_range in Ha. destruct (_ =? 0)%Z eqn:He; zify_bool; [lia|]. case_decide as Hd.
    + injection Hd as ->. intros n. unfold add_tokens. replace (max_tokens c') with 0%Z by lia. done.
    + assert (asked ≠ 0%Z) by congruence. lia.
  - rewrite decide_False by done. lia.
Qed.

(** Nothing happens meanwhile. *)
Definition still : Prop := ∀ n s, se_others n s = s ∧ se_locked n s = s.
Context (Hstill : still).

Lemma await_still s : (await s).2 = with_tick (S (sd_tick s)) s.
Proof. unfold await, modify. cbn. by rewrite (proj1 (Hstill _ _)). Qed.

Lemma await_locked_still s : (await_locked s).2 = with_tick (S (sd_tick s)) s.
Proof. unfold await_locked, modify. cbn. by rewrite (proj2 (Hstill _ _)). Qed.

(** The limit is compared with a count that includes the job itself. *)
Lemma user_limit_still id max c s :
  max_jobs_per_user (sc_config sc) = Some max → contexts (sd_contexts s) !! id = Some c →
  ∃ n, user_limit sc id s =
    (if decide (max ≤ parallel_blocking_count_for (user_id c) (sd_contexts s))%nat then Some max else None, with_tick n s).
Proof.
  intros Hmax Hc. unfold user_limit. rewrite Hmax. rewrite !bind_run, await_locked_still. cbn [fst snd gets].
  unfold get_context. cbn [sd_contexts with_tick]. rewrite Hc. cbn [ok_or].
  rewrite !bind_run, await_locked_still, ret_run. cbn [fst snd gets sd_contexts with_tick]. by eexists.
Qed.

Lemma schedule_over_user_limit id ap max c s :
  max_jobs_per_user (sc_config sc) = Some max → contexts (sd_contexts s) !! id = Some c → sd_jobs s !! id = None →
  (size (sd_jobs s) < max_parallel_jobs (sc_config sc))%nat →
  (max ≤ parallel_blocking_count_for (user_id c) (sd_contexts s))%nat →
  ∃ n, schedule_with_context sc id ap s = (Err (MaxJobsExceeded max), with_tick n s).
Proof.
  intros Hmax Hc Hno Hroom Hcount. unfold schedule_with_context. rewrite !bind_run, await_still. cbn [fst snd gets sd_jobs with_tick].
  unfold schedule_locked. rewrite Hno, decide_False by lia. rewrite bind_run.
  destruct (user_limit_still id max c (with_tick (S (sd_tick s)) s) Hmax Hc) as [n ->]. cbn [fst snd].
  rewrite decide_True by done. rewrite ret_run. by eexists.
Qed.

(** Creation and preparation of a job in a quiet system. *)
Lemma created_still id user ttl descr meta now stash cm :
  contexts cm !! id = None → (parallel_count (contexts cm) < max_jobs cm)%nat →
  ∃ cm' c, (create_job_for_user id now stash user ttl descr cm).1 = Ok id ∧
    prepare_context sc id meta (create_job_for_user id now stash user ttl descr cm).2 = (Ok c, cm') ∧
    contexts cm' !! id = Some c ∧ state c = Pending ∧ user_id c = user ∧
    ∀ id', id' ≠ id → contexts cm' !! id' = contexts cm !! id'.
Proof.
  intros Hno Hroom. unfold create_job_for_user, insert_context, insert_section. cbn [job_id with_user].
  rewrite decide_False by lia. cbn [fst snd].
  set (cm1 := alloc_memory_section id _). set (c0 := with_user id now stash user ttl descr).
  assert (contexts cm1 = <[id := c0]> (contexts cm)) as Hcm1 by done. clearbody cm1.
  destruct (prepared_budget id meta cm1 c0) as (c & Hp & Hl & _ & Hst & Hu & Hother); [by rewrite Hcm1, lookup_insert_eq|done|].
  destruct (prepare_context sc id meta cm1) as [r cm']. cbn in Hp, Hl, Hother. subst r.
  exists cm', c. split_and!; try done. intros id' Hne. rewrite Hother, Hcm1 by done. by rewrite lookup_insert_ne.
Qed.

Lemma save_job_still c s : (∀ n c, se_save n c = Ok tt) →
  ∃ n w, save_job sc c s = (Ok tt, with_tick n (with_writes w s)).
Proof.
  intros Hsave. unfold save_job, sched_write. destruct (sc_store sc) eqn:Hst.
  - rewrite bind_run, await_still, bind_run. cbn [fst snd gets]. rewrite Hsave, bind_run, ret_run. unfold modify. cbn [snd].
    by eexists _, _.
  - rewrite ret_run. exists (sd_tick s), (sd_writes s). by destruct s.
Qed.

Lemma enroll_still user ttl descr meta s :
  let id := se_uuid (S (sd_tick s)) in
  contexts (sd_contexts s) !! id = None → (parallel_count (contexts (sd_contexts s)) < max_jobs (sd_contexts s))%nat →
  (∀ n c, se_save n c = Ok tt) →
  ∃ s' c, enroll_job sc user ttl descr meta s = (Ok id, s') ∧ contexts (sd_contexts s') !! id = Some c ∧
    state c = Pending ∧ user_id c = user ∧ sd_tasks s' = sd_tasks s ∧ sd_jobs s' = sd_jobs s ∧
    ∀ id', id' ≠ id → contexts (sd_contexts s') !! id' = contexts (sd_contexts s) !! id'.
Proof.
  intros id Hfresh Hslots Hsave. unfold enroll_job, st_try.
  rewrite bind_run, await_still, bind_run. cbn [fst snd gets sd_tick with_tick]. fold id.
  destruct (created_still id user ttl descr meta (se_clock (S (sd_tick s)) 0%nat) (se_stash (S (sd_tick s))) (sd_contexts s))
    as (cm' & c & Hcreate & Hprep & Hc & Hst & Hu & Hother); [done|done|].
  rewrite bind_run. unfold on_contexts, act. cbn [sd_tick with_tick sd_contexts].
  destruct (create_job_for_user id _ _ user ttl descr (sd_contexts s)) as [r cm1]. cbn [fst snd] in *. subst r.
  rewrite !bind_run, await_still. cbn [sd_contexts with_tick with_manager fst snd]. rewrite Hprep. cbn [fst snd].
  match goal with |- context [(save_job sc c ≫= _) ?x] => destruct (save_job_still c x Hsave) as (n & w & Hs) end.
  rewrite (bind_step _ _ _ _ _ Hs), ret_run. by eexists _, c.
Qed.

(** The limit on the jobs of one user is one short: the job that asks is already counted, so a limit of [max] turns
    away the user's job number [max], and a limit of one turns away every job; the refused job stays
    behind as pending and counts against the next one. *)
Theorem user_limit_one_short user ttl descr meta ap max s :
  let id := se_uuid (S (sd_tick s)) in
  max_jobs_per_user (sc_config sc) = Some max → (max ≤ S (parallel_blocking_count_for user (sd_contexts s)))%nat →
  contexts (sd_contexts s) !! id = None → sd_jobs s !! id = None →
  (parallel_count (contexts (sd_contexts s)) < max_jobs (sd_contexts s))%nat →
  (size (sd_jobs s) < max_parallel_jobs (sc_config sc))%nat → (∀ n c, se_save n c = Ok tt) →
  ∃ s' c, dispatch_job_inner sc user ttl descr meta ap s = (Err (MaxJobsExceeded max), s') ∧
    contexts (sd_contexts s') !! id = Some c ∧ state c = Pending ∧ sd_tasks s' = sd_tasks s.
Proof.
  intros id Hmax Hcount Hfresh Hnew Hslots Hroom Hsave. unfold dispatch_job_inner, st_try.
  destruct (enroll_still user ttl descr meta s Hfresh Hslots Hsave) as (s1 & c & He & Hc & Hst & Hu & Ht & Hj & Hother).
  rewrite (bind_step _ _ _ _ _ He). fold id in Hc, Hother |- *.
  destruct (schedule_over_user_limit id ap max c s1) as [n Hn]; [done|done|by rewrite Hj|by rewrite Hj| |].
  { unfold parallel_blocking_count_for. erewrite (jobs_where_insert _ id c (sd_contexts s)); [by rewrite Hu|done|done|done|].
    by rewrite Hu, Hst, bool_decide_eq_true_2. }
  rewrite (bind_step _ _ _ _ _ Hn), ret_run. by eexists _, c.
Qed.

(** *** What a schedule does *)

(** The verdict on a job that is not in the table, where no limit per user is set. *)
Definition admitted_state (oc : option JobContext) (id : Uuid) : Result JobError unit :=
  match oc with
  | None => Err (JobState.NotFound id)
  | Some c => if can_transition_to (state c) InProgress then Ok tt
              else Err (ContextError id (transition_error (state c) InProgress))
  end.

Lemma start_context_run clk c :
  start_context clk c =
    if can_transition_to (state c) InProgress then (Ok tt, (start_context clk c).2)
    else (Err (transition_error (state c) InProgress), c).
Proof.
  unfold start_context, transition_to. destruct (can_transition_to (state c) InProgress) eqn:Hc; cbn [negb]; [|done].
  case_decide; done.
Qed.

Lemma started_state clk c : can_transition_to (state c) InProgress = true → state (start_context clk c).2 = InProgress.
Proof.
  intros Hc. unfold start_context, transition_to. rewrite Hc. cbn [negb]. by case_decide.
Qed.

(** A job is admitted exactly when there is room and its state lets it start; then, and only then, a worker is spawned
    for it, with the given permissions and the start signal, and the job is in progress. *)
Theorem schedule_admits id ap s :
  max_jobs_per_user (sc_config sc) = None →
  let '(r, s') := schedule_with_context sc id ap s in
  let oc := contexts (sd_contexts s) !! id in
  if decide (is_Some (sd_jobs s !! id)) then r = Ok tt ∧ sd_tasks s' = sd_tasks s ∧ sd_jobs s' = sd_jobs s
  else if decide (max_parallel_jobs (sc_config sc) ≤ size (sd_jobs s))%nat then
    r = Err (MaxJobsExceeded (max_parallel_jobs (sc_config sc))) ∧ sd_tasks s' = sd_tasks s ∧ sd_jobs s' = sd_jobs s
  else
    r = admitted_state oc id ∧
    if is_ok (admitted_state oc id) then
      sd_tasks s' = sd_tasks s ++ [mkWorkerTask (job_worker sc id ap) [Start] false] ∧
      sd_jobs s' = <[id := length (sd_tasks s)]> (sd_jobs s) ∧
      ∃ c', contexts (sd_contexts s') !! id = Some c' ∧ state c' = InProgress
    else sd_tasks s' = sd_tasks s ∧ sd_jobs s' = sd_jobs s ∧ contexts (sd_contexts s') = contexts (sd_contexts s).
Proof.
  intros Hlim. unfold schedule_with_context. rewrite !bind_run, await_still. cbn [fst snd gets sd_jobs with_tick].
  unfold schedule_locked. destruct (sd_jobs s !! id) as [i|] eqn:Hi.
  - rewrite ret_run, decide_True; [done|eauto].
  - destruct (decide (is_Some None)) as [[? ?]|_]; [done|]. case_decide as Hroom; [done|].
    unfold user_limit. rewrite Hlim, !bind_run, ret_run. cbn [fst snd]. rewrite !bind_run, await_locked_still.
    unfold on_contexts, act, update_context. cbn [sd_contexts with_tick sd_tick]. destruct (contexts _ !! id) as [c|] eqn:Hc; [|done].
    rewrite start_context_run. cbn [admitted_state]. destruct (can_transition_to (state c) InProgress) eqn:Ht; cbn [fst snd].
    + rewrite bind_run, ret_run. split; [done|]. cbn. split; [done|]. split; [done|]. eexists.
      split; [by rewrite lookup_insert_eq|]. by apply started_state.
    + cbn. split; [done|]. split; [done|]. split; [done|]. by apply insert_id.
Qed.

(** *** What a stop does *)

Lemma cancel_context_state clk c :
  state (cancel_context clk c) = if can_transition_to (state c) Cancelled then Cancelled else state c.
Proof.
  unfold cancel_context, transition_to. destruct (can_transition_to (state c) Cancelled); cbn [negb]; [|done]. by case_decide.
Qed.

(** A stop takes the job out of the table, ends its worker, and cancels the job where its state allows that; the
    database is told that it was cancelled in every case, also when the worker had meanwhile completed
    or failed it. *)
Theorem stop_effect id i c s :
  sd_jobs s !! id = Some i → contexts (sd_contexts s) !! id = Some c → sc_store sc = true →
  ∃ s' c', stop sc id s = (Ok tt, s') ∧ sd_jobs s' = delete id (sd_jobs s) ∧ task_finished i s' = true ∧
    contexts (sd_contexts s') !! id = Some c' ∧
    state c' = (if can_transition_to (state c) Cancelled then Cancelled else state c) ∧
    sd_writes s' = sd_writes s ++ [DbCancelled id STOPPED].
Proof.
  intros Hi Hc Hst. unfold stop. rewrite !bind_run, await_still. cbn [fst snd gets sd_jobs with_tick]. rewrite Hi, bind_run.
  unfold end_worker, sched_write. rewrite !bind_run. cbn [fst snd modify]. rewrite !await_locked_still.
  unfold on_contexts, act, update_context. cbn. rewrite Hc. cbn. rewrite Hst.
  eexists _, _. split; [done|]. cbn. split; [done|]. split; [|split; [by rewrite lookup_insert_eq|]; split; [apply cancel_context_state|done]].
  unfold task_finished. cbn. rewrite list_lookup_alter_eq. by destruct (alter _ i _ !! i).
Qed.
End admission.

(** ** Permissions of dispatched jobs *)

Section dispatched.
  Context {P : Type} `{LlmProvider P} `{!ChatEnv JobContext} `{!SchedEnv} `{!WorkerEnv} `{RegexEngine} `{MultiMatcher}.
  Variable sc : Scheduler.
  Implicit Types (s : SchedState).

(** What an autonomous job of [user] may run: no denylisted tool, and only built-in tools and those that the extension
    manager holds active for the same owner. *)
Definition autonomous_for s (user nm : string) : Prop :=
  is_autonomous_tool_denylisted nm = false ∧
  (nm ∈ builtin_names (sd_tools s) ∨ ∃ names, sd_active s = Some (user, names) ∧ nm ∈ names).

Lemma allowed_names_autonomous s user nm :
  nm ∈ autonomous_allowed_tool_names (sd_tools s) (sd_active s) user → autonomous_for s user nm.
Proof.
  unfold autonomous_allowed_tool_names, autonomous_for. rewrite elem_of_union, elem_of_filter. intros [[? ?]|Hn]; [by auto|].
  destruct (sd_active s) as [[owner names]|]; [|set_solver]. destruct (owner =? user)%string eqn:Ho; [|set_solver].
  apply String.eqb_eq in Ho as ->. apply elem_of_filter in Hn as [? ?%elem_of_list_to_set]. eauto.
Qed.

Lemma schedule_Ok id ap s s' :
  schedule_with_context sc id ap s = (Ok tt, s') → sd_jobs (await s).2 !! id = None →
  is_Some (sd_jobs s' !! id) ∧ ∃ t, last (sd_tasks s') = Some t ∧ wt_worker t = job_worker sc id ap.
Proof.
  unfold schedule_with_context. rewrite !bind_run. cbn [fst snd gets]. unfold schedule_locked. intros Hs Hno.
  rewrite Hno in Hs. case_decide; [done|]. rewrite bind_run in Hs.
  destruct (user_limit sc id (await s).2) as [[max|] s1]; cbn [fst snd] in Hs; [done|].
  rewrite !bind_run in Hs. destruct (on_contexts _ _) as [[[u|e]|e] s2]; cbn [fst snd] in Hs; [|done..].
  rewrite bind_run, ret_run in Hs. injection Hs as <-. cbn. rewrite lookup_insert_eq, last_snoc. eauto 10.
Qed.

(** C6. A dispatched job is confined: a dispatch that succeeds under an identifier that was not in the table leaves a
    worker for it that hands no denylisted tool to its code and none that is neither built in nor
    active for the owner of the job, whatever the model, the hooks and the other tasks do. *)
Theorem dispatched_job_confined user ttl descr meta s s2 id s' :
  let s1 := (autonomous_approval_context user s).2 in
  enroll_job sc user ttl descr meta s1 = (Ok id, s2) → sd_jobs (await s2).2 !! id = None →
  dispatch_job sc user ttl descr meta s = (Ok id, s') →
  is_Some (sd_jobs s' !! id) ∧
  ∃ t, last (sd_tasks s') = Some t ∧ wk_job (wt_worker t) = id ∧
    ∀ ws : WorkerState P, ws_executed ws = [] →
      Forall (fun e => autonomous_for s1 user (ex_name e)) (ws_executed (run_worker (wt_worker t) None ws).2).
Proof.
  cbv zeta. unfold dispatch_job. rewrite bind_run. set (s1 := (autonomous_approval_context user s).2).
  assert ((autonomous_approval_context user s).1 = Autonomous (autonomous_allowed_tool_names (sd_tools s1) (sd_active s1) user))
    as -> by done.
  clearbody s1. unfold dispatch_job_inner, st_try. intros He Hno. rewrite (bind_step _ _ _ _ _ He), bind_run.
  destruct (schedule_with_context sc id _ s2) as [[[]|e] s3] eqn:Hs; cbn [fst snd]; rewrite ret_run; [|done].
  intros [= <-]. apply schedule_Ok in Hs as (? & t & Ht & Hw); [|done]. split; [done|].
  exists t. split; [done|]. rewrite Hw. split; [done|]. intros ws Hx.
  eapply Forall_impl; [by apply job_within_allow_list|]. intros e. apply allowed_names_autonomous.
Qed.
End dispatched.

(** ** Batches *)

Section batches.
  Context `{Decimal} `{!ChatEnv JobContext} `{!SchedEnv} `{RegexEngine} `{MultiMatcher}.
  Variable sc : Scheduler.
  Implicit Types (s : SchedState).

Lemma spawn_all_shape parent l s :
  Forall2 (fun t r => is_Some r ↔ ∃ id rx, subtask_code sc parent id t = Ok rx) l (spawn_all sc parent l s).1.
Proof.
  revert s. induction l as [|t l IH]; intros s; cbn [spawn_all]; [done|]. rewrite !bind_run, ret_run. constructor; [|apply IH].
  unfold spawn_subtask. rewrite bind_run. cbn [fst snd gets].
  destruct t; cbn [subtask_code]; rewrite ?bind_run, ret_run; cbn [fst];
    (split; [intros [? ?]|intros (? & ? & ?)]); try done; by eexists 0%N, _.
Qed.

Lemma collect_shape parent l s :
  Forall2 (fun r out => r = None → out = Err (EJob (ContextError parent "Subtask failed to spawn"))) l (collect parent l s).1.
Proof.
  revert s. induction l as [|[rx|] l IH]; intros s; cbn [collect]; [done|..]; rewrite !bind_run, ret_run; constructor;
    try apply IH; done.
Qed.

(** A batch gives one result per task, in the order of the tasks, and a job among them is an error. *)
Theorem batch_in_order parent l s :
  Forall2 (fun t out => (∃ id ttl descr, t = TaskJob id ttl descr) →
                        out = Err (EJob (ContextError parent "Subtask failed to spawn"))) l (spawn_batch sc parent l s).1.
Proof.
  unfold spawn_batch. destruct l as [|t l]; [done|]. set (ts := t :: l). clearbody ts. clear t l. rewrite bind_run.
  pose proof (spawn_all_shape parent ts s) as Hs. pose proof (collect_shape parent (spawn_all sc parent ts s).1 (spawn_all sc parent ts s).2) as Hc.
  eapply Forall2_trans; [|exact Hs|exact Hc].
  intros t r out Hr Hn (id & ttl & descr & ->). apply Hn. destruct r as [rx|]; [|done].
  destruct (proj1 Hr) as (? & ? & ?); [eauto|done].
Qed.
End batches.

(** ** Witnesses *)

Module SchedDemo.
#[local] Instance engine : RegexEngine :=
  {| regex_valid := fun _ => true; is_match := fun _ _ => false; find_iter := fun _ _ => []; capture1 := fun _ _ => None |}.
#[local] Instance matcher : MultiMatcher := {| ac_find_iter := fun _ _ _ => [] |}.

#[local] Instance provider : LlmProvider unit := {|
  model_name := fun _ => "demo";
  cost_per_token := fun _ => (0, 0)%Z;
  complete := fun _ p w => (Err (EmptyResponse "demo"), p, w);
  complete_with_tools := fun _ p w => (Err (EmptyResponse "demo"), p, w);
  list_models := fun p w => (Ok [], p, w);
  model_metadata := fun p w => (default_model_metadata "demo", p, w);
  effective_model_name := fun rq p => (default_effective_model_name rq "demo", p);
  active_model_name := fun _ => "demo";
  set_model := fun _ p => (default_set_model, p);
  calculate_cost := fun i o _ => default_calculate_cost (0, 0)%Z i o;
  cache_write_multiplier := fun _ => dec_one;
  cache_read_discount := fun _ => dec_one
|}.

#[local] Instance env : ChatEnv JobContext := {|
  ce_lower := id; ce_origin := 0%Z; ce_from_str := fun _ => Err "?";
  ce_to_string := fun _ => "{}"; ce_pretty := fun _ => Ok "{}"; ce_print_f64 := fun _ => "0"; ce_duration := fun _ => "1s";
  ce_hook_elapsed := fun _ _ => false; ce_hook_error := fun _ => "e"; ce_values := fun m => snd <$> map_to_list m;
  ce_date := fun _ => 0%Z; ce_uuid := N.of_nat; ce_others := fun _ s => s;
  ce_join := fun _ l => (fun x => (x, false)) <$> rev l
|}.

#[local] Instance job_env : WorkerEnv := {|
  we_others := fun _ sh => sh; we_join := fun _ l => (fun x => (x, false)) <$> rev l;
  we_rate_limit := fun _ => None; we_parse_plan := fun _ => Err "no plan"; we_uuid := N.of_nat;
  we_uuid_text := fun _ => "job"; we_decimal_text := fun _ => "0"; we_llm_text := fun _ => "failed"
|}.

#[local] Instance sched_env : SchedEnv := {|
  se_others := fun _ s => s; se_locked := fun _ s => s; se_clock := fun _ _ => 0%Z; se_uuid := N.of_nat; se_stash := N.of_nat;
  se_save := fun _ _ => Ok tt; se_lost := fun _ => false
|}.

Definition config (limit : option nat) (cap : Z) : SchedulerConfig := mkSchedConfig 1 limit cap false.
Definition sched (limit : option nat) (cap : Z) : Scheduler :=
  mkScheduler (config limit cap) (safety_new (mkSafetyConfig 1000 false)) true true None.

Definition empty : SchedState := sched_start (manager_new 5) ToolExec.registry_new None.

Lemma steady : still.
Proof. by intros n s. Qed.

#[local] Instance idle limit cap : OthersStep (sched limit cap).
Proof. split; [intros n s Hs; split; [apply rtc_refl|exact Hs]|intros n s; apply rtc_refl]. Qed.

(** One worker enters. *)
Lemma one_step : rtc (sched_step (sched None 0)) empty (register_worker (sched None 0) 1 None empty).
Proof. apply rtc_once, ss_register; [reflexivity|reflexivity|apply (bool_decide_unpack _); vm_compute; exact I]. Qed.

Lemma workers_capped_witness :
  (size (sd_jobs (register_worker (sched None 0) 1 None empty)) ≤ 1)%nat.
Proof.
  exact (proj1 (workers_capped (sched None 0) (manager_new 5) ToolExec.registry_new None
    (register_worker (sched None 0) 1 None empty) one_step)).
Defined.

Lemma operations_take_steps_witness :
  reached (sched None 0) empty (stop (sched None 0) 1 empty).2.
Proof.
  apply (operations_take_steps (sched None 0) empty empty). split; [apply rtc_refl|reflexivity].
Defined.

Definition zero_budget : Json := JObject [("max_tokens", JNumber "0")].
Definition one_job : ContextManager := set_contexts {[ 1%N := with_user 1 0 0 "u" "t" "d" ]} (manager_new 5).

Lemma budget_capped_unless_zero_witness :
  ∃ c', (prepare_context (sched None 1000) 1 (Some zero_budget) one_job).1 = Ok c' ∧ ∀ n, (add_tokens c' n).2 = Ok tt.
Proof.
  exact (budget_capped_unless_zero (sched None 1000) 1 (Some zero_budget) one_job (with_user 1 0 0 "u" "t" "d")
    eq_refl eq_refl eq_refl).
Defined.

(** With a limit of one job per user no job is ever admitted. *)
Lemma user_limit_one_short_witness :
  ∃ s' c, dispatch_job_inner (sched (Some 1) 0) "u" "t" "d" None None empty = (Err (MaxJobsExceeded 1), s') ∧
    contexts (sd_contexts s') !! 1%N = Some c ∧ state c = Pending ∧ sd_tasks s' = sd_tasks empty.
Proof.
  apply (user_limit_one_short (sched (Some 1) 0) steady "u" "t" "d" None None 1 empty);
    [reflexivity|apply (bool_decide_unpack _); vm_compute; exact I|reflexivity|reflexivity
    |apply (bool_decide_unpack _); vm_compute; exact I|apply (bool_decide_unpack _); vm_compute; exact I|reflexivity].
Defined.

Definition pending_job : SchedState := with_manager one_job empty.

Lemma schedule_admits_witness :
  let '(r, s') := schedule (sched None 0) 1 pending_job in
  r = Ok tt ∧ sd_jobs s' = {[ 1%N := 0%nat ]}.
Proof.
  pose proof (schedule_admits (sched None 0) steady 1 None pending_job eq_refl) as Hs. unfold schedule.
  revert Hs. generalize (schedule_with_context (sched None 0) 1 None pending_job). intros [r s'].
  vm_compute (decide (is_Some _)). vm_compute (decide (_ ≤ _)). intros (-> & _ & -> & _). split; reflexivity.
Defined.

Definition running_job : SchedState := (schedule (sched None 0) 1 pending_job).2.
Definition completed_job : SchedState :=
  with_manager (update_context 1%N (fun c => (tt, (transition_to (fun _ => 0%Z) c Completed None).1)) (sd_contexts running_job)).2
    running_job.

(** A stop that comes after the completion: completed in memory, cancelled in the database. *)
Lemma stop_effect_witness :
  ∃ s' c', stop (sched None 0) 1 completed_job = (Ok tt, s') ∧ contexts (sd_contexts s') !! 1%N = Some c' ∧
    state c' = Completed ∧ sd_writes s' = [DbCancelled 1 STOPPED].
Proof.
  destruct (stop_effect (sched None 0) steady 1 0
    (transition_to (fun _ => 0%Z) (start_context (fun _ => 0%Z) (with_user 1 0 0 "u" "t" "d")).2 Completed None).1 completed_job)
    as (s' & c' & Hs & _ & _ & Hc & Hst & Hw); [reflexivity|reflexivity|reflexivity|].
  exists s', c'. split_and!; done.
Defined.

Lemma dispatched_job_confined_witness :
  ∃ t, last (sd_tasks (dispatch_job (sched None 0) "u" "t" "d" None empty).2) = Some t ∧
    ∀ ws : WorkerState unit, ws_executed ws = [] →
      Forall (fun e => autonomous_for empty "u" (ex_name e)) (ws_executed (run_worker (wt_worker t) None ws).2).
Proof.
  destruct (dispatched_job_confined (P := unit) (sched None 0) "u" "t" "d" None empty
    (enroll_job (sched None 0) "u" "t" "d" None (autonomous_approval_context "u" empty).2).2 2
    (dispatch_job (sched None 0) "u" "t" "d" None empty).2) as [_ (t & Ht & _ & Hall)];
    [vm_compute; reflexivity|vm_compute; reflexivity|vm_compute; reflexivity|].
  exists t. split; [exact Ht|]. exact Hall.
Defined.
End SchedDemo.
