(* ===== verification/JobControl.v ===== *)
(** * JobControl: the commands on jobs and the repair of stuck ones

    The job handlers of [src/agent/commands.rs] and [src/agent/self_repair.rs] with the loop of [src/agent/agent_loop.rs]
    that runs it.  Both act on the contexts of jobs and on the scheduler, as computations over
    [SchedState] with the other tasks at every point where they wait. *)

From stdpp Require Import pretty.
From S2P Require Import Prelude Text TextSearch Effects F64 JobState JobMemory ContextManager Hooks Provider Reasoning AgenticLoop.
From S2P Require Import ReplyText LeakDetector Sanitizer Validator SafetyLayer ToolParams Redaction ToolExec Dispatcher Worker.
From S2P Require Import Scheduler.

(** ** Commands *)

Record JobSummaryCounts : Type := mkCounts { jc_total : nat; jc_in_progress : nat; jc_completed : nat; jc_failed : nat; jc_stuck : nat }.
Record SandboxCounts : Type := mkSandboxCounts {
  xc_total : nat; xc_running : nat; xc_completed : nat; xc_failed : nat; xc_interrupted : nat }.

(** A row of a list of jobs: identifier, title or task, status. *)
Record JobRow : Type := mkRow { row_id : Uuid; row_title : string; row_status : string }.

(** The database as one tenant sees it; its queries are scoped to the user.  The status is written by [ts_update_status]. *)
Record TenantJobs `{Decimal} : Type := mkTenantJobs {
  tj_get_job : Uuid -> Result string (option JobContext);
  tj_agent_summary : Result string JobSummaryCounts;
  tj_sandbox_summary : Result string SandboxCounts;
  tj_agent_jobs : Result string (list JobRow);
  tj_sandbox_jobs : Result string (list JobRow)
}.

Class JobTexts `{Decimal} := {
  jt_parse_uuid : string -> option Uuid;
  jt_uuid : Uuid -> string;
  jt_time : Z -> string;
  jt_decimal : dec -> string;
  (** the derived [Debug] of a job state *)
  jt_state : JobState -> string;
  (** the [Display] of a job error *)
  jt_error : JobError -> string
}.

Definition set_category `{Decimal} (v : option string) (c : JobContext) : JobContext :=
  JobState.mkContext _ (job_id c) (state c) (user_id c) (requester_id c) (conversation_id c) (title c) (description c)
    v (budget c) (budget_token c) (bid_amount c) (estimated_cost c) (estimated_duration c) (actual_cost c)
    (total_tokens_used c) (max_tokens c) (created_at c) (started_at c) (completed_at c) (repair_attempts c)
    (transitions c) (metadata c) (extra_env c) (http_interceptor c) (tool_output_stash c) (user_timezone c).

Section commands.
  Context `{Decimal} `{!ChatEnv JobContext} `{!SchedEnv} `{!JobTexts} `{RegexEngine} `{MultiMatcher}.
  Variable sc : Scheduler.
  (** the user of the tenant and its view of the database *)
  Variable user : string.
  Variable store : option TenantJobs.
  Implicit Types (s : SchedState) (c : JobContext).

Abbreviation Sch := (St SchedState).

Definition job_result {A} (r : Result JobError A) : Result Error A := match r with Ok a => Ok a | Err e => Err (EJob e) end.

Definition on_job {R} (id : Uuid) (f : Clock -> JobContext -> R * JobContext) : Sch (Result JobError R) :=
  _ ← await;
  on_contexts (fun clk => update_context id (f clk)).

Definition look_up (id : Uuid) : Sch (Result JobError JobContext) :=
  _ ← await;
  gets (fun s => get_context id (sd_contexts s)).

Definition handle_create_job (ttl descr : string) (category : option string) : Sch (Result Error string) :=
  r ← dispatch_job sc user ttl descr None;
  match r with
  | Err e => mret (Err (EJob e))
  | Ok id =>
      _ ← match category with
          | Some k => _ ← on_job id (fun _ c => (tt, set_category (Some k) c)); mret tt
          | None => mret tt
          end;
      mret (Ok (cat ["Created job: "; ttl; nl_str; "ID: "; jt_uuid id; nl2; "The job has been scheduled and is now running."]))
  end.

Definition job_report c : string :=
  cat ["Job: "; title c; nl_str; "Status: "; jt_state (state c); nl_str; "Created: "; jt_time (created_at c); nl_str;
       "Started: "; match started_at c with Some t => jt_time t | None => "Not started" end; nl_str;
       "Actual cost: "; jt_decimal (actual_cost c)].

Definition summary_text (total in_progress completed failed stuck : nat) : string :=
  cat ["Jobs summary: Total: "; show_nat total; " In Progress: "; show_nat in_progress; " Completed: "; show_nat completed;
       " Failed: "; show_nat failed; " Stuck: "; show_nat stuck].

Definition nil_uuid : Uuid := 0%N.

(** The database first, the contexts otherwise. *)
Definition handle_check_status (job : option string) : Sch (Result Error string) :=
  match job with
  | Some text =>
      match jt_parse_uuid text with
      | None => mret (Err (EJob (JobState.NotFound nil_uuid)))
      | Some id =>
          match store ≫= fun st => match tj_get_job st id with Ok oc => oc | Err _ => None end with
          | Some c => mret (Ok (job_report c))
          | None =>
              r ← look_up id;
              mret match r with
                   | Err e => Err (EJob e)
                   | Ok c => if decide (user_id c = user) then Ok (job_report c) else Err (EJob (JobState.NotFound id))
                   end
          end
      end
  | None =>
      match store with
      | Some st =>
          let a := match tj_agent_summary st with Ok a => a | Err _ => mkCounts 0 0 0 0 0 end in
          let x := match tj_sandbox_summary st with Ok x => x | Err _ => mkSandboxCounts 0 0 0 0 0 end in
          mret (Ok (summary_text (jc_total a + xc_total x) (jc_in_progress a + xc_running x) (jc_completed a + xc_completed x)
                      (jc_failed a + (xc_failed x + xc_interrupted x)) (jc_stuck a)))
      | None =>
          _ ← await;
          sm ← gets (fun s => summary_for user (sd_contexts s));
          mret (Ok (summary_text (s_total sm) (s_in_progress sm) (s_completed sm) (s_failed sm) (s_stuck sm)))
      end
  end.

(** The identifier and the context of a job of the tenant. *)
Definition own_job (text : string) : Sch (Result Error (Uuid * JobContext)) :=
  match jt_parse_uuid text with
  | None => mret (Err (EJob (JobState.NotFound nil_uuid)))
  | Some id =>
      r ← look_up id;
      mret match r with
           | Err e => Err (EJob e)
           | Ok c => if decide (user_id c = user) then Ok (id, c) else Err (EJob (JobState.NotFound id))
           end
  end.

(** [update_job_status] of the tenant's view. *)
Definition tenant_write (w : SchedWrite) : Sch unit :=
  modify (fun s => match store with Some _ => with_writes (sd_writes s ++ [w]) s | None => s end).

Definition CANCELLED_BY_USER : string := "Cancelled by user".

Definition handle_cancel_job (text : string) : Sch (Result Error string) :=
  '(id, _) ←? own_job text;
  r ← stop sc id;
  match r with
  | Err e => mret (Err (EJob e))
  | Ok _ =>
      _ ← await;
      _ ← tenant_write (DbCancelled id CANCELLED_BY_USER);
      mret (Ok (cat ["Job "; text; " has been cancelled."]))
  end.

Definition row_line (id : Uuid) (ttl status : string) : string := cat ["  "; jt_uuid id; " - "; ttl; " ("; status; ")"; nl_str].

Definition rows_of (r : Result string (list JobRow)) : list JobRow := match r with Ok l => l | Err _ => [] end.

Fixpoint list_from_contexts (ids : list Uuid) (out : string) : Sch string :=
  match ids with
  | [] => mret out
  | id :: ids =>
      r ← look_up id;
      list_from_contexts ids
        (out +:+ match r with Ok c => row_line id (title c) (jt_state (state c)) | Err _ => "" end)
  end.

Definition handle_list_jobs : Sch (Result Error string) :=
  match store with
  | Some st =>
      let rows := rows_of (tj_agent_jobs st) ++ rows_of (tj_sandbox_jobs st) in
      mret (Ok (if bool_decide (rows = []) then "No jobs found."
                else "Jobs:" +:+ nl_str +:+ cat ((fun r => row_line (row_id r) (row_title r) (row_status r)) <$> rows)))
  | None =>
      _ ← await;
      ids ← gets (fun s => all_jobs_for user (sd_contexts s));
      match ids with
      | [] => mret (Ok "No jobs found.")
      | _ => out ← list_from_contexts ids ("Jobs:" +:+ nl_str); mret (Ok out)
      end
  end.

Definition recover clk c : Result string unit * JobContext := let '(c, r) := attempt_recovery clk c in (r, c).

Definition handle_help_job (text : string) : Sch (Result Error string) :=
  '(id, c) ←? own_job text;
  if decide (state c = Stuck) then
    r ← on_job id recover;
    match r with
    | Err e => mret (Err (EJob e))
    | Ok (Err reason) => mret (Err (EJob (ContextError id reason)))
    | Ok (Ok _) =>
        r ← schedule sc id;
        mret match r with
             | Err e => Err (EJob e)
             | Ok _ => Ok (cat ["Job "; text; " was stuck. Attempting recovery (attempt #"; pretty (repair_attempts c + 1)%Z; ")."])
             end
    end
  else mret (Ok (cat ["Job "; text; " is not stuck (current state: "; jt_state (state c); "). No help needed."])).
End commands.

(** ** Self repair *)

Record StuckJob : Type := mkStuckJob {
  sj_job : Uuid;
  sj_last_activity : Z;
  sj_stuck_duration : Z;
  sj_last_error : option string;
  sj_repair_attempts : Z
}.

Record BrokenTool : Type := mkBroken {
  bt_name : string;
  bt_failure_count : Z;
  bt_last_error : option string;
  bt_first_failure : Z;
  bt_last_failure : Z;
  bt_last_build_result : option Json;
  bt_repair_attempts : Z
}.

Inductive RepairResult : Type :=
| RepairSuccess (message : string)
| RepairRetry (message : string)
| RepairFailed (message : string)
| ManualRequired (message : string).

Inductive RepairError : Type := RepairErrorFailed (target_type : string) (target_id : Uuid) (reason : string).

Inductive SoftwareType : Type := WasmTool | CliBinary | Library | Script | WebService.
Inductive Language : Type := Rust | Python | TypeScript | JavaScript | Go | Bash.

Record BuildRequirement : Type := mkRequirement {
  br_name : string;
  br_description : string;
  br_software_type : SoftwareType;
  br_language : Language;
  br_input_spec : option string;
  br_output_spec : option string;
  br_dependencies : list string;
  br_capabilities : list string
}.

(** What is read of a build: success, iterations, error. *)
Record BuildOutcome : Type := mkBuild { bo_success : bool; bo_iterations : Z; bo_error : option string }.

Inductive RepairWrite : Type := IncrementAttempts (tool : string) | MarkRepaired (tool : string).

(** [sr_broken] is what the store answers to [get_broken_tools]. *)
Record SelfRepair : Type := mkSelfRepair {
  sr_stuck_threshold : Z;
  sr_max_repair_attempts : Z;
  sr_broken : option (Result string (list BrokenTool));
  sr_builder : option (BuildRequirement -> Result string BuildOutcome)
}.

Section repair.
  Context `{Decimal} `{!ChatEnv JobContext} `{!SchedEnv} `{!JobTexts} `{RegexEngine} `{MultiMatcher}.
  Variable sr : SelfRepair.
  Implicit Types (s : SchedState) (c : JobContext).

Abbreviation Sch := (St SchedState).

Definition EXCEEDED : string := "exceeded stuck_threshold".

(** The time of the latest move to [Stuck]. *)
Definition stuck_since c : option Z := tr_timestamp <$> last (base.filter (fun t => tr_to t = Stuck) (transitions c)).

(** Whole seconds, in nanoseconds. *)
Definition stuck_duration (now : Z) c : Z :=
  match stuck_since c with
  | Some ts => secs (Z.max (Z.quot (now - ts) (secs 1)) 0)
  | None => 0%Z
  end.

Definition stall clk c : Result string unit * JobContext := let '(c, r) := mark_stuck clk c EXCEEDED in (r, c).

(** Whether the job is stuck now; a job in progress has been moved. *)
Definition mark_if_running (id : Uuid) c : Sch bool :=
  if decide (state c = InProgress) then
    r ← on_job id stall;
    mret match r with Ok (Ok _) => true | _ => false end
  else mret true.

Definition detect_one (id : Uuid) : Sch (option StuckJob) :=
  r ← look_up id;
  match r with
  | Err _ => mret None
  | Ok c =>
      if decide (state c = Stuck ∨ state c = InProgress) then
        moved ← mark_if_running id c;
        if negb moved then mret None
        else
          r ← look_up id;
          match r with
          | Err _ => mret None
          | Ok c' =>
              now ← gets (fun s => se_clock (sd_tick s) 0%nat);
              if bool_decide (state c ≠ InProgress) && (stuck_duration now c' <? sr_stuck_threshold sr)%Z then mret None
              else mret (Some (mkStuckJob id (default (created_at c') (stuck_since c')) (stuck_duration now c') None
                                 (repair_attempts c')))
          end
      else mret None
  end.

Fixpoint detect_all (ids : list Uuid) : Sch (list StuckJob) :=
  match ids with
  | [] => mret []
  | id :: ids =>
      o ← detect_one id;
      rest ← detect_all ids;
      mret (option_list o ++ rest)
  end.

Definition detect_stuck_jobs : Sch (list StuckJob) :=
  _ ← await;
  ids ← gets (fun s => find_stuck_jobs_with_threshold (se_clock (sd_tick s) 0%nat) (Some (sr_stuck_threshold sr)) (sd_contexts s));
  detect_all ids.

(** The update of a repair: a job that is still in progress is moved to [Stuck] first, and [?] ends the closure when
    that fails. *)
Definition repair_context clk c : Result string unit * JobContext :=
  if decide (state c = InProgress) then
    match transition_to clk c Stuck (Some EXCEEDED) with
    | (c, Err e) => (Err e, c)
    | (c, Ok _) => recover clk c
    end
  else recover clk c.

Definition repair_stuck_job (job : StuckJob) : Sch (Result RepairError RepairResult) :=
  if (sr_max_repair_attempts sr <=? sj_repair_attempts job)%Z then
    mret (Ok (ManualRequired (cat ["Job "; jt_uuid (sj_job job); " has exceeded maximum repair attempts (";
                                   pretty (sr_max_repair_attempts sr); ")"])))
  else
    r ← on_job (sj_job job) repair_context;
    mret match r with
         | Ok (Ok _) => Ok (RepairSuccess (cat ["Job "; jt_uuid (sj_job job); " recovered and will be retried"]))
         | Ok (Err e) => Ok (RepairRetry ("Recovery attempt failed: " +:+ e))
         | Err e => Err (RepairErrorFailed "job" (sj_job job) (jt_error e))
         end.

Definition detect_broken_tools : list BrokenTool := match sr_broken sr with Some (Ok l) => l | _ => [] end.

Definition repair_requirement (t : BrokenTool) : BuildRequirement :=
  mkRequirement (bt_name t)
    (cat ["Repair broken WASM tool."; nl2; "Tool name: "; bt_name t; nl_str; "Previous error: ";
          default "Unknown error" (bt_last_error t); nl_str; "Failure count: "; pretty (bt_failure_count t); nl2;
          "Analyze the error, fix the implementation, and rebuild."])
    WasmTool Rust None None [] ["http"; "workspace"].

(** The result with what is written to the store. *)
Definition repair_broken_tool (t : BrokenTool) : RepairResult * list RepairWrite :=
  match sr_builder sr, sr_broken sr with
  | None, _ => (ManualRequired (cat ["Builder not available for repairing tool '"; bt_name t; "'"]), [])
  | Some _, None => (ManualRequired "Store not available for tracking repair", [])
  | Some build, Some _ =>
      if (sr_max_repair_attempts sr <=? bt_repair_attempts t)%Z then
        (ManualRequired (cat ["Tool '"; bt_name t; "' exceeded max repair attempts ("; pretty (sr_max_repair_attempts sr); ")"]), [])
      else
        let counted := IncrementAttempts (bt_name t) in
        match build (repair_requirement t) with
        | Ok r =>
            if bo_success r then
              (RepairSuccess (cat ["Tool '"; bt_name t; "' repaired successfully after "; pretty (bo_iterations r); " iterations"]),
               [counted; MarkRepaired (bt_name t)])
            else
              (RepairRetry (cat ["Repair attempt "; pretty (bt_repair_attempts t + 1)%Z; " for '"; bt_name t; "' failed: ";
                                 default "Unknown error" (bo_error r)]), [counted])
        | Err e => (RepairRetry ("Repair build error: " +:+ e), [counted])
        end
  end.

(** What the owner is told of a repair. *)
Definition repair_notification (job : StuckJob) (r : Result RepairError RepairResult) : option string :=
  let waited := pretty (sj_stuck_duration job / secs 1)%Z in
  match r with
  | Ok (RepairSuccess m) => Some (cat ["Job "; jt_uuid (sj_job job); " was stuck for "; waited; "s, recovery succeeded: "; m])
  | Ok (RepairFailed m) => Some (cat ["Job "; jt_uuid (sj_job job); " was stuck for "; waited; "s, recovery failed permanently: "; m])
  | Ok (ManualRequired m) => Some (cat ["Job "; jt_uuid (sj_job job); " needs manual intervention: "; m])
  | Ok (RepairRetry _) | Err _ => None
  end.

Fixpoint repair_all (jobs : list StuckJob) : Sch (list string) :=
  match jobs with
  | [] => mret []
  | job :: jobs =>
      r ← repair_stuck_job job;
      rest ← repair_all jobs;
      mret (option_list (String.append "Self-Repair: " <$> repair_notification job r) ++ rest)
  end.

Definition tool_notification (t : BrokenTool) : option string :=
  match (repair_broken_tool t).1 with
  | RepairSuccess m => Some (cat ["Self-Repair: Tool '"; bt_name t; "' repaired: "; m])
  | _ => None
  end.

(** One turn of the loop, after its pause: the notifications it sends. *)
Definition repair_round : Sch (list string) :=
  jobs ← detect_stuck_jobs;
  told ← repair_all jobs;
  mret (told ++ omap tool_notification detect_broken_tools).
End repair.

(** ** Recovery *)

Lemma attempt_recovery_stuck `{Decimal} clk c : state c = Stuck →
  ∃ c', attempt_recovery clk c = (c', Ok tt) ∧ state c' = InProgress ∧ user_id c' = user_id c ∧
        repair_attempts c' = wrap32 (repair_attempts c + 1).
Proof.
  intros Hs. unfold attempt_recovery, transition_to. rewrite decide_True by done. cbn [state with_fields].
  rewrite Hs. cbn [can_transition_to negb]. rewrite decide_False by done. by eexists.
Qed.

Section stuck.
  Context `{Decimal} `{!ChatEnv JobContext} `{!SchedEnv} `{!JobTexts} `{RegexEngine} `{MultiMatcher}.
  Variable sc : Scheduler.
  Context (Hstill : still).
  Implicit Types (s : SchedState) (c : JobContext).

(** The contexts, the table and the workers: what a pause leaves alone. *)
Definition same_jobs s s' : Prop :=
  sd_contexts s' = sd_contexts s ∧ sd_jobs s' = sd_jobs s ∧ sd_tasks s' = sd_tasks s.

Lemma look_up_still id s : ∃ s1, look_up id s = (get_context id (sd_contexts s), s1) ∧ same_jobs s s1.
Proof. unfold look_up. rewrite bind_run, await_still by done. by eexists. Qed.

Lemma on_job_still {R} id (f : Clock -> JobContext -> R * JobContext) c s :
  contexts (sd_contexts s) !! id = Some c →
  ∃ s1 clk, on_job id f s = (Ok (f clk c).1, s1) ∧ sd_jobs s1 = sd_jobs s ∧ sd_tasks s1 = sd_tasks s ∧
    contexts (sd_contexts s1) = <[id := (f clk c).2]> (contexts (sd_contexts s)).
Proof.
  intros Hc. unfold on_job. rewrite bind_run, await_still by done. unfold on_contexts, act, update_context.
  cbn [sd_contexts with_tick sd_tick]. rewrite Hc. destruct (f _ c) as [r c'] eqn:Hf.
  eexists _, (se_clock (S (sd_tick s))). rewrite Hf. done.
Qed.

(** A job that is in progress is never given a worker: the move to [InProgress] that a schedule makes is refused. *)
Lemma schedule_in_progress id ap c s :
  contexts (sd_contexts s) !! id = Some c → state c = InProgress →
  let '(r, s') := schedule_with_context sc id ap s in
  sd_tasks s' = sd_tasks s ∧ sd_jobs s' = sd_jobs s ∧ contexts (sd_contexts s') = contexts (sd_contexts s) ∧
  (sd_jobs s !! id = None → is_ok r = false).
Proof.
  intros Hc Hst. unfold schedule_with_context. rewrite !bind_run, await_still by done. cbn [fst snd gets sd_jobs with_tick].
  unfold schedule_locked. destruct (sd_jobs s !! id) as [i|] eqn:Hi; [done|]. case_decide; [done|]. rewrite bind_run.
  assert (∃ o n, user_limit sc id (with_tick (S (sd_tick s)) s) = (o, with_tick n s)) as (o & n & ->).
  { destruct (max_jobs_per_user (sc_config sc)) as [max|] eqn:Hmax.
    - destruct (user_limit_still sc Hstill id max c (with_tick (S (sd_tick s)) s) Hmax Hc) as [n ->]. eauto.
    - unfold user_limit. rewrite Hmax. eauto. }
  cbn [fst snd]. destruct o as [max|]; [done|]. rewrite !bind_run, await_locked_still by done.
  unfold on_contexts, act, update_context. cbn [sd_contexts with_tick sd_tick]. rewrite Hc, start_context_run, Hst.
  cbn. split_and!; try done. by apply insert_id.
Qed.

(** Asking for help with a stuck job does not restart it: the recovery has already moved the job to [InProgress], from
    where the schedule that follows is not allowed, so no worker is spawned, the job stays in progress
    without one, and the answer is an error unless the old worker was still in the table. *)
Theorem help_starts_no_worker user text id c s :
  jt_parse_uuid text = Some id → contexts (sd_contexts s) !! id = Some c → user_id c = user → state c = Stuck →
  let '(r, s') := handle_help_job sc user text s in
  sd_tasks s' = sd_tasks s ∧ sd_jobs s' = sd_jobs s ∧
  (∃ c', contexts (sd_contexts s') !! id = Some c' ∧ state c' = InProgress) ∧
  (sd_jobs s !! id = None → is_ok r = false).
Proof.
  intros Hid Hc Hu Hst. unfold handle_help_job, st_try, own_job. rewrite Hid, bind_run.
  destruct (look_up_still id s) as (s1 & Hl & Hcm & Hj & Ht). rewrite (bind_step _ _ _ _ _ Hl), ret_run. cbn [fst snd].
  unfold get_context. rewrite Hc. cbn [ok_or]. rewrite decide_True by done. rewrite decide_True by done.
  destruct (on_job_still id recover c s1) as (s2 & clk & Ho & Hj2 & Ht2 & Hc2); [by rewrite Hcm|].
  destruct (attempt_recovery_stuck clk c Hst) as (c' & Ha & Hst' & _ & _). unfold recover in Ho, Hc2. rewrite Ha in Ho, Hc2.
  rewrite (bind_step _ _ _ _ _ Ho). cbn [fst snd] in *. rewrite bind_run.
  pose proof (schedule_in_progress id None c' s2) as Hs. unfold schedule.
  destruct (schedule_with_context sc id None s2) as [r s3]. cbn [fst snd]. rewrite ret_run.
  destruct Hs as (Ht3 & Hj3 & Hc3 & Hr); [by rewrite Hc2, lookup_insert_eq|done|].
  rewrite Ht3, Hj3, Ht2, Hj2, Ht, Hj, Hc3, Hc2. split_and!; [done|done|exists c'; by rewrite lookup_insert_eq|].
  intros Hno. destruct r; [|done]. apply Hr. by rewrite Hj2, Hj.
Qed.
End stuck.

(** ** Rounds of repair *)

Section rounds.
  Context `{Decimal} `{!ChatEnv JobContext} `{!SchedEnv} `{!JobTexts} `{RegexEngine} `{MultiMatcher}.
  Variable sr : SelfRepair.
  Context (Hstill : still).
  Implicit Types (s : SchedState) (c : JobContext) (o : option JobContext).

Definition has_context (id : Uuid) o s : Prop := contexts (sd_contexts s) !! id = o.

Lemma look_up_keeps id o id' : preserves (has_context id o) (look_up id').
Proof. intros s Hs. destruct (look_up_still Hstill id' s) as (s1 & -> & Hc & _). unfold has_context. cbn. by rewrite Hc. Qed.

Lemma await_keeps id o : preserves (has_context id o) await.
Proof. intros s Hs. by rewrite await_still. Qed.

(** Work on one job leaves the others alone. *)
Lemma on_job_keeps {R} id o id' (f : Clock -> JobContext -> R * JobContext) :
  id ≠ id' → preserves (has_context id o) (on_job id' f).
Proof.
  intros Hne s Hs. unfold on_job. rewrite bind_run, await_still by done. unfold on_contexts, act, update_context.
  cbn [sd_contexts with_tick sd_tick]. destruct (contexts _ !! id') as [c|]; [|done]. destruct (f _ c) as [r c'].
  unfold has_context. cbn. by rewrite lookup_insert_ne.
Qed.
#[local] Hint Resolve look_up_keeps await_keeps on_job_keeps : effects.

Lemma detect_one_keeps id o id' : id ≠ id' → preserves (has_context id o) (detect_one sr id').
Proof. intros Hne. unfold detect_one, mark_if_running. preserve. Qed.

Lemma repair_keeps id o job : id ≠ sj_job job → preserves (has_context id o) (repair_stuck_job sr job).
Proof. intros Hne. unfold repair_stuck_job. preserve. Qed.

Lemma detect_all_keeps id o ids : id ∉ ids → preserves (has_context id o) (detect_all sr ids).
Proof.
  induction ids as [|id' ids IH]; intros Hni; cbn [detect_all]; [preserve|]. apply not_elem_of_cons in Hni as [Hne Hni].
  apply preserves_bind; [by apply detect_one_keeps|]. intros. apply preserves_bind; [by apply IH|preserve].
Qed.

(** What is reported of a job: where it stands after the detection. *)
Lemma detect_one_reports id s c :
  has_context id (Some c) s →
  ∃ c' s', (detect_one sr id s).2 = s' ∧ has_context id (Some c') s' ∧ repair_attempts c' = repair_attempts c ∧
    state c' = (if decide (state c = InProgress) then Stuck else state c) ∧
    match (detect_one sr id s).1 with
    | Some job => sj_job job = id ∧ sj_repair_attempts job = repair_attempts c
    | None => True
    end.
Proof.
  intros Hc. unfold detect_one. destruct (look_up_still Hstill id s) as (s1 & Hl & Hcm & _). unfold has_context in Hc.
  rewrite (bind_step _ _ _ _ _ Hl). unfold get_context. rewrite Hc. cbn [ok_or].
  destruct (decide (state c = Stuck ∨ state c = InProgress)) as [Hst|Hst]; cycle 1.
  { rewrite ret_run. exists c, s1. unfold has_context. rewrite Hcm. split_and!; try done.
    by rewrite decide_False by (intros ?; apply Hst; by right). }
  assert (∃ c1 s2, mark_if_running id c s1 = (true, s2) ∧ has_context id (Some c1) s2 ∧ repair_attempts c1 = repair_attempts c ∧
    state c1 = if decide (state c = InProgress) then Stuck else state c) as (c1 & s2 & Hm & Hc1 & Ha & Hs1).
  { unfold mark_if_running. destruct (decide (state c = InProgress)) as [Hp|Hp]; cycle 1.
    { exists c, s1. unfold has_context. by rewrite Hcm. }
    destruct (on_job_still Hstill id stall c s1) as (s2 & clk & Ho & _ & _ & Hc2); [by rewrite Hcm|].
    rewrite (bind_step _ _ _ _ _ Ho), ret_run. unfold stall, mark_stuck, transition_to in *. rewrite Hp in *. cbn [can_transition_to negb] in *.
    rewrite decide_False in * by done. cbn [fst snd] in *. eexists _, s2. split; [done|]. unfold has_context.
    rewrite Hc2, lookup_insert_eq. done. }
  rewrite (bind_step _ _ _ _ _ Hm). cbn [negb]. destruct (look_up_still Hstill id s2) as (s3 & Hl3 & Hcm3 & _).
  rewrite (bind_step _ _ _ _ _ Hl3). unfold get_context. rewrite Hc1. cbn [ok_or]. rewrite bind_run. cbn [fst snd gets].
  exists c1, s3. unfold has_context. rewrite Hcm3. destruct (_ && _); rewrite ret_run; split_and!; done.
Qed.

Lemma detect_one_none id s : has_context id None s → (detect_one sr id s).1 = None.
Proof.
  intros Hc. unfold detect_one. destruct (look_up_still Hstill id s) as (s1 & Hl & _). unfold has_context in Hc.
  rewrite (bind_step _ _ _ _ _ Hl). unfold get_context. by rewrite Hc.
Qed.

Lemma detect_one_own id s job : (detect_one sr id s).1 = Some job →
  sj_job job = id ∧ ∀ c, has_context id (Some c) s → sj_repair_attempts job = repair_attempts c.
Proof.
  intros Hj. destruct (contexts (sd_contexts s) !! id) as [c|] eqn:Hc; [|by rewrite detect_one_none in Hj].
  destruct (detect_one_reports id s c Hc) as (c' & s' & _ & _ & _ & _ & Hr). rewrite Hj in Hr. destruct Hr as [? Ha].
  split; [done|]. intros c0 Hc0. unfold has_context in Hc0. congruence.
Qed.

(** A report for each job at most, with its count of repairs. *)
Definition reports_of (ids : list Uuid) s (jobs : list StuckJob) : Prop :=
  NoDup (sj_job <$> jobs) ∧
  Forall (fun job => sj_job job ∈ ids ∧ ∀ c, has_context (sj_job job) (Some c) s → sj_repair_attempts job = repair_attempts c) jobs.

(** What the detection does to a context. *)
Definition stalled (moved : bool) c c' : Prop :=
  repair_attempts c' = repair_attempts c ∧ state c' = if moved && bool_decide (state c = InProgress) then Stuck else state c.

Lemma detect_all_reports ids s :
  NoDup ids →
  reports_of ids s (detect_all sr ids s).1 ∧
  ∀ id c, has_context id (Some c) s →
    ∃ c', has_context id (Some c') (detect_all sr ids s).2 ∧ stalled (bool_decide (id ∈ ids)) c c'.
Proof.
  revert s. induction ids as [|id ids IH]; intros s Hn; cbn [detect_all].
  { rewrite ret_run. split; [by repeat constructor|]. intros id c Hc. exists c. split; [done|]. by rewrite bool_decide_eq_false_2 by set_solver. }
  apply NoDup_cons in Hn as [Hni Hn]. rewrite !bind_run, ret_run. cbn [fst snd]. set (s1 := (detect_one sr id s).2).
  destruct (IH s1 Hn) as [[Hnd Hall] Hctx]. split.
  - assert (Forall (fun job => sj_job job ∈ id :: ids ∧
      ∀ c, has_context (sj_job job) (Some c) s → sj_repair_attempts job = repair_attempts c) (detect_all sr ids s1).1) as Hrest.
    { eapply Forall_impl; [exact Hall|]. intros job [Hin Ha]. split; [set_solver|]. intros c Hc. apply Ha.
      apply detect_one_keeps; [by intros <-|done]. }
    assert (id ∉ sj_job <$> (detect_all sr ids s1).1) as Hni'.
    { rewrite list_elem_of_fmap. intros (job & -> & Hjob). rewrite Forall_forall in Hall. by destruct (Hall job Hjob). }
    destruct (detect_one sr id s).1 as [job|] eqn:Hj; cbn; [|by split].
    apply detect_one_own in Hj as [Hid Ha]. split; cbn; [rewrite Hid; by constructor|]. constructor; [|done].
    rewrite Hid. split; [set_solver|done].
  - intros id' c Hc. destruct (decide (id' = id)) as [->|Hne].
    + destruct (detect_one_reports id s c Hc) as (c' & s' & Hs' & Hc' & Ha & Hst & _). fold s1 in Hs'. subst s'.
      exists c'. split; [by apply detect_all_keeps|]. split; [done|]. rewrite Hst, bool_decide_eq_true_2 by set_solver. cbn [andb].
      by case_decide; [rewrite bool_decide_eq_true_2|rewrite bool_decide_eq_false_2].
    + destruct (Hctx id' c) as (c' & Hc' & Hs); [by apply detect_one_keeps|]. exists c'. split; [done|].
      replace (bool_decide (id' ∈ id :: ids)) with (bool_decide (id' ∈ ids)); [done|]. apply bool_decide_ext. set_solver.
Qed.

(** The update of a repair: it recovers a job that is stuck or runs, and counts. *)
Lemma repair_context_run clk c :
  if decide (state c = Stuck ∨ state c = InProgress) then
    ∃ c', repair_context clk c = (Ok tt, c') ∧ state c' = InProgress ∧ repair_attempts c' = wrap32 (repair_attempts c + 1)
  else ∃ e, repair_context clk c = (Err e, c).
Proof.
  unfold repair_context, recover. case_decide as Hd; destruct (decide (state c = InProgress)) as [Hp|Hp].
  - assert (∃ c1, transition_to clk c Stuck (Some EXCEEDED) = (c1, Ok tt) ∧ state c1 = Stuck ∧ repair_attempts c1 = repair_attempts c)
      as (c1 & -> & Hs & Ha). { unfold transition_to. rewrite Hp. cbn [can_transition_to negb]. rewrite decide_False by done. by eexists. }
    destruct (attempt_recovery_stuck clk c1 Hs) as (c' & -> & Hst & _ & Ha'). rewrite Ha in Ha'. eauto.
  - destruct Hd as [Hs|]; [|done]. destruct (attempt_recovery_stuck clk c Hs) as (c' & -> & Hst & _ & Ha). eauto.
  - destruct Hd. by right.
  - unfold attempt_recovery. rewrite decide_False by auto. eauto.
Qed.

(** One repair: refused at the limit, and otherwise counted. *)
Definition repaired (refused : bool) c c' : Prop :=
  c' = c ∨ refused = false ∧ state c' = InProgress ∧ repair_attempts c' = wrap32 (repair_attempts c + 1).

Lemma repair_one job s c :
  has_context (sj_job job) (Some c) s →
  ∃ c', has_context (sj_job job) (Some c') (repair_stuck_job sr job s).2 ∧
    repaired (sr_max_repair_attempts sr <=? sj_repair_attempts job)%Z c c'.
Proof.
  intros Hc. unfold repair_stuck_job. destruct (_ <=? _)%Z eqn:Hm; [rewrite ret_run; exists c; split; [done|by left]|].
  rewrite bind_run, ret_run. cbn [snd].
  destruct (on_job_still Hstill (sj_job job) repair_context c s Hc) as (s1 & clk & -> & _ & _ & Hc1).
  eexists. unfold has_context. cbn [snd]. rewrite Hc1, lookup_insert_eq. split; [done|].
  pose proof (repair_context_run clk c) as Hr. case_decide as Hd.
  - destruct Hr as (c' & -> & Hst & Ha). by right.
  - destruct Hr as (e & ->). by left.
Qed.

Lemma repair_all_keeps id o jobs : id ∉ sj_job <$> jobs → preserves (has_context id o) (repair_all sr jobs).
Proof.
  induction jobs as [|job jobs IH]; intros Hni; cbn [repair_all]; [preserve|].
  rewrite fmap_cons, not_elem_of_cons in Hni. destruct Hni as [Hne Hni].
  apply preserves_bind; [by apply repair_keeps|]. intros. apply preserves_bind; [by apply IH|preserve].
Qed.

Lemma repair_all_repairs jobs s id c :
  NoDup (sj_job <$> jobs) → has_context id (Some c) s →
  ∃ c', has_context id (Some c') (repair_all sr jobs s).2 ∧
    (c' = c ∨ ∃ job, job ∈ jobs ∧ sj_job job = id ∧ repaired (sr_max_repair_attempts sr <=? sj_repair_attempts job)%Z c c').
Proof.
  revert s. induction jobs as [|job jobs IH]; intros s Hn Hc; cbn [repair_all]; [rewrite ret_run; eauto|].
  rewrite fmap_cons in Hn. apply NoDup_cons in Hn as [Hni Hn]. rewrite !bind_run, ret_run. cbn [snd].
  destruct (decide (id = sj_job job)) as [->|Hne].
  - destruct (repair_one job s c Hc) as (c' & Hc' & Hr). exists c'. split; [by apply repair_all_keeps|].
    right. exists job. split; [left|done].
  - destruct (IH (repair_stuck_job sr job s).2 Hn) as (c' & Hc' & Hr); [by apply repair_keeps|]. exists c'. split; [done|].
    destruct Hr as [?|(job' & Hin & ? & ?)]; [by left|]. right. exists job'. split; [by right|done].
Qed.

(** A round, for one job. *)
Lemma repair_round_one s id c :
  has_context id (Some c) s →
  ∃ c1 c', has_context id (Some c') (repair_round sr s).2 ∧
    stalled (bool_decide (looks_stuck (se_clock (S (sd_tick s)) 0%nat) (Some (sr_stuck_threshold sr)) c = true)) c c1 ∧
    repaired (sr_max_repair_attempts sr <=? repair_attempts c)%Z c1 c'.
Proof.
  intros Hc. unfold repair_round, detect_stuck_jobs. rewrite !bind_run, ret_run, await_still by done. cbn [fst snd gets sd_tick with_tick sd_contexts].
  set (ids := find_stuck_jobs_with_threshold _ _ _).
  assert (NoDup ids) as Hn. { unfold ids, find_stuck_jobs_with_threshold, jobs_where. apply NoDup_fst_map_to_list. }
  assert (id ∈ ids ↔ looks_stuck (se_clock (S (sd_tick s)) 0%nat) (Some (sr_stuck_threshold sr)) c = true) as Hin.
  { unfold ids, find_stuck_jobs_with_threshold, jobs_where. rewrite list_elem_of_fmap. unfold has_context in Hc. split.
    - intros ([id' c'] & -> & Hl%elem_of_map_to_list). apply map_lookup_filter_Some in Hl as [Hl Hp]. cbn in *. congruence.
    - intros Hp. exists (id, c). split; [done|]. apply elem_of_map_to_list, map_lookup_filter_Some. done. }
  set (s0 := with_tick (S (sd_tick s)) s). destruct (detect_all_reports ids s0 Hn) as [[Hnd Hall] Hctx].
  destruct (Hctx id c Hc) as (c1 & Hc1 & Hst).
  destruct (repair_all_repairs (detect_all sr ids s0).1 (detect_all sr ids s0).2 id c1 Hnd Hc1) as (c' & Hc' & Hr).
  exists c1, c'. split; [done|]. split; [by rewrite <-(bool_decide_ext _ _ Hin)|].
  destruct Hr as [->|(job & Hjob & Hid & Hr)]; [by left|]. rewrite Forall_forall in Hall. destruct (Hall job Hjob) as [_ Ha].
  rewrite (Ha c) in Hr by (by rewrite Hid). done.
Qed.

(** The repair strands a job that works: once its repairs are used up, a round moves a job that has been in progress for
    longer than the threshold to [Stuck] and leaves it there, whether or not its worker is alive, and the
    completion that the worker reports later is refused. *)
Theorem repair_strands_long_job s id c :
  contexts (sd_contexts s) !! id = Some c → state c = InProgress →
  looks_stuck (se_clock (S (sd_tick s)) 0%nat) (Some (sr_stuck_threshold sr)) c = true →
  (sr_max_repair_attempts sr ≤ repair_attempts c)%Z →
  ∃ c', contexts (sd_contexts (repair_round sr s).2) !! id = Some c' ∧ state c' = Stuck ∧
    ∀ clk, (transition_to clk c' Completed (Some COMPLETED)).2 = Err (transition_error Stuck Completed).
Proof.
  intros Hc Hst Hl Hm. destruct (repair_round_one s id c Hc) as (c1 & c' & Hc' & [_ Hs] & Hr).
  assert (c' = c1) as ->. { destruct Hr as [|[Hf _]]; [done|]. zify_bool. lia. }
  exists c1. split; [exact Hc'|]. rewrite !bool_decide_eq_true_2 in Hs by done. cbn in Hs. split; [done|].
  intros clk. unfold transition_to. by rewrite Hs.
Qed.

(** Repairs are counted and bounded: a round raises the count of a job by at most one and never above the limit. *)
Theorem repairs_bounded s id c :
  contexts (sd_contexts s) !! id = Some c → in_u32 (repair_attempts c) → in_u32 (sr_max_repair_attempts sr) →
  ∃ c', contexts (sd_contexts (repair_round sr s).2) !! id = Some c' ∧
    (repair_attempts c ≤ repair_attempts c' ≤ repair_attempts c + 1)%Z ∧
    (repair_attempts c' ≤ Z.max (repair_attempts c) (sr_max_repair_attempts sr))%Z.
Proof.
  unfold in_u32. intros Hc Hu Hm. destruct (repair_round_one s id c Hc) as (c1 & c' & Hc' & [Ha _] & Hr). exists c'. split; [exact Hc'|].
  destruct Hr as [->|(Hf & _ & Hr)]; [lia|]. zify_bool. rewrite Hr, Ha. unfold wrap32. rewrite Z.mod_small by lia. lia.
Qed.

(** A repaired job is not retried, whatever the message says: the repair spawns no worker, and a schedule of the job
    that has become [InProgress] does not spawn one either. *)
Theorem repaired_job_not_retried sc job m s s1 :
  repair_stuck_job sr job s = (Ok (RepairSuccess m), s1) →
  sd_tasks s1 = sd_tasks s ∧ ∀ ap, sd_tasks (schedule_with_context sc (sj_job job) ap s1).2 = sd_tasks s.
Proof.
  unfold repair_stuck_job. destruct (_ <=? _)%Z; [done|]. rewrite bind_run, ret_run.
  destruct (contexts (sd_contexts s) !! sj_job job) as [c|] eqn:Hc.
  - destruct (on_job_still Hstill (sj_job job) repair_context c s Hc) as (s2 & clk & -> & _ & Ht & Hc2). cbn [fst snd].
    pose proof (repair_context_run clk c) as Hr. case_decide; [|by destruct Hr as [e ->]].
    destruct Hr as (c' & Hr & Hst & _). rewrite Hr in Hc2 |- *. intros [= _ <-]. split; [done|]. intros ap.
    pose proof (schedule_in_progress sc Hstill (sj_job job) ap c' s2) as Hs.
    destruct (schedule_with_context _ _ _ _) as [r s3]. destruct Hs as (Ht3 & _); [by rewrite Hc2, lookup_insert_eq|done|].
    cbn. by rewrite Ht3.
  - unfold on_job. rewrite bind_run, await_still by done. unfold on_contexts, act, update_context. cbn [sd_contexts with_tick].
    by rewrite Hc.
Qed.
End rounds.

(** ** Tenants *)

Section tenants.
  Context `{Decimal} `{!ChatEnv JobContext} `{!SchedEnv} `{!JobTexts} `{RegexEngine} `{MultiMatcher}.
  Variable sc : Scheduler.
  Context (Hstill : still).
  Implicit Types (s : SchedState) (c : JobContext).

(** A job of another user is out of reach: cancelling it, asking for help with it or, without a database, for its
    status gives the answer for a job that does not exist, and changes nothing. *)
Theorem foreign_job_out_of_reach user store text id c s :
  jt_parse_uuid text = Some id → contexts (sd_contexts s) !! id = Some c → user_id c ≠ user →
  let missing := Err (EJob (JobState.NotFound id)) in
  (∃ s', handle_cancel_job sc user store text s = (missing, s') ∧ same_jobs s s') ∧
  (∃ s', handle_help_job sc user text s = (missing, s') ∧ same_jobs s s') ∧
  (∃ s', handle_check_status user None (Some text) s = (missing, s') ∧ same_jobs s s').
Proof.
  intros Hid Hc Hu. unfold handle_cancel_job, handle_help_job, handle_check_status, own_job, st_try. rewrite Hid. cbn.
  destruct (look_up_still Hstill id s) as (s1 & Hl & Hs1).
  assert (get_context id (sd_contexts s) = Ok c) as Hg by (unfold get_context; by rewrite Hc). rewrite Hg in Hl.
  split_and!; exists s1; rewrite !bind_run, Hl, ret_run; cbn [fst snd]; by rewrite decide_False.
Qed.

(** Cancelling a job that has no worker, such as one that was refused when it was dispatched, is reported as done and
    written to the database, but the job itself is left as it is: a pending one stays pending and keeps
    its slot. *)
Theorem cancel_leaves_unscheduled_job user store text id c s :
  jt_parse_uuid text = Some id → contexts (sd_contexts s) !! id = Some c → user_id c = user → sd_jobs s !! id = None →
  ∃ s', handle_cancel_job sc user (Some store) text s = (Ok (cat ["Job "; text; " has been cancelled."]), s') ∧
    contexts (sd_contexts s') !! id = Some c ∧ sd_writes s' = sd_writes s ++ [DbCancelled id CANCELLED_BY_USER].
Proof.
  intros Hid Hc Hu Hno. unfold handle_cancel_job, own_job, st_try, look_up, stop. rewrite Hid.
  rewrite !bind_run, !await_still, ret_run by done. cbn. unfold get_context. rewrite Hc. cbn. rewrite decide_True by done.
  rewrite !bind_run, !await_still by done. cbn. rewrite Hno. cbn. rewrite bind_run, await_still by done. by eexists.
Qed.
End tenants.

(** ** Witnesses *)

Module ControlDemo.
#[local] Instance engine : RegexEngine :=
  {| regex_valid := fun _ => true; is_match := fun _ _ => false; find_iter := fun _ _ => []; capture1 := fun _ _ => None |}.
#[local] Instance matcher : MultiMatcher := {| ac_find_iter := fun _ _ _ => [] |}.

#[local] Instance env : ChatEnv JobContext := {|
  ce_lower := id; ce_origin := 0%Z; ce_from_str := fun _ => Err "?";
  ce_to_string := fun _ => "{}"; ce_pretty := fun _ => Ok "{}"; ce_print_f64 := fun _ => "0"; ce_duration := fun _ => "1s";
  ce_hook_elapsed := fun _ _ => false; ce_hook_error := fun _ => "e"; ce_values := fun m => snd <$> map_to_list m;
  ce_date := fun _ => 0%Z; ce_uuid := N.of_nat; ce_others := fun _ s => s;
  ce_join := fun _ l => (fun x => (x, false)) <$> rev l
|}.

(** The clock stands at ten minutes. *)
#[local] Instance sched_env : SchedEnv := {|
  se_others := fun _ s => s; se_locked := fun _ s => s; se_clock := fun _ _ => secs 600; se_uuid := N.of_nat; se_stash := N.of_nat;
  se_save := fun _ _ => Ok tt; se_lost := fun _ => false
|}.

#[local] Instance texts : JobTexts := {|
  jt_parse_uuid := fun _ => Some 1%N; jt_uuid := fun _ => "1"; jt_time := fun _ => "t"; jt_decimal := fun _ => "0";
  jt_state := job_state_display; jt_error := fun _ => "e"
|}.

Definition sched : Scheduler :=
  mkScheduler (mkSchedConfig 5 None 0 false) (safety_new (mkSafetyConfig 1000 false)) true true None.
Definition repairer (max : Z) : SelfRepair := mkSelfRepair (secs 300) max None None.

Definition at_zero (c : JobContext) (st : JobState) : JobContext := (transition_to (fun _ => 0%Z) c st None).1.
Definition running_context : JobContext := at_zero (with_user 1 0 0 "u" "t" "d") InProgress.
Definition stuck_context : JobContext := at_zero running_context Stuck.

Definition holding (c : JobContext) : SchedState :=
  sched_start (set_contexts {[ 1%N := c ]} (manager_new 5)) ToolExec.registry_new None.

Lemma unmoved : still.
Proof. by intros n s. Qed.

Lemma help_starts_no_worker_witness :
  let '(r, s') := handle_help_job sched "u" "1" (holding stuck_context) in
  sd_tasks s' = [] ∧ sd_jobs s' = ∅ ∧
  (∃ c', contexts (sd_contexts s') !! 1%N = Some c' ∧ state c' = InProgress) ∧ (None = None (A := nat) → is_ok r = false).
Proof.
  exact (help_starts_no_worker sched unmoved "u" "1" 1%N stuck_context (holding stuck_context) eq_refl eq_refl eq_refl eq_refl).
Defined.

(** A job in progress for ten minutes, with no repairs left. *)
Lemma repair_strands_long_job_witness :
  ∃ c', contexts (sd_contexts (repair_round (repairer 0) (holding running_context)).2) !! 1%N = Some c' ∧ state c' = Stuck ∧
    ∀ clk, (transition_to clk c' Completed (Some COMPLETED)).2 = Err (transition_error Stuck Completed).
Proof.
  apply (repair_strands_long_job (repairer 0) unmoved (holding running_context) 1%N running_context);
    [reflexivity|reflexivity|vm_compute; reflexivity|apply Z.leb_le; reflexivity].
Defined.

Lemma repairs_bounded_witness :
  ∃ c', contexts (sd_contexts (repair_round (repairer 3) (holding running_context)).2) !! 1%N = Some c' ∧
    (0 ≤ repair_attempts c' ≤ 1)%Z ∧ (repair_attempts c' ≤ 3)%Z.
Proof.
  apply (repairs_bounded (repairer 3) unmoved (holding running_context) 1%N running_context);
    [reflexivity|split; reflexivity || (apply Z.leb_le; reflexivity)..].
Defined.

Definition report : StuckJob := mkStuckJob 1 0 0 None 0.

Lemma repaired_job_not_retried_witness :
  sd_tasks (repair_stuck_job (repairer 3) report (holding stuck_context)).2 = [] ∧
  ∀ ap, sd_tasks (schedule_with_context sched 1 ap (repair_stuck_job (repairer 3) report (holding stuck_context)).2).2 = [].
Proof.
  apply (repaired_job_not_retried (repairer 3) unmoved sched report "Job 1 recovered and will be retried" (holding stuck_context)).
  vm_compute. reflexivity.
Defined.

Lemma foreign_job_out_of_reach_witness :
  ∃ s', handle_cancel_job sched "eve" None "1" (holding running_context) = (Err (EJob (JobState.NotFound 1)), s') ∧
        same_jobs (holding running_context) s'.
Proof.
  apply (foreign_job_out_of_reach sched unmoved "eve" None "1" 1%N running_context (holding running_context));
    [reflexivity|reflexivity|discriminate].
Defined.

Definition no_database : TenantJobs :=
  mkTenantJobs _ (fun _ => Err "e") (Err "e") (Err "e") (Err "e") (Err "e").

Lemma cancel_leaves_unscheduled_job_witness :
  ∃ s', handle_cancel_job sched "u" (Some no_database) "1" (holding (with_user 1 0 0 "u" "t" "d")) =
          (Ok "Job 1 has been cancelled.", s') ∧
    contexts (sd_contexts s') !! 1%N = Some (with_user 1 0 0 "u" "t" "d") ∧ sd_writes s' = [DbCancelled 1 CANCELLED_BY_USER].
Proof.
  exact (cancel_leaves_unscheduled_job sched unmoved "u" no_database "1" 1%N (with_user 1 0 0 "u" "t" "d")
    (holding (with_user 1 0 0 "u" "t" "d")) eq_refl eq_refl eq_refl eq_refl).
Defined.
End ControlDemo.
