(* ===== verification/Words.v ===== *)
(** * Words: the words of a text

    How [split_whitespace] of [Text.v] acts on concatenated texts.  A Rust string is UTF-8, where the first byte of a character
    is never a continuation byte; so a white space character that begins a rest can not be read as the end of an
    earlier one, and the words of a text are found piece by piece. *)

From Stdlib Require Import Ascii.
From S2P Require Import Prelude Text TextSearch.

(** The first byte does not continue a character. *)
Definition begins_char (s : string) : Prop :=
  match s with EmptyString => True | String c _ => ¬ (128 ≤ nat_of_ascii c < 192) end.

(** All bytes continue a character. *)
Definition continues (s : string) : bool :=
  string_forallb (fun c => (128 <=? nat_of_ascii c) && (nat_of_ascii c <? 192))%nat s.

Lemma whitespace_shape w :
  w ∈ whitespace → ∃ c r, w = String c r ∧ continues r = true ∧ ¬ (128 ≤ nat_of_ascii c < 192).
Proof.
  assert (forallb (fun w => match w with
                            | String c r => continues r && negb ((128 <=? nat_of_ascii c) && (nat_of_ascii c <? 192))%nat
                            | EmptyString => false end) whitespace = true) as Hall by reflexivity.
  rewrite forallb_forall in Hall. intros Hw. apply list_elem_of_In, Hall in Hw.
  destruct w as [|c r]; [done|]. exists c, r. split; [done|].
  apply andb_true_iff in Hw as [Hr Hc]. split; [done|]. apply negb_true_iff, andb_false_iff in Hc. rewrite Nat.leb_gt, Nat.ltb_ge in Hc. lia.
Qed.

Lemma continues_app x y : continues (x +:+ y) = continues x && continues y.
Proof.
  unfold continues. induction x as [|c x IH]; [done|]. rewrite append_cons. cbn [string_forallb]. rewrite IH.
  by rewrite andb_assoc.
Qed.

Lemma strip_continuing_app p u rest :
  continues p = true → begins_char rest → strip_prefix p (u +:+ rest) = (fun x => x +:+ rest) <$> strip_prefix p u.
Proof.
  intros Hp Hr. revert u Hp. induction p as [|a p IH]; intros u Hp; [done|].
  unfold continues in Hp. cbn [string_forallb] in Hp. apply andb_true_iff in Hp as [Ha Hp].
  destruct u as [|b u].
  - change ("" +:+ rest) with rest. destruct rest as [|c rest]; [done|]. cbn [strip_prefix]. destruct (ascii_dec a c) as [->|]; [|done].
    exfalso. apply Hr. rewrite andb_true_iff, Nat.leb_le, Nat.ltb_lt in Ha. lia.
  - rewrite append_cons. cbn [strip_prefix]. destruct (ascii_dec a b); [|done]. by apply IH.
Qed.

Lemma strip_white_app u rest : u ≠ "" → begins_char rest →
  strip_first whitespace (u +:+ rest) = (fun x => x +:+ rest) <$> strip_first whitespace u.
Proof.
  intros Hu Hr.
  assert (∀ ws, (∀ w, w ∈ ws → w ∈ whitespace) →
    strip_first ws (u +:+ rest) = (fun x => x +:+ rest) <$> strip_first ws u) as Hall; [|by apply Hall].
  induction ws as [|w ws IH]; intros Hin; [done|]. cbn [strip_first].
  destruct (whitespace_shape w) as (c & r & -> & Hc & _); [apply Hin; set_solver|].
  assert (strip_prefix (String c r) (u +:+ rest) = (fun x => x +:+ rest) <$> strip_prefix (String c r) u) as ->.
  { destruct u as [|b u]; [done|]. rewrite append_cons. cbn [strip_prefix]. destruct (ascii_dec c b); [|done].
    by apply strip_continuing_app. }
  destruct (strip_prefix (String c r) u); [done|]. apply IH. set_solver.
Qed.

Lemma strip_white_begins p rest : p ∈ whitespace → begins_char (p +:+ rest).
Proof. intros (c & r & -> & _ & Hc)%whitespace_shape. by rewrite append_cons. Qed.

Lemma whitespace_prefix_free w p : w ∈ whitespace → p ∈ whitespace → starts_with w p = true → w = p.
Proof.
  assert (Forall (fun w => Forall (fun p => starts_with w p = true → w = p) whitespace) whitespace) as Hall.
  { apply (bool_decide_unpack _). vm_compute. exact I. }
  rewrite Forall_forall in Hall. intros Hw Hp. specialize (Hall w Hw). rewrite Forall_forall in Hall. by apply Hall.
Qed.

(** A white space character is stripped whatever follows it. *)
Lemma strip_white p rest : p ∈ whitespace → strip_first whitespace (p +:+ rest) = Some rest.
Proof.
  intros Hp.
  assert (∀ ws, (∀ w, w ∈ ws → w ∈ whitespace) → p ∈ ws → strip_first ws (p +:+ rest) = Some rest) as Hall;
    [|by apply Hall].
  induction ws as [|w ws IH]; intros Hin Hel; [by apply not_elem_of_nil in Hel|]. cbn [strip_first].
  destruct (strip_prefix w (p +:+ rest)) as [t|] eqn:Hw.
  - pose proof Hw as Heq. apply strip_prefix_iff in Heq.
    assert (w = p) as ->.
    { destruct (decide (String.length w ≤ String.length p)).
      - apply whitespace_prefix_free; [apply Hin; set_solver|done|].
        by eapply prefix_of_prefix.
      - symmetry. apply whitespace_prefix_free; [done|apply Hin; set_solver|].
        eapply prefix_of_prefix; [done|lia]. }
    apply (f_equal (str_from (String.length p))) in Heq. rewrite !str_from_app in Heq by done. by subst.
  - apply elem_of_cons in Hel as [<-|Hel]; [|apply IH; [set_solver|done]].
    assert (strip_prefix p (p +:+ rest) = Some rest) by (by apply strip_prefix_iff). congruence.
Qed.

Lemma strip_white_shorter s s' : strip_first whitespace s = Some s' → String.length s' < String.length s.
Proof.
  intros Hs.
  assert (∀ ws, (∀ w, w ∈ ws → w ∈ whitespace) → strip_first ws s = Some s' → String.length s' < String.length s) as Hall;
    [|by apply (Hall whitespace)].
  induction ws as [|w ws IH]; intros Hin Hf; [done|]. cbn [strip_first] in Hf.
  destruct (strip_prefix w s) as [t|] eqn:Hw; [|apply IH; [set_solver|done]]. simplify_eq.
  apply strip_prefix_iff in Hw as ->. destruct (whitespace_shape w) as (c & r & -> & _); [apply Hin; set_solver|].
  rewrite length_append. cbn [String.length]. lia.
Qed.

(** Enough fuel is as good as any. *)
Lemma split_ws_fuel f g s cur :
  String.length s < f → String.length s < g → split_ws f s cur = split_ws g s cur.
Proof.
  revert g s cur. induction f as [|f IH]; intros g s cur Hf Hg; [lia|]. destruct g as [|g]; [lia|]. cbn [split_ws].
  destruct (strip_first whitespace s) as [s'|] eqn:Hs.
  - apply strip_white_shorter in Hs. f_equal. apply IH; lia.
  - destruct s as [|c s]; [done|]. cbn [String.length] in *. apply IH; lia.
Qed.

(** The words of [u], read on from [cur], and of what follows the white space after it. *)
Lemma split_ws_app f u p rest cur : p ∈ whitespace → String.length (u +:+ (p +:+ rest)) < f →
  split_ws f (u +:+ (p +:+ rest)) cur = split_ws f u cur ++ split_whitespace rest.
Proof.
  intros Hp. revert u cur. induction f as [|f IH]; intros u cur Hf; [lia|].
  pose proof (strip_white_begins p rest Hp) as Hb. destruct u as [|c u].
  - change ("" +:+ (p +:+ rest)) with (p +:+ rest) in *.
    pose proof (strip_white p rest Hp) as Hs. cbn [split_ws]. rewrite Hs. 
    assert (strip_first whitespace "" = None) as -> by reflexivity.
    f_equal. unfold split_whitespace. apply split_ws_fuel; [|lia].
    rewrite length_append in Hf. apply strip_white_shorter in Hs. rewrite length_append in Hs. lia.
  - cbn [split_ws]. rewrite strip_white_app by done. 
    destruct (strip_first whitespace (String c u)) as [s'|] eqn:Hs; cbn [fmap option_fmap option_map].
    + apply strip_white_shorter in Hs. rewrite IH; [by rewrite app_assoc|].
      rewrite !length_append in *. lia.
    + rewrite append_cons in *. cbn [String.length] in Hf. apply IH. lia.
Qed.

Lemma split_white u p rest : p ∈ whitespace →
  split_whitespace (u +:+ (p +:+ rest)) = split_whitespace u ++ split_whitespace rest.
Proof.
  intros Hp. unfold split_whitespace at 1. rewrite split_ws_app by (done || lia). f_equal. apply split_ws_fuel; [|lia].
  rewrite length_append. lia.
Qed.

(** ** Trimming keeps the words *)

Lemma strip_first_elem ws s s' : strip_first ws s = Some s' → ∃ w, w ∈ ws ∧ s = w +:+ s'.
Proof.
  induction ws as [|w ws IH]; [done|]. cbn [strip_first]. destruct (strip_prefix w s) as [r|] eqn:Hw.
  - intros [= ->]. exists w. apply strip_prefix_iff in Hw. set_solver.
  - intros (x & Hx & ->)%IH. exists x. set_solver.
Qed.

Lemma split_trim_start s : split_whitespace (trim_start s) = split_whitespace s.
Proof.
  unfold trim_start. generalize (String.length s) as f. intros f. revert s. induction f as [|f IH]; intros s; [done|].
  cbn [trim_start_with]. destruct (strip_first whitespace s) as [s'|] eqn:Hs; [|done].
  apply strip_first_elem in Hs as (w & Hw & ->). rewrite IH. symmetry. by apply (split_white "" w s').
Qed.

Lemma split_trim_end s : split_whitespace (trim_end s) = split_whitespace s.
Proof.
  unfold trim_end. rewrite <- (string_rev_involutive s) at 3. generalize (String.length s) as f.
  generalize (string_rev s "") as t. intros t f. revert t. induction f as [|f IH]; intros t; [done|]. cbn [trim_start_with].
  destruct (strip_first ((fun w => string_rev w "") <$> whitespace) t) as [t'|] eqn:Ht; [|done].
  apply strip_first_elem in Ht as (w & Hw & ->). apply list_elem_of_fmap in Hw as (p & -> & Hp).
  rewrite IH, string_rev_append, string_rev_involutive. rewrite <- (append_nil_r p), (split_white _ p "") by done.
  by rewrite app_nil_r.
Qed.

Lemma split_trim s : split_whitespace (trim s) = split_whitespace s.
Proof. unfold trim. by rewrite split_trim_end, split_trim_start. Qed.

(** ** A word is its only word *)

(** No white space begins inside [w], with [rest] after it. *)
Fixpoint unbroken (w rest : string) : Prop :=
  match w with
  | EmptyString => True
  | String c r => strip_first whitespace (w +:+ rest) = None ∧ unbroken r rest
  end.

Lemma strip_first_shorten ws u rest : strip_first ws (u +:+ rest) = None → strip_first ws u = None.
Proof.
  induction ws as [|w ws IH]; [done|]. cbn [strip_first]. destruct (strip_prefix w (u +:+ rest)) as [r|] eqn:Hw; [done|].
  intros Hs. destruct (strip_prefix w u) as [r|] eqn:Hu; [|by apply IH].
  apply strip_prefix_iff in Hu as ->. rewrite append_assoc in Hw.
  assert (strip_prefix w (w +:+ (r +:+ rest)) = Some (r +:+ rest)) by (by apply strip_prefix_iff). congruence.
Qed.

Lemma unbroken_alone w rest : unbroken w rest → unbroken w "".
Proof.
  induction w as [|c w IH]; [done|]. cbn [unbroken]. rewrite append_nil_r. intros [Hs Hw].
  split; [by eapply strip_first_shorten|auto].
Qed.

Lemma unbroken_snoc w c rest :
  unbroken w (String c rest) → strip_first whitespace (String c rest) = None → unbroken (w +:+ String c "") rest.
Proof.
  intros Hw Hc. induction w as [|d w IH].
  - change ("" +:+ String c "") with (String c ""). done.
  - rewrite append_cons. cbn [unbroken] in *. destruct Hw as [Hs Hw]. split; [|auto].
    rewrite append_cons in Hs. by rewrite <- append_cons, append_assoc.
Qed.

Definition word (w : string) : Prop := w ≠ "" ∧ unbroken w "".

Lemma split_ws_words f s cur : String.length s < f → unbroken (string_rev cur "") s → Forall word (split_ws f s cur).
Proof.
  revert s cur. induction f as [|f IH]; intros s cur Hf Hcur; [lia|]. cbn [split_ws].
  assert (Forall word match cur with "" => [] | String _ _ => [string_rev cur ""] end) as Hflush.
  { destruct cur as [|c cur]; [done|]. apply Forall_singleton. split; [|by eapply unbroken_alone].
    intros He. apply (f_equal (fun s => string_rev s "")) in He. by rewrite string_rev_involutive in He. }
  destruct (strip_first whitespace s) as [s'|] eqn:Hs.
  - apply Forall_app. split; [done|]. apply IH; [|done]. apply strip_white_shorter in Hs. lia.
  - destruct s as [|c s]; [done|]. apply IH; [cbn [String.length] in Hf; lia|].
    cbn [string_rev]. rewrite string_rev_app. by apply unbroken_snoc.
Qed.

Lemma split_words s : Forall word (split_whitespace s).
Proof. apply split_ws_words; [lia|done]. Qed.

Lemma split_ws_word f w cur : String.length w < f → unbroken w "" → string_rev cur "" +:+ w ≠ "" →
  split_ws f w cur = [string_rev cur "" +:+ w].
Proof.
  revert w cur. induction f as [|f IH]; intros w cur Hf Hw Hne; [lia|]. cbn [split_ws]. destruct w as [|c w].
  - assert (strip_first whitespace "" = None) as -> by reflexivity. rewrite append_nil_r in *. by destruct cur.
  - cbn [unbroken] in Hw. destruct Hw as [Hs Hw]. rewrite append_nil_r in Hs. rewrite Hs.
    cbn [String.length] in Hf.
    assert (string_rev (String c cur) "" +:+ w = string_rev cur "" +:+ String c w) as Heq.
    { cbn [string_rev]. by rewrite string_rev_app, append_assoc. }
    rewrite IH; [by rewrite Heq|lia|done|by rewrite Heq].
Qed.

Lemma split_word w : word w → split_whitespace w = [w].
Proof. intros [Hne Hw]. unfold split_whitespace. by rewrite split_ws_word by (done || lia). Qed.

Lemma space_white : " " ∈ whitespace.
Proof. apply (bool_decide_unpack _). vm_compute. exact I. Qed.

(** Words joined by blanks are read back. *)
Lemma split_join l : Forall word l → split_whitespace (str_join " " l) = l.
Proof.
  induction l as [|w [|v l] IH]; intros Hl; [done| |].
  { exact (split_word w (proj1 (Forall_singleton _ _) Hl)). }
  apply Forall_cons in Hl as [Hw Hl].
  change (str_join " " (w :: v :: l)) with (w +:+ (" " +:+ str_join " " (v :: l))).
  rewrite (split_white w " ") by apply space_white. by rewrite split_word, IH.
Qed.
