(* ===== verification/Routine.v ===== *)
(** * Routine: what a routine is and how it is stored

    [src/agent/routine.rs]: triggers and actions with their columns in the database, the states of a run, and the text of
    cron schedules.  Parsing a schedule and computing its next time is the [cron] crate, and the names of time zones
    are those of [chrono-tz]: both are the class [CronEnv].  Times are in nanoseconds. *)

From Stdlib Require Import Ascii.
From stdpp Require Import pretty.
From S2P Require Import Prelude Text TextSearch Words ReplyText ToolParams.

(** ** Errors *)

Inductive RoutineError : Type :=
| UnknownTriggerType (trigger_type : string)
| UnknownActionType (action_type : string)
| MissingField (context field : string)
| InvalidCron (reason : string)
| UnknownRunStatus (status : string)
| RoutineDisabled (name : string)
| RoutineNotFound (id : Uuid)
| NotAuthorized (id : Uuid)
| InCooldown (name : string)
| MaxConcurrent (name : string)
| DatabaseFailed (reason : string)
| LlmFailed (reason : string)
| JobDispatchFailed (reason : string)
| EmptyReply
| TruncatedReply.

(** The [Display] of an error; [id_text] prints an identifier. *)
Definition routine_error_text (id_text : Uuid -> string) (e : RoutineError) : string :=
  match e with
  | UnknownTriggerType t => "Unknown trigger type: " +:+ t
  | UnknownActionType t => "Unknown action type: " +:+ t
  | MissingField c f => cat ["Missing field in "; c; ": "; f]
  | InvalidCron r => "Invalid cron expression: " +:+ r
  | UnknownRunStatus s => "Unknown run status: " +:+ s
  | RoutineDisabled nm => cat ["Routine "; nm; " is disabled"]
  | RoutineNotFound id => "Routine not found: " +:+ id_text id
  | NotAuthorized id => "Not authorized to trigger routine " +:+ id_text id
  | InCooldown nm => cat ["Routine "; nm; " is in cooldown period"]
  | MaxConcurrent nm => cat ["Routine "; nm; " at max concurrent runs"]
  | DatabaseFailed r => "Database error: " +:+ r
  | LlmFailed r => "LLM call failed: " +:+ r
  | JobDispatchFailed r => "Failed to dispatch full job: " +:+ r
  | EmptyReply => "LLM returned empty content"
  | TruncatedReply => "LLM response truncated (finish_reason=length) with no content"
  end.

(** ** Triggers and actions *)

Inductive Trigger : Type :=
| Cron (schedule : string) (timezone : option string)
| Event (channel : option string) (pattern : string)
| SystemEvent (source event_type : string) (filters : gmap string string)
| Webhook (path secret : option string)
| Manual.

Inductive RoutineAction : Type :=
| Lightweight (prompt : string) (context_paths : list string) (max_tokens : Z) (use_tools : bool) (max_tool_rounds : Z)
| FullJob (title description : string) (max_iterations : Z).

Record RoutineGuardrails : Type := mkGuardrails {
  cooldown : Z;
  max_concurrent : Z;
  dedup_window : option Z
}.

Definition SECOND : Z := 10 ^ 9.
Definition guardrails_default : RoutineGuardrails := mkGuardrails (300 * SECOND) 1 None.

Record NotifyConfig : Type := mkNotify {
  nc_channel : option string;
  nc_user : option string;
  on_attention : bool;
  on_failure : bool;
  on_success : bool
}.

Definition notify_default : NotifyConfig := mkNotify None None true true false.

Record Routine : Type := mkRoutine {
  r_id : Uuid;
  r_name : string;
  r_description : string;
  r_user_id : string;
  r_enabled : bool;
  r_trigger : Trigger;
  r_action : RoutineAction;
  r_guardrails : RoutineGuardrails;
  r_notify : NotifyConfig;
  r_last_run_at : option Z;
  r_next_fire_at : option Z;
  r_run_count : Z;
  r_consecutive_failures : Z;
  r_state : Json;
  r_created_at : Z;
  r_updated_at : Z
}.

Inductive RunStatus : Type := RunRunning | RunOk | RunAttention | RunFailed.

#[export] Instance RunStatus_eq_dec : EqDecision RunStatus.
Proof. solve_decision. Defined.

Definition status_text (s : RunStatus) : string :=
  match s with RunRunning => "running" | RunOk => "ok" | RunAttention => "attention" | RunFailed => "failed" end.

Definition status_from_str (s : string) : Result RoutineError RunStatus :=
  if (s =? "running")%string then Ok RunRunning
  else if (s =? "ok")%string then Ok RunOk
  else if (s =? "attention")%string then Ok RunAttention
  else if (s =? "failed")%string then Ok RunFailed
  else Err (UnknownRunStatus s).

Record RoutineRun : Type := mkRun {
  run_id : Uuid;
  run_routine_id : Uuid;
  run_trigger_type : string;
  run_trigger_detail : option string;
  run_started_at : Z;
  run_completed_at : option Z;
  run_status : RunStatus;
  run_result_summary : option string;
  run_tokens_used : option Z;
  run_job_id : option Uuid;
  run_created_at : Z
}.

(** ** The columns of the database *)

Class CronEnv := {
  (** whether [chrono-tz] knows the zone *)
  tz_known : string -> bool;
  (** a parsed schedule as its next time in a zone ([None]: UTC) after a time *)
  cron_from_str : string -> Result string (option string -> Z -> option Z);
  (** [DefaultHasher] *)
  default_hash : string -> Z
}.

(** A string as a field of [json!]. *)
Definition opt_json (o : option string) : Json := match o with Some s => JString s | None => JNull end.
Definition num_json (n : Z) : Json := JNumber (pretty n).

Definition json_value_as_filter_string (v : Json) : option string :=
  match v with
  | JString s => Some s
  | JNumber n => Some n
  | JBool b => Some (if b then "true" else "false")
  | _ => None
  end.

Definition trigger_tag (t : Trigger) : string :=
  match t with
  | Cron _ _ => "cron"
  | Event _ _ => "event"
  | SystemEvent _ _ _ => "system_event"
  | Webhook _ _ => "webhook"
  | Manual => "manual"
  end.

Definition action_tag (a : RoutineAction) : string :=
  match a with Lightweight _ _ _ _ _ => "lightweight" | FullJob _ _ _ => "full_job" end.

Definition str_field (key : string) (v : Json) : option string := json_get key v ≫= as_str.

(** A field that has to be there. *)
Definition needed (context key : string) (v : Json) : Result RoutineError string :=
  match str_field key v with Some s => Ok s | None => Err (MissingField context key) end.

Definition as_bool (v : Json) : option bool := match v with JBool b => Some b | _ => None end.

Section columns.
  Context `{CronEnv}.

Definition filters_from (config : Json) : gmap string string :=
  match json_get "filters" config ≫= as_object with
  | Some m => list_to_map (omap (fun kv => (fun s => (kv.1, s)) <$> json_value_as_filter_string kv.2) m)
  | None => ∅
  end.

Definition trigger_from_db (trigger_type : string) (config : Json) : Result RoutineError Trigger :=
  if (trigger_type =? "cron")%string then
    match needed "cron trigger" "schedule" config with
    | Err e => Err e
    | Ok schedule =>
        Ok (Cron schedule (tz ← str_field "timezone" config; if tz_known tz then Some tz else None))
    end
  else if (trigger_type =? "event")%string then
    match needed "event trigger" "pattern" config with
    | Err e => Err e
    | Ok pattern => Ok (Event (str_field "channel" config) pattern)
    end
  else if (trigger_type =? "system_event")%string then
    match needed "system_event trigger" "source" config with
    | Err e => Err e
    | Ok source =>
        match needed "system_event trigger" "event_type" config with
        | Err e => Err e
        | Ok event_type => Ok (SystemEvent source event_type (filters_from config))
        end
    end
  else if (trigger_type =? "webhook")%string then
    Ok (Webhook (str_field "path" config) (str_field "secret" config))
  else if (trigger_type =? "manual")%string then Ok Manual
  else Err (UnknownTriggerType trigger_type).

Definition trigger_config (t : Trigger) : Json :=
  match t with
  | Cron schedule timezone => JObject [("schedule", JString schedule); ("timezone", opt_json timezone)]
  | Event channel pattern => JObject [("pattern", JString pattern); ("channel", opt_json channel)]
  | SystemEvent source event_type filters =>
      JObject [("source", JString source); ("event_type", JString event_type);
               ("filters", JObject ((fun kv => (kv.1, JString kv.2)) <$> map_to_list filters))]
  | Webhook path secret => JObject [("path", opt_json path); ("secret", opt_json secret)]
  | Manual => JObject []
  end.

Definition default_max_tokens : Z := 4096.
Definition default_max_iterations : Z := 25.
Definition default_max_tool_rounds : Z := 3.
Definition MAX_TOOL_ROUNDS_LIMIT : Z := 20.

Definition clamp_max_tool_rounds (value : Z) : Z := Z.max 1 (Z.min value MAX_TOOL_ROUNDS_LIMIT).

(** A number of the configuration before it is narrowed. *)
Definition num_field (key : string) (dflt : Z) (v : Json) : Z := default dflt (json_get key v ≫= as_u64).
Definition as_u32 (n : Z) : Z := (n mod 2 ^ 32)%Z.

Definition paths_from (config : Json) : list string :=
  match json_get "context_paths" config ≫= as_array with Some l => omap as_str l | None => [] end.

Definition action_from_db (action_type : string) (config : Json) : Result RoutineError RoutineAction :=
  if (action_type =? "lightweight")%string then
    match needed "lightweight action" "prompt" config with
    | Err e => Err e
    | Ok prompt =>
        Ok (Lightweight prompt (paths_from config)
              (as_u32 (num_field "max_tokens" default_max_tokens config))
              (default false (json_get "use_tools" config ≫= as_bool))
              (clamp_max_tool_rounds (num_field "max_tool_rounds" default_max_tool_rounds config)))
    end
  else if (action_type =? "full_job")%string then
    match needed "full_job action" "title" config with
    | Err e => Err e
    | Ok title =>
        match needed "full_job action" "description" config with
        | Err e => Err e
        | Ok description =>
            Ok (FullJob title description (as_u32 (num_field "max_iterations" default_max_iterations config)))
        end
    end
  else Err (UnknownActionType action_type).

Definition action_config (a : RoutineAction) : Json :=
  match a with
  | Lightweight prompt context_paths max_tokens use_tools max_tool_rounds =>
      JObject [("prompt", JString prompt); ("context_paths", JArray (JString <$> context_paths));
               ("max_tokens", num_json max_tokens); ("use_tools", JBool use_tools);
               ("max_tool_rounds", num_json max_tool_rounds)]
  | FullJob title description max_iterations =>
      JObject [("title", JString title); ("description", JString description);
               ("max_iterations", num_json max_iterations)]
  end.

(** ** Schedules *)

Definition content_hash (content : string) : Z := default_hash content.

Definition normalize_cron_expression (schedule : string) : string :=
  let trimmed := trim schedule in
  let fields := split_whitespace trimmed in
  match length fields with
  | 5%nat => cat ["0 "; str_join " " fields; " *"]
  | 6%nat => cat [str_join " " fields; " *"]
  | _ => trimmed
  end.

(** The next time after [now]. *)
Definition next_cron_fire (schedule : string) (timezone : option string) (now : Z) : Result RoutineError (option Z) :=
  match cron_from_str (normalize_cron_expression schedule) with
  | Err e => Err (InvalidCron e)
  | Ok upcoming =>
      match timezone with
      | Some tz => if tz_known tz then Ok (upcoming (Some tz) now) else Ok (upcoming None now)
      | None => Ok (upcoming None now)
      end
  end.
End columns.

(** ** Descriptions *)

Definition cron_fallback (raw : string) : string :=
  if str_is_empty (trim raw) then "cron: (empty)" else "cron: " +:+ trim raw.

Definition parse_u8_token (token : string) : option Z :=
  n ← parse_u64 token; if (n <=? 255)%Z then Some n else None.

Definition parse_step (token : string) : option Z :=
  n ← strip_prefix "*/" token ≫= parse_u8_token; if (0 <? n)%Z then Some n else None.

Definition ascii_upper (c : ascii) : ascii :=
  let n := nat_of_ascii c in if ((97 <=? n) && (n <=? 122))%nat then ascii_of_nat (n - 32) else c.

Definition weekday_name (dow : string) : option string :=
  let d := string_map ascii_upper (trim dow) in
  let among l := bool_decide (d ∈ l) in
  if among ["MON"; "1"] then Some "Monday"
  else if among ["TUE"; "2"] then Some "Tuesday"
  else if among ["WED"; "3"] then Some "Wednesday"
  else if among ["THU"; "4"] then Some "Thursday"
  else if among ["FRI"; "5"] then Some "Friday"
  else if among ["SAT"; "6"] then Some "Saturday"
  else if among ["SUN"; "0"; "7"] then Some "Sunday"
  else None.

(** [{minute:02}] *)
Definition two_digits (n : Z) : string := if (n <? 10)%Z then "0" +:+ pretty n else pretty n.

Definition format_time (hour minute : Z) : string :=
  if ((hour =? 0) && (minute =? 0))%Z then "midnight"
  else
    let '(h, half) :=
      if (hour =? 0)%Z then (12%Z, "AM")
      else if (hour <=? 11)%Z then (hour, "AM")
      else if (hour =? 12)%Z then (12%Z, "PM")
      else ((hour - 12)%Z, "PM") in
    cat [pretty h; ":"; two_digits minute; " "; half].

Definition ordinal (n : Z) : string :=
  let suffix :=
    if ((11 <=? n mod 100) && (n mod 100 <=? 13))%Z then "th"
    else if (n mod 10 =? 1)%Z then "st"
    else if (n mod 10 =? 2)%Z then "nd"
    else if (n mod 10 =? 3)%Z then "rd"
    else "th" in
  pretty n +:+ suffix.

(** The fields of a schedule: seconds, minutes, hours, day of the month, month, day of the week, year. *)
Definition cron_fields (raw : string)
    : option (string * string * string * string * string * string * option string) :=
  match split_whitespace raw with
  | [m; h; dom; mon; dow] => Some ("0", m, h, dom, mon, dow, None)
  | [sec; m; h; dom; mon; dow] => Some (sec, m, h, dom, mon, dow, None)
  | [sec; m; h; dom; mon; dow; year] => Some (sec, m, h, dom, mon, dow, Some year)
  | _ => None
  end.

(** [Every minute], [Every n minutes] *)
Definition every (unit : string) (n : Z) : string :=
  if (n =? 1)%Z then "Every " +:+ unit else cat ["Every "; pretty n; " "; unit; "s"].

(** The schedules with a fixed hour and minute. *)
Definition describe_at (sec min hour dom month dow : string) : option string :=
  let eqs a b := (a =? b)%string in
  h ← parse_u8_token hour; guard (h ≤ 23)%Z;;
  m ← parse_u8_token min; guard (m ≤ 59)%Z;;
  let phrase := "at " +:+ format_time h m in
  if eqs sec "0" && eqs dom "*" && eqs month "*" && eqs dow "*" then Some ("Daily " +:+ phrase)
  else if eqs sec "0" && eqs dom "*" && eqs month "*" && eq_ignore_ascii_case dow "MON-FRI" then Some ("Weekdays " +:+ phrase)
  else match (if eqs sec "0" && eqs dom "*" && eqs month "*" then weekday_name dow else None) with
  | Some day => Some (cat ["Every "; day; " "; phrase])
  | None =>
      if eqs sec "0" && eqs month "*" && eqs dow "*" then
        d ← parse_u8_token dom; guard (1 ≤ d ≤ 31)%Z;; Some (cat [ordinal d; " of every month "; phrase])
      else None
  end.

Definition describe_inner (raw : string) : option string :=
  let eqs a b := (a =? b)%string in
  '(sec, min, hour, dom, month, dow, year) ← cron_fields raw;
  if match year with Some y => negb (eqs y "*") | None => false end then None
  else match (if eqs sec "0" && eqs hour "*" && eqs dom "*" && eqs month "*" && eqs dow "*" then parse_step min else None) with
  | Some n => Some (every "minute" n)
  | None =>
      match (if eqs sec "0" && eqs min "0" && eqs dom "*" && eqs month "*" && eqs dow "*" then parse_step hour else None) with
      | Some n => Some (every "hour" n)
      | None => describe_at sec min hour dom month dow
      end
  end.

Definition describe_cron (schedule : string) (timezone : option string) : string :=
  let description := default (cron_fallback schedule) (describe_inner schedule) in
  match trim <$> timezone with
  | Some tz => if str_is_empty tz then description else cat [description; " ("; tz; ")"]
  | None => description
  end.

(** ** Examples *)

Example cron_weekday : describe_cron "0 9 * * MON-FRI" (Some " Europe/Berlin ") = "Weekdays at 9:00 AM (Europe/Berlin)".
Proof. reflexivity. Qed.
Example cron_step : describe_cron "*/15 * * * *" None = "Every 15 minutes".
Proof. reflexivity. Qed.
Example cron_month : describe_cron " 0 30 13  21 * * " None = "21st of every month at 1:30 PM".
Proof. reflexivity. Qed.
Example cron_expanded : normalize_cron_expression " 0 9  * * 1 " = "0 0 9 * * 1 *".
Proof. reflexivity. Qed.

(** ** Numbers in JSON *)

Lemma digit_of_pretty n : (n < 10)%N → digit_of (pretty_N_char n) = Some (Z.of_N n).
Proof.
  intros Hn. unfold pretty_N_char.
  assert (n ∈ (N.of_nat <$> seq 0 10)) as Hin.
  { apply list_elem_of_fmap. exists (N.to_nat n). rewrite N2Nat.id. split; [done|]. apply elem_of_seq. lia. }
  revert Hin. clear Hn. revert n. apply Forall_forall. repeat constructor.
Qed.

Lemma parse_digits_pretty n s :
  (Z.of_N n ≤ u64_max)%Z → parse_digits (pretty_N_go n s) 0 = parse_digits s (Z.of_N n).
Proof.
  revert s. induction (N.lt_wf_0 n) as [n _ IH]; intros s Hn. destruct (decide (0 < n)%N) as [Hp|Hz].
  - rewrite pretty_N_go_step by done.
    rewrite IH; [|by apply N.div_lt|]; last first.
    { assert (n `div` 10 < n)%N by (by apply N.div_lt). lia. }
    cbn [parse_digits]. rewrite digit_of_pretty by (apply N.mod_lt; lia). cbn [mbind option_bind].
    assert (Z.of_N (n `div` 10) * 10 + Z.of_N (n `mod` 10) = Z.of_N n)%Z as ->.
    { rewrite N2Z.inj_div, N2Z.inj_mod. pose proof (Z.div_mod (Z.of_N n) 10). lia. }
    by rewrite (proj2 (Z.leb_le _ _) Hn).
  - assert (n = 0%N) as -> by lia. by rewrite pretty_N_go_0.
Qed.

Lemma parse_u64_digits s n : s ≠ "" → parse_digits s 0 = Some n → parse_u64 s = Some n.
Proof. intros Hne Hs. destruct s as [|c r]; [done|]. unfold parse_u64. by destruct c as [[][][][][][][][]]. Qed.

Lemma as_u64_num n : (0 ≤ n ≤ u64_max)%Z → as_u64 (num_json n) = Some n.
Proof.
  intros [Hlo Hhi]. unfold as_u64, num_json. destruct n as [|p|p]; [done| |lia].
  assert (parse_digits (pretty (Z.pos p)) 0 = Some (Z.pos p)) as Hp.
  { change (pretty (Z.pos p)) with (pretty_N_go (N.pos p) ""). by rewrite parse_digits_pretty. }
  apply parse_u64_digits; [|done]. intros He. rewrite He in Hp. by injection Hp.
Qed.

(** ** What is stored is read back *)

Section roundtrips.
  Context `{CronEnv}.

Lemma str_field_opt k o l : json_get k (JObject l) = Some (opt_json o) → str_field k (JObject l) = o.
Proof. unfold str_field. intros ->. by destruct o. Qed.

(** A zone that is not known is not read back. *)
Definition readable_trigger (t : Trigger) : Trigger :=
  match t with
  | Cron schedule timezone => Cron schedule (tz ← timezone; if tz_known tz then Some tz else None)
  | _ => t
  end.

(** Numbers of rounds are read back between one and twenty. *)
Definition readable_action (a : RoutineAction) : RoutineAction :=
  match a with
  | Lightweight p l n u r => Lightweight p l n u (clamp_max_tool_rounds r)
  | FullJob _ _ _ => a
  end.

(** The numbers of an action are [u32]. *)
Definition action_ok (a : RoutineAction) : Prop :=
  match a with
  | Lightweight _ _ n _ r => (0 ≤ n ≤ u32_max)%Z ∧ (0 ≤ r ≤ u32_max)%Z
  | FullJob _ _ n => (0 ≤ n ≤ u32_max)%Z
  end.

Lemma filters_read config (m : gmap string string) :
  json_get "filters" config = Some (JObject ((fun kv => (kv.1, JString kv.2)) <$> map_to_list m)) →
  filters_from config = m.
Proof.
  unfold filters_from. intros ->. cbn [mbind option_bind as_object].
  rewrite <- (list_to_map_to_list m) at 2. f_equal.
  induction (map_to_list m) as [|[k v] l IH]; [done|]. cbn. by f_equal.
Qed.

Lemma paths_read config l : json_get "context_paths" config = Some (JArray (JString <$> l)) → paths_from config = l.
Proof.
  unfold paths_from. intros ->. cbn [mbind option_bind as_array]. induction l as [|p l IH]; [done|]. cbn. by f_equal.
Qed.

Lemma num_read k config dflt n : json_get k config = Some (num_json n) → (0 ≤ n ≤ u32_max)%Z → num_field k dflt config = n.
Proof. unfold num_field, u32_max. intros -> Hn. cbn [mbind option_bind]. rewrite as_u64_num; [done|]. unfold u64_max. lia. Qed.

Lemma trigger_roundtrip t : trigger_from_db (trigger_tag t) (trigger_config t) = Ok (readable_trigger t).
Proof.
  destruct t as [s [tz|]|[ch|] p|src ty f|[p|] [s|]|]; try reflexivity.
  change (Ok (SystemEvent src ty (filters_from (trigger_config (SystemEvent src ty f)))) =@{Result RoutineError Trigger}
    Ok (SystemEvent src ty f)). by rewrite (filters_read _ f).
Qed.

Lemma as_u32_id n : (0 ≤ n ≤ u32_max)%Z → as_u32 n = n.
Proof. intros Hn. unfold as_u32. apply Z.mod_small. unfold u32_max in Hn. lia. Qed.

Lemma action_roundtrip a : action_ok a → action_from_db (action_tag a) (action_config a) = Ok (readable_action a).
Proof.
  destruct a as [p l n u r|t d n]; cbn [action_ok].
  - intros [Hn Hr]. set (config := action_config (Lightweight p l n u r)).
    change (Ok (Lightweight p (paths_from config) (as_u32 (num_field "max_tokens" default_max_tokens config)) u
      (clamp_max_tool_rounds (num_field "max_tool_rounds" default_max_tool_rounds config))) =@{Result RoutineError RoutineAction}
      Ok (Lightweight p l n u (clamp_max_tool_rounds r))).
    erewrite paths_read, !num_read, as_u32_id by (reflexivity || done). reflexivity.
  - intros Hn. set (config := action_config (FullJob t d n)).
    change (Ok (FullJob t d (as_u32 (num_field "max_iterations" default_max_iterations config))) =@{Result RoutineError RoutineAction}
      Ok (FullJob t d n)).
    by erewrite num_read, as_u32_id.
Qed.

Lemma status_roundtrip s : status_from_str (status_text s) = Ok s.
Proof. by destruct s. Qed.
End roundtrips.

(** ** Schedules as they are given to the parser *)

Lemma word_zero_star : word "0" ∧ word "*".
Proof. by repeat split. Qed.

(** The fields after normalisation. *)
Lemma normalized_fields schedule :
  split_whitespace (normalize_cron_expression schedule) =
  let fields := split_whitespace schedule in
  match length fields with
  | 5%nat => "0" :: fields ++ ["*"]
  | 6%nat => fields ++ ["*"]
  | _ => fields
  end.
Proof.
  destruct word_zero_star as [H0 Hs]. unfold normalize_cron_expression. cbv zeta. rewrite split_trim.
  pose proof (split_words schedule) as Hw. remember (split_whitespace schedule) as l eqn:Hl.
  assert (∀ x, split_whitespace (x +:+ (" " +:+ "*")) = split_whitespace x ++ ["*"]) as Hstar.
  { intros x. by rewrite (split_white x " " "*" space_white), (split_word "*"). }
  assert (split_whitespace (trim schedule) = l) as Ht by (by rewrite split_trim).
  destruct (length l) as [|[|[|[|[|[|[|?]]]]]]]; try done.
  - change (cat ["0 "; str_join " " l; " *"]) with ("0" +:+ (" " +:+ (str_join " " l +:+ (" " +:+ "*")))).
    rewrite (split_white "0" " " _ space_white), Hstar, split_join by done. by rewrite (split_word "0").
  - change (cat [str_join " " l; " *"]) with (str_join " " l +:+ (" " +:+ "*")). by rewrite Hstar, split_join.
Qed.

(** The description shown for a schedule is the description of the schedule that is parsed: expanding the
    five and six field forms changes neither what is recognised nor how it reads. *)
Theorem description_of_parsed schedule :
  describe_inner (normalize_cron_expression schedule) = describe_inner schedule.
Proof.
  unfold describe_inner, cron_fields. rewrite normalized_fields. cbv zeta.
  remember (split_whitespace schedule) as l eqn:Hl. clear Hl. by do 8 (destruct l as [|? l]; [done|]).
Qed.

(** Normalising twice is normalising once. *)
Lemma normalize_fields_stable schedule :
  split_whitespace (normalize_cron_expression (normalize_cron_expression schedule)) =
  split_whitespace (normalize_cron_expression schedule).
Proof.
  rewrite (normalized_fields (normalize_cron_expression schedule)), normalized_fields. cbv zeta.
  remember (split_whitespace schedule) as l eqn:Hl. clear Hl.
  by do 8 (destruct l as [|? l]; [done|]).
Qed.
