(* ===== verification/RoutineStore.v ===== *)
(** * RoutineStore: the tables of routines and of their runs

    The routine queries of [src/history/store.rs] on the tables of [migrations/V6__routines.sql].  A table is a map from its
    primary key; [WHERE], [GROUP BY], [ORDER BY] and [LIMIT] are written out, and so are the constraints a statement
    can violate.  PostgreSQL itself is the class [Pg]: the order of a scan, the texts of its errors and the
    failures of a connection. *)

From Stdlib Require Import Ascii.
From stdpp Require Import pretty.
From S2P Require Import Prelude Text TextSearch Words ReplyText ToolParams Routine.

(** ** Rows *)

Record RoutineRow : Type := mkRoutineRow {
  rw_id : Uuid;
  rw_name : string;
  rw_description : string;
  rw_user_id : string;
  rw_enabled : bool;
  rw_trigger_type : string;
  rw_trigger_config : Json;
  rw_action_type : string;
  rw_action_config : Json;
  rw_cooldown_secs : Z;
  rw_max_concurrent : Z;
  rw_dedup_window_secs : option Z;
  rw_notify_channel : option string;
  rw_notify_user : option string;
  rw_notify_on_success : bool;
  rw_notify_on_failure : bool;
  rw_notify_on_attention : bool;
  rw_state : Json;
  rw_last_run_at : option Z;
  rw_next_fire_at : option Z;
  rw_run_count : Z;
  rw_consecutive_failures : Z;
  rw_created_at : Z;
  rw_updated_at : Z
}.

Record RunRow : Type := mkRunRow {
  rr_id : Uuid;
  rr_routine_id : Uuid;
  rr_trigger_type : string;
  rr_trigger_detail : option string;
  rr_started_at : Z;
  rr_completed_at : option Z;
  rr_status : string;
  rr_result_summary : option string;
  rr_tokens_used : option Z;
  rr_job_id : option Uuid;
  rr_created_at : Z
}.

Record RoutineDb : Type := mkRoutineDb { db_routines : gmap Uuid RoutineRow; db_runs : gmap Uuid RunRow }.

Definition set_routines (m : gmap Uuid RoutineRow) (d : RoutineDb) : RoutineDb := mkRoutineDb m (db_runs d).
Definition set_runs (m : gmap Uuid RunRow) (d : RoutineDb) : RoutineDb := mkRoutineDb (db_routines d) m.

(** What a statement can violate. *)
Inductive Violation : Type := DuplicateId | DuplicateName | NoSuchRoutine | NoSuchJob | ManyRows.

Class Pg := {
  pg_text : Violation -> string;
  (** the order of a scan without [ORDER BY] *)
  pg_scan : ∀ {A}, gmap Uuid A -> list A;
  (** [ORDER BY name] of the collation *)
  pg_by_name : list RoutineRow -> list RoutineRow;
  (** [v->>'key'] of a value that is neither a string nor null *)
  pg_json_text : Json -> string;
  pg_uuid_text : Uuid -> string
}.

Class PgLaws `{Pg} : Prop := {
  pg_scan_all {A} (m : gmap Uuid A) : pg_scan m ≡ₚ (map_to_list m).*2
}.

(** ** Integers of the columns *)

Definition as_i32 (n : Z) : Z := ((n + 2 ^ 31) mod 2 ^ 32 - 2 ^ 31)%Z.
Definition as_i64 (n : Z) : Z := ((n + 2 ^ 63) mod 2 ^ 64 - 2 ^ 63)%Z.
Definition as_u64_bits (n : Z) : Z := (n mod 2 ^ 64)%Z.
Definition as_secs (d : Z) : Z := (d / SECOND)%Z.
Definition from_secs (n : Z) : Z := (as_u64_bits n * SECOND)%Z.

Section store.
  Context `{CronEnv} `{Pg}.
  Implicit Types (d : RoutineDb) (r : Routine).

Definition store_error (e : RoutineError) : string := "Serialization error: " +:+ routine_error_text pg_uuid_text e.

(** *** Rows as values *)

Definition row_to_routine (row : RoutineRow) : Result string Routine :=
  match trigger_from_db (rw_trigger_type row) (rw_trigger_config row) with
  | Err e => Err (store_error e)
  | Ok trigger =>
      match action_from_db (rw_action_type row) (rw_action_config row) with
      | Err e => Err (store_error e)
      | Ok action =>
          Ok (mkRoutine (rw_id row) (rw_name row) (rw_description row) (rw_user_id row) (rw_enabled row) trigger action
                (mkGuardrails (from_secs (rw_cooldown_secs row)) (as_u32 (rw_max_concurrent row))
                   (from_secs <$> rw_dedup_window_secs row))
                (mkNotify (rw_notify_channel row) (rw_notify_user row) (rw_notify_on_attention row)
                   (rw_notify_on_failure row) (rw_notify_on_success row))
                (rw_last_run_at row) (rw_next_fire_at row) (as_u64_bits (rw_run_count row))
                (as_u32 (rw_consecutive_failures row)) (rw_state row) (rw_created_at row) (rw_updated_at row))
      end
  end.

Definition row_to_routine_run (row : RunRow) : Result string RoutineRun :=
  match status_from_str (rr_status row) with
  | Err e => Err (store_error e)
  | Ok status =>
      Ok (mkRun (rr_id row) (rr_routine_id row) (rr_trigger_type row) (rr_trigger_detail row) (rr_started_at row)
            (rr_completed_at row) status (rr_result_summary row) (rr_tokens_used row) (rr_job_id row) (rr_created_at row))
  end.

(** [rows.iter().map(f).collect()]: the first error is the result. *)
Fixpoint collect_rows {A B} (f : A -> Result string B) (l : list A) : Result string (list B) :=
  match l with
  | [] => Ok []
  | x :: l =>
      match f x with
      | Err e => Err e
      | Ok y => match collect_rows f l with Ok ys => Ok (y :: ys) | Err e => Err e end
      end
  end.

(** [query_opt]: no row, one row, or an error. *)
Definition query_opt (rows : list RoutineRow) : Result string (option Routine) :=
  match rows with
  | [] => Ok None
  | [row] => match row_to_routine row with Ok r => Ok (Some r) | Err e => Err e end
  | _ => Err (pg_text ManyRows)
  end.

(** The rows of a routine's query. *)
Definition select (p : RoutineRow -> bool) d : list RoutineRow := base.filter (fun row => p row = true) (pg_scan (db_routines d)).

(** *** Routines *)

(** The columns that a routine determines; the others are the defaults of the table. *)
Definition routine_row r : RoutineRow :=
  mkRoutineRow (r_id r) (r_name r) (r_description r) (r_user_id r) (r_enabled r)
    (trigger_tag (r_trigger r)) (trigger_config (r_trigger r)) (action_tag (r_action r)) (action_config (r_action r))
    (as_i32 (as_secs (cooldown (r_guardrails r)))) (as_i32 (max_concurrent (r_guardrails r)))
    ((fun w => as_i32 (as_secs w)) <$> dedup_window (r_guardrails r))
    (nc_channel (r_notify r)) (nc_user (r_notify r)) (on_success (r_notify r)) (on_failure (r_notify r))
    (on_attention (r_notify r)) (r_state r) None (r_next_fire_at r) 0 0 (r_created_at r) (r_updated_at r).

(** [UNIQUE (user_id, name)]: another row has the name. *)
Definition name_taken (id : Uuid) (user name : string) d : bool :=
  existsb (fun row => (rw_user_id row =? user)%string && (rw_name row =? name)%string && negb (bool_decide (rw_id row = id)))
    (map_to_list (db_routines d)).*2.

Definition create_routine r d : Result string unit * RoutineDb :=
  match db_routines d !! r_id r with
  | Some _ => (Err (pg_text DuplicateId), d)
  | None =>
      if name_taken (r_id r) (r_user_id r) (r_name r) d then (Err (pg_text DuplicateName), d)
      else (Ok tt, set_routines (<[r_id r := routine_row r]> (db_routines d)) d)
  end.

Definition get_routine (id : Uuid) d : Result string (option Routine) :=
  query_opt (option_list (db_routines d !! id)).

Definition get_routine_by_name (user name : string) d : Result string (option Routine) :=
  query_opt (select (fun row => (rw_user_id row =? user)%string && (rw_name row =? name)%string) d).

Definition list_routines (user : string) d : Result string (list Routine) :=
  collect_rows row_to_routine (pg_by_name (select (fun row => (rw_user_id row =? user)%string) d)).

Definition list_all_routines d : Result string (list Routine) :=
  collect_rows row_to_routine (pg_by_name (select (fun _ => true) d)).

Definition list_event_routines d : Result string (list Routine) :=
  collect_rows row_to_routine
    (select (fun row => rw_enabled row &&
       ((rw_trigger_type row =? "event")%string || (rw_trigger_type row =? "system_event")%string)) d).

(** [trigger_config->>'path'] *)
Definition path_column (row : RoutineRow) : option string :=
  match json_get "path" (rw_trigger_config row) with
  | Some (JString s) => Some s
  | Some JNull | None => None
  | Some v => Some (pg_json_text v)
  end.

Definition path_matches (path : string) (row : RoutineRow) : bool :=
  match path_column row with
  | Some s => (s =? path)%string
  | None => (pg_uuid_text (rw_id row) =? path)%string
  end.

Definition get_webhook_routine_by_path (path : string) (user : option string) d : Result string (option Routine) :=
  query_opt
    (select (fun row => rw_enabled row && (rw_trigger_type row =? "webhook")%string &&
       match user with Some u => (rw_user_id row =? u)%string | None => true end && path_matches path row) d).

Definition list_due_cron_routines (now : Z) d : Result string (list Routine) :=
  collect_rows row_to_routine
    (select (fun row => rw_enabled row && (rw_trigger_type row =? "cron")%string &&
       match rw_next_fire_at row with Some t => (t <=? now)%Z | None => false end) d).

(** The columns of [update_routine]; the runtime columns, the owner and the creation time stay. *)
Definition updated_row (now : Z) r (old : RoutineRow) : RoutineRow :=
  let row := routine_row r in
  mkRoutineRow (rw_id old) (rw_name row) (rw_description row) (rw_user_id old) (rw_enabled row)
    (rw_trigger_type row) (rw_trigger_config row) (rw_action_type row) (rw_action_config row)
    (rw_cooldown_secs row) (rw_max_concurrent row) (rw_dedup_window_secs row)
    (rw_notify_channel row) (rw_notify_user row) (rw_notify_on_success row) (rw_notify_on_failure row)
    (rw_notify_on_attention row) (rw_state row) (rw_last_run_at old) (rw_next_fire_at row) (rw_run_count old)
    (rw_consecutive_failures old) (rw_created_at old) now.

Definition update_routine (now : Z) r d : Result string unit * RoutineDb :=
  match db_routines d !! r_id r with
  | None => (Ok tt, d)
  | Some old =>
      if name_taken (r_id r) (rw_user_id old) (r_name r) d then (Err (pg_text DuplicateName), d)
      else (Ok tt, set_routines (<[r_id r := updated_row now r old]> (db_routines d)) d)
  end.

Definition runtime_row (now last_run : Z) (next_fire : option Z) (count failures : Z) (st : Json) (old : RoutineRow) : RoutineRow :=
  mkRoutineRow (rw_id old) (rw_name old) (rw_description old) (rw_user_id old) (rw_enabled old)
    (rw_trigger_type old) (rw_trigger_config old) (rw_action_type old) (rw_action_config old)
    (rw_cooldown_secs old) (rw_max_concurrent old) (rw_dedup_window_secs old)
    (rw_notify_channel old) (rw_notify_user old) (rw_notify_on_success old) (rw_notify_on_failure old)
    (rw_notify_on_attention old) st (Some last_run) next_fire (as_i64 count) (as_i32 failures) (rw_created_at old) now.

Definition update_routine_runtime (now : Z) (id : Uuid) (last_run : Z) (next_fire : option Z) (count failures : Z) (st : Json)
    d : RoutineDb :=
  set_routines (alter (runtime_row now last_run next_fire count failures st) id (db_routines d)) d.

(** [ON DELETE CASCADE] takes the runs along. *)
Definition delete_routine (id : Uuid) d : bool * RoutineDb :=
  (bool_decide (is_Some (db_routines d !! id)),
   mkRoutineDb (delete id (db_routines d)) (base.filter (fun x => rr_routine_id x.2 ≠ id) (db_runs d))).

(** *** Runs *)

Definition create_routine_run (now : Z) (run : RoutineRun) (jobs : Uuid -> bool) d : Result string unit * RoutineDb :=
  if bool_decide (is_Some (db_runs d !! run_id run)) then (Err (pg_text DuplicateId), d)
  else if bool_decide (db_routines d !! run_routine_id run = None) then (Err (pg_text NoSuchRoutine), d)
  else if match run_job_id run with Some j => negb (jobs j) | None => false end then (Err (pg_text NoSuchJob), d)
  else (Ok tt, set_runs (<[run_id run :=
         mkRunRow (run_id run) (run_routine_id run) (run_trigger_type run) (run_trigger_detail run) (run_started_at run) None
           (status_text (run_status run)) None None (run_job_id run) now]> (db_runs d)) d).

Definition completed_run (now : Z) (status : RunStatus) (summary : option string) (tokens : option Z) (row : RunRow) : RunRow :=
  mkRunRow (rr_id row) (rr_routine_id row) (rr_trigger_type row) (rr_trigger_detail row) (rr_started_at row) (Some now)
    (status_text status) summary tokens (rr_job_id row) (rr_created_at row).

Definition complete_routine_run (now : Z) (id : Uuid) (status : RunStatus) (summary : option string) (tokens : option Z) d
    : RoutineDb :=
  set_runs (alter (completed_run now status summary tokens) id (db_runs d)) d.

Definition later (a b : RunRow) : Prop := (rr_started_at b ≤ rr_started_at a)%Z.
#[export] Instance later_dec a b : Decision (later a b).
Proof. unfold later. apply _. Defined.

Definition list_routine_runs (id : Uuid) (limit : nat) d : Result string (list RoutineRun) :=
  collect_rows row_to_routine_run
    (take limit (merge_sort later (base.filter (fun row => rr_routine_id row = id) (pg_scan (db_runs d))))).

Definition is_running_run (row : RunRow) : bool := (rr_status row =? "running")%string.

Definition count_running_routine_runs (id : Uuid) d : Z :=
  Z.of_nat (length (base.filter (fun row => rr_routine_id row = id ∧ is_running_run row = true) (pg_scan (db_runs d)))).

(** One group of the batch query. *)
Definition add_count (m : gmap Uuid Z) (row : RunRow) : gmap Uuid Z :=
  <[rr_routine_id row := (default 0 (m !! rr_routine_id row) + 1)%Z]> m.

Definition count_running_routine_runs_batch (ids : list Uuid) d : gmap Uuid Z :=
  let counts := foldl add_count ∅
    (base.filter (fun row => rr_routine_id row ∈ ids ∧ is_running_run row = true) (pg_scan (db_runs d))) in
  foldl (fun m id => match m !! id with Some _ => m | None => <[id := 0%Z]> m end) counts ids.

(** [DISTINCT ON (routine_id) ... ORDER BY routine_id, started_at DESC]; a status that does not parse is left out. *)
Definition batch_get_last_run_status (ids : list Uuid) d : gmap Uuid RunStatus :=
  list_to_map (omap (fun id =>
    match head (merge_sort later (base.filter (fun row => rr_routine_id row = id) (pg_scan (db_runs d)))) with
    | Some row => match status_from_str (rr_status row) with Ok s => Some (id, s) | Err _ => None end
    | None => None
    end) ids).

Definition linked_run (job : Uuid) (row : RunRow) : RunRow :=
  mkRunRow (rr_id row) (rr_routine_id row) (rr_trigger_type row) (rr_trigger_detail row) (rr_started_at row)
    (rr_completed_at row) (rr_status row) (rr_result_summary row) (rr_tokens_used row) (Some job) (rr_created_at row).

(** The foreign key is checked when a row is written. *)
Definition link_routine_run_to_job (run job : Uuid) (jobs : Uuid -> bool) d : Result string unit * RoutineDb :=
  match db_runs d !! run with
  | None => (Ok tt, d)
  | Some row =>
      if jobs job then (Ok tt, set_runs (<[run := linked_run job row]> (db_runs d)) d)
      else (Err (pg_text NoSuchJob), d)
  end.

Definition list_dispatched_routine_runs d : Result string (list RoutineRun) :=
  collect_rows row_to_routine_run
    (base.filter (fun row => is_running_run row = true ∧ is_Some (rr_job_id row)) (pg_scan (db_runs d))).
End store.

(** ** Theorems *)

Section laws.
  Context `{CronEnv} `{Pg}.
  Implicit Types (d : RoutineDb) (r : Routine).

(** *** A routine comes back as it was stored *)

Definition whole_secs (n : Z) : Prop := ∃ k, n = (k * SECOND)%Z ∧ (0 ≤ k < 2 ^ 31)%Z.

(** The values the columns can hold. *)
Definition fits r : Prop :=
  whole_secs (cooldown (r_guardrails r)) ∧ (0 ≤ max_concurrent (r_guardrails r) ≤ u32_max)%Z ∧
  (∀ w, dedup_window (r_guardrails r) = Some w → whole_secs w) ∧ action_ok (r_action r).

(** A new routine has not run; zones and numbers of rounds are those that can be read. *)
Definition as_stored r : Routine :=
  mkRoutine (r_id r) (r_name r) (r_description r) (r_user_id r) (r_enabled r) (readable_trigger (r_trigger r))
    (readable_action (r_action r)) (r_guardrails r) (r_notify r) None (r_next_fire_at r) 0 0 (r_state r) (r_created_at r)
    (r_updated_at r).

Lemma secs_read n : whole_secs n → from_secs (as_i32 (as_secs n)) = n.
Proof.
  intros (k & -> & Hk). unfold as_secs, as_i32, from_secs, as_u64_bits, SECOND. rewrite Z.div_mul by done.
  rewrite (Z.mod_small (k + _)) by lia. rewrite Z.mod_small by lia. lia.
Qed.

Lemma u32_read n : (0 ≤ n ≤ u32_max)%Z → as_u32 (as_i32 n) = n.
Proof.
  intros Hn. unfold as_u32, as_i32, u32_max in *. rewrite Zminus_mod_idemp_l.
  replace (n + 2 ^ 31 - 2 ^ 31)%Z with n by lia. apply Z.mod_small. lia.
Qed.

Lemma routine_row_read r : fits r → row_to_routine (routine_row r) = Ok (as_stored r).
Proof.
  intros (Hc & Hm & Hd & Ha). unfold row_to_routine, routine_row. cbn -[from_secs as_u32 as_i32 as_secs].
  rewrite trigger_roundtrip, action_roundtrip by done.
  rewrite secs_read, u32_read by done. unfold as_stored. do 2 f_equal.
  - destruct (r_guardrails r) as [c m [w|]]; cbn -[from_secs as_i32 as_secs] in *; [|done]. by rewrite secs_read by auto.
  - by destruct (r_notify r).
Qed.

(** A routine that was created is read back with its trigger, action, guardrails and notifications as they were, whatever the
    rest of the table holds; only a time zone that is not known is dropped, numbers of rounds are brought between one and
    twenty, and it counts as never run. *)
Theorem stored_routine_read_back r d :
  fits r → (create_routine r d).1 = Ok tt → get_routine (r_id r) (create_routine r d).2 = Ok (Some (as_stored r)).
Proof.
  intros Hf. unfold create_routine. destruct (db_routines d !! r_id r); [done|]. destruct (name_taken _ _ _ _); [done|].
  intros _. unfold get_routine. cbn [snd set_routines db_routines]. rewrite lookup_insert_eq. unfold query_opt.
  cbn [option_list from_option option_rect]. by rewrite routine_row_read.
Qed.

(** *** The batch of counts *)

Lemma add_counts_lookup l m id :
  foldl add_count m l !! id =
  match base.filter (fun row => rr_routine_id row = id) l with
  | [] => m !! id
  | l' => Some (default 0 (m !! id) + Z.of_nat (length l'))%Z
  end.
Proof.
  revert m. induction l as [|row l IH]; intros m; [done|]. cbn [foldl]. rewrite IH, filter_cons. unfold add_count.
  destruct (decide (rr_routine_id row = id)) as [->|Hne].
  - rewrite lookup_insert_eq. destruct (base.filter _ l); cbn; f_equal; lia.
  - by rewrite lookup_insert_ne.
Qed.

Lemma fill_counts_lookup ids (m : gmap Uuid Z) id :
  foldl (fun m id => match m !! id with Some _ => m | None => <[id := 0%Z]> m end) m ids !! id =
  match m !! id with Some n => Some n | None => if decide (id ∈ ids) then Some 0%Z else None end.
Proof.
  revert m. induction ids as [|x ids IH]; intros m; cbn [foldl].
  - destruct (m !! id); [done|]. by rewrite decide_False by (by apply not_elem_of_nil).
  - rewrite IH. destruct (decide (x = id)) as [->|Hne].
    + destruct (m !! id) eqn:Hm; [by rewrite Hm|]. rewrite lookup_insert_eq. by rewrite decide_True by set_solver.
    + assert (match m !! x with Some _ => m | None => <[x:=0%Z]> m end !! id = m !! id) as ->.
      { destruct (m !! x); [done|]. by rewrite lookup_insert_ne. }
      destruct (m !! id); [done|]. destruct (decide (id ∈ ids)), (decide (id ∈ x :: ids)); set_solver.
Qed.

(** The single query over a list of routines gives exactly the counts that one query for each of them gives. *)
Theorem batch_counts_agree ids d id :
  count_running_routine_runs_batch ids d !! id =
  if decide (id ∈ ids) then Some (count_running_routine_runs id d) else None.
Proof.
  unfold count_running_routine_runs_batch, count_running_routine_runs. cbv zeta.
  rewrite fill_counts_lookup, add_counts_lookup, lookup_empty, list_filter_filter.
  destruct (decide (id ∈ ids)) as [Hin|Hout].
  - rewrite (list_filter_iff _ (fun row => rr_routine_id row = id ∧ is_running_run row = true)) by naive_solver.
    by destruct (base.filter _ _).
  - destruct (base.filter _ _) as [|row l] eqn:Hl; [done|]. exfalso.
    assert (row ∈ row :: l) as Hrow by set_solver. rewrite <- Hl in Hrow. apply list_elem_of_filter in Hrow. naive_solver.
Qed.
End laws.

(** ** The tables stay consistent *)

(** One statement of the store; [jobs] is the table of jobs at the time. *)
Inductive store_step `{Pg} : RoutineDb → RoutineDb → Prop :=
| step_create r d : store_step d (create_routine r d).2
| step_update now r d : store_step d (update_routine now r d).2
| step_runtime now id last next n f st d : store_step d (update_routine_runtime now id last next n f st d)
| step_delete id d : store_step d (delete_routine id d).2
| step_create_run now run jobs d : store_step d (create_routine_run now run jobs d).2
| step_complete now id s sum tok d : store_step d (complete_routine_run now id s sum tok d)
| step_link run job jobs d : store_step d (link_routine_run_to_job run job jobs d).2.

Record tables_ok (d : RoutineDb) : Prop := {
  tb_key id row : db_routines d !! id = Some row → rw_id row = id;
  (** a user has one routine of a name *)
  tb_name id id' row row' : db_routines d !! id = Some row → db_routines d !! id' = Some row' →
    rw_user_id row = rw_user_id row' → rw_name row = rw_name row' → id = id';
  (** the trigger and the action of a routine can be read *)
  tb_readable id row : db_routines d !! id = Some row → ∃ t a,
    rw_trigger_type row = trigger_tag t ∧ rw_trigger_config row = trigger_config t ∧
    rw_action_type row = action_tag a ∧ rw_action_config row = action_config a;
  tb_run_key id run : db_runs d !! id = Some run → rr_id run = id;
  (** a run belongs to a routine *)
  tb_run_routine id run : db_runs d !! id = Some run → is_Some (db_routines d !! rr_routine_id run);
  (** the status of a run can be read *)
  tb_run_status id run : db_runs d !! id = Some run → ∃ s, rr_status run = status_text s
}.

Section consistency.
  Context `{CronEnv} `{Pg}.
  Implicit Types (d : RoutineDb) (r : Routine).

Lemma name_free id user name d id' row :
  tables_ok d → name_taken id user name d = false → db_routines d !! id' = Some row →
  rw_user_id row = user → rw_name row = name → id' = id.
Proof.
  intros Hok Hf Hl <- <-. unfold name_taken in Hf. destruct (decide (id' = id)) as [|Hne]; [done|]. exfalso.
  assert (existsb (fun row' => (rw_user_id row' =? rw_user_id row)%string && (rw_name row' =? rw_name row)%string &&
    negb (bool_decide (rw_id row' = id))) (map_to_list (db_routines d)).*2 = true) as Ht; [|congruence].
  apply existsb_exists. exists row. split.
  - apply list_elem_of_In, list_elem_of_fmap. exists (id', row). split; [done|]. by apply elem_of_map_to_list.
  - rewrite !String.eqb_refl. cbn. apply negb_true_iff, bool_decide_eq_false. rewrite (tb_key d Hok id' row Hl). done.
Qed.

(** A row of routines is written under its own key, and its name is free or was its own. *)
Lemma tables_ok_put d id row :
  tables_ok d → rw_id row = id →
  (∀ id' row', id' ≠ id → db_routines d !! id' = Some row' → rw_user_id row = rw_user_id row' →
    rw_name row = rw_name row' → False) →
  (∃ t a, rw_trigger_type row = trigger_tag t ∧ rw_trigger_config row = trigger_config t ∧
    rw_action_type row = action_tag a ∧ rw_action_config row = action_config a) →
  tables_ok (set_routines (<[id := row]> (db_routines d)) d).
Proof.
  intros Hok Hid Hname Hread. split; cbn.
  - intros id' row' [[<- <-]|[_ Hl]]%lookup_insert_Some; [done|by eapply tb_key].
  - intros a b x y [[<- <-]|[Ha Hx]]%lookup_insert_Some [[<- <-]|[Hb Hy]]%lookup_insert_Some Hu Hn;
      [done|by exfalso; eapply (Hname b)|by exfalso; eapply (Hname a)|by eapply tb_name].
  - intros id' row' [[<- <-]|[_ Hl]]%lookup_insert_Some; [done|by eapply tb_readable].
  - by apply tb_run_key.
  - intros i run Hr. apply tb_run_routine in Hr; [|done]. apply lookup_insert_is_Some. destruct (decide (id = rr_routine_id run)); auto.
  - by apply tb_run_status.
Qed.

(** A run is written under its own key, of a routine that is there, with a status. *)
Lemma tables_ok_put_run d id run :
  tables_ok d → rr_id run = id → is_Some (db_routines d !! rr_routine_id run) → (∃ s, rr_status run = status_text s) →
  tables_ok (set_runs (<[id := run]> (db_runs d)) d).
Proof.
  intros Hok Hid Hr Hs. split; cbn.
  - by apply tb_key.
  - by apply tb_name.
  - by apply tb_readable.
  - intros i x [[<- <-]|[_ Hx]]%lookup_insert_Some; [done|by eapply tb_run_key].
  - intros i x [[<- <-]|[_ Hx]]%lookup_insert_Some; [done|by eapply tb_run_routine].
  - intros i x [[<- <-]|[_ Hx]]%lookup_insert_Some; [done|by eapply tb_run_status].
Qed.

Lemma alter_as_insert {A} (f : A → A) id (m : gmap Uuid A) :
  alter f id m = match m !! id with Some x => <[id := f x]> m | None => m end.
Proof.
  apply map_eq. intros j. destruct (decide (j = id)) as [->|Hne].
  - rewrite lookup_alter_eq. destruct (m !! id) eqn:Hm; [by rewrite lookup_insert_eq|by rewrite Hm].
  - rewrite lookup_alter_ne by done. destruct (m !! id); [by rewrite lookup_insert_ne|done].
Qed.

Lemma store_step_ok d d' : tables_ok d → store_step d d' → tables_ok d'.
Proof.
  intros Hok Hstep. inversion Hstep; subst; clear Hstep.
  - unfold create_routine. destruct (db_routines d !! r_id r); [done|].
    destruct (name_taken _ _ _ _) eqn:Hn; [done|]. apply tables_ok_put; [done|done| |by exists (r_trigger r), (r_action r)].
    intros id' row' Hne Hl Hu Hna. eapply Hne, name_free; [done..|by symmetry|by symmetry].
  - unfold update_routine. destruct (db_routines d !! r_id r) as [old|] eqn:Hold; [|done].
    destruct (name_taken _ _ _ _) eqn:Hn; [done|].
    apply tables_ok_put; [done|exact (tb_key d Hok _ _ Hold)| |by exists (r_trigger r), (r_action r)].
    intros id' row' Hne Hl Hu Hna. eapply Hne, name_free; [done..|by symmetry|by symmetry].
  - unfold update_routine_runtime. rewrite alter_as_insert. destruct (db_routines d !! id) as [old|] eqn:Hold; [|by destruct d].
    apply tables_ok_put; [done|exact (tb_key d Hok _ _ Hold)| |exact (tb_readable d Hok _ _ Hold)].
    intros id' row' Hne Hl Hu Hna. exact (Hne (tb_name d Hok _ _ _ _ Hl Hold (eq_sym Hu) (eq_sym Hna))).
  - unfold delete_routine. cbn [snd]. split; cbn.
    + intros i row [_ Hl]%lookup_delete_Some. by eapply tb_key.
    + intros i j x y [_ Hx]%lookup_delete_Some [_ Hy]%lookup_delete_Some. by eapply tb_name.
    + intros i row [_ Hl]%lookup_delete_Some. by eapply tb_readable.
    + intros i x [Hx _]%map_lookup_filter_Some. by eapply tb_run_key.
    + intros i x [Hx Hne]%map_lookup_filter_Some. cbn in Hne. rewrite lookup_delete_ne by done. by eapply tb_run_routine.
    + intros i x [Hx _]%map_lookup_filter_Some. by eapply tb_run_status.
  - unfold create_routine_run. destruct (bool_decide (is_Some _)); [done|].
    destruct (bool_decide (_ = None)) eqn:Hn; [done|]. destruct (match run_job_id run with Some _ => _ | None => _ end); [done|].
    apply bool_decide_eq_false, not_eq_None_Some in Hn. apply tables_ok_put_run; [done..|by eexists].
  - unfold complete_routine_run. rewrite alter_as_insert. destruct (db_runs d !! id) as [row|] eqn:Hrow; [|by destruct d].
    apply tables_ok_put_run; [done|exact (tb_run_key d Hok _ _ Hrow)|exact (tb_run_routine d Hok _ _ Hrow)|by eexists].
  - unfold link_routine_run_to_job. destruct (db_runs d !! run) as [row|] eqn:Hrow; [|done]. destruct (jobs job); [|done].
    apply tables_ok_put_run; [done|exact (tb_run_key d Hok _ _ Hrow)|exact (tb_run_routine d Hok _ _ Hrow)|exact (tb_run_status d Hok _ _ Hrow)].
Qed.

(** A name selects at most one row. *)
Lemma select_one `{!PgLaws} user name d : tables_ok d →
  length (select (fun row => (rw_user_id row =? user)%string && (rw_name row =? name)%string) d) ≤ 1.
Proof.
  intros Hok. unfold select. rewrite pg_scan_all.
  assert (∀ l : list (Uuid * RoutineRow), NoDup l.*1 → (∀ x, x ∈ l → db_routines d !! x.1 = Some x.2) →
    length (base.filter (fun row => (rw_user_id row =? user)%string && (rw_name row =? name)%string = true) l.*2) ≤ 1) as Hall.
  { induction l as [|[i row] l IH]; intros Hnd Hl; [cbn; lia|]. cbn [fmap list_fmap snd fst] in *.
    apply NoDup_cons in Hnd as [Hni Hnd]. rewrite filter_cons.
    destruct (decide _) as [Hp|_]; [|apply IH; [done|set_solver]]. cbn [length].
    enough (base.filter (fun row => (rw_user_id row =? user)%string && (rw_name row =? name)%string = true) l.*2 = []) as -> by (cbn; lia).
    apply elem_of_nil_inv. intros row' [Hp' Hrow']%list_elem_of_filter. apply Hni.
    apply list_elem_of_fmap in Hrow' as ([j x] & -> & Hx). apply list_elem_of_fmap. exists (j, x). split; [|done].
    apply andb_true_iff in Hp as [Hu%String.eqb_eq Hn%String.eqb_eq].
    apply andb_true_iff in Hp' as [Hu'%String.eqb_eq Hn'%String.eqb_eq]. cbn [fst snd] in *.
    eapply (tb_name d Hok _ _ row x); [apply (Hl (i, row)); set_solver|apply (Hl (j, x)); set_solver|congruence..]. }
  apply Hall; [apply NoDup_fst_map_to_list|]. intros [i x]. by rewrite elem_of_map_to_list.
Qed.

Lemma collect_rows_ok {A B} (f : A → Result string B) l :
  Forall (fun x => ∃ y, f x = Ok y) l → ∃ ys, collect_rows f l = Ok ys.
Proof.
  induction 1 as [|x l [y Hy] _ [ys IH]]; [by eexists|]. cbn. rewrite Hy, IH. by eexists.
Qed.

Lemma action_readable a : ∃ a', action_from_db (action_tag a) (action_config a) = Ok a'.
Proof. destruct a; by eexists. Qed.

Lemma row_readable d id row : tables_ok d → db_routines d !! id = Some row → ∃ r, row_to_routine row = Ok r.
Proof.
  intros Hok (t & a & Ht & Htc & Ha & Hac)%tb_readable; [|done]. unfold row_to_routine. rewrite Ht, Htc, trigger_roundtrip, Ha, Hac.
  destruct (action_readable a) as [a' ->]. by eexists.
Qed.

(** Whatever rows a query selects, they can be read. *)
Lemma select_readable `{!PgLaws} p d : tables_ok d → Forall (fun row => ∃ r, row_to_routine row = Ok r) (select p d).
Proof.
  intros Hok. apply Forall_forall. intros row [_ Hrow]%list_elem_of_filter. rewrite pg_scan_all in Hrow.
  apply list_elem_of_fmap in Hrow as ([i x] & -> & Hrow%elem_of_map_to_list). by eapply row_readable.
Qed.

(** C25. However the statements of the store follow each other, from empty tables, a user has at most one routine of a name, no run is left
    without its routine, and every recorded status, trigger and action can be read; so looking a routine up by its name or
    identifier, and listing the due routines, those that wait for events and the dispatched runs never fail for the
    contents of the tables. *)
Theorem routine_tables_sound `{!PgLaws} d :
  rtc store_step (mkRoutineDb ∅ ∅) d →
  tables_ok d ∧
  (∀ user name, ∃ o, get_routine_by_name user name d = Ok o) ∧
  (∀ id, ∃ o, get_routine id d = Ok o) ∧
  (∀ now, ∃ l, list_due_cron_routines now d = Ok l) ∧
  (∃ l, list_event_routines d = Ok l) ∧
  ∃ runs, list_dispatched_routine_runs d = Ok runs.
Proof.
  intros Hd. assert (tables_ok d) as Hok.
  { eapply (rtc_ind_r (fun d => tables_ok d)); [|by intros; eapply store_step_ok|exact Hd]. by split; cbn; intros. }
  split; [done|]. split_and!.
  - intros user name. unfold get_routine_by_name, query_opt.
    pose proof (select_one user name d Hok) as Hlen. pose proof (select_readable (fun row => (rw_user_id row =? user)%string && (rw_name row =? name)%string) d Hok) as Hr.
    destruct (select _ d) as [|row [|? ?]]; [by eexists| |cbn in Hlen; lia].
    apply Forall_singleton in Hr as [r ->]. by eexists.
  - intros id. unfold get_routine, query_opt. destruct (db_routines d !! id) as [row|] eqn:Hl; [|by eexists]. cbn.
    destruct (row_readable d id row Hok Hl) as [r ->]. by eexists.
  - intros now. by apply collect_rows_ok, select_readable.
  - by apply collect_rows_ok, select_readable.
  - apply collect_rows_ok, Forall_forall. intros row [_ Hrow]%list_elem_of_filter. rewrite pg_scan_all in Hrow.
    apply list_elem_of_fmap in Hrow as ([i x] & -> & Hrow%elem_of_map_to_list).
    destruct (tb_run_status d Hok _ _ Hrow) as [s Hs]. unfold row_to_routine_run. cbn [snd]. rewrite Hs, status_roundtrip. by eexists.
Qed.

(** The row of an enabled routine that a webhook request for [path] asks for. *)
Definition answers (path : string) (user : option string) (row : RoutineRow) : Prop :=
  rw_enabled row = true ∧ rw_trigger_type row = "webhook" ∧ (∀ u, user = Some u → rw_user_id row = u) ∧
  path_matches path row = true.

(** When two enabled webhook routines have the same path, within the scope of the request, the lookup fails and neither of
    them can be triggered. *)
Theorem equal_paths_refused `{!PgLaws} path user d id id' row row' :
  tables_ok d → id ≠ id' → db_routines d !! id = Some row → db_routines d !! id' = Some row' →
  answers path user row → answers path user row' →
  get_webhook_routine_by_path path user d = Err (pg_text ManyRows).
Proof.
  intros Hok Hne Hl Hl' Ha Ha'. unfold get_webhook_routine_by_path. set (p := fun row => _ && path_matches path row).
  assert (∀ i x, db_routines d !! i = Some x → answers path user x → x ∈ select p d) as Hin.
  { intros i x Hx (He & Ht & Hu & Hp). apply list_elem_of_filter. split.
    - unfold p. rewrite He, Ht, Hp. destruct user as [u|]; [|done]. by rewrite (Hu u eq_refl), !String.eqb_refl.
    - rewrite pg_scan_all. apply list_elem_of_fmap. exists (i, x). split; [done|]. by apply elem_of_map_to_list. }
  pose proof (Hin _ _ Hl Ha) as Hr. pose proof (Hin _ _ Hl' Ha') as Hr'.
  assert (row ≠ row') as Hrows.
  { intros ->. apply Hne. by rewrite <- (tb_key d Hok _ _ Hl), (tb_key d Hok _ _ Hl'). }
  destruct (select p d) as [|x [|y l]]; [by apply not_elem_of_nil in Hr| |done].
  apply list_elem_of_singleton in Hr, Hr'. congruence.
Qed.

(** The routine a webhook path leads to is the value of a row that answers the request. *)
Lemma webhook_row `{!PgLaws} path user d r :
  get_webhook_routine_by_path path user d = Ok (Some r) →
  ∃ id row, db_routines d !! id = Some row ∧ answers path user row ∧ row_to_routine row = Ok r.
Proof.
  unfold get_webhook_routine_by_path, query_opt. set (p := fun row => _ && path_matches path row).
  destruct (select p d) as [|row [|? ?]] eqn:Hs; [done| |done].
  assert (row ∈ [row]) as Hrow by set_solver. rewrite <- Hs in Hrow. apply list_elem_of_filter in Hrow as [Hp Hrow].
  rewrite pg_scan_all in Hrow. apply list_elem_of_fmap in Hrow as ([id x] & -> & Hl%elem_of_map_to_list). cbn [snd] in *.
  destruct (row_to_routine x) as [r'|] eqn:Hr; [|done]. intros [= ->]. exists id, x. split; [done|]. split; [|done].
  unfold p in Hp. rewrite !andb_true_iff, String.eqb_eq in Hp. destruct Hp as [[[He Ht] Hu] Hpath].
  split; [done|]. split; [done|]. split; [|done]. intros u ->. by apply String.eqb_eq.
Qed.
End consistency.

(** ** Witnesses *)

Module StoreDemo.

#[export] Instance cron : CronEnv := {|
  tz_known := fun tz => (tz =? "Europe/Berlin")%string;
  cron_from_str := fun _ => Ok (fun _ now => Some (now + SECOND)%Z);
  default_hash := fun _ => 0%Z
|}.

#[export] Instance pg : Pg := {|
  pg_text := fun _ => "violation";
  pg_scan := fun _ m => (map_to_list m).*2;
  pg_by_name := fun l => l;
  pg_json_text := fun _ => "?";
  pg_uuid_text := fun id => pretty id
|}.

#[export] Instance pg_laws : PgLaws.
Proof. by split. Qed.

Definition routine (id : Uuid) (user name : string) (t : Trigger) (a : RoutineAction) : Routine :=
  mkRoutine id name "d" user true t a guardrails_default notify_default None None 0 0 JNull 0 0.

Definition brief : RoutineAction := Lightweight "summarise" ["a.md"; "b.md"] 4096 true 3.
Definition daily : Routine := routine 1 "u" "daily" (Cron "0 9 * * *" (Some "Europe/Berlin")) brief.
Definition hook (id : Uuid) (name : string) : Routine := routine id "u" name (Webhook (Some "deploy") (Some "s")) brief.
Definition empty : RoutineDb := mkRoutineDb ∅ ∅.

Lemma stored_routine_read_back_witness : get_routine 1 (create_routine daily empty).2 = Ok (Some daily).
Proof.
  change (get_routine (r_id daily) (create_routine daily empty).2 = Ok (Some (as_stored daily))).
  apply stored_routine_read_back; [|reflexivity]. split; [by exists 300%Z|]. split; [done|]. split; [done|]. done.
Defined.

Definition two_hooks : RoutineDb := (create_routine (hook 3 "b") (create_routine (hook 2 "a") empty).2).2.

Lemma routine_tables_sound_witness : ∃ o, get_routine_by_name "u" "b" two_hooks = Ok o.
Proof.
  apply (routine_tables_sound two_hooks). eapply rtc_l; [apply (step_create (hook 2 "a"))|]. apply rtc_once, step_create.
Defined.

Lemma equal_paths_refused_witness : get_webhook_routine_by_path "deploy" (Some "u") two_hooks = Err (pg_text ManyRows).
Proof.
  apply (equal_paths_refused "deploy" (Some "u") two_hooks 2 3 (routine_row (hook 2 "a")) (routine_row (hook 3 "b"))).
  - eapply store_step_ok; [|apply step_create]. eapply store_step_ok; [|apply step_create]. by split; cbn; intros.
  - done.
  - reflexivity.
  - reflexivity.
  - repeat split. by intros u [= <-].
  - repeat split. by intros u [= <-].
Defined.
End StoreDemo.
