(* ===== verification/RoutineEngine.v ===== *)
(** * RoutineEngine: when routines run, and what a run may do

    [src/agent/routine_engine.rs] and the webhook handlers of [src/channels/web/handlers/webhooks.rs].  The ticker, the event
    matcher, the webhook handlers and the spawned runs share the database of routines ([RoutineStore.v]), the cache
    of event matchers, the counter of running routines and the scheduler of jobs; they are computations of [St] over
    [EngState], and the other tasks act ([rn_others]) whenever one waits or reads what they can change.

    The messages and the tool calls of a lightweight run are local to its task: they are the value [LightRun] its loop returns. *)

From Stdlib Require Import Ascii.
From stdpp Require Import pretty.
From S2P Require Import Prelude Text TextSearch Words Effects F64 JobState JobMemory ContextManager Hooks Provider Reasoning AgenticLoop.
From S2P Require Import ReplyText LeakDetector Sanitizer Validator SafetyLayer ToolParams Redaction ToolExec Messages Dispatcher Worker.
From S2P Require Import Scheduler Routine RoutineStore.

(** ** Data *)

Record RoutineConfig : Type := mkRoutineConfig {
  routines_enabled : bool;
  cron_check_interval_secs : Z;
  max_concurrent_routines : nat;
  default_cooldown_secs : Z;
  max_lightweight_tokens : Z;
  lightweight_tools_enabled : bool;
  lightweight_max_iterations : Z
}.

Definition routine_config_default : RoutineConfig := mkRoutineConfig true 15 10 300 4096 true 3.

Inductive EventMatcher : Type :=
| MessageMatcher (routine : Routine) (regex : string)
| SystemMatcher (routine : Routine).

Record TriggeredRoutine : Type := mkTriggered { tr_routine : Routine; tr_detail : string }.

Inductive SandboxReadiness : Type := SandboxAvailable | DisabledByConfig | DockerUnavailable.

#[export] Instance SandboxReadiness_eq_dec : EqDecision SandboxReadiness.
Proof. solve_decision. Defined.

Record OutgoingResponse : Type := mkOutgoing {
  og_content : string;
  og_thread_id : option string;
  og_attachments : list string;
  og_metadata : Json
}.

(** A task spawned for a run: whether the run is still to be recorded, and whose workspace it uses. *)
Record SpawnedRun : Type := mkSpawned {
  sp_routine : Routine;
  sp_run : RoutineRun;
  sp_workspace : string;
  sp_recorded : bool
}.

Record RoutineEngine : Type := mkEngine {
  re_config : RoutineConfig;
  (** the user of the engine's workspace *)
  re_workspace : string;
  re_scheduler : option Scheduler;
  re_safety : SafetyLayer;
  re_sandbox : SandboxReadiness;
  re_boot_time : Z
}.

(** [es_threads] lists what was written to the conversations of routines, [es_notes] what was sent to the channels. *)
Record EngState `{Decimal} (P : Type) : Type := mkEng {
  es_db : RoutineDb;
  es_running : nat;
  es_cache : list EventMatcher;
  es_sched : SchedState;
  es_llm : P;
  es_world : World;
  es_spawned : list SpawnedRun;
  es_threads : list (Uuid * string);
  es_notes : list OutgoingResponse;
  es_tick : nat
}.
Arguments mkEng {_ P}.
Arguments es_db {_ P}.
Arguments es_running {_ P}.
Arguments es_cache {_ P}.
Arguments es_sched {_ P}.
Arguments es_llm {_ P}.
Arguments es_world {_ P}.
Arguments es_spawned {_ P}.
Arguments es_threads {_ P}.
Arguments es_notes {_ P}.
Arguments es_tick {_ P}.

Class RoutineEnv `{Decimal} (P : Type) := {
  (** the other tasks *)
  rn_others : nat -> EngState P -> EngState P;
  rn_now : nat -> Z;
  rn_uuid : nat -> Uuid;
  (** the failure of a statement to reach the database *)
  rn_fault : nat -> option string;
  (** the table of jobs *)
  rn_job : nat -> Uuid -> Result string (option JobState);
  rn_has_job : nat -> Uuid -> bool;
  rn_failure_reason : nat -> Uuid -> Result string (option string);
  (** the conversations of routines *)
  rn_conversation : nat -> Uuid -> string -> string -> Result string Uuid;
  rn_add_message : nat -> bool;
  (** the workspace of a user: a document, the system prompt *)
  rn_read : nat -> string -> string -> option string;
  rn_system_prompt : nat -> string -> Result string string;
  (** whether the channel of notifications is open *)
  rn_send : nat -> bool;
  (** whether a pattern compiles within the size limit *)
  rn_regex_builds : string -> bool;
  rn_uuid_text : Uuid -> string;
  rn_stash : nat -> N
}.

(** A tool call that reached the code of a tool. *)
Record ToolRun `{Decimal} : Type := mkToolRun {
  tl_name : string;
  tl_tool : ToolExec.Tool (ToolCtx JobContext);
  tl_params : Json;
  tl_user : string
}.

(** *** Of the gateway *)

(** [RateLimiter] of [src/channels/web/server.rs]; seconds since the epoch. *)
Record WebRateLimiter : Type := mkWebLimiter {
  wl_remaining : Z;
  wl_window_start : Z;
  wl_max_requests : Z;
  wl_window_secs : Z
}.

Definition web_limiter_new (now max_requests window_secs : Z) : WebRateLimiter :=
  mkWebLimiter max_requests now max_requests window_secs.

(** One request at a time; [max_requests - 1] is a [u64]. *)
Definition web_limiter_check (now : Z) (l : WebRateLimiter) : bool * WebRateLimiter :=
  if (wl_window_secs l <=? Z.max 0 (now - wl_window_start l))%Z then
    (true, mkWebLimiter (as_u64_bits (wl_max_requests l - 1)) now (wl_max_requests l) (wl_window_secs l))
  else if (wl_remaining l =? 0)%Z then (false, l)
  else (true, mkWebLimiter (wl_remaining l - 1) (wl_window_start l) (wl_max_requests l) (wl_window_secs l)).

(** Which services the gateway has; [gw_tenants]: it serves several users. *)
Record Gateway : Type := mkGateway { gw_store : bool; gw_engine : bool; gw_tenants : bool }.

(** The local state of a lightweight run with tools. *)
Record LightRun `{Decimal} : Type := mkLight {
  lr_messages : list ChatMessage;
  lr_input : Z;
  lr_output : Z;
  lr_calls : nat;
  lr_tools : list ToolRun
}.

(** ** Text *)

Definition engine_truncate (s : string) (max : nat) : string :=
  if decide (String.length s ≤ max) then s else cat [str_to (floor_char_boundary s max) s; "..."].

Definition name_char (c : ascii) : ascii :=
  if Provider.is_alphanumeric c || Ascii.eqb c "-" || Ascii.eqb c "_" then c else "_"%char.

(** A character is kept when it is one of the allowed bytes and becomes one underscore otherwise: the bytes that continue
    a character are dropped. *)
Fixpoint sanitize_routine_name (name : string) : string :=
  match name with
  | EmptyString => ""
  | String c r => if starts_char c then String (name_char c) (sanitize_routine_name r) else sanitize_routine_name r
  end.

Fixpoint drop_newlines (s : string) : string :=
  match s with
  | EmptyString => ""
  | String c r => if Ascii.eqb c nl || Ascii.eqb c cr then drop_newlines r else String c (drop_newlines r)
  end.

Definition sanitize_prompt_field (value : string) : string :=
  string_map (fun c => if Ascii.eqb c "`" then "'"%char else c) (take_chars 128 (drop_newlines value)).

Definition build_lightweight_prompt (prompt : string) (context_parts : list string) (state_content : option string)
    (notify : NotifyConfig) (use_tools : bool) : string :=
  cat [prompt;
    (if on_attention notify then
       cat [nl2; "---"; nl2; "# Delivery"; nl2;
         "If you reply with anything other than ROUTINE_OK, the host will deliver your reply as the routine notification. Return the message exactly as it should be sent.";
         nl_str;
         match nc_channel notify with
         | Some c => cat ["The configured delivery channel for this routine is `"; sanitize_prompt_field c; "`."; nl_str]
         | None => ""
         end;
         match nc_user notify with
         | Some u => cat ["The configured delivery target for this routine is `"; sanitize_prompt_field u; "`."; nl_str]
         | None => ""
         end;
         "Do not claim you lack messaging integrations or ask the user to set one up when a plain reply is sufficient."; nl_str]
     else "");
    (if use_tools then ""
     else cat [nl_str; "Tools are disabled for this routine run. Do not ask to call tools or describe tool limitations unless they prevent a necessary external action."; nl_str]);
    match context_parts with
    | [] => ""
    | _ => cat [nl2; "---"; nl2; "# Context"; nl2; str_join nl2 context_parts]
    end;
    match state_content with
    | Some st => cat [nl2; "---"; nl2; "# Previous State"; nl2; st]
    | None => ""
    end;
    nl2; "---"; nl2; "If nothing needs attention, reply EXACTLY with: ROUTINE_OK"; nl_str;
    "If something needs attention, provide a concise summary."].

(** Whether the filters of an event routine let a message through. *)
Definition routine_matches_message (r : Routine) (m : IncomingMessage) : bool :=
  match r_trigger r with
  | Event channel _ =>
      (r_user_id r =? im_user_id m)%string &&
      match channel with Some ch => eq_ignore_ascii_case ch (im_channel m) | None => true end
  | _ => false
  end.

(** The filters of a system event routine against the payload. *)
Definition filters_match (filters : gmap string string) (payload : Json) : bool :=
  forallb (fun kv =>
    match json_get kv.1 payload ≫= json_value_as_filter_string with
    | Some actual => eq_ignore_ascii_case actual kv.2
    | None => false
    end) (map_to_list filters).

(** [handle_text_response]; token counts are [u32] and reported as [i32]. *)
Definition handle_text_response (content : string) (finish : FinishReason) (input output : Z)
    : Result RoutineError (RunStatus * option string * option Z) :=
  let content := trim content in
  let tokens := Some (as_i32 (as_u32 (input + output))) in
  if str_is_empty content then
    match finish with Length => Err TruncatedReply | _ => Err EmptyReply end
  else if (content =? "ROUTINE_OK")%string then Ok (RunOk, None, tokens)
  else Ok (RunAttention, Some content, tokens).

Definition MAX_TOOL_LOOP_MESSAGES : nat := 32.

Definition snapshot_messages_for_tool_iteration (ms : list ChatMessage) : list ChatMessage :=
  if decide (length ms ≤ MAX_TOOL_LOOP_MESSAGES) then ms
  else match ms with
  | first :: _ =>
      if decide (role first = System) then first :: drop (Nat.max (length ms - (MAX_TOOL_LOOP_MESSAGES - 1)) 1) ms
      else drop (length ms - MAX_TOOL_LOOP_MESSAGES) ms
  | [] => []
  end.

Definition MAX_TOOL_OUTPUT_CHARS : nat := 8192.

Definition cut_output (content : string) : string :=
  if decide (MAX_TOOL_OUTPUT_CHARS < String.length content) then
    cat [str_to (floor_char_boundary content MAX_TOOL_OUTPUT_CHARS) content; nl_str; "... [output truncated to 8192 chars]"]
  else content.

Definition run_message (trigger : string) (status : RunStatus) (summary : option string) : string :=
  match summary with
  | Some s => cat ["["; trigger; "] "; status_text status; ": "; s]
  | None => cat ["["; trigger; "] "; status_text status]
  end.

Definition should_notify (notify : NotifyConfig) (status : RunStatus) : bool :=
  match status with
  | RunOk => on_success notify
  | RunAttention => on_attention notify
  | RunFailed => on_failure notify
  | RunRunning => false
  end.

Definition status_icon (status : RunStatus) : string :=
  match status with
  | RunOk => bytes [226; 156; 133]
  | RunAttention => bytes [240; 159; 148; 148]
  | RunFailed => bytes [226; 157; 140]
  | RunRunning => bytes [226; 143; 179]
  end.

Definition notification (notify : NotifyConfig) (owner name : string) (status : RunStatus) (summary thread : option string)
    : OutgoingResponse :=
  mkOutgoing
    (cat ([status_icon status; " *Routine '"; name; "'*: "; status_text status] ++
          match summary with Some s => [nl2; s] | None => [] end))
    thread []
    (JObject [("source", JString "routine"); ("routine_name", JString name); ("status", JString (status_text status));
              ("owner_id", JString owner); ("notify_user", opt_json (nc_user notify)); ("notify_channel", opt_json (nc_channel notify))]).

Definition full_job_description (name desc : string) : string :=
  cat ["IMPORTANT: You are executing inside routine "; dq_str; name; dq_str;
       ". The routine and its schedule are already configured. Tools and credentials are already set up. Do NOT create routines, jobs, or try to discover/install/authenticate tools. Execute the task directly.";
       nl2; desc].

Definition full_job_metadata (r : Routine) (max_iterations : Z) : Json :=
  JObject ([("max_iterations", num_json max_iterations); ("owner_id", JString (r_user_id r))] ++
           match nc_channel (r_notify r) with Some c => [("notify_channel", JString c)] | None => [] end ++
           [("notify_user", opt_json (nc_user (r_notify r)))]).

(** The end of a run that a settled job stands for. *)
Definition map_job_state (st : JobState) : RunStatus :=
  match st with Failed | Cancelled => RunFailed | _ => RunOk end.

Definition MAX_POLLS : nat := 24 * 60 * 60 / 5.
Definition POLL_INTERVAL : Z := 5 * SECOND.

(** ** The engine *)

Section engine.
  Context `{Decimal} `{!ChatEnv JobContext} `{!SchedEnv} `{!WorkerEnv} `{RegexEngine} `{MultiMatcher}.
  Context {P : Type} `{!LlmProvider P} `{!RoutineEnv P} `{CronEnv} `{Pg}.
  Variable en : RoutineEngine.
  Implicit Types (s : EngState P) (r : Routine).

Abbreviation Eng := (St (EngState P)).

Definition with_db (d : RoutineDb) s : EngState P :=
  mkEng d (es_running s) (es_cache s) (es_sched s) (es_llm s) (es_world s) (es_spawned s) (es_threads s) (es_notes s) (es_tick s).
Definition with_running (n : nat) s : EngState P :=
  mkEng (es_db s) n (es_cache s) (es_sched s) (es_llm s) (es_world s) (es_spawned s) (es_threads s) (es_notes s) (es_tick s).
Definition with_cache (l : list EventMatcher) s : EngState P :=
  mkEng (es_db s) (es_running s) l (es_sched s) (es_llm s) (es_world s) (es_spawned s) (es_threads s) (es_notes s) (es_tick s).
Definition with_sched (x : SchedState) s : EngState P :=
  mkEng (es_db s) (es_running s) (es_cache s) x (es_llm s) (es_world s) (es_spawned s) (es_threads s) (es_notes s) (es_tick s).
Definition with_llm (p : P) (w : World) s : EngState P :=
  mkEng (es_db s) (es_running s) (es_cache s) (es_sched s) p w (es_spawned s) (es_threads s) (es_notes s) (es_tick s).
Definition with_spawned (l : list SpawnedRun) s : EngState P :=
  mkEng (es_db s) (es_running s) (es_cache s) (es_sched s) (es_llm s) (es_world s) l (es_threads s) (es_notes s) (es_tick s).
Definition with_threads (l : list (Uuid * string)) s : EngState P :=
  mkEng (es_db s) (es_running s) (es_cache s) (es_sched s) (es_llm s) (es_world s) (es_spawned s) l (es_notes s) (es_tick s).
Definition with_notes (l : list OutgoingResponse) s : EngState P :=
  mkEng (es_db s) (es_running s) (es_cache s) (es_sched s) (es_llm s) (es_world s) (es_spawned s) (es_threads s) l (es_tick s).
Definition with_etick (n : nat) s : EngState P :=
  mkEng (es_db s) (es_running s) (es_cache s) (es_sched s) (es_llm s) (es_world s) (es_spawned s) (es_threads s) (es_notes s) n.

(** A new engine beside the running scheduler. *)
Definition engine_new (d : RoutineDb) (x : SchedState) (p : P) (w : World) : EngState P := mkEng d 0 [] x p w [] [] [] 0.

(** The other tasks have run. *)
Definition pass : Eng unit := modify (fun s => with_etick (S (es_tick s)) (rn_others (es_tick s) s)).

Definition clock : Eng Z := _ ← pass; gets (fun s => rn_now (es_tick s)).

(** A statement; it fails when the database can not be reached. *)
Definition db_run {A} (f : Z -> nat -> RoutineDb -> Result string A * RoutineDb) : Eng (Result string A) :=
  _ ← pass;
  act (fun s => match rn_fault (es_tick s) with
                | Some e => (Err e, s)
                | None => let '(res, d) := f (rn_now (es_tick s)) (es_tick s) (es_db s) in (res, with_db d s)
                end).
Definition db_read {A} (f : Z -> RoutineDb -> Result string A) : Eng (Result string A) :=
  db_run (fun now _ d => (f now d, d)).
Definition db_write (f : Z -> RoutineDb -> RoutineDb) : Eng (Result string unit) :=
  db_run (fun now _ d => (Ok tt, f now d)).

(** *** Guardrails *)

(** [chrono::Duration] holds at most [i64::MAX] milliseconds. *)
Definition cooldown_of r : Z :=
  let c := cooldown (r_guardrails r) in
  if (c / 10 ^ 6 <=? 2 ^ 63 - 1)%Z then c else (300 * SECOND)%Z.

Definition cooled (now : Z) r : bool :=
  match r_last_run_at r with Some last => negb (now - last <? cooldown_of r)%Z | None => true end.

Definition check_cooldown r : Eng bool := now ← clock; mret (cooled now r).

Definition check_concurrent r : Eng bool :=
  c ← db_read (fun _ d => Ok (count_running_routine_runs (r_id r) d));
  mret match c with Ok n => (n <? max_concurrent (r_guardrails r))%Z | Err _ => false end.

Definition at_capacity : Eng bool :=
  _ ← pass; gets (fun s => max_concurrent_routines (re_config en) <=? es_running s)%nat.

Definition batch_concurrent_counts (ids : list Uuid) : Eng (option (gmap Uuid Z)) :=
  c ← db_read (fun _ d => Ok (count_running_routine_runs_batch ids d));
  mret match c with Ok m => Some m | Err _ => None end.

(** *** Spawning *)

Definition new_run (id : Uuid) (now : Z) r (trigger : string) (detail : option string) : RoutineRun :=
  mkRun id (r_id r) trigger detail now None RunRunning None None None now.

Definition spawn_fire r (trigger : string) (detail : option string) : Eng unit :=
  now ← clock;
  modify (fun s => with_spawned
    (es_spawned s ++ [mkSpawned r (new_run (rn_uuid (es_tick s)) now r trigger detail) (r_user_id r) false]) s).

(** *** Events *)

Definition matcher_of r : option EventMatcher :=
  match r_trigger r with
  | Event _ pattern => if rn_regex_builds pattern then Some (MessageMatcher r pattern) else None
  | SystemEvent _ _ _ => Some (SystemMatcher r)
  | _ => None
  end.

Definition refresh_event_cache : Eng unit :=
  l ← db_read (fun _ => list_event_routines);
  match l with
  | Ok routines => _ ← pass; modify (with_cache (omap matcher_of routines))
  | Err _ => mret tt
  end.

Definition message_routine (m : EventMatcher) : option Routine :=
  match m with MessageMatcher r _ => Some r | SystemMatcher _ => None end.
Definition system_routine (m : EventMatcher) : option Routine :=
  match m with SystemMatcher r => Some r | MessageMatcher _ _ => None end.

(** The guardrails, with the counts of the batch. *)
Definition guardrails_allow (counts : gmap Uuid Z) r : Eng bool :=
  cool ← check_cooldown r;
  if negb cool then mret false
  else if (max_concurrent (r_guardrails r) <=? default 0 (counts !! r_id r))%Z then mret false
  else full ← at_capacity; mret (negb full).

Fixpoint match_message (counts : gmap Uuid Z) (message : IncomingMessage) (content : string) (cache : list EventMatcher)
    : Eng (list TriggeredRoutine) :=
  match cache with
  | [] => mret []
  | SystemMatcher _ :: cache => match_message counts message content cache
  | MessageMatcher r re :: cache =>
      if negb (routine_matches_message r message) then match_message counts message content cache
      else if negb (is_match re content) then match_message counts message content cache
      else
        ok ← guardrails_allow counts r;
        rest ← match_message counts message content cache;
        mret (if (ok : bool) then mkTriggered r (engine_truncate content 200) :: rest else rest)
  end.

Definition matching_event_triggers (message : IncomingMessage) (content : string) : Eng (list TriggeredRoutine) :=
  _ ← pass;
  cache ← gets es_cache;
  match omap message_routine cache with
  | [] => mret []
  | rs =>
      counts ← batch_concurrent_counts (r_id <$> rs);
      match counts with
      | Some counts => match_message counts message content cache
      | None => mret []
      end
  end.

Definition check_event_triggers (message : IncomingMessage) (content : string) : Eng nat :=
  triggered ← matching_event_triggers message content;
  _ ← st_iter (fun t => spawn_fire (tr_routine t) "event" (Some (tr_detail t))) triggered;
  mret (length triggered).

(** The tasks are awaited: they run among the others. *)
Definition check_event_triggers_and_wait (message : IncomingMessage) (content : string) : Eng nat :=
  triggered ← matching_event_triggers message content;
  _ ← st_iter (fun t => spawn_fire (tr_routine t) "event" (Some (tr_detail t))) triggered;
  _ ← st_iter (fun _ => pass) triggered;
  mret (length triggered).

(** Whether a system event is one the routine waits for. *)
Definition system_event_matches r (source event_type : string) (payload : Json) (user : option string) : bool :=
  match r_trigger r with
  | SystemEvent source' event' filters =>
      eq_ignore_ascii_case source' source && eq_ignore_ascii_case event' event_type &&
      match user with Some u => (r_user_id r =? u)%string | None => true end &&
      filters_match filters payload
  | _ => false
  end.

Fixpoint fire_system (counts : gmap Uuid Z) (source event_type : string) (payload : Json) (user : option string)
    (cache : list EventMatcher) : Eng nat :=
  match cache with
  | [] => mret 0%nat
  | MessageMatcher _ _ :: cache => fire_system counts source event_type payload user cache
  | SystemMatcher r :: cache =>
      if negb (system_event_matches r source event_type payload user) then fire_system counts source event_type payload user cache
      else
        ok ← guardrails_allow counts r;
        if (ok : bool) then
          _ ← spawn_fire r "system_event" (Some (engine_truncate (cat [source; ":"; event_type]) 200));
          n ← fire_system counts source event_type payload user cache;
          mret (S n)
        else fire_system counts source event_type payload user cache
  end.

Definition emit_system_event (source event_type : string) (payload : Json) (user : option string) : Eng nat :=
  _ ← pass;
  cache ← gets es_cache;
  match omap system_routine cache with
  | [] => mret 0%nat
  | rs =>
      counts ← batch_concurrent_counts (r_id <$> rs);
      match counts with
      | Some counts => fire_system counts source event_type payload user cache
      | None => mret 0%nat
      end
  end.

(** *** The ticker *)

Definition cron_detail r : option string := match r_trigger r with Cron schedule _ => Some schedule | _ => None end.

Fixpoint fire_due (l : list Routine) : Eng unit :=
  match l with
  | [] => mret tt
  | r :: l =>
      full ← at_capacity;
      if (full : bool) then mret tt
      else
        cool ← check_cooldown r;
        if negb cool then fire_due l
        else
          ok ← check_concurrent r;
          if negb ok then fire_due l
          else _ ← spawn_fire r "cron" (cron_detail r); fire_due l
  end.

Definition check_cron_triggers : Eng unit :=
  l ← db_read list_due_cron_routines;
  match l with Ok routines => fire_due routines | Err _ => mret tt end.

(** *** The end of a run *)

Definition send_notification (notify : NotifyConfig) (owner name : string) (status : RunStatus) (summary thread : option string)
    : Eng unit :=
  if should_notify notify status then
    _ ← pass;
    modify (fun s => if rn_send (es_tick s)
                     then with_notes (es_notes s ++ [notification notify owner name status summary thread]) s else s)
  else mret tt.

(** The result goes to the conversation of the routine; the identifier of the conversation is the result. *)
Definition record_result r (text : string) : Eng (option string) :=
  _ ← pass;
  c ← gets (fun s => rn_conversation (es_tick s) (r_id r) (r_name r) (r_user_id r));
  match c with
  | Ok conv =>
      _ ← pass;
      _ ← modify (fun s => if rn_add_message (es_tick s) then with_threads (es_threads s ++ [(conv, text)]) s else s);
      mret (Some (rn_uuid_text conv))
  | Err _ => mret None
  end.

Definition next_fire_of r (now : Z) : option Z :=
  match r_trigger r with
  | Cron schedule tz => match next_cron_fire schedule tz now with Ok o => o | Err _ => None end
  | _ => None
  end.

(** Runtime columns after a run, from the routine as the run knows it; counters are [u64] and [u32]. *)
Definition write_runtime r (status : RunStatus) : Eng (Result string unit) :=
  now ← clock;
  later ← clock;
  let next := next_fire_of r later in
  let failures := if decide (status = RunFailed) then as_u32 (r_consecutive_failures r + 1) else 0%Z in
  db_write (fun t => update_routine_runtime t (r_id r) now next (as_u64_bits (r_run_count r + 1)) failures (r_state r)).

Definition complete_dispatched_run (run : RoutineRun) (status : RunStatus) (summary : string) : Eng unit :=
  c ← db_write (fun now => complete_routine_run now (run_id run) status (Some summary) None);
  match c with
  | Err _ => mret tt
  | Ok _ =>
      o ← db_read (fun _ => get_routine (run_routine_id run));
      match o with
      | Ok (Some r) =>
          _ ← write_runtime r status;
          thread ← record_result r (cat ["[dispatched] "; status_text status; ": "; summary]);
          send_notification (r_notify r) (r_user_id r) (r_name r) status (Some summary) thread
      | _ => mret tt
      end
  end.

Definition final_status (st : JobState) : option RunStatus :=
  match st with
  | Completed | Submitted | Accepted => Some RunOk
  | Failed | Cancelled => Some RunFailed
  | _ => None
  end.

Definition job_summary (job : Uuid) (st : JobState) (status : RunStatus) : Eng string :=
  if decide (status = RunFailed) then
    _ ← pass;
    reason ← gets (fun s => rn_failure_reason (es_tick s) job);
    mret match reason with
         | Ok (Some why) => cat ["Job "; rn_uuid_text job; " failed: "; why]
         | _ => cat ["Job "; rn_uuid_text job; " "; job_state_display st]
         end
  else mret (cat ["Job "; rn_uuid_text job; " completed successfully"]).

Definition sync_run (run : RoutineRun) : Eng unit :=
  match run_job_id run with
  | None => mret tt
  | Some job =>
      _ ← pass;
      found ← gets (fun s => rn_job (es_tick s) job);
      match found with
      | Err _ => mret tt
      | Ok None => complete_dispatched_run run RunFailed (cat ["Linked job "; rn_uuid_text job; " not found (orphaned)"])
      | Ok (Some st) =>
          match final_status st with
          | None => mret tt
          | Some status =>
              summary ← job_summary job st status;
              complete_dispatched_run run status summary
          end
      end
  end.

Definition sync_dispatched_runs : Eng unit :=
  l ← db_read (fun _ => list_dispatched_routine_runs);
  match l with
  | Err _ => mret tt
  | Ok runs => st_iter sync_run (base.filter (fun run => (run_started_at run < re_boot_time en)%Z) runs)
  end.

(** *** Full jobs *)

(** [FullJobWatcher::wait_for_completion]; [left] polls are left, the first without a pause. *)
Fixpoint poll_job (left : nat) (job : Uuid) : Eng RunStatus :=
  _ ← pass;
  found ← gets (fun s => rn_job (es_tick s) job);
  match found with
  | Ok (Some st) =>
      if negb (is_parallel_blocking st) then mret (map_job_state st)
      else match left with
      | S (S _ as left) =>
          _ ← modify (fun s => with_llm (es_llm s) (sleep POLL_INTERVAL (es_world s)) s);
          poll_job left job
      | _ => mret RunFailed
      end
  | _ => mret RunFailed
  end.

Definition wait_for_completion (job : Uuid) : Eng (RunStatus * option string) :=
  status ← poll_job MAX_POLLS job;
  mret (status, Some (cat ["Job "; rn_uuid_text job; " finished ("; status_text status; ")"])).

Abbreviation Execution := (Result RoutineError (RunStatus * option string * option Z)).

Definition NO_DOCKER : string :=
  "Sandbox is enabled but Docker is not available. Install Docker or set SANDBOX_ENABLED=false.".

Definition execute_full_job r (run : RoutineRun) (title description : string) (max_iterations : Z) : Eng Execution :=
  if decide (re_sandbox en = DockerUnavailable) then mret (Err (JobDispatchFailed NO_DOCKER))
  else match re_scheduler en with
  | None => mret (Err (JobDispatchFailed "scheduler not available"))
  | Some sc =>
      _ ← pass;
      dispatched ← act (fun s =>
        let '(res, x) := dispatch_job sc (r_user_id r) title (full_job_description (r_name r) description)
                           (Some (full_job_metadata r max_iterations)) (es_sched s) in
        (res, with_sched x s));
      match dispatched with
      | Err e => mret (Err (JobDispatchFailed ("failed to dispatch job: " +:+ job_error_text e)))
      | Ok job =>
          linked ← db_run (fun _ n => link_routine_run_to_job (run_id run) job (rn_has_job n));
          match linked with
          | Err e => mret (Err (DatabaseFailed ("failed to link run to job: " +:+ e)))
          | Ok _ =>
              w ← wait_for_completion job;
              mret (Ok (w.1, w.2, None))
          end
      end
  end.

(** *** Lightweight runs *)

(** [ws] is the user whose workspace is read. *)
Fixpoint load_context (ws : string) (paths : list string) : Eng (list string) :=
  match paths with
  | [] => mret []
  | path :: paths =>
      _ ← pass;
      doc ← gets (fun s => rn_read (es_tick s) ws path);
      rest ← load_context ws paths;
      mret match doc with Some text => cat ["## "; path; nl2; text] :: rest | None => rest end
  end.

Definition first_messages (system_prompt full_prompt : string) : list ChatMessage :=
  if str_is_empty system_prompt then [user full_prompt] else [system system_prompt; user full_prompt].

Definition ask_text (ms : list ChatMessage) (max_tokens : Z) : Eng (Result LlmError CompletionResponse) :=
  _ ← pass;
  act (fun s =>
    let '(res, p, w) := complete (mkRequest ms None (Some max_tokens) (Some f32_0_3) None ∅) (es_llm s) (es_world s) in
    (res, with_llm p w s)).

Definition ask_with_tools (ms : list ChatMessage) (defs : list ToolDefinition) (max_tokens : Z)
    : Eng (Result LlmError ToolCompletionResponse) :=
  _ ← pass;
  act (fun s =>
    let '(res, p, w) := complete_with_tools (mkToolRequest ms defs None (Some max_tokens) (Some f32_0_3) None None ∅)
                          (es_llm s) (es_world s) in
    (res, with_llm p w s)).

Definition execute_lightweight_no_tools (system_prompt full_prompt : string) (max_tokens : Z) : Eng Execution :=
  res ← ask_text (first_messages system_prompt full_prompt) max_tokens;
  mret match res with
       | Err e => Err (LlmFailed (we_llm_text e))
       | Ok rs => handle_text_response (rs_content rs) (rs_finish_reason rs) (rs_input_tokens rs) (rs_output_tokens rs)
       end.

(** *** Tools of a lightweight run *)

Definition light_context r : Eng JobContext :=
  now ← clock;
  gets (fun s => with_user (rn_uuid (es_tick s)) now (rn_stash (es_tick s)) (r_user_id r) "Lightweight Routine" (r_name r)).

(** The result of a call, and the call if it reached the code of the tool. *)
Definition execute_routine_tool (c : JobContext) (allowed : gset string) (tc : ToolCall)
    : Eng (Result string string * option ToolRun) :=
  if negb (bool_decide (tc_name tc ∈ allowed)) then
    mret (Err (autonomous_unavailable_message (tc_name tc) (user_id c)), None)
  else
    _ ← pass;
    found ← gets (fun s => registry_get (tc_name tc) (sd_tools (es_sched s)));
    mret match found with
    | None => (Err (cat ["Tool '"; tc_name tc; "' not found"]), None)
    | Some tool =>
        let params := prepare_tool_params ce_lower parse_value ce_print_f64 tool (tc_arguments tc) in
        let validation := validate_tool_params ce_lower (sl_validator (re_safety en)) params in
        if negb (is_valid validation) then (Err ("Invalid tool parameters: " +:+ validation_details validation), None)
        else
          (match tool_execute tool params (c, ∅) with
           | None => Err ("Timeout after " +:+ ce_duration (execution_timeout tool))
           | Some (Err e) => Err e
           | Some (Ok v) => Ok (ce_to_string v)
           end, Some (mkToolRun _ (tc_name tc) tool params (user_id c)))
    end.

(** What the model is shown of a result. *)
Definition shown_result (nm : string) (res : Result string string) : string :=
  let text := match res with Ok out => out | Err e => cat ["Tool '"; nm; "' failed: "; e] end in
  cut_output (wrap_for_llm nm (so_content (sanitize_tool_output ce_lower (re_safety en) nm text))).

Fixpoint run_calls (c : JobContext) (allowed : gset string) (calls : list ToolCall) (run : LightRun) : Eng LightRun :=
  match calls with
  | [] => mret run
  | tc :: calls =>
      out ← execute_routine_tool c allowed tc;
      run_calls c allowed calls
        (mkLight _ (lr_messages run ++ [tool_result (tc_id tc) (tc_name tc) (shown_result (tc_name tc) out.1)])
           (lr_input run) (lr_output run) (lr_calls run) (lr_tools run ++ option_list out.2))
  end.

(** One more call of the model. *)
Definition spend (input output : Z) (run : LightRun) : LightRun :=
  mkLight _ (lr_messages run) (as_u32 (lr_input run + input)) (as_u32 (lr_output run + output)) (S (lr_calls run)) (lr_tools run).

Definition push (m : ChatMessage) (run : LightRun) : LightRun :=
  mkLight _ (lr_messages run ++ [m]) (lr_input run) (lr_output run) (lr_calls run) (lr_tools run).

(** The last round: no tools. *)
Definition final_round (max_tokens : Z) (run : LightRun) : Eng (Execution * LightRun) :=
  res ← ask_text (ensure_ends_with_user_message (lr_messages run)) max_tokens;
  mret match res with
  | Err e => (Err (LlmFailed (we_llm_text e)), spend 0 0 run)
  | Ok rs =>
      let run := spend (rs_input_tokens rs) (rs_output_tokens rs) run in
      (handle_text_response (rs_content rs) (rs_finish_reason rs) (lr_input run) (lr_output run), run)
  end.

(** [rounds] more rounds with tools before the last one. *)
Fixpoint light_loop (c : JobContext) (allowed : gset string) (max_tokens : Z) (rounds : nat) (run : LightRun)
    : Eng (Execution * LightRun) :=
  match rounds with
  | O => final_round max_tokens run
  | S rounds =>
      _ ← pass;
      defs ← gets (fun s => base.filter (fun d => td_name d ∈ allowed) (tool_definitions ce_values (sd_tools (es_sched s))));
      res ← ask_with_tools (snapshot_messages_for_tool_iteration (lr_messages run)) defs max_tokens;
      match res with
      | Err e => mret (Err (LlmFailed (we_llm_text e)), spend 0 0 run)
      | Ok rs =>
          let run := spend (trs_input_tokens rs) (trs_output_tokens rs) run in
          match trs_tool_calls rs with
          | [] =>
              mret (handle_text_response (default "" (trs_content rs)) (trs_finish_reason rs) (lr_input run) (lr_output run), run)
          | calls =>
              run ← run_calls c allowed calls (push (assistant_with_tool_calls (trs_content rs) calls) run);
              light_loop c allowed max_tokens rounds run
          end
      end
  end.

Definition max_rounds (max_tool_rounds : Z) : Z :=
  Z.min (Z.min max_tool_rounds (lightweight_max_iterations (re_config en))) 5.

Definition execute_lightweight_with_tools r (system_prompt full_prompt : string) (max_tokens max_tool_rounds : Z)
    : Eng (Execution * LightRun) :=
  c ← light_context r;
  _ ← pass;
  allowed ← gets (fun s => autonomous_allowed_tool_names (sd_tools (es_sched s)) (sd_active (es_sched s)) (r_user_id r));
  light_loop c allowed max_tokens (Z.to_nat (max_rounds max_tool_rounds - 1))
    (mkLight _ (first_messages system_prompt full_prompt) 0 0 0 []).

(** [context_length / 2], at least the asked number. *)
Definition effective_tokens (meta : Result LlmError ModelMetadata) (asked : Z) : Z :=
  match meta with
  | Ok m => match md_context_length m with Some n => Z.max (n / 2) asked | None => asked end
  | Err _ => asked
  end.

(** The prompts of a lightweight run. *)
Definition light_prompts r (ws prompt : string) (context_paths : list string) (use_tools : bool) : Eng (string * string) :=
  parts ← load_context ws context_paths;
  _ ← pass;
  state_content ← gets (fun s => rn_read (es_tick s) ws (cat ["routines/"; sanitize_routine_name (r_name r); "/state.md"]));
  let full_prompt := build_lightweight_prompt prompt parts state_content (r_notify r) use_tools in
  _ ← pass;
  sys ← gets (fun s => rn_system_prompt (es_tick s) ws);
  mret (match sys with Ok p => p | Err _ => "" end, full_prompt).

Definition ask_metadata : Eng (Result LlmError ModelMetadata) :=
  _ ← pass; act (fun s => let '(res, p, w) := model_metadata (es_llm s) (es_world s) in (res, with_llm p w s)).

Definition execute_lightweight r (ws prompt : string) (context_paths : list string) (max_tokens : Z) (use_tools : bool)
    (max_tool_rounds : Z) : Eng Execution :=
  prompts ← light_prompts r ws prompt context_paths use_tools;
  meta ← ask_metadata;
  let tokens := effective_tokens meta max_tokens in
  if use_tools && lightweight_tools_enabled (re_config en) then
    out ← execute_lightweight_with_tools r prompts.1 prompts.2 tokens max_tool_rounds; mret out.1
  else execute_lightweight_no_tools prompts.1 prompts.2 tokens.

(** *** A run *)

Definition execute_action r (run : RoutineRun) (ws : string) : Eng Execution :=
  match r_action r with
  | Lightweight prompt paths max_tokens use_tools rounds => execute_lightweight r ws prompt paths max_tokens use_tools rounds
  | FullJob title description max_iterations => execute_full_job r run title description max_iterations
  end.

(** The end of [execute_routine]. *)
Definition finish_run r (run : RoutineRun) (status : RunStatus) (summary : option string) (tokens : option Z) : Eng unit :=
  _ ← db_write (fun now => complete_routine_run now (run_id run) status summary tokens);
  _ ← write_runtime r status;
  thread ← record_result r (run_message (run_trigger_type run) status summary);
  send_notification (r_notify r) (r_user_id r) (r_name r) status summary thread.

Definition execute_routine r (run : RoutineRun) (ws : string) : Eng unit :=
  _ ← pass;
  _ ← modify (fun s => with_running (S (es_running s)) s);
  res ← execute_action r run ws;
  _ ← pass;
  _ ← modify (fun s => with_running (es_running s - 1) s);
  match res with
  | Ok (status, summary, tokens) => finish_run r run status summary tokens
  | Err e => finish_run r run RunFailed (Some (routine_error_text rn_uuid_text e)) None
  end.

(** The body of a spawned task: the run is recorded first where its caller has not done so. *)
Definition run_spawned (t : SpawnedRun) : Eng unit :=
  if sp_recorded t then execute_routine (sp_routine t) (sp_run t) (sp_workspace t)
  else
    c ← db_run (fun now n => create_routine_run now (sp_run t) (rn_has_job n));
    match c with
    | Err _ => mret tt
    | Ok _ => execute_routine (sp_routine t) (sp_run t) (sp_workspace t)
    end.

(** *** Fired by a request *)

(** The run is recorded and its task spawned. *)
Definition start_run r (trigger : string) (detail : option string) (ws : string) : Eng (Result RoutineError Uuid) :=
  now ← clock;
  id ← gets (fun s => rn_uuid (es_tick s));
  let run := new_run id now r trigger detail in
  c ← db_run (fun t n => create_routine_run t run (rn_has_job n));
  match c with
  | Err e => mret (Err (DatabaseFailed ("failed to create run record: " +:+ e)))
  | Ok _ =>
      _ ← modify (fun s => with_spawned (es_spawned s ++ [mkSpawned r run ws true]) s);
      mret (Ok id)
  end.

Definition load_routine (id : Uuid) : Eng (Result RoutineError Routine) :=
  o ← db_read (fun _ => get_routine id);
  mret match o with
       | Err e => Err (DatabaseFailed e)
       | Ok None => Err (RoutineNotFound id)
       | Ok (Some r) => Ok r
       end.

Definition fire_manual (id : Uuid) (user : option string) : Eng (Result RoutineError Uuid) :=
  r ←? load_routine id;
  if match user with Some u => negb (r_user_id r =? u)%string | None => false end then mret (Err (NotAuthorized id))
  else if negb (r_enabled r) then mret (Err (RoutineDisabled (r_name r)))
  else
    ok ← check_concurrent r;
    if negb ok then mret (Err (MaxConcurrent (r_name r)))
    else start_run r "manual" None (r_user_id r).

Definition fire_webhook (id : Uuid) (path : string) : Eng (Result RoutineError Uuid) :=
  r ←? load_routine id;
  if negb (r_enabled r) then mret (Err (RoutineDisabled (r_name r)))
  else
    cool ← check_cooldown r;
    if negb cool then mret (Err (InCooldown (r_name r)))
    else
      ok ← check_concurrent r;
      if negb ok then mret (Err (MaxConcurrent (r_name r)))
      else
        full ← at_capacity;
        if (full : bool) then mret (Err (MaxConcurrent (r_name r)))
        else start_run r "webhook" (Some path) (re_workspace en).

(** *** Webhooks *)

Abbreviation Response := (Result (Z * string) Json).

Definition validate_webhook_secret (trigger : Trigger) (provided : string) : Result (Z * string) unit :=
  match trigger with
  | Webhook _ (Some expected) =>
      if (provided =? expected)%string then Ok tt else Err (401%Z, "Invalid webhook secret")
  | _ => Err (403%Z, "Webhook secret not configured for this routine. Set a secret with: ironclaw routine update <id> --webhook-secret <secret>")
  end.

Definition webhook_status (e : RoutineError) : Z :=
  match e with
  | RoutineNotFound _ => 404
  | RoutineDisabled _ | InCooldown _ | MaxConcurrent _ => 409
  | _ => 500
  end%Z.

Definition triggered_json (r : Routine) (run : Uuid) : Json :=
  JObject [("status", JString "triggered"); ("routine_id", JString (rn_uuid_text (r_id r)));
           ("routine_name", JString (r_name r)); ("run_id", JString (rn_uuid_text run))].

(** After the lookup: the secret, then the engine. *)
Definition webhook_found (gw : Gateway) (r : Routine) (path : string) (secret : option string) : Eng Response :=
  match validate_webhook_secret (r_trigger r) (default "" secret) with
  | Err e => mret (Err e)
  | Ok _ =>
      if gw_engine gw then
        res ← fire_webhook (r_id r) path;
        mret match res with
             | Ok run => Ok (triggered_json r run)
             | Err e => Err (webhook_status e, routine_error_text rn_uuid_text e)
             end
      else mret (Err (503%Z, "Routine engine not available"))
  end.

(** [secret] is the header [X-Webhook-Secret], when it is readable text. *)
Definition fire_webhook_inner (gw : Gateway) (l : WebRateLimiter) (path : string) (user : option string) (secret : option string)
    : Eng (Response * WebRateLimiter) :=
  now ← clock;
  let '(allowed, l) := web_limiter_check (as_secs now) l in
  res ← (if negb allowed then mret (Err (429%Z, "Rate limit exceeded. Try again shortly."))
         else if negb (gw_store gw) then mret (Err (503%Z, "Database not available"))
         else
           found ← db_read (fun _ => get_webhook_routine_by_path path user);
           match found with
           | Err e => mret (Err (500%Z, e))
           | Ok None => mret (Err (404%Z, "No routine matches this webhook path"))
           | Ok (Some r) => webhook_found gw r path secret
           end);
  mret (res, l).

Definition webhook_trigger_handler (gw : Gateway) (l : WebRateLimiter) (path : string) (secret : option string)
    : Eng (Response * WebRateLimiter) :=
  if gw_tenants gw then
    mret (Err (410%Z, "Unscoped webhooks disabled in multi-tenant mode. Use /api/webhooks/u/{user_id}/{path} instead."), l)
  else fire_webhook_inner gw l path None secret.

Definition webhook_trigger_user_scoped_handler (gw : Gateway) (l : WebRateLimiter) (user path : string) (secret : option string)
    : Eng (Response * WebRateLimiter) :=
  fire_webhook_inner gw l path (Some user) secret.

(** *** The ticker *)

(** The work of the ticker before its loop, and in one turn of it; [refresh]: a minute has passed since the last refresh. *)
Definition ticker_start : Eng unit := _ ← sync_dispatched_runs; check_cron_triggers.
Definition ticker_turn (refresh : bool) : Eng unit :=
  _ ← sync_dispatched_runs;
  _ ← check_cron_triggers;
  if refresh then refresh_event_cache else mret tt.
End engine.

(** ** The text of a lightweight run *)

Definition name_byte (c : ascii) : bool := Provider.is_alphanumeric c || Ascii.eqb c "-" || Ascii.eqb c "_".

(** Whatever a routine is called, the path of its state file stays in its own directory: the name becomes letters, digits,
    dashes and underscores. *)
Theorem state_path_plain name : string_forallb name_byte (sanitize_routine_name name) = true.
Proof.
  induction name as [|c name IH]; [done|]. cbn [sanitize_routine_name]. destruct (starts_char c); [|done].
  cbn [string_forallb]. rewrite IH, andb_true_r. unfold name_char, name_byte.
  destruct (Provider.is_alphanumeric c || Ascii.eqb c "-" || Ascii.eqb c "_") eqn:Hc; [done|reflexivity].
Qed.

Lemma starts_with_split p x y :
  starts_with p (x +:+ String nl y) = true → free_of nl p = true → starts_with p x = true.
Proof.
  revert x. induction p as [|a p IH]; intros x Hs Hf; [by destruct x|]. apply free_of_cons in Hf as [Ha Hf].
  destruct x as [|b x].
  - change ("" +:+ String nl y) with (String nl y) in Hs. rewrite starts_with_cons in Hs. by destruct (ascii_dec a nl).
  - rewrite append_cons, starts_with_cons in Hs. rewrite starts_with_cons. destruct (ascii_dec a b); [|done]. by apply IH.
Qed.

(** A needle on one line is found before or after the end of a line. *)
Lemma contains_line p x y : free_of nl p = true → p ≠ "" →
  contains p (x +:+ String nl y) = true → contains p x = true ∨ contains p y = true.
Proof.
  intros Hf Hne. induction x as [|c x IH]; intros Hc.
  - right. change ("" +:+ String nl y) with (String nl y) in Hc. cbn [contains] in Hc.
    apply orb_true_iff in Hc as [Hc|Hc]; [|done]. exfalso. destruct p as [|a p]; [done|].
    apply free_of_cons in Hf as [Ha _]. rewrite starts_with_cons in Hc. by destruct (ascii_dec a nl).
  - rewrite append_cons in Hc. cbn [contains] in Hc |- *. apply orb_true_iff in Hc as [Hc|Hc].
    + left. apply orb_true_iff. left. rewrite <- append_cons in Hc. by eapply starts_with_split.
    + destruct (IH Hc) as [->|]; [|by right]. left. by rewrite orb_true_r.
Qed.

Lemma starts_with_app_l p q s : starts_with (p +:+ q) s = true → starts_with p s = true.
Proof. intros [r ->]%starts_with_iff. apply starts_with_iff. exists (q +:+ r). by rewrite append_assoc. Qed.

Lemma contains_prefix_of p x y : contains p x = true → contains p (x +:+ y) = true.
Proof. intros (a & b & ->)%contains_iff. apply contains_iff. exists a, (b +:+ y). by rewrite !append_assoc. Qed.

Lemma lower_length s : String.length (string_map ascii_lower s) = String.length s.
Proof. induction s as [|c s IH]; [done|]. cbn. by rewrite IH. Qed.

(** No whole closing tag is left in a proper prefix of wrapped text. *)
Lemma wrapped_prefix_open nm c k :
  (k < String.length (wrap_for_llm nm c))%nat →
  contains "</tool_output>" (string_map ascii_lower (str_to k (wrap_for_llm nm c))) = false.
Proof.
  intros Hk. set (w := wrap_for_llm nm c) in *. destruct (contains _ _) eqn:Hc; [|done]. exfalso.
  apply contains_occurs in Hc as (n & _ & Ho).
  pose proof (occurs_at_length "</tool_output>" _ _ ltac:(done) Ho) as Hlen. rewrite lower_length, str_to_length in Hlen.
  assert (occurs_at "</tool_output" (string_map ascii_lower w) n = true) as Hn.
  { rewrite <- (str_to_from k w), string_map_append. rewrite occurs_at_app_l by (rewrite lower_length, str_to_length; lia).
    apply starts_with_iff in Ho as [t Ht]. apply starts_with_iff. rewrite Ht.
    exists (">" +:+ (t +:+ string_map ascii_lower (str_from k w))). by rewrite append_assoc. }
  apply (wrap_closes_once nm c n) in Hn. fold w in Hn. cbn [String.length] in Hn, Hlen. lia.
Qed.

Section shown.
  Context `{Decimal} `{!ChatEnv JobContext} `{RegexEngine} `{MultiMatcher}.

(** The result of a tool that is longer than the limit of a lightweight run reaches the model without the closing tag:
    the text is cut after it was wrapped, and what follows it in the conversation is inside the open element. *)
Theorem long_result_unclosed (en : RoutineEngine) nm (res : Result string string) :
  let text := match res with Ok out => out | Err e => cat ["Tool '"; nm; "' failed: "; e] end in
  let wrapped := wrap_for_llm nm (so_content (sanitize_tool_output ce_lower (re_safety en) nm text)) in
  (MAX_TOOL_OUTPUT_CHARS < String.length wrapped)%nat →
  contains "</tool_output>" (string_map ascii_lower (shown_result en nm res)) = false.
Proof.
  cbv zeta. unfold shown_result. cbv zeta. set (c := so_content _). intros Hlen.
  unfold cut_output. rewrite decide_True by done. set (k := floor_char_boundary _ _).
  assert (k < String.length (wrap_for_llm nm c)) as Hk.
  { eapply Nat.le_lt_trans; [|exact Hlen]. unfold k, floor_char_boundary. rewrite decide_False by lia. apply char_floor_le. }
  destruct (contains _ _) eqn:Hc; [|done]. exfalso.
  change (cat [str_to k (wrap_for_llm nm c); nl_str; "... [output truncated to 8192 chars]"])
    with (str_to k (wrap_for_llm nm c) +:+ String nl "... [output truncated to 8192 chars]") in Hc.
  rewrite string_map_append in Hc.
  change (string_map ascii_lower (String nl "... [output truncated to 8192 chars]"))
    with (String nl "... [output truncated to 8192 chars]") in Hc.
  apply contains_line in Hc as [Hc|Hc]; [|by vm_compute in Hc|done|done]. by rewrite wrapped_prefix_open in Hc.
Qed.
End shown.

(** ** What a lightweight run may do *)

Section light.
  Context `{Decimal} `{!ChatEnv JobContext} `{!SchedEnv} `{!WorkerEnv} `{RegexEngine} `{MultiMatcher}.
  Context {P : Type} `{!LlmProvider P} `{!RoutineEnv P}.
  Variable en : RoutineEngine.
  Implicit Types (s : EngState P) (r : Routine) (run : LightRun).

(** A call that was let through: an allowed tool, with parameters brought into shape and validated, for the user. *)
Definition let_through (user : string) (allowed : gset string) (t : ToolRun) : Prop :=
  tl_name t ∈ allowed ∧ tl_user t = user ∧
  is_valid (validate_tool_params ce_lower (sl_validator (re_safety en)) (tl_params t)) = true ∧
  ∃ args, tl_params t = prepare_tool_params ce_lower parse_value ce_print_f64 (tl_tool t) args.

Lemma routine_tool_let_through c allowed tc s t :
  (execute_routine_tool en c allowed tc s).1.2 = Some t → let_through (user_id c) allowed t.
Proof.
  unfold execute_routine_tool. destruct (negb (bool_decide (tc_name tc ∈ allowed))) eqn:Hin; [done|].
  apply negb_false_iff, bool_decide_eq_true in Hin. rewrite !bind_run. cbn [gets fst snd].
  destruct (registry_get _ _) as [tool|]; [|done]. cbv zeta.
  destruct (is_valid _) eqn:Hv; cbn [negb mret st_ret fst snd]; [|done]. intros [= <-].
  unfold let_through. cbn [tl_name tl_user tl_params tl_tool]. eauto.
Qed.

Lemma run_calls_confined c allowed calls run s :
  Forall (let_through (user_id c) allowed) (lr_tools run) →
  let run' := (run_calls en c allowed calls run s).1 in
  lr_calls run' = lr_calls run ∧ Forall (let_through (user_id c) allowed) (lr_tools run').
Proof.
  cbv zeta. revert run s. induction calls as [|tc calls IH]; intros run s Hall; [done|]. cbn [run_calls]. rewrite bind_run.
  set (x := execute_routine_tool en c allowed tc s).
  match goal with |- context [run_calls en c allowed calls ?run1 x.2] => apply (IH run1 x.2) end.
  cbn [lr_tools]. apply Forall_app. split; [done|].
  destruct (x.1.2) as [t|] eqn:Hx; [|done]. apply Forall_singleton. by eapply routine_tool_let_through.
Qed.

(** A call of the model is counted whether or not it succeeds. *)
Lemma final_round_calls tokens run s :
  let out := (final_round tokens run s).1 in lr_calls out.2 = S (lr_calls run) ∧ lr_tools out.2 = lr_tools run.
Proof. unfold final_round. rewrite bind_run. by destruct (ask_text _ _ s).1. Qed.

Lemma light_loop_confined c allowed tokens rounds run s :
  Forall (let_through (user_id c) allowed) (lr_tools run) →
  let out := (light_loop en c allowed tokens rounds run s).1 in
  (lr_calls run < lr_calls out.2 ≤ lr_calls run + S rounds)%nat ∧ Forall (let_through (user_id c) allowed) (lr_tools out.2).
Proof.
  cbv zeta. revert run s. induction rounds as [|n IH]; intros run s Hall; cbn [light_loop].
  - destruct (final_round_calls tokens run s) as [-> ->]. split; [lia|done].
  - rewrite !bind_run. cbn [gets fst snd]. set (s' := (pass s).2). set (defs := base.filter _ _).
    destruct (ask_with_tools _ defs tokens s') as [[rs|e] s2]; cbn [fst snd]; [|cbn; split; [lia|done]].
    set (run1 := spend _ _ run). destruct (trs_tool_calls rs) as [|tc calls]; [cbn; split; [lia|done]|]. rewrite bind_run.
    set (run2 := push _ run1). destruct (run_calls_confined c allowed (tc :: calls) run2 s2 Hall) as [Hc Ht].
    edestruct (IH _ (run_calls en c allowed (tc :: calls) run2 s2).2 Ht) as [Hn Htools]. split; [|done].
    rewrite Hc in Hn. change (lr_calls run2) with (S (lr_calls run)) in Hn. lia.
Qed.

(** C7. A lightweight run with tools asks the model at least once and at most five times, and no more often than the routine and the
    configuration say; whatever the model asks for, only built-in tools and tools active for the owner of the routine when the
    run began are executed, none of the denied ones, with parameters that passed validation and on behalf of the owner. *)
Theorem light_run_confined r sys prompt tokens rounds s :
  let run := (execute_lightweight_with_tools en r sys prompt tokens rounds s).1.2 in
  let began := ((_ ← light_context r; pass) s).2 in
  let allowed := autonomous_allowed_tool_names (sd_tools (es_sched began)) (sd_active (es_sched began)) (r_user_id r) in
  (1 ≤ lr_calls run ≤ 5)%nat ∧ (Z.of_nat (lr_calls run) ≤ Z.max 1 (max_rounds en rounds))%Z ∧
  Forall (fun t => let_through (r_user_id r) allowed t ∧ is_autonomous_tool_denylisted (tl_name t) = false) (lr_tools run).
Proof.
  cbv zeta. unfold execute_lightweight_with_tools. rewrite !bind_run. cbn [gets fst snd].
  set (c := (light_context r s).1). set (s1 := (pass (light_context r s).2).2).
  assert (user_id c = r_user_id r) as Hu by (unfold c, light_context; rewrite bind_run; done).
  set (allowed := autonomous_allowed_tool_names _ _ _).
  edestruct (light_loop_confined c allowed tokens (Z.to_nat (max_rounds en rounds - 1)) (mkLight _ (first_messages sys prompt) 0 0 0 []) s1)
    as [Hn Ht]; [done|]. cbn [lr_calls] in Hn. unfold max_rounds in *. split; [lia|]. split; [lia|].
  eapply Forall_impl; [exact Ht|]. intros t Hl. rewrite Hu in Hl. split; [done|]. destruct Hl as [Hin _].
  unfold allowed, autonomous_allowed_tool_names in Hin. cbv zeta in Hin. repeat case_match; set_solver.
Qed.

(** The number of tokens a routine asks for is a lower bound of what the model may write, not an upper one. *)
Lemma asked_tokens_are_least meta asked : (asked ≤ effective_tokens meta asked)%Z.
Proof. unfold effective_tokens. repeat case_match; lia. Qed.
End light.

(** ** A run always ends *)

Section ending.
  Context `{Decimal} `{!ChatEnv JobContext} `{!SchedEnv} `{!WorkerEnv} `{RegexEngine} `{MultiMatcher}.
  Context {P : Type} `{!LlmProvider P} `{!RoutineEnv P} `{CronEnv} `{Pg}.
  Variable en : RoutineEngine.
  Implicit Types (s : EngState P) (r : Routine).

(** No other task acts. *)
Definition alone : Prop := ∀ n s, rn_others n s = s.
(** The database can be reached. *)
Definition reachable_db : Prop := ∀ n, rn_fault n = None.

Lemma pass_alone s : alone → pass s = (tt, with_etick (S (es_tick s)) s).
Proof. intros Ha. unfold pass, modify. by rewrite Ha. Qed.

(** What the end of a run is about: the counter of running routines, the row of the run and the row of the routine. *)
Definition view (id rid : Uuid) s : nat * option RunRow * option RoutineRow :=
  (es_running s, db_runs (es_db s) !! id, db_routines (es_db s) !! rid).

(** The other tasks may do anything else. *)
Definition spares (id rid : Uuid) : Prop := ∀ n s, view id rid (rn_others n s) = view id rid s.

Lemma alone_spares id rid : alone → spares id rid.
Proof. intros Ha n s. by rewrite Ha. Qed.

Context (id rid : Uuid) (Hspares : spares id rid).
Abbreviation seen := (view id rid).

Lemma pass_view s : seen (pass s).2 = seen s.
Proof. exact (Hspares (es_tick s) s). Qed.

Section kept.
  Context (n : nat) (o : option RoutineRow).

(** What the execution of an action leaves as it was. *)
Definition kept s : Prop := ∃ row, seen s = (n, Some row, o).
Abbreviation I := kept.

Lemma kept_pass : preserves I pass.
Proof. intros s [row Hs]. exists row. by rewrite pass_view. Qed.

Lemma kept_clock : preserves I clock.
Proof. unfold clock. apply preserves_bind; [apply kept_pass|]. preserve. Qed.

#[local] Hint Resolve kept_pass kept_clock : effects.

Lemma kept_link run job : preserves I (db_run (fun _ k => link_routine_run_to_job run job (rn_has_job k))).
Proof.
  unfold db_run. apply preserves_bind; [apply kept_pass|]. intros _ s Hs. unfold act. destruct (rn_fault _); [done|].
  unfold link_routine_run_to_job. destruct (db_runs (es_db s) !! run) as [row|] eqn:Hr; [|exact Hs].
  destruct (rn_has_job _ job); [|exact Hs]. destruct Hs as [row' Hs]. injection Hs as Hn Hrow Ho.
  unfold kept, view. cbn. rewrite Hn, Ho. destruct (decide (run = id)) as [->|Hne]; [rewrite lookup_insert_eq; by eexists|].
  exists row'. by rewrite lookup_insert_ne, Hrow.
Qed.

Lemma kept_poll k job : preserves I (poll_job k job).
Proof.
  induction k as [|k IH]; cbn [poll_job]; (apply preserves_bind; [apply kept_pass|]); preserve. by intros s Hs.
Qed.

Lemma kept_ask_text ms t : preserves I (ask_text ms t).
Proof. unfold ask_text. preserve. intros s Hs. unfold act. by destruct (complete _ _ _) as [[? ?] ?]. Qed.

Lemma kept_ask_with_tools ms defs t : preserves I (ask_with_tools ms defs t).
Proof. unfold ask_with_tools. preserve. intros s Hs. unfold act. by destruct (complete_with_tools _ _ _) as [[? ?] ?]. Qed.

#[local] Hint Resolve kept_link kept_poll kept_ask_text kept_ask_with_tools : effects.

Lemma kept_full_job r run title descr k : preserves I (execute_full_job en r run title descr k).
Proof.
  unfold execute_full_job, wait_for_completion. preserve. intros x Hx. unfold act. by destruct (dispatch_job _ _ _ _ _ _).
Qed.

Lemma kept_tool c allowed tc : preserves I (execute_routine_tool en c allowed tc).
Proof. unfold execute_routine_tool. preserve. Qed.
#[local] Hint Resolve kept_tool : effects.

Lemma kept_calls c allowed calls run : preserves I (run_calls en c allowed calls run).
Proof. revert run. induction calls as [|tc calls IH]; intros run; cbn [run_calls]; preserve. Qed.
#[local] Hint Resolve kept_calls : effects.

Lemma kept_loop c allowed t rounds run : preserves I (light_loop en c allowed t rounds run).
Proof.
  revert run. induction rounds as [|k IH]; intros run; cbn [light_loop]; [unfold final_round; preserve|]. preserve.
Qed.

Lemma kept_context ws paths : preserves I (load_context ws paths).
Proof. induction paths as [|p paths IH]; cbn [load_context]; preserve. Qed.
#[local] Hint Resolve kept_loop kept_context : effects.

Lemma kept_light r ws prompt paths t use rounds : preserves I (execute_lightweight en r ws prompt paths t use rounds).
Proof.
  unfold execute_lightweight, light_prompts, ask_metadata, execute_lightweight_with_tools, execute_lightweight_no_tools, light_context.
  preserve. intros s Hs. unfold act. by destruct (model_metadata _ _) as [[? ?] ?].
Qed.

Lemma kept_action r run ws : preserves I (execute_action en r run ws).
Proof. unfold execute_action. destruct (r_action r); [apply kept_light|apply kept_full_job]. Qed.
End kept.

(** *** The result of an execution *)

Definition settles (x : Result RoutineError (RunStatus * option string * option Z)) : Prop :=
  match x with Ok (status, _, _) => status ≠ RunRunning | Err _ => True end.

Lemma text_settles content finish i o : settles (handle_text_response content finish i o).
Proof. unfold handle_text_response. cbv zeta. repeat case_match; done. Qed.

Lemma loop_settles c allowed t rounds run s : settles (light_loop en c allowed t rounds run s).1.1.
Proof.
  revert run s. induction rounds as [|k IH]; intros run s; cbn [light_loop].
  - unfold final_round. rewrite bind_run. destruct (ask_text _ _ s).1; [apply text_settles|done].
  - rewrite !bind_run. cbn [gets fst snd]. destruct (ask_with_tools _ _ _ _) as [[rs|e] s']; cbn [fst snd]; [|done].
    destruct (trs_tool_calls rs); [apply text_settles|]. rewrite bind_run. apply IH.
Qed.

Lemma light_settles r ws prompt paths t use rounds s : settles (execute_lightweight en r ws prompt paths t use rounds s).1.
Proof.
  unfold execute_lightweight. rewrite !bind_run. cbv zeta. destruct (use && _).
  - unfold execute_lightweight_with_tools. rewrite !bind_run. apply loop_settles.
  - unfold execute_lightweight_no_tools. rewrite bind_run. destruct (ask_text _ _ _).1; [apply text_settles|done].
Qed.

Lemma poll_settles k job s : (poll_job k job s).1 ≠ RunRunning.
Proof.
  revert s. induction k as [|k IH]; intros s; cbn [poll_job]; rewrite !bind_run; cbn [gets fst snd];
    destruct (rn_job _ _) as [[st|]|]; try done; (destruct (negb _); [by destruct st|]); [done|].
  destruct k; [done|]. rewrite bind_run. apply IH.
Qed.

Lemma wait_settles job s : (wait_for_completion job s).1.1 ≠ RunRunning.
Proof. unfold wait_for_completion. generalize MAX_POLLS as k. intros k. rewrite bind_run. exact (poll_settles k job s). Qed.

Lemma full_job_settles r run title descr k s : settles (execute_full_job en r run title descr k s).1.
Proof.
  unfold execute_full_job. case_decide; [done|]. destruct (re_scheduler en); [|done].
  rewrite !bind_run. destruct (act _ _) as [[job|e] s']; cbn [fst snd]; [|done]. rewrite bind_run.
  destruct (db_run _ _) as [[?|?] s2]; cbn [fst snd]; [|done]. rewrite bind_run. exact (wait_settles job s2).
Qed.

Lemma action_settles r run ws s : settles (execute_action en r run ws s).1.
Proof. unfold execute_action. destruct (r_action r); [apply light_settles|apply full_job_settles]. Qed.

(** *** Writing it down *)

Context (Hdb : reachable_db).

Lemma clock_view s : seen (clock s).2 = seen s.
Proof. unfold clock. rewrite bind_run. exact (pass_view s). Qed.

Lemma db_write_view f s : ∃ t s1, seen s1 = seen s ∧ (db_write f s).2 = with_db (f t (es_db s1)) s1.
Proof.
  unfold db_write, db_run. rewrite bind_run. unfold act. rewrite Hdb. cbn [snd]. eexists _, (pass s).2. split; [apply pass_view|done].
Qed.

(** The reports after a run touch neither the tables nor the counter. *)
Lemma record_result_view r text s : seen (record_result r text s).2 = seen s.
Proof.
  unfold record_result. rewrite !bind_run. cbn [gets fst snd]. rewrite <-(pass_view s).
  destruct (rn_conversation _ _ _ _); [|done]. rewrite !bind_run. cbn [fst snd modify]. rewrite <-(pass_view (pass s).2).
  by destruct (rn_add_message _).
Qed.

Lemma notification_view notify o nm st sm th s : seen (send_notification notify o nm st sm th s).2 = seen s.
Proof.
  unfold send_notification. destruct (should_notify _ _); [|done]. rewrite bind_run. cbn [fst snd modify]. rewrite <-(pass_view s).
  by destruct (rn_send _).
Qed.

Lemma write_runtime_view r status s n row o : r_id r = rid → seen s = (n, row, o) →
  ∃ t last next f, seen (write_runtime r status s).2 =
    (n, row, runtime_row t last next (as_u64_bits (r_run_count r + 1)) f (r_state r) <$> o).
Proof.
  intros Hr Hs. unfold write_runtime. rewrite !bind_run. cbv zeta.
  match goal with |- context [db_write ?f ?s1] => destruct (db_write_view f s1) as (t & s2 & Hs2 & ->) end.
  rewrite !clock_view, Hs in Hs2. injection Hs2 as Hn Hrow Ho. eexists t, _, _, _. unfold view. cbn.
  by rewrite Hr, lookup_alter_eq, Hn, Hrow, Ho.
Qed.

Lemma finish_run_view r run status summary tokens s n row o : r_id r = rid → run_id run = id → seen s = (n, Some row, o) →
  ∃ t t' last next f, seen (finish_run r run status summary tokens s).2 =
    (n, Some (completed_run t status summary tokens row), runtime_row t' last next (as_u64_bits (r_run_count r + 1)) f (r_state r) <$> o).
Proof.
  intros Hr Hid Hs. unfold finish_run. rewrite bind_run.
  match goal with |- context [db_write ?f s] => destruct (db_write_view f s) as (t & s1 & Hs1 & ->) end. rewrite bind_run.
  set (s2 := with_db _ _). assert (seen s2 = (n, Some (completed_run t status summary tokens row), o)) as Hs2.
  { rewrite Hs in Hs1. unfold view in *. injection Hs1 as Hn Hrow Ho. cbn. rewrite Hid, lookup_alter_eq, Hrow. by rewrite Hn, Ho. }
  clearbody s2. destruct (write_runtime_view r status s2 _ _ _ Hr Hs2) as (t' & last & next & f & Hw).
  exists t, t', last, next, f. rewrite bind_run, notification_view, record_result_view. exact Hw.
Qed.

(** C20. Whatever the model, the tools, the scheduler or the watched job do, the execution of a run comes to an end: the counter of running
    routines is as before, the run is completed with a result other than running, and the columns of the routine are written
    from the routine as it was when the run began.  The database answers meanwhile, both rows are there at the
    beginning, and the other tasks, whatever else they do, touch neither these two rows nor the counter. *)
Theorem run_always_settled r run ws s row old :
  run_id run = id → r_id r = rid →
  db_runs (es_db s) !! run_id run = Some row → db_routines (es_db s) !! r_id r = Some old →
  let s' := (execute_routine en r run ws s).2 in
  es_running s' = es_running s ∧
  (∃ t status summary tokens begun, status ≠ RunRunning ∧
     db_runs (es_db s') !! run_id run = Some (completed_run t status summary tokens begun)) ∧
  ∃ t last next f, db_routines (es_db s') !! r_id r =
    Some (runtime_row t last next (as_u64_bits (r_run_count r + 1)) f (r_state r) old).
Proof.
  intros Hid Hrid Hrun Hold. cbv zeta. unfold execute_routine. rewrite !bind_run. cbn [fst snd modify].
  pose proof (pass_view s) as Hp. set (s0 := (pass s).2) in *. set (s1 := with_running _ _).
  assert (kept (S (es_running s)) (Some old) s1) as Hs1.
  { exists row. unfold view in *. injection Hp as Hn Hr Ho. cbn. by rewrite Hn, Hr, Ho, <-Hid, <-Hrid, Hrun, Hold. }
  clearbody s1. pose proof (kept_action _ _ r run ws s1 Hs1) as [begun Hb]. pose proof (action_settles r run ws s1) as Hset.
  destruct (execute_action en r run ws s1) as [res s2]. cbn [fst snd] in *. pose proof (pass_view s2) as Hp2.
  set (s3 := with_running _ _). assert (seen s3 = (es_running s, Some begun, Some old)) as Hs3.
  { rewrite Hb in Hp2. unfold view in *. injection Hp2 as Hn Hr Ho. cbn. rewrite Hn, Hr, Ho. do 2 f_equal. lia. }
  clearbody s3. assert (∀ status summary tokens, status ≠ RunRunning →
    let s' := (finish_run r run status summary tokens s3).2 in
    es_running s' = es_running s ∧
    (∃ t status summary tokens begun, status ≠ RunRunning ∧
       db_runs (es_db s') !! run_id run = Some (completed_run t status summary tokens begun)) ∧
    ∃ t last next f, db_routines (es_db s') !! r_id r =
      Some (runtime_row t last next (as_u64_bits (r_run_count r + 1)) f (r_state r) old)) as Hfin.
  { intros status summary tokens Hst.
    destruct (finish_run_view r run status summary tokens s3 _ _ _ Hrid Hid Hs3) as (t & t' & last & next & f & Hv). cbv zeta.
    unfold view in Hv. injection Hv as Hn Hr Ho. rewrite Hid, Hrid, Hn, Hr, Ho. split; [done|]. split; [|by exists t', last, next, f].
    by exists t, status, summary, tokens, begun. }
  destruct res as [[[status summary] tokens]|e]; by apply Hfin.
Qed.
End ending.

(** ** Which routines fire *)

Section firing.
  Context `{Decimal} `{!ChatEnv JobContext} `{!SchedEnv} `{!WorkerEnv} `{RegexEngine} `{MultiMatcher}.
  Context {P : Type} `{!LlmProvider P} `{!RoutineEnv P} `{CronEnv} `{Pg}.
  Variable en : RoutineEngine.
  Implicit Types (s : EngState P) (r : Routine).

(** A message is for a routine: it waits for messages, of this user, on this channel or on any, and the pattern matches. *)
Definition message_for (message : IncomingMessage) (content : string) r (re : string) : Prop :=
  r_user_id r = im_user_id message ∧ is_match re content = true ∧
  ∃ channel pattern, r_trigger r = Event channel pattern ∧
    ∀ ch, channel = Some ch → eq_ignore_ascii_case ch (im_channel message) = true.

Lemma routine_matches_iff r message content re :
  routine_matches_message r message = true → is_match re content = true → message_for message content r re.
Proof.
  unfold routine_matches_message. destruct (r_trigger r) as [|channel pattern| | |] eqn:Ht; try done.
  intros [Hu%String.eqb_eq Hc]%andb_true_iff Hm. split; [done|]. split; [done|]. exists channel, pattern. split; [done|].
  by intros ch ->.
Qed.

Lemma match_message_sound counts message content cache s :
  let triggered := (match_message en counts message content cache s).1 in
  sublist (tr_routine <$> triggered) (omap message_routine cache) ∧
  Forall (fun t => ∃ re, MessageMatcher (tr_routine t) re ∈ cache ∧ message_for message content (tr_routine t) re) triggered.
Proof.
  cbv zeta. revert s. induction cache as [|[r re|r] cache IH]; intros s; [split; constructor| |].
  - assert (∀ s, let triggered := (match_message en counts message content cache s).1 in
      sublist (tr_routine <$> triggered) (omap message_routine (MessageMatcher r re :: cache)) ∧
      Forall (fun t => ∃ re', MessageMatcher (tr_routine t) re' ∈ MessageMatcher r re :: cache ∧
        message_for message content (tr_routine t) re') triggered) as Hskip.
    { intros s'. destruct (IH s') as [Hs Hf]. split; [by apply sublist_cons|].
      eapply Forall_impl; [exact Hf|]. intros t (re' & Hin & Hm). exists re'. set_solver. }
    cbn [match_message]. destruct (negb (routine_matches_message r message)) eqn:Hm; [apply Hskip|].
    destruct (negb (is_match re content)) eqn:Hre; [apply Hskip|]. apply negb_false_iff in Hm, Hre.
    rewrite !bind_run. cbn [fst snd mret st_ret]. destruct (guardrails_allow en counts r s).1; [|apply Hskip].
    destruct (Hskip (guardrails_allow en counts r s).2) as [_ Hf]. destruct (IH (guardrails_allow en counts r s).2) as [Hs _].
    split; [by apply sublist_skip|]. constructor; [|done]. exists re. split; [set_solver|]. by apply routine_matches_iff.
  - destruct (IH s) as [Hs Hf]. split; [done|]. eapply Forall_impl; [exact Hf|]. intros t (re' & Hin & Hm). exists re'. set_solver.
Qed.

(** A message fires only event routines of its sender that listen on its channel and whose pattern matches its text, each entry
    of the cache at most once, whatever the other tasks do meanwhile. *)
Theorem message_fires_own message content s :
  let triggered := (matching_event_triggers en message content s).1 in
  let cache := es_cache (pass s).2 in
  sublist (tr_routine <$> triggered) (omap message_routine cache) ∧
  Forall (fun t => ∃ re, MessageMatcher (tr_routine t) re ∈ cache ∧ message_for message content (tr_routine t) re) triggered.
Proof.
  cbv zeta. unfold matching_event_triggers. rewrite !bind_run. cbn [gets fst snd]. set (cache := es_cache _).
  assert (sublist (tr_routine <$> []) (omap message_routine cache) ∧
    Forall (fun t => ∃ re, MessageMatcher (tr_routine t) re ∈ cache ∧ message_for message content (tr_routine t) re) []) as Hnil
    by (split; [apply sublist_nil_l|constructor]).
  destruct (omap message_routine cache) as [|r0 rs] eqn:Hrs; [done|]. rewrite bind_run.
  destruct (batch_concurrent_counts _ _) as [[counts|] s1]; cbn [fst snd]; [|done]. rewrite <- Hrs. apply match_message_sound.
Qed.

(** *** The limits of a tick *)

(** At one instant, with no other task going on and the database in reach. *)
Definition instant (now : Z) : Prop := alone ∧ reachable_db ∧ ∀ n, rn_now n = now.

(** What the ticker asks of a due routine. *)
Definition ready (now : Z) (d : RoutineDb) r : Prop :=
  cooled now r = true ∧ (count_running_routine_runs (r_id r) d < max_concurrent (r_guardrails r))%Z.
#[export] Instance ready_dec now d r : base.Decision (ready now d r).
Proof. unfold ready. apply _. Defined.

(** What is spawned: the routine and the schedule, the identifiers aside. *)
Definition spawned_routines s : list Routine := sp_routine <$> es_spawned s.

Section at_instant.
  Context (now : Z) (Hi : instant now).

Lemma capacity_run s :
  at_capacity en s = ((max_concurrent_routines (re_config en) <=? es_running s)%nat, with_etick (S (es_tick s)) s).
Proof. destruct Hi as [Ha _]. unfold at_capacity. by rewrite bind_run, (pass_alone _ Ha). Qed.

Lemma cooldown_run r s : check_cooldown r s = (cooled now r, with_etick (S (es_tick s)) s).
Proof.
  destruct Hi as (Ha & _ & Hn). unfold check_cooldown, clock. rewrite !bind_run, (pass_alone _ Ha). cbn [gets fst snd]. by rewrite Hn.
Qed.

Lemma db_read_run {A} (f : Z → RoutineDb → Result string A) s : db_read f s = (f now (es_db s), with_etick (S (es_tick s)) s).
Proof.
  destruct Hi as (Ha & Hd & Hn). unfold db_read, db_run. rewrite bind_run, (pass_alone _ Ha). cbn [fst snd]. unfold act.
  rewrite Hd, Hn. by destruct s.
Qed.

Lemma concurrent_run r s :
  check_concurrent r s = ((count_running_routine_runs (r_id r) (es_db s) <? max_concurrent (r_guardrails r))%Z, with_etick (S (es_tick s)) s).
Proof. unfold check_concurrent. by rewrite bind_run, db_read_run. Qed.

Lemma spawn_run r trigger detail s : ∃ run,
  spawn_fire r trigger detail s =
  (tt, with_spawned (es_spawned s ++ [mkSpawned r run (r_user_id r) false]) (with_etick (S (es_tick s)) s)).
Proof. destruct Hi as (Ha & _). unfold spawn_fire, clock. rewrite !bind_run, (pass_alone _ Ha). by eexists. Qed.

Lemma fire_due_all l s : (es_running s < max_concurrent_routines (re_config en))%nat →
  let s' := (fire_due en l s).2 in
  es_db s' = es_db s ∧ es_running s' = es_running s ∧
  spawned_routines s' = spawned_routines s ++ base.filter (ready now (es_db s)) l.
Proof.
  cbv zeta. revert s. induction l as [|r l IH]; intros s Hcap.
  { cbn. by rewrite app_nil_r. }
  assert (∀ k, let s' := (fire_due en l (with_etick k s)).2 in
    es_db s' = es_db s ∧ es_running s' = es_running s ∧
    spawned_routines s' = spawned_routines s ++ base.filter (ready now (es_db s)) l) as Hskip by (intros k; exact (IH (with_etick k s) Hcap)).
  cbn [fire_due]. rewrite bind_run, capacity_run. cbn [fst snd]. rewrite (proj2 (Nat.leb_gt _ _) Hcap).
  rewrite bind_run, cooldown_run. cbn [fst snd]. rewrite filter_cons.
  destruct (cooled now r) eqn:Hc; cbn [negb];
    [|rewrite decide_False by (intros [? _]; congruence); apply Hskip].
  rewrite bind_run, concurrent_run. cbn [fst snd].
  destruct (_ <? _)%Z eqn:Hm; cbn [negb]; cbn in Hm; zify_bool;
    [|rewrite decide_False by (intros [_ ?]; lia); apply Hskip].
  rewrite decide_True by done. rewrite bind_run.
  match goal with |- context [spawn_fire r "cron" (cron_detail r) ?s1] =>
    destruct (spawn_run r "cron" (cron_detail r) s1) as [run ->] end.
  cbn [fst snd]. set (s1 := with_spawned _ _). destruct (IH s1) as (Hd & Hr & Hs); [done|].
  split; [done|]. split; [done|]. rewrite Hs. unfold spawned_routines, s1. cbn.
  by rewrite fmap_app, <- app_assoc.
Qed.
End at_instant.

(** C40. The counter of running routines is only raised by the spawned tasks, not by the ticker.  So a tick during which the clock stands still, no
    other task acts and the database answers, and that begins below the limit, fires every due routine that is cooled down and
    below its own limit, however many there are, beyond the limit too; it changes neither the tables nor the counter, so
    that the same routines are due again for the next tick while none of the spawned tasks has acted. *)
Theorem tick_fires_all_due now s due :
  instant now → (es_running s < max_concurrent_routines (re_config en))%nat → list_due_cron_routines now (es_db s) = Ok due →
  let s' := (check_cron_triggers en s).2 in
  es_db s' = es_db s ∧ es_running s' = es_running s ∧
  spawned_routines s' = spawned_routines s ++ base.filter (ready now (es_db s)) due.
Proof.
  intros Hi Hcap Hdue. cbv zeta. unfold check_cron_triggers. rewrite bind_run, (db_read_run now Hi). cbn [fst snd].
  rewrite Hdue. exact (fire_due_all now Hi due (with_etick (S (es_tick s)) s) Hcap).
Qed.

(** *** Webhooks *)

(** C21. A webhook request that triggers something named the path of one enabled webhook routine, of the user in the URL when there
    is one, and gave the secret of that routine; the run is of that routine. *)
Theorem webhook_needs_secret `{!PgLaws} gw l path user secret s v :
  (fire_webhook_inner en gw l path user secret s).1.1 = Ok v →
  let d := es_db ((_ ← clock; pass) s).2 in
  ∃ id row r run p, db_routines d !! id = Some row ∧ answers path user row ∧ row_to_routine row = Ok r ∧
    r_trigger r = Webhook p (Some (default "" secret)) ∧ v = triggered_json r run.
Proof.
  unfold fire_webhook_inner. rewrite bind_run. destruct (web_limiter_check _ l) as [allowed l']. rewrite bind_run.
  cbn [mret st_ret fst snd]. destruct allowed; cbn [negb]; [|done]. destruct (gw_store gw); cbn [negb]; [|done].
  rewrite bind_run. set (s1 := (clock s).2). unfold db_read at 1, db_run. rewrite !bind_run. unfold act. cbn [fst snd].
  destruct (rn_fault _); cbn [fst snd]; [done|]. set (d := es_db (pass s1).2).
  destruct (get_webhook_routine_by_path path user d) as [[r|]|] eqn:Hr; cbn [fst snd]; [|done..].
  unfold webhook_found. destruct (validate_webhook_secret (r_trigger r) (default "" secret)) as [?|e] eqn:Hv; [|done].
  destruct (gw_engine gw); [|done]. rewrite bind_run. cbn [mret st_ret fst snd].
  destruct (fire_webhook en _ _ _) as [[run|e] s2]; cbn [fst snd]; [|done]. intros [= <-].
  unfold validate_webhook_secret in Hv. destruct (r_trigger r) as [| | |p [expected|]|] eqn:Ht; try done.
  destruct (default "" secret =? expected)%string eqn:He; [|done]. apply String.eqb_eq in He.
  destruct (webhook_row _ _ _ _ Hr) as (id & row & Hl & Ha & Hread). exists id, row, r, run, p. by subst.
Qed.

(** A webhook run is spawned with the workspace of the engine, whoever the routine belongs to. *)
Theorem webhook_keeps_workspace id path s run :
  (fire_webhook en id path s).1 = Ok run →
  ∃ l r t, es_spawned (fire_webhook en id path s).2 = l ++ [mkSpawned r t (re_workspace en) true].
Proof.
  unfold fire_webhook, st_try. rewrite bind_run. destruct (load_routine id s).1 as [r|]; [|done].
  destruct (r_enabled r); cbn [negb]; [|done]. rewrite bind_run. destruct (check_cooldown r _).1; cbn [negb]; [|done].
  rewrite bind_run. destruct (check_concurrent r _).1; cbn [negb]; [|done]. rewrite bind_run. destruct (at_capacity en _).1; [done|].
  unfold start_run. rewrite !bind_run. destruct (db_run _ _) as [[?|?] s1]; cbn [fst snd]; [|done]. rewrite bind_run.
  intros _. cbn. by repeat eexists.
Qed.

(** *** Recovery after a restart *)

Lemma complete_dispatched_other run status summary s id row :
  alone → run_id run ≠ id → db_runs (es_db s) !! id = Some row →
  db_runs (es_db (complete_dispatched_run run status summary s).2) !! id = Some row.
Proof.
  intros Ha Hne Hrow.
  assert (preserves (fun s => db_runs (es_db s) !! id = Some row) (complete_dispatched_run run status summary)) as Hp; [|by apply Hp].
  assert (preserves (fun s : EngState P => db_runs (es_db s) !! id = Some row) pass) as Hpass by (intros x Hx; by rewrite (pass_alone _ Ha)).
  assert (∀ A (f : Z → nat → RoutineDb → Result string A * RoutineDb), (∀ t k d, db_runs d !! id = Some row → db_runs (f t k d).2 !! id = Some row) →
    preserves (fun s => db_runs (es_db s) !! id = Some row) (db_run f)) as Hrun.
  { intros A f Hf. unfold db_run. apply preserves_bind; [done|]. intros _ x Hx. unfold act. destruct (rn_fault _); [done|].
    specialize (Hf (rn_now (es_tick x)) (es_tick x) _ Hx). by destruct (f _ _ _). }
  unfold complete_dispatched_run, write_runtime, record_result, send_notification, clock, db_write, db_read.
  preserve; try (apply Hrun; intros t k d Hd; cbn; try done; by rewrite lookup_alter_ne).
  all: intros x Hx; unfold modify; cbn [snd]; by case_match.
Qed.

Lemma sync_runs_other runs s id row :
  alone → (∀ run, run ∈ runs → run_id run ≠ id) → db_runs (es_db s) !! id = Some row →
  db_runs (es_db (st_iter sync_run runs s).2) !! id = Some row.
Proof.
  intros Ha. revert s. induction runs as [|run runs IH]; intros s Hne Hrow; [done|]. cbn [st_iter]. rewrite bind_run.
  apply IH; [set_solver|]. unfold sync_run. destruct (run_job_id run) as [job|]; [|done].
  rewrite !bind_run, (pass_alone _ Ha). cbn [gets fst snd]. destruct (rn_job _ job) as [[st|]|]; [|by apply complete_dispatched_other; [|set_solver|]|done].
  destruct (final_status st) as [status|]; [|done]. rewrite bind_run. apply complete_dispatched_other; [done|set_solver|].
  unfold job_summary. case_decide; [|done]. by rewrite !bind_run, (pass_alone _ Ha).
Qed.

Lemma collect_rows_elem {A B} (f : A → Result string B) l ys y :
  collect_rows f l = Ok ys → y ∈ ys → ∃ x, x ∈ l ∧ f x = Ok y.
Proof.
  revert ys. induction l as [|x l IH]; cbn; [intros ys [= <-] Hy; by apply not_elem_of_nil in Hy|].
  intros ys Hc Hy. destruct (f x) as [z|] eqn:Hx; [|done]. destruct (collect_rows f l) as [zs|]; [|done]. simplify_eq.
  apply elem_of_cons in Hy as [->|Hy]; [exists x; set_solver|]. destruct (IH zs eq_refl Hy) as (x' & ? & ?). exists x'. set_solver.
Qed.

(** The recovery of dispatched runs never touches a run that began in this process, which its watcher will complete. *)
Theorem sync_spares_live_runs `{!PgLaws} s id row :
  alone → tables_ok (es_db s) → db_runs (es_db s) !! id = Some row → (re_boot_time en ≤ rr_started_at row)%Z →
  db_runs (es_db (sync_dispatched_runs en s).2) !! id = Some row.
Proof.
  intros Ha Hok Hrow Hlive. unfold sync_dispatched_runs. rewrite bind_run. unfold db_read, db_run. rewrite bind_run, (pass_alone _ Ha).
  cbn [fst snd]. unfold act. destruct (rn_fault _); [done|]. cbn [fst snd].
  change (es_db (with_etick (S (es_tick s)) s)) with (es_db s).
  destruct (list_dispatched_routine_runs (es_db s)) as [runs|] eqn:Hl; [|done].
  apply sync_runs_other; [done| |done]. intros run [Hold Hrun]%list_elem_of_filter <-.
  destruct (collect_rows_elem _ _ _ _ Hl Hrun) as (x & Hx & Hread). apply list_elem_of_filter in Hx as [_ Hx].
  rewrite pg_scan_all in Hx. apply list_elem_of_fmap in Hx as ([i y] & -> & Hx%elem_of_map_to_list). cbn [snd] in Hread.
  unfold row_to_routine_run in Hread. destruct (status_from_str _); [|done]. injection Hread as <-. cbn [run_id run_started_at] in *.
  rewrite (tb_run_key _ Hok _ _ Hx) in Hrow. rewrite Hx in Hrow. injection Hrow as ->. lia.
Qed.
End firing.

(** ** Witnesses *)

Module EngineDemo.
Import StoreDemo.

#[local] Instance engine : RegexEngine :=
  {| regex_valid := fun _ => true; is_match := fun _ _ => false; find_iter := fun _ _ => []; capture1 := fun _ _ => None |}.
#[local] Instance matcher : MultiMatcher := {| ac_find_iter := fun _ _ _ => [] |}.

(** A model that asks for the tool [echo] as long as it may. *)
#[local] Instance provider : LlmProvider unit := {|
  model_name := fun _ => "demo";
  cost_per_token := fun _ => (0, 0)%Z;
  complete := fun _ p w => (Ok (mkResponse "ROUTINE_OK" 5 1 Provider.Stop 0 0), p, w);
  complete_with_tools := fun _ p w => (Ok (mkToolResponse None [mkToolCall "c" "echo" (JObject []) None] 7 2 ToolUse 0 0), p, w);
  list_models := fun p w => (Ok [], p, w);
  model_metadata := fun p w => (default_model_metadata "demo", p, w);
  effective_model_name := fun rq p => (default_effective_model_name rq "demo", p);
  active_model_name := fun _ => "demo";
  set_model := fun _ p => (default_set_model, p);
  calculate_cost := fun i o _ => default_calculate_cost (0, 0)%Z i o;
  cache_write_multiplier := fun _ => dec_one;
  cache_read_discount := fun _ => dec_one
|}.

#[local] Instance env : ChatEnv JobContext := {|
  ce_lower := id; ce_origin := 0%Z; ce_from_str := fun _ => Err "?";
  ce_to_string := fun _ => "{}"; ce_pretty := fun _ => Ok "{}"; ce_print_f64 := fun _ => "0"; ce_duration := fun _ => "1s";
  ce_hook_elapsed := fun _ _ => false; ce_hook_error := fun _ => "e"; ce_values := fun m => snd <$> map_to_list m;
  ce_date := fun _ => 0%Z; ce_uuid := N.of_nat; ce_others := fun _ s => s;
  ce_join := fun _ l => (fun x => (x, false)) <$> rev l
|}.

#[local] Instance job_env : WorkerEnv := {|
  we_others := fun _ sh => sh; we_join := fun _ l => (fun x => (x, false)) <$> rev l;
  we_rate_limit := fun _ => None; we_parse_plan := fun _ => Err "no plan"; we_uuid := N.of_nat;
  we_uuid_text := fun _ => "job"; we_decimal_text := fun _ => "0"; we_llm_text := fun _ => "failed"
|}.

#[local] Instance sched_env : SchedEnv := {|
  se_others := fun _ s => s; se_locked := fun _ s => s; se_clock := fun _ _ => 0%Z; se_uuid := N.of_nat; se_stash := N.of_nat;
  se_save := fun _ _ => Ok tt; se_lost := fun _ => false
|}.

(** An hour has passed since the epoch. *)
#[local] Instance routine_env : RoutineEnv unit := {|
  rn_others := fun _ s => s; rn_now := fun _ => (3600 * SECOND)%Z; rn_uuid := N.of_nat; rn_fault := fun _ => None;
  rn_job := fun _ _ => Ok (Some Completed); rn_has_job := fun _ _ => true; rn_failure_reason := fun _ _ => Ok None;
  rn_conversation := fun _ _ _ _ => Ok 1%N; rn_add_message := fun _ => true; rn_read := fun _ _ _ => None;
  rn_system_prompt := fun _ _ => Ok ""; rn_send := fun _ => true; rn_regex_builds := fun _ => true;
  rn_uuid_text := fun _ => "id"; rn_stash := fun _ => 0%N
|}.

Lemma demo_alone : alone.
Proof. by intros n s. Qed.

Lemma demo_reachable : reachable_db.
Proof. by intros n. Qed.

Definition echo : ToolExec.Tool (ToolCtx JobContext) :=
  mkTool "echo" "d" (JObject []) (JObject []) false (fun v _ => Some (Ok v)) (fun _ => Never) 60 Orchestrator [].

(** At most one routine at a time. *)
Definition en : RoutineEngine :=
  mkEngine (mkRoutineConfig true 15 1 300 4096 true 3) "admin" None (safety_new (mkSafetyConfig 100000 false)) SandboxAvailable (1000 * SECOND)%Z.

Definition begin (d : RoutineDb) : EngState unit :=
  engine_new d (sched_start (manager_new 5) (register_sync true true echo ToolExec.registry_new) None) tt
    (mkWorld (fun _ => 0%Z) 0 (fun _ => 0%Z) 0 []).

(** Two rounds with the tool, then the answer. *)
Example two_tool_rounds :
  let out := (execute_lightweight_with_tools en daily "" "p" 100 3 (begin empty)).1 in
  out.1 = Ok (RunOk, None, Some 24%Z) ∧ lr_calls out.2 = 3%nat ∧ tl_name <$> lr_tools out.2 = ["echo"; "echo"].
Proof. vm_compute. done. Qed.

Definition long_text : string := string_rev (Nat.iter 9000 (String "a") "") "".

Lemma long_result_unclosed_witness : contains "</tool_output>" (string_map ascii_lower (shown_result en "echo" (Ok long_text))) = false.
Proof.
  apply (long_result_unclosed en "echo" (Ok long_text)). apply Nat.ltb_lt. vm_compute. reflexivity.
Defined.

(** Two routines that are due, of one user. *)
Definition due (id : Uuid) (name : string) : Routine :=
  mkRoutine id name "d" "u" true (Cron "0 9 * * *" None) brief guardrails_default notify_default None (Some 0%Z) 0 0 JNull 0 0.

Definition two_due : RoutineDb := (create_routine (due 3 "b") (create_routine (due 2 "a") empty).2).2.

Lemma at_one_o_clock : instant (3600 * SECOND)%Z.
Proof. split; [apply demo_alone|]. split; [apply demo_reachable|done]. Qed.

(** Both are fired at once, although only one may run. *)
Lemma tick_fires_all_due_witness :
  length (spawned_routines (check_cron_triggers en (begin two_due)).2) = 2%nat.
Proof.
  destruct (tick_fires_all_due en (3600 * SECOND)%Z (begin two_due) [due 2 "a"; due 3 "b"]) as (_ & _ & ->);
    [apply at_one_o_clock|cbn; lia|vm_compute; reflexivity|vm_compute; reflexivity].
Defined.

(** A run of the first of them. *)
Definition first_run : RoutineRun := new_run 9 (2000 * SECOND)%Z (due 2 "a") "cron" None.
Definition running_db : RoutineDb := (create_routine_run 0 first_run (fun _ => true) two_due).2.

Lemma run_always_settled_witness :
  es_running (execute_routine en (due 2 "a") first_run "u" (begin running_db)).2 = 0%nat.
Proof.
  refine (proj1 (run_always_settled en 9 2 (alone_spares 9 2 demo_alone) demo_reachable (due 2 "a") first_run "u" (begin running_db) _ _ eq_refl eq_refl _ _));
    [vm_compute; reflexivity|vm_compute; reflexivity].
Defined.

Lemma sync_spares_live_runs_witness :
  ∃ row, db_runs (es_db (sync_dispatched_runs en (begin running_db)).2) !! 9%N = Some row ∧ rr_status row = "running".
Proof.
  eexists. split; [apply (sync_spares_live_runs en (begin running_db) 9)|].
  - apply demo_alone.
  - eapply store_step_ok; [|apply step_create_run]. eapply store_step_ok; [|apply step_create].
    eapply store_step_ok; [|apply step_create]. by split; cbn; intros.
  - vm_compute. reflexivity.
  - vm_compute. discriminate.
  - reflexivity.
Defined.

Definition hooked : RoutineDb := (create_routine (hook 2 "a") empty).2.
Definition gw : Gateway := mkGateway true true true.
Definition limiter : WebRateLimiter := web_limiter_new 3600 10 60.

Lemma webhook_needs_secret_witness :
  ∃ id row, db_routines hooked !! id = Some row ∧ answers "deploy" (Some "u") row.
Proof.
  destruct (webhook_needs_secret en gw limiter "deploy" (Some "u") (Some "s") (begin hooked)
    (triggered_json (hook 2 "a") 4)) as (id & row & ? & ? & ? & Hl & Ha & _); [vm_compute; reflexivity|].
  by exists id, row.
Defined.

Lemma webhook_keeps_workspace_witness :
  ∃ l r t, es_spawned (fire_webhook en 2 "deploy" (begin hooked)).2 = l ++ [mkSpawned r t "admin" true].
Proof. eapply (webhook_keeps_workspace en 2 "deploy" (begin hooked)). vm_compute. reflexivity. Defined.
End EngineDemo.
