(* ===== verification/UserStore.v ===== *)
(** * UserStore: the tables of users and of their API tokens

    The user queries of [src/history/store.rs] on the tables of [migrations/V14__users.sql], and what [delete_user] and the
    usage statistics read of the other tables: the owner of a row and the references that bind it to another row.
    A table is a map from its primary key or, where only the owner counts, a list of rows.  PostgreSQL is the class [UserPg]:
    the order of a scan, the texts of its errors, and which operations fail for want of a connection; an operation
    that fails changes nothing. *)

From S2P Require Import Prelude Text Effects.

(** ** Rows *)

Record UserRecord : Type := mkUser {
  u_id : string;
  u_email : option string;
  u_display_name : string;
  u_status : string;
  u_role : string;
  u_created_at : Z;
  u_updated_at : Z;
  u_last_login_at : option Z;
  u_created_by : option string;
  u_metadata : Json
}.

Record ApiTokenRecord : Type := mkApiToken {
  at_id : Uuid;
  at_user_id : string;
  at_name : string;
  at_token_prefix : string;
  at_expires_at : option Z;
  at_last_used_at : option Z;
  at_created_at : Z;
  at_revoked_at : option Z
}.

(** The 32 bytes of a SHA-256 digest. *)
Abbreviation Digest := string (only parsing).

Record TokenRow : Type := mkTokenRow { tk_record : ApiTokenRecord; tk_hash : Digest }.

(** A row of a table with a [user_id] column; [or_parent] is the row it is deleted with. *)
Record OwnedRow : Type := mkOwnedRow { or_id : Uuid; or_user : string; or_parent : option Uuid }.

Record JobRow : Type := mkJobRow { jr_id : Uuid; jr_user : string; jr_conversation : option Uuid }.

Record RunRef : Type := mkRunRef { rf_routine : Uuid; rf_job : option Uuid }.

Section store.
  Context `{Decimal}.

Record CallRow : Type := mkCallRow {
  ca_job : option Uuid;
  ca_conversation : option Uuid;
  ca_model : string;
  ca_input_tokens : Z;
  ca_output_tokens : Z;
  ca_cost : dec;
  ca_created_at : Z
}.

Record Owned : Type := mkOwned {
  ow_tables : gmap string (list OwnedRow);
  ow_jobs : list JobRow;
  ow_runs : list RunRef;
  (** [job_events.job_id] *)
  ow_events : list Uuid;
  ow_calls : list CallRow;
  (** [dynamic_tools.created_by_job_id] *)
  ow_tool_jobs : list (option Uuid)
}.

Record UserDb : Type := mkUserDb {
  ud_users : gmap string UserRecord;
  ud_tokens : gmap Uuid TokenRow;
  ud_owned : Owned;
  (** how many operations have been started *)
  ud_operations : nat
}.

Definition set_users (m : gmap string UserRecord) (d : UserDb) : UserDb := mkUserDb m (ud_tokens d) (ud_owned d) (ud_operations d).
Definition set_tokens (m : gmap Uuid TokenRow) (d : UserDb) : UserDb := mkUserDb (ud_users d) m (ud_owned d) (ud_operations d).

Inductive UserViolation : Type :=
  DuplicateUser | DuplicateEmail | NoSuchCreator | DuplicateToken | NoSuchOwner | ManyTokens | StillReferenced.

Class UserPg := {
  up_text : UserViolation -> string;
  (** what the n-th operation fails with *)
  up_fault : nat -> option string;
  up_scan_users : gmap string UserRecord -> list UserRecord;
  up_scan_tokens : gmap Uuid TokenRow -> list TokenRow
}.

Class UserPgLaws `{UserPg} : Prop := {
  up_scan_users_all m : up_scan_users m ≡ₚ (map_to_list m).*2;
  up_scan_tokens_all m : up_scan_tokens m ≡ₚ (map_to_list m).*2
}.

(** ** Operations *)

Section operations.
  Context `{UserPg}.
  Implicit Types (d : UserDb) (u : UserRecord).

(** [self.conn().await?] *)
Definition conn : St UserDb (Result string unit) := fun d =>
  (match up_fault (ud_operations d) with Some e => Err e | None => Ok tt end,
   mkUserDb (ud_users d) (ud_tokens d) (ud_owned d) (S (ud_operations d))).

Definition ok {A} (a : A) : St UserDb (Result string A) := mret (Ok a).
Definition violates {A} (v : UserViolation) : St UserDb (Result string A) := mret (Err (up_text v)).

(** *** Users *)

Definition email_taken u d : bool :=
  match u_email u with
  | None => false
  | Some e => existsb (fun x => bool_decide (u_email x = Some e)) (map_to_list (ud_users d)).*2
  end.

(** A row may refer to itself. *)
Definition creator_known u d : bool :=
  match u_created_by u with
  | None => true
  | Some c => bool_decide (c = u_id u) || bool_decide (is_Some (ud_users d !! c))
  end.

Definition insert_user u d : Result string unit * UserDb :=
  if bool_decide (is_Some (ud_users d !! u_id u)) then (Err (up_text DuplicateUser), d)
  else if email_taken u d then (Err (up_text DuplicateEmail), d)
  else if negb (creator_known u d) then (Err (up_text NoSuchCreator), d)
  else (Ok tt, set_users (<[u_id u := u]> (ud_users d)) d).

Definition create_user u : St UserDb (Result string unit) := _ ←? conn; act (insert_user u).

Definition get_user (id : string) : St UserDb (Result string (option UserRecord)) :=
  _ ←? conn; gets (fun d => Ok (ud_users d !! id)).

Definition get_user_by_email (email : string) : St UserDb (Result string (option UserRecord)) :=
  _ ←? conn; gets (fun d => Ok (head (base.filter (fun u => u_email u = Some email) (up_scan_users (ud_users d))))).

(** [ORDER BY created_at DESC] *)
Definition newer (a b : UserRecord) : Prop := (u_created_at b ≤ u_created_at a)%Z.
#[export] Instance newer_dec a b : Decision (newer a b).
Proof. unfold newer. apply _. Defined.

Definition users_with (status : option string) d : list UserRecord :=
  merge_sort newer
    (base.filter (fun u => match status with Some s => (u_status u =? s)%string | None => true end = true) (up_scan_users (ud_users d))).

Definition list_users (status : option string) : St UserDb (Result string (list UserRecord)) :=
  _ ←? conn; gets (fun d => Ok (users_with status d)).

Definition with_status (status : string) (now : Z) u : UserRecord :=
  mkUser (u_id u) (u_email u) (u_display_name u) status (u_role u) (u_created_at u) now (u_last_login_at u) (u_created_by u)
    (u_metadata u).

Definition with_role (role : string) (now : Z) u : UserRecord :=
  mkUser (u_id u) (u_email u) (u_display_name u) (u_status u) role (u_created_at u) now (u_last_login_at u) (u_created_by u)
    (u_metadata u).

Definition with_profile (name : string) (metadata : Json) (now : Z) u : UserRecord :=
  mkUser (u_id u) (u_email u) name (u_status u) (u_role u) (u_created_at u) now (u_last_login_at u) (u_created_by u) metadata.

Definition with_login (now : Z) u : UserRecord :=
  mkUser (u_id u) (u_email u) (u_display_name u) (u_status u) (u_role u) (u_created_at u) now (Some now) (u_created_by u)
    (u_metadata u).

Definition without_creator (id : string) u : UserRecord :=
  if bool_decide (u_created_by u = Some id)
  then mkUser (u_id u) (u_email u) (u_display_name u) (u_status u) (u_role u) (u_created_at u) (u_updated_at u)
         (u_last_login_at u) None (u_metadata u)
  else u.

(** [UPDATE users SET ... WHERE id = $1] *)
Definition update_user (f : UserRecord -> UserRecord) (id : string) : St UserDb (Result string unit) :=
  _ ←? conn; _ ← modify (fun d => set_users (alter f id (ud_users d)) d); ok tt.

Definition update_user_status (now : Z) (id status : string) : St UserDb (Result string unit) := update_user (with_status status now) id.
Definition update_user_role (now : Z) (id role : string) : St UserDb (Result string unit) := update_user (with_role role now) id.
Definition update_user_profile (now : Z) (id name : string) (metadata : Json) : St UserDb (Result string unit) :=
  update_user (with_profile name metadata now) id.
Definition record_login (now : Z) (id : string) : St UserDb (Result string unit) := update_user (with_login now) id.

Definition has_any_users : St UserDb (Result string bool) :=
  _ ←? conn; gets (fun d => Ok (negb (bool_decide (ud_users d = ∅)))).

(** *** Tokens *)

Definition new_token (id : Uuid) (now : Z) (user name prefix : string) (expires : option Z) : ApiTokenRecord :=
  mkApiToken id user name prefix expires None now None.

Definition insert_token (hash : Digest) (t : ApiTokenRecord) d : Result string ApiTokenRecord * UserDb :=
  if bool_decide (is_Some (ud_tokens d !! at_id t)) then (Err (up_text DuplicateToken), d)
  else if bool_decide (is_Some (ud_users d !! at_user_id t))
  then (Ok t, set_tokens (<[at_id t := mkTokenRow t hash]> (ud_tokens d)) d)
  else (Err (up_text NoSuchOwner), d).

Definition create_api_token (id : Uuid) (now : Z) (user name : string) (hash : Digest) (prefix : string) (expires : option Z)
    : St UserDb (Result string ApiTokenRecord) :=
  _ ←? conn; act (insert_token hash (new_token id now user name prefix expires)).

(** A transaction: an error leaves what there was. *)
Definition create_user_with_token (id : Uuid) (now : Z) u (name : string) (hash : Digest) (prefix : string) (expires : option Z)
    : St UserDb (Result string ApiTokenRecord) :=
  _ ←? conn;
  act (fun d =>
    match insert_user u d with
    | (Err e, _) => (Err e, d)
    | (Ok _, d') =>
        match insert_token hash (new_token id now (u_id u) name prefix expires) d' with
        | (Err e, _) => (Err e, d)
        | (Ok t, d'') => (Ok t, d'')
        end
    end).

Definition newer_token (a b : ApiTokenRecord) : Prop := (at_created_at b ≤ at_created_at a)%Z.
#[export] Instance newer_token_dec a b : Decision (newer_token a b).
Proof. unfold newer_token. apply _. Defined.

Definition list_api_tokens (user : string) : St UserDb (Result string (list ApiTokenRecord)) :=
  _ ←? conn;
  gets (fun d => Ok (merge_sort newer_token
    (base.filter (fun t => at_user_id t = user) (tk_record <$> up_scan_tokens (ud_tokens d))))).

Definition revoked (now : Z) (row : TokenRow) : TokenRow :=
  let t := tk_record row in
  mkTokenRow (mkApiToken (at_id t) (at_user_id t) (at_name t) (at_token_prefix t) (at_expires_at t) (at_last_used_at t)
                (at_created_at t) (Some now)) (tk_hash row).

Definition used (now : Z) (row : TokenRow) : TokenRow :=
  let t := tk_record row in
  mkTokenRow (mkApiToken (at_id t) (at_user_id t) (at_name t) (at_token_prefix t) (at_expires_at t) (Some now)
                (at_created_at t) (at_revoked_at t)) (tk_hash row).

Definition revoke_api_token (now : Z) (token : Uuid) (user : string) : St UserDb (Result string bool) :=
  _ ←? conn;
  act (fun d =>
    match ud_tokens d !! token with
    | Some row =>
        if bool_decide (at_user_id (tk_record row) = user) && bool_decide (at_revoked_at (tk_record row) = None)
        then (Ok true, set_tokens (<[token := revoked now row]> (ud_tokens d)) d)
        else (Ok false, d)
    | None => (Ok false, d)
    end).

(** The conditions of the query on a token. *)
Definition live_token (now : Z) (hash : Digest) (row : TokenRow) : bool :=
  (tk_hash row =? hash)%string && bool_decide (at_revoked_at (tk_record row) = None) &&
  match at_expires_at (tk_record row) with Some t => (now <? t)%Z | None => true end.

Definition join_user d (row : TokenRow) : option (ApiTokenRecord * UserRecord) :=
  u ← ud_users d !! at_user_id (tk_record row);
  if (u_status u =? "active")%string then Some (tk_record row, u) else None.

Definition token_rows (now : Z) (hash : Digest) d : list (ApiTokenRecord * UserRecord) :=
  omap (join_user d) (base.filter (fun row => live_token now hash row = true) (up_scan_tokens (ud_tokens d))).

Definition authenticate_token (now : Z) (hash : Digest) : St UserDb (Result string (option (ApiTokenRecord * UserRecord))) :=
  _ ←? conn;
  gets (fun d =>
    match token_rows now hash d with
    | [] => Ok None
    | [found] => Ok (Some found)
    | _ => Err (up_text ManyTokens)
    end).

Definition record_token_usage (now : Z) (token : Uuid) : St UserDb (Result string unit) :=
  _ ←? conn; _ ← modify (fun d => set_tokens (alter (used now) token (ud_tokens d)) d); ok tt.

(** *** Deleting a user *)

Definition USER_TABLES : list string :=
  ["settings"; "heartbeat_state"; "tool_rate_limit_state"; "secret_usage_log"; "leak_detection_events"; "secrets"; "wasm_tools";
   "routines"; "memory_documents"; "conversations"].

(** [REFERENCES parent ON DELETE CASCADE] among these tables. *)
Definition CASCADES : list (string * string) :=
  [("secrets", "secret_usage_log"); ("wasm_tools", "tool_rate_limit_state")].

Definition rows_of (table : string) (o : Owned) : list OwnedRow := default [] (ow_tables o !! table).

Definition ids_of (table id : string) (o : Owned) : list Uuid :=
  or_id <$> base.filter (fun r => or_user r = id) (rows_of table o).

Definition refers (gone : list Uuid) (x : option Uuid) : bool := match x with Some i => bool_decide (i ∈ gone) | None => false end.

Definition set_tables (m : gmap string (list OwnedRow)) (o : Owned) : Owned :=
  mkOwned m (ow_jobs o) (ow_runs o) (ow_events o) (ow_calls o) (ow_tool_jobs o).

Definition drop_children (gone : list Uuid) (parent : string) (m : gmap string (list OwnedRow)) : gmap string (list OwnedRow) :=
  foldr (fun pc m => if (pc.1 =? parent)%string then alter (base.filter (fun r => refers gone (or_parent r) = false)) pc.2 m else m)
    m CASCADES.

(** Rows of jobs and of calls keep a conversation from being deleted; the runs of a routine go with it. *)
Definition delete_owned (table id : string) (o : Owned) : Result string Owned :=
  let gone := ids_of table id o in
  let tables := drop_children gone table (alter (base.filter (fun r => or_user r ≠ id)) table (ow_tables o)) in
  if (table =? "conversations")%string &&
     (existsb (fun j => refers gone (jr_conversation j)) (ow_jobs o) || existsb (fun c => refers gone (ca_conversation c)) (ow_calls o))
  then Err (up_text StillReferenced)
  else
    let runs := if (table =? "routines")%string then base.filter (fun r => rf_routine r ∉ gone) (ow_runs o) else ow_runs o in
    Ok (mkOwned tables (ow_jobs o) runs (ow_events o) (ow_calls o) (ow_tool_jobs o)).

Fixpoint delete_all_owned (tables : list string) (id : string) (o : Owned) : Result string Owned :=
  match tables with
  | [] => Ok o
  | t :: tables => match delete_owned t id o with Ok o => delete_all_owned tables id o | Err e => Err e end
  end.

Definition job_ids (id : string) (o : Owned) : list Uuid := jr_id <$> base.filter (fun j => jr_user j = id) (ow_jobs o).

(** The events of the jobs, then the jobs: runs of other users and tools still refer to them. *)
Definition delete_jobs (id : string) (o : Owned) : Result string Owned :=
  let gone := job_ids id o in
  if existsb (fun r => refers gone (rf_job r)) (ow_runs o) || existsb (refers gone) (ow_tool_jobs o)
  then Err (up_text StillReferenced)
  else Ok (mkOwned (ow_tables o) (base.filter (fun j => jr_user j ≠ id) (ow_jobs o)) (ow_runs o)
             (base.filter (fun j => j ∉ gone) (ow_events o)) (base.filter (fun c => refers gone (ca_job c) = false) (ow_calls o))
             (ow_tool_jobs o)).

Definition delete_user (id : string) : St UserDb (Result string bool) :=
  _ ←? conn;
  act (fun d =>
    match match delete_all_owned USER_TABLES id (ud_owned d) with Ok o => delete_jobs id o | Err e => Err e end with
    | Err e => (Err e, d)
    | Ok o =>
        (Ok (bool_decide (is_Some (ud_users d !! id))),
         mkUserDb (delete id (without_creator id <$> ud_users d))
           (base.filter (fun x => at_user_id (tk_record x.2) ≠ id) (ud_tokens d)) o (ud_operations d))
    end).

(** *** Usage *)

(** [COALESCE(j.user_id, c.user_id)] of the two joins. *)
Definition call_user (o : Owned) (c : CallRow) : option string :=
  let job := i ← ca_job c; jr_user <$> head (base.filter (fun j => jr_id j = i) (ow_jobs o)) in
  match job with
  | Some user => Some user
  | None => i ← ca_conversation c; or_user <$> head (base.filter (fun r => or_id r = i) (rows_of "conversations" o))
  end.

Record UserUsageStats : Type := mkUsage {
  uu_user : option string;
  uu_model : string;
  uu_call_count : Z;
  uu_input_tokens : Z;
  uu_output_tokens : Z;
  uu_total_cost : dec
}.

Record UserSummaryStats : Type := mkSummary {
  us_user : option string;
  us_job_count : Z;
  us_total_cost : dec;
  us_last_active_at : option Z
}.

Definition sum_of (f : CallRow -> Z) (l : list CallRow) : Z := foldl (fun n c => n + f c)%Z 0%Z l.
Definition cost_of (l : list CallRow) : dec := foldl (fun n c => dec_add n (ca_cost c)) dec_zero l.

Definition costlier (a b : UserUsageStats) : Prop := dec_ltb (uu_total_cost a) (uu_total_cost b) = false.
#[export] Instance costlier_dec a b : Decision (costlier a b).
Proof. unfold costlier. apply _. Defined.

Definition usage_group (o : Owned) (calls : list CallRow) (key : option string * string) : UserUsageStats :=
  let l := base.filter (fun c => (call_user o c, ca_model c) = key) calls in
  mkUsage key.1 key.2 (Z.of_nat (length l)) (sum_of ca_input_tokens l) (sum_of ca_output_tokens l) (cost_of l).

Definition asked (user owner : option string) : bool := match user with Some _ => bool_decide (owner = user) | None => true end.

(** The calls of the [WHERE] clause. *)
Definition usage_calls (user : option string) (since : Z) (o : Owned) : list CallRow :=
  base.filter (fun c => (since ≤ ca_created_at c)%Z ∧ asked user (call_user o c) = true) (ow_calls o).

Definition usage_rows (user : option string) (since : Z) (o : Owned) : list UserUsageStats :=
  let calls := usage_calls user since o in
  merge_sort costlier (usage_group o calls <$> remove_dups ((fun c => (call_user o c, ca_model c)) <$> calls)).

Definition max_of (l : list Z) : option Z :=
  match l with [] => None | x :: l => Some (foldl Z.max x l) end.

Definition summary_group (o : Owned) (calls : list CallRow) (user : option string) : UserSummaryStats :=
  let l := base.filter (fun c => call_user o c = user) calls in
  let jobs := remove_dups (base.filter (fun i => i ∈ (jr_id <$> ow_jobs o)) (omap ca_job l)) in
  mkSummary user (Z.of_nat (length jobs)) (cost_of l) (max_of (ca_created_at <$> l)).

Definition summary_rows (user : option string) (o : Owned) : list UserSummaryStats :=
  let calls := base.filter (fun c => asked user (call_user o c) = true) (ow_calls o) in
  summary_group o calls <$> remove_dups (call_user o <$> calls).

(** [row.get("user_id")] of a column that is null panics. *)
Inductive StatsError : Type := StatsDb (e : string) | NullUser.

Definition collect_stats {A} (user : A -> option string) (rows : list A) : Result StatsError (list A) :=
  if existsb (fun r => negb (bool_decide (is_Some (user r)))) rows then Err NullUser else Ok rows.

Definition user_usage_stats (user : option string) (since : Z) : St UserDb (Result StatsError (list UserUsageStats)) :=
  r ← conn;
  match r with
  | Err e => mret (Err (StatsDb e))
  | Ok _ => gets (fun d => collect_stats uu_user (usage_rows user since (ud_owned d)))
  end.

Definition user_summary_stats (user : option string) : St UserDb (Result StatsError (list UserSummaryStats)) :=
  r ← conn;
  match r with
  | Err e => mret (Err (StatsDb e))
  | Ok _ => gets (fun d => collect_stats us_user (summary_rows user (ud_owned d)))
  end.
End operations.
End store.

(** ** Theorems *)

Section laws.
  Context `{Decimal} `{!UserPg}.
  Implicit Types (d : UserDb) (u : UserRecord).

(** *** What the constraints of the tables say *)

Record users_ok d : Prop := {
  uo_key id u : ud_users d !! id = Some u → u_id u = id;
  uo_creator id u c : ud_users d !! id = Some u → u_created_by u = Some c → is_Some (ud_users d !! c);
  uo_email id id' u u' e :
    ud_users d !! id = Some u → ud_users d !! id' = Some u' → u_email u = Some e → u_email u' = Some e → id = id';
  uo_token_key i row : ud_tokens d !! i = Some row → at_id (tk_record row) = i;
  uo_owner i row : ud_tokens d !! i = Some row → is_Some (ud_users d !! at_user_id (tk_record row))
}.

Lemma conn_ok : preserves users_ok conn.
Proof. intros d Hd. unfold conn. split; cbn; apply Hd. Qed.

Lemma email_free u d id u' e :
  email_taken u d = false → ud_users d !! id = Some u' → u_email u = Some e → u_email u' ≠ Some e.
Proof.
  intros Ht Hu' He He'. unfold email_taken in Ht. rewrite He in Ht. apply not_true_iff_false in Ht. apply Ht, existsb_exists.
  exists u'. split; [|by apply bool_decide_eq_true]. apply list_elem_of_In, list_elem_of_fmap. exists (id, u').
  by rewrite elem_of_map_to_list.
Qed.

Lemma insert_user_ok u d : users_ok d → users_ok (insert_user u d).2.
Proof.
  intros Hd. unfold insert_user. case_bool_decide as Hnew; [done|]. destruct (email_taken u d) eqn:He; [done|].
  destruct (creator_known u d) eqn:Hc; [|done]. apply eq_None_not_Some in Hnew.
  assert (∀ c, is_Some (ud_users d !! c) → is_Some (<[u_id u:=u]> (ud_users d) !! c)) as Hkeep.
  { intros c Hs. destruct (decide (u_id u = c)) as [<-|Hn]; [by rewrite lookup_insert_eq|by rewrite lookup_insert_ne]. }
  split; cbn.
  - intros id u' [[<- <-]|[? Hu']]%lookup_insert_Some; [done|by eapply uo_key].
  - intros id u' c [[<- <-]|[? Hu']]%lookup_insert_Some Hby.
    + unfold creator_known in Hc. rewrite Hby in Hc.
      apply orb_true_iff in Hc as [->%bool_decide_eq_true|Hs%bool_decide_eq_true]; [by rewrite lookup_insert_eq|by apply Hkeep].
    + apply Hkeep. by eapply uo_creator.
  - intros id id' u1 u2 e [[<- <-]|[? Hu1]]%lookup_insert_Some [[<- <-]|[? Hu2]]%lookup_insert_Some E1 E2; [done| | |by eapply uo_email].
    + by edestruct (email_free u d id' u2 e).
    + by edestruct (email_free u d id u1 e).
  - apply Hd.
  - intros i row Hrow. apply Hkeep. by eapply uo_owner.
Qed.

Lemma insert_token_ok hash t d : users_ok d → users_ok (insert_token hash t d).2.
Proof.
  intros Hd. unfold insert_token. case_bool_decide; [done|]. case_bool_decide as Hu; [|done].
  split; cbn; try apply Hd.
  - intros i row [[<- <-]|[? Hrow]]%lookup_insert_Some; [done|by eapply uo_token_key].
  - intros i row [[<- <-]|[? Hrow]]%lookup_insert_Some; [done|by eapply uo_owner].
Qed.

(** An update that keeps what the constraints are about. *)
Definition keeps_keys (f : UserRecord → UserRecord) : Prop :=
  ∀ u, u_id (f u) = u_id u ∧ u_email (f u) = u_email u ∧ u_created_by (f u) = u_created_by u.

Lemma alter_user_ok f id d : keeps_keys f → users_ok d → users_ok (set_users (alter f id (ud_users d)) d).
Proof.
  intros Hf Hd.
  assert (∀ i u, alter f id (ud_users d) !! i = Some u →
    ∃ v, ud_users d !! i = Some v ∧ u_id u = u_id v ∧ u_email u = u_email v ∧ u_created_by u = u_created_by v) as Hold.
  { intros i u Hu. destruct (decide (id = i)) as [<-|Hn].
    - rewrite lookup_alter_eq in Hu. destruct (ud_users d !! id) as [v|] eqn:Hv; [|done]. injection Hu as <-.
      exists v. split; [done|]. apply Hf.
    - rewrite lookup_alter_ne in Hu by done. by exists u. }
  assert (∀ c, is_Some (ud_users d !! c) → is_Some (alter f id (ud_users d) !! c)) as Hkeep.
  { intros c [v Hv]. destruct (decide (id = c)) as [->|Hn];
      [rewrite lookup_alter_eq, Hv|rewrite lookup_alter_ne, Hv by done]; by eexists. }
  split; cbn.
  - intros i u (v & Hv & -> & _)%Hold. by eapply uo_key.
  - intros i u c (v & Hv & _ & _ & Hc)%Hold Hby. apply Hkeep. eapply uo_creator; [done..|]. by rewrite <- Hc.
  - intros i i' u u' e (v & Hv & _ & E & _)%Hold (v' & Hv' & _ & E' & _)%Hold. rewrite E, E'. by eapply uo_email.
  - apply Hd.
  - intros i row Hrow. apply Hkeep. by eapply uo_owner.
Qed.

Lemma update_user_ok f id : keeps_keys f → preserves users_ok (update_user f id).
Proof.
  intros Hf. unfold update_user, ok. apply preserves_try; [apply conn_ok|intros _]. preserve.
  apply preserves_modify. intros d Hd. by apply alter_user_ok.
Qed.

Lemma write_token_ok i row' d :
  (∀ row, ud_tokens d !! i = Some row → at_id (tk_record row') = at_id (tk_record row) ∧
                                       at_user_id (tk_record row') = at_user_id (tk_record row)) →
  is_Some (ud_tokens d !! i) → users_ok d → users_ok (set_tokens (<[i:=row']> (ud_tokens d)) d).
Proof.
  intros Hf [row Hrow] Hd. destruct (Hf row Hrow) as [Hid Hus]. split; cbn; try apply Hd.
  - intros j r [[<- <-]|[? Hr]]%lookup_insert_Some; [|by eapply uo_token_key]. rewrite Hid. by eapply uo_token_key.
  - intros j r [[<- <-]|[? Hr]]%lookup_insert_Some; [|by eapply uo_owner]. rewrite Hus. by eapply uo_owner.
Qed.

Lemma delete_user_ok id : preserves users_ok (delete_user id).
Proof.
  unfold delete_user. apply preserves_try; [apply conn_ok|intros _]. apply preserves_act. intros d Hd.
  destruct (match delete_all_owned _ _ _ with Ok o => _ | Err e => _ end) as [o|e]; [|done].
  assert (∀ i u, delete id (without_creator id <$> ud_users d) !! i = Some u →
    i ≠ id ∧ ∃ v, ud_users d !! i = Some v ∧ u_id u = u_id v ∧ u_email u = u_email v ∧
      (∀ c, u_created_by u = Some c → c ≠ id ∧ u_created_by v = Some c)) as Hold.
  { intros i u [Hn Hu]%lookup_delete_Some. split; [done|]. rewrite lookup_fmap in Hu.
    destruct (ud_users d !! i) as [v|]; [|done]. injection Hu as <-. exists v. unfold without_creator. case_bool_decide as Hc; cbn.
    - by repeat split.
    - repeat split; [|done]. intros ->. done. }
  assert (∀ c, c ≠ id → is_Some (ud_users d !! c) → is_Some (delete id (without_creator id <$> ud_users d) !! c)) as Hkeep.
  { intros c Hn [v Hv]. rewrite lookup_delete_ne, lookup_fmap, Hv by done. by eexists. }
  split; cbn.
  - intros i u (_ & v & Hv & -> & _)%Hold. by eapply uo_key.
  - intros i u c (_ & v & Hv & _ & _ & Hc)%Hold Hby. destruct (Hc c Hby). apply Hkeep; [done|]. by eapply uo_creator.
  - intros i i' u u' e (_ & v & Hv & _ & E & _)%Hold (_ & v' & Hv' & _ & E' & _)%Hold. rewrite E, E'. by eapply uo_email.
  - intros i row [Hrow _]%map_lookup_filter_Some. by eapply uo_token_key.
  - intros i row [Hrow Hn]%map_lookup_filter_Some. apply Hkeep; [done|]. by eapply uo_owner.
Qed.

(** The statements that write. *)
Inductive store_write : St UserDb unit → Prop :=
| write_user u : store_write (_ ← create_user u; mret tt)
| write_user_with_token id now u name hash prefix expires :
    store_write (_ ← create_user_with_token id now u name hash prefix expires; mret tt)
| write_status now id status : store_write (_ ← update_user_status now id status; mret tt)
| write_role now id role : store_write (_ ← update_user_role now id role; mret tt)
| write_profile now id name metadata : store_write (_ ← update_user_profile now id name metadata; mret tt)
| write_login now id : store_write (_ ← record_login now id; mret tt)
| write_token id now user name hash prefix expires : store_write (_ ← create_api_token id now user name hash prefix expires; mret tt)
| write_revoked now token user : store_write (_ ← revoke_api_token now token user; mret tt)
| write_usage now token : store_write (_ ← record_token_usage now token; mret tt)
| write_deleted id : store_write (_ ← delete_user id; mret tt).

Lemma create_user_with_token_ok id now u name hash prefix expires :
  preserves users_ok (create_user_with_token id now u name hash prefix expires).
Proof.
  apply preserves_try; [apply conn_ok|intros _]. apply preserves_act. intros d Hd.
  pose proof (insert_user_ok u d Hd) as H1. destruct (insert_user u d) as [[?|e] d']; [|done]. cbn in H1.
  pose proof (insert_token_ok hash (new_token id now (u_id u) name prefix expires) d' H1) as H2.
  by destruct (insert_token _ _ d') as [[?|e] d''].
Qed.

Lemma revoke_api_token_ok now token user : preserves users_ok (revoke_api_token now token user).
Proof.
  apply preserves_try; [apply conn_ok|intros _]. apply preserves_act. intros d Hd.
  destruct (ud_tokens d !! token) as [row|] eqn:Hrow; [|done]. destruct (_ && _); [|done]. cbn [snd].
  apply write_token_ok; [|by eexists|done]. intros row' Hrow'. by simplify_eq.
Qed.

Lemma record_token_usage_ok now token : preserves users_ok (record_token_usage now token).
Proof.
  unfold record_token_usage, ok. apply preserves_try; [apply conn_ok|intros _]. preserve. apply preserves_modify. intros d Hd.
  destruct (ud_tokens d !! token) as [row|] eqn:Hrow.
  - replace (alter (used now) token (ud_tokens d)) with (<[token:=used now row]> (ud_tokens d)).
    + apply write_token_ok; [|by eexists|done]. intros row' Hrow'. by simplify_eq.
    + apply map_eq. intros i. destruct (decide (token = i)) as [<-|Hn].
      * by rewrite lookup_insert_eq, lookup_alter_eq, Hrow.
      * by rewrite lookup_insert_ne, lookup_alter_ne.
  - replace (alter (used now) token (ud_tokens d)) with (ud_tokens d); [by destruct d|].
    apply map_eq. intros i. destruct (decide (token = i)) as [<-|Hn]; [by rewrite lookup_alter_eq, Hrow|by rewrite lookup_alter_ne].
Qed.

Lemma store_write_ok c : store_write c → preserves users_ok c.
Proof.
  assert (∀ A (c : St UserDb A), preserves users_ok c → preserves users_ok (_ ← c; mret tt)) as Hseq.
  { intros A c' Hc. preserve. }
  destruct 1; apply Hseq; try (apply update_user_ok; intros u; by repeat split).
  - apply preserves_try; [apply conn_ok|intros _]. apply preserves_act, insert_user_ok.
  - apply create_user_with_token_ok.
  - apply preserves_try; [apply conn_ok|intros _]. apply preserves_act, insert_token_ok.
  - apply revoke_api_token_ok.
  - apply record_token_usage_ok.
  - apply delete_user_ok.
Qed.

(** The constraints of the two tables hold however the statements of the store follow each other: keys name their rows, creators and
    owners of tokens exist, and no two users share an address. *)
Theorem user_tables_sound d : users_ok d → ∀ l : list (St UserDb unit), Forall store_write l → users_ok (st_iter (fun c => c) l d).2.
Proof.
  intros Hd l Hl. revert d Hd. induction Hl as [|c l Hc _ IH]; intros d Hd; [done|]. cbn [st_iter]. rewrite bind_run.
  apply IH. by apply store_write_ok.
Qed.

(** *** Deleting a user *)

Definition table_rows (t : string) (m : gmap string (list OwnedRow)) : list OwnedRow := default [] (m !! t).

Lemma alter_rows (P : OwnedRow → Prop) `{∀ r, Decision (P r)} t t' m r :
  r ∈ table_rows t' (alter (base.filter P) t m) ↔ r ∈ table_rows t' m ∧ (t' = t → P r).
Proof.
  unfold table_rows. destruct (decide (t = t')) as [<-|Hn].
  - rewrite lookup_alter_eq. destruct (m !! t); cbn; [rewrite list_elem_of_filter|]; set_solver.
  - rewrite lookup_alter_ne by done. naive_solver.
Qed.

Lemma drop_children_rows gone parent t m r :
  (r ∈ table_rows t (drop_children gone parent m) → r ∈ table_rows t m) ∧
  (r ∈ table_rows t m → or_parent r = None → r ∈ table_rows t (drop_children gone parent m)).
Proof.
  unfold drop_children. induction CASCADES as [|[p c] l [IH1 IH2]]; [done|]. cbn [foldr fst snd].
  destruct (p =? parent)%string; [|done]. rewrite !alter_rows. split; [naive_solver|].
  intros Hr Hp. split; [by apply IH2|]. intros _. by rewrite Hp.
Qed.

Lemma delete_owned_rows t id o o' :
  delete_owned t id o = Ok o' →
  ow_jobs o' = ow_jobs o ∧
  (∀ t' r, r ∈ rows_of t' o' → r ∈ rows_of t' o ∧ (t' = t → or_user r ≠ id)) ∧
  (∀ t' r, r ∈ rows_of t' o → or_user r ≠ id → or_parent r = None → r ∈ rows_of t' o').
Proof.
  unfold delete_owned. destruct (_ && _); [done|]. intros [= <-]. split; [done|].
  change (λ t' o, rows_of t' o) with (λ t' o, table_rows t' (ow_tables o)). unfold rows_of. cbn [ow_tables]. split; intros t' r.
  - intros Hr%drop_children_rows. by apply alter_rows in Hr.
  - intros Hr Hu Hp. apply drop_children_rows; [|done]. by apply alter_rows.
Qed.

Lemma delete_all_owned_rows tables id o o' :
  delete_all_owned tables id o = Ok o' →
  ow_jobs o' = ow_jobs o ∧
  (∀ t r, r ∈ rows_of t o' → r ∈ rows_of t o ∧ (t ∈ tables → or_user r ≠ id)) ∧
  (∀ t r, r ∈ rows_of t o → or_user r ≠ id → or_parent r = None → r ∈ rows_of t o').
Proof.
  revert o. induction tables as [|t tables IH]; intros o; cbn [delete_all_owned]; [intros [= <-]; set_solver|].
  destruct (delete_owned t id o) as [o1|e] eqn:Hd; [|done]. intros (Hj & Hin & Hout)%IH.
  apply delete_owned_rows in Hd as (Hj1 & Hin1 & Hout1). split; [by rewrite Hj|]. split.
  - intros t' r Hr. destruct (Hin _ _ Hr) as [Hr1 Hu1]. destruct (Hin1 _ _ Hr1) as [Hr2 Hu2]. split; [done|].
    intros [->|Ht]%elem_of_cons; auto.
  - eauto.
Qed.

(** What is left of a user, and what the other users keep. *)
Record erased (id : string) d d' : Prop := {
  er_user : ud_users d' !! id = None;
  er_creator i u : ud_users d' !! i = Some u → u_created_by u ≠ Some id;
  er_token i row : ud_tokens d' !! i = Some row → at_user_id (tk_record row) ≠ id;
  er_rows t r : t ∈ USER_TABLES → r ∈ rows_of t (ud_owned d') → or_user r ≠ id;
  er_jobs j : j ∈ ow_jobs (ud_owned d') → jr_user j ≠ id;
  kept_user i : i ≠ id → ud_users d' !! i = without_creator id <$> ud_users d !! i;
  kept_token i row : ud_tokens d !! i = Some row → at_user_id (tk_record row) ≠ id → ud_tokens d' !! i = Some row;
  kept_rows t r : r ∈ rows_of t (ud_owned d) → or_user r ≠ id → or_parent r = None → r ∈ rows_of t (ud_owned d');
  kept_jobs j : j ∈ ow_jobs (ud_owned d) → jr_user j ≠ id → j ∈ ow_jobs (ud_owned d')
}.

Lemma delete_jobs_rows id o o' :
  delete_jobs id o = Ok o' → ow_tables o' = ow_tables o ∧ ∀ j, j ∈ ow_jobs o' ↔ j ∈ ow_jobs o ∧ jr_user j ≠ id.
Proof.
  unfold delete_jobs. destruct (_ || _); [done|]. intros [= <-]. split; [done|]. intros j. cbn. rewrite list_elem_of_filter. naive_solver.
Qed.

(** Deleting a user is all or nothing.  When it succeeds nothing of the user is left in the tables it names, nobody is
    recorded as created by the user, and the users, tokens, rows and jobs of the others are still there; when it
    fails the tables are as they were. *)
Theorem deletion_all_or_nothing id d :
  match delete_user id d with
  | (Err _, d') => ud_users d' = ud_users d ∧ ud_tokens d' = ud_tokens d ∧ ud_owned d' = ud_owned d
  | (Ok found, d') => (found = true ↔ is_Some (ud_users d !! id)) ∧ erased id d d'
  end.
Proof.
  unfold delete_user, st_try. rewrite bind_run. unfold conn. cbn [fst snd]. destruct (up_fault _); [done|]. unfold act. cbn [ud_owned].
  destruct (delete_all_owned USER_TABLES id (ud_owned d)) as [o1|e] eqn:Hall; [|clear Hall; done].
  destruct (delete_jobs id o1) as [o|e] eqn:Hjobs; [|clear Hall Hjobs; done]. cbn [ud_users ud_tokens ud_operations].
  apply delete_all_owned_rows in Hall as (Hj1 & Hin & Hout). apply delete_jobs_rows in Hjobs as [Ht Hj].
  assert (∀ t, rows_of t o = rows_of t o1) as Hrows by (intros t; unfold rows_of; by rewrite Ht).
  split; [by rewrite bool_decide_eq_true|]. split; cbn.
  - by rewrite lookup_delete_eq.
  - intros i u [_ Hu]%lookup_delete_Some. rewrite lookup_fmap in Hu. destruct (ud_users d !! i); [|done]. injection Hu as <-.
    unfold without_creator. by case_bool_decide.
  - by intros i row [_ Hn]%map_lookup_filter_Some.
  - intros t r Htab Hr. rewrite Hrows in Hr. apply Hin in Hr as [_ Hr]. auto.
  - intros j Hjob. by apply Hj in Hjob as [_ ?].
  - intros i Hn. by rewrite lookup_delete_ne, lookup_fmap.
  - intros i row Hrow Hn. by apply map_lookup_filter_Some.
  - intros t r. rewrite Hrows. apply Hout.
  - intros j Hjob Hn. apply Hj. by rewrite Hj1.
Qed.

(** The tables before the conversations are deleted without regard to who refers to them. *)
Lemma delete_owned_other t id o :
  t ≠ "conversations" →
  ∃ o', delete_owned t id o = Ok o' ∧ rows_of "conversations" o' = rows_of "conversations" o ∧ ow_calls o' = ow_calls o ∧
    ow_jobs o' = ow_jobs o.
Proof.
  intros Hn. unfold delete_owned. apply String.eqb_neq in Hn as Hb. rewrite Hb. eexists. split; [reflexivity|]. split; [|done].
  unfold rows_of, drop_children, CASCADES. cbn [ow_tables foldr fst snd].
  destruct ("secrets" =? t)%string, ("wasm_tools" =? t)%string; by rewrite ?lookup_alter_ne.
Qed.

Lemma delete_before_conversations tables id o :
  "conversations" ∉ tables →
  ∃ o', delete_all_owned (tables ++ ["conversations"]) id o = delete_owned "conversations" id o' ∧
    rows_of "conversations" o' = rows_of "conversations" o ∧ ow_calls o' = ow_calls o ∧ ow_jobs o' = ow_jobs o.
Proof.
  revert o. induction tables as [|t tables IH]; intros o Hn.
  - exists o. split; [|done]. cbn [app delete_all_owned]. by destruct (delete_owned _ id o).
  - destruct (delete_owned_other t id o) as (o1 & Ho1 & Hr1 & Hc1 & Hj1); [set_solver|].
    destruct (IH o1) as (o2 & Ho2 & Hr2 & Hc2 & Hj2); [set_solver|].
    exists o2. cbn [app delete_all_owned]. rewrite Ho1, Ho2. by rewrite Hr2, Hc2, Hj2.
Qed.

(** A user one of whose conversations a recorded call or a job still names cannot be deleted: the conversations go before the
    jobs, and the constraint of the call or of the job stops the transaction. *)
Theorem chat_blocks_deletion id d row :
  row ∈ rows_of "conversations" (ud_owned d) → or_user row = id →
  (∃ c, c ∈ ow_calls (ud_owned d) ∧ ca_conversation c = Some (or_id row)) ∨
  (∃ j, j ∈ ow_jobs (ud_owned d) ∧ jr_conversation j = Some (or_id row)) →
  up_fault (ud_operations d) = None →
  (delete_user id d).1 = Err (up_text StillReferenced) ∧ ud_users (delete_user id d).2 = ud_users d.
Proof.
  intros Hrow Hu Href Hf. unfold delete_user, st_try. rewrite bind_run. unfold conn. cbn [fst snd]. rewrite Hf. unfold act.
  cbn [ud_owned].
  assert (delete_all_owned USER_TABLES id (ud_owned d) = Err (up_text StillReferenced)) as ->; [|done].
  destruct (delete_before_conversations ["settings"; "heartbeat_state"; "tool_rate_limit_state"; "secret_usage_log";
    "leak_detection_events"; "secrets"; "wasm_tools"; "routines"; "memory_documents"] id (ud_owned d))
    as (o & Ho & Hr & Hc & Hj); [by apply (bool_decide_unpack _); vm_compute|].
  transitivity (delete_owned "conversations" id o); [exact Ho|]. clear Ho. unfold delete_owned.
  change ("conversations" =? "conversations")%string with true. rewrite Hc, Hj, andb_true_l.
  assert (∀ x, x = Some (or_id row) → refers (ids_of "conversations" id o) x = true) as Hrefers.
  { intros x ->. apply bool_decide_eq_true. unfold ids_of. apply list_elem_of_fmap. exists row. split; [done|].
    apply list_elem_of_filter. by rewrite Hr. }
  replace (existsb _ (ow_jobs (ud_owned d)) || existsb _ (ow_calls (ud_owned d))) with true; [done|]. symmetry.
  apply orb_true_iff. rewrite !existsb_exists.
  destruct Href as [(c & Hin & Hx)|(j & Hin & Hx)]; [right; exists c|left; exists j];
    (split; [by apply list_elem_of_In|by apply Hrefers]).
Qed.

(** *** Tokens *)

(** What the join returns. *)
Lemma token_rows_elem `{!UserPgLaws} now hash d t u :
  (t, u) ∈ token_rows now hash d ↔
  ∃ i row, ud_tokens d !! i = Some row ∧ live_token now hash row = true ∧ tk_record row = t ∧
    ud_users d !! at_user_id t = Some u ∧ u_status u = "active".
Proof.
  unfold token_rows. rewrite list_elem_of_omap. setoid_rewrite list_elem_of_filter.
  setoid_rewrite up_scan_tokens_all. setoid_rewrite list_elem_of_fmap. unfold join_user. split.
  - intros (row & (Hl & [[i row0] [-> Hrow%elem_of_map_to_list]]) & Hj). cbn [snd] in *.
    destruct (ud_users d !! _) as [v|] eqn:Hv; [|done]. cbn in Hj. destruct (u_status v =? "active")%string eqn:Hs; [|done].
    injection Hj as <- <-. apply String.eqb_eq in Hs. by exists i, row0.
  - intros (i & row & Hrow & Hl & <- & Hu & Hs). exists row. split.
    + split; [done|]. exists (i, row). by rewrite elem_of_map_to_list.
    + rewrite Hu. cbn. by rewrite Hs.
Qed.

Lemma authenticate_token_found `{!UserPgLaws} now hash d t u d' :
  authenticate_token now hash d = (Ok (Some (t, u)), d') →
  ∃ i row, ud_tokens d !! i = Some row ∧ live_token now hash row = true ∧ tk_record row = t ∧
    ud_users d !! at_user_id t = Some u ∧ u_status u = "active".
Proof.
  unfold authenticate_token, st_try. rewrite bind_run. unfold conn. cbn [fst snd]. destruct (up_fault _); [done|]. unfold gets.
  intros Ha. apply (token_rows_elem now hash d). change (token_rows now hash (mkUserDb _ _ _ _)) with (token_rows now hash d) in Ha.
  destruct (token_rows now hash d) as [|[t' u'] [|? ?]]; simplify_eq. set_solver.
Qed.

(** A query changes no table. *)
Definition same_tables d d' : Prop := ud_users d' = ud_users d ∧ ud_tokens d' = ud_tokens d ∧ ud_owned d' = ud_owned d.

Lemma authenticate_token_reads now hash d : same_tables d (authenticate_token now hash d).2.
Proof. unfold authenticate_token, st_try. rewrite bind_run. unfold conn. cbn [fst snd]. by destruct (up_fault _). Qed.

(** *** Usage *)

Definition total (l : list Z) : Z := foldr Z.add 0%Z l.

Lemma total_app l l' : total (l ++ l') = (total l + total l')%Z.
Proof. unfold total. induction l as [|x l IH]; cbn; [done|]. rewrite IH. lia. Qed.

Lemma total_perm l l' : l ≡ₚ l' → total l = total l'.
Proof. unfold total. induction 1; cbn; lia. Qed.

Lemma sum_of_total f l : sum_of f l = total (f <$> l).
Proof.
  unfold sum_of, total. assert (∀ n, foldl (λ n c, (n + f c)%Z) n l = (n + foldr Z.add 0 (f <$> l))%Z) as ->; [|lia].
  induction l as [|c l IH]; intros n; cbn; [lia|]. rewrite IH. lia.
Qed.

(** Every element is in the group of its key, and in no other. *)
Lemma total_by_key {K} `{EqDecision K} (key : CallRow → K) (f : CallRow → Z) l ks :
  NoDup ks → (∀ c, c ∈ l → key c ∈ ks) →
  total ((fun k => total (f <$> base.filter (fun c => key c = k) l)) <$> ks) = total (f <$> l).
Proof.
  intros Hnd. induction l as [|c l IH]; intros Hin.
  { unfold total. clear. induction ks as [|k ks IHk]; [done|]. by cbn. }
  cbn [fmap list_fmap] in *. change (total (f c :: ?l)) with (f c + total l)%Z.
  rewrite <- IH by set_solver. specialize (Hin c ltac:(set_solver)). clear IH.
  induction Hnd as [|k ks Hk Hnd IHk]; [set_solver|]. cbn [fmap list_fmap]. change (total (?x :: ?l)) with (x + total l)%Z.
  rewrite filter_cons. destruct (decide (key c = k)) as [Heq|Hn].
  - cbn [fmap list_fmap]. change (total (f c :: ?l)) with (f c + total l)%Z.
    rewrite (list_fmap_ext _ (fun k' => total (f <$> base.filter (fun c => key c = k') l)) ks); [lia|].
    intros i k' Hk'. rewrite filter_cons. destruct (decide (key c = k')) as [Heq'|]; [|done].
    destruct Hk. rewrite <- Heq, Heq'. by eapply list_elem_of_lookup_2.
  - rewrite IHk by set_solver. lia.
Qed.

(** The usage report accounts for every call of its period once: the groups are distinct, and their calls, input tokens and output
    tokens add up to those of the calls. *)
Theorem usage_accounts_for_calls user since o :
  let rows := usage_rows user since o in
  let calls := usage_calls user since o in
  NoDup ((fun r => (uu_user r, uu_model r)) <$> rows) ∧
  total (uu_call_count <$> rows) = Z.of_nat (length calls) ∧
  total (uu_input_tokens <$> rows) = total (ca_input_tokens <$> calls) ∧
  total (uu_output_tokens <$> rows) = total (ca_output_tokens <$> calls).
Proof.
  cbv zeta. unfold usage_rows. set (calls := usage_calls user since o). set (key := fun c => (call_user o c, ca_model c)).
  set (keys := remove_dups (key <$> calls)). set (rows := usage_group o calls <$> keys).
  assert (merge_sort costlier rows ≡ₚ rows) as Hp by apply merge_sort_Permutation.
  assert (NoDup keys) as Hnd by apply NoDup_remove_dups.
  assert (∀ c, c ∈ calls → key c ∈ keys) as Hin.
  { intros c Hc. apply elem_of_remove_dups. by apply list_elem_of_fmap_2. }
  assert (∀ (g : UserUsageStats → Z) f, (∀ k, g (usage_group o calls k) = total (f <$> base.filter (fun c => key c = k) calls)) →
    total (g <$> merge_sort costlier rows) = total (f <$> calls)) as Hsum.
  { intros g f Hg. rewrite (total_perm _ (g <$> rows)) by by rewrite Hp. unfold rows. rewrite <- list_fmap_compose.
    rewrite <- (total_by_key key f calls keys) by done. f_equal. apply list_fmap_ext. intros i k _. apply Hg. }
  split; [|split; [|split]].
  - rewrite Hp. unfold rows. rewrite <- list_fmap_compose. by rewrite (list_fmap_ext _ id), list_fmap_id by (by intros ? []).
  - rewrite (Hsum uu_call_count (fun _ => 1%Z)).
    + unfold total. clear. induction calls as [|c l IH]; [done|]. cbn [fmap list_fmap foldr length]. rewrite IH. lia.
    + intros k. cbn. unfold total. induction (base.filter _ calls) as [|c l IH]; [done|]. cbn [fmap list_fmap foldr length]. rewrite <- IH. lia.
  - apply Hsum. intros k. cbn. by rewrite sum_of_total.
  - apply Hsum. intros k. cbn. by rewrite sum_of_total.
Qed.
End laws.

(** ** A concrete database *)

Module UserDemo.
#[local] Existing Instance pico_decimal.

#[export] Instance user_pg : UserPg := {|
  up_text := fun v => match v with DuplicateUser | DuplicateEmail | DuplicateToken => "unique" | _ => "db error" end;
  up_fault := fun _ => None;
  up_scan_users := fun m => (map_to_list m).*2;
  up_scan_tokens := fun m => (map_to_list m).*2
|}.

#[export] Instance user_pg_laws : UserPgLaws.
Proof. by split. Qed.

Definition user (id role : string) : UserRecord := mkUser id None id "active" role 0 0 None None (JObject []).
Definition no_rows : Owned := mkOwned ∅ [] [] [] [] [].
Definition empty : UserDb := mkUserDb ∅ ∅ no_rows 0.

Lemma empty_ok : users_ok empty.
Proof. by split; cbn; intros. Qed.

Lemma user_tables_sound_witness :
  users_ok (st_iter (fun c => c)
    [(_ ← create_user_with_token 1 5 (user "ada" "admin") "initial" "hash" "0123" None; mret tt); (_ ← delete_user "ada"; mret tt)] empty).2.
Proof. apply (user_tables_sound empty empty_ok). repeat constructor. Defined.

Definition chatter : UserDb :=
  mkUserDb {["ada" := user "ada" "member"]} ∅
    (mkOwned {["conversations" := [mkOwnedRow 7 "ada" None]]} [] [] []
       [mkCallRow None (Some 7%N) "m" 10 20 0%Z 3] []) 0.

Lemma chat_blocks_deletion_witness :
  (delete_user "ada" chatter).1 = Err (up_text StillReferenced) ∧ ud_users (delete_user "ada" chatter).2 = ud_users chatter.
Proof.
  apply (chat_blocks_deletion "ada" chatter (mkOwnedRow 7 "ada" None)); [|done| |done].
  - apply list_elem_of_here.
  - left. eexists. split; [apply list_elem_of_here|done].
Defined.

Example usage_of_chatter : usage_rows None 0 (ud_owned chatter) = [mkUsage (Some "ada") "m" 1 10 20 0%Z].
Proof. vm_compute. reflexivity. Qed.
End UserDemo.
