(* ===== verification/Oidc.v ===== *)
(** * Oidc: signatures of the identity provider

    The part of [src/channels/web/auth.rs] that validates a JSON web token: signing keys and their cache, the conversion of DER signatures,
    verification and the claims.  The crates [jsonwebtoken], [base64] and [url] and the HTTP client are the class [OidcEnv];
    UTF-8 validation and the byte arithmetic are written out.  The two maps that all requests share are [OidcState]; time
    is in nanoseconds. *)

From Stdlib Require Import Ascii.
From stdpp Require Import pretty.
From S2P Require Import Prelude Text TextSearch Effects PathUtils ReplyText Routine.

(** ** Data *)

(** [jsonwebtoken::Algorithm] *)
Inductive Algorithm : Type :=
  HS256 | HS384 | HS512 | ES256 | ES384 | RS256 | RS384 | RS512 | PS256 | PS384 | PS512 | EdDSA.

#[export] Instance Algorithm_eq_dec : EqDecision Algorithm.
Proof. solve_decision. Defined.

(** [jsonwebtoken::jwk::KeyAlgorithm] *)
Inductive KeyAlgorithm : Type := Signing (a : Algorithm) | RSA1_5 | RSA_OAEP | RSA_OAEP_256.

Inductive OidcError : Type :=
| MissingKid
| UnsupportedAlgorithm (a : string)
| KeyFetch (e : string)
| InvalidSignature
| InvalidClaims (e : string).

Record GatewayOidcConfig : Type := mkOidcConfig {
  oc_header : string;
  oc_jwks_url : string;
  oc_issuer : option string;
  oc_audience : option string
}.

Record JwtHeader : Type := mkHeader { jh_kid : option string; jh_alg : Algorithm }.

(** What [validate_oidc_jwt] sets of a [Validation]; the check of the signature is off. *)
Record Validation : Type := mkValidation {
  va_algorithm : Algorithm;
  va_issuer : option string;
  va_audience : option string;
  va_validate_aud : bool
}.

(** A response of the key server: the announced length, and the body or what reading it fails with. *)
Inductive Fetched : Type :=
| SendFailed (e : string)
| StatusError (e : string)
| Body (content_length : option Z) (bytes : Result string string).

Class OidcEnv := {
  Key : Type;
  Jwk : Type;
  b64_decode : string -> option (list Z);
  b64_encode : list Z -> string;
  from_ec_pem : string -> Result string Key;
  from_ed_pem : string -> Result string Key;
  from_rsa_pem : string -> Result string Key;
  parse_jwk : string -> Result string Jwk;
  parse_jwks : string -> Result string (list Jwk);
  jwks_find : string -> list Jwk -> option Jwk;
  jwk_algorithm : Jwk -> option KeyAlgorithm;
  from_jwk : Jwk -> Result string Key;
  decode_header : string -> Result string JwtHeader;
  (** [crypto::verify]; [None] is an error *)
  crypto_verify : string -> string -> Key -> Algorithm -> option bool;
  decode_claims : string -> Key -> Validation -> Result string Json;
  byte_serialize : string -> string;
  (** the n-th request, and how long it takes *)
  http_get : nat -> string -> Fetched;
  http_took : nat -> Z;
  (** the order in which a [HashMap] is iterated *)
  key_order : gmap string (Key * Algorithm * Z) -> list (string * (Key * Algorithm * Z))
}.

Class OidcEnvLaws `{OidcEnv} : Prop := {
  http_takes_time n : (0 ≤ http_took n)%Z;
  key_order_all m : key_order m ≡ₚ map_to_list m
}.

(** ** DER signatures *)

(** [0x81 xx] and [0x82 xx yy]: the bytes of a long length. *)
Fixpoint read_length (n : nat) (len : Z) (der : list Z) (pos : nat) : option (Z * nat) :=
  match n with
  | O => Some (len, pos)
  | S n => b ← der !! pos; read_length n (len * 256 + b)%Z der (S pos)
  end.

Definition parse_der_length (der : list Z) (pos : nat) : option (Z * nat) :=
  b ← der !! pos;
  if (b <? 0x80)%Z then Some (b, S pos)
  else
    let num_bytes := Z.land b 0x7F in
    if (num_bytes =? 0)%Z || (2 <? num_bytes)%Z then None
    else read_length (Z.to_nat num_bytes) 0 der (S pos).

(** [der.get(pos..pos + len)] *)
Definition get_range (der : list Z) (pos len : nat) : option (list Z) :=
  if (pos + len <=? length der)%nat then Some (take len (drop pos der)) else None.

Definition strip_der_leading_zero (bytes : list Z) : list Z :=
  match bytes with
  | b :: (_ :: _) as rest => if (b =? 0)%Z then rest else bytes
  | _ => bytes
  end.

Definition component_len (alg : Algorithm) : option nat :=
  match alg with ES256 => Some 32 | ES384 => Some 48 | _ => None end.

(** One [INTEGER]: its bytes, and where the next value starts. *)
Definition parse_der_integer (size : nat) (der : list Z) (pos : nat) : option (list Z * nat) :=
  tag ← der !! pos;
  if (tag =? 0x02)%Z then
    '(len, pos) ← parse_der_length der (S pos);
    if (Z.of_nat (size + 1) <? len)%Z then None
    else bytes ← get_range der pos (Z.to_nat len); Some (bytes, (pos + Z.to_nat len)%nat)
  else None.

(** [raw[size - b.len()..size].copy_from_slice(b)] on zeros *)
Definition left_pad (size : nat) (bytes : list Z) : list Z := replicate (size - length bytes) 0%Z ++ bytes.

Definition try_der_to_raw (der : list Z) (alg : Algorithm) : option (list Z) :=
  size ← component_len alg;
  if (length der <? 6)%nat || negb (bool_decide (head der = Some 0x30%Z)) then None
  else
    '(_, pos) ← parse_der_length der 1;
    '(r_bytes, pos) ← parse_der_integer size der pos;
    '(s_bytes, _) ← parse_der_integer size der pos;
    let r := strip_der_leading_zero r_bytes in
    let s := strip_der_leading_zero s_bytes in
    if (size <? length r)%nat || (size <? length s)%nat then None
    else Some (left_pad size r ++ left_pad size s).

(** ** UTF-8, as [String::from_utf8] checks it *)

Definition byte_at (i : nat) (s : string) : option Z := (fun c => Z.of_nat (nat_of_ascii c)) <$> String.get i s.

Definition between (lo hi b : Z) : bool := (lo <=? b)%Z && (b <=? hi)%Z.
Definition continuation (b : Z) : bool := between 0x80 0xBF b.

(** The width of a character by its first byte; the second byte of a long one is in a range of its own. *)
Definition utf8_width (b : Z) : nat :=
  if (b <? 0x80)%Z then 1 else if between 0xC2 0xDF b then 2 else if between 0xE0 0xEF b then 3
  else if between 0xF0 0xF4 b then 4 else 0.

Definition second_ok (first b : Z) : bool :=
  if (first =? 0xE0)%Z then between 0xA0 0xBF b
  else if (first =? 0xED)%Z then between 0x80 0x9F b
  else if (first =? 0xF0)%Z then between 0x90 0xBF b
  else if (first =? 0xF4)%Z then between 0x80 0x8F b
  else continuation b.

(** [None]: the string ends within the character. *)
Definition utf8_error (index : nat) (len : option nat) : string :=
  match len with
  | Some n => cat ["invalid utf-8 sequence of "; show_nat n; " bytes from index "; show_nat index]
  | None => cat ["incomplete utf-8 byte sequence from index "; show_nat index]
  end.

(** The bytes after the second one. *)
Fixpoint more_ok (s : string) (index at_ : nat) (n seen : nat) : option string :=
  match n with
  | O => None
  | S n =>
      match byte_at at_ s with
      | None => Some (utf8_error index None)
      | Some b => if continuation b then more_ok s index (S at_) n (S seen) else Some (utf8_error index (Some seen))
      end
  end.

(** The error of the character at [index]. *)
Definition char_error (s : string) (index : nat) (first : Z) : option string :=
  match utf8_width first with
  | O => Some (utf8_error index (Some 1))
  | S O => None
  | S (S n) =>
      match byte_at (S index) s with
      | None => Some (utf8_error index None)
      | Some b => if second_ok first b then more_ok s index (S (S index)) n 2 else Some (utf8_error index (Some 1))
      end
  end.

Fixpoint utf8_go (fuel : nat) (s : string) (index : nat) : Result string string :=
  match fuel with
  | O => Ok s
  | S fuel =>
      match byte_at index s with
      | None => Ok s
      | Some b =>
          match char_error s index b with
          | Some e => Err e
          | None => utf8_go fuel s (index + utf8_width b)
          end
      end
  end.

Definition from_utf8 (s : string) : Result string string := utf8_go (S (String.length s)) s 0.

(** ** Keys *)

Definition KEY_CACHE_TTL : Z := 3600 * SECOND.
Definition FETCH_FAILURE_BACKOFF : Z := 10 * SECOND.
Definition KEY_CACHE_MAX_ENTRIES : nat := 64.
Definition MAX_JWKS_RESPONSE_BYTES : Z := 256 * 1024.

Definition algorithm_name (a : KeyAlgorithm) : string :=
  match a with
  | Signing HS256 => "HS256" | Signing HS384 => "HS384" | Signing HS512 => "HS512"
  | Signing ES256 => "ES256" | Signing ES384 => "ES384"
  | Signing RS256 => "RS256" | Signing RS384 => "RS384" | Signing RS512 => "RS512"
  | Signing PS256 => "PS256" | Signing PS384 => "PS384" | Signing PS512 => "PS512" | Signing EdDSA => "EdDSA"
  | RSA1_5 => "RSA1_5" | RSA_OAEP => "RSA_OAEP" | RSA_OAEP_256 => "RSA_OAEP_256"
  end.

Section oidc.
  Context `{OidcEnv}.

Abbreviation CachedKey := (Key * Algorithm * Z)%type (only parsing).

Definition fetched_at (k : CachedKey) : Z := k.2.

Record OidcState : Type := mkOidcState {
  os_now : Z;
  os_keys : gmap string (Key * Algorithm * Z);
  os_failures : gmap string Z;
  os_fetches : nat
}.

Definition set_keys (m : gmap string (Key * Algorithm * Z)) (s : OidcState) : OidcState := mkOidcState (os_now s) m (os_failures s) (os_fetches s).
Definition set_failures (m : gmap string Z) (s : OidcState) : OidcState := mkOidcState (os_now s) (os_keys s) m (os_fetches s).

Definition resolve_algorithm (jwk : Jwk) : Result OidcError Algorithm :=
  match jwk_algorithm jwk with
  | Some (Signing ((ES256 | ES384 | RS256 | RS384 | RS512 | PS256 | PS384 | PS512 | EdDSA) as a)) => Ok a
  | Some other => Err (UnsupportedAlgorithm (algorithm_name other))
  | None => Err (UnsupportedAlgorithm "missing alg in JWK")
  end.

Definition too_large (len : Z) : string :=
  cat ["JWKS response too large ("; pretty len; " bytes, max "; pretty MAX_JWKS_RESPONSE_BYTES; ")"].

Definition read_body (response : Fetched) : Result OidcError string :=
  match response with
  | SendFailed e => Err (KeyFetch ("HTTP request: " +:+ e))
  | StatusError e => Err (KeyFetch ("HTTP error: " +:+ e))
  | Body len bytes =>
      if match len with Some n => (MAX_JWKS_RESPONSE_BYTES <? n)%Z | None => false end
      then Err (KeyFetch (too_large (default 0%Z len)))
      else
        match bytes with
        | Err e => Err (KeyFetch ("reading body: " +:+ e))
        | Ok bytes =>
            let n := Z.of_nat (String.length bytes) in
            if (MAX_JWKS_RESPONSE_BYTES <? n)%Z then Err (KeyFetch (too_large n))
            else match from_utf8 bytes with
                 | Ok s => Ok s
                 | Err e => Err (KeyFetch ("response not UTF-8: " +:+ e))
                 end
        end
  end.

Definition fetch_url_text (url : string) : St OidcState (Result OidcError string) := fun s =>
  let n := os_fetches s in
  (read_body (http_get n url), mkOidcState (os_now s + http_took n) (os_keys s) (os_failures s) (S n)).

Definition key_or {A} (what : string) (r : Result string A) : Result OidcError A :=
  match r with Ok a => Ok a | Err e => Err (KeyFetch (what +:+ e)) end.

Definition parse_single_key (alg : Algorithm) (body : string) : Result OidcError Key :=
  let trimmed := trim body in
  if starts_with "-----BEGIN" trimmed then
    match alg with
    | ES256 | ES384 => key_or "EC PEM parse: " (from_ec_pem trimmed)
    | EdDSA => key_or "EdDSA PEM parse: " (from_ed_pem trimmed)
    | _ => key_or "RSA PEM parse: " (from_rsa_pem trimmed)
    end
  else
    match key_or "JWK parse: " (parse_jwk trimmed) with
    | Ok jwk => key_or "JWK decode: " (from_jwk jwk)
    | Err e => Err e
    end.

Definition fetch_single_key (url : string) (alg : Algorithm) : St OidcState (Result OidcError Key) :=
  body ←? fetch_url_text url; mret (parse_single_key alg body).

Definition select_jwk (kid body : string) : Result OidcError (Key * Algorithm) :=
  match key_or "JWKS parse: " (parse_jwks body) with
  | Err e => Err e
  | Ok jwks =>
      match jwks_find kid jwks with
      | None => Err (KeyFetch (cat ["kid '"; kid; "' not found in JWKS"]))
      | Some jwk =>
          match resolve_algorithm jwk with
          | Err e => Err e
          | Ok alg => match key_or "JWK decode: " (from_jwk jwk) with Ok key => Ok (key, alg) | Err e => Err e end
          end
      end
  end.

Definition fetch_jwks_key (url kid : string) : St OidcState (Result OidcError (Key * Algorithm)) :=
  body ←? fetch_url_text url; mret (select_jwk kid body).

(** The first entry of least age. *)
Definition older (a b : string * CachedKey) : string * CachedKey := if (fetched_at b.2 <? fetched_at a.2)%Z then b else a.
Definition oldest (l : list (string * CachedKey)) : option (string * CachedKey) :=
  match l with [] => None | x :: l => Some (foldl older x l) end.

Definition fresh_key (now : Z) (k : CachedKey) : bool := (now - fetched_at k <? KEY_CACHE_TTL)%Z.

Definition evict_keys (now : Z) (m : gmap string CachedKey) : gmap string CachedKey :=
  let m := base.filter (fun x => fresh_key now x.2 = true) m in
  if (KEY_CACHE_MAX_ENTRIES <=? size m)%nat
  then match oldest (key_order m) with Some (kid, _) => delete kid m | None => m end
  else m.

(** Under the write lock of the cache. *)
Definition store_key (kid : string) (key : Key) (alg : Algorithm) : St OidcState unit :=
  modify (fun s => set_keys (<[kid := (key, alg, os_now s)]> (evict_keys (os_now s) (os_keys s))) s).

Definition cached_key (kid : string) (s : OidcState) : option (Key * Algorithm) :=
  k ← os_keys s !! kid; if fresh_key (os_now s) k then Some k.1 else None.

Definition backing_off (kid : string) (s : OidcState) : bool :=
  match os_failures s !! kid with Some t => (os_now s - t <? FETCH_FAILURE_BACKOFF)%Z | None => false end.

Definition fetch_key (config : GatewayOidcConfig) (kid : string) (alg : Algorithm) : St OidcState (Result OidcError (Key * Algorithm)) :=
  if contains "{kid}" (oc_jwks_url config)
  then key ←? fetch_single_key (str_replace "{kid}" (byte_serialize kid) (oc_jwks_url config)) alg; mret (Ok (key, alg))
  else fetch_jwks_key (oc_jwks_url config) kid.

Definition get_or_fetch_key (config : GatewayOidcConfig) (kid : string) (alg : Algorithm)
    : St OidcState (Result OidcError (Key * Algorithm)) :=
  hit ← gets (cached_key kid);
  match hit with
  | Some found => mret (Ok found)
  | None =>
      waiting ← gets (backing_off kid);
      if (waiting : bool) then mret (Err (KeyFetch "JWKS fetch recently failed, backing off"))
      else
        r ← fetch_key config kid alg;
        match r with
        | Err e => _ ← modify (fun s => set_failures (<[kid := os_now s]> (os_failures s)) s); mret (Err e)
        | Ok (key, alg) =>
            _ ← modify (fun s => set_failures (delete kid (os_failures s)) s);
            _ ← store_key kid key alg;
            mret (Ok (key, alg))
        end
  end.

(** ** Tokens *)

Definition normalize_b64_segment (seg : string) : string := trim_end_matches "="%char seg.

Definition normalize_jwt_for_claims (jwt : string) : string :=
  match split_char "."%char jwt with
  | [a; b; c] => cat [normalize_b64_segment a; "."; normalize_b64_segment b; "."; normalize_b64_segment c]
  | _ => jwt
  end.

(** ECDSA signatures may be in DER. *)
Definition raw_signature (alg : Algorithm) (bytes : list Z) : list Z :=
  match alg with ES256 | ES384 => default bytes (try_der_to_raw bytes alg) | _ => bytes end.

Definition verify_signature (jwt : string) (key : Key) (alg : Algorithm) : Result OidcError unit :=
  match split_char "."%char jwt with
  | [header; payload; raw_sig] =>
      match b64_decode (trim_end_matches "="%char raw_sig) with
      | None => Err InvalidSignature
      | Some bytes =>
          match crypto_verify (b64_encode (raw_signature alg bytes)) (cat [header; "."; payload]) key alg with
          | Some true => Ok tt
          | _ => Err InvalidSignature
          end
      end
  | _ => Err InvalidSignature
  end.

Definition validation (config : GatewayOidcConfig) (alg : Algorithm) : Validation :=
  mkValidation alg (oc_issuer config) (oc_audience config) (bool_decide (is_Some (oc_audience config))).

Definition subject (claims : Json) : Result OidcError string :=
  match json_get "sub" claims ≫= as_str with
  | Some sub => Ok sub
  | None => Err (InvalidClaims "missing `sub` claim")
  end.

Definition read_claims (config : GatewayOidcConfig) (jwt : string) (key : Key) (alg : Algorithm) : Result OidcError string :=
  match decode_claims (normalize_jwt_for_claims jwt) key (validation config alg) with
  | Err e => Err (InvalidClaims e)
  | Ok claims => subject claims
  end.

Definition validate_oidc_jwt (config : GatewayOidcConfig) (jwt : string) : St OidcState (Result OidcError string) :=
  match decode_header (normalize_jwt_for_claims jwt) with
  | Err e => mret (Err (InvalidClaims ("malformed header: " +:+ e)))
  | Ok header =>
      match jh_kid header with
      | None => mret (Err MissingKid)
      | Some kid =>
          '(key, alg) ←? get_or_fetch_key config kid (jh_alg header);
          match verify_signature jwt key alg with
          | Err e => mret (Err e)
          | Ok _ => mret (read_claims config jwt key alg)
          end
      end
  end.
End oidc.

(** ** Theorems *)

(** *** DER signatures *)

(** The big-endian bytes of a number. *)
Fixpoint be (n : nat) (z : Z) : list Z := match n with O => [] | S n => be n (z / 256) ++ [(z mod 256)%Z] end.

(** The number of bytes DER gives a number that is not negative: the first bit is the sign. *)
Definition der_size (z : Z) : nat := Z.to_nat ((Z.log2 z + 1) / 8 + 1).

Definition der_integer (z : Z) : list Z := [0x02%Z; Z.of_nat (der_size z)] ++ be (der_size z) z.

Definition der_signature (r s : Z) : list Z :=
  [0x30%Z; Z.of_nat (length (der_integer r ++ der_integer s))] ++ der_integer r ++ der_integer s.

Lemma length_be n z : length (be n z) = n.
Proof. revert z. induction n as [|n IH]; intros z; cbn; [done|]. rewrite length_app, IH. cbn. lia. Qed.

Lemma be_S n z : (0 ≤ z)%Z → be (S n) z = (z / 256 ^ Z.of_nat n mod 256)%Z :: be n z.
Proof.
  revert z. induction n as [|n IH]; intros z Hz; [cbn; by rewrite Z.div_1_r|].
  change (be (S (S n)) z) with (be (S n) (z / 256) ++ [(z mod 256)%Z]). rewrite IH by (apply Z.div_pos; lia). cbn [app].
  f_equal. rewrite Z.div_div by lia. f_equal. f_equal. rewrite Nat2Z.inj_succ, Z.pow_succ_r by lia. done.
Qed.

Lemma be_pad n m z : (0 ≤ z < 256 ^ Z.of_nat m)%Z → (m ≤ n)%nat → replicate (n - m) 0%Z ++ be m z = be n z.
Proof.
  intros Hz Hm. replace n with (n - m + m)%nat at 2 by lia. induction (n - m)%nat as [|k IH]; [done|].
  cbn [replicate app Nat.add]. rewrite be_S by lia. rewrite IH. f_equal. rewrite Z.div_small; [done|].
  split; [lia|]. eapply Z.lt_le_trans; [apply Hz|]. apply Z.pow_le_mono_r; lia.
Qed.

Lemma der_size_fits size z : (0 ≤ z < 256 ^ Z.of_nat size)%Z → (1 ≤ size)%nat → (1 ≤ der_size z ≤ S size)%nat.
Proof.
  intros Hz Hsize. unfold der_size. assert (0 ≤ Z.log2 z < 8 * Z.of_nat size)%Z as Hl.
  { split; [apply Z.log2_nonneg|]. destruct (decide (z = 0%Z)) as [->|]; [cbn; lia|]. apply Z.log2_lt_pow2; [lia|].
    rewrite Z.pow_mul_r by lia. apply Hz. }
  assert (0 ≤ (Z.log2 z + 1) / 8 ≤ Z.of_nat size)%Z by (split; [apply Z.div_pos; lia|apply Z.div_le_upper_bound; lia]). lia.
Qed.

Lemma der_size_holds z : (0 ≤ z)%Z → (z < 256 ^ Z.of_nat (der_size z))%Z.
Proof.
  intros Hz. unfold der_size. rewrite Z2Nat.id; [|apply Z.add_nonneg_nonneg; [apply Z.div_pos; pose proof (Z.log2_nonneg z); lia|lia]].
  change 256%Z with (2 ^ 8)%Z. rewrite <- Z.pow_mul_r; [|lia|]; last (pose proof (Z.log2_nonneg z); assert (0 ≤ (Z.log2 z + 1) / 8)%Z by (apply Z.div_pos; lia); lia).
  destruct (decide (z = 0%Z)) as [->|]; [done|]. eapply Z.lt_le_trans; [apply Z.log2_spec; lia|].
  apply Z.pow_le_mono_r; [lia|]. pose proof (Z.div_mod (Z.log2 z + 1) 8). pose proof (Z.mod_pos_bound (Z.log2 z + 1) 8). lia.
Qed.

(** Without the zero of the sign, and padded, the bytes are those of the raw form. *)
Lemma strip_der_integer size z :
  (0 ≤ z < 256 ^ Z.of_nat size)%Z → (1 ≤ size)%nat →
  let b := strip_der_leading_zero (be (der_size z) z) in (length b ≤ size)%nat ∧ left_pad size b = be size z.
Proof.
  intros Hz Hsize. pose proof (der_size_fits size z Hz Hsize) as Hn. pose proof (der_size_holds z ltac:(lia)) as Hh.
  cbv zeta. unfold left_pad. destruct (der_size z) as [|n] eqn:Hsz; [lia|].
  assert (∀ m, (m ≤ size)%nat → (z < 256 ^ Z.of_nat m)%Z →
    (length (be m z) ≤ size)%nat ∧ replicate (size - length (be m z)) 0%Z ++ be m z = be size z) as Hpad.
  { intros m Hm Hzm. rewrite length_be. split; [done|]. apply be_pad; [lia|done]. }
  rewrite be_S by lia. destruct (be n z) as [|b l] eqn:Hb.
  - assert (n = 0%nat) as -> by (by rewrite <- (length_be n z), Hb). cbn [strip_der_leading_zero].
    specialize (Hpad 1%nat Hsize Hh). by rewrite be_S, Hb in Hpad by lia.
  - rewrite <- Hb. unfold strip_der_leading_zero. rewrite Hb. destruct (_ =? 0)%Z eqn:Hzero.
    + rewrite <- Hb. apply Hpad; [lia|]. apply Z.eqb_eq in Hzero.
      rewrite Z.mod_small in Hzero.
      * pose proof (Z.div_small_iff z (256 ^ Z.of_nat n)) as Hiff. apply Hiff in Hzero; lia.
      * split; [apply Z.div_pos; lia|]. apply Z.div_lt_upper_bound; [lia|]. rewrite Nat2Z.inj_succ, Z.pow_succ_r in Hh by lia. lia.
    + rewrite <- Hb, <- be_S by lia. apply Hpad; [|done]. destruct (decide (S n ≤ size)%nat) as [|Hbig]; [done|].
      assert (n = size) as -> by lia. apply Z.eqb_neq in Hzero. rewrite Z.div_small in Hzero by lia. done.
Qed.

Lemma parse_der_integer_read size z pre post :
  (0 ≤ z < 256 ^ Z.of_nat size)%Z → (1 ≤ size ≤ 64)%nat →
  parse_der_integer size (pre ++ der_integer z ++ post) (length pre) =
  Some (be (der_size z) z, (length pre + length (der_integer z))%nat).
Proof.
  intros Hz Hsize. pose proof (der_size_fits size z Hz ltac:(lia)) as Hn. unfold parse_der_integer, der_integer.
  set (n := der_size z) in *. rewrite lookup_app_r, Nat.sub_diag by done. cbn [lookup list_lookup app mbind option_bind].
  change (2 =? 2)%Z with true. cbn iota. unfold parse_der_length.
  rewrite lookup_app_r by lia. replace (S (length pre) - length pre)%nat with 1%nat by lia. cbn [lookup list_lookup mbind option_bind].
  rewrite (proj2 (Z.ltb_lt _ _)) by lia. cbn [mbind option_bind]. rewrite (proj2 (Z.ltb_ge _ _)) by lia. rewrite Nat2Z.id.
  unfold get_range. rewrite length_app. cbn [length]. rewrite length_app, length_be.
  rewrite (proj2 (Nat.leb_le _ _)) by lia. cbn [mbind option_bind]. f_equal. f_equal; [|lia].
  rewrite drop_app_ge by lia. replace (S (S (length pre)) - length pre)%nat with 2%nat by lia. cbn [drop].
  rewrite drop_0, take_app_le by (by rewrite length_be). by rewrite take_ge by (by rewrite length_be).
Qed.

(** C33. Every ECDSA signature in DER is read as the raw form that the verifier expects: each of the two numbers at the
    fixed width of the curve, most significant byte first. *)
Theorem der_signature_read alg size r s :
  component_len alg = Some size →
  (0 ≤ r < 256 ^ Z.of_nat size)%Z → (0 ≤ s < 256 ^ Z.of_nat size)%Z →
  try_der_to_raw (der_signature r s) alg = Some (be size r ++ be size s).
Proof.
  intros Halg Hr Hs. assert (1 ≤ size ≤ 48)%nat as Hsize by (by destruct alg; inversion Halg; lia).
  pose proof (der_size_fits size r Hr ltac:(lia)) as Hnr. pose proof (der_size_fits size s Hs ltac:(lia)) as Hns.
  assert (∀ z, length (der_integer z) = 2 + der_size z)%nat as Hlen by (intros z; unfold der_integer; cbn; by rewrite length_be).
  unfold try_der_to_raw. rewrite Halg. cbn [mbind option_bind].
  replace (length (der_signature r s) <? 6)%nat with false; [|symmetry; apply Nat.ltb_ge; unfold der_signature; cbn [app length]; rewrite length_app, !Hlen; lia].
  cbn [head der_signature app orb negb]. rewrite bool_decide_true by done. cbn [negb].
  set (tail := der_integer r ++ der_integer s). set (len := Z.of_nat (length tail)).
  assert (0 ≤ len < 128)%Z as Hl by (unfold len, tail; rewrite length_app, !Hlen; lia).
  unfold parse_der_length at 1. cbn [lookup list_lookup mbind option_bind]. rewrite (proj2 (Z.ltb_lt _ _)) by lia. cbn [mbind option_bind].
  change (0x30%Z :: len :: tail) with ([0x30%Z; len] ++ tail). unfold tail.
  change (parse_der_integer size ?l 2) with (parse_der_integer size l (length [0x30%Z; len])).
  rewrite (parse_der_integer_read size r [0x30%Z; len] (der_integer s)) by (done || lia). cbn [mbind option_bind].
  rewrite app_assoc. replace (length [0x30%Z; len] + length (der_integer r))%nat with (length ([0x30%Z; len] ++ der_integer r)) by (by rewrite length_app).
  rewrite <- (app_nil_r (der_integer s)).
  rewrite (parse_der_integer_read size s ([0x30%Z; len] ++ der_integer r) []) by (done || lia). cbn [mbind option_bind].
  destruct (strip_der_integer size r Hr ltac:(lia)) as [Hlr ->]. destruct (strip_der_integer size s Hs ltac:(lia)) as [Hls ->].
  by rewrite !(proj2 (Nat.ltb_ge _ _)) by done.
Qed.

(** A raw signature can look like DER and is then read as another one: an ES256 signature of 64 bytes is replaced. *)
Theorem raw_signature_misread :
  ∃ raw, length raw = 64%nat ∧ Forall (fun b => (0 ≤ b < 256)%Z) raw ∧ raw_signature ES256 raw ≠ raw.
Proof.
  exists ([0x30; 0x3E; 0x02; 0x01; 0x05; 0x02; 0x01; 0x07] ++ replicate 56 1)%Z. split; [done|]. split; [|by vm_compute].
  apply Forall_forall. intros b Hb. apply elem_of_app in Hb as [Hb|[-> _]%elem_of_replicate]; [|lia]. set_solver by lia.
Qed.

(** *** UTF-8 *)

Lemma byte_at_length i s b : byte_at i s = Some b → (i < String.length s)%nat.
Proof.
  revert i. induction s as [|c s IH]; intros i; [done|]. destruct i as [|i]; cbn; [lia|]. intros Hb%IH. lia.
Qed.

Lemma char_error_width s i b : char_error s i b = None → (1 ≤ utf8_width b)%nat.
Proof. unfold char_error. destruct (utf8_width b); [done|lia]. Qed.

(** The fuel is enough: more of it changes nothing. *)
Lemma utf8_go_fuel f g s i :
  (String.length s < f + i)%nat → (String.length s < g + i)%nat → utf8_go f s i = utf8_go g s i.
Proof.
  assert (∀ i, (String.length s ≤ i)%nat → byte_at i s = None) as Hend.
  { intros j Hj. destruct (byte_at j s) eqn:Hb; [|done]. apply byte_at_length in Hb. lia. }
  revert g i. induction f as [|f IH]; intros [|g] i Hf Hg; cbn [utf8_go]; [done| | |].
  - by rewrite Hend by lia.
  - by rewrite Hend by lia.
  - destruct (byte_at i s) as [b|]; [|done]. destruct (char_error s i b) eqn:He; [done|].
    apply char_error_width in He. apply IH; lia.
Qed.

Lemma from_utf8_same s t : from_utf8 s = Ok t → t = s.
Proof.
  unfold from_utf8. generalize (S (String.length s)) as f, 0%nat as i. induction f as [|f IH]; intros i; cbn [utf8_go]; [congruence|].
  destruct (byte_at i s); [|congruence]. destruct (char_error s i z); [done|]. apply IH.
Qed.

(** *** Keys *)

Section keys.
  Context `{OidcEnv} `{!OidcEnvLaws}.
  Implicit Types (config : GatewayOidcConfig) (s : OidcState).

(** What the n-th request to the key server yields for [kid]. *)
Definition fetched config (kid : string) (alg : Algorithm) (n : nat) : Result OidcError (Key * Algorithm) :=
  if contains "{kid}" (oc_jwks_url config) then
    match read_body (http_get n (str_replace "{kid}" (byte_serialize kid) (oc_jwks_url config))) with
    | Err e => Err e
    | Ok body => match parse_single_key alg body with Ok key => Ok (key, alg) | Err e => Err e end
    end
  else match read_body (http_get n (oc_jwks_url config)) with Err e => Err e | Ok body => select_jwk kid body end.

Definition after_fetch s : OidcState :=
  mkOidcState (os_now s + http_took (os_fetches s)) (os_keys s) (os_failures s) (S (os_fetches s)).

Lemma fetch_key_run config kid alg s :
  fetch_key config kid alg s = (fetched config kid alg (os_fetches s), after_fetch s).
Proof.
  unfold fetch_key, fetched, fetch_single_key, fetch_jwks_key, st_try. destruct (contains _ _).
  - rewrite !bind_run. unfold fetch_url_text. cbn [fst snd]. destruct (read_body _) as [body|e]; [|done]. cbn [mret st_ret fst snd].
    by destruct (parse_single_key alg body).
  - rewrite bind_run. unfold fetch_url_text. cbn [fst snd]. by destruct (read_body _).
Qed.

(** The three ways through [get_or_fetch_key] that do not use the cache, and the one that does. *)
Lemma get_or_fetch_key_run config kid alg s :
  get_or_fetch_key config kid alg s =
  match cached_key kid s with
  | Some found => (Ok found, s)
  | None =>
      if backing_off kid s then (Err (KeyFetch "JWKS fetch recently failed, backing off"), s)
      else
        let s := after_fetch s in
        match fetched config kid alg (pred (os_fetches s)) with
        | Err e => (Err e, set_failures (<[kid := os_now s]> (os_failures s)) s)
        | Ok (key, alg) =>
            (Ok (key, alg),
             mkOidcState (os_now s) (<[kid := (key, alg, os_now s)]> (evict_keys (os_now s) (os_keys s))) (delete kid (os_failures s)) (os_fetches s))
        end
  end.
Proof.
  unfold get_or_fetch_key. rewrite bind_run. cbn [gets fst snd]. destruct (cached_key kid s); [done|].
  rewrite bind_run. cbn [gets fst snd]. destruct (backing_off kid s); [done|].
  rewrite bind_run, fetch_key_run. cbn [fst snd after_fetch os_fetches pred]. destruct (fetched _ _ _ _) as [[key a]|e].
  - by rewrite !bind_run.
  - by rewrite bind_run.
Qed.

(** The cache is bounded, and a cached key is what the key server answered for its identifier. *)
Record keys_ok config s : Prop := {
  ko_size : (size (os_keys s) ≤ KEY_CACHE_MAX_ENTRIES)%nat;
  ko_from kid k : os_keys s !! kid = Some k → ∃ alg n, (n < os_fetches s)%nat ∧ fetched config kid alg n = Ok k.1
}.

Lemma oldest_in l x : oldest l = Some x → x ∈ l.
Proof.
  destruct l as [|y l]; [done|]. cbn. intros [= <-]. revert y. induction l as [|z l IH]; intros y; cbn; [set_solver|].
  specialize (IH (older y z)). unfold older in *. destruct (_ <? _)%Z; set_solver.
Qed.

Lemma evict_keys_sub now m : evict_keys now m ⊆ m.
Proof.
  unfold evict_keys. set (m' := base.filter _ m). assert (m' ⊆ m) as Hm by apply map_filter_subseteq.
  destruct (_ <=? _)%nat; [|done]. destruct (oldest _) as [[kid k]|]; [|done]. etrans; [apply delete_subseteq|done].
Qed.

Lemma evict_keys_size now m :
  (size m ≤ KEY_CACHE_MAX_ENTRIES)%nat → (size (evict_keys now m) < KEY_CACHE_MAX_ENTRIES)%nat.
Proof.
  intros Hm. unfold evict_keys. set (m' := base.filter _ m).
  assert (size m' ≤ size m)%nat as Hle by (rewrite <- !size_dom; apply subseteq_size, subseteq_dom, map_filter_subseteq).
  destruct (_ <=? _)%nat eqn:Hfull; [|apply Nat.leb_gt in Hfull; lia]. apply Nat.leb_le in Hfull.
  destruct (oldest (key_order m')) as [[kid k]|] eqn:Ho.
  - apply oldest_in in Ho. rewrite key_order_all in Ho. apply elem_of_map_to_list in Ho.
    rewrite map_size_delete_Some by by eexists. unfold KEY_CACHE_MAX_ENTRIES in *. lia.
  - unfold oldest in Ho. pose proof (key_order_all m') as Hp. destruct (key_order m'); [|done].
    apply Permutation_nil, map_to_list_empty_iff in Hp. rewrite Hp, map_size_empty in Hfull. unfold KEY_CACHE_MAX_ENTRIES in *. lia.
Qed.

Lemma get_or_fetch_key_ok config kid alg : preserves (keys_ok config) (get_or_fetch_key config kid alg).
Proof.
  intros s [Hsize Hfrom]. rewrite get_or_fetch_key_run. destruct (cached_key kid s); [done|]. destruct (backing_off kid s); [done|].
  cbv zeta. cbn [after_fetch os_fetches os_now os_keys os_failures pred].
  destruct (fetched config kid alg (os_fetches s)) as [[key a]|e] eqn:Hf; split; cbn [snd os_keys os_fetches set_failures after_fetch].
  - pose proof (evict_keys_size (os_now s + http_took (os_fetches s)) (os_keys s) Hsize) as He.
    set (m := evict_keys _ _) in *. destruct (m !! kid) eqn:Hk.
    + rewrite map_size_insert_Some by by eexists. lia.
    + rewrite map_size_insert_None by done. lia.
  - intros kid' k [[<- <-]|[_ Hk]]%lookup_insert_Some.
    + exists alg, (os_fetches s). split; [lia|done].
    + eapply lookup_weaken in Hk; [|apply evict_keys_sub]. destruct (Hfrom _ _ Hk) as (a' & n & Hn & Hok). exists a', n. split; [lia|done].
  - done.
  - intros kid' k Hk. destruct (Hfrom _ _ Hk) as (a' & n & Hn & Hok). exists a', n. split; [lia|done].
Qed.

Lemma get_or_fetch_key_from config kid alg s key a s' :
  keys_ok config s → get_or_fetch_key config kid alg s = (Ok (key, a), s') →
  ∃ alg' n, (n < os_fetches s')%nat ∧ fetched config kid alg' n = Ok (key, a).
Proof.
  intros [_ Hfrom]. rewrite get_or_fetch_key_run. destruct (cached_key kid s) as [found|] eqn:Hc.
  - intros [= -> <-]. unfold cached_key in Hc. destruct (os_keys s !! kid) as [k|] eqn:Hk; [|done]. cbn in Hc.
    destruct (fresh_key _ k); [|done]. injection Hc as Hc. destruct (Hfrom _ _ Hk) as (a' & n & Hn & Hok). rewrite Hc in Hok. by exists a', n.
  - destruct (backing_off kid s); [done|]. cbv zeta. cbn [after_fetch os_fetches os_now os_keys os_failures pred].
    destruct (fetched config kid alg (os_fetches s)) as [[key' a'']|e] eqn:Hf; [|done]. intros [= <- <- <-].
    exists alg, (os_fetches s). cbn. split; [lia|done].
Qed.

(** *** Which tokens are accepted *)

Definition asymmetric (a : Algorithm) : bool := match a with HS256 | HS384 | HS512 => false | _ => true end.

Lemma resolved_asymmetric jwk a : resolve_algorithm jwk = Ok a → asymmetric a = true.
Proof. unfold resolve_algorithm. destruct (jwk_algorithm jwk) as [[[]| | |]|]; by intros [= <-]. Qed.

Lemma key_set_asymmetric config kid alg n key a :
  contains "{kid}" (oc_jwks_url config) = false → fetched config kid alg n = Ok (key, a) → asymmetric a = true.
Proof.
  intros Hurl. unfold fetched. rewrite Hurl. destruct (read_body _) as [body|]; [|done]. unfold select_jwk.
  destruct (key_or _ (parse_jwks body)) as [jwks|]; [|done]. destruct (jwks_find kid jwks) as [jwk|]; [|done].
  destruct (resolve_algorithm jwk) as [a'|] eqn:Ha; [|done]. destruct (key_or _ _); [|done]. intros [= _ <-]. by eapply resolved_asymmetric.
Qed.

(** The identity provider vouches for [sub]: a key it published for the token's identifier verifies the signature of the token as it was
    sent, and the claims, checked against the configured issuer and audience, name [sub]. *)
Definition vouched config (jwt sub : string) s : Prop :=
  ∃ header kid alg0 n key alg head payload sig bytes claims,
    decode_header (normalize_jwt_for_claims jwt) = Ok header ∧ jh_kid header = Some kid ∧
    (n < os_fetches s)%nat ∧ fetched config kid alg0 n = Ok (key, alg) ∧
    (contains "{kid}" (oc_jwks_url config) = false → asymmetric alg = true) ∧
    split_char "."%char jwt = [head; payload; sig] ∧ b64_decode (trim_end_matches "="%char sig) = Some bytes ∧
    crypto_verify (b64_encode (raw_signature alg bytes)) (cat [head; "."; payload]) key alg = Some true ∧
    decode_claims (normalize_jwt_for_claims jwt) key
      (mkValidation alg (oc_issuer config) (oc_audience config) (bool_decide (is_Some (oc_audience config)))) = Ok claims ∧
    json_get "sub" claims = Some (JString sub).

Lemma verify_signature_ok jwt key alg :
  verify_signature jwt key alg = Ok tt →
  ∃ head payload sig bytes, split_char "."%char jwt = [head; payload; sig] ∧ b64_decode (trim_end_matches "="%char sig) = Some bytes ∧
    crypto_verify (b64_encode (raw_signature alg bytes)) (cat [head; "."; payload]) key alg = Some true.
Proof.
  unfold verify_signature. destruct (split_char _ jwt) as [|h [|p [|g [|? ?]]]]; try done.
  destruct (b64_decode _) as [bytes|] eqn:Hb; [|done]. destruct (crypto_verify _ _ _ _) as [[]|] eqn:Hv; [|done..]. intros _.
  by exists h, p, g, bytes.
Qed.

Lemma validated_vouched config jwt s sub s' :
  keys_ok config s → validate_oidc_jwt config jwt s = (Ok sub, s') → vouched config jwt sub s'.
Proof.
  intros Hk. unfold validate_oidc_jwt. destruct (decode_header _) as [header|] eqn:Hh; [|done].
  destruct (jh_kid header) as [kid|] eqn:Hkid; [|done]. unfold st_try. rewrite bind_run.
  destruct (get_or_fetch_key config kid (jh_alg header) s) as [[[key alg]|e] s1] eqn:Hg; [|done]. cbn [fst snd].
  destruct (verify_signature jwt key alg) as [[]|e] eqn:Hv; [|done]. unfold mret, st_ret, read_claims.
  destruct (decode_claims _ _ _) as [claims|] eqn:Hd; [|done]. unfold subject. destruct (json_get "sub" claims) as [v|] eqn:Hs; [|done].
  cbn [mbind option_bind]. destruct v; cbn [as_str]; try done. intros [= <- <-].
  apply (get_or_fetch_key_from config) in Hg as (alg0 & n & Hn & Hf); [|done].
  apply verify_signature_ok in Hv as (h & p & g & bytes & Hsp & Hb & Hc).
  exists header, kid, alg0, n, key, alg, h, p, g, bytes, claims. repeat split; try done. intros Hurl. by eapply key_set_asymmetric.
Qed.

Lemma validate_oidc_jwt_ok config jwt : preserves (keys_ok config) (validate_oidc_jwt config jwt).
Proof.
  unfold validate_oidc_jwt. destruct (decode_header _) as [header|]; [|preserve]. destruct (jh_kid header); [|preserve].
  apply preserves_try; [apply get_or_fetch_key_ok|]. intros [key alg]. destruct (verify_signature _ _ _); preserve.
Qed.

(** *** What strangers can do to the two maps *)

Definition waited (t : Z) s : OidcState := mkOidcState (os_now s + t) (os_keys s) (os_failures s) (os_fetches s).

(** With a key server addressed per key, the header of the first token that names a key, from whoever sent it, decides for an hour the
    algorithm all tokens of that key are verified with: a token whose signature is not valid under that algorithm is
    refused, whatever its own header says. *)
Theorem stranger_sets_algorithm config stranger header kid key s t jwt header' :
  contains "{kid}" (oc_jwks_url config) = true →
  decode_header (normalize_jwt_for_claims stranger) = Ok header → jh_kid header = Some kid →
  cached_key kid s = None → backing_off kid s = false →
  fetched config kid (jh_alg header) (os_fetches s) = Ok (key, jh_alg header) →
  (0 ≤ t < KEY_CACHE_TTL)%Z →
  decode_header (normalize_jwt_for_claims jwt) = Ok header' → jh_kid header' = Some kid →
  verify_signature jwt key (jh_alg header) = Err InvalidSignature →
  (validate_oidc_jwt config jwt (waited t (validate_oidc_jwt config stranger s).2)).1 = Err InvalidSignature.
Proof.
  intros Hurl Hh Hkid Hc Hb Hf Ht Hh' Hkid' Hv.
  set (s1 := (get_or_fetch_key config kid (jh_alg header) s).2).
  assert (os_keys s1 !! kid = Some (key, jh_alg header, os_now s1)) as Hkey.
  { unfold s1. rewrite get_or_fetch_key_run, Hc, Hb. cbv zeta. cbn [after_fetch os_fetches os_now os_keys os_failures pred]. rewrite Hf.
    cbn [snd os_keys os_now]. by rewrite lookup_insert_eq. }
  assert ((validate_oidc_jwt config stranger s).2 = s1) as ->.
  { unfold validate_oidc_jwt. rewrite Hh, Hkid. unfold st_try. rewrite bind_run. fold s1.
    destruct (get_or_fetch_key _ _ _ _).1 as [[k a]|]; [|done]. by destruct (verify_signature stranger k a). }
  unfold validate_oidc_jwt. rewrite Hh', Hkid'. unfold st_try. rewrite bind_run, get_or_fetch_key_run.
  assert (cached_key kid (waited t s1) = Some (key, jh_alg header)) as ->; [|cbn [fst snd]; by rewrite Hv].
  unfold cached_key, waited. cbn [os_keys os_now]. rewrite Hkey. cbn [mbind option_bind]. unfold fresh_key, fetched_at. cbn [snd].
  by rewrite (proj2 (Z.ltb_lt _ _)) by lia.
Qed.

(** While the key server cannot be reached, each identifier a stranger makes up leaves a record of the failure, and no
    record is dropped: the map of failures has no bound, unlike the cache of keys. *)
Theorem failed_kids_accumulate config alg kids s :
  (∀ n url, ∃ e, read_body (http_get n url) = Err e) → os_keys s = ∅ → os_failures s = ∅ → NoDup kids →
  size (os_failures (st_iter (fun kid => _ ← get_or_fetch_key config kid alg; mret tt) kids s).2) = length kids.
Proof.
  intros Hdown Hkeys Hfail Hnd. transitivity (size (os_failures s) + length kids)%nat; [|by rewrite Hfail, map_size_empty].
  assert (∀ kid, kid ∈ kids → os_failures s !! kid = None) as Hnew by (intros kid _; by rewrite Hfail, lookup_empty). clear Hfail.
  revert s Hkeys Hnew. induction Hnd as [|kid kids Hkid Hnd IH]; intros s Hkeys Hnew; [cbn; lia|].
  cbn [st_iter]. rewrite !bind_run, get_or_fetch_key_run.
  assert (cached_key kid s = None) as -> by (unfold cached_key; by rewrite Hkeys).
  assert (backing_off kid s = false) as -> by (unfold backing_off; by rewrite (Hnew kid) by set_solver).
  assert (∃ e, fetched config kid alg (pred (os_fetches (after_fetch s))) = Err e) as [e He].
  { unfold fetched. destruct (contains _ _); edestruct Hdown as [e ->]; by eexists. }
  cbv zeta. rewrite He. cbn [mret st_ret snd]. rewrite IH; cbn [set_failures os_keys os_failures after_fetch].
  - rewrite map_size_insert_None by (apply Hnew; set_solver). cbn. lia.
  - done.
  - intros kid' Hin. rewrite lookup_insert_ne by set_solver. apply Hnew. set_solver.
Qed.
End keys.

(** ** A concrete provider *)

Module OidcDemo.
(** A token starts with its algorithm; the only valid signature is the byte 1, under RS256. *)
Definition header_of (jwt : string) : Result string JwtHeader :=
  if starts_with "rs" jwt then Ok (mkHeader (Some "k") RS256)
  else if starts_with "ps" jwt then Ok (mkHeader (Some "k") PS256) else Err "malformed".

#[export] Instance oidc_env : OidcEnv := {|
  Key := string; Jwk := string;
  b64_decode := fun s => if (s =? "AQ")%string then Some [1%Z] else Some [];
  b64_encode := fun l => if bool_decide (l = [1%Z]) then "AQ" else "";
  from_ec_pem := fun _ => Err "no"; from_ed_pem := fun _ => Err "no"; from_rsa_pem := fun s => Ok s;
  parse_jwk := fun _ => Err "no"; parse_jwks := fun _ => Err "no"; jwks_find := fun _ _ => None; jwk_algorithm := fun _ => None;
  from_jwk := fun _ => Err "no";
  decode_header := header_of;
  crypto_verify := fun sig _ _ a => Some ((sig =? "AQ")%string && bool_decide (a = RS256));
  decode_claims := fun _ _ _ => Ok (JObject [("sub", JString "ada")]);
  byte_serialize := fun s => s;
  http_get := fun _ _ => Body None (Ok "-----BEGIN PUBLIC KEY-----");
  http_took := fun _ => 0%Z;
  key_order := map_to_list
|}.

#[export] Instance oidc_env_laws : OidcEnvLaws.
Proof. by split. Qed.

Definition config : GatewayOidcConfig := mkOidcConfig "x-amzn-oidc-data" "https://keys/{kid}" None None.
Definition start : OidcState := mkOidcState 0 ∅ ∅ 0.

Lemma start_ok : keys_ok config start.
Proof. split; [by vm_compute; lia|]. cbn. intros kid k. by rewrite lookup_empty. Qed.

Example signed_token_accepted : (validate_oidc_jwt config "rs.payload.AQ" start).1 = Ok "ada".
Proof. vm_compute. reflexivity. Qed.

Lemma stranger_sets_algorithm_witness :
  (validate_oidc_jwt config "rs.payload.AQ" (waited 60 (validate_oidc_jwt config "ps.any.thing" start).2)).1 = Err InvalidSignature.
Proof.
  apply (stranger_sets_algorithm (H := oidc_env) config "ps.any.thing" (mkHeader (Some "k") PS256) "k" "-----BEGIN PUBLIC KEY-----" start 60
    "rs.payload.AQ" (mkHeader (Some "k") RS256)); try (vm_compute; reflexivity). by (split; vm_compute).
Defined.

Lemma der_signature_read_witness : try_der_to_raw (der_signature 200 5) ES256 = Some (be 32 200 ++ be 32 5).
Proof. apply (der_signature_read ES256 32); [done|by (split; vm_compute)..]. Defined.

Definition down : OidcEnv := {|
  Key := string; Jwk := string; b64_decode := fun _ => None; b64_encode := fun _ => "";
  from_ec_pem := fun _ => Err "no"; from_ed_pem := fun _ => Err "no"; from_rsa_pem := fun s => Ok s;
  parse_jwk := fun _ => Err "no"; parse_jwks := fun _ => Err "no"; jwks_find := fun _ _ => None; jwk_algorithm := fun _ => None;
  from_jwk := fun _ => Err "no"; decode_header := header_of; crypto_verify := fun _ _ _ _ => None;
  decode_claims := fun _ _ _ => Err "no"; byte_serialize := fun s => s;
  http_get := fun _ _ => SendFailed "refused"; http_took := fun _ => 0%Z; key_order := map_to_list
|}.

Lemma down_laws : @OidcEnvLaws down.
Proof. by split. Qed.

Lemma failed_kids_accumulate_witness :
  size (os_failures (st_iter (fun kid => _ ← @get_or_fetch_key down config kid RS256; mret tt) ["a"; "b"; "c"]
    (@mkOidcState down 0 ∅ ∅ 0)).2) = 3%nat.
Proof.
  apply (@failed_kids_accumulate down down_laws config RS256 ["a"; "b"; "c"]); [by eexists|done|done|].
  by apply (bool_decide_unpack _); vm_compute.
Defined.
End OidcDemo.
