(* ===== verification/GatewayAuth.v ===== *)
(** * GatewayAuth: who a request to the web gateway is from

    The tokens, the token cache and the middleware of [src/channels/web/auth.rs], on the database of users ([UserStore.v]) and the
    identity provider ([Oidc.v]).  The crate [lru] is the class [Lru], with an instance that keeps a list; SHA-256, the
    header map's decoding and the parsing of a query string are the class [AuthEnv].  [DbAuthenticator::authenticate] is
    written as the three sections between which it waits, so that other requests can be put between them. *)

From Stdlib Require Import Ascii.
From S2P Require Import Prelude Text TextSearch Effects Routine UserStore Oidc.

(** ** Data *)

Record UserIdentity : Type := mkIdentity {
  id_user : string;
  id_role : string;
  id_read_scopes : list string
}.

#[export] Instance UserIdentity_eq_dec : EqDecision UserIdentity.
Proof. solve_decision. Defined.

(** An entry of the cache: the identity, and when it was put there. *)
Abbreviation Entry := (UserIdentity * Z)%type (only parsing).

(** [lru::LruCache]: [lru_get] also marks the entry as the last used one. *)
Class Lru (C : Type) := {
  lru_new : nat -> C;
  lru_get : Digest -> C -> option (UserIdentity * Z) * C;
  lru_put : Digest -> UserIdentity * Z -> C -> C;
  lru_pop : Digest -> C -> C;
  lru_entries : C -> list (Digest * (UserIdentity * Z))
}.

Class LruLaws C `{Lru C} : Prop := {
  lru_new_empty n : lru_entries (lru_new n) = [];
  lru_get_in k c e : (lru_get k c).1 = Some e → (k, e) ∈ lru_entries c;
  lru_get_none k c e : (lru_get k c).1 = None → (k, e) ∉ lru_entries c;
  lru_get_keeps k c x : x ∈ lru_entries (lru_get k c).2 → x ∈ lru_entries c;
  lru_put_old k e c k' e' : (k', e') ∈ lru_entries (lru_put k e c) → (k' = k ∧ e' = e) ∨ (k' ≠ k ∧ (k', e') ∈ lru_entries c);
  lru_get_put k e c : (lru_get k (lru_put k e c)).1 = Some e;
  lru_pop_in k c k' e' : (k', e') ∈ lru_entries (lru_pop k c) ↔ k' ≠ k ∧ (k', e') ∈ lru_entries c
}.

Inductive Method : Type := GET | POST | PUT | PATCH | DELETE | OtherMethod (m : string).

#[export] Instance Method_eq_dec : EqDecision Method.
Proof. solve_decision. Defined.

(** A [HeaderMap] gives the bytes of the first header of a name. *)
Record Request : Type := mkRequest {
  rq_method : Method;
  rq_path : string;
  rq_query : option string;
  rq_headers : string -> option string
}.

Class AuthEnv := {
  sha256 : string -> Digest;
  (** [HeaderValue::to_str]: visible ASCII only, so that any index of the text is a character boundary *)
  header_to_str : string -> option string;
  (** [url::form_urlencoded::parse] *)
  form_parse : string -> list (string * string)
}.

Record MultiAuthState : Type := mkMultiAuth {
  ma_hashed_tokens : list (Digest * UserIdentity);
  ma_display_token : option string
}.

Record CombinedAuthState : Type := mkCombined {
  ca_env_auth : MultiAuthState;
  ca_db_auth : bool;
  ca_oidc : option GatewayOidcConfig
}.

Definition from_multi (a : MultiAuthState) : CombinedAuthState := mkCombined a false None.

(** What the middleware does with a request: passes it on with the identity in its extensions, or answers itself. *)
Inductive Served : Type := Pass (id : UserIdentity) | Refuse (status : Z) (body : string).

Definition CACHE_TTL_SECS : Z := 60.
Definition MAX_CACHE_ENTRIES : nat := 1024.

(** ** Tokens of the configuration *)

Section auth.
  Context `{AuthEnv} `{OidcEnv} `{Decimal} `{!UserPg} {C : Type} `{!Lru C}.

Definition hash_token (token : string) : Digest := sha256 token.

Definition multi_single (token user : string) : MultiAuthState :=
  mkMultiAuth [(hash_token token, mkIdentity user "admin" [])] (Some token).

(** [tokens] in the order the map is iterated. *)
Definition multi_multi (tokens : list (string * UserIdentity)) : MultiAuthState :=
  mkMultiAuth ((fun x => (hash_token x.1, x.2)) <$> tokens) None.

(** Every entry is compared; the last match counts. *)
Definition multi_authenticate (a : MultiAuthState) (candidate : string) : option UserIdentity :=
  let h := hash_token candidate in
  foldl (fun matched x => if (h =? x.1)%string then Some x.2 else matched) None (ma_hashed_tokens a).

Definition first_token (a : MultiAuthState) : option string := ma_display_token a.
Definition first_identity (a : MultiAuthState) : option UserIdentity := snd <$> head (ma_hashed_tokens a).

(** ** Tokens of the database *)

Record Gateway : Type := mkGateway {
  gw_now : Z;
  gw_db : UserDb;
  gw_cache : C;
  gw_oidc : OidcState;
  (** usage to be recorded, oldest first *)
  gw_spawned : list (Uuid * string)
}.

Implicit Types (g : Gateway).

Definition set_cache (c : C) g : Gateway := mkGateway (gw_now g) (gw_db g) c (gw_oidc g) (gw_spawned g).
Definition set_db (d : UserDb) g : Gateway := mkGateway (gw_now g) d (gw_cache g) (gw_oidc g) (gw_spawned g).
Definition spawn (x : Uuid * string) g : Gateway := mkGateway (gw_now g) (gw_db g) (gw_cache g) (gw_oidc g) (gw_spawned g ++ [x]).

Definition on_db {A} (c : Z -> St UserDb A) : St Gateway A := fun g => let '(a, d) := c (gw_now g) (gw_db g) in (a, set_db d g).

(** Both parts share the clock. *)
Definition on_oidc {A} (c : St OidcState A) : St Gateway A := fun g =>
  let o := gw_oidc g in
  let '(a, o) := c (mkOidcState (gw_now g) (os_keys o) (os_failures o) (os_fetches o)) in
  (a, mkGateway (os_now o) (gw_db g) (gw_cache g) o (gw_spawned g)).

(** [iter().filter(...).map(...)], then [pop] for each key. *)
Definition entries_of (user : string) (c : C) : list Digest :=
  fst <$> base.filter (fun x => id_user x.2.1 = user) (lru_entries c).

Definition evict_user (user : string) (c : C) : C := foldl (fun c k => lru_pop k c) c (entries_of user c).

Definition invalidate_user (user : string) : St Gateway unit := modify (fun g => set_cache (evict_user user (gw_cache g)) g).

(** [inserted_at.elapsed().as_secs()] *)
Definition elapsed_secs (now t : Z) : Z := Z.max 0 (now - t) / SECOND.

(** Until the query: what the cache answers. *)
Definition cache_lookup (hash : Digest) : St Gateway (option UserIdentity) := fun g =>
  match lru_get hash (gw_cache g) with
  | (None, c) => (None, set_cache c g)
  | (Some (ident, inserted_at), c) =>
      if (elapsed_secs (gw_now g) inserted_at <? CACHE_TTL_SECS)%Z then (Some ident, set_cache c g)
      else (None, set_cache (lru_pop hash c) g)
  end.

(** The query, and the task it spawns. *)
Definition ask_db (hash : Digest) : St Gateway (Result unit (option UserIdentity)) :=
  r ← on_db (fun now => authenticate_token now hash);
  match r with
  | Err _ => mret (Err tt)
  | Ok None => mret (Ok None)
  | Ok (Some (token, user)) =>
      _ ← modify (spawn (at_id token, u_id user));
      mret (Ok (Some (mkIdentity (u_id user) (u_role user) [])))
  end.

Definition remember (hash : Digest) (ident : UserIdentity) : St Gateway unit :=
  modify (fun g => set_cache (lru_put hash (ident, gw_now g) (gw_cache g)) g).

Definition db_authenticate (candidate : string) : St Gateway (Result unit (option UserIdentity)) :=
  let hash := hash_token candidate in
  hit ← cache_lookup hash;
  match hit with
  | Some ident => mret (Ok (Some ident))
  | None =>
      r ← ask_db hash;
      match r with
      | Ok (Some ident) => _ ← remember hash ident; mret (Ok (Some ident))
      | r => mret r
      end
  end.

(** The spawned task. *)
Definition record_usage (x : Uuid * string) : St Gateway unit :=
  _ ← on_db (fun now => record_token_usage now x.1);
  _ ← on_db (fun now => record_login now x.2);
  mret tt.

Definition run_spawned_usage : St Gateway unit := fun g =>
  match gw_spawned g with
  | [] => (tt, g)
  | x :: l => record_usage x (mkGateway (gw_now g) (gw_db g) (gw_cache g) (gw_oidc g) l)
  end.

(** ** Extractors *)

Definition authenticated_user (ext : option UserIdentity) : Result (Z * string) UserIdentity :=
  match ext with Some id => Ok id | None => Err (401%Z, "Not authenticated") end.

Definition admin_user (ext : option UserIdentity) : Result (Z * string) UserIdentity :=
  match authenticated_user ext with
  | Err e => Err e
  | Ok id => if (id_role id =? "admin")%string then Ok id else Err (403%Z, "Admin role required")
  end.

(** ** The middleware *)

Definition allows_query_token_auth (r : Request) : bool :=
  bool_decide (rq_method r = GET) &&
  ((rq_path r =? "/api/chat/events")%string || (rq_path r =? "/api/logs/events")%string || (rq_path r =? "/api/chat/ws")%string).

Definition query_token (r : Request) : option string :=
  query ← rq_query r; snd <$> head (base.filter (fun kv => kv.1 = "token") (form_parse query)).

(** The value of a header that is text. *)
Definition header_text (name : string) (r : Request) : option string := rq_headers r name ≫= header_to_str.

Definition bearer (value : string) : option string :=
  if (7 <? String.length value)%nat && eq_ignore_ascii_case (str_to 7 value) "Bearer " then Some (str_from 7 value) else None.

Definition extract_token (r : Request) : option string :=
  match header_text "authorization" r ≫= bearer with
  | Some token => Some token
  | None => if allows_query_token_auth r then query_token r else None
  end.

Definition try_oidc (auth : CombinedAuthState) (r : Request) : St Gateway Served :=
  let refuse := mret (Refuse 401 "Invalid or missing auth token") in
  match ca_oidc auth with
  | None => refuse
  | Some config =>
      match header_text (oc_header config) r with
      | None => refuse
      | Some jwt =>
          v ← on_oidc (validate_oidc_jwt config jwt);
          match v with
          | Ok sub => mret (Pass (mkIdentity sub "member" []))
          | Err _ => refuse
          end
      end
  end.

Definition auth_middleware (auth : CombinedAuthState) (r : Request) : St Gateway Served :=
  match extract_token r with
  | None => try_oidc auth r
  | Some token =>
      match multi_authenticate (ca_env_auth auth) token with
      | Some ident => mret (Pass ident)
      | None =>
          if ca_db_auth auth then
            a ← db_authenticate token;
            match a with
            | Ok (Some ident) => mret (Pass ident)
            | Err _ => mret (Refuse 503 "Database unavailable")
            | Ok None => try_oidc auth r
            end
          else try_oidc auth r
      end
  end.
End auth.

(** ** A cache as a list

    The last used entry comes first; beyond the capacity, which is not zero, the others are dropped. *)

Record ListLru : Type := mkListLru { ll_capacity : nat; ll_items : list (Digest * (UserIdentity * Z)) }.

Definition others (k : Digest) (l : list (Digest * (UserIdentity * Z))) : list (Digest * (UserIdentity * Z)) :=
  base.filter (fun x => x.1 ≠ k) l.

#[export] Instance list_lru : Lru ListLru := {|
  lru_new := fun n => mkListLru n [];
  lru_get := fun k c =>
    match head (base.filter (fun x => x.1 = k) (ll_items c)) with
    | Some x => (Some x.2, mkListLru (ll_capacity c) (x :: others k (ll_items c)))
    | None => (None, c)
    end;
  lru_put := fun k e c => mkListLru (ll_capacity c) (take (Nat.max 1 (ll_capacity c)) ((k, e) :: others k (ll_items c)));
  lru_pop := fun k c => mkListLru (ll_capacity c) (others k (ll_items c));
  lru_entries := ll_items
|}.

Lemma others_in k l x : x ∈ others k l ↔ x.1 ≠ k ∧ x ∈ l.
Proof. unfold others. by rewrite list_elem_of_filter. Qed.

Lemma first_match k l x : head (base.filter (fun x => x.1 = k) l) = Some x → x.1 = k ∧ (x : Digest * (UserIdentity * Z)) ∈ l.
Proof.
  intros Hx. assert (x ∈ base.filter (fun x => x.1 = k) l) as Hin by (destruct (base.filter _ l); simplify_eq/=; set_solver).
  by apply list_elem_of_filter in Hin.
Qed.

#[export] Instance list_lru_laws : LruLaws ListLru.
Proof.
  split; cbn.
  - done.
  - intros k c e. destruct (head _) as [[k' e']|] eqn:Hh; [|done]. apply first_match in Hh as [Hk Hin]. cbn in *. by intros [= <-]; subst.
  - intros k c e. destruct (head _) as [x|] eqn:Hh; [done|]. intros _ Hin.
    assert ((k, e) ∈ base.filter (fun x => x.1 = k) (ll_items c)) as Hf by by apply list_elem_of_filter.
    destruct (base.filter _ _); [set_solver|done].
  - intros k c x. destruct (head _) as [y|] eqn:Hh; [|done]. cbn. apply first_match in Hh as [_ Hin].
    intros [->|Hx%others_in]%elem_of_cons; [done|]. tauto.
  - intros k e c k' e' Hin. apply elem_of_take in Hin as (i & Hi & _). apply list_elem_of_lookup_2 in Hi.
    apply elem_of_cons in Hi as [[= -> ->]|Hi%others_in]; [by left|by right].
  - intros k e c. replace (Nat.max 1 (ll_capacity c)) with (S (pred (Nat.max 1 (ll_capacity c)))) by lia. cbn [take].
    rewrite filter_cons_True by done. done.
  - intros k c k' e'. by rewrite others_in.
Qed.

(** ** Theorems *)

Section laws.
  Context `{AuthEnv} `{OidcEnv} `{!OidcEnvLaws} `{Decimal} `{!UserPg} `{!UserPgLaws} {C : Type} `{!Lru C} `{!LruLaws C}.
  Implicit Types (g : Gateway (C := C)) (d : UserDb).

Abbreviation entry h e g := ((h, e) ∈ lru_entries (gw_cache g)).

(** *** The sections of an authentication *)

Lemma cache_lookup_run h g :
  (∀ x, x ∈ lru_entries (gw_cache (cache_lookup h g).2) → x ∈ lru_entries (gw_cache g)) ∧
  gw_db (cache_lookup h g).2 = gw_db g ∧ gw_now (cache_lookup h g).2 = gw_now g ∧ gw_oidc (cache_lookup h g).2 = gw_oidc g ∧
  ∀ id, (cache_lookup h g).1 = Some id → ∃ t, entry h (id, t) g ∧ (elapsed_secs (gw_now g) t < CACHE_TTL_SECS)%Z.
Proof.
  unfold cache_lookup. pose proof (lru_get_in h (gw_cache g)) as Hin. pose proof (lru_get_keeps h (gw_cache g)) as Hk.
  destruct (lru_get h (gw_cache g)) as [[[id t]|] c]; cbn [fst snd] in *; [|by repeat split].
  destruct (_ <? _)%Z eqn:Ht; cbn.
  - repeat split; [done|]. intros id' [= <-]. exists t. split; [by apply Hin|]. by apply Z.ltb_lt.
  - repeat split; [|done]. intros [k e] [_ Hx]%lru_pop_in. by apply Hk.
Qed.

Lemma ask_db_run h g :
  gw_cache (ask_db h g).2 = gw_cache g ∧ gw_now (ask_db h g).2 = gw_now g ∧ same_tables (gw_db g) (gw_db (ask_db h g).2) ∧
  gw_oidc (ask_db h g).2 = gw_oidc g ∧
  ∀ id, (ask_db h g).1 = Ok (Some id) →
    ∃ i row u, ud_tokens (gw_db g) !! i = Some row ∧ live_token (gw_now g) h row = true ∧
      ud_users (gw_db g) !! at_user_id (tk_record row) = Some u ∧ u_status u = "active" ∧ id = mkIdentity (u_id u) (u_role u) [].
Proof.
  unfold ask_db. rewrite bind_run. unfold on_db. pose proof (authenticate_token_reads (gw_now g) h (gw_db g)) as Hr.
  destruct (authenticate_token (gw_now g) h (gw_db g)) as [[[[t u]|]|e] d'] eqn:Ha; cbn [fst snd] in *;
    [|by repeat split; first [done|apply Hr]..].
  rewrite bind_run. cbn. repeat split; [by apply Hr..|]. intros id [= <-].
  apply authenticate_token_found in Ha as (i & row & Hrow & Hl & Ht & Hu & Hs). subst t. by exists i, row, u.
Qed.

Lemma db_authenticate_run token g :
  db_authenticate token g =
  let h := hash_token token in
  match cache_lookup h g with
  | (Some id, g) => (Ok (Some id), g)
  | (None, g) =>
      match ask_db h g with
      | (Ok (Some id), g) => (Ok (Some id), (remember h id g).2)
      | (r, g) => (r, g)
      end
  end.
Proof.
  unfold db_authenticate. cbv zeta. rewrite bind_run. destruct (cache_lookup _ g) as [[id|] g1]; [done|]. cbn [fst snd].
  rewrite bind_run. by destruct (ask_db _ g1) as [[[id|]|e] g2].
Qed.

(** What an admitted token of the database rests on. *)
Definition cached h id g : Prop := ∃ t, entry h (id, t) g ∧ (elapsed_secs (gw_now g) t < CACHE_TTL_SECS)%Z.

Definition live h id g : Prop :=
  ∃ i row u, ud_tokens (gw_db g) !! i = Some row ∧ live_token (gw_now g) h row = true ∧
    ud_users (gw_db g) !! at_user_id (tk_record row) = Some u ∧ u_status u = "active" ∧ id = mkIdentity (u_id u) (u_role u) [].

Lemma db_authenticate_found token g id :
  (db_authenticate token g).1 = Ok (Some id) → cached (hash_token token) id g ∨ live (hash_token token) id g.
Proof.
  rewrite db_authenticate_run. cbv zeta. destruct (cache_lookup_run (hash_token token) g) as (_ & Hd & Hn & _ & Hhit).
  destruct (cache_lookup _ g) as [[id'|] g1]; cbn [fst snd] in *.
  - intros [= ->]. left. by apply Hhit.
  - destruct (ask_db_run (hash_token token) g1) as (_ & _ & _ & _ & Hask). rewrite Hd, Hn in Hask.
    destruct (ask_db _ g1) as [[[id'|]|e] g2]; cbn [fst snd] in *; [|done..]. intros [= ->]. right. by apply Hask.
Qed.

Lemma db_authenticate_oidc token g : gw_oidc (db_authenticate token g).2 = gw_oidc g.
Proof.
  rewrite db_authenticate_run. cbv zeta. destruct (cache_lookup_run (hash_token token) g) as (_ & _ & _ & Ho & _).
  destruct (cache_lookup _ g) as [[id'|] g1]; cbn [fst snd] in *; [done|].
  destruct (ask_db_run (hash_token token) g1) as (_ & _ & _ & Ha & _). rewrite <- Ho, <- Ha.
  by destruct (ask_db _ g1) as [[[id'|]|e] g2].
Qed.

(** *** Who is let through *)

(** How a request shows a token. *)
Definition presented (r : Request) (token : string) : Prop :=
  (∃ value, header_text "authorization" r = Some value ∧ (7 < String.length value)%nat ∧
     eq_ignore_ascii_case (str_to 7 value) "Bearer " = true ∧ token = str_from 7 value) ∨
  (rq_method r = GET ∧ rq_path r ∈ ["/api/chat/events"; "/api/logs/events"; "/api/chat/ws"] ∧
   ∃ query, rq_query r = Some query ∧ ("token", token) ∈ form_parse query).

Lemma query_presented r token : (if allows_query_token_auth r then query_token r else None) = Some token → presented r token.
Proof.
  destruct (allows_query_token_auth r) eqn:Ha; [|done]. unfold allows_query_token_auth in Ha.
  apply andb_true_iff in Ha as [Hm%bool_decide_eq_true Hp]. unfold query_token. destruct (rq_query r) as [query|] eqn:Hq; [|done].
  cbn [mbind option_bind]. destruct (base.filter _ (form_parse query)) as [|[k v] l] eqn:Hf; [done|]. intros [= <-]. right.
  split; [done|]. split.
  - rewrite !orb_true_iff, !String.eqb_eq in Hp. set_solver.
  - exists query. split; [done|]. assert ((k, v) ∈ (k, v) :: l) as Hin by set_solver. rewrite <- Hf in Hin.
    apply list_elem_of_filter in Hin as [Hk Hin]. cbn in Hk. by subst k.
Qed.

Lemma extract_token_presented r token : extract_token r = Some token → presented r token.
Proof.
  unfold extract_token. destruct (header_text "authorization" r) as [value|] eqn:Hh; cbn [mbind option_bind]; [|apply query_presented].
  unfold bearer. destruct ((7 <? String.length value)%nat && _) eqn:Hb; [|apply query_presented].
  intros [= <-]. apply andb_true_iff in Hb as [Hl He]. apply Nat.ltb_lt in Hl. left. by exists value.
Qed.

Lemma multi_authenticate_in a token id : multi_authenticate a token = Some id → (hash_token token, id) ∈ ma_hashed_tokens a.
Proof.
  unfold multi_authenticate. set (f := fun _ _ => _). assert (∀ l m, foldl f m l = Some id → m = Some id ∨ (hash_token token, id) ∈ l) as Hgo.
  { induction l as [|[h i] l IH]; intros m; cbn [foldl]; [auto|]. intros [Hm|Hin]%IH; [|set_solver]. unfold f in Hm. cbn in Hm.
    destruct (_ =? h)%string eqn:Hh; [|auto]. apply String.eqb_eq in Hh. right. injection Hm as ->. rewrite Hh. set_solver. }
  intros [?|?]%Hgo; done.
Qed.

Definition oidc_ok (auth : CombinedAuthState) g : Prop := ∀ config, ca_oidc auth = Some config → keys_ok config (gw_oidc g).

Lemma keys_ok_now config o now : keys_ok config o → keys_ok config (mkOidcState now (os_keys o) (os_failures o) (os_fetches o)).
Proof. intros []. by split. Qed.

Lemma try_oidc_ok auth r : preserves (oidc_ok auth) (try_oidc auth r).
Proof.
  intros g Hok. unfold try_oidc. destruct (ca_oidc auth) as [config|] eqn:Hc; [|done]. destruct (header_text _ r) as [jwt|]; [|done].
  rewrite bind_run. unfold on_oidc. pose proof (validate_oidc_jwt_ok config jwt _ (keys_ok_now config (gw_oidc g) (gw_now g) (Hok _ Hc))) as Hv.
  destruct (validate_oidc_jwt _ _ _) as [v o]. cbn [fst snd] in *. intros config' Hc'. rewrite Hc in Hc'. injection Hc' as <-.
  by destruct v.
Qed.

Lemma auth_middleware_ok auth r : preserves (oidc_ok auth) (auth_middleware auth r).
Proof.
  pose proof (try_oidc_ok auth r) as Htry.
  unfold auth_middleware. destruct (extract_token r) as [token|]; [|done]. destruct (multi_authenticate _ token); [preserve|].
  destruct (ca_db_auth auth); [|done]. apply preserves_bind.
  - intros g Hok config Hc. rewrite db_authenticate_oidc. by apply Hok.
  - intros [[]|]; [preserve|done|preserve].
Qed.

Lemma validate_later config jwt t : preserves (fun o => (t ≤ os_now o)%Z) (validate_oidc_jwt config jwt).
Proof.
  unfold validate_oidc_jwt. destruct (decode_header _) as [header|]; [|preserve]. destruct (jh_kid header); [|preserve].
  apply preserves_try; [|intros [key alg]; destruct (verify_signature _ _ _); preserve].
  intros o Ho. rewrite get_or_fetch_key_run. destruct (cached_key _ o); [done|]. destruct (backing_off _ o); [done|].
  pose proof (http_takes_time (os_fetches o)). cbv zeta. cbn [after_fetch os_fetches os_now os_keys os_failures pred].
  destruct (fetched _ _ _ _) as [[]|]; cbn [snd os_now set_failures after_fetch]; lia.
Qed.

Lemma try_oidc_run auth r g :
  gw_cache (try_oidc auth r g).2 = gw_cache g ∧ gw_db (try_oidc auth r g).2 = gw_db g ∧ (gw_now g ≤ gw_now (try_oidc auth r g).2)%Z.
Proof.
  unfold try_oidc. destruct (ca_oidc auth) as [config|]; [|done]. destruct (header_text _ r) as [jwt|]; [|done].
  rewrite bind_run. unfold on_oidc. set (o := mkOidcState _ _ _ _). pose proof (validate_later config jwt (gw_now g) o (Z.le_refl _)) as Ht.
  destruct (validate_oidc_jwt config jwt o) as [[sub|e] o']; done.
Qed.

(** What is in the cache after a request was there before, or is the database's answer to this request. *)
Lemma db_authenticate_entries token g :
  gw_now (db_authenticate token g).2 = gw_now g ∧
  ∀ h id t, entry h (id, t) (db_authenticate token g).2 → entry h (id, t) g ∨ (live h id g ∧ t = gw_now g).
Proof.
  rewrite db_authenticate_run. cbv zeta. destruct (cache_lookup_run (hash_token token) g) as (Hin & Hd & Hn & _).
  destruct (cache_lookup _ g) as [[id'|] g1]; cbn [fst snd] in *; [by eauto|].
  destruct (ask_db_run (hash_token token) g1) as (Hc & Hn1 & _ & _ & Hask).
  destruct (ask_db _ g1) as [[[id'|]|e] g2]; cbn [fst snd] in *; [|rewrite Hc, Hn1; by eauto..].
  cbn [remember modify fst snd gw_cache gw_now set_cache]. rewrite Hn1, Hn. split; [done|].
  intros h id t [[-> [= -> ->]]|[_ Hold]]%lru_put_old; [|rewrite Hc in Hold; by eauto].
  right. split; [|done]. unfold live. rewrite <- Hd, <- Hn. by apply Hask.
Qed.

Lemma auth_middleware_run auth r g :
  (gw_now g ≤ gw_now (auth_middleware auth r g).2)%Z ∧
  ∀ h id t, entry h (id, t) (auth_middleware auth r g).2 → entry h (id, t) g ∨ (live h id g ∧ t = gw_now g).
Proof.
  assert (∀ g, (gw_now g ≤ gw_now (try_oidc auth r g).2)%Z ∧ ∀ h id t, entry h (id, t) (try_oidc auth r g).2 → entry h (id, t) g) as Ho.
  { intros g0. destruct (try_oidc_run auth r g0) as (Hc & _ & Ht). by rewrite Hc. }
  unfold auth_middleware. destruct (extract_token r) as [token|]; [|split; [apply Ho|left; by apply Ho]].
  destruct (multi_authenticate _ token); [split; [done|by left]|]. destruct (ca_db_auth auth); [|split; [apply Ho|left; by apply Ho]].
  rewrite bind_run. destruct (db_authenticate_entries token g) as [Hn He].
  destruct (db_authenticate token g) as [[[id'|]|e] g1]; cbn [fst snd mret st_ret] in *; [split; [lia|done]| |split; [lia|done]].
  destruct (Ho g1) as [Ht Hg]. split; [lia|]. intros h id t Hin%Hg. by apply He.
Qed.

(** A token in the address counts on no other path: the answer does not depend on the query. *)
Theorem url_token_ignored auth m path headers q q' g :
  (m ≠ GET ∨ path ∉ ["/api/chat/events"; "/api/logs/events"; "/api/chat/ws"]) →
  auth_middleware auth (mkRequest m path q headers) g = auth_middleware auth (mkRequest m path q' headers) g.
Proof.
  intros Hno. assert (∀ q, allows_query_token_auth (mkRequest m path q headers) = false) as Hf.
  { intros q0. unfold allows_query_token_auth. cbn. destruct Hno as [Hm|Hp]; [by rewrite bool_decide_false|].
    rewrite andb_false_iff. right. rewrite !orb_false_iff, !String.eqb_neq. set_solver. }
  unfold auth_middleware, extract_token. rewrite !Hf. done.
Qed.

(** While the database cannot be asked, a token it might know is answered with 503: neither as if it were wrong nor by falling back on the
    identity provider. *)
Theorem database_down_is_503 auth r token g e :
  extract_token r = Some token → multi_authenticate (ca_env_auth auth) token = None → ca_db_auth auth = true →
  (cache_lookup (hash_token token) g).1 = None → up_fault (ud_operations (gw_db g)) = Some e →
  (auth_middleware auth r g).1 = Refuse 503 "Database unavailable".
Proof.
  intros Ht Hm Hdb Hc Hf. unfold auth_middleware. rewrite Ht, Hm, Hdb, bind_run, db_authenticate_run. cbv zeta.
  destruct (cache_lookup_run (hash_token token) g) as (_ & Hd & _). destruct (cache_lookup _ g) as [o g1]. cbn [fst snd] in *. subst o.
  assert ((ask_db (hash_token token) g1).1 = Err tt) as Ha.
  { unfold ask_db. rewrite bind_run. unfold on_db, authenticate_token, st_try. rewrite bind_run. unfold conn. cbn [fst snd].
    rewrite Hd, Hf. done. }
  destruct (ask_db _ g1) as [a g2]. cbn [fst] in Ha. by subst a.
Qed.

(** *** Requests that overlap *)

(** The gateway, and the answers of the database that are still to be put into the cache. *)
Abbreviation System := (Gateway (C := C) * list (Digest * UserIdentity))%type.

Definition wait (t : Z) g : Gateway := mkGateway (gw_now g + t) (gw_db g) (gw_cache g) (gw_oidc g) (gw_spawned g).

(** The sections of the requests, in any order; the other users of the database leave it in a state that satisfies [P].  A
    request can be dropped while it waits. *)
Inductive gw_step (P : UserDb → Prop) : System → System → Prop :=
| step_wait t g fl : (0 ≤ t)%Z → gw_step P (g, fl) (wait t g, fl)
| step_db d g fl : P d → gw_step P (g, fl) (set_db d g, fl)
| step_lookup h g fl : gw_step P (g, fl) ((cache_lookup h g).2, fl)
| step_found h id g fl : (ask_db h g).1 = Ok (Some id) → gw_step P (g, fl) ((ask_db h g).2, (h, id) :: fl)
| step_not_found h g fl : (∀ id, (ask_db h g).1 ≠ Ok (Some id)) → gw_step P (g, fl) ((ask_db h g).2, fl)
| step_remember h id g fl fl' : gw_step P (g, fl ++ (h, id) :: fl') ((remember h id g).2, fl ++ fl')
| step_dropped x g fl fl' : gw_step P (g, fl ++ x :: fl') (g, fl ++ fl')
| step_invalidate user g fl : gw_step P (g, fl) ((invalidate_user user g).2, fl).

Lemma evict_user_entries user c h e :
  (h, e) ∈ lru_entries (evict_user user c) → (h, e) ∈ lru_entries c ∧ id_user e.1 ≠ user.
Proof.
  unfold evict_user. assert (∀ l c, (h, e) ∈ lru_entries (foldl (fun c k => lru_pop k c) c l) → (h ∉ l) ∧ (h, e) ∈ lru_entries c) as Hgo.
  { induction l as [|k l IH]; intros c'; cbn [foldl]; [set_solver|]. intros [Hl [Hn Hin]%lru_pop_in]%IH. set_solver. }
  intros [Hn Hin]%Hgo. split; [done|]. intros Hu. apply Hn. unfold entries_of. apply list_elem_of_fmap. exists (h, e). split; [done|].
  by apply list_elem_of_filter.
Qed.

(** Answers that the database does not give and the cache does not hold stay away. *)
Section entries.
  Variables (P : UserDb → Prop) (t0 : Z) (bad : Digest → UserIdentity → Prop) (bad_entry : Digest → UserIdentity → Z → Prop).
  Hypothesis P_tables : ∀ d d', same_tables d d' → P d → P d'.
  Hypothesis no_bad_answer : ∀ h id g, P (gw_db g) → (t0 ≤ gw_now g)%Z → (ask_db h g).1 = Ok (Some id) → ¬ bad h id.
  Hypothesis only_bad_entries : ∀ h id t, bad_entry h id t → bad h id.

Record clean (x : System) : Prop := {
  cl_db : P (gw_db x.1);
  cl_time : (t0 ≤ gw_now x.1)%Z;
  cl_cache h id t : entry h (id, t) x.1 → ¬ bad_entry h id t;
  cl_flight h id : (h, id) ∈ x.2 → ¬ bad h id
}.

Lemma step_clean x y : gw_step P x y → clean x → clean y.
Proof.
  intros Hs [Hdb Ht Hc Hfl]. destruct Hs as [t g fl Hpos|d g fl HP|h g fl|h id g fl Ha|h g fl Ha|h id g fl fl'|z g fl fl'|user g fl];
    cbn [fst snd] in *.
  - split; cbn; [done|lia|done|done].
  - by split.
  - destruct (cache_lookup_run h g) as (Hin & Hd & Hn & _). split; cbn [fst snd]; [by rewrite Hd|by rewrite Hn|eauto|done].
  - destruct (ask_db_run h g) as (He & Hn & Hsame & _). split; cbn [fst snd]; [by eapply P_tables|by rewrite Hn|by rewrite He|].
    intros h' id' [[= -> ->]|Hin]%elem_of_cons; [by eapply no_bad_answer|by apply Hfl].
  - destruct (ask_db_run h g) as (He & Hn & Hsame & _). split; cbn [fst snd]; [by eapply P_tables|by rewrite Hn|by rewrite He|done].
  - split; cbn [fst snd remember modify gw_db gw_now gw_cache set_cache]; [done|done| |set_solver].
    intros h' id' t' [[-> [= -> ->]]|[_ Hin]]%lru_put_old; [|by apply Hc]. intros Hbad%only_bad_entries. revert Hbad. apply Hfl. set_solver.
  - split; cbn [fst snd]; try done. set_solver.
  - split; cbn [fst snd invalidate_user modify gw_db gw_now gw_cache set_cache]; try done.
    intros h' id' t' [Hin _]%evict_user_entries. by apply Hc.
Qed.

Lemma steps_clean x y : rtc (gw_step P) x y → clean x → clean y.
Proof. induction 1; eauto using step_clean. Qed.
End entries.

(** *** Who is let through, in a run of the gateway *)

(** [DbAuthenticator::new] and [OidcState::from_config]: nothing is remembered. *)
Definition gw_new (now : Z) d : Gateway := mkGateway now d (lru_new MAX_CACHE_ENTRIES) (mkOidcState now ∅ ∅ 0) [].

(** The runs of a gateway since its start, with the moments they went through, the latest first: whole requests, the sections of requests that
    overlap, requests that are with the identity provider, time that passes and anything others do to the database. *)
Inductive gw_run (auth : CombinedAuthState) : System → list (Gateway (C := C)) → Prop :=
| run_new now d : gw_run auth (gw_new now d, []) []
| run_request r g fl past : gw_run auth (g, fl) past → gw_run auth ((auth_middleware auth r g).2, fl) (g :: past)
| run_section x y past : gw_run auth x past → gw_step (fun _ => True) x y → gw_run auth y (x.1 :: past)
| run_oidc r g fl past : gw_run auth (g, fl) past → gw_run auth ((try_oidc auth r g).2, fl) (g :: past).

(** At a moment of the run the database called the token of the hash live and its user, [id], active; at a moment that was not earlier
    this answer was put into the cache, where it still is, less than a minute later. *)
Definition found_live (past : list (Gateway (C := C))) h id g : Prop :=
  ∃ asked stored, asked ∈ past ∧ stored ∈ past ∧ live h id asked ∧ (gw_now asked ≤ gw_now stored ≤ gw_now g)%Z ∧
    entry h (id, gw_now stored) g ∧ (elapsed_secs (gw_now g) (gw_now stored) < CACHE_TTL_SECS)%Z.

(** What a request that is passed on with [id] has shown. *)
Definition proven (auth : CombinedAuthState) (r : Request) id (past : list (Gateway (C := C))) g g' : Prop :=
  (∃ token, presented r token ∧
     ((hash_token token, id) ∈ ma_hashed_tokens (ca_env_auth auth) ∨
      (ca_db_auth auth = true ∧ (live (hash_token token) id g ∨ found_live past (hash_token token) id g)))) ∨
  (∃ config jwt, ca_oidc auth = Some config ∧ header_text (oc_header config) r = Some jwt ∧
     vouched config jwt (id_user id) (gw_oidc g') ∧ id_role id = "member").

(** Every entry of the cache and every answer under way goes back to a live token. *)
Record traced (auth : CombinedAuthState) (past : list (Gateway (C := C))) (x : System) : Prop := {
  tr_keys : oidc_ok auth x.1;
  tr_time g : g ∈ past → (gw_now g ≤ gw_now x.1)%Z;
  tr_cache h id t : entry h (id, t) x.1 →
    ∃ asked stored, asked ∈ past ∧ stored ∈ past ∧ live h id asked ∧ (gw_now asked ≤ gw_now stored)%Z ∧ t = gw_now stored;
  tr_flight h id : (h, id) ∈ x.2 → ∃ asked, asked ∈ past ∧ live h id asked
}.

(** A step that puts into the cache only what is traced already, or what the database has just said, keeps everything traced. *)
Lemma traced_step auth past g fl g' fl' :
  traced auth past (g, fl) → oidc_ok auth g' → (gw_now g ≤ gw_now g')%Z →
  (∀ h id t, entry h (id, t) g' → entry h (id, t) g ∨ ((live h id g ∨ (h, id) ∈ fl) ∧ t = gw_now g)) →
  (∀ h id, (h, id) ∈ fl' → (h, id) ∈ fl ∨ live h id g) → traced auth (g :: past) (g', fl').
Proof.
  intros [_ Ht Hc Hf] Hok Hnow He Hfl. cbn [fst snd] in *. split; cbn [fst snd].
  - done.
  - intros g0 [->|Hin]%elem_of_cons; [done|]. specialize (Ht _ Hin). lia.
  - intros h id t [Hin|[Hl ->]]%He.
    + destruct (Hc _ _ _ Hin) as (a & b & ? & ? & ? & ? & ->). exists a, b. set_solver.
    + destruct Hl as [Hl|(a & Hin & Hl)%Hf]; [exists g, g|exists a, g; specialize (Ht _ Hin)]; repeat split; try done; try lia; set_solver.
  - intros h id [(a & Hin & Hl)%Hf|Hl]%Hfl; [exists a|exists g]; set_solver.
Qed.

Lemma section_traced auth past x y : gw_step (fun _ => True) x y → traced auth past x → traced auth (x.1 :: past) y.
Proof.
  intros Hs Htr. pose proof (tr_keys _ _ _ Htr) as Hok.
  destruct Hs as [t g fl Hpos|d g fl _|h g fl|h id g fl Ha|h g fl Ha|h id g fl fl'|z g fl fl'|user g fl]; cbn [fst] in *;
    eapply traced_step; try exact Htr; try done; cbn [fst snd]; try by eauto.
  - cbn. lia.
  - destruct (cache_lookup_run h g) as (_ & _ & _ & Ho & _). unfold oidc_ok. by rewrite Ho.
  - destruct (cache_lookup_run h g) as (_ & _ & Hn & _). by rewrite Hn.
  - destruct (cache_lookup_run h g) as (Hin & _). eauto.
  - destruct (ask_db_run h g) as (_ & _ & _ & Ho & _). unfold oidc_ok. by rewrite Ho.
  - destruct (ask_db_run h g) as (_ & Hn & _). by rewrite Hn.
  - destruct (ask_db_run h g) as (Hc & _). rewrite Hc. eauto.
  - destruct (ask_db_run h g) as (_ & _ & _ & _ & Hask). intros h' id' [[= -> ->]|Hin]%elem_of_cons; [right; by apply Hask|by left].
  - destruct (ask_db_run h g) as (_ & _ & _ & Ho & _). unfold oidc_ok. by rewrite Ho.
  - destruct (ask_db_run h g) as (_ & Hn & _). by rewrite Hn.
  - destruct (ask_db_run h g) as (Hc & _). rewrite Hc. eauto.
  - intros h' id' t [[-> [= -> ->]]|[_ Hin]]%lru_put_old; [|by left]. right. split; [right; set_solver|done].
  - intros h' id' Hin. left. set_solver.
  - intros h' id' Hin. left. set_solver.
  - intros h' id' t [Hin _]%evict_user_entries. by left.
Qed.

Lemma run_traced auth x past : gw_run auth x past → traced auth past x.
Proof.
  induction 1 as [now d|r g fl past Hr IH|x y past Hr IH Hs|r g fl past Hr IH].
  - split; cbn; [|set_solver| |set_solver].
    + intros config _. split; cbn; [rewrite map_size_empty; unfold KEY_CACHE_MAX_ENTRIES; lia|]. intros kid k. by rewrite lookup_empty.
    + intros h id t. rewrite lru_new_empty. set_solver.
  - destruct (auth_middleware_run auth r g) as [Ht He]. eapply traced_step; [done|by apply auth_middleware_ok, (tr_keys _ _ _ IH)|done| |by left].
    intros h id t [?|[]]%He; auto.
  - by apply section_traced.
  - destruct (try_oidc_run auth r g) as (Hc & _ & Ht). eapply traced_step; [done| |done|rewrite Hc; by left|by left].
    by apply try_oidc_ok, (tr_keys _ _ _ IH).
Qed.

Lemma try_oidc_proven auth r g id g' past g0 :
  oidc_ok auth g → try_oidc auth r g = (Pass id, g') → proven auth r id past g0 g'.
Proof.
  intros Hok. unfold try_oidc. destruct (ca_oidc auth) as [config|] eqn:Hc; [|done].
  destruct (header_text _ r) as [jwt|] eqn:Hh; [|done]. rewrite bind_run. unfold on_oidc.
  destruct (validate_oidc_jwt _ _ _) as [[sub|e] o] eqn:Hv; cbn [fst snd]; [|done]. intros [= <- <-]. right.
  exists config, jwt. repeat split; try done. cbn. eapply validated_vouched; [|exact Hv]. by apply keys_ok_now, Hok.
Qed.

Lemma traced_found_live auth past g fl h id : traced auth past (g, fl) → cached h id g → found_live past h id g.
Proof.
  intros Htr (t & Hin & Hel). destruct (tr_cache _ _ _ Htr _ _ _ Hin) as (a & b & Ha & Hb & Hl & Hle & ->).
  exists a, b. pose proof (tr_time _ _ _ Htr b Hb). by repeat split.
Qed.

(** C8. Whatever the gateway has served since it was started, and however requests overlapped, a request is passed on with an identity only on
    a proof of it: a configured token; a token of the database that is live, or one for which the database, at an earlier moment of
    this run, called token and user live, that answer having been put into the cache less than a minute ago; both shown in
    the header or, for the three streaming paths alone, in the address; or a token the identity provider vouches for, with a key
    fetched from it in this run, and then as a member. *)
Theorem middleware_needs_proof auth g fl past r id g' :
  gw_run auth (g, fl) past → auth_middleware auth r g = (Pass id, g') → proven auth r id past g g'.
Proof.
  intros Htr%run_traced. pose proof (tr_keys _ _ _ Htr) as Hok. cbn [fst] in Hok. unfold auth_middleware.
  destruct (extract_token r) as [token|] eqn:Ht; [|by apply try_oidc_proven].
  apply extract_token_presented in Ht. destruct (multi_authenticate _ token) as [id'|] eqn:Hm.
  { intros [= <- <-]. apply multi_authenticate_in in Hm. left. exists token. auto. }
  destruct (ca_db_auth auth) eqn:Hdb; [|by apply try_oidc_proven]. rewrite bind_run.
  pose proof (db_authenticate_found token g) as Hf. pose proof (db_authenticate_oidc token g) as Ho.
  destruct (db_authenticate token g) as [[[id'|]|e] g1]; cbn [fst snd] in *; [| |done].
  - intros [= <- <-]. left. exists token. split; [done|]. right. split; [done|].
    destruct (Hf id' eq_refl) as [Hc|Hl]; [right; by eapply traced_found_live|by left].
  - apply try_oidc_proven. intros config Hc. rewrite Ho. by apply Hok.
Qed.

(** The database knows no live token of the hash, from [t0] on. *)
Definition refuses (t0 : Z) (h : Digest) d : Prop := ∀ t, (t0 ≤ t)%Z → token_rows t h d = [].

Lemma live_rows h id g : live h id g → ∃ u t, (t, u) ∈ token_rows (gw_now g) h (gw_db g) ∧ id_user id = u_id u.
Proof.
  intros (i & row & u & Hrow & Hl & Hu & Hs & ->). exists u, (tk_record row). split; [|done]. apply token_rows_elem. by exists i, row.
Qed.

(** C32. A token the database has stopped to accept is refused a minute later at the latest, however the requests of the minute overlap, if
    none that had found it valid was still under way when it was withdrawn. *)
Theorem withdrawn_token_expires token t0 g fl g' fl' :
  gw_now g = t0 → refuses t0 (hash_token token) (gw_db g) →
  (∀ id t, entry (hash_token token) (id, t) g → (t ≤ t0)%Z) → (∀ id, (hash_token token, id) ∉ fl) →
  rtc (gw_step (refuses t0 (hash_token token))) (g, fl) (g', fl') →
  (t0 + CACHE_TTL_SECS * SECOND ≤ gw_now g')%Z →
  ∀ id, (db_authenticate token g').1 ≠ Ok (Some id).
Proof.
  intros Hnow Hdb Hcache Hfl Hsteps Hlate id Hok. set (h := hash_token token) in *.
  apply (steps_clean (refuses t0 h) t0 (fun h' _ => h' = h) (fun h' _ t => h' = h ∧ (t0 < t)%Z)) in Hsteps as [Hdb' _ Hc' _];
    cbn [fst snd] in *.
  - apply db_authenticate_found in Hok as [(t & Hin & Helapsed)|Hlive].
    + assert (¬ (t0 < t)%Z) as Ht by (intros Hlt; by apply (Hc' h id t Hin)).
      unfold elapsed_secs, CACHE_TTL_SECS in *. rewrite Z.max_r in Helapsed by (unfold SECOND in *; lia).
      apply (Z.lt_irrefl 60). eapply Z.le_lt_trans; [|exact Helapsed]. apply Z.div_le_lower_bound; [by vm_compute|]. lia.
    + apply live_rows in Hlive as (u & tk & Hin & _). fold h in Hin. rewrite Hdb' in Hin; [set_solver|unfold SECOND, CACHE_TTL_SECS in *; lia].
  - intros d d' (Hu & Htk & _) HP t Ht. specialize (HP t Ht). unfold token_rows in *. rewrite Htk.
    unfold join_user in *. by rewrite Hu.
  - intros h' id' g1 HP Ht Ha ->. destruct (ask_db_run h g1) as (_ & _ & _ & _ & Hask).
    destruct (live_rows h id' g1 (Hask id' Ha)) as (u & tk & Hin & _). rewrite HP in Hin by done. set_solver.
  - by intros h' id' t [].
  - split; cbn [fst snd]; [done|lia| |].
    + intros h' id' t Hin [-> Hlt]. specialize (Hcache _ _ Hin). lia.
    + intros h' id' Hin ->. by eapply Hfl.
Qed.

(** The user of the identifier, if there is one, is not active; keys name their rows. *)
Record barred (user : string) d : Prop := {
  ba_status u : ud_users d !! user = Some u → u_status u ≠ "active";
  ba_keys i u : ud_users d !! i = Some u → u_id u = i
}.

Lemma barred_tables user d d' : same_tables d d' → barred user d → barred user d'.
Proof. intros (Hu & _ & _) []. by split; rewrite Hu. Qed.

Lemma live_not_barred user h id g : barred user (gw_db g) → live h id g → id_user id ≠ user.
Proof.
  intros [Hs Hk] (i & row & u & _ & _ & Hu & Hact & ->) Heq. cbn in Heq. rewrite (Hk _ _ Hu) in Heq. rewrite Heq in Hu. by apply (Hs u Hu).
Qed.

Definition no_entry (user : string) g : Prop := ∀ h e, entry h e g → id_user e.1 ≠ user.

(** Once nothing in the cache and no request under way is the user's, a user who is not active stays out for as long as this
    lasts. *)
Lemma barred_stays_out user g fl g' fl' :
  barred user (gw_db g) → no_entry user g → (∀ h id, (h, id) ∈ fl → id_user id ≠ user) →
  rtc (gw_step (barred user)) (g, fl) (g', fl') →
  ∀ token id, (db_authenticate token g').1 = Ok (Some id) → id_user id ≠ user.
Proof.
  intros Hdb Hcache Hfl Hsteps token id Hok.
  apply (steps_clean (barred user) (gw_now g) (fun _ id => id_user id = user) (fun _ id _ => id_user id = user)) in Hsteps as [Hdb' _ Hc' _];
    cbn [fst snd] in *.
  - apply db_authenticate_found in Hok as [(t & Hin & _)|Hlive]; [by eapply Hc'|by eapply live_not_barred].
  - apply barred_tables.
  - intros h id' g1 HP _ Ha. destruct (ask_db_run h g1) as (_ & _ & _ & _ & Hask). eapply live_not_barred; [done|]. by apply Hask.
  - done.
  - split; cbn [fst snd]; [done|lia| |done]. intros h id' t Hin. by apply (Hcache _ _ Hin).
Qed.
End laws.

(** ** A concrete gateway *)

Module AuthDemo.
Import UserDemo OidcDemo.

#[export] Instance auth_env : AuthEnv := {|
  sha256 := fun s => "#" +:+ s;
  header_to_str := Some;
  form_parse := fun q => [("token", q)]
|}.

Definition token_row (id : Uuid) (owner hash : string) : TokenRow :=
  mkTokenRow (mkApiToken id owner "laptop" "0123" None None 0 None) hash.

(** Two administrators and a member with a token each; the token of [ada] is in the cache. *)
Definition tables : UserDb :=
  mkUserDb {["ada" := user "ada" "admin"; "bob" := user "bob" "admin"; "eve" := user "eve" "member"]}
    {[1%N := token_row 1 "ada" "#a"; 2%N := token_row 2 "bob" "#b"; 3%N := token_row 3 "eve" "#e"]} no_rows 0.

Definition ada : UserIdentity := mkIdentity "ada" "admin" [].

Definition gateway (now : Z) (d : UserDb) (items : list (Digest * (UserIdentity * Z))) : Gateway (C := ListLru) :=
  mkGateway now d (mkListLru MAX_CACHE_ENTRIES items) (mkOidcState now ∅ ∅ 0) [].

Definition start : Gateway := gateway 0 tables [("#a", (ada, 0%Z))].

Definition auth : CombinedAuthState := mkCombined (multi_single "secret" "owner") true (Some config).

Definition request (m : Method) (path : string) (query : option string) (name value : string) : Request :=
  mkRequest m path query (fun n => if (n =? name)%string then Some value else None).

Definition with_bearer (token : string) : Request := request POST "/api/tokens" None "authorization" ("bearer " +:+ token).

Example configured_token : (auth_middleware auth (with_bearer "secret") start).1 = Pass (mkIdentity "owner" "admin" []).
Proof. vm_compute. reflexivity. Qed.

Example provider_token :
  (auth_middleware auth (request POST "/api/tokens" None "x-amzn-oidc-data" "rs.payload.AQ") start).1 = Pass (mkIdentity "ada" "member" []).
Proof. vm_compute. reflexivity. Qed.

(** A gateway that has just been started lets [bob] in; five seconds later, with the token revoked, the answer is still there. *)
Definition opened : Gateway := gw_new (C := ListLru) 0 tables.
Definition bob_served : Gateway := (auth_middleware auth (with_bearer "b") opened).2.
Definition bob_waits : Gateway := wait (5 * SECOND) bob_served.
Definition bob_revoked : Gateway := set_db (set_tokens (alter (revoked 5) 2%N (ud_tokens tables)) tables) bob_waits.

Lemma middleware_needs_proof_witness :
  (auth_middleware auth (with_bearer "b") bob_revoked).1 = Pass (mkIdentity "bob" "admin" []) ∧
  proven auth (with_bearer "b") (mkIdentity "bob" "admin" []) [bob_waits; bob_served; opened] bob_revoked
    (auth_middleware auth (with_bearer "b") bob_revoked).2.
Proof.
  assert ((auth_middleware auth (with_bearer "b") bob_revoked).1 = Pass (mkIdentity "bob" "admin" [])) as Hp by (vm_compute; reflexivity).
  split; [exact Hp|]. apply (middleware_needs_proof auth bob_revoked []).
  - apply (run_section auth (bob_waits, []) (bob_revoked, []) [bob_served; opened]); [|by apply step_db].
    apply (run_section auth (bob_served, []) (bob_waits, []) [opened]); [|apply step_wait; by vm_compute].
    apply (run_request auth (with_bearer "b") opened [] []), run_new.
  - by rewrite <- Hp, <- surjective_pairing.
Defined.

Lemma url_token_ignored_witness :
  auth_middleware auth (mkRequest POST "/api/tokens" (Some "b") (fun _ => None)) start =
  auth_middleware auth (mkRequest POST "/api/tokens" None (fun _ => None)) start.
Proof. apply url_token_ignored. by left. Defined.

Example url_token_on_stream :
  (auth_middleware auth (mkRequest GET "/api/chat/ws" (Some "b") (fun _ => None)) start).1 = Pass (mkIdentity "bob" "admin" []).
Proof. vm_compute. reflexivity. Qed.

Definition no_database : UserPg := {|
  up_text := fun _ => "db error"; up_fault := fun _ => Some "connection refused";
  up_scan_users := fun m => (map_to_list m).*2; up_scan_tokens := fun m => (map_to_list m).*2
|}.

Lemma database_down_is_503_witness :
  (auth_middleware (H2 := no_database) auth (with_bearer "b") start).1 = Refuse 503 "Database unavailable".
Proof.
  apply (database_down_is_503 (H3 := no_database) auth (with_bearer "b") "b" start "connection refused"); vm_compute; reflexivity.
Defined.

(** The token of [ada] has been revoked in the database, and then a minute passes. *)
Definition revoked_tables : UserDb := set_tokens (alter (revoked 5) 1%N (ud_tokens tables)) tables.
Definition after_revocation : Gateway := gateway 5 revoked_tables [("#a", (ada, 0%Z))].

Example still_cached : (db_authenticate "a" after_revocation).1 = Ok (Some ada).
Proof. vm_compute. reflexivity. Qed.

Lemma withdrawn_token_expires_witness :
  (db_authenticate "a" (wait (60 * SECOND) after_revocation)).1 = Ok None ∧
  (db_authenticate "a" (wait (60 * SECOND) after_revocation)).1 ≠ Ok (Some ada).
Proof.
  split; [vm_compute; reflexivity|].
  apply (withdrawn_token_expires "a" 5 after_revocation [] (wait (60 * SECOND) after_revocation) []).
  - reflexivity.
  - intros t _. vm_compute. reflexivity.
  - intros id t Hin. apply elem_of_cons in Hin as [[= _ ->]|Hin]; [lia|set_solver].
  - set_solver.
  - apply rtc_once, step_wait. by vm_compute.
  - by vm_compute.
Defined.
End AuthDemo.
