(* ===== verification/UserHandlers.v ===== *)
(** * UserHandlers: the requests that manage users and tokens

    [src/channels/web/handlers/users.rs] and [tokens.rs] behind the extractors of [GatewayAuth.v], and the creation of the first
    administrator in [src/main.rs].  A handler is a computation of [St] over [Gateway] that returns the JSON of the reply or a failure.  What it draws at random
    is its argument [Draw]; the texts of identifiers, times and amounts and the crate [hex] are the class [HandlerEnv]. *)

From Stdlib Require Import Ascii.
From stdpp Require Import pretty.
From S2P Require Import Prelude Text TextSearch Effects ReplyText Routine UserStore Oidc GatewayAuth.

(** ** Data *)

Class HandlerEnv `{Decimal} := {
  he_rfc3339 : Z -> string;
  he_uuid_text : Uuid -> string;
  he_parse_uuid : string -> option Uuid;
  he_hex : list Z -> string;
  he_decimal_text : dec -> string
}.

(** The fresh identifiers and the 32 random bytes of a request. *)
Record Draw : Type := mkDraw { dr_user : Uuid; dr_token : Uuid; dr_bytes : list Z }.

Record GatewayState : Type := mkGatewayState { gs_store : bool; gs_db_auth : bool }.

Inductive Failure : Type := Status (code : Z) (text : string) | Panicked.

Definition BAD_REQUEST : Z := 400.
Definition NOT_FOUND : Z := 404.
Definition CONFLICT : Z := 409.
Definition INTERNAL_SERVER_ERROR : Z := 500.
Definition SERVICE_UNAVAILABLE : Z := 503.

Definition DAY : Z := 86400 * SECOND.

Section handlers.
  Context `{AuthEnv} `{OidcEnv} `{Decimal} `{!HandlerEnv} `{!UserPg} {C : Type} `{!Lru C}.
  Variable state : GatewayState.

Abbreviation Handler A := (St (Gateway (C := C)) (Result Failure A)).

Definition fail {A} (code : Z) (text : string) : Handler A := mret (Err (Status code text)).

(** [state.store.as_ref().ok_or(...)?] *)
Definition need_store : Handler unit :=
  if gs_store state then mret (Ok tt) else fail SERVICE_UNAVAILABLE "Database not available".

(** [.map_err(|e| (StatusCode::INTERNAL_SERVER_ERROR, e.to_string()))?] *)
Definition query {A} (c : Z -> St UserDb (Result string A)) : Handler A :=
  r ← on_db c; mret (match r with Ok a => Ok a | Err e => Err (Status INTERNAL_SERVER_ERROR e) end).

Definition found {A} (text : string) (o : option A) : Handler A :=
  match o with Some a => mret (Ok a) | None => fail NOT_FOUND text end.

Definition now_is : Handler Z := gets (fun g => Ok (gw_now g)).

Definition evict (user : string) : Handler unit :=
  if gs_db_auth state then _ ← invalidate_user user; mret (Ok tt) else mret (Ok tt).

(** [body.get(key).and_then(as_str).map(trim).filter(non-empty)] *)
Definition text_field (key : string) (body : Json) : option string :=
  s ← json_get key body ≫= as_str; if str_is_empty (trim s) then None else Some (trim s).

Definition is_object (v : Json) : bool := match v with JObject _ => true | _ => false end.

Definition jopt (o : option string) : Json := match o with Some s => JString s | None => JNull end.
Definition jtime (t : Z) : Json := JString (he_rfc3339 t).
Definition jopt_time (t : option Z) : Json := jopt (he_rfc3339 <$> t).

(** ** Users *)

Definition active_admins (users : list UserRecord) : list UserRecord := base.filter (fun u => u_role u = "admin") users.

Definition is_last_admin (user : string) : Handler bool :=
  users ←? query (fun _ => list_users (Some "active"));
  mret (Ok (match active_admins users with [u] => (u_id u =? user)%string | _ => false end)).

(** Whether the text of an error speaks of a duplicate. *)
Definition is_duplicate (msg : string) : bool :=
  let lower := string_map ascii_lower msg in
  contains "unique" lower || contains "duplicate" lower || contains "already exists" lower.

Definition valid_role (role : string) : bool := (role =? "admin")%string || (role =? "member")%string.

Definition new_user (id : string) (email : option string) (name role : string) (now : Z) (creator : option string) (metadata : Json)
    : UserRecord :=
  mkUser id email name "active" role now now None creator metadata.

Definition users_create_handler (draw : Draw) (user : UserIdentity) (body : Json) : Handler Json :=
  _ ←? need_store;
  match text_field "display_name" body with
  | None => fail BAD_REQUEST "Missing or empty 'display_name'"
  | Some display_name =>
      let email := text_field "email" body in
      let role := default "member" (json_get "role" body ≫= as_str) in
      if negb (valid_role role) then fail BAD_REQUEST "role must be 'admin' or 'member'"
      else
        now ←? now_is;
        let record := new_user (he_uuid_text (dr_user draw)) email display_name role now (Some (id_user user)) (JObject []) in
        let plaintext := he_hex (dr_bytes draw) in
        r ← on_db (fun now => create_user_with_token (dr_token draw) now record "initial" (hash_token plaintext) (str_to 8 plaintext) None);
        match r with
        | Err msg => fail (if is_duplicate msg then CONFLICT else INTERNAL_SERVER_ERROR) msg
        | Ok _ =>
            mret (Ok (JObject [("id", JString (u_id record)); ("email", jopt (u_email record));
              ("display_name", JString (u_display_name record)); ("status", JString (u_status record)); ("role", JString (u_role record));
              ("token", JString plaintext); ("created_at", jtime (u_created_at record)); ("created_by", jopt (u_created_by record))]))
        end
  end.

Definition stats_query {A} (c : St UserDb (Result StatsError A)) : Handler A :=
  r ← on_db (fun _ => c);
  mret (match r with
        | Ok a => Ok a
        | Err (StatsDb e) => Err (Status INTERNAL_SERVER_ERROR e)
        | Err NullUser => Err Panicked
        end).

Definition stats_map (rows : list UserSummaryStats) : gmap string UserSummaryStats :=
  foldl (fun m s => match us_user s with Some u => <[u := s]> m | None => m end) ∅ rows.

Definition listed_user (stats : gmap string UserSummaryStats) (u : UserRecord) : Json :=
  let s := stats !! u_id u in
  let last_active := match s ≫= us_last_active_at with Some t => Some t | None => u_last_login_at u end in
  JObject [("id", JString (u_id u)); ("email", jopt (u_email u)); ("display_name", JString (u_display_name u));
    ("status", JString (u_status u)); ("role", JString (u_role u)); ("created_at", jtime (u_created_at u));
    ("updated_at", jtime (u_updated_at u)); ("last_login_at", jopt_time (u_last_login_at u)); ("created_by", jopt (u_created_by u));
    ("job_count", JNumber (pretty (default 0%Z (us_job_count <$> s))));
    ("total_cost", JString (he_decimal_text (default dec_zero (us_total_cost <$> s))));
    ("last_active_at", jopt_time last_active)].

Definition users_list_handler : Handler Json :=
  _ ←? need_store;
  users ←? query (fun _ => list_users None);
  stats ←? stats_query (user_summary_stats None);
  mret (Ok (JObject [("users", JArray (listed_user (stats_map stats) <$> users))])).

Definition user_json (u : UserRecord) : list (string * Json) :=
  [("id", JString (u_id u)); ("email", jopt (u_email u)); ("display_name", JString (u_display_name u));
   ("status", JString (u_status u)); ("role", JString (u_role u)); ("created_at", jtime (u_created_at u))].

Definition users_detail_handler (id : string) : Handler Json :=
  _ ←? need_store;
  o ←? query (fun _ => get_user id);
  u ←? found "User not found" o;
  mret (Ok (JObject (user_json u ++ [("updated_at", jtime (u_updated_at u)); ("last_login_at", jopt_time (u_last_login_at u));
    ("created_by", jopt (u_created_by u)); ("metadata", u_metadata u)]))).

(** The role a request may set; [None] when there is nothing to change. *)
Definition asked_role (existing : UserRecord) (body : Json) : Result Failure (option string) :=
  match json_get "role" body ≫= as_str with
  | None => Ok None
  | Some role =>
      if negb (valid_role role) then Err (Status BAD_REQUEST "role must be 'admin' or 'member'")
      else Ok (if (role =? u_role existing)%string then None else Some role)
  end.

Definition update_role (id : string) (existing : UserRecord) (body : Json) : Handler unit :=
  change ←? mret (asked_role existing body);
  match change with
  | None => mret (Ok tt)
  | Some role =>
      last ←? (if (u_role existing =? "admin")%string && (role =? "member")%string then is_last_admin id else mret (Ok false));
      if (last : bool) then fail CONFLICT "Cannot demote the last admin"
      else _ ←? query (fun now => update_user_role now id role); evict id
  end.

Definition asked_metadata (current : UserRecord) (body : Json) : Result Failure Json :=
  match json_get "metadata" body with
  | Some m => if is_object m then Ok m else Err (Status BAD_REQUEST "metadata must be a JSON object")
  | None => Ok (u_metadata current)
  end.

Definition asked_name (current : UserRecord) (body : Json) : string := default (u_display_name current) (text_field "display_name" body).

Definition users_update_handler (id : string) (body : Json) : Handler Json :=
  _ ←? need_store;
  o ←? query (fun _ => get_user id);
  existing ←? found "User not found" o;
  metadata ←? mret (asked_metadata existing body);
  _ ←? update_role id existing body;
  _ ←? query (fun now => update_user_profile now id (asked_name existing body) metadata);
  o ←? query (fun _ => get_user id);
  updated ←? found "User not found" o;
  mret (Ok (JObject (user_json updated ++ [("updated_at", jtime (u_updated_at updated)); ("metadata", u_metadata updated)]))).

(** The checks before a user is suspended, and the change itself. *)
Definition suspend_allowed (id : string) : Handler unit :=
  o ←? query (fun _ => get_user id);
  _ ←? found "User not found" o;
  last ←? is_last_admin id;
  if (last : bool) then fail CONFLICT "Cannot suspend the last admin" else mret (Ok tt).

Definition set_status (id status : string) : Handler Json :=
  _ ←? query (fun now => update_user_status now id status);
  _ ←? evict id;
  mret (Ok (JObject [("id", JString id); ("status", JString status)])).

Definition users_suspend_handler (id : string) : Handler Json :=
  _ ←? need_store;
  _ ←? suspend_allowed id;
  set_status id "suspended".

Definition users_activate_handler (id : string) : Handler Json :=
  _ ←? need_store;
  o ←? query (fun _ => get_user id);
  _ ←? found "User not found" o;
  set_status id "active".

Definition users_delete_handler (id : string) : Handler Json :=
  _ ←? need_store;
  last ←? is_last_admin id;
  if (last : bool) then fail CONFLICT "Cannot delete the last admin"
  else
    deleted ←? query (fun _ => delete_user id);
    if (deleted : bool) then mret (Ok (JObject [("id", JString id); ("deleted", JBool true)]))
    else fail NOT_FOUND "User not found".

(** ** The own profile *)

Definition profile_get_handler (user : UserIdentity) : Handler Json :=
  _ ←? need_store;
  o ←? query (fun _ => get_user (id_user user));
  u ←? found "User not found" o;
  mret (Ok (JObject (user_json u ++ [("last_login_at", jopt_time (u_last_login_at u))]))).

Definition profile_update_handler (user : UserIdentity) (body : Json) : Handler Json :=
  _ ←? need_store;
  o ←? query (fun _ => get_user (id_user user));
  current ←? found "User not found" o;
  metadata ←? mret (asked_metadata current body);
  let name := asked_name current body in
  _ ←? query (fun now => update_user_profile now (id_user user) name metadata);
  mret (Ok (JObject [("id", JString (id_user user)); ("display_name", JString name); ("updated", JBool true)])).

(** ** Usage *)

Definition period_days (period : string) : Z :=
  if (period =? "week")%string then 7 else if (period =? "month")%string then 30 else 1.

Definition usage_json (s : UserUsageStats) : Json :=
  JObject [("user_id", jopt (uu_user s)); ("model", JString (uu_model s)); ("call_count", JNumber (pretty (uu_call_count s)));
    ("input_tokens", JNumber (pretty (uu_input_tokens s))); ("output_tokens", JNumber (pretty (uu_output_tokens s)));
    ("total_cost", JString (he_decimal_text (uu_total_cost s)))].

Definition usage_stats_handler (params : gmap string string) : Handler Json :=
  _ ←? need_store;
  now ←? now_is;
  let period := default "day" (params !! "period") in
  let since := (now - period_days period * DAY)%Z in
  stats ←? stats_query (user_usage_stats (params !! "user_id") since);
  mret (Ok (JObject [("period", JString period); ("since", jtime since); ("usage", JArray (usage_json <$> stats))])).

(** ** Tokens *)

Definition asked_expiry (body : Json) (now : Z) : Result Failure (option Z) :=
  match json_get "expires_in_days" body ≫= as_u64 with
  | Some d =>
      if (36500 <? d)%Z then Err (Status BAD_REQUEST "expires_in_days must not exceed 36500 (100 years)")
      else Ok (Some (now + d * DAY)%Z)
  | None => Ok None
  end.

(** Only an administrator can name another user. *)
Definition target_user (user : UserIdentity) (body : Json) : string :=
  match json_get "user_id" body ≫= as_str with
  | Some target => if (id_role user =? "admin")%string then target else id_user user
  | None => id_user user
  end.

Definition target_exists (user : UserIdentity) (target : string) : Handler unit :=
  if (target =? id_user user)%string then mret (Ok tt)
  else
    o ←? query (fun _ => get_user target);
    _ ←? found (cat ["Target user '"; target; "' not found"]) o;
    mret (Ok tt).

Definition tokens_create_handler (draw : Draw) (user : UserIdentity) (body : Json) : Handler Json :=
  _ ←? need_store;
  match text_field "name" body with
  | None => fail BAD_REQUEST "Missing or empty 'name'"
  | Some name =>
      now ←? now_is;
      expires ←? mret (asked_expiry body now);
      let plaintext := he_hex (dr_bytes draw) in
      let target := target_user user body in
      _ ←? target_exists user target;
      t ←? query (fun now => create_api_token (dr_token draw) now target name (hash_token plaintext) (str_to 8 plaintext) expires);
      mret (Ok (JObject [("token", JString plaintext); ("id", JString (he_uuid_text (at_id t))); ("name", JString (at_name t));
        ("token_prefix", JString (at_token_prefix t)); ("expires_at", jopt_time (at_expires_at t)); ("created_at", jtime (at_created_at t))]))
  end.

Definition token_json (t : ApiTokenRecord) : Json :=
  JObject [("id", JString (he_uuid_text (at_id t))); ("name", JString (at_name t)); ("token_prefix", JString (at_token_prefix t));
    ("expires_at", jopt_time (at_expires_at t)); ("last_used_at", jopt_time (at_last_used_at t)); ("created_at", jtime (at_created_at t));
    ("revoked_at", jopt_time (at_revoked_at t))].

Definition tokens_list_handler (user : UserIdentity) : Handler Json :=
  _ ←? need_store;
  tokens ←? query (fun _ => list_api_tokens (id_user user));
  mret (Ok (JObject [("tokens", JArray (token_json <$> tokens))])).

Definition tokens_revoke_handler (user : UserIdentity) (id : string) : Handler Json :=
  _ ←? need_store;
  match he_parse_uuid id with
  | None => fail BAD_REQUEST "Invalid token ID"
  | Some token =>
      revoked ←? query (fun now => revoke_api_token now token (id_user user));
      if (revoked : bool) then
        _ ←? evict (id_user user);
        mret (Ok (JObject [("status", JString "revoked"); ("id", JString (he_uuid_text token))]))
      else fail NOT_FOUND "Token not found"
  end.

(** ** Routes *)

Inductive Api : Type :=
| UsersCreate (body : Json)
| UsersList
| UsersDetail (id : string)
| UsersUpdate (id : string) (body : Json)
| UsersSuspend (id : string)
| UsersActivate (id : string)
| UsersDelete (id : string)
| UsageStats (params : gmap string string)
| ProfileGet
| ProfileUpdate (body : Json)
| TokensCreate (body : Json)
| TokensList
| TokensRevoke (id : string).

(** The handlers that take [AdminUser], and those that take [AuthenticatedUser]. *)
Definition as_admin (ext : option UserIdentity) (h : UserIdentity -> Handler Json) : Handler Json :=
  match admin_user ext with Ok user => h user | Err (code, text) => fail code text end.

Definition as_user (ext : option UserIdentity) (h : UserIdentity -> Handler Json) : Handler Json :=
  match authenticated_user ext with Ok user => h user | Err (code, text) => fail code text end.

Definition serve (draw : Draw) (ext : option UserIdentity) (api : Api) : Handler Json :=
  match api with
  | UsersCreate body => as_admin ext (fun user => users_create_handler draw user body)
  | UsersList => as_admin ext (fun _ => users_list_handler)
  | UsersDetail id => as_admin ext (fun _ => users_detail_handler id)
  | UsersUpdate id body => as_admin ext (fun _ => users_update_handler id body)
  | UsersSuspend id => as_admin ext (fun _ => users_suspend_handler id)
  | UsersActivate id => as_admin ext (fun _ => users_activate_handler id)
  | UsersDelete id => as_admin ext (fun _ => users_delete_handler id)
  | UsageStats params => as_admin ext (fun _ => usage_stats_handler params)
  | ProfileGet => as_user ext profile_get_handler
  | ProfileUpdate body => as_user ext (fun user => profile_update_handler user body)
  | TokensCreate body => as_user ext (fun user => tokens_create_handler draw user body)
  | TokensList => as_user ext tokens_list_handler
  | TokensRevoke id => as_user ext (fun user => tokens_revoke_handler user id)
  end.

(** A request through the middleware. *)
Definition handle (auth : CombinedAuthState) (draw : Draw) (r : Request) (api : Api) : Handler Json :=
  s ← auth_middleware auth r;
  match s with
  | Refuse code text => fail code text
  | Pass id => serve draw (Some id) api
  end.

(** ** The first administrator

    The first eight bytes of the configured token are its prefix, as [&auth_token[..8]] when the eighth byte ends a
    character. *)

Definition bootstrap (draw : Draw) (owner auth_token : string) : St (Gateway (C := C)) unit :=
  r ← on_db (fun _ => has_any_users);
  match r with
  | Ok false =>
      now ← gets gw_now;
      let user := new_user owner None owner "admin" now None (JObject [("source", JString "bootstrap")]) in
      if str_is_empty auth_token then _ ← on_db (fun _ => create_user user); mret tt
      else
        _ ← on_db (fun now => create_user_with_token (dr_token draw) now user "bootstrap" (hash_token auth_token) (str_to 8 auth_token) None);
        mret tt
  | _ => mret tt
  end.
End handlers.

(** ** Theorems *)

Section laws.
  Context `{AuthEnv} `{OidcEnv} `{!OidcEnvLaws} `{Decimal} `{!HandlerEnv} `{!UserPg} `{!UserPgLaws} {C : Type} `{!Lru C} `{!LruLaws C}.
  Variable state : GatewayState.
  Implicit Types (g : Gateway (C := C)) (d : UserDb).

(** *** Rules for handlers *)

(** A step that returns an error ends the handler; [J] holds there and at the end. *)
Lemma outcome_try {S E A B} (P J : S → Prop) (c : St S (Result E A)) (k : A → St S (Result E B)) (Q : A → S → Prop) :
  outcome P c (fun r s => J s ∧ ∀ a, r = Ok a → Q a s) → (∀ a, outcome (Q a) (k a) (fun _ s => J s)) →
  outcome P (st_try c k) (fun _ s => J s).
Proof.
  intros Hc Hk s Hs. unfold st_try. rewrite bind_run. destruct (Hc s Hs) as [HJ HQ]. destruct (c s) as [[a|e] s']; cbn [fst snd] in *; [|done].
  by apply (Hk a), HQ.
Qed.

(** A query does what its statement does, or fails and does nothing. *)
Lemma query_run {A} (c : Z → St UserDb (Result string A)) g :
  query c g = (match (c (gw_now g) (gw_db g)).1 with Ok a => Ok a | Err e => Err (Status INTERNAL_SERVER_ERROR e) end,
               set_db (c (gw_now g) (gw_db g)).2 g).
Proof. unfold query, on_db. rewrite bind_run. by destruct (c _ _) as [r d]. Qed.

(** Statements that only read. *)
Definition reads {A} (c : St UserDb (Result string A)) (f : UserDb → A) : Prop :=
  ∀ d, same_tables d (c d).2 ∧ ∀ a, (c d).1 = Ok a → a = f d.

Lemma get_user_reads id : reads (get_user id) (fun d => ud_users d !! id).
Proof. intros d. unfold get_user, st_try. rewrite bind_run. unfold conn. cbn [fst snd]. destruct (up_fault _); by repeat split; intros a [= <-]. Qed.

Lemma list_users_reads status : reads (list_users status) (users_with status).
Proof. intros d. unfold list_users, st_try. rewrite bind_run. unfold conn. cbn [fst snd]. destruct (up_fault _); by repeat split; intros a [= <-]. Qed.

(** What reading does not touch. *)
Definition same_gateway g g' : Prop :=
  same_tables (gw_db g) (gw_db g') ∧ gw_cache g' = gw_cache g ∧ gw_now g' = gw_now g.

Lemma same_gateway_refl g : same_gateway g g.
Proof. by repeat split. Qed.

Lemma same_gateway_trans g1 g2 g3 : same_gateway g1 g2 → same_gateway g2 g3 → same_gateway g1 g3.
Proof. intros ((? & ? & ?) & ? & ?) ((? & ? & ?) & ? & ?). repeat split; congruence. Qed.

Lemma query_reads {A} (c : St UserDb (Result string A)) f g :
  reads c f → same_gateway g (query (fun _ => c) g).2 ∧ ∀ a, (query (fun _ => c) g).1 = Ok a → a = f (gw_db g).
Proof.
  intros Hc. rewrite query_run. destruct (Hc (gw_db g)) as [Hsame Hval]. cbn [fst snd]. split; [by repeat split; apply Hsame|].
  intros a. destruct (c (gw_db g)).1 as [b|e]; [|done]. intros [= <-]. by apply Hval.
Qed.

(** *** There is always an administrator *)

Definition admin_in d (i : string) : Prop := ∃ u, ud_users d !! i = Some u ∧ u_status u = "active" ∧ u_role u = "admin".

Record managed d : Prop := { mg_ok : users_ok d; mg_admin : ∃ i, admin_in d i }.

Lemma admins_elem d u :
  u ∈ active_admins (users_with (Some "active") d) ↔ ∃ i, ud_users d !! i = Some u ∧ u_status u = "active" ∧ u_role u = "admin".
Proof.
  unfold active_admins, users_with. rewrite list_elem_of_filter, merge_sort_Permutation, list_elem_of_filter, up_scan_users_all, String.eqb_eq.
  rewrite list_elem_of_fmap. split.
  - intros (Hr & Hs & [i v] & -> & Hu%elem_of_map_to_list). eauto.
  - intros (i & Hu & Hs & Hr). repeat split; try done. exists (i, u). by rewrite elem_of_map_to_list.
Qed.

Lemma admins_nodup d : users_ok d → NoDup (active_admins (users_with (Some "active") d)).
Proof.
  intros Hd. unfold active_admins, users_with. apply NoDup_filter. rewrite merge_sort_Permutation. apply NoDup_filter. rewrite up_scan_users_all.
  apply NoDup_fmap_2_strong; [|apply NoDup_map_to_list]. intros [i u] [j v] Hi%elem_of_map_to_list Hj%elem_of_map_to_list. cbn. intros ->.
  f_equal. by rewrite <- (uo_key d Hd i v), <- (uo_key d Hd j v).
Qed.

Lemma is_last_admin_run (id : string) g :
  same_gateway g (is_last_admin id g).2 ∧
  (managed (gw_db g) → (is_last_admin id g).1 = Ok false → ∃ i, i ≠ id ∧ admin_in (gw_db g) i).
Proof.
  unfold is_last_admin, st_try. rewrite bind_run.
  destruct (query_reads _ _ g (list_users_reads (Some "active"))) as [Hsame Hval].
  destruct (query _ g) as [[users|e] g1]; cbn [fst snd] in *; [|done]. rewrite (Hval users eq_refl). split; [done|].
  intros [Hok [i (u & Hu & Hact & Hadm)]]. cbn [mret st_ret fst].
  assert (u ∈ active_admins (users_with (Some "active") (gw_db g))) as Hin by (apply admins_elem; eauto).
  pose proof (admins_nodup (gw_db g) Hok) as Hnd. pose proof (admins_elem (gw_db g)) as Helem.
  destruct (active_admins _) as [|v [|w l]]; [set_solver| |].
  - intros [= Hne%String.eqb_neq]. destruct (proj1 (Helem v)) as (j & Hv & Hs & Hr); [set_solver|].
    exists j. rewrite <- (uo_key _ Hok _ _ Hv) at 1. split; [done|]. by exists v.
  - intros _. destruct (proj1 (Helem v)) as (j & Hv & Hvs & Hvr); [set_solver|].
    destruct (proj1 (Helem w)) as (k & Hw & Hws & Hwr); [set_solver|].
    destruct (decide (j = id)) as [->|Hj]; [|exists j; split; [done|by exists v]].
    exists k. split; [|by exists w]. intros ->. simplify_eq. apply NoDup_cons in Hnd as [Hnd _]. set_solver.
Qed.

Lemma managed_tables d d' : same_tables d d' → managed d → managed d'.
Proof.
  intros (Hu & Ht & Ho) [[] Hadm]. split; [split; rewrite ?Hu, ?Ht; done|]. destruct Hadm as (i & u & Hi). exists i, u. by rewrite Hu.
Qed.

Abbreviation J := (fun g : Gateway (C := C) => managed (gw_db g)).
Abbreviation other_admin id := (fun g : Gateway (C := C) => ∃ i, i ≠ id ∧ admin_in (gw_db g) i).

Lemma same_gateway_managed g g' : same_gateway g g' → J g → J g'.
Proof. intros [Hs _]. by apply managed_tables. Qed.

Lemma update_user_run f id d :
  update_user f id d =
  match up_fault (ud_operations d) with
  | Some e => (Err e, (conn d).2)
  | None => (Ok tt, set_users (alter f id (ud_users d)) (conn d).2)
  end.
Proof. unfold update_user, st_try. rewrite bind_run. unfold conn. cbn [fst snd]. by destruct (up_fault _). Qed.

(** An update that takes no administrator away, or that leaves another one. *)
Definition admin_safe (f : UserRecord → UserRecord) : Prop :=
  ∀ u, u_status u = "active" → u_role u = "admin" → u_status (f u) = "active" ∧ u_role (f u) = "admin".

Lemma query_update_managed (f : Z → UserRecord → UserRecord) id :
  (∀ now, keeps_keys (f now)) →
  outcome (fun g => J g ∧ ((∀ now, admin_safe (f now)) ∨ other_admin id g)) (query (fun now => update_user (f now) id)) (fun _ g => J g).
Proof.
  intros Hf g [[Hok Hadm] Hcase]. rewrite query_run. cbn [fst snd set_db gw_db].
  split; [by apply update_user_ok|]. rewrite update_user_run. destruct (up_fault _); [done|]. cbn [snd].
  assert (∀ i, i ≠ id → admin_in (gw_db g) i → admin_in (set_users (alter (f (gw_now g)) id (ud_users (gw_db g))) (conn (gw_db g)).2) i) as Hother.
  { intros i Hn (u & Hu & Hsr). exists u. cbn. by rewrite lookup_alter_ne. }
  destruct Hcase as [Hsafe|(i & Hn & Hi)]; [|exists i; by apply Hother]. destruct Hadm as [i Hi]. exists i.
  destruct (decide (i = id)) as [->|Hn]; [|by apply Hother]. destruct Hi as (u & Hu & Hs & Hr). exists (f (gw_now g) u). cbn.
  rewrite lookup_alter_eq, Hu. split; [done|]. by apply Hsafe.
Qed.

Lemma evict_managed id : outcome J (evict state id) (fun _ g => J g).
Proof. intros g Hg. unfold evict. by destruct (gs_db_auth state). Qed.

Lemma set_status_managed id status :
  outcome (fun g => J g ∧ (status = "active" ∨ other_admin id g)) (set_status state id status) (fun _ g => J g).
Proof.
  unfold set_status. apply (outcome_try _ _ _ _ (fun _ g => J g)).
  - eapply outcome_conseq; [| |apply (query_update_managed (fun now => with_status status now) id); by repeat split].
    + intros g [HJ [->|Ho]]; (split; [done|]); [left|by right]. by intros now u Hs Hr.
    + intros a g Hg. split; [done|]. by intros.
  - intros _. apply (outcome_try _ _ _ _ (fun _ g => J g)); [|intros _; by apply outcome_ret].
    intros g Hg. pose proof (evict_managed id g Hg). split; [done|]. by intros.
Qed.

(** The steps handlers begin with. *)
Lemma pure_step {A B} (c : St (Gateway (C := C)) (Result Failure A)) (k : A → St (Gateway (C := C)) (Result Failure B)) :
  (∀ g, (c g).2 = g) → (∀ a, outcome J (k a) (fun _ g => J g)) → outcome J (st_try c k) (fun _ g => J g).
Proof. intros Hc Hk. apply (outcome_try _ _ _ _ (fun _ g => J g)); [|done]. intros g Hg. rewrite Hc. split; [done|]. by intros. Qed.

Lemma with_store {B} (k : unit → St (Gateway (C := C)) (Result Failure B)) :
  outcome J (k tt) (fun _ g => J g) → outcome J (st_try (need_store state) k) (fun _ g => J g).
Proof. intros Hk. apply pure_step; [|by intros []]. intros g. unfold need_store. by destruct (gs_store state). Qed.

Lemma get_user_step id : outcome J (query (fun _ => get_user id)) (fun r g => J g ∧ ∀ o, r = Ok o → J g ∧ ud_users (gw_db g) !! id = o).
Proof.
  intros g Hg. destruct (query_reads _ _ g (get_user_reads id)) as [Hs Hv]. pose proof (same_gateway_managed _ _ Hs Hg).
  split; [done|]. intros o Ho. split; [done|]. rewrite (Hv o Ho). destruct Hs as [[-> _] _]. done.
Qed.

Lemma found_step {A} text (o : option A) (f : Gateway (C := C) → option A) :
  outcome (fun g => J g ∧ f g = o) (found text o) (fun r g => J g ∧ ∀ a, r = Ok a → J g ∧ f g = Some a).
Proof. intros g [Hg Hf]. destruct o; cbn; (split; [done|]); [|done]. by intros a' [= <-]. Qed.

Lemma is_last_admin_step id :
  outcome J (is_last_admin id) (fun r g => J g ∧ ∀ b, r = Ok b → J g ∧ (b = false → other_admin id g)).
Proof.
  intros g Hg. destruct (is_last_admin_run id g) as [Hs Hv]. pose proof (same_gateway_managed _ _ Hs Hg) as Hg'.
  split; [done|]. intros b Hb. split; [done|]. intros ->. destruct (Hv Hg Hb) as (i & Hn & u & Hu). exists i. split; [done|]. exists u.
  destruct Hs as [[-> _] _]. done.
Qed.

Lemma query_managed {A} (c : Z → St UserDb (Result string A)) (B : Type) (k : A → St (Gateway (C := C)) (Result Failure B)) :
  (∀ now, preserves managed (c now)) → (∀ a, outcome J (k a) (fun _ g => J g)) → outcome J (st_try (query c) k) (fun _ g => J g).
Proof.
  intros Hc Hk. apply (outcome_try _ _ _ _ (fun _ g => J g)); [|done]. intros g Hg. rewrite query_run. cbn [fst snd set_db gw_db].
  pose proof (Hc (gw_now g) (gw_db g) Hg). split; [done|]. by intros.
Qed.

Lemma reads_managed {A} (c : St UserDb (Result string A)) f : reads c f → preserves managed c.
Proof. intros Hc d Hd. destruct (Hc d) as [Hs _]. by eapply managed_tables. Qed.

Lemma update_profile_managed now id name metadata : preserves managed (update_user_profile now id name metadata).
Proof.
  intros d [Hok Hadm]. split; [apply update_user_ok; [by repeat split|done]|]. unfold update_user_profile. rewrite update_user_run.
  destruct (up_fault _); [done|]. destruct Hadm as (i & u & Hu & Hs & Hr). exists i. cbn.
  destruct (decide (i = id)) as [->|Hn]; [|exists u; cbn; by rewrite lookup_alter_ne].
  exists (with_profile name metadata now u). cbn. by rewrite lookup_alter_eq, Hu.
Qed.

Lemma insert_user_managed u d : managed d → managed (insert_user u d).2.
Proof.
  intros [Hok Hadm]. split; [by apply insert_user_ok|]. unfold insert_user. case_bool_decide as Hnew; [done|]. destruct (email_taken u d); [done|].
  destruct (creator_known u d); [|done]. apply eq_None_not_Some in Hnew. destruct Hadm as (i & v & Hv & Hsr). exists i, v. cbn.
  rewrite lookup_insert_ne; [done|]. intros <-. by rewrite Hnew in Hv.
Qed.

Lemma insert_token_managed hash t d : managed d → managed (insert_token hash t d).2.
Proof.
  intros [Hok Hadm]. split; [by apply insert_token_ok|]. unfold insert_token. case_bool_decide; [done|]. by case_bool_decide.
Qed.

Lemma conn_managed : preserves managed conn.
Proof. intros d Hd. eapply managed_tables; [|exact Hd]. by repeat split. Qed.

Lemma create_api_token_managed id now user name hash prefix expires : preserves managed (create_api_token id now user name hash prefix expires).
Proof. apply preserves_try; [apply conn_managed|intros _]. apply preserves_act, insert_token_managed. Qed.

Lemma create_user_with_token_managed id now u name hash prefix expires :
  preserves managed (create_user_with_token id now u name hash prefix expires).
Proof.
  apply preserves_try; [apply conn_managed|intros _]. apply preserves_act. intros d Hd.
  pose proof (insert_user_managed u d Hd) as Hd1. destruct (insert_user u d) as [[?|e] d']; [|done]. cbn in Hd1.
  pose proof (insert_token_managed hash (new_token id now (u_id u) name prefix expires) d' Hd1) as Hd2.
  by destruct (insert_token _ _ d') as [[?|e] d''].
Qed.

Lemma revoke_api_token_managed now token user : preserves managed (revoke_api_token now token user).
Proof.
  intros d [Hok Hadm]. split; [by apply revoke_api_token_ok|]. unfold revoke_api_token, st_try. rewrite bind_run. unfold conn. cbn [fst snd].
  destruct (up_fault _); [done|]. unfold act. cbn [ud_tokens]. destruct (ud_tokens d !! token); [|done]. by destruct (_ && _).
Qed.

Lemma delete_user_managed id d : (∃ i, i ≠ id ∧ admin_in d i) → managed d → managed (delete_user id d).2.
Proof.
  intros (i & Hn & u & Hu & Hs & Hr) [Hok Hadm]. split; [by apply delete_user_ok|]. pose proof (deletion_all_or_nothing id d) as Hdel.
  destruct (delete_user id d) as [[b|e] d']; cbn [snd].
  - destruct Hdel as [_ He]. exists i, (without_creator id u). rewrite (kept_user _ _ _ He i Hn), Hu.
    split; [done|]. unfold without_creator. by case_bool_decide.
  - destruct Hdel as (Hus & _). exists i, u. by rewrite Hus.
Qed.

Lemma update_role_managed id existing body :
  outcome (fun g => J g ∧ ud_users (gw_db g) !! id = Some existing) (update_role state id existing body) (fun _ g => J g).
Proof.
  intros g [Hg Hex]. unfold update_role, st_try. rewrite bind_run. cbn [mret st_ret fst snd].
  destruct (asked_role existing body) as [[role|]|e] eqn:Hrole; [|done..]. rewrite bind_run.
  set (demotes := ((u_role existing =? "admin")%string && (role =? "member")%string)).
  assert (∃ b g1, ((if demotes then is_last_admin id else mret (Ok false)) g) = (b, g1) ∧ J g1 ∧ ud_users (gw_db g1) = ud_users (gw_db g) ∧
    (demotes = true → b = Ok false → other_admin id g1)) as (b & g1 & -> & Hg1 & Hus & Hother).
  { destruct demotes; [|by exists (Ok false), g]. destruct (is_last_admin_step id g Hg) as [Hg1 Hb]. destruct (is_last_admin_run id g) as [[Hs _] _].
    destruct (is_last_admin id g) as [b g1]. exists b, g1. split; [done|]. split; [done|]. split; [apply Hs|].
    intros _ Hb0. by apply (Hb false). }
  cbn [fst snd]. destruct b as [[]|e]; [done| |done].
  assert (outcome (fun g => J g ∧ ((∀ now, admin_safe (with_role role now)) ∨ other_admin id g ∨ ud_users (gw_db g) !! id = Some existing ∧ u_role existing ≠ "admin"))
    (query (fun now => update_user_role now id role)) (fun _ g => J g)) as Hq.
  { intros g2 [Hg2 [Hsafe|[Ho|[Hu Hn]]]].
    - by apply (query_update_managed (fun now => with_role role now) id); [by repeat split|split; [|left]].
    - by apply (query_update_managed (fun now => with_role role now) id); [by repeat split|split; [|right]].
    - apply (query_update_managed (fun now => with_role role now) id); [by repeat split|]. split; [done|]. right.
      destruct Hg2 as [_ (i & u & Hui & Hsr)]. exists i. split; [|by exists u]. intros ->. naive_solver. }
  rewrite bind_run. assert (J (query (fun now => update_user_role now id role) g1).2) as Hg2.
  { apply Hq. split; [done|]. destruct demotes eqn:Hd; [by right; left; apply Hother|]. unfold demotes in Hd.
    destruct (u_role existing =? "admin")%string eqn:Ha.
    - left. cbn in Hd. unfold asked_role in Hrole. destruct (json_get "role" body ≫= as_str) as [r|]; [|done].
      destruct (valid_role r) eqn:Hv; [|done]. cbn in Hrole. destruct (r =? u_role existing)%string; [done|]. injection Hrole as ->.
      unfold valid_role in Hv. rewrite Hd, orb_false_r in Hv. apply String.eqb_eq in Hv as ->. by intros now u.
    - right. right. apply String.eqb_neq in Ha. by rewrite Hus. }
  destruct (query _ g1) as [[[]|e] g2]; [|done]. by apply evict_managed.
Qed.

Lemma stats_query_managed {A B} (c : St UserDb (Result StatsError A)) (k : A → St (Gateway (C := C)) (Result Failure B)) :
  (∀ d, same_tables d (c d).2) → (∀ a, outcome J (k a) (fun _ g => J g)) → outcome J (st_try (stats_query c) k) (fun _ g => J g).
Proof.
  intros Hc Hk. apply (outcome_try _ _ _ _ (fun _ g => J g)); [|done]. intros g Hg. unfold stats_query. rewrite bind_run. unfold on_db.
  pose proof (managed_tables _ _ (Hc (gw_db g)) Hg) as Hd. destruct (c (gw_db g)) as [r d]. cbn in *. split; [done|]. by intros.
Qed.

Lemma list_api_tokens_reads user :
  reads (list_api_tokens user) (fun d => merge_sort newer_token (base.filter (fun t => at_user_id t = user) (tk_record <$> up_scan_tokens (ud_tokens d)))).
Proof.
  intros d. unfold list_api_tokens, st_try. rewrite bind_run. unfold conn. cbn [fst snd]. destruct (up_fault _); by repeat split; intros a [= <-].
Qed.

Lemma users_create_managed draw user body : outcome J (users_create_handler state draw user body) (fun _ g => J g).
Proof.
  apply with_store. destruct (text_field _ body); [|by apply outcome_ret].
  cbv zeta. destruct (negb _); [by apply outcome_ret|]. apply pure_step; [done|].
  intros now g Hg. rewrite bind_run. unfold on_db.
  match goal with |- context [create_user_with_token ?a ?b ?c ?d ?e ?f ?h] =>
    pose proof (create_user_with_token_managed a b c d e f h (gw_db g) Hg) as Hd; destruct (create_user_with_token a b c d e f h (gw_db g)) as [[t|msg] d'] end;
    exact Hd.
Qed.

Lemma users_update_managed id body : outcome J (users_update_handler state id body) (fun _ g => J g).
Proof.
  apply with_store.
  eapply outcome_try; [apply get_user_step|intros o]. eapply outcome_try; [apply (found_step _ o (fun g => ud_users (gw_db g) !! id))|].
  intros existing. apply (outcome_try _ _ _ _ (fun _ g => J g ∧ ud_users (gw_db g) !! id = Some existing)).
  { intros g [Hg Hex]. cbn. split; [done|]. by intros. }
  intros metadata. apply (outcome_try _ _ _ _ (fun _ g => J g)).
  { intros g Hg. pose proof (update_role_managed id existing body g Hg). split; [done|]. by intros. }
  intros _. apply query_managed; [intros now; apply update_profile_managed|intros _].
  apply query_managed; [intros _; eapply reads_managed, get_user_reads|intros o']. 
  apply pure_step; [by destruct o'|]. intros u. by apply outcome_ret.
Qed.

(** The checks leave everything as it was. *)
Lemma suspend_allowed_run id g :
  same_gateway g (suspend_allowed id g).2 ∧
  ((suspend_allowed id g).1 = Ok tt → is_Some (ud_users (gw_db g) !! id) ∧ (managed (gw_db g) → other_admin id g)).
Proof.
  unfold suspend_allowed, st_try. rewrite bind_run. destruct (query_reads _ _ g (get_user_reads id)) as [Hs Hv].
  destruct (query _ g) as [[o|e] g1]; cbn [fst snd] in *; [|done]. rewrite (Hv o eq_refl). rewrite bind_run.
  destruct (ud_users (gw_db g) !! id) as [u|] eqn:Hu; cbn [found mret st_ret fst snd]; [|done]. rewrite bind_run.
  destruct (is_last_admin_run id g1) as [Hs1 Hv1]. destruct (is_last_admin id g1) as [[b|e] g2]; cbn [fst snd] in *;
    [|split; [by eapply same_gateway_trans|done]].
  split; [destruct b; by eapply same_gateway_trans|]. destruct b; [done|]. intros _. split; [by eexists|]. intros Hg.
  destruct Hv1 as (i & Hn & v & Hi); [by eapply same_gateway_managed|done|]. exists i. split; [done|]. exists v.
  destruct Hs as [[<- _] _]. done.
Qed.

Lemma users_suspend_managed id : outcome J (users_suspend_handler state id) (fun _ g => J g).
Proof.
  apply with_store.
  apply (outcome_try _ _ _ _ (fun _ g => J g ∧ other_admin id g)).
  - intros g Hg. destruct (suspend_allowed_run id g) as [Hs Hv]. pose proof (same_gateway_managed _ _ Hs Hg). split; [done|].
    intros [] Hok. split; [done|]. destruct (Hv Hok) as [_ Ho]. destruct (Ho Hg) as (i & Hn & v & Hi). exists i. split; [done|]. exists v.
    destruct Hs as [[-> _] _]. done.
  - intros _. eapply outcome_conseq; [| |apply set_status_managed]; [|done]. intros g [Hg Ho]. by split; [|right].
Qed.

Lemma users_activate_managed id : outcome J (users_activate_handler state id) (fun _ g => J g).
Proof.
  apply with_store.
  apply query_managed; [intros _; eapply reads_managed, get_user_reads|intros o].
  apply pure_step; [by destruct o|]. intros _.
  eapply outcome_conseq; [| |apply set_status_managed]; [|done]. intros g Hg. by split; [|left].
Qed.

Lemma users_delete_managed id : outcome J (users_delete_handler state id) (fun _ g => J g).
Proof.
  apply with_store.
  eapply outcome_try; [apply is_last_admin_step|]. intros []; [by apply outcome_ret; intros ? []|].
  apply (outcome_try _ _ _ _ (fun _ g => J g)).
  - intros g [Hg Ho]. rewrite query_run. cbn [fst snd set_db gw_db].
    pose proof (delete_user_managed id (gw_db g) (Ho eq_refl) Hg). split; [done|]. by intros.
  - intros []; by apply outcome_ret.
Qed.

Lemma profile_update_managed user body : outcome J (profile_update_handler state user body) (fun _ g => J g).
Proof.
  apply with_store.
  apply query_managed; [intros _; eapply reads_managed, get_user_reads|intros o].
  apply pure_step; [by destruct o|]. intros current.
  apply pure_step; [done|]. intros metadata. cbv zeta.
  apply query_managed; [intros now; apply update_profile_managed|intros _]. by apply outcome_ret.
Qed.

Lemma tokens_create_managed draw user body : outcome J (tokens_create_handler state draw user body) (fun _ g => J g).
Proof.
  apply with_store. destruct (text_field _ body); [|by apply outcome_ret].
  apply pure_step; [done|]. intros now.
  apply pure_step; [done|]. intros expires. cbv zeta.
  apply (outcome_try _ _ _ _ (fun _ g => J g)).
  - unfold target_exists. intros g Hg. destruct (_ =? _)%string; [by cbn; split|].
    destruct (query_reads _ _ g (get_user_reads (target_user user body))) as [Hs _]. unfold st_try. rewrite bind_run.
    destruct (query _ g) as [[o|e] g1]; cbn [fst snd] in *; pose proof (same_gateway_managed _ _ Hs Hg); [|by split].
    by destruct o; cbn; split.
  - intros _. apply query_managed; [intros now'; apply create_api_token_managed|]. intros t. by apply outcome_ret.
Qed.

Lemma tokens_revoke_managed user id : outcome J (tokens_revoke_handler state user id) (fun _ g => J g).
Proof.
  apply with_store. destruct (he_parse_uuid id); [|by apply outcome_ret].
  apply query_managed; [intros now; apply revoke_api_token_managed|]. intros []; [|by apply outcome_ret].
  apply (outcome_try _ _ _ _ (fun _ g => J g)); [|intros _; by apply outcome_ret].
  intros g Hg. pose proof (evict_managed (id_user user) g Hg). split; [done|]. by intros.
Qed.

Lemma serve_managed draw ext api : outcome J (serve state draw ext api) (fun _ g => J g).
Proof.
  assert (∀ (h : UserIdentity → St (Gateway (C := C)) (Result Failure Json)), (∀ u, outcome J (h u) (fun _ g => J g)) →
    outcome J (as_admin ext h) (fun _ g => J g) ∧ outcome J (as_user ext h) (fun _ g => J g)) as Hext.
  { intros h Hh. unfold as_admin, as_user. split.
    - destruct (admin_user ext) as [u|[]]; [done|by apply outcome_ret].
    - destruct (authenticated_user ext) as [u|[]]; [done|by apply outcome_ret]. }
  destruct api; apply Hext; intros u.
  - apply users_create_managed.
  - apply with_store.
    apply query_managed; [intros _; eapply reads_managed, list_users_reads|intros users].
    apply stats_query_managed; [|intros; by apply outcome_ret]. intros d. unfold user_summary_stats. rewrite bind_run. unfold conn. cbn [fst snd].
    by destruct (up_fault _).
  - apply with_store.
    apply query_managed; [intros _; eapply reads_managed, get_user_reads|intros o].
    apply pure_step; [by destruct o|]. intros v. by apply outcome_ret.
  - apply users_update_managed.
  - apply users_suspend_managed.
  - apply users_activate_managed.
  - apply users_delete_managed.
  - apply with_store.
    apply pure_step; [done|]. intros now. cbv zeta.
    apply stats_query_managed; [|intros; by apply outcome_ret]. intros d. unfold user_usage_stats. rewrite bind_run. unfold conn. cbn [fst snd].
    by destruct (up_fault _).
  - apply with_store.
    apply query_managed; [intros _; eapply reads_managed, get_user_reads|intros o].
    apply pure_step; [by destruct o|]. intros v. by apply outcome_ret.
  - apply profile_update_managed.
  - apply tokens_create_managed.
  - apply with_store.
    apply query_managed; [intros _; eapply reads_managed, list_api_tokens_reads|intros l]. by apply outcome_ret.
  - apply tokens_revoke_managed.
Qed.

(** Requests served one after the other. *)
Definition serve_all (l : list (Draw * option UserIdentity * Api)) : St (Gateway (C := C)) unit :=
  st_iter (fun x => _ ← serve state x.1.1 x.1.2 x.2; mret tt) l.

(** C11. Whatever requests are served one after the other, by whomever, and whichever statements fail, an active administrator is left. *)
Theorem active_admin_remains l g : managed (gw_db g) → ∃ i, admin_in (gw_db (serve_all l g).2) i.
Proof.
  intros Hg. apply mg_admin. revert g Hg. unfold serve_all. induction l as [|[[draw ext] api] l IH]; intros g Hg; [done|]. cbn [st_iter].
  rewrite !bind_run. apply IH. apply (serve_managed draw ext api g Hg).
Qed.

Lemma on_db_run {A} (c : Z → St UserDb A) g : on_db c g = ((c (gw_now g) (gw_db g)).1, set_db (c (gw_now g) (gw_db g)).2 g).
Proof. unfold on_db. by destruct (c _ _). Qed.

Lemma first_user d u :
  ud_users d = ∅ → ud_tokens d = ∅ → u_email u = None → u_created_by u = None → u_status u = "active" → u_role u = "admin" →
  insert_user u d = (Ok tt, set_users {[u_id u := u]} d) ∧ managed (set_users {[u_id u := u]} d).
Proof.
  intros Hu Ht He Hc Hs Hr. assert (insert_user u d = (Ok tt, set_users {[u_id u := u]} d)) as Hi.
  { unfold insert_user, email_taken, creator_known. rewrite He, Hc, Hu, lookup_empty, bool_decide_false by (by intros []). done. }
  split; [done|]. split; [|exists (u_id u), u; cbn; by rewrite lookup_singleton_eq].
  assert (users_ok d) as Hd by (split; rewrite ?Hu, ?Ht; intros; by rewrite lookup_empty in *).
  pose proof (insert_user_ok u d Hd) as Hok. by rewrite Hi in Hok.
Qed.

(** A gateway that starts on empty tables, with a database that answers, has its owner as the administrator. *)
Lemma bootstrap_managed draw owner token g :
  ud_users (gw_db g) = ∅ → ud_tokens (gw_db g) = ∅ → (∀ n, up_fault n = None) → managed (gw_db (bootstrap draw owner token g).2).
Proof.
  intros Hu Ht Hf. unfold bootstrap. rewrite bind_run, on_db_run.
  assert ((has_any_users (gw_db g)) = (Ok false, (conn (gw_db g)).2)) as ->.
  { unfold has_any_users, st_try. rewrite bind_run. unfold conn. rewrite Hf. unfold gets. cbn [fst snd ud_users]. by rewrite Hu, bool_decide_true. }
  cbn [fst snd]. rewrite bind_run. cbn [gets fst snd]. cbv zeta. set (g1 := set_db _ g). set (u := new_user _ _ _ _ _ _ _).
  assert (∀ d, ud_users d = ∅ → ud_tokens d = ∅ → insert_user u d = (Ok tt, set_users {[owner := u]} d) ∧ managed (set_users {[owner := u]} d)) as Hins.
  { intros d Hu0 Ht0. by apply first_user. }
  destruct (str_is_empty token); rewrite bind_run, on_db_run; cbn [fst snd mret st_ret set_db gw_db].
  - unfold create_user, st_try. rewrite bind_run. unfold conn at 1. rewrite Hf. cbn [fst]. unfold act.
    destruct (Hins (conn (gw_db g1)).2 Hu Ht) as [-> Hm]. exact Hm.
  - unfold create_user_with_token, st_try. rewrite bind_run. unfold conn at 1. rewrite Hf. cbn [fst]. unfold act.
    destruct (Hins (conn (gw_db g1)).2 Hu Ht) as [-> Hm].
    match goal with |- context [insert_token ?h ?t ?d] => pose proof (insert_token_managed h t d Hm) as Hm2; destruct (insert_token h t d) as [[?|e] d2] eqn:Hi end;
      [exact Hm2|]. exfalso. unfold insert_token in Hi. cbn in Hi. unfold g1 in Hi. cbn in Hi.
    rewrite Ht, lookup_empty, bool_decide_false, lookup_singleton_eq, bool_decide_true in Hi by (by intros [] || by eexists). done.
Qed.

(** *** What a member can change *)

(** What nobody but an administrator may change of a user. *)
Definition rank (u : UserRecord) : string * option string * string * string * option string :=
  (u_id u, u_email u, u_status u, u_role u, u_created_by u).

Record confined (me : string) d0 d : Prop := {
  cf_others i : i ≠ me → ud_users d !! i = ud_users d0 !! i;
  cf_rank : rank <$> ud_users d !! me = rank <$> ud_users d0 !! me;
  cf_tokens i row : at_user_id (tk_record row) ≠ me → ud_tokens d !! i = Some row ↔ ud_tokens d0 !! i = Some row;
  cf_owned : ud_owned d = ud_owned d0
}.

Lemma confined_refl me d : confined me d d.
Proof. by split. Qed.

Lemma confined_tables me d0 d d' : same_tables d d' → confined me d0 d → confined me d0 d'.
Proof. intros (Hu & Ht & Ho) []. split; rewrite ?Hu, ?Ht, ?Ho; done. Qed.

Lemma query_preserves {A} (K : UserDb → Prop) (c : Z → St UserDb (Result string A)) :
  (∀ now, preserves K (c now)) → preserves (fun g : Gateway (C := C) => K (gw_db g)) (query c).
Proof. intros Hc g Hg. rewrite query_run. by apply Hc. Qed.

Lemma reads_confined {A} (c : St UserDb (Result string A)) f me d0 : reads c f → preserves (confined me d0) c.
Proof. intros Hc d Hd. destruct (Hc d) as [Hs _]. by eapply confined_tables. Qed.

Lemma update_profile_confined now me name metadata d0 : preserves (confined me d0) (update_user_profile now me name metadata).
Proof.
  intros d [Hi Hr Ht Ho]. unfold update_user_profile. rewrite update_user_run. destruct (up_fault _); [by split|]. split; cbn; [| |done|done].
  - intros i Hn. rewrite lookup_alter_ne by done. by apply Hi.
  - rewrite lookup_alter_eq, <- Hr. by destruct (ud_users d !! me).
Qed.

Lemma create_token_confined id now me name hash prefix expires d0 : preserves (confined me d0) (create_api_token id now me name hash prefix expires).
Proof.
  intros d Hd. unfold create_api_token, st_try. rewrite bind_run. unfold conn. cbn [fst snd]. destruct (up_fault _); [by apply (confined_tables _ _ d)|].
  unfold act, insert_token. cbn. destruct Hd as [Hi Hr Ht Ho]. case_bool_decide as Hnew; [by split|]. case_bool_decide; [|by split].
  split; cbn; try done. intros i row Hn. rewrite <- Ht by done. apply eq_None_not_Some in Hnew.
  destruct (decide (id = i)) as [<-|]; [|by rewrite lookup_insert_ne]. rewrite lookup_insert_eq, Hnew. split; [|done]. intros [= <-]. done.
Qed.

Lemma revoke_token_confined now token me d0 : preserves (confined me d0) (revoke_api_token now token me).
Proof.
  intros d Hd. unfold revoke_api_token, st_try. rewrite bind_run. unfold conn. cbn [fst snd]. destruct (up_fault _); [by apply (confined_tables _ _ d)|].
  unfold act. cbn [ud_tokens]. destruct Hd as [Hi Hr Ht Ho]. destruct (ud_tokens d !! token) as [row|] eqn:Hrow; [|by split].
  destruct (_ && _) eqn:Hb; [|by split]. apply andb_true_iff in Hb as [Hme%bool_decide_eq_true _]. split; cbn; try done.
  intros i row' Hn. rewrite <- Ht by done. destruct (decide (token = i)) as [<-|]; [|by rewrite lookup_insert_ne].
  rewrite lookup_insert_eq, Hrow. split; intros [= <-]; done.
Qed.

Lemma target_of_member user body : id_role user ≠ "admin" → target_user user body = id_user user.
Proof. intros Hn%String.eqb_neq. unfold target_user. rewrite Hn. by destruct (_ ≫= as_str). Qed.

(** C9. A request of someone who is not an administrator, whatever it asks for, changes nothing but the name and metadata of the own profile and
    the own tokens: no rank and no status, no other user, no token of another user. *)
Theorem member_confined draw who api g :
  id_role who ≠ "admin" → confined (id_user who) (gw_db g) (gw_db (serve state draw (Some who) api g).2).
Proof.
  intros Hn. set (d0 := gw_db g). revert g d0. cut (∀ d0, preserves (fun g : Gateway (C := C) => confined (id_user who) d0 (gw_db g)) (serve state draw (Some who) api)).
  { intros Hp g d0. apply (Hp d0 g), confined_refl. }
  intros d0. set (K := fun g : Gateway => confined (id_user who) d0 (gw_db g)).
  assert (∀ A (c : Z → St UserDb (Result string A)), (∀ now, preserves (confined (id_user who) d0) (c now)) → preserves K (query c)) as Hq
    by (intros A c; apply query_preserves).
  assert (∀ user, preserves K (query (fun _ => get_user user))) as Hget by (intros user; apply Hq; intros _; eapply reads_confined, get_user_reads).
  assert (preserves K (evict state (id_user who))) as Hev by (intros g Hg; unfold evict; by destruct (gs_db_auth state)).
  assert (preserves K (need_store state)) as Hst by (intros g Hg; unfold need_store; by destruct (gs_store state)).
  assert (∀ h, as_admin (Some who) h = (fail 403 "Admin role required" : St (Gateway (C := C)) _)) as Hadmin.
  { intros h. unfold as_admin, admin_user, authenticated_user. by apply String.eqb_neq in Hn as ->. }
  destruct api; cbn [serve as_user authenticated_user]; rewrite ?Hadmin; try apply preserves_ret.
  - unfold profile_get_handler, found, fail. preserve; try done.
  - unfold profile_update_handler, found, fail. preserve; try done. apply Hq. intros now. apply update_profile_confined.
  - unfold tokens_create_handler, target_exists, found, fail, now_is. rewrite target_of_member by done. preserve; try done.
    apply Hq. intros now. apply create_token_confined.
  - unfold tokens_list_handler. preserve; try done. apply Hq. intros _. eapply reads_confined, list_api_tokens_reads.
  - unfold tokens_revoke_handler, fail. preserve; try done. apply Hq. intros now. apply revoke_token_confined.
Qed.

(** *** When a change takes effect *)

Lemma evict_run id g :
  gs_db_auth state = true → (evict state id g).1 = Ok tt ∧ gw_db (evict state id g).2 = gw_db g ∧ no_entry id (evict state id g).2.
Proof.
  intros Hdb. unfold evict. rewrite Hdb. rewrite bind_run. cbn. split; [done|]. split; [done|]. intros h e Hin.
  by apply evict_user_entries in Hin as [_ Hin].
Qed.

Lemma set_status_run id status g j g' :
  gs_db_auth state = true → set_status state id status g = (Ok j, g') →
  ud_users (gw_db g') = alter (with_status status (gw_now g)) id (ud_users (gw_db g)) ∧ no_entry id g'.
Proof.
  intros Hdb. unfold set_status, st_try. rewrite bind_run, query_run. unfold update_user_status. rewrite update_user_run.
  destruct (up_fault _); cbn [fst snd]; [done|]. rewrite bind_run.
  match goal with |- context [evict state id ?g1] => destruct (evict_run id g1 Hdb) as (Hok & Hd & Hno); destruct (evict state id g1) as [r g2] end.
  cbn [fst snd] in *. subst r. intros [= _ <-]. by rewrite Hd.
Qed.

(** C10. Once the request that suspends a user has been answered, no token of the database stands for the user until the account
    is active again: requests may overlap in any way, if none that had already found the user active was under way. *)
Theorem suspension_takes_effect id g j g' fl g2 fl2 :
  gs_db_auth state = true → users_ok (gw_db g) → users_suspend_handler state id g = (Ok j, g') →
  (∀ h who, (h, who) ∈ fl → id_user who ≠ id) → rtc (gw_step (barred id)) (g', fl) (g2, fl2) →
  ∀ token who, (db_authenticate token g2).1 = Ok (Some who) → id_user who ≠ id.
Proof.
  intros Hdb Hok Hs Hfl Hsteps. unfold users_suspend_handler, st_try in Hs. rewrite bind_run in Hs. unfold need_store in Hs.
  destruct (gs_store state); [|done]. cbn [mret st_ret fst snd] in Hs. rewrite bind_run in Hs.
  destruct (suspend_allowed_run id g) as [Hsame _]. destruct (suspend_allowed id g) as [[[]|e] g1]; cbn [fst snd] in *; [|done].
  destruct (set_status_run id "suspended" g1 j g' Hdb Hs) as [Hu Hno]. destruct Hsame as ((Hus & _ & _) & _ & _). rewrite Hus in Hu.
  eapply barred_stays_out; [|exact Hno|exact Hfl|exact Hsteps]. split; rewrite Hu.
  - intros u. rewrite lookup_alter_eq. destruct (ud_users (gw_db g) !! id); [|done]. by intros [= <-].
  - intros i u. destruct (decide (id = i)) as [<-|Hn].
    + rewrite lookup_alter_eq. destruct (ud_users (gw_db g) !! id) eqn:Hv; [|done]. intros [= <-]. by apply (uo_key _ Hok id) in Hv.
    + rewrite lookup_alter_ne by done. apply (uo_key _ Hok).
Qed.

(** Deleting a user does not evict the user from the cache: whoever was admitted before is admitted afterwards, with the role of
    the deleted account. *)
Theorem deleted_user_still_admitted id token who g j g' :
  (cache_lookup (hash_token token) g).1 = Some who → users_delete_handler state id g = (Ok j, g') →
  ud_users (gw_db g') !! id = None ∧ (db_authenticate token g').1 = Ok (Some who).
Proof.
  intros Hhit Hd. unfold users_delete_handler, st_try in Hd. rewrite bind_run in Hd. unfold need_store in Hd.
  destruct (gs_store state); [|done]. cbn [mret st_ret fst snd] in Hd. rewrite bind_run in Hd.
  destruct (is_last_admin_run id g) as [(Hs & Hc & Hn) _]. destruct (is_last_admin id g) as [[[]|e] g1]; cbn [fst snd] in *; [done| |done].
  rewrite bind_run, query_run in Hd. pose proof (deletion_all_or_nothing id (gw_db g1)) as Hdel.
  destruct (delete_user id (gw_db g1)) as [[[]|e] d']; cbn [fst snd mret st_ret] in *; [|done..]. injection Hd as _ <-.
  destruct Hdel as [_ He]. split; [apply (er_user _ _ _ He)|]. rewrite db_authenticate_run. cbv zeta.
  unfold cache_lookup in *. cbn [set_db gw_cache gw_now]. rewrite Hc, Hn. destruct (lru_get _ _) as [[[w t]|] c]; [|done].
  destruct (_ <? _)%Z; [|done]. cbn in Hhit. by simplify_eq.
Qed.

(** A revocation that overtakes a request under way is undone in the cache: the request has its answer from before, the handler evicts the
    user, and the request then puts the answer into the cache, where it counts for a minute. *)
Theorem revocation_overtaken user text token who g j g1 g2 :
  let h := hash_token token in
  ask_db h g = (Ok (Some who), g1) → tokens_revoke_handler state user text g1 = (Ok j, g2) →
  (∃ id row, he_parse_uuid text = Some id ∧ ud_tokens (gw_db g2) !! id = Some row ∧ is_Some (at_revoked_at (tk_record row))) ∧
  (db_authenticate token (remember h who g2).2).1 = Ok (Some who).
Proof.
  intros h _ Hr. split.
  - unfold tokens_revoke_handler, st_try in Hr. rewrite bind_run in Hr. unfold need_store in Hr. destruct (gs_store state); [|done].
    cbn [mret st_ret fst snd] in Hr. destruct (he_parse_uuid text) as [id|]; [|done]. rewrite bind_run, query_run in Hr.
    unfold revoke_api_token, st_try in Hr. rewrite bind_run in Hr. unfold conn in Hr. cbn [fst snd] in Hr.
    destruct (up_fault _); [done|]. unfold act in Hr. cbn [ud_tokens] in Hr. destruct (ud_tokens (gw_db g1) !! id) as [row|] eqn:Hrow; [|done].
    destruct (_ && _); cbn [fst snd] in Hr; [|done]. rewrite bind_run in Hr. exists id, (revoked (gw_now g1) row).
    split; [done|]. split; [|by eexists].
    assert (∀ g, gw_db (evict state (id_user user) g).2 = gw_db g) as Hev by (intros; unfold evict; by destruct (gs_db_auth state)).
    match type of Hr with context [evict state ?u ?g3] => pose proof (Hev g3) as Hd; destruct (evict state u g3) as [[[]|e] g4] end; [|done].
    injection Hr as _ <-. cbn [snd] in Hd. rewrite Hd. cbn. by rewrite lookup_insert_eq.
  - rewrite db_authenticate_run. cbv zeta. fold h. unfold cache_lookup, remember. cbn [modify snd set_cache gw_cache gw_now].
    pose proof (lru_get_put h (who, gw_now g2) (gw_cache g2)) as Hget. destruct (lru_get _ _) as [o c]. cbn in Hget. subst o.
    unfold elapsed_secs. by rewrite Z.sub_diag.
Qed.

(** The identity provider is believed whatever the users' table says: the answer does not depend on the database. *)
Theorem provider_ignores_users auth r d g : (try_oidc auth r (set_db d g)).1 = (try_oidc auth r g).1.
Proof.
  unfold try_oidc. destruct (ca_oidc auth) as [config|]; [|done]. destruct (header_text _ r) as [jwt|]; [|done]. rewrite !bind_run.
  unfold on_oidc. cbn [set_db gw_oidc gw_now]. destruct (validate_oidc_jwt _ _ _) as [v o]. cbn [fst snd]. by destruct v.
Qed.

(** *** A new token *)

Lemma one_row d id row h now u :
  ud_tokens d !! id = None → (∀ i r, ud_tokens d !! i = Some r → tk_hash r ≠ h) → live_token now h row = true →
  ud_users d !! at_user_id (tk_record row) = Some u → u_status u = "active" →
  token_rows now h (set_tokens (<[id := row]> (ud_tokens d)) d) = [(tk_record row, u)].
Proof.
  intros Hnew Hfresh Hlive Hu Hs. unfold token_rows. cbn [ud_tokens set_tokens].
  assert (base.filter (fun r => live_token now h r = true) (up_scan_tokens (<[id:=row]> (ud_tokens d))) = [row]) as ->.
  { apply Permutation_singleton_r. rewrite up_scan_tokens_all, map_to_list_insert by done. cbn [fmap list_fmap snd].
    rewrite filter_cons_True by done. f_equiv. 
    assert (base.filter (fun r => live_token now h r = true) (map_to_list (ud_tokens d)).*2 = []) as ->; [|done].
    apply elem_of_nil_inv. intros r [Hl ([i r'] & -> & Hr%elem_of_map_to_list)%list_elem_of_fmap]%list_elem_of_filter. cbn in Hl.
    unfold live_token in Hl. specialize (Hfresh i r' Hr). apply String.eqb_neq in Hfresh. by rewrite Hfresh in Hl. }
  cbn [omap list_omap]. unfold join_user. cbn [ud_users set_tokens]. rewrite Hu. cbn [mbind option_bind]. by rewrite Hs.
Qed.

Lemma known_token_admitted token t u g :
  (∀ e, (hash_token token, e) ∉ lru_entries (gw_cache g)) → up_fault (ud_operations (gw_db g)) = None →
  token_rows (gw_now g) (hash_token token) (gw_db g) = [(t, u)] →
  (db_authenticate token g).1 = Ok (Some (mkIdentity (u_id u) (u_role u) [])).
Proof.
  intros Hcache Hf Hrows. rewrite db_authenticate_run. cbv zeta.
  destruct (cache_lookup_run (hash_token token) g) as (_ & Hd & Hn & _ & Hhit).
  destruct (cache_lookup _ g) as [[w|] g1]; cbn [fst snd] in *.
  { destruct (Hhit w eq_refl) as (tm & Hin & _). by destruct (Hcache _ Hin). }
  unfold ask_db. rewrite bind_run, on_db_run. rewrite Hd, Hn. unfold authenticate_token, st_try. rewrite bind_run. unfold conn. cbn [fst snd].
  rewrite Hf. unfold gets. change (token_rows (gw_now g) (hash_token token) (mkUserDb _ _ _ _)) with (token_rows (gw_now g) (hash_token token) (gw_db g)).
  rewrite Hrows. cbn [fst snd]. by rewrite bind_run.
Qed.

(** C34. The token of a reply works: whoever presents the text that the handler returned, next, is the user it was made for; provided that this user
    is active, that the asked expiry, if any, is in the future, that the database answers, and that the hash of the new text, which is
    random, is neither in the table nor in the cache yet. *)
Theorem created_token_logs_in draw user body g j g' u :
  let plaintext := he_hex (dr_bytes draw) in
  tokens_create_handler state draw user body g = (Ok j, g') →
  ud_users (gw_db g) !! target_user user body = Some u → u_status u = "active" →
  (∀ i row, ud_tokens (gw_db g) !! i = Some row → tk_hash row ≠ hash_token plaintext) →
  (∀ e, (hash_token plaintext, e) ∉ lru_entries (gw_cache g)) →
  (∀ t, asked_expiry body (gw_now g) = Ok (Some t) → (gw_now g < t)%Z) →
  up_fault (ud_operations (gw_db g')) = None →
  json_get "token" j = Some (JString plaintext) ∧ (db_authenticate plaintext g').1 = Ok (Some (mkIdentity (u_id u) (u_role u) [])).
Proof.
  intros plaintext Hc Hu Hs Hfresh Hcache Hexp Hf. unfold tokens_create_handler, st_try in Hc. rewrite bind_run in Hc. unfold need_store in Hc.
  destruct (gs_store state); [|done]. cbn [mret st_ret fst snd] in Hc. destruct (text_field "name" body) as [name|]; [|done].
  rewrite bind_run in Hc. unfold now_is in Hc. cbn [gets fst snd] in Hc. rewrite bind_run in Hc. cbn [mret st_ret fst snd] in Hc.
  destruct (asked_expiry body (gw_now g)) as [expires|e] eqn:He; [|done]. cbv zeta in Hc. rewrite bind_run in Hc.
  assert (same_gateway g (target_exists user (target_user user body) g).2) as (Hsame & Hca & Hn).
  { unfold target_exists. destruct (_ =? _)%string; [apply same_gateway_refl|]. unfold st_try. rewrite bind_run.
    destruct (query_reads _ _ g (get_user_reads (target_user user body))) as [Hsame _]. destruct (query _ g) as [[o|e] g1]; [|done]. by destruct o. }
  destruct (target_exists _ _ g) as [[[]|e] g1]; cbn [fst snd] in *; [|done]. rewrite bind_run, query_run in Hc. fold plaintext in Hc.
  unfold create_api_token, st_try in Hc. rewrite bind_run in Hc. unfold conn in Hc. cbn [fst snd] in Hc. destruct (up_fault _); [done|].
  unfold act, insert_token in Hc. cbn [new_token at_id at_user_id ud_tokens ud_users] in Hc. case_bool_decide as Hnew; [done|].
  case_bool_decide; [|done]. cbn [fst snd mret st_ret] in Hc. injection Hc as <- <-. split; [done|].
  apply eq_None_not_Some in Hnew. destruct Hsame as (Hus & Hts & _).
  eapply known_token_admitted; cbn [set_db set_tokens gw_cache gw_now gw_db ud_operations]; [by rewrite Hca|exact Hf|].
  match goal with |- token_rows _ _ (set_tokens (<[_:=?row]> _) ?d) = _ => apply (one_row d (dr_token draw) row) end; cbn [ud_tokens ud_users tk_record at_user_id new_token];
    [done|by rewrite Hts| |by rewrite Hus|done].
  unfold live_token. cbn [tk_hash tk_record new_token at_revoked_at at_expires_at]. rewrite String.eqb_refl, bool_decide_true by done. cbn [andb].
  destruct expires as [t|]; [|done]. rewrite Hn. apply Z.ltb_lt. by apply Hexp.
Qed.
End laws.

(** ** Concrete requests *)

Module HandlersDemo.
Import UserDemo OidcDemo AuthDemo.

#[export] Instance handler_env : HandlerEnv := {|
  he_rfc3339 := pretty; he_uuid_text := pretty; he_parse_uuid := fun s => if (s =? "1")%string then Some 1%N else None;
  he_hex := fun _ => "0123456789"; he_decimal_text := fun _ => "0"
|}.

Definition both : GatewayState := mkGatewayState true true.
Definition draw : Draw := mkDraw 8 9 [].
Definition eve : UserIdentity := mkIdentity "eve" "member" [].

Lemma tables_ok : users_ok tables.
Proof.
  split; cbn.
  - intros i u Hu. by repeat (apply lookup_insert_Some in Hu as [[<- <-]|[_ Hu]]; [done|]); apply lookup_singleton_Some in Hu as [<- <-].
  - intros i u c Hu. by repeat (apply lookup_insert_Some in Hu as [[<- <-]|[_ Hu]]; [done|]); apply lookup_singleton_Some in Hu as [<- <-].
  - intros i i' u u' e Hu. by repeat (apply lookup_insert_Some in Hu as [[<- <-]|[_ Hu]]; [done|]); apply lookup_singleton_Some in Hu as [<- <-].
  - intros i r Hr. by repeat (apply lookup_insert_Some in Hr as [[<- <-]|[_ Hr]]; [done|]); apply lookup_singleton_Some in Hr as [<- <-].
  - intros i r Hr.
    repeat (apply lookup_insert_Some in Hr as [[<- <-]|[_ Hr]]; [by eexists|]); apply lookup_singleton_Some in Hr as [<- <-]; by eexists.
Qed.

Lemma active_admin_remains_witness :
  ∃ i, admin_in (gw_db (serve_all both [(draw, Some ada, UsersSuspend "ada"); (draw, Some ada, UsersDelete "bob")] AuthDemo.start).2) i.
Proof. apply (active_admin_remains both). split; [apply tables_ok|]. by exists "ada", (user "ada" "admin"). Defined.

Definition checks : St (Gateway (C := ListLru)) (Result Failure unit) := _ ←? suspend_allowed "ada"; suspend_allowed "bob".
Definition changes : St (Gateway (C := ListLru)) (Result Failure Json) :=
  _ ←? set_status both "ada" "suspended"; set_status both "bob" "suspended".

(** Two requests that overlap: both administrators are counted before either is suspended, and none is left. *)
Theorem overlapping_suspensions :
  (checks AuthDemo.start).1 = Ok tt ∧
  map_Forall (fun _ u => ¬ (u_status u = "active" ∧ u_role u = "admin")) (ud_users (gw_db (changes (checks AuthDemo.start).2).2)).
Proof. split; [vm_compute; reflexivity|]. apply (bool_decide_unpack _). vm_compute. exact I. Qed.

Lemma member_confined_witness :
  confined "eve" tables (gw_db (serve both draw (Some eve) (TokensCreate (JObject [("name", JString "x"); ("user_id", JString "ada")])) AuthDemo.start).2).
Proof. apply (member_confined both draw eve (TokensCreate _) AuthDemo.start). done. Defined.

Definition suspended : Gateway := (users_suspend_handler both "ada" AuthDemo.start).2.

Definition bob : UserIdentity := mkIdentity "bob" "admin" [].

Lemma suspension_takes_effect_witness :
  (db_authenticate "a" (wait 1 suspended)).1 = Ok None ∧ (db_authenticate "b" (wait 1 suspended)).1 = Ok (Some bob) ∧ id_user bob ≠ "ada".
Proof.
  split; [vm_compute; reflexivity|]. split; [vm_compute; reflexivity|].
  apply (suspension_takes_effect both "ada" AuthDemo.start (JObject [("id", JString "ada"); ("status", JString "suspended")]) suspended []
    (wait 1 suspended) []) with (token := "b").
  - reflexivity.
  - apply tables_ok.
  - vm_compute. reflexivity.
  - set_solver.
  - by apply rtc_once, step_wait.
  - vm_compute. reflexivity.
Defined.

Lemma deleted_user_still_admitted_witness :
  ud_users (gw_db (users_delete_handler both "ada" AuthDemo.start).2) !! "ada" = None ∧
  (db_authenticate "a" (users_delete_handler both "ada" AuthDemo.start).2).1 = Ok (Some ada).
Proof.
  apply (deleted_user_still_admitted both "ada" "a" ada AuthDemo.start (JObject [("id", JString "ada"); ("deleted", JBool true)]));
    vm_compute; reflexivity.
Defined.

Definition cold : Gateway := gateway 0 tables [].

Definition overtaken : Gateway := (tokens_revoke_handler both ada "1" (ask_db (hash_token "a") cold).2).2.

Lemma revocation_overtaken_witness :
  (∃ id row, he_parse_uuid "1" = Some id ∧ ud_tokens (gw_db overtaken) !! id = Some row ∧ is_Some (at_revoked_at (tk_record row))) ∧
  (db_authenticate "a" (remember (hash_token "a") ada overtaken).2).1 = Ok (Some ada).
Proof.
  apply (revocation_overtaken both ada "1" "a" ada cold (JObject [("status", JString "revoked"); ("id", JString "1")])
    (ask_db (hash_token "a") cold).2 overtaken); vm_compute; reflexivity.
Defined.

Definition asks : Json := JObject [("name", JString "ci"); ("expires_in_days", JNumber "30")].

Definition reply : Json :=
  JObject [("token", JString "0123456789"); ("id", JString "9"); ("name", JString "ci"); ("token_prefix", JString "01234567");
    ("expires_at", JString "2592000000000000"); ("created_at", JString "0")].

Lemma created_token_logs_in_witness :
  json_get "token" reply = Some (JString (he_hex (dr_bytes draw))) ∧
  (db_authenticate (he_hex (dr_bytes draw)) (tokens_create_handler both draw eve asks cold).2).1 =
  Ok (Some (mkIdentity (u_id (user "eve" "member")) (u_role (user "eve" "member")) [])).
Proof.
  apply (created_token_logs_in both draw eve asks cold reply (tokens_create_handler both draw eve asks cold).2 (user "eve" "member")).
  - vm_compute. reflexivity.
  - vm_compute. reflexivity.
  - reflexivity.
  - intros i r Hr. change (ud_tokens tables !! i = Some r) in Hr. cbn [tables ud_tokens] in Hr.
    repeat (apply lookup_insert_Some in Hr as [[<- <-]|[_ Hr]]; [done|]). by apply lookup_singleton_Some in Hr as [<- <-].
  - intros e. apply not_elem_of_nil.
  - intros t. vm_compute. by intros [= <-].
  - reflexivity.
Defined.
End HandlersDemo.
